(* ===== verification/_CoqProject ===== *)
-Q . S2P
Prelude.v
RustStr.v
Identity.v
Settings.v
Scheduler.v
SchedulerInv.v
SchedulerSpec.v
SchedulerSteps.v
SchedulerProps.v
SchedulerTurns.v
WaitGraph.v
WaitGraphSearch.v
WaitGraphProps.v
Approval.v
ApprovalProps.v
BoardTypes.v
Outcome.v
Board.v
OverlapOrder.v
Waves.v
OutcomeProps.v
BoardDeps.v
BoardProps.v
BoardAuthority.v
WaveLevels.v
WaveSched.v
WavePlan.v
WaveProps.v
Render.v
Patch.v
PatchApply.v
PatchParse.v
TextEdit.v
TextEditProps.v
FileActivity.v
FileActivityProps.v
FileLocks.v
EditExamples.v
History.v
HistoryProps.v
SubGoal.v
SubGoalProps.v
SubGoalGraphProps.v
GoalLedger.v
GoalSession.v
GoalSessionProps.v
GoalProps.v
SubGoalLanes.v
Question.v
QuestionProps.v
Transcript.v
TranscriptProps.v
CronJob.v
CronSchedule.v
CronScheduleProps.v
CronRunner.v
CronRunnerProps.v
CronPass.v
CronExamples.v
ActiveContext.v
ActiveContextProps.v
Delivery.v
DeliveryQueue.v
DeliveryProps.v
DeliverySteps.v
DeliveryFate.v
ChatExamples.v
PlannerQna.v
BoardTxn.v
BoardRuns.v
BoardWithdraw.v
PlannerReply.v
PlannerSystem.v
PlannerExamples.v
Peers.v
Teams.v
PeersProps.v
TeamsProps.v
TeamsExamples.v
Causal.v
