(* ===== verification/Prelude.v ===== *)
(** * A verification of the work-coordination core of the Refact engine

    Refact's engine (Rust, [src/refact-agent/engine]) runs many chats, agents,
    sub-agents and background tasks at once.  This library models the parts of it
    that decide who may run, who waits for whom, what may be executed, in which order
    planned work is started, when it is finished, how files are edited when
    several chats share them, what a chat sends to its model, which goal it pursues and
    what it asks of its user, and proves them correct.  The Rust sources are
    [crates/refact-work-core/src] ([identity.rs], [contracts.rs], [cap_stop.rs],
    [settings.rs], [scheduler.rs], [waitgraph.rs], [approval.rs]),
    [crates/refact-tasks/src] ([types.rs], [waves.rs], [overlap_order.rs]), the
    transactions of [src/tasks/storage.rs], the questions of agents to their planner in
    [src/tools/tool_agent_planner_qna.rs] and [planner_delivery.rs], peers and teams in
    [src/coordination], [crates/refact-file-edit-core/src]
    ([openai_apply_patch.rs], [text_edit.rs]), [src/file_activity.rs],
    [crates/refact-chat-history/src/history_limit.rs], [crates/refact-chat-api/src]
    ([sub_goal.rs], [goal_ledger.rs], [question.rs], the goal's data in [lib.rs]),
    [crates/refact-exec/src/transcript.rs], [src/scheduler],
    [crates/refact-core/src/active_context.rs], the deliveries of
    [crates/refact-core/src/chat_types.rs], and the goal and the pending deliveries of a
    session in [src/chat/session.rs] and [src/chat/types.rs].

    ** How the parts interact

    A unit of work is identified by a run key and belongs to a project, a checkout
    (its root) and an origin.  Before it executes it takes a ticket from the
    scheduler, which grants a bounded number of permits per engine, per project and
    per root, as the coordination settings say.  A running unit that blocks on other
    runs declares its waits in the wait registry; a detector searches the waits for a
    cycle and refuses the wait that closed one.  A tool call that needs consent is
    registered with the approvals and executed only after its parent's decision.
    Work planned on a task board is claimed, reviewed and finalized under the
    board's rules, every change of the board in a transaction under its lock; the board's dependencies put its cards in waves, and a schedule of
    lanes over the waves says which cards are dispatched now and in which groups, so
    that cards of one group touch no common file.  Agents edit files by patches,
    anchors and line ranges; each edit is a transaction under cooperative locks, let
    through only if its chat has seen what it is about to change.  A chat pursues at most
    one goal under a budget, waits on typed subjects and composes sub-goals as lanes; all
    of it is recorded in a ledger from which the goal is restored.  Before each request
    its history is repaired so that tool calls and results pair up; what it must
    not decide alone it asks as a question, which is settled once.  The agent of a card asks
    the planner of its task: the question is registered and marked on the card, the planner's
    answer is recorded with the board and delivered to the agent's chat, and questions of an
    agent whose work ended are withdrawn.  Across roots a chat writes to, asks or controls
    another only under a grant its user confirmed or a role of its team handed on.  What was
    delivered, spawned, completed and asked is recorded with its causes.  Jobs
    scheduled for later are kept in a store, from which a runner fires them as turns of a
    chat or as commands; what a process prints is kept in a transcript.  What anything sends
    to a chat (an answer, a fired job, mail of a peer) is a delivery: it waits in the session
    until the conversation reaches a boundary, and is appended there once.  When a chat's
    history was compacted, the model is sent an active context projected from the archive,
    and what it adds is written back without losing the archive.

    ** Files

    - [Prelude] (this file): results, ordered keys ([RustOrd] with its laws),
      [BTreeMap] iteration, sorting, minima, counting over finite maps, and the
      machine-integer operations ([+w] wraps, [+sat] and [*sat] saturate).
    - [RustStr]: the methods of [str] the components call, over scalar values.
    - [Identity]: [identity.rs], [contracts.rs], [cap_stop.rs].
      Every Rust enumeration with [as_str]/[parse] is an instance of [StrEnum], and its
      round trip is proved once from [StrEnumLaws].
    - [Settings]: [settings.rs]; the record of bounds, [validate]
      with every violation it reports, and the process-wide slot.
    - [Scheduler]: [scheduler.rs], every operation that changes the state ([reserve],
      [begin_wait] and [finish_acquire] for the two halves of [acquire], [park],
      [abandon] for the drops, [cancel], [configure], [pump]).  [SchedulerInv] is its
      representation invariant; [SchedulerSpec] the abstract machine it refines;
      [SchedulerSteps] cuts operations into micro steps; [SchedulerProps] and
      [SchedulerTurns] hold the theorems.
    - [WaitGraph] / [WaitGraphSearch] / [WaitGraphProps]: [waitgraph.rs]; [build], the
      depth-first search, the second capture, the registry.
    - [Approval] / [ApprovalProps]: [approval.rs]; the table of requests.
    - [BoardTypes], [Outcome], [Board], [Render]: [types.rs]; cards, outcome
      documents, [impl TaskBoard], the Markdown of reports.  [BoardDeps],
      [OutcomeProps], [BoardProps] and [BoardAuthority] (with the closures of
      [src/tools/tool_task_board_authority.rs]) hold their theorems and a concrete board.
    - [OverlapOrder], [Waves]: [overlap_order.rs] and [waves.rs].  [WaveLevels] (levels),
      [WaveSched] (the gate and the decisions), [WavePlan] (the overlap pass),
      and [WaveProps] hold their theorems and a concrete schedule.
    - [Patch], [TextEdit]: [openai_apply_patch.rs] and [text_edit.rs]; [PatchApply],
      [PatchParse] and [TextEditProps] hold their theorems.
    - [FileActivity], [FileActivityProps]: [file_activity.rs], the registry of reads and
      writes; [FileLocks], the locks of its transactions as a transition system.
      [EditExamples] has concrete patches, sessions and transactions.
    - [History], [HistoryProps]: [history_limit.rs], the repair and the
      validation of a history before it is sent.
    - [SubGoal]: [sub_goal.rs]; [SubGoalProps] (the search for cycles and the depths) and
      [SubGoalGraphProps] (the recorded graph and the rollup) hold its theorems.
    - [GoalLedger]: [goal_ledger.rs], the goal's data and the accounting of
      [types.rs]; [GoalSession]: the session's operations on goal, ledger and lanes.
      [GoalSessionProps] (the ledger and its memo), [GoalProps] (replay,
      wait, budget), and [SubGoalLanes] (automatic lanes, examples) hold their theorems.
    - [Question], [QuestionProps]: [question.rs], the registry of
      questions.
    - [Transcript], [TranscriptProps]: [transcript.rs] of
      [crates/refact-exec/src], what is kept of the output of a process, for both widths of
      [usize] and for builds that check for overflow or wrap (a [Target]).
    - [CronJob], [CronSchedule], [CronRunner]: [src/scheduler], jobs and their store, when they
      run next, and the runner that fires them.  [CronScheduleProps], [CronRunnerProps],
      [CronPass] and [CronExamples] hold their theorems.
    - [ActiveContext], [ActiveContextProps]: [active_context.rs]; messages, the report of a
      compaction and its validation, the projection and the writing back.
    - [Delivery]: deliveries and the session's operations on them that append messages
      (boundaries, windows of calls and results, [append_delivery], preemption);
      [DeliveryQueue]: enqueueing, draining, expiry, replacement, edits of the queue and of the
      history, restarts.  [DeliveryProps] (each operation), [DeliverySteps] (a session's steps,
      their sequences, and its life with edits of its history), [DeliveryFate] (what becomes of a delivery) and [ChatExamples] hold their theorems.
    - [PlannerQna]: the markers of questions on cards and the receipts of replies, with their
      validation; [PlannerReply]: the steps of the tools [agent_ask_planner] and
      [planner_reply], from the question to the session that takes the answer.
    - [BoardTxn]: the transactions of [storage.rs] ([update_board] and its callers,
      [create_board], [save_board_checked], claims and reviews), with what a failed write of
      [file_activity.rs] leaves on file and the chats that [commit_board] stops, for their
      cards and for the processes they own.  [BoardRuns] (transactions and
      sequences of them) and [BoardWithdraw] (ended work) hold their theorems.
    - [PlannerSystem] (each step of a reply, then board, registry, replies in flight
      and sessions of all chats as one transition system) and [PlannerExamples] (a task whose
      agent asks and is answered) hold the theorems of replies.
    - [Peers]: [src/coordination/peer_authority.rs], grants of authority between roots, and
      what asks for them; [Teams]: [src/coordination/teams.rs] and the tools of
      [src/tools/tool_team.rs], teams, their seats and logs, and the authority their roles
      hand on.  [PeersProps], [TeamsProps] and [TeamsExamples] hold their theorems.
    - [Causal]: [src/coordination/causal.rs], the ring of causal events and their traces.

    ** How code becomes definitions

    Each operation runs under one mutex, so it is a function from the state to the
    state and a result; concurrency is the order of operations, and theorems about
    interleavings quantify over lists of operations.  A [Result] is [result]; a panic
    (a failed [unwrap] or [expect], an index out of range, an underflow) is [None] of an
    outer [option], and theorems say that it does not happen.  Integers of 64 bits are
    [N] with their wrap-around or saturation written out; [usize] is that of a 64-bit target,
    but in [Transcript] that of any target.  A [HashMap] or [BTreeMap] is a
    [gmap]; where the code iterates a [BTreeMap] the order is [btree_list].  One-shot
    channels are numbered and their deliveries logged.  Field updates are written by
    the [upd_] functions of each file.

    ** What the theorems show

    - Scheduler: no operation panics or leaves the invariant; every operation
      refines the abstract machine; permits never exceed the three caps; no ticket
      that fits is left waiting, and whoever waits is blocked by a permit really
      held; the next ticket is the one the fairness and urgency policy names and
      urgency preempts a bounded number of times; permits are not disturbed by other
      tickets; every waiter is answered once; residency is bounded and the oldest
      parked run is checkpointed; cancellation reaches holders and waiters.
    - Wait graph: detection ends and decides the existence of a cycle of blocking
      waits; the graph holds exactly the blocking waits; a finding is confirmed by
      two agreeing captures; exactly the closing wait is refused; declarations are
      scoped to their handle.
    - Approvals: an execution needs an approval of its own parent for the shown
      call, releases once, decisions are final, the table is bounded.
    - Task board: dependency validation decides whether the cards can be ordered and a
      validated board never stalls; claims are exclusive; finalization happens exactly
      when its gate's conditions hold; the authority rules survive every operation but
      those [breaks_authority] names; requirements are the declared ones and reports answer their sections; code
      fences cannot be closed from inside.
    - Waves: planning a schedule always answers; it dispatches exactly the eligible
      stages up to the width, never a card before its dependencies, and makes progress
      while nothing failed; the overlap pass only reorders, and its groups share no
      known file; waves are dependency levels, ranks the least that separate overlaps.
    - File edits: the patch parser answers, reads back every printed patch, and a patch
      applies exactly when its chunks land in order, each at the next match of its lines, and
      gives the file with their edits; its paths stay in the workspace; replacements between anchors rewrite
      exactly the regions between them; accepted line ranges are disjoint; line endings
      survive.  Lemmas of [EditExamples] exhibit the inputs where the code errs.
    - File activity: a chat replaces a whole file only when it was shown its present
      content, and edits a file it has read only as it last read it; the registry is
      bounded; transactions with a file in common exclude each other and never
      deadlock.
    - Chat history: the repair leaves every call answered and every result called, by id over
      the whole history, and removes nothing else; the validator decides whether a history can be
      sent, whatever the repairs return can be, and they succeed whenever the history starts with
      a prompt, if results do not call and the calls of one assistant differ.
    - Goals: reducing the ledger gives back the live goal along faithful runs (one reading of
      the clock per step; messages that go back to no earlier goal); entries are numbered without gaps and the memo of the sub-goal graph is
      current; a wait settles once; accounting stops a goal exactly at its limits; a
      declaration is accepted exactly when the lanes stay an acyclic, bounded graph; a
      parent proceeds exactly when its required lanes are met, which automatic lanes
      never change.  Lemmas of [SubGoalLanes] exhibit where replay and live goal part.
    - Questions: a question moves once, by its principals or its deadline; an answer is
      given by the answerer in time; the registry is bounded.
    - Transcripts: up to [usize::MAX] bytes no append panics and no counter wraps; the ring holds
      the newest chunks, bounded and accounted for; readers get every chunk held once; spill and captures are the
      longest prefixes that fit, cut at characters.
    - Scheduled jobs: two passes of the runner leave nothing due, whatever fails, if it is enabled
      and keeps a record; a planned
      run is fired or skipped as missed; records and retries are bounded; the next run of an
      interval is its least later tick; durations are read back; jitter is capped.  Lemmas of
      [CronExamples] exhibit a job that starves and one that spins.
    - Active context: writing a transformed context back keeps every message of the
      archive, in order; what is projected is validated.
    - Deliveries: an accepted delivery is pending, landed or dropped with a record after any
      operations, unless an edit of the history removed it, and lands at most once; it lands only
      at its boundary, from the queue or at once, and unless it preempts never between a call and its
      results; a drain lands all that is ready.  Examples of [ChatExamples] exhibit a preemption that splits
      a paused call, deliveries a runner mirrored that land again, and a truncated delivery that
      is unknown after a restart.
    - Board transactions: each answers and is all or nothing, a failed write whose content is in
      place or torn apart; it keeps the board valid and stops exactly the chats of work that was left;
      recorded replies and their marks are the coordinator's, also when a board is created or
      saved; a generation names one attempt while revisions grow; ended work leaves no question
      open, on the card or in the registry.  An example of [PlannerExamples] exhibits a refused
      transaction that is on file.
    - Planner replies: a recorded answer never changes, and reaches only the chat of the
      attempt it answers, once and word for word, in any order of transactions, retries,
      deliveries and restarts.  A lemma of [PlannerExamples] exhibits an expired question
      that stays listed.
    - Peers and teams: delegation creates no authority: every use of authority goes back to a
      user's grant at least as strong and as long; a seat stays with its holder until it leaves
      or falls silent; the log of a team replays to the holders of its seats, from those
      at its first retained event; rosters follow
      the definition of their team.  A lemma of [TeamsExamples] exhibits a grant that is shortened.
    - Causal events: a trace ends, is exactly the recorded ancestry of its event, and is
      complete exactly when no cause is unknown or missing.  A lemma of [Causal] exhibits an
      event that causes itself.
    - Settings, identities: what validation guarantees, the slot stays valid, and
      displayed keys, enumerations and budget stops round trip.

    ** Bounds and fuel

    The scheduler's theorems assume that its two 64-bit counters (ticket ids and ages,
    each raised at most once by an operation) have not reached their maximum.  [Scheduler.pump] loops with fuel one more than the
    queue, since each round admits a ticket; [rotate_to_lane] is bounded by the number
    of roots.  The search of [WaitGraph.detect] has fuel from the measure of
    [WaitGraphSearch]: each step advances an edge or leaves a node.  [Board.visit]
    visits each card once, [Waves.level_visit] too, and [Waves.cursor_loop] turns once per
    stage.  [Patch.patch_loop] and [Patch.update_hunks] take a line at each turn, and
    [TextEdit.match_lines_from] a match.  [SubGoal.walk] recurses no deeper than there are
    lanes with children, and a search for a boundary in [Transcript] takes at most four turns;
    [CronSchedule.cron_anchor] turns once per millisecond at most, since each event is later;
    [DeliveryQueue.drain_pending_deliveries] weighs each pending delivery by the mode it has
    left to fall through, three at most; [Causal.walk_causes] looks at each event once.
    In each case a theorem says that the fuel suffices.

    ** Not modelled

    The [Notify] wake-ups themselves and the tokio runtime; the digest of a file and the
    resolution of symbolic links (parameters); locks of the operating system beyond
    shared and exclusive, and the journals of file writes; the regular expression that
    strips line numbers; the reading of a goal from message metadata (an argument) and the
    compression of repeated context files; the SQLite coordination
    store; the locks under [tasks/], the privacy provenance stored there and the proof by
    which a bound planner is recognised (a transaction is told what opening and writing
    answered and left on file, and which processes are registered); the killing of processes;
    the texts a planner is shown and the privacy policy a reply is cleared by; the YAML of
    teams, the catalog of work and the registry of agents that peers are looked up in (arguments);
    the messages that fired jobs put into chats, and the time zones and calendar of cron
    expressions (parameters); finding the session of a delivery, the durable outbox and the
    runner's own queue, the goal a delivered user message resumes and the events sent to
    subscribers, the codecs [serde] derives for messages (the parameter [MessageSerde]) and
    the uuids, thread parameters and limits a delivery reads (the parameter [ChatEnv]),
    the JSON of receipts and envelopes, digests, uuids and times of replies (the parameter
    [ReplySerde]; theorems about replies assume that an envelope is read back as it was
    written and that digests have one length);
    the ledger of causal events;
    the HTTP, provider, editor, browser, terminal and indexing layers.  JSON values are
    parameters, with decidable equality where the code compares them. *)

From stdpp Require Import gmap strings list sorting fin_maps pretty.

(** ** Scopes *)

Declare Scope rust_scope.
Delimit Scope rust_scope with rust.
Local Open Scope N_scope.

(** ** Machine integers

    [u64] and [usize] (64-bit targets) values are kept in [N]; every operation
    that can leave the range says what Rust does there. *)

Definition u64_max : N := 18446744073709551615.
Definition u32_max : N := 4294967295.

Definition wrap64 (x : N) : N := x mod (u64_max + 1).
Definition wadd64 (x y : N) : N := wrap64 (x + y).
Definition sat_add (max x y : N) : N := N.min max (x + y).
Definition sat_mul (max x y : N) : N := N.min max (x * y).

Notation "x +w y" := (wadd64 x y) (at level 50, left associativity) : rust_scope.
Notation "x +sat y" := (sat_add u64_max x y) (at level 50, left associativity) : rust_scope.
Notation "x *sat y" := (sat_mul u64_max x y) (at level 40, left associativity) : rust_scope.
Open Scope rust_scope.

Lemma wadd64_small x y : x + y ≤ u64_max → x +w y = x + y.
Proof. intros H. unfold wadd64, wrap64. apply N.mod_small. lia. Qed.

Lemma wadd64_bound x y : x +w y ≤ u64_max.
Proof.
  unfold wadd64, wrap64.
  pose proof (N.mod_lt (x + y) (u64_max + 1) ltac:(unfold u64_max; lia)). lia.
Qed.

(** [Iterator::count], [Vec::len] and friends return [usize]. *)
Definition Nlen {A} (l : list A) : N := N.of_nat (length l).

(** ** Results *)

Inductive result (A E : Type) : Type := Ok (a : A) | Err (e : E).
Arguments Ok {A E} _.
Arguments Err {A E} _.

Definition is_Ok {A E} (r : result A E) : bool :=
  match r with Ok _ => true | Err _ => false end.

Definition result_bind {A B E} (r : result A E) (k : A → result B E) : result B E :=
  match r with Ok a => k a | Err e => Err e end.

(** The [?] operator. *)
Notation "'let?' x := r 'in' k" := (result_bind r (λ x, k))
  (at level 10, x pattern, r at level 100, k at level 200) : rust_scope.

Lemma result_bind_Ok {A B E} (r : result A E) (k : A → result B E) b :
  result_bind r k = Ok b ↔ ∃ a, r = Ok a ∧ k a = Ok b.
Proof. destruct r; simpl; naive_solver. Qed.

(** ** Ordering: the [Ord] trait *)

Class RustOrd (A : Type) := rcmp : A → A → comparison.
Global Hint Mode RustOrd ! : typeclass_instances.
#[global] Instance: Params (@rcmp) 2 := {}.

Class RustOrdLaws (A : Type) `{RustOrd A} := {
  rcmp_eq (x y : A) : rcmp x y = Eq ↔ x = y;
  rcmp_opp (x y : A) : rcmp y x = CompOpp (rcmp x y);
  rcmp_lt_trans (x y z : A) : rcmp x y = Lt → rcmp y z = Lt → rcmp x z = Lt;
}.

Definition rle `{RustOrd A} (x y : A) : Prop := rcmp x y ≠ Gt.
Definition rlt `{RustOrd A} (x y : A) : Prop := rcmp x y = Lt.

#[global] Instance rle_dec `{RustOrd A} (x y : A) : Decision (rle x y).
Proof. unfold rle. destruct (rcmp x y); [left|left|right]; congruence. Defined.
#[global] Instance rlt_dec `{RustOrd A} (x y : A) : Decision (rlt x y).
Proof. unfold rlt. destruct (rcmp x y); [right|left|right]; congruence. Defined.

Definition then_cmp (c d : comparison) : comparison :=
  match c with Eq => d | _ => c end.

Section ord.
Context `{RustOrdLaws A}.
Implicit Types x y z : A.

Lemma rcmp_refl x : rcmp x x = Eq.
Proof. by apply rcmp_eq. Qed.

Lemma rle_lt_or_eq x y : rle x y ↔ rlt x y ∨ x = y.
Proof.
  unfold rle, rlt. rewrite <- rcmp_eq. destruct (rcmp x y); naive_solver.
Qed.

Lemma rlt_rle x y : rlt x y → rle x y.
Proof. rewrite rle_lt_or_eq. auto. Qed.

Lemma rlt_irrefl x : ¬ rlt x x.
Proof. unfold rlt. rewrite rcmp_refl. discriminate. Qed.

Lemma not_rle x y : ¬ rle x y ↔ rlt y x.
Proof.
  unfold rle, rlt. rewrite (rcmp_opp x y).
  destruct (rcmp x y); simpl; split; intros; try congruence; exfalso; auto.
Qed.

Lemma not_rlt x y : ¬ rlt x y ↔ rle y x.
Proof. rewrite <- not_rle. destruct (decide (rle y x)); naive_solver. Qed.

Global Instance rle_total : Total (rle (A:=A)).
Proof.
  intros x y. destruct (decide (rle x y)) as [|Hn]; [by left|right].
  by apply rlt_rle, not_rle.
Qed.

Global Instance rlt_transitive : Transitive (rlt (A:=A)).
Proof. intros x y z. apply rcmp_lt_trans. Qed.

Global Instance rle_transitive : Transitive (rle (A:=A)).
Proof.
  intros x y z. rewrite !rle_lt_or_eq. intros [?| ->]; [|tauto].
  intros [?| <-]; left; [by transitivity y|done].
Qed.

Global Instance rle_antisymm : AntiSymm (=) (rle (A:=A)).
Proof.
  intros x y. rewrite !rle_lt_or_eq. intros [?|?]; [|tauto].
  intros [?|?]; [|congruence]. exfalso. by apply (rlt_irrefl x); transitivity y.
Qed.

Global Instance rle_reflexive : Reflexive (rle (A:=A)).
Proof. intros x. rewrite rle_lt_or_eq. by right. Qed.
End ord.

#[global] Instance N_ord : RustOrd N := N.compare.
#[global] Instance N_ord_laws : RustOrdLaws N.
Proof.
  split; unfold rcmp, N_ord.
  - intros x y. apply N.compare_eq_iff.
  - intros x y. apply N.compare_antisym.
  - intros x y z. rewrite !N.compare_lt_iff. lia.
Qed.

Lemma rle_N (x y : N) : rle x y ↔ x ≤ y.
Proof. unfold rle, rcmp, N_ord. apply N.compare_le_iff. Qed.
Lemma rlt_N (x y : N) : rlt x y ↔ x < y.
Proof. unfold rlt, rcmp, N_ord. apply N.compare_lt_iff. Qed.

#[global] Instance nat_ord : RustOrd nat := Nat.compare.
#[global] Instance nat_ord_laws : RustOrdLaws nat.
Proof.
  split; unfold rcmp, nat_ord.
  - intros x y. apply Nat.compare_eq_iff.
  - intros x y. apply Nat.compare_antisym.
  - intros x y z. rewrite !Nat.compare_lt_iff. lia.
Qed.
Lemma rle_nat (x y : nat) : rle x y ↔ (x <= y)%nat.
Proof. unfold rle, rcmp, nat_ord. apply Nat.compare_le_iff. Qed.

(** Strings are compared bytewise, as [str] is. *)
#[global] Instance string_ord : RustOrd string := String.compare.
#[global] Instance string_ord_laws : RustOrdLaws string.
Proof.
  split; unfold rcmp, string_ord.
  - intros x y. split; [apply String.compare_eq_iff|intros ->].
    induction y as [|a y IH]; simpl; [done|].
    unfold Ascii.compare. by rewrite N.compare_refl.
  - intros x y. apply String.compare_antisym.
  - intros x. induction x as [|a x IH]; intros [|b y] [|c z]; simpl; try done.
    unfold Ascii.compare.
    destruct (N.compare_spec (Ascii.N_of_ascii a) (Ascii.N_of_ascii b)) as [Hab|Hab|Hab];
      [| |done];
    destruct (N.compare_spec (Ascii.N_of_ascii b) (Ascii.N_of_ascii c)) as [Hbc|Hbc|Hbc];
      try done; intros H1 H2.
    + rewrite Hab, Hbc, N.compare_refl. eauto.
    + rewrite Hab. by rewrite (proj2 (N.compare_lt_iff _ _) Hbc).
    + rewrite <- Hbc. by rewrite (proj2 (N.compare_lt_iff _ _) Hab).
    + by rewrite (proj2 (N.compare_lt_iff _ _) (N.lt_trans _ _ _ Hab Hbc)).
Qed.

(** Tuples and derived struct orders are lexicographic. *)
#[global] Instance prod_ord `{RustOrd A, RustOrd B} : RustOrd (A * B) :=
  λ p q, then_cmp (rcmp p.1 q.1) (rcmp p.2 q.2).
Lemma rcmp_pair `{RustOrd A, RustOrd B} (a c : A) (b d : B) :
  rcmp (a, b) (c, d) = then_cmp (rcmp a c) (rcmp b d).
Proof. done. Qed.
#[global] Instance prod_ord_laws `{RustOrdLaws A, RustOrdLaws B} :
  RustOrdLaws (A * B).
Proof.
  split.
  - intros [a b] [c d]. rewrite rcmp_pair. unfold then_cmp.
    pose proof (rcmp_eq a c). pose proof (rcmp_eq b d).
    destruct (rcmp a c); naive_solver.
  - intros [a b] [c d]. rewrite !rcmp_pair, (rcmp_opp a c), (rcmp_opp b d).
    by destruct (rcmp a c), (rcmp b d).
  - intros [a b] [c d] [e f]. rewrite !rcmp_pair. unfold then_cmp.
    destruct (rcmp a c) eqn:E1; [apply rcmp_eq in E1 as ->| |done].
    + destruct (rcmp c e) eqn:E2; [|done|done]. apply rcmp_lt_trans.
    + intros _. destruct (rcmp c e) eqn:E2; [apply rcmp_eq in E2 as ->| |done].
      * by rewrite E1.
      * by rewrite (rcmp_lt_trans _ _ _ E1 E2).
Qed.

(** An order pulled back along an injection: newtypes, and fieldless enums
    ordered by declaration. *)
Definition ord_via {A B} `{RustOrd B} (f : A → B) : RustOrd A := λ x y, rcmp (f x) (f y).
Lemma ord_via_laws {A B} `{RustOrdLaws B} (f : A → B) :
  Inj (=) (=) f → @RustOrdLaws A (ord_via f).
Proof.
  intros Hinj. split.
  - intros x y. transitivity (f x = f y); [apply (rcmp_eq (A:=B))|].
    split; [apply Hinj|by intros ->].
  - intros x y. apply (rcmp_opp (A:=B)).
  - intros x y z. apply (rcmp_lt_trans (A:=B)).
Qed.

(** ** Sorting and ordered collections *)

(** [sort_by_key] is stable: an element goes before the ones of the same key that
    stood behind it. *)
Fixpoint insert_by_key {A K} `{RustOrd K} (key : A → K) (x : A) (l : list A) : list A :=
  match l with
  | [] => [x]
  | y :: l' => if decide (rle (key x) (key y)) then x :: l else y :: insert_by_key key x l'
  end.
Definition sort_by_key {A K} `{RustOrd K} (key : A → K) : list A → list A :=
  foldr (insert_by_key key) [].

Definition key_le {A K} `{RustOrd K} (key : A → K) (x y : A) : Prop := rle (key x) (key y).

Section sort_by_key.
Context {A K : Type} `{RustOrdLaws K} (key : A → K).

Lemma insert_by_key_perm x l : insert_by_key key x l ≡ₚ x :: l.
Proof.
  induction l as [|y l IH]; simpl; [done|]. case_decide; [done|].
  rewrite IH. apply Permutation_swap.
Qed.

Lemma sort_by_key_perm l : sort_by_key key l ≡ₚ l.
Proof. induction l as [|x l IH]; simpl; [done|]. by rewrite insert_by_key_perm, IH. Qed.

Lemma elem_of_sort_by_key l x : x ∈ sort_by_key key l ↔ x ∈ l.
Proof. by rewrite sort_by_key_perm. Qed.

Lemma length_sort_by_key l : length (sort_by_key key l) = length l.
Proof. by rewrite sort_by_key_perm. Qed.

Global Instance key_le_trans : Transitive (key_le key).
Proof. intros x y z. unfold key_le. apply rle_transitive. Qed.
Global Instance key_le_total : Total (key_le key).
Proof. intros x y. apply rle_total. Qed.

Lemma insert_by_key_sorted x l :
  StronglySorted (key_le key) l → StronglySorted (key_le key) (insert_by_key key x l).
Proof.
  induction 1 as [|y l Hs IH Hy]; simpl; [repeat constructor|].
  case_decide as Hxy.
  - constructor; [by constructor|]. constructor; [done|].
    eapply Forall_impl; [exact Hy|]. intros z Hz. by transitivity y.
  - constructor; [done|]. rewrite insert_by_key_perm. constructor; [|done].
    apply rlt_rle. by apply not_rle.
Qed.

Lemma sort_by_key_sorted l : StronglySorted (key_le key) (sort_by_key key l).
Proof. induction l as [|x l IH]; simpl; [constructor|]. by apply insert_by_key_sorted. Qed.

(** Stability: the elements of one key keep their order. *)
Lemma sort_by_key_id l : StronglySorted (key_le key) l → sort_by_key key l = l.
Proof.
  induction 1 as [|x l _ IH Hx]; [done|]. simpl. change (foldr _ _ l) with (sort_by_key key l). rewrite IH.
  destruct Hx as [|y l Hy _]; simpl; [done|]. by rewrite decide_True.
Qed.

Lemma filter_insert_by_key `{!EqDecision K} k x l :
  filter (λ y, key y = k) (insert_by_key key x l) = filter (λ y, key y = k) (x :: l).
Proof.
  induction l as [|y l IH]; [done|]. cbn [insert_by_key].
  destruct (decide (rle (key x) (key y))) as [Hxy|Hxy]; [done|].
  rewrite filter_cons, IH, !filter_cons.
  assert (key x ≠ key y) by (intros E; apply Hxy; by rewrite E).
  destruct (decide (key y = k)), (decide (key x = k)); congruence.
Qed.

Lemma sort_by_key_stable `{!EqDecision K} k l :
  filter (λ y, key y = k) (sort_by_key key l) = filter (λ y, key y = k) l.
Proof.
  induction l as [|x l IH]; [done|]. simpl. by rewrite filter_insert_by_key, !filter_cons, IH.
Qed.
End sort_by_key.

(** A [BTreeSet] is a [gset]; iteration visits its elements in order. *)
Definition btree_elements `{Countable K, RustOrd K} (X : gset K) : list K :=
  sort_by_key id (elements X).

Lemma elem_of_btree_elements `{Countable K, !RustOrd K, !RustOrdLaws K} (X : gset K) k :
  k ∈ btree_elements X ↔ k ∈ X.
Proof. unfold btree_elements. rewrite elem_of_sort_by_key. apply elem_of_elements. Qed.

Lemma NoDup_btree_elements `{Countable K, !RustOrd K, !RustOrdLaws K} (X : gset K) :
  NoDup (btree_elements X).
Proof. unfold btree_elements. rewrite sort_by_key_perm. apply NoDup_elements. Qed.

(** A [BTreeMap] is a [gmap]; iteration visits its bindings in key order. *)
Definition btree_list `{Countable K, RustOrd K} {V} (m : gmap K V) : list (K * V) :=
  sort_by_key fst (map_to_list m).

Lemma elem_of_btree_list `{Countable K, !RustOrd K, !RustOrdLaws K} {V} (m : gmap K V) k v :
  (k, v) ∈ btree_list m ↔ m !! k = Some v.
Proof. unfold btree_list. rewrite elem_of_sort_by_key. apply elem_of_map_to_list. Qed.

Lemma NoDup_btree_list_fst `{Countable K, !RustOrd K, !RustOrdLaws K} {V} (m : gmap K V) :
  NoDup (btree_list m).*1.
Proof. unfold btree_list. rewrite sort_by_key_perm. apply NoDup_fst_map_to_list. Qed.

(** ** Lists *)

Lemma existsb_elem {A} (f : A → bool) l : existsb f l = true ↔ ∃ x, x ∈ l ∧ f x = true.
Proof. rewrite existsb_exists. by setoid_rewrite list_elem_of_In. Qed.

Lemma forallb_elem {A} (f : A → bool) l : forallb f l = true ↔ ∀ x, x ∈ l → f x = true.
Proof. rewrite forallb_forall. by setoid_rewrite list_elem_of_In. Qed.

Lemma filter_none {A} (P : A → Prop) `{!∀ x, Decision (P x)} (l : list A) : (∀ x, x ∈ l → ¬ P x) → filter P l = [].
Proof.
  induction l as [|x l IH]; intros Hl; [done|]. rewrite filter_cons, decide_False by (apply Hl; by left).
  apply IH. intros y Hy. apply Hl. by right.
Qed.

Lemma filter_every {A} (P : A → Prop) `{!∀ x, Decision (P x)} (l : list A) : (∀ x, x ∈ l → P x) → filter P l = l.
Proof.
  induction l as [|x l IH]; intros Hl; [done|]. rewrite filter_cons, decide_True by (apply Hl; by left).
  f_equal. apply IH. intros y Hy. apply Hl. by right.
Qed.

(** A key names one value of an association list without duplicate keys. *)
Lemma NoDup_fst_eq {A B} (l : list (A * B)) k v w :
  NoDup l.*1 → (k, v) ∈ l → (k, w) ∈ l → v = w.
Proof.
  intros Hnd Hv Hw. induction l as [|[k' v'] l IH]; [by apply elem_of_nil in Hv|].
  apply NoDup_cons in Hnd as [Hni Hnd].
  assert (∀ x, (k, x) ∈ l → k ∈ l.*1) as Hk by (intros x Hx; apply list_elem_of_fmap; by exists (k, x)).
  apply elem_of_cons in Hv as [[= -> ->]|Hv]; apply elem_of_cons in Hw as [Hw|Hw].
  - by injection Hw.
  - by apply Hk in Hw.
  - injection Hw as -> ->. by apply Hk in Hv.
  - auto.
Qed.

(** ** Iterators *)

(** [Iterator::min_by_key]: the first of the minimal elements. *)
Fixpoint min_by_key {A K} `{RustOrd K} (key : A → K) (l : list A) : option A :=
  match l with
  | [] => None
  | x :: l =>
      match min_by_key key l with
      | None => Some x
      | Some y => if decide (rlt (key y) (key x)) then Some y else Some x
      end
  end.

Section min_by_key.
Context {A K : Type} `{RustOrdLaws K} (key : A → K).

Lemma min_by_key_None l : min_by_key key l = None ↔ l = [].
Proof.
  destruct l as [|x l]; simpl; [done|]. destruct (min_by_key key l); [|done].
  by case_decide.
Qed.

Lemma min_by_key_Some l x :
  min_by_key key l = Some x → x ∈ l ∧ ∀ y, y ∈ l → rle (key x) (key y).
Proof.
  revert x. induction l as [|a l IH]; intros x; simpl; [done|].
  destruct (min_by_key key l) as [b|] eqn:E.
  - destruct (IH b eq_refl) as [Hin Hmin]. case_decide as Hd; intros [= <-].
    + split; [set_solver|]. intros y [->|Hy]%elem_of_cons; [by apply rlt_rle|auto].
    + apply not_rlt in Hd. split; [set_solver|].
      intros y [->|Hy]%elem_of_cons; [done|]. etransitivity; eauto.
  - apply min_by_key_None in E as ->. intros [= <-]. split; [set_solver|].
    intros y ->%list_elem_of_singleton. done.
Qed.
End min_by_key.

(** [VecDeque::rotate_left(1)]. *)
Definition rotate_left {A} (l : list A) : list A :=
  match l with [] => [] | x :: l => l ++ [x] end.

Lemma rotate_left_perm {A} (l : list A) : rotate_left l ≡ₚ l.
Proof. destruct l as [|x l]; simpl; [done|]. apply Permutation_app_comm. Qed.

Lemma elem_of_rotate_left {A} (l : list A) x : x ∈ rotate_left l ↔ x ∈ l.
Proof. by rewrite rotate_left_perm. Qed.

(** ** Counting the bindings of a map *)

Definition count_if `{Countable K} {V} (f : V → bool) (m : gmap K V) : N :=
  map_fold (λ _ v n, if f v then N.succ n else n) 0 m.

Section count_if.
Context `{Countable K} {V : Type} (f : V → bool).
Implicit Types m : gmap K V.

Lemma count_if_empty : count_if f (∅ : gmap K V) = 0.
Proof. apply map_fold_empty. Qed.

Lemma count_if_insert_new m i v :
  m !! i = None → count_if f (<[i:=v]> m) = count_if f m + (if f v then 1 else 0).
Proof.
  intros Hi. unfold count_if. rewrite map_fold_insert_L; [destruct (f v); lia| |done].
  intros. repeat case_match; done.
Qed.

Lemma count_if_delete m i v :
  m !! i = Some v → count_if f m = count_if f (delete i m) + (if f v then 1 else 0).
Proof.
  intros Hi. rewrite <- (insert_delete_id m i v Hi) at 1.
  apply count_if_insert_new, lookup_delete_eq.
Qed.

Lemma count_if_update m i v v' :
  m !! i = Some v →
  count_if f (<[i:=v']> m) + (if f v then 1 else 0) = count_if f m + (if f v' then 1 else 0).
Proof.
  intros Hi. rewrite (count_if_delete m i v Hi).
  rewrite <- insert_delete_eq, count_if_insert_new by apply lookup_delete_eq. lia.
Qed.

Lemma count_if_pos m i v : m !! i = Some v → f v = true → 1 ≤ count_if f m.
Proof. intros Hi Hf. rewrite (count_if_delete m i v Hi), Hf. lia. Qed.

Lemma count_if_ex m : 1 ≤ count_if f m → ∃ i v, m !! i = Some v ∧ f v = true.
Proof.
  induction m as [|i v m Hi IH] using map_ind; [rewrite count_if_empty; lia|].
  rewrite count_if_insert_new by done. destruct (f v) eqn:Hf.
  - intros _. exists i, v. by rewrite lookup_insert_eq.
  - intros Hle. destruct IH as (j & w & Hj & Hw); [lia|]. exists j, w.
    rewrite lookup_insert_ne; [done|congruence].
Qed.

Lemma count_if_zero m : (∀ i v, m !! i = Some v → f v = false) → count_if f m = 0.
Proof.
  induction m as [|i v m Hi IH] using map_ind; intros Hf; [apply count_if_empty|].
  rewrite count_if_insert_new, IH by
    (try done; intros j w Hj; apply (Hf j); rewrite lookup_insert_ne by congruence; done).
  by rewrite (Hf i v (lookup_insert_eq _ _ _)).
Qed.
End count_if.

Lemma count_if_ext `{Countable K} {V} (f g : V → bool) (m : gmap K V) :
  (∀ i v, m !! i = Some v → f v = g v) → count_if f m = count_if g m.
Proof.
  induction m as [|i v m Hi IH] using map_ind; intros Hfg; [by rewrite !count_if_empty|].
  rewrite !count_if_insert_new, IH by
    (try done; intros j w Hj; apply (Hfg j); rewrite lookup_insert_ne by congruence; done).
  by rewrite (Hfg i v (lookup_insert_eq _ _ _)).
Qed.

Lemma count_if_le `{Countable K} {V} (f g : V → bool) (m : gmap K V) :
  (∀ i v, m !! i = Some v → f v = true → g v = true) → count_if f m ≤ count_if g m.
Proof.
  induction m as [|i v m Hi IH] using map_ind; intros Hfg; [by rewrite !count_if_empty|].
  rewrite !count_if_insert_new by done.
  assert (count_if f m ≤ count_if g m) by (apply IH; intros j w Hj; apply (Hfg j);
    rewrite lookup_insert_ne by congruence; done).
  pose proof (Hfg i v (lookup_insert_eq _ _ _)). destruct (f v), (g v); naive_solver lia.
Qed.

Lemma count_if_true_size `{Countable K} {V} (m : gmap K V) :
  count_if (λ _, true) m = N.of_nat (size m).
Proof.
  induction m as [|i v m Hi IH] using map_ind; [by rewrite count_if_empty, map_size_empty|].
  rewrite count_if_insert_new, IH, map_size_insert_None by done. lia.
Qed.

Lemma count_if_split `{Countable K} {V} (f : V → bool) (m : gmap K V) :
  count_if f m + count_if (λ v, negb (f v)) m = N.of_nat (size m).
Proof.
  induction m as [|i v m Hi IH] using map_ind; [by rewrite !count_if_empty, map_size_empty|].
  rewrite !count_if_insert_new, map_size_insert_None by done. destruct (f v); simpl; lia.
Qed.

Lemma count_if_delete_le `{Countable K} {V} (f : V → bool) (m : gmap K V) i :
  count_if f (delete i m) ≤ count_if f m.
Proof.
  destruct (m !! i) as [v|] eqn:Hi; [|by rewrite delete_id].
  rewrite (count_if_delete f m i v Hi). lia.
Qed.

Lemma count_if_fmap `{Countable K} {V W} (f : W → bool) (g : V → W) (m : gmap K V) :
  count_if f (g <$> m) = count_if (λ v, f (g v)) m.
Proof.
  induction m as [|i v m Hi IH] using map_ind; [by rewrite fmap_empty, !count_if_empty|].
  rewrite fmap_insert, !count_if_insert_new, IH; [done|done|]. by rewrite lookup_fmap, Hi.
Qed.

(** *** Selected bindings with a sort key *)

(** [map.iter().filter(f).map(|(k, v)| (g(v), k)).collect()] *)
Definition keyed_list `{Countable K} {V} (f : V → bool) (g : V → N) (m : gmap K V) : list (N * K) :=
  omap (λ p, if f p.2 then Some (g p.2, p.1) else None) (map_to_list m).

Section keyed.
Context `{Countable K} {V : Type} (f : V → bool) (g : V → N).
Implicit Types m : gmap K V.

Lemma elem_of_keyed_list m n k :
  (n, k) ∈ keyed_list f g m ↔ ∃ v, m !! k = Some v ∧ f v = true ∧ g v = n.
Proof.
  unfold keyed_list. rewrite list_elem_of_omap. split.
  - intros ([k' v] & Hi & Hx). apply elem_of_map_to_list in Hi. simpl in Hx.
    destruct (f v) eqn:Hf; [|done]. injection Hx as <- <-. eauto.
  - intros (v & Hv & Hf & <-). exists (k, v). rewrite elem_of_map_to_list. simpl. by rewrite Hf.
Qed.

Lemma NoDup_keyed_list m : NoDup (keyed_list f g m).*2.
Proof.
  unfold keyed_list. pose proof (NoDup_fst_map_to_list m) as Hnd.
  induction (map_to_list m) as [|[i v] l IH]; simpl; [constructor|].
  simpl in Hnd. apply NoDup_cons in Hnd as [Hni Hnd].
  destruct (f v); simpl; [|auto]. constructor; [|auto].
  intros ([n j] & Heq & Hin)%list_elem_of_fmap. apply Hni. simpl in Heq. subst i.
  apply list_elem_of_omap in Hin as ([i v'] & Hin & Hx). simpl in Hx.
  destruct (f v'); [|done]. injection Hx as _ ->.
  apply list_elem_of_fmap. by exists (j, v').
Qed.

Lemma count_keyed_list m : count_if f m = Nlen (keyed_list f g m).
Proof.
  unfold keyed_list, Nlen. induction m as [|i v m Hi IH] using map_ind.
  - by rewrite count_if_empty, map_to_list_empty.
  - rewrite count_if_insert_new, IH, map_to_list_insert by done.
    set (h := λ p : K * V, _).
    change (omap h ((i, v) :: map_to_list m)) with
      (match h (i, v) with Some y => y :: omap h (map_to_list m) | None => omap h (map_to_list m) end).
    unfold h at 2. simpl. destruct (f v); simpl length; lia.
Qed.
End keyed.

(** ** Maps collected from lists *)

(** [collect] of pairs: when every pair of a key has one value, that is the binding. *)
Lemma foldl_insert_lookup `{Countable K} {A V} (key : A → K) (val : A → V) l (m : gmap K V) k v :
  (∀ x, x ∈ l → key x = k → val x = v) →
  foldl (λ m x, <[key x := val x]> m) m l !! k =
    if bool_decide (k ∈ key <$> l) then Some v else m !! k.
Proof.
  revert m. induction l as [|x l IH]; intros m Hv; simpl; [done|].
  rewrite IH by (intros y Hy; apply Hv; by right).
  destruct (decide (k ∈ key <$> l)) as [Hin|Hni].
  - rewrite (bool_decide_true _ Hin), bool_decide_true; [done|by right].
  - rewrite (bool_decide_false _ Hni). destruct (decide (key x = k)) as [Hk|Hk].
    + rewrite Hk, lookup_insert_eq, bool_decide_true by left. f_equal. apply Hv; [by left|done].
    + rewrite lookup_insert_ne by done. rewrite bool_decide_false; [done|].
      by intros [?|?]%elem_of_cons.
Qed.

(** A map over an option list. *)
Lemma mapM_total {A B} (f : A → option B) l :
  (∀ x, x ∈ l → is_Some (f x)) → ∃ k, mapM f l = Some k.
Proof.
  intros Hf. assert (is_Some (mapM f l)) as [k Hk]; [|eauto].
  apply mapM_is_Some_2, Forall_forall. exact Hf.
Qed.
