(* ===== verification/RustStr.v ===== *)
(** * Rust's [str]

    A Rust string is a sequence of Unicode scalar values.  Keys and messages are
    kept as Stdlib [string]s holding their UTF-8 bytes; code that looks at
    characters goes through [chars], and text-processing components work on
    [text], the sequence of scalar values itself.  This file models the [str]
    methods of the standard library that the components call. *)

From stdpp Require Import list strings.
From S2P Require Import Prelude.
Local Open Scope N_scope.

Abbreviation text := (list N).

(** ** UTF-8 decoding *)

Definition bytes_of (s : string) : list N := Ascii.N_of_ascii <$> String.list_ascii_of_string s.

(** The scalar value of a continuation byte [10xxxxxx]. *)
Definition cont (b : N) : N := N.land b 63.

Fixpoint utf8_decode (bs : list N) : text :=
  match bs with
  | [] => []
  | b :: rest =>
      if b <? 128 then b :: utf8_decode rest
      else match rest with
      | c :: rest1 =>
          if b <? 224 then (N.lor (N.shiftl (N.land b 31) 6) (cont c)) :: utf8_decode rest1
          else match rest1 with
          | d :: rest2 =>
              if b <? 240 then
                N.lor (N.shiftl (N.land b 15) 12) (N.lor (N.shiftl (cont c) 6) (cont d))
                  :: utf8_decode rest2
              else match rest2 with
              | e :: rest3 =>
                  N.lor (N.shiftl (N.land b 7) 18)
                    (N.lor (N.shiftl (cont c) 12) (N.lor (N.shiftl (cont d) 6) (cont e)))
                    :: utf8_decode rest3
              | [] => [b]
              end
          | [] => [b]
          end
      | [] => [b]
      end
  end.

(** [str::chars]. *)
Definition chars (s : string) : text := utf8_decode (bytes_of s).

(** Literals are written as strings. *)
Definition lit (s : string) : text := chars s.

(** ** Characters *)

(** [char::is_whitespace]: the Unicode property White_Space. *)
Definition is_whitespace (c : N) : bool :=
  ((9 <=? c) && (c <=? 13)) || (c =? 32) || (c =? 133) || (c =? 160) || (c =? 5760)
  || ((8192 <=? c) && (c <=? 8202)) || (c =? 8232) || (c =? 8233) || (c =? 8239)
  || (c =? 8287) || (c =? 12288).

(** [char::is_control]: the general category Cc. *)
Definition is_control (c : N) : bool := (c <? 32) || ((127 <=? c) && (c <=? 159)).

Definition to_ascii_lowercase_char (c : N) : N :=
  if (65 <=? c) && (c <=? 90) then c + 32 else c.
Definition to_ascii_lowercase (t : text) : text := to_ascii_lowercase_char <$> t.
Definition eq_ignore_ascii_case (a b : text) : bool :=
  bool_decide (to_ascii_lowercase a = to_ascii_lowercase b).

(** ** Trimming *)

Fixpoint drop_while {A} (f : A → bool) (l : list A) : list A :=
  match l with
  | [] => []
  | x :: l' => if f x then drop_while f l' else l
  end.

Fixpoint take_while {A} (f : A → bool) (l : list A) : list A :=
  match l with
  | [] => []
  | x :: l' => if f x then x :: take_while f l' else []
  end.

Definition trim_start_matches (f : N → bool) (t : text) : text := drop_while f t.
Definition trim_end_matches (f : N → bool) (t : text) : text :=
  reverse (drop_while f (reverse t)).
Definition trim_start : text → text := trim_start_matches is_whitespace.
Definition trim_end : text → text := trim_end_matches is_whitespace.
Definition trim (t : text) : text := trim_start (trim_end t).

Definition trim_matches (f : N → bool) (t : text) : text :=
  trim_start_matches f (trim_end_matches f t).

(** ** Prefixes and suffixes *)

Fixpoint strip_prefix (p t : text) : option text :=
  match p, t with
  | [], _ => Some t
  | a :: p', b :: t' => if a =? b then strip_prefix p' t' else None
  | _ :: _, [] => None
  end.

Definition starts_with (p t : text) : bool :=
  match strip_prefix p t with Some _ => true | None => false end.

Definition ends_with_char (c : N) (t : text) : bool := bool_decide (last t = Some c).

(** [str::len]: the bytes of the UTF-8 encoding. *)
Definition utf8_len (c : N) : N := (if c <? 128 then 1 else if c <? 2048 then 2 else if c <? 65536 then 3 else 4)%N.
Fixpoint text_len (t : text) : N := match t with [] => 0 | c :: t => utf8_len c + text_len t end%N.

(** ** Splitting and replacing *)

(** [str::split] on one character: always at least one piece. *)
Fixpoint split_on (c : N) (t : text) : list text :=
  match t with
  | [] => [[]]
  | x :: t' =>
      if x =? c then [] :: split_on c t'
      else match split_on c t' with
           | piece :: rest => (x :: piece) :: rest
           | [] => [[x]]
           end
  end.

(** [strip_suffix] of one character. *)
Definition strip_last (c : N) (t : text) : text :=
  if ends_with_char c t then take (length t - 1) t else t.

(** [str::lines]: the line feed, and a carriage return before it, end a line; the
    last line needs no end. *)
Fixpoint lines_of (pieces : list text) : list text :=
  match pieces with
  | [] => []
  | [last_piece] => if bool_decide (last_piece = []) then [] else [last_piece]
  | piece :: rest => strip_last 13 piece :: lines_of rest
  end.
Definition lines (t : text) : list text := lines_of (split_on 10 t).

(** [join("\n")]. *)
Fixpoint join_lines (l : list text) : text :=
  match l with
  | [] => []
  | [x] => x
  | x :: l => x ++ 10 :: join_lines l
  end.

(** [str::replace] of a nonempty pattern; [skip] characters of a match are left. *)
Fixpoint replace_from (pat rep : text) (skip : nat) (t : text) : text :=
  match t with
  | [] => []
  | c :: t' =>
      match skip with
      | S skip => replace_from pat rep skip t'
      | O => if starts_with pat t then rep ++ replace_from pat rep (length pat - 1) t'
             else c :: replace_from pat rep O t'
      end
  end.
Definition replace (pat rep t : text) : text := replace_from pat rep O t.

(** ** Lemmas *)

Section while.
Context {A : Type} (f : A → bool).

Lemma take_drop_while l : take_while f l ++ drop_while f l = l.
Proof. induction l as [|x l IH]; simpl; [done|]. destruct (f x); simpl; by rewrite ?IH. Qed.

Lemma drop_while_suffix l : ∃ p, l = p ++ drop_while f l ∧ Forall (λ x, f x = true) p.
Proof.
  induction l as [|x l (p & Hl & Hp)]; simpl; [by exists []|].
  destruct (f x) eqn:E; [exists (x :: p)|by exists []].
  split; [simpl; by f_equal|by constructor].
Qed.

Lemma drop_while_nil l : drop_while f l = [] ↔ Forall (λ x, f x = true) l.
Proof.
  induction l as [|x l IH]; simpl; [naive_solver|].
  rewrite Forall_cons. destruct (f x) eqn:E; naive_solver.
Qed.

Lemma drop_while_head l x : head (drop_while f l) = Some x → f x = false.
Proof.
  induction l as [|y l IH]; simpl; [done|]. destruct (f y) eqn:E; [done|].
  simpl. naive_solver.
Qed.

Lemma drop_while_id l : (∀ x, head l = Some x → f x = false) → drop_while f l = l.
Proof. destruct l as [|x l]; simpl; [done|]. intros H. by rewrite (H x). Qed.
End while.

Lemma strip_prefix_Some p t r : strip_prefix p t = Some r ↔ t = p ++ r.
Proof.
  revert t. induction p as [|a p IH]; intros [|b t]; simpl; try naive_solver.
  destruct (N.eqb_spec a b) as [->|Hne]; [rewrite IH|]; naive_solver.
Qed.

Lemma starts_with_spec p t : starts_with p t = true ↔ ∃ r, t = p ++ r.
Proof.
  unfold starts_with. destruct (strip_prefix p t) as [r|] eqn:E.
  - apply strip_prefix_Some in E. naive_solver.
  - split; [done|]. intros [r Hr]. by apply strip_prefix_Some in Hr; rewrite Hr in E.
Qed.

Lemma trim_nil t : trim t = [] ↔ Forall (λ c, is_whitespace c = true) t.
Proof.
  unfold trim, trim_start, trim_end, trim_start_matches, trim_end_matches.
  rewrite drop_while_nil, Forall_reverse.
  destruct (drop_while_suffix is_whitespace (reverse t)) as (p & Hp & Hall).
  set (d := drop_while is_whitespace (reverse t)) in *.
  rewrite <- (Forall_reverse _ t), Hp, Forall_app. tauto.
Qed.

Lemma drop_while_app_last {A} (f : A → bool) (l : list A) x :
  f x = false → drop_while f (l ++ [x]) = drop_while f l ++ [x].
Proof. intros Hx. induction l as [|y l IH]; simpl; [by rewrite Hx|]. by destruct (f y). Qed.

Lemma trim_end_cons c t : is_whitespace c = false → trim_end (c :: t) = c :: trim_end t.
Proof.
  intros Hc. unfold trim_end, trim_end_matches.
  by rewrite reverse_cons, drop_while_app_last, reverse_snoc.
Qed.

(** A text that starts with a visible character keeps it. *)
Lemma trim_cons c t : is_whitespace c = false → trim (c :: t) = c :: trim_end t.
Proof.
  intros Hc. unfold trim. rewrite trim_end_cons by done. unfold trim_start, trim_start_matches. simpl. by rewrite Hc.
Qed.

Lemma trim_end_last t x : last (trim_end t) = Some x → is_whitespace x = false.
Proof.
  unfold trim_end, trim_end_matches. rewrite last_reverse. apply drop_while_head.
Qed.

Lemma trim_id t :
  (∀ c, head t = Some c → is_whitespace c = false) → (∀ c, last t = Some c → is_whitespace c = false) →
  trim t = t.
Proof.
  intros Hh Hl. unfold trim, trim_start, trim_end, trim_start_matches, trim_end_matches.
  rewrite (drop_while_id _ (reverse t)), reverse_involutive by (intros c; rewrite head_reverse; apply Hl).
  by apply drop_while_id.
Qed.

Lemma trim_start_suffix t : ∃ p, t = p ++ trim_start t.
Proof. destruct (drop_while_suffix is_whitespace t) as (p & Hp & _). by exists p. Qed.
Lemma trim_end_prefix t : ∃ p, t = trim_end t ++ p.
Proof.
  destruct (drop_while_suffix is_whitespace (reverse t)) as (p & Hp & _). exists (reverse p).
  unfold trim_end, trim_end_matches. by rewrite <- reverse_app, <- Hp, reverse_involutive.
Qed.
Lemma trim_infix t : ∃ p q, t = p ++ trim t ++ q.
Proof.
  destruct (trim_end_prefix t) as [q Hq], (trim_start_suffix (trim_end t)) as [p Hp].
  exists p, q. rewrite app_assoc. unfold trim. by rewrite <- Hp.
Qed.

Lemma trim_ends t :
  (∀ c, head (trim t) = Some c → is_whitespace c = false) ∧ (∀ c, last (trim t) = Some c → is_whitespace c = false).
Proof.
  split.
  - intros c. apply drop_while_head.
  - intros c Hc. apply (trim_end_last t). unfold trim in Hc.
    destruct (trim_start_suffix (trim_end t)) as [p Hp]. rewrite Hp. by rewrite last_app, Hc.
Qed.

Lemma trim_idem t : trim (trim t) = trim t.
Proof. apply trim_id; apply trim_ends. Qed.

(** ** Lines *)

Lemma split_on_app c l t : c ∉ l → split_on c (l ++ c :: t) = l :: split_on c t.
Proof.
  induction l as [|x l IH]; simpl.
  - by rewrite N.eqb_refl.
  - intros Hni. destruct (N.eqb_spec x c) as [->|_]; [exfalso; apply Hni; by left|].
    rewrite IH; [done|]. intros Hin. apply Hni. by right.
Qed.

Lemma split_on_pieces c t piece : piece ∈ split_on c t → c ∉ piece.
Proof.
  revert piece. induction t as [|x t IH]; simpl; intros piece.
  - intros ->%list_elem_of_singleton. apply not_elem_of_nil.
  - destruct (N.eqb_spec x c) as [->|Hne].
    + intros [->|Hin]%elem_of_cons; [apply not_elem_of_nil|by apply IH].
    + destruct (split_on c t) as [|p rest].
      * intros ->%list_elem_of_singleton. intros ->%list_elem_of_singleton. done.
      * intros [->|Hin]%elem_of_cons; [|apply IH; by right].
        intros [->|Hc]%elem_of_cons; [done|]. by apply (IH p); [left|].
Qed.

Lemma lines_of_cons p q rest : lines_of (p :: q :: rest) = strip_last 13 p :: lines_of (q :: rest).
Proof. done. Qed.

Lemma split_on_cons c t : ∃ p rest, split_on c t = p :: rest.
Proof.
  induction t as [|x t (p & rest & IH)]; simpl; [by do 2 eexists|].
  destruct (x =? c); [by do 2 eexists|]. rewrite IH. by do 2 eexists.
Qed.

(** A line and its CRLF. *)
Lemma lines_crlf l t : 10 ∉ l → lines (l ++ 13 :: 10 :: t) = l :: lines t.
Proof.
  intros Hl. unfold lines. change (l ++ 13 :: 10 :: t) with (l ++ [13] ++ 10 :: t).
  rewrite app_assoc, split_on_app.
  - destruct (split_on_cons 10 t) as (p & rest & ->). rewrite lines_of_cons. f_equal.
    unfold strip_last, ends_with_char. rewrite last_snoc, bool_decide_true, length_app by done.
    simpl. replace (length l + 1 - 1)%nat with (length l) by lia. by rewrite take_app_length.
  - rewrite elem_of_app, list_elem_of_singleton. intros [?|?]; [done|lia].
Qed.

Lemma strip_last_sub c t : ∃ p, t = strip_last c t ++ p.
Proof. unfold strip_last. destruct (ends_with_char c t); [|by exists []; rewrite app_nil_r]. eexists. symmetry. apply take_drop. Qed.

Lemma lines_clean t l : l ∈ lines t → 10 ∉ l.
Proof.
  unfold lines. generalize (split_on_pieces 10 t). generalize (split_on 10 t). intros ps Hps.
  induction ps as [|p ps IH]; simpl; [by intros ?%elem_of_nil|].
  destruct ps as [|q ps].
  - case_bool_decide; [by intros ?%elem_of_nil|]. intros ->%list_elem_of_singleton. apply Hps. by left.
  - intros [->|Hl]%elem_of_cons; [|apply IH; [|done]; intros; apply Hps; by right].
    intros Hin. apply (Hps p); [by left|]. destruct (strip_last_sub 13 p) as [w Hw]. rewrite Hw. apply elem_of_app. by left.
Qed.
