(* ===== verification/Identity.v ===== *)
(** * Work identities and the work contracts

    The keys and enumerations that every coordination component shares:
    [refact-work-core/src/identity.rs] (run, work, project and checkout keys),
    [contracts.rs] (phases, origins, the urgency ladder, work summaries) and
    [cap_stop.rs] (typed budget stops). *)

From Stdlib Require Strings.String.
From stdpp Require Import gmap strings list pretty.
From S2P Require Import Prelude.

Local Open Scope N_scope.

(** ** Enumerations with a wire name

    Every enumeration of these files lists its values in [ALL], prints them with
    [as_str] and parses by searching [ALL]. *)

Class StrEnum (A : Type) := { ALL : list A; as_str : A → string }.
Global Hint Mode StrEnum ! : typeclass_instances.

Definition parse_enum `{StrEnum A} (raw : string) : option A :=
  snd <$> list_find (λ a, as_str a = raw) ALL.

Class StrEnumLaws (A : Type) `{StrEnum A} := {
  ALL_complete (a : A) : a ∈ ALL;
  as_str_inj :: Inj (=) (=) (as_str (A:=A));
}.

Section str_enum.
Context `{StrEnumLaws A}.

Lemma parse_enum_sound raw (a : A) : parse_enum raw = Some a → as_str a = raw.
Proof.
  unfold parse_enum. rewrite fmap_Some.
  intros ([i b] & Hf & ->). by apply list_find_Some in Hf as (_ & ? & _).
Qed.

Lemma parse_enum_as_str (a : A) : parse_enum (as_str a) = Some a.
Proof.
  destruct (parse_enum (as_str a)) as [b|] eqn:E.
  - f_equal. apply (inj as_str). by apply parse_enum_sound.
  - unfold parse_enum in E. apply fmap_None, list_find_None in E.
    rewrite Forall_forall in E. exfalso. by apply (E a (ALL_complete a)).
Qed.
End str_enum.

Ltac solve_enum_laws :=
  split; [intros []; set_solver | intros [] []; simpl; congruence].

(** ** identity.rs *)

Inductive RuntimeKind := Trajectory | BackgroundAgent.
#[global] Instance RuntimeKind_eq_dec : EqDecision RuntimeKind.
Proof. solve_decision. Defined.

#[global] Instance RuntimeKind_names : StrEnum RuntimeKind := {|
  ALL := [Trajectory; BackgroundAgent];
  as_str k := match k with
    | Trajectory => "trajectory"
    | BackgroundAgent => "background_agent"
    end;
|}.
#[global] Instance RuntimeKind_names_laws : StrEnumLaws RuntimeKind.
Proof. solve_enum_laws. Qed.

Definition RuntimeKind_rank (k : RuntimeKind) : N :=
  match k with Trajectory => 0 | BackgroundAgent => 1 end.
#[global] Instance RuntimeKind_rank_inj : Inj (=) (=) RuntimeKind_rank.
Proof. by intros [] []. Qed.

Record WorkKey := { runtime : RuntimeKind; work_id : string }.
Record RunKey := { work : WorkKey; attempt : N }.
Record ProjectKey := { project_name : string }.
Record CheckoutKey := { checkout_name : string }.
Record WorkScope := { project : ProjectKey; root : CheckoutKey }.

#[global] Instance WorkKey_eq_dec : EqDecision WorkKey.
Proof. solve_decision. Defined.
#[global] Instance RunKey_eq_dec : EqDecision RunKey.
Proof. solve_decision. Defined.
#[global] Instance ProjectKey_eq_dec : EqDecision ProjectKey.
Proof. solve_decision. Defined.
#[global] Instance CheckoutKey_eq_dec : EqDecision CheckoutKey.
Proof. solve_decision. Defined.
#[global] Instance WorkScope_eq_dec : EqDecision WorkScope.
Proof. solve_decision. Defined.

(** The derived orders compare the fields in declaration order. *)
Definition WorkKey_tuple (w : WorkKey) : N * string := (RuntimeKind_rank (runtime w), work_id w).
Definition RunKey_tuple (r : RunKey) : (N * string) * N := (WorkKey_tuple (work r), attempt r).

#[global] Instance WorkKey_tuple_inj : Inj (=) (=) WorkKey_tuple.
Proof. intros [r1 i1] [r2 i2] [= Hr ->]. by apply (inj RuntimeKind_rank) in Hr as ->. Qed.
#[global] Instance RunKey_tuple_inj : Inj (=) (=) RunKey_tuple.
Proof.
  intros [w1 a1] [w2 a2] [= Hr Hi ->].
  destruct w1 as [r1 i1], w2 as [r2 i2]; simpl in *.
  apply (inj RuntimeKind_rank) in Hr as ->. by rewrite Hi.
Qed.
#[global] Instance project_name_inj : Inj (=) (=) project_name.
Proof. by intros [] [] [= ->]. Qed.
#[global] Instance checkout_name_inj : Inj (=) (=) checkout_name.
Proof. by intros [] [] [= ->]. Qed.

#[global] Instance RunKey_ord : RustOrd RunKey := ord_via RunKey_tuple.
#[global] Instance RunKey_ord_laws : RustOrdLaws RunKey.
Proof. apply ord_via_laws, _. Qed.
#[global] Instance CheckoutKey_ord : RustOrd CheckoutKey := ord_via checkout_name.
#[global] Instance CheckoutKey_ord_laws : RustOrdLaws CheckoutKey.
Proof. apply ord_via_laws, _. Qed.

#[global] Instance RuntimeKind_countable : Countable RuntimeKind.
Proof.
  apply (inj_countable' RuntimeKind_rank (λ n, if n =? 0 then Trajectory else BackgroundAgent)).
  by intros [].
Defined.
Definition RunKey_of_tuple (t : (N * string) * N) : RunKey :=
  {| work := {| runtime := if t.1.1 =? 0 then Trajectory else BackgroundAgent; work_id := t.1.2 |};
     attempt := t.2 |}.
#[global] Instance RunKey_countable : Countable RunKey.
Proof.
  apply (inj_countable' RunKey_tuple RunKey_of_tuple). by intros [[[] ?] ?].
Defined.
#[global] Instance ProjectKey_countable : Countable ProjectKey.
Proof. by apply (inj_countable' project_name Build_ProjectKey); intros []. Defined.
#[global] Instance CheckoutKey_countable : Countable CheckoutKey.
Proof. by apply (inj_countable' checkout_name Build_CheckoutKey); intros []. Defined.

Definition WorkKey_run (w : WorkKey) (a : N) : RunKey := {| work := w; attempt := a |}.
Definition RunKey_runtime (r : RunKey) : RuntimeKind := runtime (work r).
Definition WorkScope_single (p : string) : WorkScope :=
  {| project := {| project_name := p |}; root := {| checkout_name := p |} |}.

(** [Display]: ["runtime:id"] and ["runtime:id#attempt"]. *)
Definition display_WorkKey (w : WorkKey) : string := as_str (runtime w) +:+ ":" +:+ work_id w.
Definition display_RunKey (r : RunKey) : string := display_WorkKey (work r) +:+ "#" +:+ pretty (attempt r).

(** ** contracts.rs *)

Inductive WorkPhase :=
  | Queued | PAdmitted | Running | PParked | Waiting | Finished | Failed | PCancelled.
#[global] Instance WorkPhase_eq_dec : EqDecision WorkPhase.
Proof. solve_decision. Defined.

#[global] Instance WorkPhase_names : StrEnum WorkPhase := {|
  ALL := [Queued; PAdmitted; Running; PParked; Waiting; Finished; Failed; PCancelled];
  as_str p := match p with
    | Queued => "queued" | PAdmitted => "admitted" | Running => "running"
    | PParked => "parked" | Waiting => "waiting" | Finished => "finished"
    | Failed => "failed" | PCancelled => "cancelled"
    end;
|}.
#[global] Instance WorkPhase_names_laws : StrEnumLaws WorkPhase.
Proof. solve_enum_laws. Qed.

Definition is_terminal (p : WorkPhase) : bool :=
  match p with Finished | Failed | PCancelled => true | _ => false end.
Definition is_active (p : WorkPhase) : bool :=
  match p with PAdmitted | Running | PParked | Waiting => true | _ => false end.

Inductive WorkOrigin := OUser | OSubchat | OScheduler | OExternal.
#[global] Instance WorkOrigin_names : StrEnum WorkOrigin := {|
  ALL := [OUser; OSubchat; OScheduler; OExternal];
  as_str o := match o with
    | OUser => "user" | OSubchat => "subchat" | OScheduler => "scheduler" | OExternal => "external"
    end;
|}.
#[global] Instance WorkOrigin_names_laws : StrEnumLaws WorkOrigin.
Proof. solve_enum_laws. Qed.

(** Declared most urgent first, so the derived order puts the most urgent run
    first. *)
Inductive WorkPriority := UserBlocking | Interactive | Normal | Speculative.
#[global] Instance WorkPriority_eq_dec : EqDecision WorkPriority.
Proof. solve_decision. Defined.

#[global] Instance WorkPriority_names : StrEnum WorkPriority := {|
  ALL := [UserBlocking; Interactive; Normal; Speculative];
  as_str p := match p with
    | UserBlocking => "user_blocking" | Interactive => "interactive"
    | Normal => "normal" | Speculative => "speculative"
    end;
|}.
#[global] Instance WorkPriority_names_laws : StrEnumLaws WorkPriority.
Proof. solve_enum_laws. Qed.

Definition WorkPriority_rank (p : WorkPriority) : N :=
  match p with UserBlocking => 0 | Interactive => 1 | Normal => 2 | Speculative => 3 end.
#[global] Instance WorkPriority_rank_inj : Inj (=) (=) WorkPriority_rank.
Proof. by intros [] []. Qed.
#[global] Instance WorkPriority_ord : RustOrd WorkPriority := ord_via WorkPriority_rank.
#[global] Instance WorkPriority_ord_laws : RustOrdLaws WorkPriority.
Proof. apply ord_via_laws, _. Qed.

Inductive ActivityState := Idle | Recent | Stale.

Record WorkSummary := {
  sum_work : WorkKey;
  sum_run : option RunKey;
  sum_scope : WorkScope;
  sum_phase : WorkPhase;
  sum_origin : WorkOrigin;
  sum_title : string;
  sum_depth : N;
  sum_parent : option WorkKey;
  updated_at_secs : N;
  sum_activity : ActivityState;
  sum_detail : option string;
}.

Definition set_activity (s : WorkSummary) (a : ActivityState) : WorkSummary :=
  {| sum_work := sum_work s; sum_run := sum_run s; sum_scope := sum_scope s;
     sum_phase := sum_phase s; sum_origin := sum_origin s; sum_title := sum_title s;
     sum_depth := sum_depth s; sum_parent := sum_parent s;
     updated_at_secs := updated_at_secs s; sum_activity := a; sum_detail := sum_detail s |}.

(** [WorkSummary::classify_activity]; [saturating_sub] is [N.sub]. *)
Definition classify_activity (now_secs recent_window_secs : N) (s : WorkSummary) : WorkSummary :=
  let age := now_secs - updated_at_secs s in
  set_activity s
    (if is_terminal (sum_phase s) then Idle
     else if age <=? recent_window_secs then Recent
     else Stale).

(** The [WorkerProjection] trait with its provided method. *)
Class WorkerProjection (P : Type) := {
  proj_runtime : P → RuntimeKind;
  list_work : P → list WorkSummary;
}.
Definition find_work `{WorkerProjection P} (p : P) (w : WorkKey) : option WorkSummary :=
  snd <$> list_find (λ s, sum_work s = w) (list_work p).

(** ** cap_stop.rs *)

Inductive CapKind :=
  | Steps | GoalTurns | GoalTokens | GoalMinutes | GoalCostCents | GoalNoProgress
  | ContextTokens | Spawns.
#[global] Instance CapKind_eq_dec : EqDecision CapKind.
Proof. solve_decision. Defined.
Inductive CapScope := SChild | SRoot | SProject | SEngine.
#[global] Instance CapScope_eq_dec : EqDecision CapScope.
Proof. solve_decision. Defined.

Definition CapKind_as_str (k : CapKind) : string :=
  match k with
  | Steps => "max_steps" | GoalTurns => "goal.max_turns" | GoalTokens => "goal.max_tokens"
  | GoalMinutes => "goal.max_minutes" | GoalCostCents => "goal.max_cost_cents"
  | GoalNoProgress => "goal.no_progress_turns" | ContextTokens => "context_tokens"
  | Spawns => "max_spawns"
  end.

Record CapStop := {
  cap_key : CapKind;
  cap_scope : CapScope;
  cap_limit : N;
  cap_used : N;
  resumable : bool;
  run_generation : N;
}.

Definition CapStop_valid (c : CapStop) : bool :=
  (0 <? cap_limit c) && (cap_limit c <=? cap_used c)
  && (bool_decide (cap_scope c = SChild) || bool_decide (cap_key c = Spawns)).

Definition parent_can_raise_steps (c : CapStop) : bool :=
  CapStop_valid c && resumable c && bool_decide (cap_key c = Steps)
  && bool_decide (cap_scope c = SChild).

(** The JSON printer and parser are [serde_json]'s; either may fail. *)
Section cap_stop_errors.
Context (to_json : CapStop → option string) (from_json : string → option CapStop).

Fixpoint strip_string_prefix (p s : string) : option string :=
  match p, s with
  | EmptyString, _ => Some s
  | String a p', String b s' => if Ascii.eqb a b then strip_string_prefix p' s' else None
  | String _ _, EmptyString => None
  end.

Definition CapStop_as_error (c : CapStop) : option string :=
  json ← to_json c; Some ("CAP_STOP:" +:+ json).
Definition CapStop_from_error (error : string) : option CapStop :=
  json ← strip_string_prefix "CAP_STOP:" error;
  stop ← from_json json;
  if CapStop_valid stop then Some stop else None.
End cap_stop_errors.

(** ** Properties of identities and contracts

    Wire names parse back to the value they print, displayed run keys identify
    the run, and a typed budget stop survives its trip through an error string. *)

(** ** Strings with a separator *)

Abbreviation letters := Stdlib.Strings.String.list_ascii_of_string.

Definition hash : Ascii.ascii := Ascii.ascii_of_nat 35.
Definition colon : Ascii.ascii := Ascii.ascii_of_nat 58.

Lemma letters_app s t : letters (s +:+ t) = letters s ++ letters t.
Proof. induction s as [|c s IH]; [done|]. simpl. by rewrite IH. Qed.

Lemma letters_inj s t : letters s = letters t → s = t.
Proof.
  intros H. rewrite <- (Stdlib.Strings.String.string_of_list_ascii_of_string s), H.
  apply Stdlib.Strings.String.string_of_list_ascii_of_string.
Qed.

(** Two texts cut at their first separator agree on both sides of it. *)
Lemma split_first {A} (c : A) l1 l2 k1 k2 :
  c ∉ l1 → c ∉ l2 → l1 ++ c :: k1 = l2 ++ c :: k2 → l1 = l2 ∧ k1 = k2.
Proof.
  revert l2. induction l1 as [|x l1 IH]; intros [|y l2] H1 H2 Heq; simpl in *.
  - by injection Heq as ->.
  - injection Heq as <- _. set_solver.
  - injection Heq as -> _. set_solver.
  - injection Heq as <- Heq. destruct (IH l2) as [<- <-]; [set_solver..|done|done].
Qed.

(** The same at the last separator. *)
Lemma split_last {A} (c : A) l1 l2 k1 k2 :
  c ∉ k1 → c ∉ k2 → l1 ++ c :: k1 = l2 ++ c :: k2 → l1 = l2 ∧ k1 = k2.
Proof.
  intros H1 H2 Heq%(f_equal reverse). rewrite !reverse_app, !reverse_cons, <- !app_assoc in Heq.
  apply split_first in Heq as [Hk Hl]; [|by rewrite elem_of_reverse..].
  by apply (inj reverse) in Hk, Hl.
Qed.

Lemma pretty_no_hash (n : N) : hash ∉ letters (pretty n).
Proof.
  assert (∀ x, pretty_N_char x ≠ hash) as Hc.
  { intros x. unfold pretty_N_char. by repeat case_match. }
  assert (∀ x s, hash ∉ letters s → hash ∉ letters (pretty_N_go x s)) as Hgo.
  { intros x. induction (N.lt_wf_0 x) as [x _ IH]. intros s Hs.
    destruct (N.eq_0_gt_0_cases x) as [->|Hx]; [done|].
    rewrite pretty_N_go_step by done. apply IH.
    - apply N.div_lt; lia.
    - simpl. apply not_elem_of_cons. split; [|done]. intros Heq. by apply (Hc (x mod 10)). }
  unfold pretty, pretty_N. case_decide; [set_solver|]. apply Hgo. set_solver.
Qed.

Lemma runtime_no_colon (k : RuntimeKind) : colon ∉ letters (as_str k).
Proof. destruct k; simpl; set_solver. Qed.

Lemma display_WorkKey_inj w1 w2 : display_WorkKey w1 = display_WorkKey w2 → w1 = w2.
Proof.
  unfold display_WorkKey. intros Heq%(f_equal letters). rewrite !letters_app in Heq.
  apply split_first in Heq as [Hr Hi]; [|apply runtime_no_colon..].
  apply letters_inj in Hr, Hi. apply (inj as_str) in Hr.
  destruct w1, w2; simpl in *; congruence.
Qed.

Lemma strip_string_prefix_app p s : strip_string_prefix p (p +:+ s) = Some s.
Proof. induction p as [|c p IH]; simpl; [done|]. by rewrite Ascii.eqb_refl. Qed.

Lemma strip_string_prefix_Some p s t : strip_string_prefix p s = Some t → s = p +:+ t.
Proof.
  revert s. induction p as [|c p IH]; intros s; simpl; [by intros [= ->]|].
  destruct s as [|d s]; [done|]. destruct (Ascii.eqb_spec c d) as [->|]; [|done].
  intros ->%IH. done.
Qed.

(** ** Theorems *)

(** The displayed form ["runtime:id#attempt"] identifies the run, whatever
    characters (colons and hashes included) the work id holds. *)
Lemma display_RunKey_identifies r1 r2 : display_RunKey r1 = display_RunKey r2 ↔ r1 = r2.
Proof.
  split; [|by intros ->]. unfold display_RunKey. intros Heq%(f_equal letters).
  rewrite !letters_app in Heq. apply split_last in Heq as [Hw Ha]; [|apply pretty_no_hash..].
  apply letters_inj in Hw, Ha. apply display_WorkKey_inj in Hw. apply (inj pretty) in Ha.
  destruct r1, r2; simpl in *; congruence.
Qed.

(** [parse] inverts [as_str] for every enumeration of the contracts, and
    accepts nothing else. *)
Lemma enums_round_trip :
  (∀ raw (k : RuntimeKind), parse_enum raw = Some k ↔ raw = as_str k)
  ∧ (∀ raw (p : WorkPhase), parse_enum raw = Some p ↔ raw = as_str p)
  ∧ (∀ raw (o : WorkOrigin), parse_enum raw = Some o ↔ raw = as_str o)
  ∧ (∀ raw (p : WorkPriority), parse_enum raw = Some p ↔ raw = as_str p).
Proof.
  split_and!; intros raw x; (split;
    [intros H; symmetry; by apply parse_enum_sound|intros ->; apply parse_enum_as_str]).
Qed.

(** A typed budget stop survives its error string, and no error string ever
    yields a stop that is not a genuine cap stop (limit reached, in a scope its
    kind allows); [serde_json] is assumed to read back what it wrote. *)
Lemma cap_stop_error_round_trip to_json from_json c error :
  (∀ c json, to_json c = Some json → from_json json = Some c) →
  CapStop_as_error to_json c = Some error →
  CapStop_from_error from_json error = (if CapStop_valid c then Some c else None)
  ∧ ∀ error' c', CapStop_from_error from_json error' = Some c' →
      CapStop_valid c' = true ∧ ∃ json, error' = "CAP_STOP:" +:+ json ∧ from_json json = Some c'.
Proof.
  intros Hjson. unfold CapStop_as_error. intros (json & Hj & [= <-])%bind_Some.
  unfold CapStop_from_error. split.
  - rewrite (strip_string_prefix_app "CAP_STOP:" json). simpl. by rewrite (Hjson _ _ Hj).
  - intros error' c' (json' & Hs & (c'' & Hf & Hv)%bind_Some)%bind_Some.
    apply strip_string_prefix_Some in Hs as ->.
    destruct (CapStop_valid c'') eqn:Hvalid; [|done]. injection Hv as <-. eauto.
Qed.

(** A printer that knows one stop. *)
Definition sample_stop : CapStop := {|
  cap_key := Steps; cap_scope := SChild; cap_limit := 5; cap_used := 5; resumable := true;
  run_generation := 1 |}.
#[global] Instance CapStop_eq_dec : EqDecision CapStop.
Proof. solve_decision. Defined.
Definition sample_to_json (c : CapStop) : option string :=
  if decide (c = sample_stop) then Some "{}" else None.
Definition sample_from_json (json : string) : option CapStop :=
  if decide (json = "{}") then Some sample_stop else None.

Lemma cap_stop_error_round_trip_witness :
  CapStop_as_error sample_to_json sample_stop = Some "CAP_STOP:{}"
  ∧ CapStop_from_error sample_from_json "CAP_STOP:{}" = Some sample_stop
  ∧ ∀ error' c', CapStop_from_error sample_from_json error' = Some c' →
      CapStop_valid c' = true
      ∧ ∃ json, error' = "CAP_STOP:" +:+ json ∧ sample_from_json json = Some c'.
Proof.
  assert (Ha : CapStop_as_error sample_to_json sample_stop = Some "CAP_STOP:{}") by by vm_compute.
  split; [exact Ha|].
  apply (cap_stop_error_round_trip sample_to_json sample_from_json sample_stop "CAP_STOP:{}");
    [|exact Ha].
  intros c json. unfold sample_to_json, sample_from_json. case_decide; [|discriminate].
  intros [= <-]. by subst.
Defined.
