(* ===== verification/Settings.v ===== *)
(** * Coordination settings

    [refact-work-core/src/settings.rs]: the settings record that bounds every
    coordination component, its defaults, the validation that reports every
    violated bound at once, and the derived quantities the scheduler reads. *)

From stdpp Require Import gmap strings list pretty.
From S2P Require Import Prelude RustStr Identity.

Local Open Scope N_scope.

Record CoordinationSettings := {
  enabled : bool;
  auto_inject_enabled : bool;
  memory_supervisor_override : bool;
  max_active_engine : N;
  max_active_project : N;
  max_active_root : N;
  root_fairness_quantum : N;
  root_weights : gmap string N;
  max_root_weight_entries : N;
  max_resume_burst : N;
  default_priority : WorkPriority;
  max_priority_burst : N;
  max_pending : N;
  max_outstanding : N;
  max_parked_residency : N;
  max_subchat_depth : N;
  max_read_stamps : N;
  max_write_records : N;
  max_undo_entries_per_file : N;
  max_undo_bytes : N;
  overview_default_rows : N;
  overview_max_rows : N;
  max_work_views : N;
  max_work_cursors : N;
  max_work_history_rows : N;
  max_work_history_bytes : N;
  max_work_provenance_records : N;
  max_work_provenance_bytes : N;
  work_cursor_ttl_secs : N;
  work_subscription_interval_ms : N;
  work_stream_timeout_ms : N;
  work_reconnect_max_ms : N;
  inspect_max_paths : N;
  work_root_presence_ttl_ms : N;
  capsule_token_budget : N;
  capsule_max_rows : N;
  min_interval_secs : N;
  debounce_secs : N;
  recent_window_secs : N;
  lock_timeout_secs : N;
  lock_poll_interval_ms : N;
  approval_timeout_secs : N;
  max_pending_approvals : N;
  max_pending_questions : N;
  question_default_expiry_secs : N;
  question_max_expiry_secs : N;
  deadlock_detection_enabled : bool;
  deadlock_scan_interval_ms : N;
  deadlock_max_nodes : N;
  deadlock_max_edges : N;
  deadlock_detection_attempts : N;
  deadlock_auto_cancel : bool;
  attention_batch_window_ms : N;
  attention_max_outstanding_questions : N;
  attention_default_timeout_secs : N;
  delivery_default_ttl_secs : N;
  delivery_max_ttl_secs : N;
  delivery_max_pending : N;
  delivery_status_retention : N;
  agent_followup_max_count : N;
  agent_followup_max_bytes : N;
  agent_message_max_chars : N;
  peer_grant_default_ttl_secs : N;
  peer_grant_max_ttl_secs : N;
  peer_grant_max_count : N;
  broadcast_rate_limit : N;
  broadcast_rate_window_secs : N;
  mailbox_default_rows : N;
  mailbox_max_rows : N;
  board_max_reviewers : N;
  board_claim_key_max_len : N;
  board_allow_self_review : bool;
  max_wave_width : N;
  max_pipeline_depth : N;
  overlap_ordering_enabled : bool;
  agent_wait_default_ms : N;
  agent_wait_max_ms : N;
  agent_wait_max_agents : N;
  subagent_default_steps : N;
  subagent_max_steps : N;
  launch_context_tokens : N;
  launch_context_messages : N;
  launch_context_entries : N;
  launch_context_bytes : N;
  launch_source_bytes : N;
  agent_profile_max_count : N;
  agent_profile_max_bytes : N;
  handoff_report_max_entries : N;
  handoff_report_max_chars : N;
  handoff_metric_max_records : N;
  handoff_finding_min_samples : N;
  handoff_finding_retention_ms : N;
  deliverable_max_corrections : N;
  deliverable_result_budget_tokens : N;
  strict_path_scope_default : bool;
  max_path_scope_entries : N;
  agent_closed_retained_max : N;
  agent_terminal_retained_max : N;
  store_busy_timeout_ms : N;
  store_allow_non_local_filesystem : bool;
  presence_heartbeat_interval_ms : N;
  presence_stale_after_ms : N;
  lease_ttl_ms : N;
  lease_renew_interval_ms : N;
  lease_takeover_grace_ms : N;
  merge_lease_wait_ms : N;
  merge_lease_poll_interval_ms : N;
  store_max_engine_instances : N;
  store_max_run_intents : N;
  store_max_queued_work : N;
  store_max_leases : N;
  store_max_outbox_messages : N;
  store_max_activity_observations : N;
  store_max_decomposition_outcomes : N;
  store_max_disagreements : N;
  disagreement_max_open : N;
  disagreement_retention_ms : N;
  disagreement_blocks_completion : bool;
  store_max_claims : N;
  claim_max_per_subject : N;
  claim_retention_ms : N;
  claim_corroboration_step_per_mille : N;
  claim_contradiction_min_confidence_per_mille : N;
  store_max_causal_events : N;
  decomposition_min_samples : N;
  team_max_count : N;
  team_role_max_count : N;
  team_member_max_count : N;
  team_mission_log_max_entries : N;
  team_heartbeat_ttl_ms : N;
  outbox_retention_secs : N;
  outbox_prune_interval_secs : N;
  run_intent_retention_secs : N;
  provider_pressure_enabled : bool;
  provider_max_concurrency : N;
  provider_min_concurrency : N;
  provider_initial_concurrency : N;
  provider_interactive_reserved_slots : N;
  provider_aimd_increase_after_successes : N;
  provider_aimd_decrease_cooldown_ms : N;
  provider_retry_max_attempts : N;
  provider_retry_base_backoff_ms : N;
  provider_retry_max_backoff_ms : N;
  provider_retry_jitter_per_mille : N;
  provider_breaker_failure_threshold : N;
  provider_breaker_cooldown_ms : N;
  provider_max_retry_after_ms : N;
  provider_pressure_max_buckets : N;
  recovery_auto_retry_enabled : bool;
  recovery_max_retries : N;
  recovery_delay_ms : N;
  recovery_total_timeout_ms : N;
  no_progress_repeat_threshold : N;
  no_progress_unchanged_turns : N;
  no_progress_window_turns : N;
  metrics_enabled : bool;
  metrics_max_series : N;
  metrics_max_explanations : N;
  metrics_max_label_chars : N;
  code_mode_enabled : bool;
  code_mode_timeout_ms : N;
  code_mode_max_host_calls : N;
  code_mode_max_intermediate_bytes : N;
}.

Definition default_settings : CoordinationSettings := {|
  enabled := true;
  auto_inject_enabled := true;
  memory_supervisor_override := false;
  max_active_engine := 32;
  max_active_project := 16;
  max_active_root := 16;
  root_fairness_quantum := 1;
  root_weights := ∅;
  max_root_weight_entries := 4096;
  max_resume_burst := 4;
  default_priority := Normal;
  max_priority_burst := 4;
  max_pending := 1024;
  max_outstanding := 4096;
  max_parked_residency := 256;
  max_subchat_depth := 5;
  max_read_stamps := 16384;
  max_write_records := 65536;
  max_undo_entries_per_file := 128;
  max_undo_bytes := 134217728;
  overview_default_rows := 50;
  overview_max_rows := 500;
  max_work_views := 4096;
  max_work_cursors := 16384;
  max_work_history_rows := 16384;
  max_work_history_bytes := 67108864;
  max_work_provenance_records := 16384;
  max_work_provenance_bytes := 4194304;
  work_cursor_ttl_secs := 300;
  work_subscription_interval_ms := 1000;
  work_stream_timeout_ms := 60000;
  work_reconnect_max_ms := 10000;
  inspect_max_paths := 200;
  work_root_presence_ttl_ms := 60000;
  capsule_token_budget := 1600;
  capsule_max_rows := 24;
  min_interval_secs := 60;
  debounce_secs := 5;
  recent_window_secs := 3600;
  lock_timeout_secs := 30;
  lock_poll_interval_ms := 25;
  approval_timeout_secs := 1800;
  max_pending_approvals := 256;
  max_pending_questions := 256;
  question_default_expiry_secs := 1800;
  question_max_expiry_secs := 604800;
  deadlock_detection_enabled := true;
  deadlock_scan_interval_ms := 5000;
  deadlock_max_nodes := 4096;
  deadlock_max_edges := 16384;
  deadlock_detection_attempts := 3;
  deadlock_auto_cancel := false;
  attention_batch_window_ms := 2000;
  attention_max_outstanding_questions := 32;
  attention_default_timeout_secs := 900;
  delivery_default_ttl_secs := 86400;
  delivery_max_ttl_secs := 604800;
  delivery_max_pending := 4096;
  delivery_status_retention := 16384;
  agent_followup_max_count := 64;
  agent_followup_max_bytes := 1048576;
  agent_message_max_chars := 65536;
  peer_grant_default_ttl_secs := 3600;
  peer_grant_max_ttl_secs := 604800;
  peer_grant_max_count := 256;
  broadcast_rate_limit := 32;
  broadcast_rate_window_secs := 60;
  mailbox_default_rows := 20;
  mailbox_max_rows := 200;
  board_max_reviewers := 256;
  board_claim_key_max_len := 256;
  board_allow_self_review := false;
  max_wave_width := 8;
  max_pipeline_depth := 16;
  overlap_ordering_enabled := true;
  agent_wait_default_ms := 60000;
  agent_wait_max_ms := 1800000;
  agent_wait_max_agents := 128;
  subagent_default_steps := 256;
  subagent_max_steps := 4096;
  launch_context_tokens := 24000;
  launch_context_messages := 1024;
  launch_context_entries := 256;
  launch_context_bytes := 16777216;
  launch_source_bytes := 4194304;
  agent_profile_max_count := 256;
  agent_profile_max_bytes := 65536;
  handoff_report_max_entries := 16;
  handoff_report_max_chars := 512;
  handoff_metric_max_records := 512;
  handoff_finding_min_samples := 5;
  handoff_finding_retention_ms := 604800000;
  deliverable_max_corrections := 1;
  deliverable_result_budget_tokens := 1024;
  strict_path_scope_default := false;
  max_path_scope_entries := 256;
  agent_closed_retained_max := 64;
  agent_terminal_retained_max := 500;
  store_busy_timeout_ms := 5000;
  store_allow_non_local_filesystem := false;
  presence_heartbeat_interval_ms := 15000;
  presence_stale_after_ms := 120000;
  lease_ttl_ms := 120000;
  lease_renew_interval_ms := 30000;
  lease_takeover_grace_ms := 60000;
  merge_lease_wait_ms := 300000;
  merge_lease_poll_interval_ms := 250;
  store_max_engine_instances := 512;
  store_max_run_intents := 65536;
  store_max_queued_work := 65536;
  store_max_leases := 16384;
  store_max_outbox_messages := 65536;
  store_max_activity_observations := 262144;
  store_max_decomposition_outcomes := 4096;
  store_max_disagreements := 4096;
  disagreement_max_open := 64;
  disagreement_retention_ms := 2592000000;
  disagreement_blocks_completion := false;
  store_max_claims := 4096;
  claim_max_per_subject := 64;
  claim_retention_ms := 2592000000;
  claim_corroboration_step_per_mille := 100;
  claim_contradiction_min_confidence_per_mille := 250;
  store_max_causal_events := 16384;
  decomposition_min_samples := 5;
  team_max_count := 32;
  team_role_max_count := 16;
  team_member_max_count := 64;
  team_mission_log_max_entries := 512;
  team_heartbeat_ttl_ms := 120000;
  outbox_retention_secs := 604800;
  outbox_prune_interval_secs := 3600;
  run_intent_retention_secs := 604800;
  provider_pressure_enabled := true;
  provider_max_concurrency := 16;
  provider_min_concurrency := 1;
  provider_initial_concurrency := 4;
  provider_interactive_reserved_slots := 1;
  provider_aimd_increase_after_successes := 8;
  provider_aimd_decrease_cooldown_ms := 1000;
  provider_retry_max_attempts := 4;
  provider_retry_base_backoff_ms := 500;
  provider_retry_max_backoff_ms := 60000;
  provider_retry_jitter_per_mille := 250;
  provider_breaker_failure_threshold := 8;
  provider_breaker_cooldown_ms := 30000;
  provider_max_retry_after_ms := 300000;
  provider_pressure_max_buckets := 4096;
  recovery_auto_retry_enabled := true;
  recovery_max_retries := 2;
  recovery_delay_ms := 10000;
  recovery_total_timeout_ms := 600000;
  no_progress_repeat_threshold := 3;
  no_progress_unchanged_turns := 12;
  no_progress_window_turns := 24;
  metrics_enabled := true;
  metrics_max_series := 4096;
  metrics_max_explanations := 2048;
  metrics_max_label_chars := 160;
  code_mode_enabled := false;
  code_mode_timeout_ms := 30000;
  code_mode_max_host_calls := 64;
  code_mode_max_intermediate_bytes := 262144;
|}.

(** [store::records::CONFIDENCE_CERTAIN_PER_MILLE]. *)
Definition CONFIDENCE_CERTAIN_PER_MILLE : N := 1000.

Record SettingsViolation := { viol_field : string; viol_message : string }.
Record SettingsError := { violations : list SettingsViolation }.

Definition at_least (field : string) (value minimum : N) : list SettingsViolation :=
  if value <? minimum then
    [{| viol_field := field;
        viol_message := "must be at least " +:+ pretty minimum +:+ ", got " +:+ pretty value |}]
  else [].

Definition not_greater (field : string) (value : N) (other_field : string) (other : N)
  : list SettingsViolation :=
  if other <? value then
    [{| viol_field := field;
        viol_message := "must not exceed " +:+ other_field +:+ " (" +:+ pretty other
          +:+ "), got " +:+ pretty value |}]
  else [].

(** [for (field, value) in [...] { at_least(&mut v, field, value, minimum); }] *)
Definition at_least_all (minimum : N) (rows : list (string * N)) : list SettingsViolation :=
  rows ≫= λ row, at_least row.1 row.2 minimum.

Definition validate_root_weights (self : CoordinationSettings) : list SettingsViolation :=
  btree_list (root_weights self) ≫= λ '(root, weight),
    (if bool_decide (trim (chars root) = []) || negb (bool_decide (trim (chars root) = chars root))
        || existsb is_control (chars root)
     then [{| viol_field := "root_weights";
              viol_message := "root IDs must be nonempty, trimmed and contain no control characters" |}]
     else [])
    ++ at_least "root_weights" weight 1.

Definition validate_1 (self : CoordinationSettings) : list SettingsViolation :=
  concat [
    not_greater "recovery_max_retries" (recovery_max_retries self) "recovery retry limit" 100;
    not_greater "recovery_delay_ms" (recovery_delay_ms self) "recovery delay limit" 3600000;
    at_least "recovery_total_timeout_ms" (recovery_total_timeout_ms self) 1000;
    not_greater "recovery_total_timeout_ms" (recovery_total_timeout_ms self) "recovery timeout limit" 86400000;
    at_least "agent_terminal_retained_max" (agent_terminal_retained_max self) 50;
    not_greater "agent_terminal_retained_max" (agent_terminal_retained_max self) "agent terminal history limit" 10000;
    at_least "max_undo_entries_per_file" (max_undo_entries_per_file self) 1;
    at_least "max_undo_bytes" (max_undo_bytes self) 1;
    at_least "work_stream_timeout_ms" (work_stream_timeout_ms self) 1;
    at_least "work_reconnect_max_ms" (work_reconnect_max_ms self) 1;
    at_least_all 1
      [("launch_context_tokens", (launch_context_tokens self));
       ("launch_context_messages", (launch_context_messages self));
       ("launch_context_entries", (launch_context_entries self));
       ("launch_context_bytes", (launch_context_bytes self));
       ("launch_source_bytes", (launch_source_bytes self));
       ("agent_profile_max_count", (agent_profile_max_count self));
       ("agent_profile_max_bytes", (agent_profile_max_bytes self));
       ("handoff_report_max_entries", (handoff_report_max_entries self));
       ("handoff_report_max_chars", (handoff_report_max_chars self));
       ("handoff_metric_max_records", (handoff_metric_max_records self));
       ("handoff_finding_min_samples", (handoff_finding_min_samples self));
       ("handoff_finding_retention_ms", (handoff_finding_retention_ms self));
       ("max_path_scope_entries", (max_path_scope_entries self));
       ("max_work_views", (max_work_views self));
       ("max_work_cursors", (max_work_cursors self));
       ("max_work_history_rows", (max_work_history_rows self));
       ("max_work_history_bytes", (max_work_history_bytes self));
       ("max_work_provenance_records", (max_work_provenance_records self));
       ("max_work_provenance_bytes", (max_work_provenance_bytes self));
       ("work_cursor_ttl_secs", (work_cursor_ttl_secs self));
       ("work_subscription_interval_ms", (work_subscription_interval_ms self));
       ("inspect_max_paths", (inspect_max_paths self));
       ("max_wave_width", (max_wave_width self));
       ("max_pipeline_depth", (max_pipeline_depth self))];
    at_least "max_active_engine" (max_active_engine self) 1;
    at_least "max_active_project" (max_active_project self) 1;
    at_least "max_active_root" (max_active_root self) 1;
    at_least "root_fairness_quantum" (root_fairness_quantum self) 1;
    at_least "max_resume_burst" (max_resume_burst self) 1].

Definition validate_2 (self : CoordinationSettings) : list SettingsViolation :=
  concat [
    at_least "max_priority_burst" (max_priority_burst self) 1;
    at_least "max_root_weight_entries" (max_root_weight_entries self) 1;
    not_greater "root_weights" (N.of_nat (size (root_weights self))) "max_root_weight_entries" (max_root_weight_entries self);
    validate_root_weights self;
    at_least "max_pending" (max_pending self) 1;
    at_least "max_outstanding" (max_outstanding self) 1;
    at_least "max_parked_residency" (max_parked_residency self) 1;
    not_greater "max_parked_residency" (max_parked_residency self) "max_outstanding" (max_outstanding self);
    at_least "max_subchat_depth" (max_subchat_depth self) 1;
    at_least "max_read_stamps" (max_read_stamps self) 1;
    at_least "max_write_records" (max_write_records self) 1;
    at_least "overview_default_rows" (overview_default_rows self) 1;
    at_least "overview_max_rows" (overview_max_rows self) 1;
    at_least "capsule_token_budget" (capsule_token_budget self) 1600;
    at_least "capsule_max_rows" (capsule_max_rows self) 1;
    at_least "recent_window_secs" (recent_window_secs self) 1;
    at_least "work_root_presence_ttl_ms" (work_root_presence_ttl_ms self) 1;
    at_least "lock_timeout_secs" (lock_timeout_secs self) 1;
    at_least "approval_timeout_secs" (approval_timeout_secs self) 1;
    at_least_all 1
      [("delivery_default_ttl_secs", (delivery_default_ttl_secs self));
       ("delivery_max_ttl_secs", (delivery_max_ttl_secs self));
       ("agent_wait_default_ms", (agent_wait_default_ms self));
       ("agent_wait_max_ms", (agent_wait_max_ms self));
       ("peer_grant_default_ttl_secs", (peer_grant_default_ttl_secs self));
       ("peer_grant_max_ttl_secs", (peer_grant_max_ttl_secs self));
       ("broadcast_rate_window_secs", (broadcast_rate_window_secs self))]].

Definition validate_3 (self : CoordinationSettings) : list SettingsViolation :=
  concat [
    at_least_all 1
      [("delivery_max_pending", (delivery_max_pending self));
       ("delivery_status_retention", (delivery_status_retention self));
       ("agent_followup_max_count", (agent_followup_max_count self));
       ("agent_followup_max_bytes", (agent_followup_max_bytes self));
       ("agent_message_max_chars", (agent_message_max_chars self));
       ("peer_grant_max_count", (peer_grant_max_count self));
       ("broadcast_rate_limit", (broadcast_rate_limit self));
       ("mailbox_default_rows", (mailbox_default_rows self));
       ("mailbox_max_rows", (mailbox_max_rows self));
       ("board_max_reviewers", (board_max_reviewers self));
       ("board_claim_key_max_len", (board_claim_key_max_len self));
       ("agent_wait_max_agents", (agent_wait_max_agents self));
       ("agent_closed_retained_max", (agent_closed_retained_max self));
       ("store_max_engine_instances", (store_max_engine_instances self));
       ("store_max_run_intents", (store_max_run_intents self));
       ("store_max_queued_work", (store_max_queued_work self));
       ("store_max_leases", (store_max_leases self));
       ("store_max_outbox_messages", (store_max_outbox_messages self));
       ("store_max_activity_observations", (store_max_activity_observations self));
       ("store_max_decomposition_outcomes", (store_max_decomposition_outcomes self));
       ("store_max_disagreements", (store_max_disagreements self));
       ("disagreement_max_open", (disagreement_max_open self));
       ("store_max_claims", (store_max_claims self));
       ("claim_max_per_subject", (claim_max_per_subject self));
       ("claim_corroboration_step_per_mille", (claim_corroboration_step_per_mille self));
       ("store_max_causal_events", (store_max_causal_events self));
       ("decomposition_min_samples", (decomposition_min_samples self));
       ("team_max_count", (team_max_count self));
       ("team_role_max_count", (team_role_max_count self));
       ("team_member_max_count", (team_member_max_count self));
       ("team_mission_log_max_entries", (team_mission_log_max_entries self))];
    at_least "team_heartbeat_ttl_ms" (team_heartbeat_ttl_ms self) 1;
    at_least "disagreement_retention_ms" (disagreement_retention_ms self) 1;
    at_least "claim_retention_ms" (claim_retention_ms self) 1;
    not_greater "claim_contradiction_min_confidence_per_mille" (claim_contradiction_min_confidence_per_mille self) "full certainty" CONFIDENCE_CERTAIN_PER_MILLE;
    not_greater "claim_corroboration_step_per_mille" (claim_corroboration_step_per_mille self) "full certainty" CONFIDENCE_CERTAIN_PER_MILLE;
    at_least "store_busy_timeout_ms" (store_busy_timeout_ms self) 1;
    at_least "presence_heartbeat_interval_ms" (presence_heartbeat_interval_ms self) 1;
    at_least "outbox_retention_secs" (outbox_retention_secs self) 1;
    at_least "presence_stale_after_ms" (presence_stale_after_ms self) 1;
    not_greater "presence_heartbeat_interval_ms" (presence_heartbeat_interval_ms self) "presence_stale_after_ms" (presence_stale_after_ms self);
    at_least "outbox_prune_interval_secs" (outbox_prune_interval_secs self) 1;
    at_least "run_intent_retention_secs" (run_intent_retention_secs self) 1;
    at_least "no_progress_repeat_threshold" (no_progress_repeat_threshold self) 2;
    at_least "no_progress_unchanged_turns" (no_progress_unchanged_turns self) 2;
    at_least "no_progress_window_turns" (no_progress_window_turns self) 2].

Definition validate_4 (self : CoordinationSettings) : list SettingsViolation :=
  concat [
    at_least "metrics_max_series" (metrics_max_series self) 1;
    at_least "metrics_max_explanations" (metrics_max_explanations self) 1;
    at_least "metrics_max_label_chars" (metrics_max_label_chars self) 8;
    not_greater "no_progress_repeat_threshold" (no_progress_repeat_threshold self) "no_progress_window_turns" (no_progress_window_turns self);
    not_greater "no_progress_unchanged_turns" (no_progress_unchanged_turns self) "no_progress_window_turns" (no_progress_window_turns self);
    at_least "code_mode_timeout_ms" (code_mode_timeout_ms self) 1000;
    at_least "code_mode_max_host_calls" (code_mode_max_host_calls self) 1;
    at_least "code_mode_max_intermediate_bytes" (code_mode_max_intermediate_bytes self) 1024;
    at_least "lease_ttl_ms" (lease_ttl_ms self) 1;
    at_least "lease_renew_interval_ms" (lease_renew_interval_ms self) 1;
    not_greater "lease_renew_interval_ms" (lease_renew_interval_ms self) "lease_ttl_ms" (lease_ttl_ms self);
    at_least "merge_lease_wait_ms" (merge_lease_wait_ms self) 1;
    at_least "merge_lease_poll_interval_ms" (merge_lease_poll_interval_ms self) 1;
    not_greater "merge_lease_poll_interval_ms" (merge_lease_poll_interval_ms self) "merge_lease_wait_ms" (merge_lease_wait_ms self);
    at_least "subagent_max_steps" (subagent_max_steps self) 1;
    at_least "subagent_default_steps" (subagent_default_steps self) 1;
    not_greater "subagent_default_steps" (subagent_default_steps self) "subagent_max_steps" (subagent_max_steps self);
    at_least "max_pending_approvals" (max_pending_approvals self) 1;
    at_least "max_pending_questions" (max_pending_questions self) 1;
    at_least "question_default_expiry_secs" (question_default_expiry_secs self) 1;
    at_least "question_max_expiry_secs" (question_max_expiry_secs self) 1;
    not_greater "question_default_expiry_secs" (question_default_expiry_secs self) "question_max_expiry_secs" (question_max_expiry_secs self);
    not_greater "question_max_expiry_secs" (question_max_expiry_secs self) "question_absolute_max_expiry_secs" 31536000;
    at_least "attention_max_outstanding_questions" (attention_max_outstanding_questions self) 1].

Definition validate_5 (self : CoordinationSettings) : list SettingsViolation :=
  concat [
    at_least "attention_default_timeout_secs" (attention_default_timeout_secs self) 1;
    not_greater "attention_default_timeout_secs" (attention_default_timeout_secs self) "question_max_expiry_secs" (question_max_expiry_secs self);
    at_least "lock_poll_interval_ms" (lock_poll_interval_ms self) 1;
    at_least "deadlock_scan_interval_ms" (deadlock_scan_interval_ms self) 1;
    at_least_all 1
      [("deadlock_max_nodes", (deadlock_max_nodes self));
       ("deadlock_max_edges", (deadlock_max_edges self));
       ("deadlock_detection_attempts", (deadlock_detection_attempts self))];
    not_greater "max_active_project" (max_active_project self) "max_active_engine" (max_active_engine self);
    not_greater "max_active_root" (max_active_root self) "max_active_engine" (max_active_engine self);
    not_greater "max_pending" (max_pending self) "max_outstanding" (max_outstanding self);
    not_greater "overview_default_rows" (overview_default_rows self) "overview_max_rows" (overview_max_rows self);
    not_greater "debounce_secs" (debounce_secs self) "min_interval_secs" (min_interval_secs self);
    not_greater "lock_poll_interval_ms" (lock_poll_interval_ms self) "lock_timeout_secs_in_millis" (lock_timeout_secs self *sat 1000);
    not_greater "delivery_default_ttl_secs" (delivery_default_ttl_secs self) "delivery_max_ttl_secs" (delivery_max_ttl_secs self);
    not_greater "agent_wait_default_ms" (agent_wait_default_ms self) "agent_wait_max_ms" (agent_wait_max_ms self);
    not_greater "peer_grant_default_ttl_secs" (peer_grant_default_ttl_secs self) "peer_grant_max_ttl_secs" (peer_grant_max_ttl_secs self);
    not_greater "mailbox_default_rows" (mailbox_default_rows self) "mailbox_max_rows" (mailbox_max_rows self)].

Definition validate_6 (self : CoordinationSettings) : list SettingsViolation :=
  concat [
    at_least_all 1
      [("provider_max_concurrency", (provider_max_concurrency self));
       ("provider_min_concurrency", (provider_min_concurrency self));
       ("provider_initial_concurrency", (provider_initial_concurrency self));
       ("provider_aimd_increase_after_successes", (provider_aimd_increase_after_successes self));
       ("provider_retry_max_attempts", (provider_retry_max_attempts self));
       ("provider_retry_base_backoff_ms", (provider_retry_base_backoff_ms self));
       ("provider_retry_max_backoff_ms", (provider_retry_max_backoff_ms self));
       ("provider_breaker_failure_threshold", (provider_breaker_failure_threshold self));
       ("provider_breaker_cooldown_ms", (provider_breaker_cooldown_ms self));
       ("provider_max_retry_after_ms", (provider_max_retry_after_ms self));
       ("provider_pressure_max_buckets", (provider_pressure_max_buckets self))];
    not_greater "provider_min_concurrency" (provider_min_concurrency self) "provider_initial_concurrency" (provider_initial_concurrency self);
    not_greater "provider_initial_concurrency" (provider_initial_concurrency self) "provider_max_concurrency" (provider_max_concurrency self);
    not_greater "provider_interactive_reserved_slots" (provider_interactive_reserved_slots self) "provider_max_concurrency_minus_one" (provider_max_concurrency self - 1);
    not_greater "provider_retry_base_backoff_ms" (provider_retry_base_backoff_ms self) "provider_retry_max_backoff_ms" (provider_retry_max_backoff_ms self);
    not_greater "provider_retry_jitter_per_mille" (provider_retry_jitter_per_mille self) "provider_retry_jitter_per_mille_max" 1000].

(** The violations, in the order the source collects them. *)
Definition settings_violations (self : CoordinationSettings) : list SettingsViolation :=
  validate_1 self ++ validate_2 self ++ validate_3 self ++ validate_4 self ++ validate_5 self ++ validate_6 self.

Definition validate (self : CoordinationSettings) : result unit SettingsError :=
  match settings_violations self with
  | [] => Ok ()
  | v => Err {| violations := v |}
  end.

Definition validated (self : CoordinationSettings) : result CoordinationSettings SettingsError :=
  let? _ := validate self in Ok self.

(** [rows.clamp(1, overview_max_rows.max(1))] *)
Definition overview_rows (self : CoordinationSettings) (requested : option N) : N :=
  N.min (N.max (overview_max_rows self) 1) (N.max 1 (default (overview_default_rows self) requested)).

Definition root_quantum (self : CoordinationSettings) (root_id : string) : N :=
  root_fairness_quantum self *sat default 1 (root_weights self !! root_id).

(** The process-wide slot: [install_coordination_settings] replaces it only with
    validated settings. *)
Definition install_coordination_settings (slot settings : CoordinationSettings)
  : CoordinationSettings * result CoordinationSettings SettingsError :=
  match validate settings with
  | Err e => (slot, Err e)
  | Ok _ => (settings, Ok settings)
  end.

(** ** Properties of the coordination settings

    What a validated configuration guarantees to the components that read it. *)


Section rules.
Context (f g : string) (a b : N).

Lemma at_least_nil : at_least f a b = [] ↔ b ≤ a.
Proof. unfold at_least. destruct (N.ltb_spec a b); split; intros; (done || lia). Qed.

Lemma not_greater_nil : not_greater f a g b = [] ↔ a ≤ b.
Proof. unfold not_greater. destruct (N.ltb_spec b a); split; intros; (done || lia). Qed.
End rules.

Lemma at_least_all_nil m rows :
  at_least_all m rows = [] ↔ Forall (λ row, m ≤ row.2) rows.
Proof.
  unfold at_least_all. induction rows as [|[f v] rows IH]; [split; [constructor|done]|].
  rewrite Forall_cons. simpl. rewrite app_nil, IH. simpl. by rewrite at_least_nil.
Qed.

Lemma validate_ok_groups cfg :
  validate cfg = Ok () ↔
  validate_1 cfg = [] ∧ validate_2 cfg = [] ∧ validate_3 cfg = []
  ∧ validate_4 cfg = [] ∧ validate_5 cfg = [] ∧ validate_6 cfg = [].
Proof.
  rewrite <- !app_nil. unfold validate, settings_violations.
  by destruct (validate_1 cfg ++ _) eqn:E; split.
Qed.

(** The bounds the scheduler, the wait graph, the approval store and the work
    views rely on. *)
Record settings_bounds (cfg : CoordinationSettings) : Prop := {
  sb_root : 1 ≤ max_active_root cfg ≤ max_active_engine cfg;
  sb_project : 1 ≤ max_active_project cfg ≤ max_active_engine cfg;
  sb_pending : 1 ≤ max_pending cfg ≤ max_outstanding cfg;
  sb_residency : 1 ≤ max_parked_residency cfg ≤ max_outstanding cfg;
  sb_bursts : 1 ≤ max_resume_burst cfg ∧ 1 ≤ max_priority_burst cfg;
  sb_quantum : 1 ≤ root_fairness_quantum cfg;
  sb_depth : 1 ≤ max_subchat_depth cfg;
  sb_overview : 1 ≤ overview_default_rows cfg ≤ overview_max_rows cfg;
  sb_deadlock : 1 ≤ deadlock_max_nodes cfg ∧ 1 ≤ deadlock_max_edges cfg
                ∧ 1 ≤ deadlock_detection_attempts cfg;
  sb_approvals : 1 ≤ max_pending_approvals cfg;
  sb_questions : 1 ≤ question_default_expiry_secs cfg ≤ question_max_expiry_secs cfg
                 ∧ question_max_expiry_secs cfg ≤ 31536000;
  sb_weights : N.of_nat (size (root_weights cfg)) ≤ max_root_weight_entries cfg;
}.

Lemma concat_cons_nil {A} (l : list A) ls : concat (l :: ls) = [] → l = [] ∧ concat ls = [].
Proof. apply app_nil. Qed.
Lemma at_least_all_cons m f v rows :
  at_least_all m ((f, v) :: rows) = [] → m ≤ v ∧ at_least_all m rows = [].
Proof. rewrite !at_least_all_nil. by intros [? ?]%Forall_cons. Qed.

(** Reads off every bound of a clean group of clauses. *)
Ltac read_rule H :=
  first [apply at_least_nil in H | apply not_greater_nil in H
        | repeat (apply at_least_all_cons in H; destruct H as [? H])
        | idtac].
Ltac read_rules H :=
  repeat (apply concat_cons_nil in H; let Hc := fresh "Hc" in
          destruct H as [Hc H]; read_rule Hc).

Lemma validated_rules cfg : validate cfg = Ok () → settings_bounds cfg.
Proof.
  rewrite validate_ok_groups. intros (H1 & H2 & _ & H4 & H5 & _).
  read_rules H1. read_rules H2. read_rules H4. read_rules H5.
  split; lia.
Qed.

Lemma validated_root_weights cfg r w :
  validate cfg = Ok () → root_weights cfg !! r = Some w →
  1 ≤ w ∧ trim (chars r) ≠ [] ∧ trim (chars r) = chars r ∧ existsb is_control (chars r) = false.
Proof.
  rewrite validate_ok_groups. intros (_ & H2 & _) Hw.
  do 3 apply concat_cons_nil in H2 as [_ H2]. apply concat_cons_nil in H2 as [H _]. unfold validate_root_weights in H.
  apply elem_of_btree_list in Hw. apply list_elem_of_split in Hw as (l1 & l2 & Hl).
  rewrite Hl, bind_app, bind_cons in H.
  apply app_nil in H as [_ H]. apply app_nil in H as [H _]. apply app_nil in H as [Hc Ha].
  rewrite at_least_nil in Ha.
  destruct (bool_decide_reflect (trim (chars r) = [])); [done|].
  destruct (bool_decide_reflect (trim (chars r) = chars r)); [|done].
  destruct (existsb is_control (chars r)); done.
Qed.

(** ** Theorems *)

(** The settings the engine starts with are valid. *)
Lemma default_settings_valid : validate default_settings = Ok ().
Proof. by vm_compute. Qed.

(** What validation guarantees: every cap of the scheduler is at least one
    and nests in the engine's, residency and queue fit in the outstanding bound,
    every root weight is a positive weight of a trimmed, printable id, so every
    root earns a turn of at least one admission, and a view always has between
    one row and the configured maximum. *)
Lemma validated_settings_bounds cfg :
  validate cfg = Ok () →
  settings_bounds cfg
  ∧ (∀ r w, root_weights cfg !! r = Some w →
       1 ≤ w ∧ trim (chars r) ≠ [] ∧ trim (chars r) = chars r
       ∧ existsb is_control (chars r) = false)
  ∧ (∀ r, 1 ≤ root_quantum cfg r)
  ∧ (∀ requested, 1 ≤ overview_rows cfg requested ≤ overview_max_rows cfg).
Proof.
  intros Hv. pose proof (validated_rules cfg Hv) as Hb. split_and!; [done|..].
  - intros r w. by apply validated_root_weights.
  - intros r. unfold root_quantum, sat_mul.
    assert (1 ≤ default 1 (root_weights cfg !! r)) as Hw.
    { destruct (root_weights cfg !! r) as [w|] eqn:E; simpl; [|done].
      by apply (validated_root_weights cfg r w Hv E). }
    pose proof (sb_quantum cfg Hb). unfold u64_max. nia.
  - intros req. pose proof (sb_overview cfg Hb). unfold overview_rows. lia.
Qed.

Lemma validated_settings_bounds_witness :
  validate default_settings = Ok () ∧ 1 ≤ root_quantum default_settings "main"
  ∧ 1 ≤ overview_rows default_settings (Some 0) ≤ overview_max_rows default_settings.
Proof.
  assert (Hv : validate default_settings = Ok ()) by by vm_compute.
  split; [exact Hv|].
  destruct (validated_settings_bounds default_settings Hv) as (_ & _ & Hq & Ho).
  split; [apply Hq|apply Ho].
Defined.

(** The process-wide slot only ever holds valid settings: an installation
    either reports why it was refused and changes nothing, or takes effect as a
    whole. *)
Lemma install_keeps_slot_valid slot cfg :
  validate slot = Ok () →
  let '(slot', r) := install_coordination_settings slot cfg in
  validate slot' = Ok ()
  ∧ match r with
    | Ok now => slot' = cfg ∧ now = cfg
    | Err e => slot' = slot ∧ violations e = settings_violations cfg ∧ violations e ≠ []
    end.
Proof.
  intros Hslot. unfold install_coordination_settings.
  destruct (validate cfg) as [[]|e] eqn:E; split; try done.
  unfold validate in E. destruct (settings_violations cfg) as [|v vs]; [done|].
  injection E as <-. done.
Qed.

Lemma install_keeps_slot_valid_witness :
  let '(slot', r) := install_coordination_settings default_settings default_settings in
  validate slot' = Ok ()
  ∧ match r with
    | Ok now => slot' = default_settings ∧ now = default_settings
    | Err e => slot' = default_settings ∧ violations e = settings_violations default_settings
               ∧ violations e ≠ []
    end.
Proof.
  apply (install_keeps_slot_valid default_settings default_settings). by vm_compute.
Defined.
