(* ===== verification/Scheduler.v ===== *)
(** * The admission scheduler

    [refact-work-core/src/scheduler.rs].  One mutex-protected [State] holds every
    ticket of the engine; each public operation takes the lock, so operations are
    atomic state transformers here.  [None] stands for a panic (a failed [unwrap],
    [expect] or index).  The one-shot channels by which a parked [acquire] call
    learns its fate are identified by the [ready_seq] value of the call that made
    them, and [chan_log] records what each channel delivered, in order. *)

From stdpp Require Import gmap strings list sorting.
From S2P Require Import Prelude RustStr Identity Settings.
Local Open Scope N_scope.

(** ** Data *)

Abbreviation TicketId := N.

Record AdmissionRequest := {
  req_run : RunKey;
  req_scope : WorkScope;
  req_depth : N;
  req_priority : option WorkPriority;
}.

Inductive AdmissionError :=
  | Disabled
  | Duplicate (run : RunKey)
  | QueueFull (pending max_pending : N)
  | OutstandingFull (outstanding max_outstanding : N)
  | DepthExceeded (depth max_subchat_depth : N)
  | Cancelled
  | Gone.

Inductive TicketState := Reserved | Pending | Active | Parked | Evicted.
#[global] Instance TicketState_eq_dec : EqDecision TicketState.
Proof. solve_decision. Defined.

Record Entry := {
  e_run : RunKey;
  e_scope : WorkScope;
  e_depth : N;
  e_seq : N;
  e_ready_seq : N;
  e_parked_seq : N;
  e_state : TicketState;
  e_priority : WorkPriority;
  e_park_count : N;
  e_evict_count : N;
  e_cancel_requested : bool;
  e_waiter : option N;
}.

(** What a one-shot channel delivers: [tx.send(Ok(()))], [tx.send(Err(e))], or
    the error the receiver sees when the sender is dropped unused. *)
Inductive ChanEvent := SentOk | SentErr (e : AdmissionError) | SenderDropped.

Record State := {
  settings : CoordinationSettings;
  next_id : N;
  next_seq : N;
  entries : gmap TicketId Entry;
  by_run : gmap RunKey TicketId;
  queue : gset (N * TicketId);
  active_total : N;
  active_by_project : gmap ProjectKey N;
  active_by_root : gmap CheckoutKey N;
  last_root : option CheckoutKey;
  roots : list CheckoutKey;
  root_credit : N;
  resume_burst : gmap CheckoutKey N;
  priority_burst : N;
  chan_log : list (N * ChanEvent);
}.

(** ** Field updates *)

Definition upd_settings (x : CoordinationSettings) (s : State) : State := {|
  settings := x; next_id := next_id s; next_seq := next_seq s; entries := entries s;
  by_run := by_run s; queue := queue s; active_total := active_total s;
  active_by_project := active_by_project s; active_by_root := active_by_root s;
  last_root := last_root s; roots := roots s; root_credit := root_credit s;
  resume_burst := resume_burst s; priority_burst := priority_burst s; chan_log := chan_log s |}.
Definition upd_counters (i q : N) (s : State) : State := {|
  settings := settings s; next_id := i; next_seq := q; entries := entries s;
  by_run := by_run s; queue := queue s; active_total := active_total s;
  active_by_project := active_by_project s; active_by_root := active_by_root s;
  last_root := last_root s; roots := roots s; root_credit := root_credit s;
  resume_burst := resume_burst s; priority_burst := priority_burst s; chan_log := chan_log s |}.
Definition upd_entries (x : gmap TicketId Entry) (s : State) : State := {|
  settings := settings s; next_id := next_id s; next_seq := next_seq s; entries := x;
  by_run := by_run s; queue := queue s; active_total := active_total s;
  active_by_project := active_by_project s; active_by_root := active_by_root s;
  last_root := last_root s; roots := roots s; root_credit := root_credit s;
  resume_burst := resume_burst s; priority_burst := priority_burst s; chan_log := chan_log s |}.
Definition upd_index (b : gmap RunKey TicketId) (q : gset (N * TicketId)) (s : State) : State := {|
  settings := settings s; next_id := next_id s; next_seq := next_seq s; entries := entries s;
  by_run := b; queue := q; active_total := active_total s;
  active_by_project := active_by_project s; active_by_root := active_by_root s;
  last_root := last_root s; roots := roots s; root_credit := root_credit s;
  resume_burst := resume_burst s; priority_burst := priority_burst s; chan_log := chan_log s |}.
Definition upd_active (t : N) (p : gmap ProjectKey N) (r : gmap CheckoutKey N) (s : State) : State := {|
  settings := settings s; next_id := next_id s; next_seq := next_seq s; entries := entries s;
  by_run := by_run s; queue := queue s; active_total := t;
  active_by_project := p; active_by_root := r;
  last_root := last_root s; roots := roots s; root_credit := root_credit s;
  resume_burst := resume_burst s; priority_burst := priority_burst s; chan_log := chan_log s |}.
Definition upd_rotation (l : option CheckoutKey) (r : list CheckoutKey) (c : N) (s : State) : State := {|
  settings := settings s; next_id := next_id s; next_seq := next_seq s; entries := entries s;
  by_run := by_run s; queue := queue s; active_total := active_total s;
  active_by_project := active_by_project s; active_by_root := active_by_root s;
  last_root := l; roots := r; root_credit := c;
  resume_burst := resume_burst s; priority_burst := priority_burst s; chan_log := chan_log s |}.
Definition upd_bursts (b : gmap CheckoutKey N) (p : N) (s : State) : State := {|
  settings := settings s; next_id := next_id s; next_seq := next_seq s; entries := entries s;
  by_run := by_run s; queue := queue s; active_total := active_total s;
  active_by_project := active_by_project s; active_by_root := active_by_root s;
  last_root := last_root s; roots := roots s; root_credit := root_credit s;
  resume_burst := b; priority_burst := p; chan_log := chan_log s |}.
Definition log_chan (c : option N) (ev : ChanEvent) (s : State) : State := {|
  settings := settings s; next_id := next_id s; next_seq := next_seq s; entries := entries s;
  by_run := by_run s; queue := queue s; active_total := active_total s;
  active_by_project := active_by_project s; active_by_root := active_by_root s;
  last_root := last_root s; roots := roots s; root_credit := root_credit s;
  resume_burst := resume_burst s; priority_burst := priority_burst s;
  chan_log := chan_log s ++ match c with Some ch => [(ch, ev)] | None => [] end |}.

(** The entry after a change of its lifecycle fields; identity, scope, age and
    class never change. *)
Definition entry_with (e : Entry) (st : TicketState) (ready parked parks evicts : N)
    (cancel : bool) (w : option N) : Entry := {|
  e_run := e_run e; e_scope := e_scope e; e_depth := e_depth e; e_seq := e_seq e;
  e_ready_seq := ready; e_parked_seq := parked; e_state := st; e_priority := e_priority e;
  e_park_count := parks; e_evict_count := evicts; e_cancel_requested := cancel; e_waiter := w |}.

Definition set_e_state (st : TicketState) (e : Entry) : Entry :=
  entry_with e st (e_ready_seq e) (e_parked_seq e) (e_park_count e) (e_evict_count e)
    (e_cancel_requested e) (e_waiter e).

(** ** [impl State] *)

Definition has_state (st : TicketState) (e : Entry) : bool := bool_decide (e_state e = st).

(** [State::counts]: pending, reserved, parked, evicted. *)
Definition counts (s : State) : N * N * N * N :=
  (count_if (has_state Pending) (entries s), count_if (has_state Reserved) (entries s),
   count_if (has_state Parked) (entries s), count_if (has_state Evicted) (entries s)).

Definition evict_entry (e : Entry) : Entry :=
  entry_with e Evicted (e_ready_seq e) (e_parked_seq e) (e_park_count e)
    (sat_add u32_max (e_evict_count e) 1) (e_cancel_requested e) (e_waiter e).

(** The [(parked_seq, id)] pairs of the parked entries. *)
Definition parked_list (m : gmap TicketId Entry) : list (N * TicketId) :=
  keyed_list (has_state Parked) e_parked_seq m.

Definition evict_parked_over_residency (s : State) : State :=
  let parked := parked_list (entries s) in
  let over := (length parked - N.to_nat (max_parked_residency (settings s)))%nat in
  match over with
  | O => s
  | S _ =>
      upd_entries
        (foldl (λ m p, alter evict_entry p.2 m) (entries s) (take over (sort_by_key id parked))) s
  end.

Definition fits (s : State) (e : Entry) : bool :=
  if max_active_engine (settings s) <=? active_total s then false
  else if max_active_project (settings s)
            <=? default 0 (active_by_project s !! project (e_scope e)) then false
  else default 0 (active_by_root s !! root (e_scope e)) <? max_active_root (settings s).

Definition charge (sc : WorkScope) (s : State) : State :=
  upd_active (active_total s +w 1)
    (<[project sc := default 0 (active_by_project s !! project sc) +w 1]> (active_by_project s))
    (<[root sc := default 0 (active_by_root s !! root sc) +w 1]> (active_by_root s)) s.

(** [*count -= 1; if *count == 0 { remove }] *)
Definition decrement `{Countable K} (k : K) (m : gmap K N) : gmap K N :=
  match m !! k with
  | None => m
  | Some c => if wrap64 (c + u64_max) =? 0 then delete k m else <[k := wrap64 (c + u64_max)]> m
  end.

Definition discharge (sc : WorkScope) (s : State) : State :=
  upd_active (active_total s - 1) (decrement (project sc) (active_by_project s))
    (decrement (root sc) (active_by_root s)) s.

(** *** [State::pump] *)

(** One lane per root: the pending tickets that fit, oldest first. *)
Definition add_to_lane (s : State) (lanes : gmap CheckoutKey (list (N * TicketId)))
    (slot : N * TicketId) : gmap CheckoutKey (list (N * TicketId)) :=
  match entries s !! slot.2 with
  | Some e =>
      if has_state Pending e && fits s e
      then <[root (e_scope e) := default [] (lanes !! root (e_scope e)) ++ [slot]]> lanes
      else lanes
  | None => lanes
  end.

Definition build_lanes (s : State) : gmap CheckoutKey (list (N * TicketId)) :=
  foldl (add_to_lane s) ∅ (btree_elements (queue s)).

(** The persistent rotation: turn the roots until the front one has a lane. *)
Fixpoint rotate_to_lane (n : nat) (lanes : gmap CheckoutKey (list (N * TicketId)))
    (rs : list CheckoutKey) (credit : N) : option CheckoutKey * list CheckoutKey * N :=
  match n, rs with
  | O, _ | _, [] => (None, rs, credit)
  | S n, r :: _ =>
      if decide (is_Some (lanes !! r)) then (Some r, rs, credit)
      else rotate_to_lane n lanes (rotate_left rs) 0
  end.

Definition slot_priority (s : State) (slot : N * TicketId) : WorkPriority :=
  default Normal (e_priority <$> entries s !! slot.2).
Definition slot_ready_seq (s : State) (slot : N * TicketId) : N :=
  default 0 (e_ready_seq <$> entries s !! slot.2).

(** The turn fairness alone would serve. *)
Definition natural_slot (s : State) (fairness_turn : bool) (lane : list (N * TicketId))
  : option (N * TicketId) :=
  if fairness_turn then min_by_key (slot_ready_seq s) lane else head lane.

(** The most urgent, oldest slot of all lanes, if it is strictly more urgent. *)
Definition preemption (s : State) (fairness_turn : bool)
    (lanes : gmap CheckoutKey (list (N * TicketId))) (natural : N * TicketId)
  : option (CheckoutKey * (N * TicketId)) :=
  if fairness_turn || (max_priority_burst (settings s) <=? priority_burst s) then None
  else
    best ← min_by_key (λ p, (slot_priority s p.2, p.2.1))
             (btree_list lanes ≫= λ '(r, lane), pair r <$> lane);
    if decide (rlt (slot_priority s best.2) (slot_priority s natural)) then Some best else None.

(** The bookkeeping of the fair-share turn. *)
Definition spend_turn (r : CheckoutKey) (s : State) : State :=
  let credit :=
    if negb (bool_decide (last_root s = Some r)) || (root_credit s =? 0)
    then root_quantum (settings s) (checkout_name r) else root_credit s in
  let credit := credit - 1 in
  upd_rotation (Some r) (if credit =? 0 then rotate_left (roots s) else roots s) credit s.

(** Granting the permit: charge, leave the queue, wake the waiter. *)
Definition admit_slot (seq : N) (id : TicketId) (e : Entry) (s : State) : State :=
  let s := charge (e_scope e) s in
  let s := upd_index (by_run s) (queue s ∖ {[(seq, id)]}) s in
  let s := upd_entries (<[id := entry_with e Active (e_ready_seq e) (e_parked_seq e)
                                  (e_park_count e) (e_evict_count e) (e_cancel_requested e) None]>
                          (entries s)) s in
  log_chan (e_waiter e) SentOk s.

Inductive pump_outcome := PumpBreak (s : State) | PumpContinue (s : State) | PumpPanic.

Definition pump_step (s : State) : pump_outcome :=
  let lanes := build_lanes s in
  let '(chosen, rs, credit) := rotate_to_lane (length (roots s)) lanes (roots s) (root_credit s) in
  let s := upd_rotation (last_root s) rs credit s in
  match chosen with
  | None => PumpBreak s
  | Some turn_root =>
      let turn_burst := default 0 (resume_burst s !! turn_root) in
      let fairness_turn := max_resume_burst (settings s) <=? turn_burst in
      match lanes !! turn_root ≫= natural_slot s fairness_turn with
      | None => PumpPanic
      | Some natural =>
          let pre := preemption s fairness_turn lanes natural in
          let preempting := bool_decide (is_Some pre) in
          let '(r, (seq, id)) := default (turn_root, natural) pre in
          let pburst := if preempting then priority_burst s +sat 1 else 0 in
          match entries s !! id with
          | None => PumpPanic
          | Some e =>
              let burst := default 0 (resume_burst s !! r) in
              let rburst :=
                if negb fairness_turn && (0 <? e_park_count e)
                then <[r := burst +sat 1]> (resume_burst s)
                else delete r (resume_burst s) in
              let s := upd_bursts rburst pburst s in
              let s := if preempting then s else spend_turn r s in
              PumpContinue (admit_slot seq id e s)
          end
      end
  end.

Fixpoint pump_loop (fuel : nat) (s : State) : option State :=
  if active_total s <? max_active_engine (settings s) then
    match fuel with
    | O => None
    | S fuel =>
        match pump_step s with
        | PumpBreak s => Some s
        | PumpContinue s => pump_loop fuel s
        | PumpPanic => None
        end
    end
  else Some s.

(** Every round admits one queued ticket, so the queue bounds the rounds. *)
Definition pump (s : State) : option State := pump_loop (S (size (queue s))) s.

Definition root_in_use (r : CheckoutKey) (m : gmap TicketId Entry) : bool :=
  0 <? count_if (λ e, bool_decide (root (e_scope e) = r)) m.

(** [State::remove]; dropping the returned entry drops its sender, which the
    callers account for. *)
Definition remove (id : TicketId) (s : State) : option Entry * State :=
  match entries s !! id with
  | None => (None, s)
  | Some e =>
      let s := upd_entries (delete id (entries s)) s in
      let s := upd_index (delete (e_run e) (by_run s)) (queue s ∖ {[(e_seq e, id)]}) s in
      let s := if has_state Active e then discharge (e_scope e) s else s in
      let r := root (e_scope e) in
      let s :=
        if root_in_use r (entries s) then s
        else upd_rotation (last_root s) (filter (.≠ r) (roots s)) (root_credit s)
               (upd_bursts (delete r (resume_burst s)) (priority_burst s) s) in
      (Some e, s)
  end.

(** ** [impl Inner] *)

Definition bump_seq (s : State) : State := upd_counters (next_id s) (next_seq s +w 1) s.

(** [Inner::begin_wait]: the fresh channel is [ready_seq]; [Ok] hands its
    receiver to the caller. *)
Definition begin_wait (id : TicketId) (s : State) : option (State * result N AdmissionError) :=
  let ready_seq := next_seq s in
  let s := bump_seq s in
  match entries s !! id with
  | None => Some (s, Err Gone)
  | Some e =>
      match e_state e with
      | Active => Some (log_chan (Some ready_seq) SentOk s, Ok ready_seq)
      | Pending => Some (s, Err Gone)
      | Reserved | Parked | Evicted =>
          let e' := entry_with e Pending ready_seq (e_parked_seq e) (e_park_count e)
                      (e_evict_count e) (e_cancel_requested e) (Some ready_seq) in
          let s := upd_entries (<[id := e']> (entries s)) s in
          let s := upd_index (by_run s) ({[(e_seq e, id)]} ∪ queue s) s in
          s ← pump s; Some (s, Ok ready_seq)
      end
  end.

(** [Inner::abandon]; the removed entry is dropped at the end, with its sender. *)
Definition abandon (id : TicketId) (s : State) : option State :=
  match remove id s with
  | (Some e, s) => pump (log_chan (e_waiter e) SenderDropped s)
  | (None, s) => Some s
  end.

Definition release (id : TicketId) (s : State) : option State := abandon id s.

Definition park (id : TicketId) (s : State) : option (State * result unit AdmissionError) :=
  let parked_seq := next_seq s in
  let s := bump_seq s in
  match entries s !! id with
  | None => Some (s, Err Gone)
  | Some e =>
      if negb (has_state Active e) then Some (s, Err Gone)
      else if e_cancel_requested e then Some (s, Err Cancelled)
      else
        let e' := entry_with e Parked (e_ready_seq e) parked_seq
                    ((e_park_count e + 1) mod (u32_max + 1)) (e_evict_count e) false (e_waiter e) in
        let s := upd_entries (<[id := e']> (entries s)) s in
        let s := discharge (e_scope e) s in
        let s := evict_parked_over_residency s in
        s ← pump s; Some (s, Ok ())
  end.

Definition mark_cancel (e : Entry) : Entry :=
  entry_with e (e_state e) (e_ready_seq e) (e_parked_seq e) (e_park_count e) (e_evict_count e)
    true (e_waiter e).

Definition cancel (id : TicketId) (s : State) : option (State * bool) :=
  match entries s !! id with
  | Some e =>
      if has_state Active e then
        if e_cancel_requested e then Some (s, false)
        else Some (upd_entries (<[id := mark_cancel e]> (entries s)) s, true)
      else
        let s := (remove id s).2 in
        s ← pump (log_chan (e_waiter e) (SentErr Cancelled) s); Some (s, true)
  | None => Some (s, false)
  end.

(** ** [impl AdmissionScheduler] *)

Definition new (cfg : CoordinationSettings) : State := {|
  settings := cfg; next_id := 1; next_seq := 1; entries := ∅; by_run := ∅; queue := ∅;
  active_total := 0; active_by_project := ∅; active_by_root := ∅; last_root := None;
  roots := []; root_credit := 0; resume_burst := ∅; priority_burst := 0; chan_log := [] |}.

Definition configure (cfg : CoordinationSettings) (s : State)
  : option (State * result unit SettingsError) :=
  match validate cfg with
  | Err e => Some (s, Err e)
  | Ok _ =>
      let s := upd_settings cfg s in
      let quantum := match last_root s with
                     | Some r => root_quantum (settings s) (checkout_name r)
                     | None => 0
                     end in
      let s := upd_rotation (last_root s) (roots s) (N.min (root_credit s) quantum) s in
      let s := evict_parked_over_residency s in
      s ← pump s; Some (s, Ok ())
  end.

Definition reserved_entry (req : AdmissionRequest) (seq : N) (s : State) : Entry := {|
  e_run := req_run req; e_scope := req_scope req; e_depth := req_depth req; e_seq := seq;
  e_ready_seq := seq; e_parked_seq := 0; e_state := Reserved;
  e_priority := default (default_priority (settings s)) (req_priority req);
  e_park_count := 0; e_evict_count := 0; e_cancel_requested := false; e_waiter := None |}.

(** The refusals of [AdmissionScheduler::reserve], in the order they are tried. *)
Definition reserve_refusal (req : AdmissionRequest) (s : State) : option AdmissionError :=
  let cfg := settings s in
  let outstanding := N.of_nat (size (entries s)) in
  let '(pending, reserved, _, _) := counts s in
  let queued := pending + reserved in
  if negb (enabled cfg) then Some Disabled
  else if max_subchat_depth cfg <? req_depth req
       then Some (DepthExceeded (req_depth req) (max_subchat_depth cfg))
  else if decide (is_Some (by_run s !! req_run req)) then Some (Duplicate (req_run req))
  else if max_outstanding cfg <=? outstanding
       then Some (OutstandingFull outstanding (max_outstanding cfg))
  else if max_pending cfg <=? queued then Some (QueueFull queued (max_pending cfg))
  else None.

Definition reserve (req : AdmissionRequest) (s : State) : State * result TicketId AdmissionError :=
  match reserve_refusal req s with
  | Some err => (s, Err err)
  | None =>
      let id := next_id s in
      let seq := next_seq s in
      let s := upd_counters (next_id s +w 1) (next_seq s +w 1) s in
      let s := upd_entries (<[id := reserved_entry req seq s]> (entries s)) s in
      let r := root (req_scope req) in
      let s := upd_rotation (last_root s)
                 (if decide (r ∈ roots s) then roots s else roots s ++ [r]) (root_credit s) s in
      let s := upd_index (<[req_run req := id]> (by_run s)) (queue s) s in
      (s, Ok id)
  end.

(** [AdmissionScheduler::cancel] and [AdmissionSchedulerHandle::cancel]: the
    lookup and the cancellation take the lock separately. *)
Definition lookup_run (r : RunKey) (s : State) : option TicketId := by_run s !! r.
Definition cancel_looked_up (found : option TicketId) (s : State) : option (State * bool) :=
  match found with
  | Some id => cancel id s
  | None => Some (s, false)
  end.

Definition is_tracked (r : RunKey) (s : State) : bool := bool_decide (is_Some (by_run s !! r)).
Definition active_count (s : State) : N := active_total s.

(** ** Tickets and permits *)

(** The rest of [Ticket::acquire] once the channel resolves. *)
Definition finish_acquire (id : TicketId) (ev : ChanEvent) (s : State)
  : option (State * result TicketId AdmissionError) :=
  match ev with
  | SentErr err => Some (s, Err err)
  | SenderDropped => Some (s, Err Cancelled)
  | SentOk =>
      let cancelled := match entries s !! id with
                       | None => true
                       | Some e => e_cancel_requested e
                       end in
      if cancelled then s ← abandon id s; Some (s, Err Cancelled)
      else Some (s, Ok id)
  end.

(** [Permit::park]: on an error the permit itself is dropped, which releases. *)
Definition permit_park (id : TicketId) (s : State)
  : option (State * result TicketId AdmissionError) :=
  '(s, r) ← park id s;
  match r with
  | Ok _ => Some (s, Ok id)
  | Err err => s ← release id s; Some (s, Err err)
  end.

(** [AdmissionScheduler::snapshot]. *)
Record TicketSnapshot := {
  ts_id : TicketId; ts_run : RunKey; ts_scope : WorkScope; ts_depth : N; ts_seq : N;
  ts_state : TicketState; ts_priority : WorkPriority; ts_park_count : N; ts_evict_count : N;
}.
Record SchedulerSnapshot := {
  ss_settings : CoordinationSettings;
  ss_active : N; ss_pending : N; ss_reserved : N; ss_parked : N; ss_evicted : N;
  ss_outstanding : N;
  ss_active_by_project : gmap ProjectKey N;
  ss_active_by_root : gmap CheckoutKey N;
  ss_active_by_runtime : gmap RuntimeKind N;
  ss_tickets : list TicketSnapshot;
}.

Definition ticket_snapshot (p : TicketId * Entry) : TicketSnapshot := {|
  ts_id := p.1; ts_run := e_run p.2; ts_scope := e_scope p.2; ts_depth := e_depth p.2;
  ts_seq := e_seq p.2; ts_state := e_state p.2; ts_priority := e_priority p.2;
  ts_park_count := e_park_count p.2; ts_evict_count := e_evict_count p.2 |}.

Definition snapshot (s : State) : SchedulerSnapshot :=
  let '(pending, reserved, parked, evicted) := counts s in {|
    ss_settings := settings s; ss_active := active_total s; ss_pending := pending;
    ss_reserved := reserved; ss_parked := parked; ss_evicted := evicted;
    ss_outstanding := N.of_nat (size (entries s));
    ss_active_by_project := active_by_project s; ss_active_by_root := active_by_root s;
    ss_active_by_runtime :=
      map_fold (λ _ e m,
        if has_state Active e
        then <[RunKey_runtime (e_run e) := default 0 (m !! RunKey_runtime (e_run e)) +w 1]> m
        else m) ∅ (entries s);
    ss_tickets := sort_by_key ts_seq (ticket_snapshot <$> map_to_list (entries s)) |}.
