(* ===== verification/SchedulerInv.v ===== *)
(** * The scheduler's invariant

    The representation invariant of [Scheduler.State], in four parts (accounting,
    indices, freshness, channels), and the proof that every operation keeps it. *)

From stdpp Require Import gmap strings list sorting.
From S2P Require Import Prelude RustStr Identity Settings Scheduler.
Local Open Scope N_scope.

(** ** Counting the holders of permits *)

Definition holds (g : WorkScope → bool) (e : Entry) : bool := has_state Active e && g (e_scope e).
Definition cnt (g : WorkScope → bool) (m : gmap TicketId Entry) : N := count_if (holds g) m.

Definition everywhere : WorkScope → bool := λ _, true.
Definition at_key {K} `{EqDecision K} (key : WorkScope → K) (k : K) : WorkScope → bool :=
  λ sc, bool_decide (key sc = k).
Abbreviation in_project := (at_key project).
Abbreviation in_root := (at_key root).

Definition opt_count (n : N) : option N := if n =? 0 then None else Some n.

Lemma default_opt_count n : default 0 (opt_count n) = n.
Proof. unfold opt_count. destruct (N.eqb_spec n 0) as [->|]; done. Qed.

(** ** The invariant *)

(** The permit counters count the active tickets, and only nonzero counts are
    stored. *)
Record acc_ok (m : gmap TicketId Entry) (t : N) (bp : gmap ProjectKey N)
    (br : gmap CheckoutKey N) : Prop := {
  acc_total : t = cnt everywhere m;
  acc_project p : bp !! p = opt_count (cnt (in_project p) m);
  acc_root r : br !! r = opt_count (cnt (in_root r) m);
}.

(** [by_run], [queue] and [roots] index the entries. *)
Record idx_ok (m : gmap TicketId Entry) (br : gmap RunKey TicketId)
    (q : gset (N * TicketId)) (rs : list CheckoutKey) : Prop := {
  idx_run r id : br !! r = Some id ↔ ∃ e, m !! id = Some e ∧ e_run e = r;
  idx_queue sq id : (sq, id) ∈ q ↔ ∃ e, m !! id = Some e ∧ e_state e = Pending ∧ e_seq e = sq;
  idx_roots_nodup : NoDup rs;
  idx_roots r : r ∈ rs ↔ ∃ id e, m !! id = Some e ∧ root (e_scope e) = r;
}.

(** Identifiers and ages are below the counters, and ages are unique. *)
Record fresh_ok (m : gmap TicketId Entry) (ni ns : N) : Prop := {
  fresh_size : N.of_nat (size m) < ni;
  fresh_ids id e : m !! id = Some e →
    id < ni ∧ e_seq e < ns ∧ e_ready_seq e < ns ∧ e_parked_seq e < ns;
  fresh_seq_inj id1 id2 e1 e2 : m !! id1 = Some e1 → m !! id2 = Some e2 →
    e_seq e1 = e_seq e2 → id1 = id2;
  fresh_bounds : ni ≤ u64_max ∧ ns ≤ u64_max;
}.

(** A ticket has a live channel exactly while it is pending, its channel has
    delivered nothing yet, and no channel delivers twice. *)
Record chan_ok (m : gmap TicketId Entry) (ns : N) (log : list (N * ChanEvent)) : Prop := {
  chan_waiter id e : m !! id = Some e →
    e_waiter e = if has_state Pending e then Some (e_ready_seq e) else None;
  chan_silent id e : m !! id = Some e → e_state e = Pending → e_ready_seq e ∉ log.*1;
  chan_inj id1 id2 e1 e2 : m !! id1 = Some e1 → m !! id2 = Some e2 →
    e_state e1 = Pending → e_state e2 = Pending → e_ready_seq e1 = e_ready_seq e2 → id1 = id2;
  chan_nodup : NoDup log.*1;
  chan_old c : c ∈ log.*1 → c < ns;
}.

Record Inv (s : State) : Prop := {
  inv_acc : acc_ok (entries s) (active_total s) (active_by_project s) (active_by_root s);
  inv_idx : idx_ok (entries s) (by_run s) (queue s) (roots s);
  inv_fresh : fresh_ok (entries s) (next_id s) (next_seq s);
  inv_chan : chan_ok (entries s) (next_seq s) (chan_log s);
}.

(** Two entries of one ticket: the fields that never change agree. *)
Definition same_ticket (e e' : Entry) : Prop :=
  e_run e' = e_run e ∧ e_scope e' = e_scope e ∧ e_seq e' = e_seq e.

Lemma entry_with_same e st r p pc ec c w : same_ticket e (entry_with e st r p pc ec c w).
Proof. done. Qed.

Create HintDb sched.
#[export] Hint Resolve entry_with_same : sched.

(** ** Accounting *)

Definition b2n (b : bool) : N := if b then 1 else 0.

Section accounting.
Context (m : gmap TicketId Entry) (id : TicketId) (e : Entry).
Hypothesis Hid : m !! id = Some e.

Lemma cnt_update g e' :
  same_ticket e e' →
  cnt g (<[id:=e']> m) + b2n (holds g e) = cnt g m + b2n (holds g e').
Proof. intros _. apply (count_if_update (holds g) m id e e' Hid). Qed.

Lemma cnt_delete g : cnt g m = cnt g (delete id m) + b2n (holds g e).
Proof. apply (count_if_delete (holds g) m id e Hid). Qed.

Lemma cnt_holder_pos g : holds g e = true → 1 ≤ cnt g m.
Proof. apply (count_if_pos (holds g) m id e Hid). Qed.
End accounting.

Lemma cnt_insert_idle m id e g :
  m !! id = None → e_state e ≠ Active → cnt g (<[id:=e]> m) = cnt g m.
Proof.
  intros Hm He. unfold cnt. rewrite count_if_insert_new by done.
  unfold holds, has_state. rewrite bool_decide_false by done. simpl. lia.
Qed.

Lemma cnt_le_everywhere g m : cnt g m ≤ cnt everywhere m.
Proof.
  apply count_if_le. intros i v _. unfold holds, everywhere.
  rewrite andb_true_r. intros [? _]%andb_prop. done.
Qed.

Lemma cnt_le_size g m : cnt g m ≤ N.of_nat (size m).
Proof. rewrite <- count_if_true_size. by apply count_if_le. Qed.

(** The counters depend on the active tickets only. *)
Lemma acc_ok_ext m m' t bp br :
  (∀ g, cnt g m' = cnt g m) → acc_ok m t bp br → acc_ok m' t bp br.
Proof.
  intros Heq [Ht Hp Hr]. split; intros; rewrite ?Heq; auto.
Qed.

(** A counter map keyed by [key] under one more, or one fewer, holder in [sc]. *)
Section counter_maps.
Context `{Countable K} (key : WorkScope → K) (sc : WorkScope).
Context (m m' : gmap TicketId Entry) (bp : gmap K N).
Hypothesis Hbp : ∀ k, bp !! k = opt_count (cnt (at_key key k) m).
Hypothesis Hsz : N.of_nat (size m) ≤ u64_max ∧ N.of_nat (size m') ≤ u64_max.

Lemma at_key_self : at_key key (key sc) sc = true.
Proof. unfold at_key. by apply bool_decide_eq_true. Qed.
Lemma at_key_other k : key sc ≠ k → at_key key k sc = false.
Proof. unfold at_key. intros. by apply bool_decide_eq_false. Qed.

Lemma counter_charge :
  (∀ g, cnt g m' = cnt g m + b2n (g sc)) →
  ∀ k, <[key sc := default 0 (bp !! key sc) +w 1]> bp !! k = opt_count (cnt (at_key key k) m').
Proof.
  intros Heq k. rewrite lookup_insert. pose proof (cnt_le_size (at_key key k) m').
  case_decide as Hd; rewrite Heq in *.
  - subst k. rewrite Hbp, default_opt_count, at_key_self in *. simpl in *.
    rewrite wadd64_small by lia. unfold opt_count.
    by destruct (N.eqb_spec (cnt (at_key key (key sc)) m + 1) 0); [lia|].
  - rewrite Hbp, at_key_other by done. simpl. by rewrite N.add_0_r.
Qed.

Lemma counter_discharge :
  (∀ g, cnt g m = cnt g m' + b2n (g sc)) →
  ∀ k, decrement (key sc) bp !! k = opt_count (cnt (at_key key k) m').
Proof.
  intros Heq k. unfold decrement. rewrite Hbp.
  pose proof (cnt_le_size (at_key key (key sc)) m) as Hle.
  set (c := cnt (at_key key (key sc)) m) in *.
  assert (c = cnt (at_key key (key sc)) m' + 1) as Hc
    by (unfold c; rewrite Heq, at_key_self; done).
  unfold opt_count at 1. destruct (N.eqb_spec c 0) as [|Hnz]; [lia|].
  assert (wrap64 (c + u64_max) = c - 1) as ->.
  { unfold wrap64. replace (c + u64_max) with (c - 1 + 1 * (u64_max + 1)) by lia.
    rewrite N.Div0.mod_add. apply N.mod_small. lia. }
  destruct (decide (key sc = k)) as [<-|Hne].
  - destruct (N.eqb_spec (c - 1) 0) as [H0|H0].
    + rewrite lookup_delete_eq. unfold opt_count.
      by destruct (N.eqb_spec (cnt (at_key key (key sc)) m') 0); [|lia].
    + rewrite lookup_insert_eq. unfold opt_count.
      destruct (N.eqb_spec (cnt (at_key key (key sc)) m') 0); [lia|]. f_equal. lia.
  - assert (bp !! k = opt_count (cnt (at_key key k) m')) as Hk.
    { rewrite Hbp, Heq, at_key_other by done. simpl. by rewrite N.add_0_r. }
    destruct (c - 1 =? 0); by rewrite ?lookup_delete_ne, ?lookup_insert_ne by done.
Qed.
End counter_maps.

Lemma acc_charge m m' t bp br sc :
  N.of_nat (size m) ≤ u64_max ∧ N.of_nat (size m') ≤ u64_max →
  (∀ g, cnt g m' = cnt g m + b2n (g sc)) →
  acc_ok m t bp br →
  acc_ok m' (t +w 1) (<[project sc := default 0 (bp !! project sc) +w 1]> bp)
    (<[root sc := default 0 (br !! root sc) +w 1]> br).
Proof.
  intros Hsz Heq [Ht Hp Hr]. split.
  - pose proof (cnt_le_size everywhere m'). rewrite Ht, Heq in *. apply wadd64_small.
    simpl in *. lia.
  - by apply (counter_charge project sc m).
  - by apply (counter_charge root sc m).
Qed.

Lemma acc_discharge m m' t bp br sc :
  N.of_nat (size m) ≤ u64_max ∧ N.of_nat (size m') ≤ u64_max →
  (∀ g, cnt g m = cnt g m' + b2n (g sc)) →
  acc_ok m t bp br →
  acc_ok m' (t - 1) (decrement (project sc) bp) (decrement (root sc) br).
Proof.
  intros Hsz Heq [Ht Hp Hr]. split.
  - rewrite Ht, (Heq everywhere). simpl. lia.
  - by apply (counter_discharge project sc m).
  - by apply (counter_discharge root sc m).
Qed.

(** ** Indices *)

(** Splits lookups in an updated map. *)
Ltac map_cases :=
  repeat match goal with
  | H : <[?i:=_]> _ !! ?j = Some _ |- _ =>
      apply lookup_insert_Some in H as [[<- <-]|[? ?]]
  | H : delete ?i _ !! ?j = Some _ |- _ => apply lookup_delete_Some in H as [? ?]
  end.

Section indices.
Context (m : gmap TicketId Entry) (br : gmap RunKey TicketId).
Context (q : gset (N * TicketId)) (rs : list CheckoutKey).
Hypothesis Hok : idx_ok m br q rs.

Lemma idx_roots_perm rs' : rs' ≡ₚ rs → idx_ok m br q rs'.
Proof.
  intros Hp. destruct Hok as [H1 H2 H3 H4]. split; [done|done| |].
  - by rewrite Hp.
  - intros r. by rewrite Hp.
Qed.

Section update.
Context (id : TicketId) (e e' : Entry) (Hid : m !! id = Some e) (Hsame : same_ticket e e').

Lemma lookup_update_iff {P : Entry → Prop} i :
  (∃ x, <[id:=e']> m !! i = Some x ∧ P x) ↔
  (i = id ∧ P e') ∨ (i ≠ id ∧ ∃ x, m !! i = Some x ∧ P x).
Proof.
  destruct (decide (i = id)) as [->|Hne].
  - rewrite lookup_insert_eq. naive_solver.
  - rewrite lookup_insert_ne by done. naive_solver.
Qed.

Lemma idx_update q' :
  (∀ sq i, (sq, i) ∈ q' ↔
    (i = id ∧ e_state e' = Pending ∧ sq = e_seq e) ∨ (i ≠ id ∧ (sq, i) ∈ q)) →
  idx_ok (<[id:=e']> m) br q' rs.
Proof.
  intros Hq'. destruct Hok as [Hrun Hq Hnd Hroots], Hsame as (Hr & Hs & Hseq). split; [..|done|].
  - intros r i. rewrite lookup_update_iff, Hrun, Hr.
    destruct (decide (i = id)) as [->|]; naive_solver.
  - intros sq i. rewrite lookup_update_iff, Hq', Hq, Hseq. naive_solver.
  - intros r. rewrite Hroots. split; intros (i & x & Hi & Hx).
    + destruct (decide (i = id)) as [->|Hne]; simplify_eq.
      * exists id, e'. rewrite lookup_insert_eq, Hs. done.
      * exists i, x. by rewrite lookup_insert_ne.
    + map_cases; [|by eauto]. rewrite Hs in Hx. by eauto.
Qed.

Lemma idx_keep :
  (e_state e' = Pending ↔ e_state e = Pending) → idx_ok (<[id:=e']> m) br q rs.
Proof.
  intros Hst. apply idx_update. intros sq i. rewrite (idx_queue _ _ _ _ Hok).
  destruct (decide (i = id)) as [->|]; naive_solver.
Qed.

Lemma idx_enqueue :
  e_state e' = Pending → idx_ok (<[id:=e']> m) br ({[(e_seq e, id)]} ∪ q) rs.
Proof.
  intros Hst. apply idx_update. intros sq i.
  rewrite elem_of_union, elem_of_singleton, (idx_queue _ _ _ _ Hok).
  destruct (decide (i = id)) as [->|]; naive_solver.
Qed.

Lemma idx_dequeue :
  e_state e' ≠ Pending → idx_ok (<[id:=e']> m) br (q ∖ {[(e_seq e, id)]}) rs.
Proof.
  intros Hst. apply idx_update. intros sq i.
  rewrite elem_of_difference, elem_of_singleton, (idx_queue _ _ _ _ Hok).
  destruct (decide (i = id)) as [->|]; naive_solver.
Qed.
End update.

Lemma idx_insert id e :
  m !! id = None → e_state e ≠ Pending → br !! e_run e = None →
  idx_ok (<[id:=e]> m) (<[e_run e:=id]> br) q
    (if decide (root (e_scope e) ∈ rs) then rs else rs ++ [root (e_scope e)]).
Proof.
  intros Hid Hst Hrun. destruct Hok as [H1 H2 H3 H4].
  assert (∀ (P : Entry → Prop) i, (∃ x, <[id:=e]> m !! i = Some x ∧ P x) ↔
    (i = id ∧ P e) ∨ (∃ x, m !! i = Some x ∧ P x)) as Hiff.
  { intros P i. destruct (decide (i = id)) as [->|Hne].
    - rewrite lookup_insert_eq, Hid. naive_solver.
    - rewrite lookup_insert_ne by done. naive_solver. }
  split.
  - intros r i. rewrite Hiff, lookup_insert, <- H1. case_decide; naive_solver.
  - intros sq i. rewrite Hiff, H2. naive_solver.
  - case_decide; [done|]. rewrite NoDup_app. split_and!; [done| |apply NoDup_singleton].
    set_solver.
  - intros r. transitivity (r = root (e_scope e) ∨ r ∈ rs).
    { case_decide; set_solver. }
    rewrite H4. split.
    + intros [->|(i & x & Hi & Hx)]; [exists id, e; by rewrite lookup_insert_eq|].
      exists i, x. rewrite lookup_insert_ne by congruence. done.
    + intros (i & x & Hi & Hx). map_cases; naive_solver.
Qed.

Lemma root_in_use_iff r m' :
  root_in_use r m' = true ↔ ∃ i x, m' !! i = Some x ∧ root (e_scope x) = r.
Proof.
  unfold root_in_use. set (f := λ e, bool_decide (root (e_scope e) = r)). split.
  - intros Hlt%N.ltb_lt.
    destruct (decide (map_Exists (λ _ x, f x = true) m')) as [(i & x & Hi & Hx)|Hno].
    + exists i, x. split; [done|]. by apply bool_decide_eq_true in Hx.
    + rewrite (count_if_zero f m') in Hlt; [lia|].
      intros i v Hi. destruct (f v) eqn:E; [|done]. exfalso. apply Hno. by exists i, v.
  - intros (i & x & Hi & Hx). apply N.ltb_lt.
    pose proof (count_if_pos f m' i x Hi (bool_decide_eq_true_2 _ Hx)). lia.
Qed.

Lemma idx_delete id e :
  m !! id = Some e →
  idx_ok (delete id m) (delete (e_run e) br) (q ∖ {[(e_seq e, id)]})
    (if root_in_use (root (e_scope e)) (delete id m) then rs
     else filter (.≠ root (e_scope e)) rs).
Proof.
  intros Hid. destruct Hok as [H1 H2 H3 H4].
  assert (∀ (P : Entry → Prop) i, (∃ x, delete id m !! i = Some x ∧ P x) ↔
    i ≠ id ∧ (∃ x, m !! i = Some x ∧ P x)) as Hiff.
  { intros P i. setoid_rewrite lookup_delete_Some. naive_solver. }
  split.
  - intros r i. rewrite Hiff, <- H1, lookup_delete_Some.
    pose proof (proj2 (H1 (e_run e) id) (ex_intro _ e (conj Hid eq_refl))) as Hr.
    split; [|naive_solver].
    intros [Hne Hi]. split; [|done]. intros ->.
    apply H1 in Hi as (x & Hx & Hxr). naive_solver.
  - intros sq i. rewrite Hiff, elem_of_difference, elem_of_singleton, H2.
    split; [|naive_solver]. intros [(x & Hx & Hp & Hsq) Hne]. split; [|eauto].
    intros ->. naive_solver.
  - case_match; [done|]. by apply NoDup_filter.
  - intros r. destruct (root_in_use (root (e_scope e)) (delete id m)) eqn:Hu.
    + rewrite H4. split; [|intros (i & x & Hi & Hx); map_cases; eauto].
      intros (i & x & Hi & Hx). destruct (decide (i = id)) as [->|Hne].
      * simplify_eq. by apply root_in_use_iff in Hu.
      * exists i, x. by rewrite lookup_delete_ne.
    + rewrite list_elem_of_filter, H4. split.
      * intros [Hne (i & x & Hi & Hx)]. exists i, x. rewrite lookup_delete_ne; [done|].
        intros ->. congruence.
      * intros (i & x & Hi & Hx). split; [|map_cases; eauto].
        intros ->. assert (root_in_use (root (e_scope e)) (delete id m) = true)
          by (apply root_in_use_iff; eauto). congruence.
Qed.
End indices.

(** ** Freshness *)

Section freshness.
Context (m : gmap TicketId Entry) (ni ns : N).
Hypothesis Hok : fresh_ok m ni ns.

Lemma fresh_mono ns' : ns ≤ ns' → ns' ≤ u64_max → fresh_ok m ni ns'.
Proof.
  intros Hle Hmax. destruct Hok as [H1 H2 H3 H4]. split; [done| |done|lia].
  intros id e Hid. specialize (H2 id e Hid). lia.
Qed.

Lemma fresh_update id e e' :
  m !! id = Some e → same_ticket e e' → e_ready_seq e' < ns → e_parked_seq e' < ns →
  fresh_ok (<[id:=e']> m) ni ns.
Proof.
  intros Hid (_ & _ & Hseq) Hr Hp. destruct Hok as [H1 H2 H3 H4]. split; [| | |done].
  - rewrite map_size_insert_Some by eauto. done.
  - intros i x Hi. map_cases; [|eauto]. rewrite Hseq. naive_solver.
  - intros i j x y Hi Hj Hs. map_cases; rewrite ?Hseq in *; eauto.
Qed.

Lemma fresh_insert e :
  ni + 1 ≤ u64_max → ns + 1 ≤ u64_max →
  e_seq e = ns → e_ready_seq e ≤ ns → e_parked_seq e ≤ ns →
  m !! ni = None ∧ fresh_ok (<[ni:=e]> m) (ni + 1) (ns + 1).
Proof.
  intros Hni Hns Hseq Hr Hp. destruct Hok as [H1 H2 H3 H4].
  assert (m !! ni = None) as Hnone.
  { destruct (m !! ni) eqn:E; [|done]. apply H2 in E. lia. }
  split; [done|]. split; [| | |lia].
  - rewrite map_size_insert_None by done. lia.
  - intros i x Hi. map_cases; [lia|]. pose proof (H2 _ _ ltac:(eassumption)). lia.
  - intros i j x y Hi Hj Hs. map_cases; [done| | |eauto];
      pose proof (H2 _ _ ltac:(eassumption)); lia.
Qed.

Lemma fresh_delete id : fresh_ok (delete id m) ni ns.
Proof.
  destruct Hok as [H1 H2 H3 H4]. split; [| | |done].
  - pose proof (map_size_delete id m) as Hsz. rewrite Hsz. destruct (m !! id); simpl; lia.
  - intros i x Hi. map_cases. eauto.
  - intros i j x y Hi Hj Hs. map_cases. eauto.
Qed.
End freshness.

(** ** Channels *)

Definition waiter_log (w : option N) (ev : ChanEvent) : list (N * ChanEvent) :=
  match w with Some c => [(c, ev)] | None => [] end.

Lemma has_state_true st e : has_state st e = true ↔ e_state e = st.
Proof. unfold has_state. apply bool_decide_eq_true. Qed.
Lemma has_state_false st e : has_state st e = false ↔ e_state e ≠ st.
Proof. unfold has_state. apply bool_decide_eq_false. Qed.

Section channels.
Context (m : gmap TicketId Entry) (ni ns : N) (log : list (N * ChanEvent)).
Hypothesis Hok : chan_ok m ns log.
Hypothesis Hfresh : fresh_ok m ni ns.

Lemma chan_mono ns' : ns ≤ ns' → chan_ok m ns' log.
Proof.
  intros Hle. destruct Hok as [H1 H2 H3 H4 H5]. split; [done..|].
  intros c Hc. specialize (H5 c Hc). lia.
Qed.

Lemma chan_waiter_idle id e : m !! id = Some e → e_state e ≠ Pending → e_waiter e = None.
Proof.
  intros Hid Hst. rewrite (chan_waiter _ _ _ Hok id e Hid).
  apply has_state_false in Hst. by rewrite Hst.
Qed.

Lemma chan_waiter_pending id e :
  m !! id = Some e → e_state e = Pending → e_waiter e = Some (e_ready_seq e).
Proof.
  intros Hid Hst. rewrite (chan_waiter _ _ _ Hok id e Hid).
  apply has_state_true in Hst. by rewrite Hst.
Qed.

(** Replacing or adding a ticket that waits on nothing. *)
Lemma chan_set_idle id e' :
  e_state e' ≠ Pending → e_waiter e' = None → chan_ok (<[id:=e']> m) ns log.
Proof.
  intros Hst Hw. destruct Hok as [H1 H2 H3 H4 H5]. split; [| | |done|done].
  - intros i x Hi. map_cases; [|eauto].
    apply has_state_false in Hst. by rewrite Hst.
  - intros i x Hi Hx. map_cases; naive_solver.
  - intros i j x y Hi Hj Hx Hy. map_cases; naive_solver.
Qed.

Lemma chan_delete id : chan_ok (delete id m) ns log.
Proof.
  destruct Hok as [H1 H2 H3 H4 H5]. split; [| | |done|done];
    intros; map_cases; eauto.
Qed.

(** A ticket starts waiting on the fresh channel [ns]. *)
Lemma chan_wait id e' :
  e_state e' = Pending → e_ready_seq e' = ns → e_waiter e' = Some ns →
  chan_ok (<[id:=e']> m) (ns + 1) log.
Proof.
  intros Hst Hr Hw. destruct Hok as [H1 H2 H3 H4 H5], Hfresh as [_ F2 _ _]. split; [| | |done|].
  - intros i x Hi. map_cases; [|eauto].
    apply has_state_true in Hst. by rewrite Hst, Hr.
  - intros i x Hi Hx. map_cases; [|eauto]. rewrite Hr. intros Hin%H5. lia.
  - intros i j x y Hi Hj Hx Hy Heq. map_cases; [done| | |eauto];
      pose proof (F2 _ _ ltac:(eassumption)); lia.
  - intros c Hc%H5. lia.
Qed.

(** A pending ticket whose channel delivers leaves the pending state. *)
Lemma chan_wake id e e' ev :
  m !! id = Some e → e_state e = Pending → e_state e' ≠ Pending → e_waiter e' = None →
  chan_ok (<[id:=e']> m) ns (log ++ waiter_log (e_waiter e) ev).
Proof.
  intros Hid Hp Hst Hw. pose proof (chan_set_idle id e' Hst Hw) as Hidle.
  rewrite (chan_waiter_pending id e Hid Hp). simpl.
  destruct Hok as [H1 H2 H3 H4 H5], Hidle as [I1 I2 I3 _ _].
  split; [done| |done|..]; rewrite fmap_app; simpl.
  - intros i x Hi Hx. rewrite elem_of_app, list_elem_of_singleton.
    intros [Hin|Heq]; [by eapply I2|]. map_cases; [done|].
    match goal with Hne : _ ≠ i |- _ => apply Hne end. eapply H3; eauto.
  - apply NoDup_app. split_and!; [done| |apply NoDup_singleton].
    intros c Hc ->%list_elem_of_singleton. by eapply H2.
  - intros c. rewrite elem_of_app, list_elem_of_singleton. intros [Hc| ->]; [by apply H5|].
    pose proof (fresh_ids _ _ _ Hfresh _ _ Hid). lia.
Qed.

(** Removing a ticket drops or answers its channel. *)
Lemma chan_remove id e ev :
  m !! id = Some e → chan_ok (delete id m) ns (log ++ waiter_log (e_waiter e) ev).
Proof.
  intros Hid. destruct (decide (e_state e = Pending)) as [Hp|Hp].
  - pose proof (chan_wake id e (set_e_state Reserved (entry_with e Reserved 0 0 0 0 false None))
                  ev Hid Hp ltac:(done) eq_refl) as Hw.
    destruct Hw as [W1 W2 W3 W4 W5]. split; [| | |done|done].
    + intros i x Hi. map_cases. apply (W1 i x). by rewrite lookup_insert_ne.
    + intros i x Hi. map_cases. apply (W2 i x). by rewrite lookup_insert_ne.
    + intros i j x y Hi Hj. map_cases.
      apply (W3 i j x y); by rewrite lookup_insert_ne.
  - rewrite (chan_waiter_idle id e Hid Hp), app_nil_r. apply chan_delete.
Qed.

(** An answer on a channel no ticket ever waited on. *)
Lemma chan_answer ev : chan_ok m (ns + 1) (log ++ [(ns, ev)]).
Proof.
  destruct Hok as [H1 H2 H3 H4 H5].
  split; [done| |done|..]; rewrite fmap_app; simpl.
  - intros i x Hi Hx. rewrite elem_of_app, list_elem_of_singleton. intros [Hin|Heq].
    + by eapply H2.
    + pose proof (fresh_ids _ _ _ Hfresh _ _ Hi). lia.
  - apply NoDup_app. split_and!; [done| |apply NoDup_singleton].
    intros c Hc%H5 ->%list_elem_of_singleton. lia.
  - intros c. rewrite elem_of_app, list_elem_of_singleton. intros [Hc%H5| ->]; lia.
Qed.
End channels.

(** ** Lanes *)

(** The slots of the lane of [r]: queued, pending, fitting, rooted at [r]. *)
Definition lane_slot (s : State) (r : CheckoutKey) (slot : N * TicketId) : bool :=
  match entries s !! slot.2 with
  | Some e => has_state Pending e && fits s e && bool_decide (root (e_scope e) = r)
  | None => false
  end.

Definition nonempty {A} (l : list A) : option (list A) :=
  match l with [] => None | _ => Some l end.

Lemma nonempty_Some {A} (l k : list A) : nonempty l = Some k ↔ l = k ∧ l ≠ [].
Proof. destruct l; simpl; naive_solver. Qed.
Lemma default_nonempty {A} (l : list A) : default [] (nonempty l) = l.
Proof. by destruct l. Qed.
Lemma nonempty_snoc {A} (l : list A) x : nonempty (l ++ [x]) = Some (l ++ [x]).
Proof. by destruct l. Qed.

Lemma fold_lanes s l r :
  foldl (add_to_lane s) ∅ l !! r = nonempty (filter (λ slot, lane_slot s r slot = true) l).
Proof.
  revert r. induction l as [|slot l IH] using rev_ind; intros r; [done|].
  rewrite foldl_snoc, filter_app, filter_cons, filter_nil. unfold add_to_lane.
  set (lanes := foldl _ _ _) in *.
  assert (lane_slot s r slot = match entries s !! slot.2 with
    | Some e => has_state Pending e && fits s e && bool_decide (root (e_scope e) = r)
    | None => false end) as -> by done.
  destruct (entries s !! slot.2) as [e|]; simpl; [|by rewrite app_nil_r].
  destruct (has_state Pending e && fits s e); simpl; [|by rewrite app_nil_r].
  rewrite lookup_insert. destruct (decide (root (e_scope e) = r)) as [<-|Hne].
  - rewrite bool_decide_true by done. simpl.
    by rewrite IH, default_nonempty, nonempty_snoc.
  - rewrite bool_decide_false by done. simpl. by rewrite app_nil_r.
Qed.

Lemma build_lanes_lookup s r :
  build_lanes s !! r
  = nonempty (filter (λ slot, lane_slot s r slot = true) (btree_elements (queue s))).
Proof. apply fold_lanes. Qed.

Lemma lane_slot_true s r slot :
  lane_slot s r slot = true ↔
  ∃ e, entries s !! slot.2 = Some e ∧ e_state e = Pending ∧ fits s e = true ∧ root (e_scope e) = r.
Proof.
  unfold lane_slot. destruct (entries s !! slot.2) as [e|]; [|naive_solver].
  rewrite !andb_true_iff, has_state_true, bool_decide_eq_true. naive_solver.
Qed.

(** A slot that may be admitted: what every lane holds. *)
Definition admissible (s : State) (slot : N * TicketId) (e : Entry) : Prop :=
  entries s !! slot.2 = Some e ∧ e_state e = Pending ∧ e_seq e = slot.1 ∧ fits s e = true.

Lemma lane_admissible s r lane slot :
  Inv s → build_lanes s !! r = Some lane → slot ∈ lane →
  ∃ e, admissible s slot e ∧ root (e_scope e) = r.
Proof.
  intros HI Hl Hin. rewrite build_lanes_lookup in Hl. apply nonempty_Some in Hl as [<- _].
  apply list_elem_of_filter in Hin as [Hs Hq].
  apply lane_slot_true in Hs as (e & He & Hst & Hf & Hr).
  rewrite elem_of_btree_elements in Hq. destruct slot as [sq id]; simpl in *.
  apply (idx_queue _ _ _ _ (inv_idx s HI)) in Hq as (e' & He' & _ & Hsq).
  simplify_eq. by exists e.
Qed.

Lemma admissible_lane s slot e :
  Inv s → admissible s slot e →
  ∃ lane, build_lanes s !! root (e_scope e) = Some lane ∧ slot ∈ lane.
Proof.
  intros HI (He & Hst & Hsq & Hf). rewrite build_lanes_lookup.
  set (l := filter _ _). assert (slot ∈ l) as Hin.
  { apply list_elem_of_filter. split.
    - apply lane_slot_true. eauto.
    - rewrite elem_of_btree_elements. destruct slot as [sq id]; simpl in *.
      apply (idx_queue _ _ _ _ (inv_idx s HI)). eauto. }
  exists l. split; [|done]. apply nonempty_Some. split; [done|]. intros Hl.
  rewrite Hl in Hin. by apply elem_of_nil in Hin.
Qed.

(** ** The rotation *)

Lemma rotate_to_lane_spec n lanes rs credit chosen rs' credit' :
  rotate_to_lane n lanes rs credit = (chosen, rs', credit') →
  rs' ≡ₚ rs ∧ (∀ r, chosen = Some r → is_Some (lanes !! r) ∧ head rs' = Some r).
Proof.
  revert rs credit. induction n as [|n IH]; intros [|r rs] credit; simpl;
    try (intros [= <- <- <-]; split; [done|naive_solver]).
  case_decide as Hd; [intros [= <- <- <-]; naive_solver|].
  intros [Hp Hc]%IH. split; [|done]. rewrite Hp. symmetry. apply Permutation_cons_append.
Qed.

Lemma rotate_to_lane_None lanes l k credit rs' credit' :
  rotate_to_lane (length l) lanes (l ++ k) credit = (None, rs', credit') →
  ∀ r, r ∈ l → lanes !! r = None.
Proof.
  revert k credit. induction l as [|x l IH]; intros k credit; simpl.
  - intros _ r Hr%elem_of_nil. done.
  - case_decide as Hd; [done|]. rewrite <- app_assoc. intros Hrec r [->|Hr]%elem_of_cons.
    + by apply eq_None_not_Some.
    + eauto.
Qed.

(** ** Parts of the state the invariant ignores *)

Lemma inv_rotation s l rs c : Inv s → rs ≡ₚ roots s → Inv (upd_rotation l rs c s).
Proof. intros [? ? ? ?] Hp. split; simpl; [done| |done|done]. by eapply idx_roots_perm. Qed.

Lemma inv_bursts s b p : Inv s → Inv (upd_bursts b p s).
Proof. by intros []. Qed.

Lemma inv_settings s cfg : Inv s → Inv (upd_settings cfg s).
Proof. by intros []. Qed.

Lemma inv_spend_turn s r : Inv s → Inv (spend_turn r s).
Proof.
  intros HI. apply inv_rotation; [done|]. case_match; [|done]. apply rotate_left_perm.
Qed.

#[export] Hint Resolve inv_bursts inv_settings inv_spend_turn : sched.

Lemma size_bound s : Inv s → N.of_nat (size (entries s)) ≤ u64_max.
Proof. intros HI. destruct (inv_fresh s HI) as [? _ _ [? ?]]. lia. Qed.

(** ** Admission *)

Lemma holds_idle g e : e_state e ≠ Active → holds g e = false.
Proof. intros H%has_state_false. unfold holds. by rewrite H. Qed.
Lemma holds_active g e : e_state e = Active → holds g e = g (e_scope e).
Proof. intros H%has_state_true. unfold holds. by rewrite H. Qed.

Lemma inv_admit s sq id e : Inv s → admissible s (sq, id) e → Inv (admit_slot sq id e s).
Proof.
  intros HI (Hid & Hst & Hsq & _); simpl in *. pose proof (size_bound s HI) as Hsz.
  destruct HI as [Hacc Hidx Hfr Hch].
  set (e' := entry_with e Active (e_ready_seq e) (e_parked_seq e) (e_park_count e)
               (e_evict_count e) (e_cancel_requested e) None).
  split; simpl; fold e'.
  - eapply acc_charge; [| |done].
    + rewrite map_size_insert_Some by eauto. done.
    + intros g. pose proof (cnt_update _ _ _ Hid g e' ltac:(done)) as H.
      rewrite holds_idle, (holds_active g e') in H by (congruence || done). simpl in H. lia.
  - rewrite <- Hsq. by eapply idx_dequeue.
  - pose proof (fresh_ids _ _ _ Hfr _ _ Hid). eapply fresh_update; eauto; simpl; lia || done.
  - by eapply (chan_wake _ _ _ _ Hch Hfr).
Qed.

(** ** One round of the pump *)

(** The parts of the state that decide who may be admitted. *)
Record same_core (s s' : State) : Prop := {
  sc_settings : settings s' = settings s;
  sc_next : next_id s' = next_id s ∧ next_seq s' = next_seq s;
  sc_entries : entries s' = entries s;
  sc_index : by_run s' = by_run s ∧ queue s' = queue s;
  sc_active : active_total s' = active_total s
              ∧ active_by_project s' = active_by_project s
              ∧ active_by_root s' = active_by_root s;
  sc_roots : roots s' ≡ₚ roots s;
  sc_log : chan_log s' = chan_log s;
}.

Lemma same_core_rotation s l rs c : rs ≡ₚ roots s → same_core s (upd_rotation l rs c s).
Proof. by split. Qed.
Lemma same_core_bursts s s' b p : same_core s s' → same_core s (upd_bursts b p s').
Proof. by intros []. Qed.
Lemma same_core_spend s s' r : same_core s s' → same_core s (spend_turn r s').
Proof.
  intros [? ? ? ? ? Hr ?]. split; try done. simpl. rewrite <- Hr.
  case_match; [apply rotate_left_perm|done].
Qed.
#[export] Hint Resolve same_core_rotation same_core_bursts same_core_spend : sched.

Lemma same_core_fits s s' e : same_core s s' → fits s' e = fits s e.
Proof.
  intros [Hs _ _ _ (Ht & Hp & Hr) _ _]. unfold fits. by rewrite Hs, Ht, Hp, Hr.
Qed.

Lemma same_core_admissible s s' slot e :
  same_core s s' → admissible s' slot e ↔ admissible s slot e.
Proof.
  intros Hc. unfold admissible. rewrite (same_core_fits s s' e Hc).
  by rewrite (sc_entries s s' Hc).
Qed.

Lemma same_core_inv s s' : same_core s s' → Inv s → Inv s'.
Proof.
  intros [_ [Hi Hn] He [Hb Hq] (Ht & Hp & Hr) Hroots Hl] [? ? ? ?].
  split; rewrite ?Hi, ?Hn, ?He, ?Hb, ?Hq, ?Ht, ?Hp, ?Hr, ?Hl; try done.
  by eapply idx_roots_perm.
Qed.

Lemma elem_of_all_slots (lanes : gmap CheckoutKey (list (N * TicketId))) r slot :
  (r, slot) ∈ (btree_list lanes ≫= λ '(r, lane), pair r <$> lane) ↔
  ∃ lane, lanes !! r = Some lane ∧ slot ∈ lane.
Proof.
  rewrite list_elem_of_bind. split.
  - intros ([r' lane] & Hin & Hl). apply elem_of_btree_list in Hl.
    apply list_elem_of_fmap in Hin as (x & [= -> ->] & Hx). eauto.
  - intros (lane & Hl & Hs). exists (r, lane). split; [|by apply elem_of_btree_list].
    apply list_elem_of_fmap. eauto.
Qed.

Lemma preemption_Some s ft lanes natural r slot :
  preemption s ft lanes natural = Some (r, slot) →
  ft = false ∧ priority_burst s < max_priority_burst (settings s)
  ∧ (∃ lane, lanes !! r = Some lane ∧ slot ∈ lane)
  ∧ rlt (slot_priority s slot) (slot_priority s natural)
  ∧ ∀ r' lane' slot', lanes !! r' = Some lane' → slot' ∈ lane' →
      rle (slot_priority s slot, slot.1) (slot_priority s slot', slot'.1).
Proof.
  unfold preemption. destruct ft; simpl; [done|].
  destruct (N.leb_spec (max_priority_burst (settings s)) (priority_burst s)); [done|].
  intros ([r1 slot1] & Hmin & Hdec)%bind_Some. simpl in Hdec.
  case_decide as Hlt; [|done]. injection Hdec as -> ->.
  apply min_by_key_Some in Hmin as [Hin Hmin].
  split_and!; try done.
  - by apply elem_of_all_slots.
  - intros r' lane' slot' Hl Hs. apply (Hmin (r', slot')). apply elem_of_all_slots. eauto.
Qed.

Lemma natural_slot_elem s ft lane slot : natural_slot s ft lane = Some slot → slot ∈ lane.
Proof.
  unfold natural_slot. destruct ft; [|destruct lane; simpl; naive_solver set_solver].
  intros [? _]%min_by_key_Some. done.
Qed.

Lemma natural_slot_exists s ft lane : lane ≠ [] → is_Some (natural_slot s ft lane).
Proof.
  intros Hne. unfold natural_slot. destruct ft; [|by destruct lane].
  apply not_eq_None_Some. by rewrite min_by_key_None.
Qed.

Lemma build_lanes_nonempty s r lane : build_lanes s !! r = Some lane → lane ≠ [].
Proof. rewrite build_lanes_lookup. by intros [<- ?]%nonempty_Some. Qed.

(** What one round does: it stops only when nothing is admissible, and
    otherwise admits one admissible ticket. *)
Lemma pump_step_spec s :
  Inv s →
  match pump_step s with
  | PumpPanic => False
  | PumpBreak s' => same_core s s' ∧ ∀ slot e, ¬ admissible s slot e
  | PumpContinue s' =>
      ∃ sq id e s1, admissible s (sq, id) e ∧ same_core s s1 ∧ s' = admit_slot sq id e s1
  end.
Proof.
  intros HI. unfold pump_step.
  destruct (rotate_to_lane _ _ _ _) as [[chosen rs] credit] eqn:Hrot.
  pose proof (rotate_to_lane_spec _ _ _ _ _ _ _ Hrot) as [Hperm Hch].
  set (s0 := upd_rotation (last_root s) rs credit s).
  assert (same_core s s0) as Hc0 by (by apply same_core_rotation).
  destruct chosen as [tr|].
  - destruct (Hch tr eq_refl) as [[lane Hlane] _]. rewrite Hlane. simpl.
    set (ft := _ <=? _).
    destruct (natural_slot_exists s0 ft lane (build_lanes_nonempty _ _ _ Hlane)) as [nat Hnat].
    rewrite Hnat.
    assert (∃ lane', build_lanes s !! (default (tr, nat) (preemption s0 ft (build_lanes s) nat)).1
      = Some lane' ∧ (default (tr, nat) (preemption s0 ft (build_lanes s) nat)).2 ∈ lane')
      as (lane' & Hl' & Hin').
    { destruct (preemption _ _ _ _) as [[r slot]|] eqn:Hpre; simpl.
      - by apply preemption_Some in Hpre as (_ & _ & ? & _).
      - eauto using natural_slot_elem. }
    destruct (default (tr, nat) _) as [r [sq id]]; simpl in *.
    destruct (lane_admissible s r lane' (sq, id) HI Hl' Hin') as (e & He & _).
    assert (entries s !! id = Some e) as Hid by apply He. rewrite Hid.
    eexists sq, id, e, _. split_and!; [done| |done].
    case_match; auto with sched.
  - split; [done|]. intros slot e Hadm.
    destruct (admissible_lane s slot e HI Hadm) as (lane & Hl & _).
    rewrite <- (app_nil_r (roots s)) in Hrot at 2.
    erewrite (rotate_to_lane_None _ _ _ _ _ _ Hrot) in Hl; [done|].
    apply (idx_roots _ _ _ _ (inv_idx s HI)). destruct Hadm as [? _]. eauto.
Qed.

(** ** The pump *)

(** A run of the pump: admissions, each of an admissible ticket, interleaved
    with changes of the rotation and of the burst counters. *)
Inductive pumped : State → State → Prop :=
  | pumped_done s s' : same_core s s' → pumped s s'
  | pumped_grant s sq id e s1 s2 :
      admissible s (sq, id) e → same_core s s1 →
      pumped (admit_slot sq id e s1) s2 → pumped s s2.

Lemma pump_loop_spec fuel s :
  (size (queue s) < fuel)%nat → Inv s →
  ∃ s', pump_loop fuel s = Some s' ∧ pumped s s' ∧ Inv s'
        ∧ ∀ slot e, ¬ admissible s' slot e.
Proof.
  revert s. induction fuel as [|fuel IH]; intros s Hf HI; [lia|]. cbn [pump_loop].
  destruct (N.ltb_spec (active_total s) (max_active_engine (settings s))) as [Hlt|Hge].
  - pose proof (pump_step_spec s HI) as Hstep. destruct (pump_step s) as [s'|s'|]; [..|done].
    + destruct Hstep as [Hc Hno]. exists s'. split_and!; [done|by constructor| |].
      * by eapply same_core_inv.
      * intros slot e. by rewrite (same_core_admissible s s').
    + destruct Hstep as (sq & id & e & s1 & Hadm & Hc & ->).
      pose proof (same_core_inv _ _ Hc HI) as HI1.
      apply (same_core_admissible _ _ _ _ Hc) in Hadm as Hadm1.
      destruct (IH (admit_slot sq id e s1)) as (s' & Hp & Hrun & HI' & Hno).
      * simpl. destruct (sc_index _ _ Hc) as [_ Hq]. rewrite Hq.
        assert ((sq, id) ∈ queue s) as Hin.
        { apply (idx_queue _ _ _ _ (inv_idx s HI)). destruct Hadm as (? & ? & ? & _). eauto. }
        assert (size (queue s ∖ {[(sq, id)]}) < size (queue s))%nat; [|lia].
        apply subset_size. set_solver.
      * by apply inv_admit.
      * exists s'. split_and!; [done| |done|done]. by eapply pumped_grant.
  - exists s. split_and!; [done|by repeat constructor|done|].
    intros slot e (_ & _ & _ & Hfit). unfold fits in Hfit.
    destruct (N.leb_spec (max_active_engine (settings s)) (active_total s)); [done|lia].
Qed.

Lemma pump_spec s :
  Inv s →
  ∃ s', pump s = Some s' ∧ pumped s s' ∧ Inv s' ∧ ∀ slot e, ¬ admissible s' slot e.
Proof. apply pump_loop_spec. lia. Qed.

(** ** Eviction *)

(** Neither waiting nor holding a permit. *)
Definition resting (e : Entry) : Prop := e_state e ≠ Pending ∧ e_state e ≠ Active.

Lemma inv_set_resting s id e e' :
  Inv s → entries s !! id = Some e → resting e → resting e' → same_ticket e e' →
  e_ready_seq e' < next_seq s → e_parked_seq e' < next_seq s → e_waiter e' = None →
  Inv (upd_entries (<[id:=e']> (entries s)) s).
Proof.
  intros [Hacc Hidx Hfr Hch] Hid [Hp Ha] [Hp' Ha'] Hsame Hr Hk Hw. split; simpl.
  - eapply acc_ok_ext; [|done]. intros g.
    pose proof (cnt_update _ _ _ Hid g e' Hsame) as H.
    rewrite !holds_idle in H by done. simpl in H. lia.
  - eapply idx_keep; eauto. tauto.
  - by eapply fresh_update.
  - by apply chan_set_idle.
Qed.

Definition evicted_of (l : list (N * TicketId)) (m : gmap TicketId Entry) : gmap TicketId Entry :=
  foldl (λ m p, alter evict_entry p.2 m) m l.

Lemma inv_evicted l s :
  Inv s → Forall (λ p, ∃ e, entries s !! p.2 = Some e ∧ resting e) l →
  Inv (upd_entries (evicted_of l (entries s)) s).
Proof.
  revert s. induction l as [|[k id] l IH]; intros s HI Hl.
  - by destruct HI.
  - apply Forall_cons in Hl as [(e & Hid & Hrest) Hl]. simpl in Hid.
    assert (alter evict_entry id (entries s) = <[id := evict_entry e]> (entries s)) as Halt.
    { apply map_eq. intros i. rewrite lookup_alter, lookup_insert.
      case_decide as Hd; [subst; by rewrite Hid|done]. }
    pose proof (fresh_ids _ _ _ (inv_fresh s HI) _ _ Hid) as Hf.
    assert (Inv (upd_entries (<[id := evict_entry e]> (entries s)) s)) as HI1.
    { eapply inv_set_resting; eauto; try (simpl; lia); try done.
      simpl. by eapply chan_waiter_idle; [apply HI|..|apply Hrest]. }
    specialize (IH _ HI1). simpl in IH. change (evicted_of ((k, id) :: l) (entries s))
      with (evicted_of l (alter evict_entry id (entries s))). rewrite Halt. apply IH.
    eapply Forall_impl; [done|]. intros [k' j] (x & Hx & Hrx). simpl in *.
    rewrite lookup_insert. case_decide; [|by eauto].
    exists (evict_entry e). split; [done|]. done.
Qed.

Lemma elem_of_parked_list m k id :
  (k, id) ∈ parked_list m ↔ ∃ e, m !! id = Some e ∧ e_state e = Parked ∧ e_parked_seq e = k.
Proof.
  unfold parked_list. rewrite elem_of_keyed_list. by setoid_rewrite has_state_true.
Qed.

Lemma inv_evict s : Inv s → Inv (evict_parked_over_residency s).
Proof.
  intros HI. unfold evict_parked_over_residency. case_match; [done|].
  apply inv_evicted; [done|]. apply Forall_take, Forall_forall. intros [k id] Hin.
  rewrite elem_of_sort_by_key, elem_of_parked_list in Hin.
  destruct Hin as (e & He & Hst & _). exists e. split; [done|].
  unfold resting. rewrite Hst. done.
Qed.

(** ** Removal *)

Lemma inv_remove s id e ev :
  Inv s → entries s !! id = Some e →
  (remove id s).1 = Some e ∧ Inv (log_chan (e_waiter e) ev (remove id s).2).
Proof.
  intros HI Hid. pose proof (size_bound s HI) as Hsz.
  unfold remove. rewrite Hid. split; [done|]. simpl.
  destruct HI as [Hacc Hidx Hfr Hch].
  assert (N.of_nat (size (delete id (entries s))) ≤ u64_max) as Hsz'.
  { rewrite map_size_delete, Hid. simpl. lia. }
  pose proof (idx_delete _ _ _ _ Hidx id e Hid) as Hidx'.
  pose proof (fresh_delete _ _ _ Hfr id) as Hfr'.
  pose proof (chan_remove _ _ _ _ Hch Hfr id e ev Hid) as Hch'.
  destruct (has_state Active e) eqn:Ha.
  - apply has_state_true in Ha.
    assert (acc_ok (delete id (entries s)) (active_total s - 1)
      (decrement (project (e_scope e)) (active_by_project s))
      (decrement (root (e_scope e)) (active_by_root s))) as Hacc'.
    { apply (acc_discharge (entries s)); [done| |done]. intros g.
      rewrite (cnt_delete _ _ _ Hid g), holds_active by done. done. }
    simpl. destruct (root_in_use _ _) eqn:Hu; rewrite ?Hu in Hidx'; by split.
  - apply has_state_false in Ha.
    assert (acc_ok (delete id (entries s)) (active_total s) (active_by_project s)
      (active_by_root s)) as Hacc'.
    { eapply acc_ok_ext; [|done]. intros g.
      rewrite (cnt_delete _ _ _ Hid g), holds_idle by done. simpl. lia. }
    simpl. destruct (root_in_use _ _) eqn:Hu; rewrite ?Hu in Hidx'; by split.
Qed.

(** ** Operations *)

(** The fields that neither eviction nor the pump touches. *)
Record same_frame (s s' : State) : Prop := {
  sf_settings : settings s' = settings s;
  sf_ids : next_id s' = next_id s;
  sf_seqs : next_seq s' = next_seq s;
}.

#[global] Instance same_frame_preorder : PreOrder same_frame.
Proof. split; [done|]. intros s t u [? ? ?] [? ? ?]. split; congruence. Qed.

Lemma same_core_frame s s' : same_core s s' → same_frame s s'.
Proof. intros [? [? ?] _ _ _ _ _]. by split. Qed.

Lemma pumped_frame s s' : pumped s s' → same_frame s s'.
Proof.
  induction 1 as [s s' Hc|s sq id e s1 s2 _ Hc _ IH]; [by apply same_core_frame|].
  etransitivity; [by apply same_core_frame|]. etransitivity; [|done]. done.
Qed.

Lemma evict_frame s : same_frame s (evict_parked_over_residency s).
Proof. unfold evict_parked_over_residency. by case_match. Qed.

(** Running the pump from an invariant state. *)
Lemma pump_keeps s : Inv s → ∃ s', pump s = Some s' ∧ Inv s' ∧ same_frame s s'.
Proof.
  intros HI. destruct (pump_spec s HI) as (s' & Hp & Hrun & HI' & _).
  exists s'. eauto using pumped_frame.
Qed.

Lemma inv_bump s : Inv s → next_seq s < u64_max → Inv (bump_seq s) ∧ next_seq s +w 1 = next_seq s + 1.
Proof.
  intros [Hacc Hidx Hfr Hch] Hlt. assert (next_seq s +w 1 = next_seq s + 1) as Hs
    by (apply wadd64_small; lia).
  split; [|done]. split; simpl; rewrite ?Hs; [done|done| |].
  - eapply fresh_mono; [done|lia..].
  - eapply chan_mono; [done|lia].
Qed.

(** An operation that cannot panic, keeps the invariant and uses at most one
    identifier and one sequence number. *)
Definition op_ok {A} (f : State → option (State * A)) (s : State) : Prop :=
  ∃ s' r, f s = Some (s', r) ∧ Inv s'
    ∧ next_id s' ≤ next_id s + 1 ∧ next_seq s' ≤ next_seq s + 1.

Lemma frame_step s s0 s' : same_frame s0 s' → next_id s0 ≤ next_id s + 1 →
  next_seq s0 ≤ next_seq s + 1 → next_id s' ≤ next_id s + 1 ∧ next_seq s' ≤ next_seq s + 1.
Proof. intros [_ -> ->]. done. Qed.

(** The state in which [begin_wait] runs the pump. *)
Definition enqueued (id : TicketId) (e : Entry) (s : State) : State :=
  upd_index (by_run s) ({[(e_seq e, id)]} ∪ queue s)
    (upd_entries (<[id := entry_with e Pending (next_seq s) (e_parked_seq e) (e_park_count e)
        (e_evict_count e) (e_cancel_requested e) (Some (next_seq s))]> (entries s)) (bump_seq s)).

Lemma inv_enqueued id e s :
  Inv s → next_seq s < u64_max → entries s !! id = Some e → resting e → Inv (enqueued id e s).
Proof.
  intros HI Hlt Hid [Hnp Hna]. pose proof (inv_bump s HI Hlt) as [_ Hw].
  destruct HI as [Hacc Hidx Hfr Hch]. pose proof (fresh_ids _ _ _ Hfr _ _ Hid).
  unfold enqueued. set (e' := entry_with e Pending _ _ _ _ _ _). split; simpl; rewrite ?Hw.
  - eapply acc_ok_ext; [|done]. intros g.
    pose proof (cnt_update _ _ _ Hid g e' ltac:(done)) as H'.
    rewrite !holds_idle in H' by done. simpl in H'. lia.
  - by eapply idx_enqueue.
  - eapply fresh_update; [eapply fresh_mono; [done|lia..]|done|done|simpl; lia..].
  - by eapply (chan_wait _ _ _ _ Hch Hfr).
Qed.

(** The case analysis of [begin_wait]. *)
Lemma begin_wait_cases id s :
  begin_wait id s =
  match entries s !! id with
  | None => Some (bump_seq s, Err Gone)
  | Some e =>
      match e_state e with
      | Active => Some (log_chan (Some (next_seq s)) SentOk (bump_seq s), Ok (next_seq s))
      | Pending => Some (bump_seq s, Err Gone)
      | _ => s' ← pump (enqueued id e s); Some (s', Ok (next_seq s))
      end
  end.
Proof. unfold begin_wait. simpl. by destruct (entries s !! id) as [[? ? ? ? ? ? []]|]. Qed.

Lemma begin_wait_ok id s : Inv s → next_seq s < u64_max → op_ok (begin_wait id) s.
Proof.
  intros HI Hlt. pose proof (inv_bump s HI Hlt) as [HB Hw].
  unfold op_ok. rewrite begin_wait_cases.
  destruct (entries s !! id) as [e|] eqn:Hid;
    [|eexists _, _; split_and!; [done|done|simpl; lia..]].
  assert (resting e → ∃ s' r,
    (s0 ← pump (enqueued id e s); Some (s0, Ok (E:=AdmissionError) (next_seq s))) = Some (s', r)
    ∧ Inv s' ∧ next_id s' ≤ next_id s + 1 ∧ next_seq s' ≤ next_seq s + 1) as Hwait.
  { intros Hrest. destruct (pump_keeps (enqueued id e s)) as (s' & Hp & HI' & Hf);
      [by apply inv_enqueued|].
    eexists s', _. rewrite Hp. split_and!; [done|done|..]; eapply frame_step; eauto; simpl; lia. }
  destruct (e_state e) eqn:Hst; try (apply Hwait; split; congruence);
    (eexists _, _; split_and!; [done|try done|simpl; lia..]).
  destruct HI as [Hacc Hidx Hfr Hch].
  split; simpl; rewrite ?Hw; [done|done|eapply fresh_mono; [done|lia..]|].
  by eapply (chan_answer _ _ _ _ Hch Hfr).
Qed.

Lemma abandon_keeps id s : Inv s → ∃ s', abandon id s = Some s' ∧ Inv s' ∧ same_frame s s'.
Proof.
  intros HI. unfold abandon. destruct (entries s !! id) as [e|] eqn:Hid.
  - pose proof (inv_remove s id e SenderDropped HI Hid) as [Hr HI'].
    destruct (remove id s) as [o s1] eqn:Hrem; simpl in *. subst o.
    destruct (pump_keeps _ HI') as (s' & Hp & HI'' & Hf). exists s'. split_and!; [done|done|].
    etransitivity; [|done]. unfold remove in Hrem. rewrite Hid in Hrem.
    injection Hrem as <-. by repeat case_match.
  - unfold remove. rewrite Hid. by exists s.
Qed.

(** The state in which [park] evicts and pumps. *)
Definition parked_state (id : TicketId) (e : Entry) (s : State) : State :=
  discharge (e_scope e)
    (upd_entries (<[id := entry_with e Parked (e_ready_seq e) (next_seq s)
       ((e_park_count e + 1) mod (u32_max + 1)) (e_evict_count e) false (e_waiter e)]> (entries s))
       (bump_seq s)).

Lemma inv_parked_state id e s :
  Inv s → next_seq s < u64_max → entries s !! id = Some e → e_state e = Active →
  Inv (parked_state id e s).
Proof.
  intros HI Hlt Hid Ha. pose proof (inv_bump s HI Hlt) as [_ Hw].
  pose proof (size_bound s HI) as Hsz. destruct HI as [Hacc Hidx Hfr Hch].
  pose proof (fresh_ids _ _ _ Hfr _ _ Hid). unfold parked_state.
  set (e' := entry_with e Parked _ _ _ _ _ _). split; simpl; rewrite ?Hw.
  - apply (acc_discharge (entries s)); [|intros g|done].
    + rewrite map_size_insert_Some by eauto. done.
    + pose proof (cnt_update _ _ _ Hid g e' ltac:(done)) as H'.
      rewrite holds_active, (holds_idle g e') in H' by done. simpl in H'. lia.
  - eapply idx_keep; eauto; [done|]. rewrite Ha. simpl. naive_solver.
  - eapply fresh_update; [eapply fresh_mono; [done|lia..]|done|done|simpl; lia..].
  - eapply chan_mono; [|instantiate (1 := next_seq s); lia]. apply chan_set_idle; [done|done|].
    simpl. eapply chan_waiter_idle; [done|done|congruence].
Qed.

(** The case analysis of [park]. *)
Lemma park_cases id s :
  park id s =
  match entries s !! id with
  | None => Some (bump_seq s, Err Gone)
  | Some e =>
      if negb (has_state Active e) then Some (bump_seq s, Err Gone)
      else if e_cancel_requested e then Some (bump_seq s, Err Cancelled)
      else s' ← pump (evict_parked_over_residency (parked_state id e s)); Some (s', Ok ())
  end.
Proof. done. Qed.

Lemma park_ok id s : Inv s → next_seq s < u64_max → op_ok (park id) s.
Proof.
  intros HI Hlt. pose proof (inv_bump s HI Hlt) as [HB Hw]. unfold op_ok. rewrite park_cases.
  destruct (entries s !! id) as [e|] eqn:Hid;
    [|eexists _, _; split_and!; [done|done|simpl; lia..]].
  destruct (has_state Active e) eqn:Ha; simpl;
    [|eexists _, _; split_and!; [done|done|simpl; lia..]].
  destruct (e_cancel_requested e) eqn:Hcr;
    [eexists _, _; split_and!; [done|done|simpl; lia..]|].
  apply has_state_true in Ha. pose proof (inv_parked_state id e s HI Hlt Hid Ha) as HI0.
  destruct (pump_keeps _ (inv_evict _ HI0)) as (s' & Hp & HI' & Hf).
  eexists s', _. rewrite Hp. split_and!; [done|done|..];
    (eapply frame_step; [etransitivity; [apply evict_frame|done]|simpl; lia..]).
Qed.

Lemma cancel_ok id s : Inv s → op_ok (cancel id) s.
Proof.
  intros HI. unfold op_ok, cancel.
  destruct (entries s !! id) as [e|] eqn:Hid; [|eexists _, _; split_and!; [done|done|lia..]].
  destruct (has_state Active e) eqn:Ha.
  - apply has_state_true in Ha. destruct (e_cancel_requested e);
      (eexists _, _; split_and!; [done|try done|simpl; lia..]).
    destruct HI as [Hacc Hidx Hfr Hch]. pose proof (fresh_ids _ _ _ Hfr _ _ Hid).
    split; simpl.
    + eapply acc_ok_ext; [|done]. intros g.
      pose proof (cnt_update _ _ _ Hid g (mark_cancel e) ltac:(done)) as H'.
      rewrite !holds_active in H' by done. simpl in H'. lia.
    + eapply idx_keep; eauto. done.
    + eapply fresh_update; eauto; [done|simpl; lia..].
    + apply chan_set_idle; [done|simpl; congruence|]. simpl.
      eapply chan_waiter_idle; [done|done|congruence].
  - pose proof (inv_remove s id e (SentErr Cancelled) HI Hid) as [Hr HI'].
    destruct (pump_keeps _ HI') as (s' & Hp & HI'' & Hf). rewrite Hp.
    eexists s', _. split_and!; [done|done|..]; eapply frame_step; try done;
      unfold remove; rewrite Hid; simpl; repeat case_match; simpl; lia.
Qed.

(** The state in which [configure] evicts and pumps. *)
Definition configured (cfg : CoordinationSettings) (s : State) : State :=
  upd_rotation (last_root s) (roots s)
    (N.min (root_credit s) match last_root s with
                           | Some r => root_quantum cfg (checkout_name r)
                           | None => 0
                           end) (upd_settings cfg s).

Lemma inv_configured cfg s : Inv s → Inv (configured cfg s).
Proof. intros HI. apply inv_rotation; [by apply inv_settings|done]. Qed.

Lemma configure_cases cfg s :
  configure cfg s =
  match validate cfg with
  | Err e => Some (s, Err e)
  | Ok _ => s' ← pump (evict_parked_over_residency (configured cfg s)); Some (s', Ok ())
  end.
Proof. done. Qed.

Lemma configure_ok cfg s : Inv s → op_ok (configure cfg) s.
Proof.
  intros HI. unfold op_ok. rewrite configure_cases.
  destruct (validate cfg); [|eexists _, _; split_and!; [done|done|lia..]].
  destruct (pump_keeps _ (inv_evict _ (inv_configured cfg s HI))) as (s' & Hp & HI' & Hf).
  rewrite Hp. eexists s', _. split_and!; [done|done|..];
    (eapply frame_step; [etransitivity; [apply evict_frame|done]|simpl; lia..]).
Qed.

Lemma reserve_refusal_None req s :
  reserve_refusal req s = None →
  enabled (settings s) = true ∧ req_depth req ≤ max_subchat_depth (settings s)
  ∧ by_run s !! req_run req = None
  ∧ N.of_nat (size (entries s)) < max_outstanding (settings s)
  ∧ count_if (has_state Pending) (entries s) + count_if (has_state Reserved) (entries s)
    < max_pending (settings s).
Proof.
  unfold reserve_refusal, counts. cbn zeta iota beta.
  destruct (enabled (settings s)); simpl; [|done].
  destruct (N.ltb_spec (max_subchat_depth (settings s)) (req_depth req)); [done|].
  case_decide as Hd; [done|].
  destruct (N.leb_spec (max_outstanding (settings s)) (N.of_nat (size (entries s)))); [done|].
  destruct (N.leb_spec (max_pending (settings s))
    (count_if (has_state Pending) (entries s) + count_if (has_state Reserved) (entries s))); [done|].
  intros _. split_and!; try done. by apply eq_None_not_Some.
Qed.

Lemma reserve_inv req s :
  Inv s → next_id s < u64_max → next_seq s < u64_max → Inv (reserve req s).1.
Proof.
  intros HI Hi Hq. unfold reserve.
  destruct (reserve_refusal req s) eqn:Hr; [done|].
  apply reserve_refusal_None in Hr as (_ & _ & Hrun & _ & _).
  destruct HI as [Hacc Hidx Hfr Hch]. simpl.
  set (e := reserved_entry req (next_seq s) _).
  destruct (fresh_insert _ _ _ Hfr e) as [Hnone Hfr']; [lia|lia|done|simpl; lia|simpl; lia|].
  split; simpl; rewrite ?wadd64_small by lia.
  - eapply acc_ok_ext; [|done]. intros g. by apply cnt_insert_idle.
  - by apply (idx_insert _ _ _ _ Hidx (next_id s) e).
  - done.
  - eapply chan_mono; [|instantiate (1 := next_seq s); lia]. by apply chan_set_idle.
Qed.
