(* ===== verification/SchedulerSpec.v ===== *)
(** * What the scheduler promises, and that it keeps it

    An abstract machine over tickets (a run, a scope and a lifecycle phase, no
    queue, no counters, no rotation) whose only guarded step is the grant of a
    permit, and the refinement theorem: every operation of the concrete scheduler
    is a finite sequence of abstract steps. *)

From stdpp Require Import gmap strings list sorting.
From S2P Require Import Prelude RustStr Identity Settings Scheduler SchedulerInv.
Local Open Scope N_scope.

(** ** The abstract machine *)

Record ATicket := { a_run : RunKey; a_scope : WorkScope; a_phase : TicketState }.
Abbreviation AState := (gmap TicketId ATicket).

Definition a_set (p : TicketState) (t : ATicket) : ATicket :=
  {| a_run := a_run t; a_scope := a_scope t; a_phase := p |}.
Definition a_holders (g : WorkScope → bool) (a : AState) : N :=
  count_if (λ t, bool_decide (a_phase t = Active) && g (a_scope t)) a.

(** Room for one more permit in a scope, at all three levels. *)
Definition a_room (cfg : CoordinationSettings) (sc : WorkScope) (a : AState) : Prop :=
  a_holders everywhere a < max_active_engine cfg
  ∧ a_holders (in_project (project sc)) a < max_active_project cfg
  ∧ a_holders (in_root (root sc)) a < max_active_root cfg.

Inductive astep (cfg : CoordinationSettings) : AState → AState → Prop :=
  | a_reserve a id t :
      a !! id = None → a_phase t = Reserved →
      (∀ id' t', a !! id' = Some t' → a_run t' ≠ a_run t) →
      N.of_nat (size a) < max_outstanding cfg →
      astep cfg a (<[id := t]> a)
  | a_ready a id t :
      a !! id = Some t → (a_phase t = Reserved ∨ a_phase t = Parked ∨ a_phase t = Evicted) →
      astep cfg a (<[id := a_set Pending t]> a)
  | a_grant a id t :
      a !! id = Some t → a_phase t = Pending → a_room cfg (a_scope t) a →
      astep cfg a (<[id := a_set Active t]> a)
  | a_park a id t :
      a !! id = Some t → a_phase t = Active → astep cfg a (<[id := a_set Parked t]> a)
  | a_evict a id t :
      a !! id = Some t → a_phase t = Parked → astep cfg a (<[id := a_set Evicted t]> a)
  | a_remove a id t : a !! id = Some t → astep cfg a (delete id a).

(** ** The abstraction function *)

Definition abs_entry (e : Entry) : ATicket :=
  {| a_run := e_run e; a_scope := e_scope e; a_phase := e_state e |}.
Definition abs (s : State) : AState := abs_entry <$> entries s.

Lemma abs_lookup s id e : entries s !! id = Some e → abs s !! id = Some (abs_entry e).
Proof. intros H. unfold abs. by rewrite lookup_fmap, H. Qed.

Lemma abs_insert s s' id e :
  entries s' = <[id := e]> (entries s) → abs s' = <[id := abs_entry e]> (abs s).
Proof. intros H. unfold abs. by rewrite H, fmap_insert. Qed.

Lemma abs_holders g s : a_holders g (abs s) = cnt g (entries s).
Proof.
  unfold a_holders, cnt, abs. generalize (entries s) as m. intros m.
  induction m as [|i e m Hi IH] using map_ind; [by rewrite fmap_empty, !count_if_empty|].
  rewrite fmap_insert, !count_if_insert_new, IH by (rewrite ?lookup_fmap, ?Hi; done). done.
Qed.

Lemma abs_same_core s s' : same_core s s' → abs s' = abs s.
Proof. intros Hc. unfold abs. by rewrite (sc_entries s s' Hc). Qed.

(** [fits] reads the counters, which the invariant ties to the holders. *)
Lemma fits_room s e : Inv s → fits s e = true → a_room (settings s) (e_scope e) (abs s).
Proof.
  intros [[Ht Hp Hr] _ _ _]. unfold fits, a_room.
  rewrite !abs_holders, Hp, Hr, !default_opt_count, Ht.
  destruct (N.leb_spec (max_active_engine (settings s)) (cnt everywhere (entries s))); [done|].
  destruct (N.leb_spec (max_active_project (settings s))
    (cnt (in_project (project (e_scope e))) (entries s))); [done|].
  rewrite N.ltb_lt. done.
Qed.

(** ** Simulation of the pieces *)

Lemma abs_admit s sq id e :
  Inv s → admissible s (sq, id) e → astep (settings s) (abs s) (abs (admit_slot sq id e s)).
Proof.
  intros HI (Hid & Hst & _ & Hf). simpl in Hid.
  rewrite (abs_insert s (admit_slot sq id e s) id _ eq_refl).
  apply (a_grant _ _ id (abs_entry e)); [by apply abs_lookup|done|].
  by apply fits_room.
Qed.

Lemma abs_pumped s s' : pumped s s' → Inv s → rtc (astep (settings s)) (abs s) (abs s').
Proof.
  induction 1 as [s s' Hc|s sq id e s1 s2 Hadm Hc _ IH]; intros HI.
  - by rewrite (abs_same_core s s' Hc).
  - pose proof (same_core_inv _ _ Hc HI) as HI1.
    apply (same_core_admissible _ _ _ _ Hc) in Hadm.
    rewrite <- (abs_same_core s s1 Hc), <- (sc_settings _ _ Hc).
    eapply rtc_l; [by apply abs_admit|]. by apply IH, inv_admit.
Qed.

Lemma abs_pump cfg s s' :
  Inv s → settings s = cfg → pump s = Some s' → rtc (astep cfg) (abs s) (abs s').
Proof.
  intros HI <- Hp. destruct (pump_spec s HI) as (s1 & Hp1 & Hrun & _). simplify_eq.
  by apply abs_pumped.
Qed.

Lemma abs_remove cfg s id e :
  entries s !! id = Some e → astep cfg (abs s) (abs (remove id s).2).
Proof.
  intros Hid. assert (entries (remove id s).2 = delete id (entries s)) as He.
  { unfold remove. rewrite Hid. simpl. by repeat case_match. }
  unfold abs at 2. rewrite He, fmap_delete. by eapply a_remove, abs_lookup.
Qed.

(** Evicting distinct parked tickets one after the other. *)
Lemma abs_evicted cfg l m :
  NoDup l.*2 → (∀ p, p ∈ l → ∃ e, m !! p.2 = Some e ∧ e_state e = Parked) →
  rtc (astep cfg) (abs_entry <$> m) (abs_entry <$> evicted_of l m).
Proof.
  revert m. induction l as [|[k id] l IH]; intros m Hnd Hl; [done|].
  apply NoDup_cons in Hnd as [Hni Hnd]. simpl in Hni.
  destruct (Hl (k, id)) as (e & Hid & Hst); [set_solver|]. simpl in Hid.
  change (evicted_of ((k, id) :: l) m) with (evicted_of l (alter evict_entry id m)).
  assert (alter evict_entry id m = <[id := evict_entry e]> m) as ->.
  { apply map_eq. intros i. rewrite lookup_alter, lookup_insert.
    case_decide as Hd; [subst; by rewrite Hid|done]. }
  eapply rtc_l; [|apply IH; [done|]].
  - rewrite fmap_insert. apply (a_evict _ _ id (abs_entry e)); [|done].
    by rewrite lookup_fmap, Hid.
  - intros p Hp. destruct (Hl p) as (x & Hx & Hxs); [set_solver|].
    exists x. rewrite lookup_insert_ne; [done|]. intros ->.
    apply Hni, list_elem_of_fmap. eauto.
Qed.

Lemma NoDup_victims n m : NoDup (take n (sort_by_key id (parked_list m))).*2.
Proof.
  rewrite fmap_take. eapply sublist_NoDup; [|apply sublist_take].
  rewrite sort_by_key_perm. apply NoDup_keyed_list.
Qed.

Lemma victims_parked n m p :
  p ∈ take n (sort_by_key id (parked_list m)) →
  ∃ e, m !! p.2 = Some e ∧ e_state e = Parked ∧ e_parked_seq e = p.1.
Proof.
  intros (i & Hp%list_elem_of_lookup_2 & _)%elem_of_take. rewrite elem_of_sort_by_key in Hp.
  destruct p as [k id]. by apply elem_of_parked_list in Hp.
Qed.

Lemma abs_evict cfg s : rtc (astep cfg) (abs s) (abs (evict_parked_over_residency s)).
Proof.
  unfold evict_parked_over_residency. case_match; [done|].
  apply abs_evicted; [apply NoDup_victims|].
  intros p (e & He & Hst & _)%victims_parked. eauto.
Qed.

(** ** Operations as one alphabet *)

(** The atomic operations clients perform, in any interleaving: [Ticket] and
    [Permit] drops and releases are [OpAbandon]. *)
Inductive Op :=
  | OpReserve (req : AdmissionRequest)
  | OpBeginWait (id : TicketId)
  | OpFinishAcquire (id : TicketId) (ev : ChanEvent)
  | OpAbandon (id : TicketId)
  | OpPermitPark (id : TicketId)
  | OpCancel (id : TicketId)
  | OpConfigure (cfg : CoordinationSettings).

Definition exec (op : Op) (s : State) : option State :=
  match op with
  | OpReserve req => Some (reserve req s).1
  | OpBeginWait id => fst <$> begin_wait id s
  | OpFinishAcquire id ev => fst <$> finish_acquire id ev s
  | OpAbandon id => abandon id s
  | OpPermitPark id => fst <$> permit_park id s
  | OpCancel id => fst <$> cancel id s
  | OpConfigure cfg => fst <$> configure cfg s
  end.

Fixpoint run (ops : list Op) (s : State) : option State :=
  match ops with
  | [] => Some s
  | op :: ops => exec op s ≫= run ops
  end.

(** Counters still below the [u64] maximum. *)
Definition room (s : State) : Prop := next_id s < u64_max ∧ next_seq s < u64_max.

Lemma finish_acquire_ok id ev s : Inv s → op_ok (finish_acquire id ev) s.
Proof.
  intros HI. unfold op_ok, finish_acquire.
  destruct ev as [|err|]; try (eexists _, _; split_and!; [done|done|lia..]).
  destruct (match entries s !! id with Some e => e_cancel_requested e | None => true end);
    [|eexists _, _; split_and!; [done|done|lia..]].
  destruct (abandon_keeps id s HI) as (s' & Ha & HI' & [_ Hi Hq]).
  rewrite Ha. eexists _, _. split_and!; [done|done|lia..].
Qed.

Lemma permit_park_ok id s : Inv s → next_seq s < u64_max → op_ok (permit_park id) s.
Proof.
  intros HI Hlt. destruct (park_ok id s HI Hlt) as (s1 & r & Hp & HI1 & Hi & Hq).
  unfold op_ok, permit_park. rewrite Hp. simpl. destruct r as [[]|err].
  - eexists _, _. split_and!; [done|done|lia..].
  - destruct (abandon_keeps id s1 HI1) as (s' & Ha & HI' & [_ Hi' Hq']).
    unfold release. rewrite Ha. eexists _, _. split_and!; [done|done|lia..].
Qed.

Lemma exec_ok op s :
  Inv s → room s →
  ∃ s', exec op s = Some s' ∧ Inv s' ∧ next_id s' ≤ next_id s + 1 ∧ next_seq s' ≤ next_seq s + 1.
Proof.
  assert (∀ A (f : State → option (State * A)), op_ok f s →
    ∃ s', fst <$> f s = Some s' ∧ Inv s' ∧ next_id s' ≤ next_id s + 1
          ∧ next_seq s' ≤ next_seq s + 1) as Hlift.
  { intros A f (s' & r & Hf & ?). exists s'. by rewrite Hf. }
  intros HI [Hi Hq]. destruct op; simpl; try (apply Hlift).
  - eexists. split_and!; [done|by apply reserve_inv|..];
      unfold reserve; case_match; simpl; rewrite ?wadd64_small by lia; lia.
  - by apply begin_wait_ok.
  - by apply finish_acquire_ok.
  - destruct (abandon_keeps id s HI) as (s' & Ha & HI' & [_ Hi' Hq']).
    exists s'. split_and!; [done|done|lia..].
  - by apply permit_park_ok.
  - by apply cancel_ok.
  - by apply configure_ok.
Qed.

Lemma inv_new cfg : Inv (new cfg).
Proof.
  split; simpl.
  - split; [done|intros p; rewrite lookup_empty|intros r; rewrite lookup_empty];
      unfold cnt; by rewrite count_if_empty.
  - split; [| |constructor|]; intros; rewrite ?lookup_empty; set_solver.
  - split; [by vm_compute|..|unfold u64_max; lia]; intros; simplify_map_eq.
  - split; [..|constructor|]; intros; simplify_map_eq. by apply elem_of_nil in H.
Qed.

(** ** Running operations *)

Lemma run_ok ops s :
  Inv s → next_id s + Nlen ops ≤ u64_max → next_seq s + Nlen ops ≤ u64_max →
  ∃ s', run ops s = Some s' ∧ Inv s'
        ∧ next_id s' ≤ next_id s + Nlen ops ∧ next_seq s' ≤ next_seq s + Nlen ops.
Proof.
  revert s. induction ops as [|op ops IH]; intros s HI Hi Hq; unfold Nlen in *; simpl in *.
  { exists s. split_and!; [done|done|lia..]. }
  destruct (exec_ok op s HI) as (s1 & He & HI1 & Hi1 & Hq1); [unfold room; lia|].
  rewrite He. simpl. destruct (IH s1) as (s' & Hrun & HI' & Hi' & Hq'); [done|lia..|].
  exists s'. split_and!; [done|done|lia..].
Qed.

(** Reachable states, with room left for one more operation. *)
Lemma run_reach cfg ops s :
  Nlen ops + 1 < u64_max → run ops (new cfg) = Some s → Inv s ∧ room s.
Proof.
  intros Hlen Hrun. destruct (run_ok ops (new cfg)) as (s' & Hrun' & HI & Hi & Hq);
    [apply inv_new|simpl; lia..|].
  rewrite Hrun in Hrun'. injection Hrun' as <-. simpl in *. unfold room. split; [done|lia].
Qed.

(** Any property that the start has and every operation keeps, with the
    invariant and room for the counters, holds after any run. *)
Lemma run_from (P : State → Prop) ops s0 s :
  Inv s0 → next_id s0 + Nlen ops ≤ u64_max → next_seq s0 + Nlen ops ≤ u64_max →
  (∀ op s s', op ∈ ops → Inv s → room s → P s → exec op s = Some s' → P s') →
  P s0 → run ops s0 = Some s → P s ∧ Inv s.
Proof.
  revert s0. induction ops as [|op ops IH]; intros s0 HI Hi Hq Hstep HP; simpl;
    [by intros [= <-]|].
  unfold Nlen in *. simpl in *. assert (room s0) as Hroom by (unfold room; lia).
  destruct (exec_ok op s0 HI Hroom) as (s1 & He & HI1 & Hi1 & Hq1). rewrite He. simpl.
  apply IH; [done|lia..| |].
  - intros op' s2 s3 Hin. apply Hstep. by right.
  - eapply (Hstep op s0); eauto. left.
Qed.

Lemma run_induction (P : State → Prop) cfg ops s :
  P (new cfg) →
  (∀ op s s', op ∈ ops → Inv s → room s → P s → exec op s = Some s' → P s') →
  Nlen ops + 1 < u64_max → run ops (new cfg) = Some s → P s.
Proof.
  intros HP Hstep Hlen Hrun.
  destruct (run_from P ops (new cfg) s) as [? _];
    [apply inv_new|simpl; lia|simpl; lia|done|done|done|done].
Qed.

(** ** Refinement *)

Lemma abs_abandon id s s' :
  Inv s → abandon id s = Some s' → rtc (astep (settings s)) (abs s) (abs s').
Proof.
  intros HI. unfold abandon. destruct (entries s !! id) as [e|] eqn:Hid.
  - pose proof (inv_remove s id e SenderDropped HI Hid) as [Hr HI'].
    pose proof (abs_remove (settings s) s id e Hid) as Hstep.
    assert (settings (remove id s).2 = settings s) as Hset
      by (unfold remove; rewrite Hid; simpl; by repeat case_match).
    destruct (remove id s) as [o s1]; simpl in *. subst o. intros Hp.
    eapply rtc_l; [done|]. by apply (abs_pump _ _ _ HI').
  - unfold remove. rewrite Hid. by intros [= <-].
Qed.

Lemma abs_reserve req s :
  Inv s → rtc (astep (settings s)) (abs s) (abs (reserve req s).1).
Proof.
  intros HI. unfold reserve. destruct (reserve_refusal req s) eqn:Hr; [done|].
  apply reserve_refusal_None in Hr as (_ & _ & Hrun & Hout & _). simpl.
  set (e := reserved_entry req (next_seq s) _). apply rtc_once.
  match goal with |- astep _ _ (abs ?s1) => rewrite (abs_insert s s1 (next_id s) e eq_refl) end.
  destruct HI as [_ Hidx Hfr _]. apply a_reserve; [|done|..].
  - unfold abs. rewrite lookup_fmap. destruct (entries s !! next_id s) eqn:E; [|done].
    apply (fresh_ids _ _ _ Hfr) in E. lia.
  - intros id t. unfold abs. rewrite lookup_fmap. intros (x & Hx & ->)%fmap_Some Heq.
    simpl in Heq. assert (by_run s !! req_run req = Some id); [|congruence].
    apply (idx_run _ _ _ _ Hidx). eauto.
  - unfold abs. by rewrite map_size_fmap.
Qed.

Lemma abs_begin_wait id s s' r :
  Inv s → next_seq s < u64_max → begin_wait id s = Some (s', r) →
  rtc (astep (settings s)) (abs s) (abs s').
Proof.
  intros HI Hlt. rewrite begin_wait_cases.
  destruct (entries s !! id) as [e|] eqn:Hid; [|by intros [= <- <-]].
  assert (resting e → (s0 ← pump (enqueued id e s); Some (s0, Ok (E:=AdmissionError) (next_seq s)))
    = Some (s', r) → rtc (astep (settings s)) (abs s) (abs s')) as Hwait.
  { intros Hrest (s0 & Hp & [= <- <-])%bind_Some.
    eapply rtc_l; [|by apply (abs_pump _ _ _ (inv_enqueued id e s HI Hlt Hid Hrest))].
    rewrite (abs_insert s (enqueued id e s) id _ eq_refl).
    apply (a_ready _ _ id (abs_entry e)); [by apply abs_lookup|].
    destruct Hrest. simpl. destruct (e_state e); naive_solver. }
  destruct (e_state e) eqn:Hst; try (apply Hwait; split; congruence); by intros [= <- <-].
Qed.

Lemma abs_park id s s' r :
  Inv s → next_seq s < u64_max → park id s = Some (s', r) →
  rtc (astep (settings s)) (abs s) (abs s') ∧ settings s' = settings s.
Proof.
  intros HI Hlt. rewrite park_cases.
  destruct (entries s !! id) as [e|] eqn:Hid; [|by intros [= <- <-]].
  destruct (has_state Active e) eqn:Ha; simpl; [|by intros [= <- <-]].
  destruct (e_cancel_requested e) eqn:Hcr; [by intros [= <- <-]|].
  apply has_state_true in Ha. intros (s0 & Hp & [= <- <-])%bind_Some.
  pose proof (inv_parked_state id e s HI Hlt Hid Ha) as HI0.
  assert (settings (evict_parked_over_residency (parked_state id e s)) = settings s) as Hset
    by exact (sf_settings _ _ (evict_frame (parked_state id e s))).
  split.
  - eapply rtc_l.
    { apply (a_park _ _ id (abs_entry e)); [by apply abs_lookup|done]. }
    change (a_set Parked (abs_entry e)) with (abs_entry (entry_with e Parked (e_ready_seq e)
      (next_seq s) ((e_park_count e + 1) mod (u32_max + 1)) (e_evict_count e) false (e_waiter e))).
    rewrite <- (abs_insert s (parked_state id e s) id _ eq_refl).
    etransitivity; [apply abs_evict|]. by apply (abs_pump _ _ _ (inv_evict _ HI0)).
  - destruct (pump_keeps _ (inv_evict _ HI0)) as (s1 & Hp1 & _ & [Hs1 _ _]). congruence.
Qed.

Lemma abs_cancel id s s' r :
  Inv s → cancel id s = Some (s', r) → rtc (astep (settings s)) (abs s) (abs s').
Proof.
  intros HI. unfold cancel. destruct (entries s !! id) as [e|] eqn:Hid; [|by intros [= <- <-]].
  destruct (has_state Active e) eqn:Ha.
  - destruct (e_cancel_requested e); intros [= <- <-]; [done|].
    match goal with |- rtc _ _ (abs ?s1) => rewrite (abs_insert s s1 id (mark_cancel e) eq_refl) end.
    rewrite insert_id; [done|]. change (abs_entry (mark_cancel e)) with (abs_entry e).
    by apply abs_lookup.
  - pose proof (inv_remove s id e (SentErr Cancelled) HI Hid) as [_ HI'].
    intros (s0 & Hp & [= <- <-])%bind_Some. eapply rtc_l; [by eapply abs_remove|].
    apply (abs_pump _ _ _ HI'); [|done].
    unfold remove; rewrite Hid; simpl; by repeat case_match.
Qed.

Lemma abs_configure cfg s s' r :
  Inv s → configure cfg s = Some (s', r) → rtc (astep (settings s')) (abs s) (abs s').
Proof.
  intros HI. rewrite configure_cases.
  destruct (validate cfg); [|by intros [= <- <-]]. intros (s0 & Hp & [= <- <-])%bind_Some.
  pose proof (inv_configured cfg s HI) as HI0.
  destruct (pump_keeps _ (inv_evict _ HI0)) as (s1 & Hp1 & _ & [Hs1 _ _]). simplify_eq.
  change (abs s) with (abs (configured cfg s)).
  etransitivity; [apply abs_evict|]. by apply (abs_pump _ _ _ (inv_evict _ HI0)).
Qed.

(** Only [configure] changes the settings. *)
Lemma exec_settings op s s' :
  Inv s → room s → exec op s = Some s' →
  (∀ cfg, op ≠ OpConfigure cfg) → settings s' = settings s.
Proof.
  intros HI [_ Hq] He Hop. destruct op; simpl in He; simplify_eq.
  - unfold reserve. by case_match.
  - apply fmap_Some in He as ([s1 r] & Hb & ->). simpl. rewrite begin_wait_cases in Hb.
    destruct (entries s !! id) as [e|] eqn:Hid; [|by simplify_eq].
    destruct (e_state e) eqn:Hst; simplify_eq; try done;
      apply bind_Some in Hb as (s2 & Hp & [= <- <-]);
      (destruct (pump_keeps (enqueued id e s)) as (s3 & Hp3 & _ & [Hs3 _ _]);
        [apply inv_enqueued; try done; split; congruence|]; simplify_eq; done).
  - apply fmap_Some in He as ([s1 r] & Hb & ->). simpl. unfold finish_acquire in Hb.
    destruct ev; simplify_eq; try done. revert Hb. case_match; [|by intros [= <- <-]].
    intros (s2 & Ha & [= <- <-])%bind_Some.
    destruct (abandon_keeps id s HI) as (s3 & Ha3 & _ & [Hs3 _ _]). by simplify_eq.
  - destruct (abandon_keeps id s HI) as (s3 & Ha3 & _ & [Hs3 _ _]). by simplify_eq.
  - apply fmap_Some in He as ([s1 r] & Hb & ->). simpl.
    apply bind_Some in Hb as ([s2 r2] & Hp & Hb).
    destruct (park_ok id s HI Hq) as (s4 & r4 & Hp4 & HI4 & _).
    rewrite Hp in Hp4. injection Hp4 as <- <-.
    apply abs_park in Hp as [_ Hset]; [|done..].
    destruct r2; [by simplify_eq|]. apply bind_Some in Hb as (s5 & Ha & [= <- <-]).
    destruct (abandon_keeps id s2 HI4) as (s3 & Ha3 & _ & [Hs3 _ _]).
    unfold release in Ha. simplify_eq. congruence.
  - apply fmap_Some in He as ([s1 r] & Hb & ->). simpl. unfold cancel in Hb.
    destruct (entries s !! id) as [e|] eqn:Hid; [|by simplify_eq].
    destruct (has_state Active e); [destruct (e_cancel_requested e); by simplify_eq|].
    apply bind_Some in Hb as (s2 & Hp & [= <- <-]).
    pose proof (inv_remove s id e (SentErr Cancelled) HI Hid) as [_ HI'].
    destruct (pump_keeps _ HI') as (s3 & Hp3 & _ & [Hs3 _ _]). simplify_eq.
    rewrite Hs3. simpl. unfold remove; rewrite Hid; simpl; by repeat case_match.
  - by destruct (Hop cfg).
Qed.

Lemma exec_refines op s s' :
  Inv s → room s → exec op s = Some s' → rtc (astep (settings s')) (abs s) (abs s').
Proof.
  intros HI Hroom He. assert ((∃ cfg, op = OpConfigure cfg) ∨ settings s' = settings s) as Hset.
  { destruct op; [right|right|right|right|right|right|left; by eexists];
      by eapply exec_settings. }
  destruct Hset as [[cfg ->]|Hset].
  { apply fmap_Some in He as ([s1 r] & Hb & ->). by eapply abs_configure. }
  rewrite Hset. destruct Hroom as [_ Hq]. destruct op; simpl in He.
  - injection He as <-. by apply abs_reserve.
  - apply fmap_Some in He as ([s1 r] & Hb & ->). by eapply abs_begin_wait.
  - apply fmap_Some in He as ([s1 r] & Hb & ->). unfold finish_acquire in Hb.
    destruct ev; simplify_eq; try done. revert Hb. case_match; [|by intros [= <- <-]].
    intros (s2 & Ha & [= <- <-])%bind_Some. by eapply abs_abandon.
  - by eapply abs_abandon.
  - apply fmap_Some in He as ([s1 r] & Hb & ->).
    apply bind_Some in Hb as ([s2 r2] & Hp & Hb).
    destruct (park_ok id s HI Hq) as (s4 & r4 & Hp4 & HI4 & _).
    rewrite Hp in Hp4. injection Hp4 as <- <-.
    apply abs_park in Hp as [Hsteps Hset']; [|done..].
    destruct r2; [by simplify_eq|]. apply bind_Some in Hb as (s5 & Ha & [= <- <-]).
    etransitivity; [done|]. rewrite <- Hset'. by eapply abs_abandon.
  - apply fmap_Some in He as ([s1 r] & Hb & ->). by eapply abs_cancel.
  - apply fmap_Some in He as ([s1 r] & Hb & ->). rewrite <- Hset. by eapply abs_configure.
Qed.
