(* ===== verification/SchedulerSteps.v ===== *)
(** * Operations as sequences of micro steps

    Every operation is a sequence of micro steps (a reservation, an enqueueing, an
    admission, a removal, a parking with its evictions, ...), so a property of the
    entries is proved of all operations by proving it of the micro steps. *)

From stdpp Require Import gmap strings list sorting.
From S2P Require Import Prelude RustStr Identity Settings Scheduler SchedulerInv SchedulerSpec.
Local Open Scope N_scope.

(** [micro o] are the steps of an operation whose ticket is [o]. *)
Inductive micro (o : option TicketId) : State → State → Prop :=
  | m_core s s' : same_core s s' → micro o s s'
  | m_bump s c : room s → (c = None ∨ c = Some (next_seq s)) →
      micro o s (log_chan c SentOk (bump_seq s))
  | m_reserve s req : room s → reserve_refusal req s = None → micro o s (reserve req s).1
  | m_enqueue s id e : room s → entries s !! id = Some e → resting e →
      micro o s (enqueued id e s)
  | m_admit s sq id e : admissible s (sq, id) e → micro o s (admit_slot sq id e s)
  | m_remove s id e ev : o = Some id → entries s !! id = Some e →
      micro o s (log_chan (e_waiter e) ev (remove id s).2)
  | m_park s id e : o = Some id → room s → entries s !! id = Some e → e_state e = Active →
      e_cancel_requested e = false →
      micro o s (evict_parked_over_residency (parked_state id e s))
  | m_mark s id e : o = Some id → entries s !! id = Some e → e_state e = Active →
      micro o s (upd_entries (<[id := mark_cancel e]> (entries s)) s)
  | m_configure s cfg : validate cfg = Ok () →
      micro o s (evict_parked_over_residency (configured cfg s)).

Definition mstep (o : option TicketId) (s s' : State) : Prop := Inv s ∧ micro o s s'.

(** The ticket an operation names. Reserving, waiting and reconfiguring name none
    that may hold a permit. *)
Definition op_ticket (op : Op) : option TicketId :=
  match op with
  | OpFinishAcquire id _ | OpAbandon id | OpPermitPark id | OpCancel id => Some id
  | _ => None
  end.

Lemma same_core_refl s : same_core s s.
Proof. by split. Qed.

Lemma pumped_steps o s s' : pumped s s' → Inv s → rtc (mstep o) s s'.
Proof.
  induction 1 as [s s' Hc|s sq id e s1 s2 Hadm Hc _ IH]; intros HI.
  - apply rtc_once. split; [done|by apply m_core].
  - pose proof (same_core_inv _ _ Hc HI) as HI1.
    apply (same_core_admissible _ _ _ _ Hc) in Hadm.
    eapply rtc_l; [split; [done|by apply m_core]|].
    eapply rtc_l; [split; [done|by apply m_admit]|]. by apply IH, inv_admit.
Qed.

Lemma pump_steps o s s' : Inv s → pump s = Some s' → rtc (mstep o) s s'.
Proof.
  intros HI Hp. destruct (pump_spec s HI) as (s1 & Hp1 & Hrun & _). simplify_eq.
  by apply pumped_steps.
Qed.

(** A micro step, then the pump. *)
Lemma step_then_pump o s s1 s' :
  Inv s → micro o s s1 → Inv s1 → pump s1 = Some s' → rtc (mstep o) s s'.
Proof. intros HI Hm HI1 Hp. eapply rtc_l; [done|]. by apply pump_steps. Qed.

Lemma bump_steps o s : Inv s → room s → rtc (mstep o) s (bump_seq s).
Proof.
  intros HI Hr. apply rtc_once. split; [done|].
  replace (bump_seq s) with (log_chan None SentOk (bump_seq s)); [apply m_bump; auto|].
  unfold log_chan. simpl. by rewrite app_nil_r.
Qed.

Lemma abandon_steps id s s' :
  Inv s → abandon id s = Some s' → rtc (mstep (Some id)) s s'.
Proof.
  intros HI. unfold abandon. destruct (entries s !! id) as [e|] eqn:Hid.
  - pose proof (inv_remove s id e SenderDropped HI Hid) as [Hr HI'].
    pose proof (m_remove (Some id) s id e SenderDropped eq_refl Hid) as Hm.
    destruct (remove id s) as [o s1]; simpl in *. subst o. by apply step_then_pump.
  - unfold remove. rewrite Hid. by intros [= <-].
Qed.

Lemma begin_wait_steps id s s' r :
  Inv s → room s → begin_wait id s = Some (s', r) → rtc (mstep None) s s'.
Proof.
  intros HI Hr. rewrite begin_wait_cases.
  destruct (entries s !! id) as [e|] eqn:Hid; [|intros [= <- <-]; by apply bump_steps].
  destruct (e_state e) eqn:Hst.
  2: { intros [= <- <-]. by apply bump_steps. }
  2: { intros [= <- <-]. apply rtc_once. split; [done|]. apply m_bump; auto. }
  all: intros (s1 & Hp & [= <- <-])%bind_Some; assert (resting e) by (split; congruence);
    (eapply step_then_pump; [done|by apply (m_enqueue None s id e)|by apply inv_enqueued; try apply Hr|done]).
Qed.

Lemma park_steps id s s' r :
  Inv s → room s → park id s = Some (s', r) → rtc (mstep (Some id)) s s'.
Proof.
  intros HI Hr. rewrite park_cases.
  destruct (entries s !! id) as [e|] eqn:Hid; [|intros [= <- <-]; by apply bump_steps].
  destruct (has_state Active e) eqn:Ha; simpl; [|intros [= <- <-]; by apply bump_steps].
  destruct (e_cancel_requested e) eqn:Hc; [intros [= <- <-]; by apply bump_steps|].
  apply has_state_true in Ha. intros (s0 & Hp & [= <- <-])%bind_Some.
  eapply step_then_pump; [done|by apply (m_park (Some id) s id e)| |done].
  apply inv_evict, inv_parked_state; try done. apply Hr.
Qed.

Lemma exec_steps op s s' :
  Inv s → room s → exec op s = Some s' → rtc (mstep (op_ticket op)) s s'.
Proof.
  intros HI Hr He. destruct op; simpl in He.
  - injection He as <-. simpl. destruct (reserve_refusal req s) eqn:E.
    + unfold reserve. by rewrite E.
    + apply rtc_once. split; [done|by apply m_reserve].
  - apply fmap_Some in He as ([s1 r] & Hb & ->). by eapply begin_wait_steps.
  - apply fmap_Some in He as ([s1 r] & Hb & ->). unfold finish_acquire in Hb.
    destruct ev; simplify_eq; try done. revert Hb. case_match; [|by intros [= <- <-]].
    intros (s2 & Ha & [= <- <-])%bind_Some. by apply abandon_steps.
  - by apply abandon_steps.
  - apply fmap_Some in He as ([s1 r] & Hb & ->).
    apply bind_Some in Hb as ([s2 r2] & Hp & Hb).
    destruct (park_ok id s HI (proj2 Hr)) as (s4 & r4 & Hp4 & HI4 & _).
    rewrite Hp in Hp4. injection Hp4 as <- <-. apply park_steps in Hp; [|done..].
    destruct r2; [by simplify_eq|]. apply bind_Some in Hb as (s5 & Ha & [= <- <-]).
    etransitivity; [done|]. by apply abandon_steps.
  - apply fmap_Some in He as ([s1 r] & Hb & ->). simpl. unfold cancel in Hb.
    destruct (entries s !! id) as [e|] eqn:Hid; [|by simplify_eq].
    destruct (has_state Active e) eqn:Ha.
    + apply has_state_true in Ha. destruct (e_cancel_requested e); simplify_eq; [done|].
      apply rtc_once. split; [done|by apply m_mark].
    + apply bind_Some in Hb as (s2 & Hp & [= <- <-]).
      eapply step_then_pump; [done|by apply (m_remove (Some id) s id e)| |done].
      by apply (inv_remove s id e (SentErr Cancelled)).
  - apply fmap_Some in He as ([s1 r] & Hb & ->). rewrite configure_cases in Hb.
    destruct (validate cfg) as [[]|] eqn:Hv; [|by simplify_eq].
    apply bind_Some in Hb as (s2 & Hp & [= <- <-]).
    eapply step_then_pump; [done|by apply (m_configure None s cfg)| |done].
    by apply inv_evict, inv_configured.
Qed.

(** A property kept by the micro steps is kept by the operations. *)
Lemma exec_micro_ind (P : State → Prop) op s s' :
  (∀ s s', Inv s → micro (op_ticket op) s s' → P s → P s') →
  Inv s → room s → exec op s = Some s' → P s → P s'.
Proof.
  intros HP HI Hr He HPs. apply exec_steps in He; [|done..]. clear HI Hr.
  induction He as [|s s1 s2 [HI Hm] _ IH]; [done|]. apply IH. eauto.
Qed.

(** ** What the micro steps do to the entries *)

Lemma remove_entries id s : entries (remove id s).2 = delete id (entries s).
Proof.
  unfold remove. destruct (entries s !! id) eqn:Hid; simpl; [by repeat case_match|].
  by rewrite delete_id.
Qed.

Lemma reserve_entries req s :
  reserve_refusal req s = None →
  entries (reserve req s).1 = <[next_id s := reserved_entry req (next_seq s) s]> (entries s).
Proof. intros H. unfold reserve. by rewrite H. Qed.

(** Eviction rewrites exactly its victims. *)
Lemma evicted_lookup l m id :
  NoDup l.*2 →
  evicted_of l m !! id = if decide (id ∈ l.*2) then evict_entry <$> m !! id else m !! id.
Proof.
  revert m. induction l as [|[k i] l IH]; intros m Hnd; [done|].
  simpl in *. apply NoDup_cons in Hnd as [Hni Hnd].
  change (evicted_of ((k, i) :: l) m) with (evicted_of l (alter evict_entry i m)).
  rewrite IH, lookup_alter by done.
  destruct (decide (i = id)) as [->|Hne].
  - rewrite decide_False, decide_True by set_solver. done.
  - repeat case_decide; try done; exfalso; set_solver.
Qed.

Definition surplus (s : State) : nat :=
  length (parked_list (entries s)) - N.to_nat (max_parked_residency (settings s)).
Definition victims (s : State) : list (N * TicketId) :=
  take (surplus s) (sort_by_key id (parked_list (entries s))).

Lemma evict_victims s :
  entries (evict_parked_over_residency s) = evicted_of (victims s) (entries s).
Proof.
  unfold evict_parked_over_residency, victims, surplus.
  by destruct (_ - _)%nat.
Qed.

Lemma evict_lookup s id :
  entries (evict_parked_over_residency s) !! id
  = if decide (id ∈ (victims s).*2) then evict_entry <$> entries s !! id else entries s !! id.
Proof. rewrite evict_victims. apply evicted_lookup, NoDup_victims. Qed.

Lemma evict_dom s id :
  is_Some (entries (evict_parked_over_residency s) !! id) ↔ is_Some (entries s !! id).
Proof. rewrite evict_lookup. case_decide; [apply fmap_is_Some|done]. Qed.

Lemma victim_entry s id :
  id ∈ (victims s).*2 →
  ∃ e, entries s !! id = Some e ∧ e_state e = Parked ∧ (e_parked_seq e, id) ∈ victims s.
Proof.
  intros ([k i] & -> & Hin)%list_elem_of_fmap.
  destruct (victims_parked _ _ _ Hin) as (e & He & Hst & Hk). simpl in *. subst k. eauto.
Qed.

(** The victims are the tickets parked longest. *)
Lemma victims_oldest s p q :
  p ∈ victims s → q ∈ parked_list (entries s) → q ∉ victims s → rle p q.
Proof.
  unfold victims. intros Hp Hq Hnq.
  pose proof (sort_by_key_sorted id (parked_list (entries s))) as Hs.
  rewrite <- (elem_of_sort_by_key id) in Hq.
  set (l := sort_by_key id (parked_list (entries s))) in *.
  rewrite <- (take_drop (surplus s) l) in Hs, Hq.
  apply elem_of_app in Hq as [?|Hq]; [done|].
  apply StronglySorted_app in Hs as (Hle & _ & _). by apply Hle.
Qed.

Lemma evict_oldest s id e :
  entries s !! id = Some e →
  entries (evict_parked_over_residency s) !! id = Some e ∨
  (e_state e = Parked ∧ entries (evict_parked_over_residency s) !! id = Some (evict_entry e)
   ∧ ∀ id2 e2, entries (evict_parked_over_residency s) !! id2 = Some e2 →
       e_state e2 = Parked → e_parked_seq e ≤ e_parked_seq e2).
Proof.
  intros Hid. rewrite evict_lookup. case_decide as Hv; [right|by left].
  destruct (victim_entry s id Hv) as (e' & He' & Hst & Hin). simplify_eq.
  rewrite Hid. split_and!; [done|done|]. intros id2 e2. rewrite evict_lookup.
  case_decide as Hv2.
  - intros (x & Hx & ->)%fmap_Some. done.
  - intros Hid2 Hst2.
    assert (rle (e_parked_seq e, id) (e_parked_seq e2, id2)) as Hle.
    { eapply victims_oldest; [done|apply elem_of_parked_list; eauto|].
      intros Hin2. apply Hv2, list_elem_of_fmap. by exists (e_parked_seq e2, id2). }
    apply rle_lt_or_eq in Hle as [Hlt|[= -> _]]; [|done].
    unfold rlt in Hlt. rewrite rcmp_pair in Hlt. unfold then_cmp in Hlt.
    destruct (rcmp (e_parked_seq e) (e_parked_seq e2)) eqn:E; [|by apply N.lt_le_incl, rlt_N|done].
    by apply rcmp_eq in E as ->.
Qed.

(** Eviction moves some parked tickets to the evicted state. *)
Lemma evict_entries s id e :
  entries s !! id = Some e →
  entries (evict_parked_over_residency s) !! id = Some e ∨
  (e_state e = Parked ∧ entries (evict_parked_over_residency s) !! id = Some (evict_entry e)).
Proof. intros [?|(? & ? & _)]%evict_oldest; auto. Qed.

(** The number of parked tickets is the length of the parked list, and each
    eviction takes one away. *)
Lemma count_parked_list m : count_if (has_state Parked) m = Nlen (parked_list m).
Proof. apply count_keyed_list. Qed.

Lemma count_evicted l m :
  NoDup l.*2 → (∀ p, p ∈ l → ∃ e, m !! p.2 = Some e ∧ e_state e = Parked) →
  count_if (has_state Parked) (evicted_of l m) + Nlen l = count_if (has_state Parked) m.
Proof.
  revert m. unfold Nlen. induction l as [|[k id] l IH]; intros m Hnd Hl; [simpl; lia|].
  apply NoDup_cons in Hnd as [Hni Hnd]. simpl in Hni.
  destruct (Hl (k, id)) as (e & Hid & Hst); [set_solver|]. simpl in Hid.
  change (evicted_of ((k, id) :: l) m) with (evicted_of l (alter evict_entry id m)).
  assert (alter evict_entry id m = <[id := evict_entry e]> m) as ->.
  { apply map_eq. intros i. rewrite lookup_alter, lookup_insert.
    case_decide as Hd; [subst; by rewrite Hid|done]. }
  specialize (IH (<[id := evict_entry e]> m) Hnd).
  pose proof (count_if_update (has_state Parked) m id e (evict_entry e) Hid) as Hc.
  assert (has_state Parked e = true) as Hpe by by apply has_state_true.
  assert (has_state Parked (evict_entry e) = false) as Hpe' by by apply has_state_false.
  rewrite Hpe, Hpe' in Hc. simpl length.
  enough (count_if (has_state Parked) (evicted_of l (<[id:=evict_entry e]> m)) + N.of_nat (length l)
    = count_if (has_state Parked) (<[id:=evict_entry e]> m)) by lia.
  apply IH. intros p Hp. destruct (Hl p) as (x & Hx & Hxs); [set_solver|].
  exists x. rewrite lookup_insert_ne; [done|]. intros ->.
  apply Hni, list_elem_of_fmap. eauto.
Qed.

Lemma evict_count s :
  count_if (has_state Parked) (entries (evict_parked_over_residency s))
  = N.min (count_if (has_state Parked) (entries s)) (max_parked_residency (settings s)).
Proof.
  rewrite evict_victims.
  pose proof (count_evicted (victims s) (entries s) (NoDup_victims _ _)) as Hc.
  specialize (Hc ltac:(intros p (e & He & Hst & _)%victims_parked; eauto)).
  assert (Nlen (victims s) = N.of_nat (surplus s)) as Hl.
  { unfold victims, Nlen. rewrite length_take, length_sort_by_key. unfold surplus. lia. }
  rewrite Hl in Hc. rewrite (count_parked_list (entries s)) in *.
  unfold Nlen, surplus in *. lia.
Qed.

(** Entries of a state class other than [Parked] under a micro step. *)
Lemma count_parked_insert (m : gmap TicketId Entry) id e e' :
  m !! id = Some e → e_state e' ≠ Parked →
  count_if (has_state Parked) (<[id := e']> m) ≤ count_if (has_state Parked) m.
Proof.
  intros Hid Hst. pose proof (count_if_update (has_state Parked) m id e e' Hid) as H.
  apply has_state_false in Hst. rewrite Hst in H. lia.
Qed.
