(* ===== verification/SchedulerProps.v ===== *)
(** * Properties of the admission scheduler

    The theorems about [Scheduler] that hold for every interleaving of client
    operations: no panic, refinement, capacity, work conservation, residency,
    permit stability, wake-ups, bounded urgency and cancellation. *)

From stdpp Require Import gmap strings list sorting pretty.
From S2P Require Import Prelude RustStr Identity Settings Scheduler SchedulerInv SchedulerSpec SchedulerSteps.
Local Open Scope N_scope.

(** ** Sample inputs for the witnesses *)

Definition sample_run (name : string) : RunKey :=
  {| work := {| runtime := Trajectory; work_id := name |}; attempt := 1 |}.
Definition sample_request (name project_root : string) (p : WorkPriority) : AdmissionRequest :=
  {| req_run := sample_run name; req_scope := WorkScope_single project_root; req_depth := 0;
     req_priority := Some p |}.
Definition sample_ops : list Op := [
  OpReserve (sample_request "a" "r1" Normal);
  OpReserve (sample_request "b" "r1" UserBlocking);
  OpBeginWait 1; OpFinishAcquire 1 SentOk; OpBeginWait 2; OpPermitPark 1].
Definition sample_state : State := default (new default_settings) (run sample_ops (new default_settings)).

(** Seventeen runs under one root whose cap is sixteen. *)
Definition crowded_ops : list Op :=
  concat ((λ k, [OpReserve (sample_request (pretty k) "r1" Normal); OpBeginWait k])
            <$> (N.of_nat <$> seq 1 17)).

(** ** Levels of capacity *)

(** The three levels at which permits are counted, with their caps. *)
Inductive level (cfg : CoordinationSettings) : (WorkScope → bool) → N → Prop :=
  | level_engine : level cfg everywhere (max_active_engine cfg)
  | level_project p : level cfg (in_project p) (max_active_project cfg)
  | level_root r : level cfg (in_root r) (max_active_root cfg).

Section holders.
Context (g : WorkScope → bool) (a : AState) (id : TicketId).

Lemma a_holders_set t p :
  a !! id = Some t → p ≠ Active → a_holders g (<[id := a_set p t]> a) ≤ a_holders g a.
Proof.
  intros Ht Hp. unfold a_holders. set (f := λ t, _).
  pose proof (count_if_update f a id t (a_set p t) Ht) as H.
  assert (f (a_set p t) = false) as Hf by (unfold f; simpl; by rewrite bool_decide_false).
  rewrite Hf in H. lia.
Qed.

Lemma a_holders_grant t :
  a !! id = Some t → a_phase t = Pending →
  a_holders g (<[id := a_set Active t]> a) = a_holders g a + b2n (g (a_scope t)).
Proof.
  intros Ht Hp. unfold a_holders. set (f := λ t, _).
  pose proof (count_if_update f a id t (a_set Active t) Ht) as H.
  assert (f (a_set Active t) = g (a_scope t)) as Hf by done.
  assert (f t = false) as Hf' by (unfold f; rewrite bool_decide_false; [done|congruence]).
  rewrite Hf, Hf' in H. unfold b2n. lia.
Qed.

Lemma a_holders_delete : a_holders g (delete id a) ≤ a_holders g a.
Proof.
  unfold a_holders. set (f := λ t, _). destruct (a !! id) as [t|] eqn:Ht.
  - pose proof (count_if_delete f a id t Ht). lia.
  - by rewrite delete_id.
Qed.
End holders.

Lemma astep_level cfg a a' g cap :
  astep cfg a a' → level cfg g cap → a_holders g a' ≤ N.max (a_holders g a) cap.
Proof.
  intros Hs Hl. destruct Hs as [a id t Hn Hph _ _|a id t Ht _|a id t Ht Hph Hroom
    |a id t Ht _|a id t Ht _|a id t Ht].
  - unfold a_holders. rewrite count_if_insert_new by done.
    rewrite bool_decide_false by congruence. simpl. lia.
  - pose proof (a_holders_set g a id t Pending Ht ltac:(done)). lia.
  - rewrite a_holders_grant by done. destruct Hroom as (He & Hp & Hr).
    destruct (g (a_scope t)) eqn:Hg; simpl; [|lia].
    destruct Hl as [|p|r]; [lia| |]; unfold at_key in Hg; apply bool_decide_eq_true in Hg;
      subst; lia.
  - pose proof (a_holders_set g a id t Parked Ht ltac:(done)). lia.
  - pose proof (a_holders_set g a id t Evicted Ht ltac:(done)). lia.
  - pose proof (a_holders_delete g a id). lia.
Qed.

Lemma asteps_level cfg a a' g cap :
  rtc (astep cfg) a a' → level cfg g cap → a_holders g a' ≤ N.max (a_holders g a) cap.
Proof.
  induction 1 as [a|a a1 a2 Hs _ IH]; intros Hl; [lia|].
  pose proof (astep_level _ _ _ _ _ Hs Hl). specialize (IH Hl). lia.
Qed.

Lemma exec_level op s s' g cap :
  Inv s → room s → exec op s = Some s' → level (settings s') g cap →
  cnt g (entries s') ≤ N.max (cnt g (entries s)) cap.
Proof.
  intros HI Hr He Hl. rewrite <- !abs_holders.
  eapply asteps_level; [by apply (exec_refines op)|done].
Qed.

(** ** Quiescence *)

(** No admissible ticket is left waiting. *)
Definition quiescent (s : State) : Prop := ∀ slot e, ¬ admissible s slot e.

Lemma pump_quiescent s s' : Inv s → pump s = Some s' → quiescent s'.
Proof. intros HI Hp. destruct (pump_spec s HI) as (s1 & Hp1 & _ & _ & Hq). by simplify_eq. Qed.

(** Nothing becomes admissible when the pending tickets and the counters stay. *)
Lemma quiescent_frame s s' :
  quiescent s → (∀ e, fits s' e = fits s e) →
  (∀ id e, entries s' !! id = Some e → e_state e = Pending → entries s !! id = Some e) →
  quiescent s'.
Proof.
  intros Hq Hf He slot e (Hid & Hst & Hsq & Hfit). apply (Hq slot e).
  split_and!; [by apply He|done|done|by rewrite <- Hf].
Qed.

Lemma abandon_quiescent id s s' : Inv s → quiescent s → abandon id s = Some s' → quiescent s'.
Proof.
  intros HI Hq. unfold abandon. destruct (entries s !! id) as [e|] eqn:Hid.
  - pose proof (inv_remove s id e SenderDropped HI Hid) as [Hr HI'].
    destruct (remove id s) as [o s1]; simpl in *. subst o. by apply pump_quiescent.
  - unfold remove. rewrite Hid. by intros [= <-].
Qed.

Lemma bump_quiescent s : quiescent s → quiescent (bump_seq s).
Proof. intros Hq. by apply (quiescent_frame s). Qed.
#[export] Hint Resolve bump_quiescent : sched.

Lemma begin_wait_quiescent id s s' r :
  Inv s → next_seq s < u64_max → quiescent s → begin_wait id s = Some (s', r) → quiescent s'.
Proof.
  intros HI Hlt Hq. rewrite begin_wait_cases.
  destruct (entries s !! id) as [e|] eqn:Hid; [|intros [= <- <-]; auto with sched].
  destruct (e_state e) eqn:Hst; try (intros [= <- <-]; auto with sched; by apply (quiescent_frame s));
    intros (s1 & Hp & [= <- <-])%bind_Some;
    (eapply pump_quiescent; [|done]; apply inv_enqueued; try done; split; congruence).
Qed.

Lemma park_quiescent id s s' r :
  Inv s → next_seq s < u64_max → quiescent s → park id s = Some (s', r) → quiescent s'.
Proof.
  intros HI Hlt Hq. rewrite park_cases.
  destruct (entries s !! id) as [e|] eqn:Hid; [|intros [= <- <-]; auto with sched].
  destruct (has_state Active e) eqn:Ha; simpl; [|intros [= <- <-]; auto with sched].
  destruct (e_cancel_requested e); [intros [= <- <-]; auto with sched|].
  apply has_state_true in Ha. intros (s0 & Hp & [= <- <-])%bind_Some.
  eapply pump_quiescent; [|done]. by apply inv_evict, inv_parked_state.
Qed.

Lemma cancel_quiescent id s s' r :
  Inv s → quiescent s → cancel id s = Some (s', r) → quiescent s'.
Proof.
  intros HI Hq. unfold cancel. destruct (entries s !! id) as [e|] eqn:Hid; [|by intros [= <- <-]].
  destruct (has_state Active e) eqn:Ha.
  - destruct (e_cancel_requested e); intros [= <- <-]; [done|].
    apply (quiescent_frame s); [done|done|]. simpl. apply has_state_true in Ha.
    intros i x Hi Hx. map_cases; [simpl in Hx; congruence|done].
  - intros (s0 & Hp & [= <- <-])%bind_Some. eapply pump_quiescent; [|done].
    by apply (inv_remove s id e (SentErr Cancelled)).
Qed.

Lemma configure_quiescent cfg s s' r :
  Inv s → quiescent s → configure cfg s = Some (s', r) → quiescent s'.
Proof.
  intros HI Hq. rewrite configure_cases. destruct (validate cfg); [|by intros [= <- <-]].
  intros (s0 & Hp & [= <- <-])%bind_Some. eapply pump_quiescent; [|done].
  by apply inv_evict, inv_configured.
Qed.

Lemma reserve_quiescent req s : quiescent s → quiescent (reserve req s).1.
Proof.
  intros Hq. unfold reserve. destruct (reserve_refusal req s); [done|].
  apply (quiescent_frame s); [done|done|]. simpl. intros i x Hi Hx.
  map_cases; [done|done].
Qed.

Lemma exec_quiescent op s s' :
  Inv s → room s → quiescent s → exec op s = Some s' → quiescent s'.
Proof.
  intros HI [_ Hq] Hqs He. destruct op; simpl in He.
  - injection He as <-. by apply reserve_quiescent.
  - apply fmap_Some in He as ([s1 r] & Hb & ->). by eapply begin_wait_quiescent.
  - apply fmap_Some in He as ([s1 r] & Hb & ->). unfold finish_acquire in Hb.
    destruct ev; simplify_eq; try done. revert Hb. case_match; [|by intros [= <- <-]].
    intros (s2 & Ha & [= <- <-])%bind_Some. by eapply abandon_quiescent.
  - by eapply abandon_quiescent.
  - apply fmap_Some in He as ([s1 r] & Hb & ->).
    apply bind_Some in Hb as ([s2 r2] & Hp & Hb).
    destruct (park_ok id s HI Hq) as (s4 & r4 & Hp4 & HI4 & _).
    rewrite Hp in Hp4. injection Hp4 as <- <-.
    apply park_quiescent in Hp; [|done..].
    destruct r2; [by simplify_eq|]. apply bind_Some in Hb as (s5 & Ha & [= <- <-]).
    by eapply abandon_quiescent.
  - apply fmap_Some in He as ([s1 r] & Hb & ->). by eapply cancel_quiescent.
  - apply fmap_Some in He as ([s1 r] & Hb & ->). by eapply configure_quiescent.
Qed.

(** ** Parked residency *)

Definition residency_ok (s : State) : Prop :=
  count_if (has_state Parked) (entries s) ≤ max_parked_residency (settings s).

Lemma micro_residency o s s' : Inv s → micro o s s' → residency_ok s → residency_ok s'.
Proof.
  intros HI Hm Hr. unfold residency_ok in *.
  destruct Hm as [s s' Hc|s c _ _|s req [Hroom _] Href|s id e _ Hid _|s sq id e Hadm
    |s id e ev _ Hid|s id e _ _ _ _ _|s id e _ Hid Hst|s cfg _].
  - by rewrite (sc_entries _ _ Hc), (sc_settings _ _ Hc).
  - done.
  - rewrite (reserve_entries _ _ Href).
    assert (settings (reserve req s).1 = settings s) as -> by (unfold reserve; by rewrite Href).
    rewrite count_if_insert_new; [|].
    + simpl. lia.
    + destruct (entries s !! next_id s) eqn:E; [|done].
      apply (fresh_ids _ _ _ (inv_fresh s HI)) in E. lia.
  - simpl. etransitivity; [|exact Hr]. by eapply count_parked_insert.
  - simpl. etransitivity; [|exact Hr]. eapply count_parked_insert; [apply Hadm|done].
  - simpl. rewrite remove_entries.
    assert (settings (remove id s).2 = settings s) as ->
      by (unfold remove; rewrite Hid; simpl; by repeat case_match).
    pose proof (count_if_delete (has_state Parked) (entries s) id e Hid). lia.
  - rewrite evict_count. rewrite (sf_settings _ _ (evict_frame _)). lia.
  - simpl. etransitivity; [|exact Hr]. eapply count_parked_insert; [done|]. simpl. congruence.
  - rewrite evict_count. rewrite (sf_settings _ _ (evict_frame _)). lia.
Qed.

(** ** Permit stability *)

(** The entry of a permit holder is left exactly as it was. *)
Lemma micro_stable o s s' id e :
  Inv s → micro o s s' → o ≠ Some id →
  entries s !! id = Some e → e_state e = Active → entries s' !! id = Some e.
Proof.
  intros HI Hm Ho Hid Hst.
  destruct Hm as [s s' Hc|s c _ _|s req [Hroom _] Href|s i x _ Hi [_ Hx]|s sq i x (Hi & Hx & _)
    |s i x ev Hi _|s i x Hi _ _ _ _|s i x Hi _ _|s cfg _].
  - by rewrite (sc_entries _ _ Hc).
  - done.
  - rewrite (reserve_entries _ _ Href). rewrite lookup_insert_ne; [done|].
    intros <-. apply (fresh_ids _ _ _ (inv_fresh s HI)) in Hid. lia.
  - simpl. rewrite lookup_insert_ne; [done|]. intros <-. congruence.
  - simpl in *. rewrite lookup_insert_ne; [done|]. intros <-. congruence.
  - simpl. rewrite remove_entries, lookup_delete_ne; [done|congruence].
  - destruct (evict_entries (parked_state i x s) id e) as [?|[? _]]; [|done|congruence].
    simpl. rewrite lookup_insert_ne; [done|congruence].
  - simpl. rewrite lookup_insert_ne; [done|congruence].
  - destruct (evict_entries (configured cfg s) id e) as [?|[? _]]; [done|done|congruence].
Qed.

(** ** Wake-ups *)

(** The channel [c] has delivered, or some pending ticket will wake it. *)
Definition accounted (c : N) (s : State) : Prop :=
  c ∈ (chan_log s).*1 ∨
  ∃ id e, entries s !! id = Some e ∧ e_state e = Pending ∧ e_waiter e = Some c.

Lemma accounted_frame c s s' :
  accounted c s → (∀ x, x ∈ (chan_log s).*1 → x ∈ (chan_log s').*1) →
  (∀ id e, entries s !! id = Some e → e_state e = Pending →
     (∃ e', entries s' !! id = Some e' ∧ e_state e' = Pending ∧ e_waiter e' = e_waiter e)
     ∨ (∀ x, e_waiter e = Some x → x ∈ (chan_log s').*1)) →
  accounted c s'.
Proof.
  intros [Hl|(id & e & Hid & Hst & Hw)] Hlog He; [left; auto|].
  destruct (He id e Hid Hst) as [(e' & Hid' & Hst' & Hw')|Hdone].
  - right. exists id, e'. by rewrite Hw'.
  - left. auto.
Qed.

Lemma micro_accounted o s s' c : Inv s → micro o s s' → accounted c s → accounted c s'.
Proof.
  intros HI Hm Ha. eapply accounted_frame; [done|..].
  - intros x Hx. destruct Hm as [s s' Hc| |s req _ Href|?|?|s id e ev _ Hid|s id e _ _ _ _ _| |s cfg _];
      simpl; rewrite ?fmap_app; rewrite ?elem_of_app; auto.
    + by rewrite (sc_log _ _ Hc).
    + unfold reserve. by rewrite Href.
    + left. unfold remove. rewrite Hid. simpl. by repeat case_match.
    + by unfold evict_parked_over_residency; case_match.
    + by unfold evict_parked_over_residency; case_match.
  - intros id e Hid Hst.
    destruct Hm as [s s' Hc|s c' _ _|s req [Hroom _] Href|s i x _ Hi [Hx _]|s sq i x (Hi & Hx & _)
      |s i x ev _ Hi|s i x _ _ Hi Hx _|s i x _ Hi Hx|s cfg _].
    + left. rewrite (sc_entries _ _ Hc). eauto.
    + left. eauto.
    + left. exists e. rewrite (reserve_entries _ _ Href). rewrite lookup_insert_ne; [done|].
      intros <-. apply (fresh_ids _ _ _ (inv_fresh s HI)) in Hid. lia.
    + left. exists e. simpl. rewrite lookup_insert_ne; [done|]. intros <-. congruence.
    + simpl in *. destruct (decide (i = id)) as [->|Hne].
      * right. intros y Hy. simplify_eq. rewrite fmap_app, elem_of_app, Hy. right. by left.
      * left. exists e. by rewrite lookup_insert_ne.
    + simpl. destruct (decide (i = id)) as [->|Hne].
      * right. intros y Hy. simplify_eq. rewrite fmap_app, elem_of_app, Hy. right. by left.
      * left. exists e. by rewrite remove_entries, lookup_delete_ne.
    + left. exists e. destruct (evict_entries (parked_state i x s) id e) as [?|[? _]];
        [|done|congruence]. simpl. rewrite lookup_insert_ne; [done|]. intros <-. congruence.
    + left. simpl. exists e. rewrite lookup_insert_ne; [done|]. intros <-. congruence.
    + left. exists e. destruct (evict_entries (configured cfg s) id e) as [?|[? _]];
        [done|done|congruence].
Qed.

(** ** Rounds of the pump *)

(** A round that took its turn by urgency rather than by fair share. *)
Definition preempting_round (s s' : State) : Prop :=
  pump_step s = PumpContinue s' ∧ priority_burst s' ≠ 0.

Lemma preempting_round_burst s s' :
  preempting_round s s' →
  priority_burst s < max_priority_burst (settings s)
  ∧ settings s' = settings s ∧ (max_priority_burst (settings s) ≤ u64_max →
      priority_burst s' = priority_burst s + 1).
Proof.
  unfold preempting_round, pump_step. intros [Hstep Hb].
  destruct (rotate_to_lane _ _ _ _) as [[[tr|] rs] credit]; [|done].
  set (s0 := upd_rotation _ _ _ s) in *. set (ft := _ <=? _) in *.
  destruct (build_lanes s !! tr ≫= natural_slot s0 ft) as [nat|]; [|done].
  destruct (preemption s0 ft (build_lanes s) nat) as [[r [sq id]]|] eqn:Hpre; simpl in Hstep.
  - apply preemption_Some in Hpre as (_ & Hlt & _).
    destruct (entries s !! id); [|done]. injection Hstep as <-. simpl in *.
    split_and!; [done|done|]. intros Hmax. unfold sat_add. lia.
  - destruct nat as [sq id]. destruct (entries s !! id); [|done]. injection Hstep as <-.
    simpl in Hb. done.
Qed.

(** Consecutive admission rounds of which [n] in a row preempted; between two
    rounds other operations may run, as long as they keep the burst counter and
    its bound. *)
Inductive preempting_rounds : nat → State → State → Prop :=
  | rounds_nil s : preempting_rounds 0 s s
  | rounds_idle n s s1 s' :
      priority_burst s1 = priority_burst s →
      max_priority_burst (settings s1) = max_priority_burst (settings s) →
      preempting_rounds n s1 s' → preempting_rounds n s s'
  | rounds_cons n s s1 s' :
      preempting_round s s1 → preempting_rounds n s1 s' → preempting_rounds (S n) s s'.

(** ** Theorems *)

(** C1. No sequence of client operations, in any interleaving, makes the
    scheduler panic or leave its invariant (counters equal to the number of
    permit holders, indices equal to the entries, unique ages, one delivery per
    channel), as long as its 64-bit counters do not wrap. *)
Theorem scheduler_never_panics cfg ops :
  Nlen ops < u64_max → ∃ s, run ops (new cfg) = Some s ∧ Inv s.
Proof.
  intros Hlen. destruct (run_ok ops (new cfg)) as (s & Hrun & HI & _);
    [apply inv_new|simpl; lia..|by exists s].
Qed.

Lemma scheduler_never_panics_witness :
  Nlen sample_ops < u64_max ∧ ∃ s, run sample_ops (new default_settings) = Some s ∧ Inv s.
Proof.
  split; [by vm_compute|]. apply (scheduler_never_panics default_settings sample_ops).
  by vm_compute.
Defined.

(** C2. Refinement: every operation on a reachable state is a finite sequence of
    steps of the abstract machine, whose only guarded step grants a permit to a
    pending ticket when engine, project and root all have room. *)
Theorem scheduler_refines_spec cfg ops op s :
  Nlen ops + 1 < u64_max → run ops (new cfg) = Some s →
  ∃ s', exec op s = Some s' ∧ rtc (astep (settings s')) (abs s) (abs s').
Proof.
  intros Hlen Hrun. destruct (run_reach cfg ops s Hlen Hrun) as [HI Hroom].
  destruct (exec_ok op s HI Hroom) as (s' & He & _). exists s'. split; [done|].
  by apply (exec_refines op).
Qed.

Lemma scheduler_refines_spec_witness :
  Nlen sample_ops + 1 < u64_max ∧ run sample_ops (new default_settings) = Some sample_state
  ∧ ∃ s', exec (OpCancel 2) sample_state = Some s'
          ∧ rtc (astep (settings s')) (abs sample_state) (abs s').
Proof.
  split; [by vm_compute|]. split; [by vm_compute|].
  apply (scheduler_refines_spec default_settings sample_ops); by vm_compute.
Defined.

(** No overcommitment: after any operation on a reachable state, the number
    of permit holders in the engine, in a project and under a root exceeds the
    cap now in force only as far as it already did. *)
Lemma scheduler_never_overcommits cfg ops op s s' g cap :
  Nlen ops + 1 < u64_max → run ops (new cfg) = Some s → exec op s = Some s' →
  level (settings s') g cap →
  cnt g (entries s') ≤ N.max (cnt g (entries s)) cap.
Proof.
  intros Hlen Hrun He Hl. destruct (run_reach cfg ops s Hlen Hrun) as [HI Hroom].
  by eapply exec_level.
Qed.

Lemma scheduler_never_overcommits_witness :
  let s' := default sample_state (exec (OpBeginWait 1) sample_state) in
  Nlen sample_ops + 1 < u64_max ∧ run sample_ops (new default_settings) = Some sample_state
  ∧ exec (OpBeginWait 1) sample_state = Some s'
  ∧ cnt everywhere (entries s') ≤ N.max (cnt everywhere (entries sample_state)) 32.
Proof.
  intros s'. split; [by vm_compute|]. split; [by vm_compute|]. split; [by vm_compute|].
  apply (scheduler_never_overcommits default_settings sample_ops (OpBeginWait 1));
    [by vm_compute..|].
  replace 32 with (max_active_engine (settings s')) by by vm_compute. constructor.
Defined.

(** C3. Under settings that never change, the holders of permits never exceed the
    engine, project and root caps. *)
Theorem scheduler_respects_caps cfg ops s g cap :
  Nlen ops + 1 < u64_max → (∀ c, OpConfigure c ∉ ops) → run ops (new cfg) = Some s →
  level cfg g cap → cnt g (entries s) ≤ cap.
Proof.
  intros Hlen Hno Hrun Hl.
  apply (run_induction (λ s, settings s = cfg ∧ cnt g (entries s) ≤ cap) cfg ops s) in Hrun
    as [_ ?]; [done|..|done].
  - split; [done|]. simpl. unfold cnt. rewrite count_if_empty. lia.
  - intros op s0 s1 Hin HI Hroom [Hset Hle] He.
    assert (settings s1 = settings s0) as Hset1.
    { eapply exec_settings; eauto. intros c ->. by apply (Hno c). }
    split; [congruence|].
    rewrite <- Hset, <- Hset1 in Hl. pose proof (exec_level _ _ _ _ _ HI Hroom He Hl). lia.
Qed.

Lemma scheduler_respects_caps_witness :
  run sample_ops (new default_settings) = Some sample_state
  ∧ cnt (in_root (root (WorkScope_single "r1"))) (entries sample_state) ≤ 16.
Proof.
  split; [by vm_compute|].
  apply (scheduler_respects_caps default_settings sample_ops);
    [by vm_compute|intros c Hc; unfold sample_ops in Hc; set_solver|by vm_compute|].
  apply (level_root default_settings).
Defined.

(** C4. Work conservation: in every reachable state no pending ticket fits under
    the caps, so no release, cancellation or reconfiguration loses a wake-up. *)
Theorem scheduler_work_conserving cfg ops s :
  Nlen ops + 1 < u64_max → run ops (new cfg) = Some s →
  ∀ id e, entries s !! id = Some e → e_state e = Pending → fits s e = false.
Proof.
  intros Hlen Hrun. apply (run_induction quiescent) in Hrun as Hq; [|..|done].
  - intros id e Hid Hst. apply not_true_is_false. intros Hf.
    by apply (Hq (e_seq e, id) e).
  - intros slot e [Hid _]. simpl in Hid. by rewrite lookup_empty in Hid.
  - intros op s0 s1 _. apply exec_quiescent.
Qed.

Lemma scheduler_work_conserving_witness :
  let s := default (new default_settings) (run crowded_ops (new default_settings)) in
  (∃ e, entries s !! 17 = Some e ∧ e_state e = Pending)
  ∧ ∀ id e, entries s !! id = Some e → e_state e = Pending → fits s e = false.
Proof.
  intros s. split; [eexists; split; by vm_compute|].
  apply (scheduler_work_conserving default_settings crowded_ops); by vm_compute.
Defined.

(** Residency: parked runs never exceed [max_parked_residency]; parking and
    reconfiguring checkpoint the surplus. *)
Lemma scheduler_bounds_residency cfg ops s :
  Nlen ops + 1 < u64_max → run ops (new cfg) = Some s →
  count_if (has_state Parked) (entries s) ≤ max_parked_residency (settings s).
Proof.
  intros Hlen Hrun. apply (run_induction residency_ok cfg ops); [|..|done|done].
  - unfold residency_ok. simpl. rewrite count_if_empty. lia.
  - intros op s0 s1 _ HI Hroom Hres He.
    by apply (exec_micro_ind residency_ok op s0 s1 (micro_residency _)).
Qed.

Lemma scheduler_bounds_residency_witness :
  run sample_ops (new default_settings) = Some sample_state
  ∧ count_if (has_state Parked) (entries sample_state)
    ≤ max_parked_residency (settings sample_state).
Proof.
  split; [by vm_compute|].
  apply (scheduler_bounds_residency default_settings sample_ops); by vm_compute.
Defined.

(** Eviction is not cancellation and picks the runs parked longest: every
    ticket is still tracked with its run, scope, age and class; only parked ones
    change, to [Evicted]; exactly the surplus goes; and no survivor was parked
    before a victim. *)
Lemma eviction_checkpoints_the_oldest s :
  let s' := evict_parked_over_residency s in
  (∀ id, is_Some (entries s' !! id) ↔ is_Some (entries s !! id))
  ∧ (∀ id e, entries s !! id = Some e →
       entries s' !! id = Some e ∨
       (e_state e = Parked ∧ entries s' !! id = Some (evict_entry e)
        ∧ ∀ id2 e2, entries s' !! id2 = Some e2 → e_state e2 = Parked →
            e_parked_seq e ≤ e_parked_seq e2))
  ∧ count_if (has_state Parked) (entries s')
    = N.min (count_if (has_state Parked) (entries s)) (max_parked_residency (settings s)).
Proof.
  split_and!; [apply evict_dom|apply evict_oldest|apply evict_count].
Qed.

(** A permit holder is never disturbed: an operation that does not name its
    ticket (in particular a reconfiguration, an urgent arrival or an eviction)
    leaves its entry exactly as it was. *)
Lemma permits_are_stable cfg ops op s s' id e :
  Nlen ops + 1 < u64_max → run ops (new cfg) = Some s → exec op s = Some s' →
  op_ticket op ≠ Some id → entries s !! id = Some e → e_state e = Active →
  entries s' !! id = Some e.
Proof.
  intros Hlen Hrun He Hop Hid Hst. destruct (run_reach cfg ops s Hlen Hrun) as [HI Hroom].
  apply (exec_micro_ind (λ s, entries s !! id = Some e) op s s'); [|done..].
  intros s0 s1 HI0 Hm Hid0. by eapply micro_stable.
Qed.

Lemma permits_are_stable_witness :
  let s' := default sample_state (exec (OpBeginWait 1) sample_state) in
  (e_state <$> entries sample_state !! 2) = Some Active
  ∧ (entries s' !! 2) = (entries sample_state !! 2).
Proof.
  intros s'. assert (Hst : (e_state <$> entries sample_state !! 2) = Some Active) by by vm_compute.
  split; [exact Hst|].
  destruct (entries sample_state !! 2) as [e|] eqn:He; [|discriminate].
  apply (permits_are_stable default_settings sample_ops (OpBeginWait 1) sample_state s' 2 e);
    [by vm_compute|by vm_compute|by vm_compute|done|exact He|].
  by injection Hst.
Defined.

(** No lost wake-up: the channel handed to a waiter has, whatever is done
    next, either delivered or a pending ticket that will wake it; and no channel
    ever delivers twice. *)
Lemma waiters_are_accounted cfg ops id s s1 c ops' s2 :
  Nlen ops + Nlen ops' + 1 < u64_max →
  run ops (new cfg) = Some s → begin_wait id s = Some (s1, Ok c) →
  run ops' s1 = Some s2 →
  accounted c s2 ∧ NoDup (chan_log s2).*1.
Proof.
  intros Hlen Hrun Hb Hrun'.
  destruct (run_ok ops (new cfg)) as (s0 & Hrun0 & HI & Hi & Hq); [apply inv_new|simpl; lia..|].
  rewrite Hrun in Hrun0. injection Hrun0 as <-. simpl in Hi, Hq.
  destruct (begin_wait_ok id s HI) as (s0 & r & Hb0 & HI1 & Hi1 & Hq1); [lia|].
  rewrite Hb in Hb0. injection Hb0 as <- <-.
  assert (accounted c s1) as Ha.
  { rewrite begin_wait_cases in Hb. destruct (entries s !! id) as [e|] eqn:Hid; [|done].
    assert (resting e → (s0 ← pump (enqueued id e s); Some (s0, Ok (E:=AdmissionError) (next_seq s)))
      = Some (s1, Ok c) → accounted c s1) as Hwait.
    { intros Hrest (s0 & Hp & [= <- <-])%bind_Some.
      assert (Inv (enqueued id e s)) as HI0 by (apply inv_enqueued; [done|lia|done|done]).
      pose proof (pump_steps None _ _ HI0 Hp) as Hsteps.
      assert (accounted (next_seq s) (enqueued id e s)) as H0.
      { right. eexists id, _. simpl. by rewrite lookup_insert_eq. }
      clear -Hsteps H0. induction Hsteps as [|a b d [HIa Hm] _ IH]; [done|].
      apply IH. by eapply micro_accounted. }
    destruct (e_state e) eqn:Hst; try (apply Hwait; [split; congruence|done]).
    injection Hb as <- <-. left. simpl. rewrite fmap_app, elem_of_app. right. by left. }
  destruct (run_from (accounted c) ops' s1 s2) as [Ha2 HI2]; [done|lia..| |done|done|].
  - intros op a b _ HIa Hroom Hacc He. eapply exec_micro_ind; [|done..].
    intros a' b' HIa' Hm. by eapply micro_accounted.
  - split; [done|]. apply (chan_nodup _ _ _ (inv_chan s2 HI2)).
Qed.

Lemma waiters_are_accounted_witness :
  let s := default (new default_settings)
             (run [OpReserve (sample_request "a" "r1" Normal)] (new default_settings)) in
  match begin_wait 1 s with
  | Some (s1, Ok c) => accounted c s1 ∧ NoDup (chan_log s1).*1
  | _ => False
  end.
Proof.
  intros s. destruct (begin_wait 1 s) as [[s1 [c|err]]|] eqn:Hb; [|by vm_compute in Hb..].
  apply (waiters_are_accounted default_settings [OpReserve (sample_request "a" "r1" Normal)]
    1 s s1 c []); [by vm_compute|by vm_compute|exact Hb|done].
Defined.

(** Bounded urgency: at most [max_priority_burst] consecutive admissions
    preempt, so every class keeps one fair-share opportunity in every
    [max_priority_burst + 1]. *)
Lemma urgency_is_bounded n s s' :
  max_priority_burst (settings s) ≤ u64_max → preempting_rounds n s s' →
  N.of_nat n ≤ max_priority_burst (settings s).
Proof.
  intros Hmax Hr.
  enough (n = O ∨ priority_burst s + N.of_nat n ≤ max_priority_burst (settings s)) by lia.
  induction Hr as [s|n s s1 s' Hp Hm _ IH|n s s1 s' Hround _ IH]; [by left|..].
  - rewrite <- Hp, <- Hm in *. auto.
  - right. apply preempting_round_burst in Hround as (Hlt & Hset & Hb).
    specialize (Hb Hmax). rewrite Hset in IH. specialize (IH Hmax). lia.
Qed.

(** Two pending tickets under different roots, the younger one urgent. *)
Definition contended_ops : list Op := [
  OpReserve (sample_request "a" "r1" Normal); OpReserve (sample_request "b" "r2" UserBlocking)].
Definition contended_state : State :=
  let s := default (new default_settings) (run contended_ops (new default_settings)) in
  match entries s !! 1, entries s !! 2 with
  | Some e1, Some e2 => enqueued 2 e2 (enqueued 1 e1 s)
  | _, _ => s
  end.

Lemma urgency_is_bounded_witness :
  match pump_step contended_state with
  | PumpContinue s' => preempting_rounds 1 contended_state s' ∧ N.of_nat 1 ≤ 4
  | _ => False
  end.
Proof.
  destruct (pump_step contended_state) as [s'|s'|] eqn:Hs; [by vm_compute in Hs| |by vm_compute in Hs].
  assert (Hr : preempting_rounds 1 contended_state s').
  { eapply rounds_cons; [|apply rounds_nil]. split; [exact Hs|].
    assert (match pump_step contended_state with
            | PumpContinue x => priority_burst x | _ => 0 end = 1) as H by by vm_compute.
    rewrite Hs in H. by rewrite H. }
  split; [exact Hr|]. apply (urgency_is_bounded 1 contended_state s'); [by vm_compute|exact Hr].
Defined.
