(* ===== verification/SchedulerTurns.v ===== *)
(** * Who is admitted next, and what cancellation does

    The ordering policy of [Scheduler.pump_step] stated over admissible tickets
    (no lanes), and the cancellation protocol of tickets and permits. *)

From stdpp Require Import gmap strings list sorting.
From S2P Require Import Prelude RustStr Identity Settings Scheduler SchedulerInv SchedulerSpec SchedulerSteps SchedulerProps.
Local Open Scope N_scope.

(** ** The policy *)

(** [tr] is the first root of the rotation with an admissible ticket. *)
Definition turn_root (s : State) (tr : CheckoutKey) : Prop :=
  ∃ l1 l2, roots s = l1 ++ tr :: l2
    ∧ (∀ slot e, admissible s slot e → root (e_scope e) ∉ l1)
    ∧ ∃ slot e, admissible s slot e ∧ root (e_scope e) = tr.

(** After [max_resume_burst] aged resumes the root serves in order of readiness. *)
Definition resume_fairness (s : State) (tr : CheckoutKey) : Prop :=
  max_resume_burst (settings s) ≤ default 0 (resume_burst s !! tr).

(** The ticket the fair share serves: the oldest of the turn's root, or on a
    resume-fairness turn the one ready longest. *)
Definition fair_choice (s : State) (tr : CheckoutKey) (slot : N * TicketId) (e : Entry) : Prop :=
  admissible s slot e ∧ root (e_scope e) = tr
  ∧ ∀ slot' e', admissible s slot' e' → root (e_scope e') = tr →
      (resume_fairness s tr → e_ready_seq e ≤ e_ready_seq e')
      ∧ (¬ resume_fairness s tr → slot.1 ≤ slot'.1).

(** Urgency may take the turn. *)
Definition may_preempt (s : State) (tr : CheckoutKey) : Prop :=
  ¬ resume_fairness s tr ∧ priority_burst s < max_priority_burst (settings s).

Definition more_urgent (e e' : Entry) : Prop := rlt (e_priority e) (e_priority e').

(** The most urgent admissible ticket, the oldest of its class. *)
Definition urgent_choice (s : State) (slot : N * TicketId) (e : Entry) : Prop :=
  admissible s slot e ∧
  ∀ slot' e', admissible s slot' e' → rle (e_priority e, slot.1) (e_priority e', slot'.1).

Definition granted (e : Entry) : Entry :=
  entry_with e Active (e_ready_seq e) (e_parked_seq e) (e_park_count e) (e_evict_count e)
    (e_cancel_requested e) None.

Lemma rotate_to_lane_first lanes n l k credit tr rs' credit' :
  rotate_to_lane n lanes (l ++ k) credit = (Some tr, rs', credit') →
  (n = length l)%nat →
  ∃ l1 l2, l = l1 ++ tr :: l2 ∧ (∀ r, r ∈ l1 → lanes !! r = None) ∧ is_Some (lanes !! tr).
Proof.
  intros Hrot ->. revert k credit Hrot. induction l as [|x l IH]; intros k credit; simpl; [done|].
  case_decide as Hd.
  - intros [= -> _ _]. exists [], l. split_and!; [done|by intros r Hr%elem_of_nil|done].
  - rewrite <- app_assoc. intros (l1 & l2 & -> & Hno & Hs)%IH.
    exists (x :: l1), l2. split_and!; [done| |done].
    intros r [->|Hr]%elem_of_cons; [by apply eq_None_not_Some|auto].
Qed.

Lemma lane_sorted s r lane :
  build_lanes s !! r = Some lane → StronglySorted (key_le id) lane.
Proof.
  rewrite build_lanes_lookup. intros [<- _]%nonempty_Some.
  assert (∀ l : list (N * TicketId), StronglySorted (key_le id) l →
    StronglySorted (key_le id) (filter (λ slot, lane_slot s r slot = true) l)) as Hf.
  { induction l as [|x l IH]; intros Hs; [constructor|].
    apply StronglySorted_cons in Hs as [Hx Hs]. rewrite filter_cons. case_decide; [|auto].
    apply StronglySorted_cons. split; [|auto].
    rewrite Forall_forall in *. intros y [_ Hy]%list_elem_of_filter. auto. }
  apply Hf, sort_by_key_sorted.
Qed.

Lemma slot_ready_admissible s slot e : admissible s slot e → slot_ready_seq s slot = e_ready_seq e.
Proof. intros [Hid _]. unfold slot_ready_seq. by rewrite Hid. Qed.
Lemma slot_priority_admissible s slot e : admissible s slot e → slot_priority s slot = e_priority e.
Proof. intros [Hid _]. unfold slot_priority. by rewrite Hid. Qed.

Lemma rle_pair_fst (a b : N) (c d : N) : rle (a, c) (b, d) → a ≤ b.
Proof.
  unfold rle. rewrite rcmp_pair. unfold then_cmp.
  destruct (rcmp a b) eqn:E; [|intros _|done].
  - apply rcmp_eq in E as ->. done.
  - by apply N.lt_le_incl, N.compare_lt_iff.
Qed.

Lemma natural_fair s tr lane natural :
  Inv s → build_lanes s !! tr = Some lane →
  natural_slot s (max_resume_burst (settings s) <=? default 0 (resume_burst s !! tr)) lane
    = Some natural →
  ∃ e, fair_choice s tr natural e.
Proof.
  intros HI Hl Hnat. pose proof (natural_slot_elem _ _ _ _ Hnat) as Hin.
  destruct (lane_admissible s tr lane natural HI Hl Hin) as (e & Hadm & Hr).
  exists e. split_and!; [done|done|]. intros slot' e' Hadm' Hr'.
  destruct (admissible_lane s slot' e' HI Hadm') as (lane' & Hl' & Hin').
  rewrite Hr', Hl in Hl'. injection Hl' as <-.
  unfold natural_slot, resume_fairness in *.
  destruct (N.leb_spec (max_resume_burst (settings s)) (default 0 (resume_burst s !! tr)));
    (split; [|]); try lia.
  - intros _. apply min_by_key_Some in Hnat as [_ Hmin]. specialize (Hmin _ Hin').
    rewrite (slot_ready_admissible _ _ _ Hadm), (slot_ready_admissible _ _ _ Hadm') in Hmin.
    by apply rle_N.
  - intros _. apply lane_sorted in Hl. destruct lane as [|x lane]; [done|].
    injection Hnat as ->. apply StronglySorted_cons in Hl as [Hx _].
    apply elem_of_cons in Hin' as [->|Hin']; [done|].
    rewrite Forall_forall in Hx. specialize (Hx _ Hin'). unfold key_le in Hx. simpl in Hx.
    destruct natural, slot'. by apply rle_pair_fst in Hx.
Qed.

(** The preemption test, over admissible tickets. *)
Lemma preemption_urgent s tr natural en pre :
  Inv s → fair_choice s tr natural en →
  preemption s (max_resume_burst (settings s) <=? default 0 (resume_burst s !! tr))
    (build_lanes s) natural = pre →
  match pre with
  | Some (_, slot) => ∃ e, urgent_choice s slot e ∧ more_urgent e en ∧ may_preempt s tr
  | None => may_preempt s tr → ∀ slot e, admissible s slot e → ¬ more_urgent e en
  end.
Proof.
  intros HI (Hadm & _) Hpre. destruct pre as [[r slot]|].
  - apply preemption_Some in Hpre as (Hft & Hb & (lane & Hl & Hin) & Hlt & Hmin).
    destruct (lane_admissible s r lane slot HI Hl Hin) as (e & He & _).
    exists e. rewrite (slot_priority_admissible _ _ _ He), (slot_priority_admissible _ _ _ Hadm) in Hlt.
    split_and!; [|done|].
    + split; [done|]. intros slot' e' He'.
      destruct (admissible_lane s slot' e' HI He') as (lane' & Hl' & Hin').
      specialize (Hmin _ _ _ Hl' Hin').
      by rewrite (slot_priority_admissible _ _ _ He), (slot_priority_admissible _ _ _ He') in Hmin.
    + apply N.leb_gt in Hft. unfold may_preempt, resume_fairness. lia.
  - intros [Hft Hb] slot e He Hlt. unfold resume_fairness in Hft.
    destruct (admissible_lane s slot e HI He) as (lane & Hl & Hin).
    unfold preemption in Hpre. revert Hpre.
    destruct (N.leb_spec (max_resume_burst (settings s)) (default 0 (resume_burst s !! tr))); [lia|].
    destruct (N.leb_spec (max_priority_burst (settings s)) (priority_burst s)); [lia|]. simpl.
    destruct (min_by_key _ _) as [[r1 slot1]|] eqn:Hm; simpl.
    + apply min_by_key_Some in Hm as [_ Hmin].
      specialize (Hmin (root (e_scope e), slot) ltac:(apply elem_of_all_slots; eauto)). simpl in Hmin.
      case_decide as Hd; [done|]. apply not_rlt in Hd. exfalso.
      rewrite (slot_priority_admissible _ _ _ He) in Hmin.
      rewrite (slot_priority_admissible _ _ _ Hadm) in Hd.
      assert (rle (slot_priority s slot1) (e_priority e)) as Hle.
      { unfold rle in Hmin |- *. rewrite rcmp_pair in Hmin. unfold then_cmp in Hmin.
        destruct (rcmp (slot_priority s slot1) (e_priority e)); done. }
      apply (rlt_irrefl (e_priority en)). apply not_rle. intros H1. unfold more_urgent in Hlt.
      apply not_rle in Hlt. apply Hlt. by transitivity (slot_priority s slot1).
    + apply min_by_key_None in Hm. exfalso.
      assert ((root (e_scope e), slot) ∈ ([] : list (CheckoutKey * (N * TicketId)))) as Hbad
        by (rewrite <- Hm; apply elem_of_all_slots; eauto).
      by apply elem_of_nil in Hbad.
Qed.

(** The rotation bookkeeping of a round does not touch what the policy reads. *)
Lemma fair_choice_frame s l rs c tr slot e :
  fair_choice (upd_rotation l rs c s) tr slot e ↔ fair_choice s tr slot e.
Proof. done. Qed.

Lemma turn_of_rotation s tr rs credit :
  Inv s →
  rotate_to_lane (length (roots s)) (build_lanes s) (roots s) (root_credit s)
    = (Some tr, rs, credit) → turn_root s tr.
Proof.
  intros HI Hrot.
  assert (∃ l1 l2, roots s = l1 ++ tr :: l2 ∧ (∀ r, r ∈ l1 → build_lanes s !! r = None)
                   ∧ is_Some (build_lanes s !! tr)) as (l1 & l2 & Hroots & Hno & [lane Hlane]).
  { eapply (rotate_to_lane_first _ _ (roots s) []); [|done]. by rewrite app_nil_r. }
  exists l1, l2. split_and!; [done| |].
  - intros slot e Hadm Hin. destruct (admissible_lane s slot e HI Hadm) as (lane' & Hl' & _).
    rewrite (Hno _ Hin) in Hl'. done.
  - pose proof Hlane as Hl. rewrite build_lanes_lookup in Hl.
    apply nonempty_Some in Hl as [Heq Hne]. destruct lane as [|slot lane]; [done|].
    destruct (lane_admissible s tr (slot :: lane) slot HI Hlane) as (e & Ha & Hr); [by left|eauto].
Qed.

(** C5. Who is admitted: a round of the pump grants exactly one admissible
    ticket.  It is the fair share of the turn's root (its oldest ticket, or the
    one ready longest on a resume-fairness turn), and then nothing strictly more
    urgent may take the turn; or it is the most urgent ticket of the engine,
    strictly more urgent than the fair share and inside the urgency bound.  Every
    other entry is untouched. *)
Theorem pump_admits_by_policy s s' :
  Inv s → pump_step s = PumpContinue s' →
  ∃ tr natural en slot e,
    turn_root s tr ∧ fair_choice s tr natural en ∧ admissible s slot e
    ∧ entries s' = <[slot.2 := granted e]> (entries s)
    ∧ ((slot = natural ∧ priority_burst s' = 0
        ∧ (may_preempt s tr → ∀ slot' e', admissible s slot' e' → ¬ more_urgent e' en))
       ∨ (urgent_choice s slot e ∧ more_urgent e en ∧ may_preempt s tr)).
Proof.
  intros HI. unfold pump_step.
  destruct (rotate_to_lane _ _ _ _) as [[[tr|] rs] credit] eqn:Hrot; [|done].
  set (s0 := upd_rotation (last_root s) rs credit s). set (ft := _ <=? _).
  destruct (build_lanes s !! tr ≫= natural_slot s0 ft) as [natural|] eqn:Hn; [|done].
  apply bind_Some in Hn as (lane & Hlane & Hn).
  destruct (natural_fair s tr lane natural HI Hlane Hn) as (en & Hfair).
  pose proof (turn_of_rotation s tr rs credit HI Hrot) as Htr.
  pose proof (preemption_urgent s tr natural en _ HI Hfair eq_refl) as Hpre.
  change (preemption s _ _ _) with (preemption s0 ft (build_lanes s) natural) in Hpre.
  destruct (preemption s0 ft (build_lanes s) natural) as [[r [sq id]]|]; simpl.
  - destruct Hpre as (e & Hu & Hm & Hmay). pose proof (proj1 (proj1 Hu)) as He. simpl in He.
    rewrite He. intros [= <-]. exists tr, natural, en, (sq, id), e.
    split_and!; [done..|apply Hu|done|by right].
  - destruct natural as [sq id]. pose proof (proj1 (proj1 Hfair)) as He. simpl in He.
    rewrite He. intros [= <-]. exists tr, (sq, id), en, (sq, id), en.
    split_and!; [done..|apply Hfair|done|by left].
Qed.

Lemma inv_contended_state : Inv contended_state.
Proof.
  assert (Hall : (λ s, (e_state <$> entries s !! 1, e_state <$> entries s !! 2, next_seq s)) <$>
    run contended_ops (new default_settings) = Some (Some Reserved, Some Reserved, 3)) by by vm_compute.
  unfold contended_state.
  destruct (run contended_ops (new default_settings)) as [s|] eqn:Hrun; [|discriminate].
  simpl default.
  destruct (run_reach default_settings contended_ops s ltac:(by vm_compute) Hrun) as [HI [_ Hq]].
  destruct (entries s !! 1) as [e1|] eqn:H1; [|done].
  destruct (entries s !! 2) as [e2|] eqn:H2; [|done].
  assert (e_state e1 = Reserved ∧ e_state e2 = Reserved ∧ next_seq s = 3) as (Hr1 & Hr2 & Hn)
    by (simpl in Hall; rewrite H1, H2 in Hall; by injection Hall).
  apply inv_enqueued.
  - apply inv_enqueued; [done|done|done|]. split; congruence.
  - unfold enqueued, bump_seq. simpl. rewrite Hn. by vm_compute.
  - unfold enqueued. simpl. by rewrite lookup_insert_ne.
  - split; congruence.
Qed.

Lemma pump_admits_by_policy_witness :
  match pump_step contended_state with
  | PumpContinue s' => Inv contended_state ∧ e_state <$> entries s' !! 2 = Some Active
      ∧ ∃ tr natural en slot e,
        turn_root contended_state tr ∧ fair_choice contended_state tr natural en
        ∧ admissible contended_state slot e
        ∧ entries s' = <[slot.2 := granted e]> (entries contended_state)
        ∧ ((slot = natural ∧ priority_burst s' = 0
            ∧ (may_preempt contended_state tr →
               ∀ slot' e', admissible contended_state slot' e' → ¬ more_urgent e' en))
           ∨ (urgent_choice contended_state slot e ∧ more_urgent e en
              ∧ may_preempt contended_state tr))
  | _ => False
  end.
Proof.
  assert (Ha : match pump_step contended_state with
          | PumpContinue s' => e_state <$> entries s' !! 2 | _ => None end = Some Active)
    by by vm_compute.
  destruct (pump_step contended_state) as [s'|s'|] eqn:Hs; [discriminate| |discriminate].
  split; [exact inv_contended_state|]. split; [exact Ha|].
  exact (pump_admits_by_policy contended_state s' inv_contended_state Hs).
Defined.

(** ** Cancellation *)

(** A pump neither re-creates a ticket nor forgets a delivery. *)
Lemma pumped_keeps s s' :
  pumped s s' →
  by_run s' = by_run s ∧ (∀ id, entries s !! id = None → entries s' !! id = None)
  ∧ (∀ x, x ∈ chan_log s → x ∈ chan_log s').
Proof.
  induction 1 as [s s' Hc|s sq id e s1 s2 Hadm Hc _ (IHr & IHe & IHl)].
  - rewrite (sc_entries _ _ Hc), (sc_log _ _ Hc), (proj1 (sc_index _ _ Hc)). done.
  - split_and!.
    + rewrite IHr. simpl. apply (sc_index _ _ Hc).
    + intros i Hi. apply IHe. simpl. rewrite (sc_entries _ _ Hc).
      rewrite lookup_insert_ne; [done|]. intros <-. destruct Hadm as [Hid _]. simpl in Hid. congruence.
    + intros x Hx. apply IHl. simpl. rewrite (sc_log _ _ Hc), elem_of_app. by left.
Qed.

Lemma remove_by_run id e s :
  entries s !! id = Some e → by_run (remove id s).2 = delete (e_run e) (by_run s).
Proof. intros Hid. unfold remove. rewrite Hid. simpl. by repeat case_match. Qed.

(** The ticket is forgotten: its run may be reserved again. *)
Definition forgotten (id : TicketId) (r : RunKey) (s : State) : Prop :=
  entries s !! id = None ∧ by_run s !! r = None.

Lemma remove_pump_forgets id e ev s :
  Inv s → entries s !! id = Some e →
  ∃ s', pump (log_chan (e_waiter e) ev (remove id s).2) = Some s' ∧ Inv s'
        ∧ forgotten id (e_run e) s' ∧ ∀ c, e_waiter e = Some c → (c, ev) ∈ chan_log s'.
Proof.
  intros HI Hid. destruct (inv_remove s id e ev HI Hid) as [_ HI1].
  destruct (pump_spec _ HI1) as (s' & Hp & Hrun & HI' & _). exists s'.
  apply pumped_keeps in Hrun as (Hr & He & Hl). split_and!; [done|done| |].
  - split.
    + apply He. simpl. by rewrite remove_entries, lookup_delete_eq.
    + rewrite Hr. simpl. by rewrite (remove_by_run _ _ _ Hid), lookup_delete_eq.
  - intros c Hc. apply Hl. simpl. rewrite Hc, elem_of_app. right. by left.
Qed.

Lemma abandon_forgets id e s :
  Inv s → entries s !! id = Some e →
  ∃ s', abandon id s = Some s' ∧ Inv s' ∧ forgotten id (e_run e) s'.
Proof.
  intros HI Hid. destruct (remove_pump_forgets id e SenderDropped s HI Hid) as (s' & Hp & HI' & Hf & _).
  exists s'. split_and!; [|done..]. unfold abandon.
  pose proof (inv_remove s id e SenderDropped HI Hid) as [Hr _].
  destruct (remove id s) as [o s1]. simpl in *. by subst.
Qed.

(** Cancelling a permit holder is a request it cannot miss: the holder keeps
    its permit and its counters, a second cancellation is a no-op, and the next
    thing the holder does (picking the permit up, or parking it) fails with
    [Cancelled] and releases the ticket. *)
Lemma cancel_reaches_holder s id e :
  Inv s → next_seq s < u64_max →
  entries s !! id = Some e → e_state e = Active → e_cancel_requested e = false →
  ∃ s1, cancel id s = Some (s1, true)
    ∧ entries s1 = <[id := mark_cancel e]> (entries s) ∧ active_total s1 = active_total s
    ∧ cancel id s1 = Some (s1, false)
    ∧ (∃ s2, finish_acquire id SentOk s1 = Some (s2, Err Cancelled) ∧ forgotten id (e_run e) s2)
    ∧ (∃ s2, permit_park id s1 = Some (s2, Err Cancelled) ∧ forgotten id (e_run e) s2).
Proof.
  intros HI Hq Hid Hst Hc.
  assert (has_state Active e = true) as Ha by by apply has_state_true.
  set (s1 := upd_entries (<[id := mark_cancel e]> (entries s)) s).
  assert (cancel id s = Some (s1, true)) as Hcancel by (unfold cancel; by rewrite Hid, Ha, Hc).
  assert (entries s1 !! id = Some (mark_cancel e)) as Hid1 by (simpl; by rewrite lookup_insert_eq).
  assert (Inv s1) as HI1.
  { destruct (cancel_ok id s HI) as (s' & r & Heq & HI1 & _). rewrite Hcancel in Heq.
    by injection Heq as <- <-. }
  exists s1. split_and!; [done|done|done| | |].
  - unfold cancel. rewrite Hid1. change (has_state Active (mark_cancel e)) with (has_state Active e).
    by rewrite Ha.
  - destruct (abandon_forgets id _ s1 HI1 Hid1) as (s2 & Hab & _ & Hf). exists s2. split; [|done].
    unfold finish_acquire. rewrite Hid1. simpl. by rewrite Hab.
  - assert (park id s1 = Some (bump_seq s1, Err Cancelled)) as Hpark.
    { unfold park. change (entries (bump_seq s1)) with (entries s1). rewrite Hid1.
      change (has_state Active (mark_cancel e)) with (has_state Active e). by rewrite Ha. }
    destruct (inv_bump s1 HI1 Hq) as [HI2 _].
    destruct (abandon_forgets id _ (bump_seq s1) HI2 Hid1) as (s2 & Hab & _ & Hf).
    exists s2. split; [|done]. unfold permit_park, release. rewrite Hpark. simpl. by rewrite Hab.
Qed.

Lemma cancel_reaches_holder_witness :
  match entries sample_state !! 2 with
  | Some e => e_state e = Active ∧ ∃ s1, cancel 2 sample_state = Some (s1, true)
      ∧ entries s1 = <[2 := mark_cancel e]> (entries sample_state)
      ∧ active_total s1 = active_total sample_state ∧ cancel 2 s1 = Some (s1, false)
      ∧ (∃ s2, finish_acquire 2 SentOk s1 = Some (s2, Err Cancelled) ∧ forgotten 2 (e_run e) s2)
      ∧ (∃ s2, permit_park 2 s1 = Some (s2, Err Cancelled) ∧ forgotten 2 (e_run e) s2)
  | None => False
  end.
Proof.
  destruct (run_reach default_settings sample_ops sample_state ltac:(by vm_compute)
    ltac:(by vm_compute)) as [HI [_ Hq]].
  assert (Hst : (λ e, (e_state e, e_cancel_requested e)) <$> entries sample_state !! 2
                = Some (Active, false)) by by vm_compute.
  destruct (entries sample_state !! 2) as [e|] eqn:He; [|discriminate].
  injection Hst as Hst Hcr. split; [exact Hst|].
  exact (cancel_reaches_holder sample_state 2 e HI Hq He Hst Hcr).
Defined.

(** Cancelling a ticket that holds no permit (reserved, waiting, parked or
    checkpointed) withdraws it at once: its run is free again, and a caller
    blocked on it is told [Cancelled]. *)
Lemma cancel_withdraws_waiter s id e :
  Inv s → entries s !! id = Some e → e_state e ≠ Active →
  ∃ s1, cancel id s = Some (s1, true) ∧ forgotten id (e_run e) s1
    ∧ cancel id s1 = Some (s1, false)
    ∧ ∀ c, e_waiter e = Some c → (c, SentErr Cancelled) ∈ chan_log s1.
Proof.
  intros HI Hid Hst.
  destruct (remove_pump_forgets id e (SentErr Cancelled) s HI Hid) as (s1 & Hp & _ & Hf & Hl).
  assert (has_state Active e = false) as Ha.
  { apply not_true_is_false. by rewrite has_state_true. }
  exists s1. split_and!; [|done| |done].
  - unfold cancel. rewrite Hid, Ha. by rewrite Hp.
  - unfold cancel. by rewrite (proj1 Hf).
Qed.

Lemma cancel_withdraws_waiter_witness :
  match entries contended_state !! 1 with
  | Some e => e_state e = Pending ∧ e_waiter e = Some 3
      ∧ ∃ s1, cancel 1 contended_state = Some (s1, true) ∧ forgotten 1 (e_run e) s1
          ∧ cancel 1 s1 = Some (s1, false)
          ∧ ∀ c, e_waiter e = Some c → (c, SentErr Cancelled) ∈ chan_log s1
  | None => False
  end.
Proof.
  assert (Hst : (λ e, (e_state e, e_waiter e)) <$> entries contended_state !! 1
                = Some (Pending, Some 3)) by by vm_compute.
  destruct (entries contended_state !! 1) as [e|] eqn:He; [|discriminate].
  injection Hst as Hst Hw. split; [exact Hst|]. split; [exact Hw|].
  apply (cancel_withdraws_waiter contended_state 1 e inv_contended_state He).
  rewrite Hst. discriminate.
Defined.

(** ** Progress *)

(** No operation installs settings that validation refuses. *)
Lemma micro_settings_valid o s s' :
  micro o s s' → validate (settings s) = Ok () → validate (settings s') = Ok ().
Proof.
  intros Hm Hv. destruct Hm as [s s' Hc|s c _ _|s req _ Href|s id e _ _ _|s sq id e _
    |s id e ev _ Hid|s id e _ _ _ _ _|s id e _ _ _|s cfg Hcfg]; simpl; try done.
  - by rewrite (sc_settings _ _ Hc).
  - unfold reserve. by rewrite Href.
  - unfold remove. rewrite Hid. simpl. by repeat case_match.
  - by rewrite (sf_settings _ _ (evict_frame _)).
  - by rewrite (sf_settings _ _ (evict_frame _)).
Qed.

Lemma fits_false_level s e :
  Inv s → fits s e = false →
  ∃ g cap, level (settings s) g cap ∧ g (e_scope e) = true ∧ cap ≤ cnt g (entries s).
Proof.
  intros HI. destruct (inv_acc s HI) as [Ht Hp Hr]. unfold fits. rewrite Ht, Hp, Hr, !default_opt_count.
  destruct (N.leb_spec (max_active_engine (settings s)) (cnt everywhere (entries s))).
  { intros _. exists everywhere, (max_active_engine (settings s)). by split; [constructor|]. }
  destruct (N.leb_spec (max_active_project (settings s))
              (cnt (in_project (project (e_scope e))) (entries s))).
  { intros _. eexists _, _. split; [apply level_project|]. split; [|done].
    by apply bool_decide_eq_true. }
  intros Hlt%N.ltb_ge. eexists _, _. split; [apply level_root|]. split; [|done].
  by apply bool_decide_eq_true.
Qed.

(** Progress: under valid settings a ticket waits only for permits that are
    really held.  Some level (engine, its project or its root) is at its cap, that
    cap is at least one, and a run of that level holds a permit; so an engine
    with no permit holder has no waiting ticket. *)
Lemma waiting_has_a_holder cfg ops s id e :
  validate cfg = Ok () → Nlen ops + 1 < u64_max → run ops (new cfg) = Some s →
  entries s !! id = Some e → e_state e = Pending →
  ∃ g cap id' e', level (settings s) g cap ∧ g (e_scope e) = true
    ∧ 1 ≤ cap ≤ cnt g (entries s)
    ∧ entries s !! id' = Some e' ∧ e_state e' = Active ∧ g (e_scope e') = true.
Proof.
  intros Hcfg Hlen Hrun Hid Hst.
  apply (run_induction (λ s, quiescent s ∧ validate (settings s) = Ok ()) cfg ops) in Hrun as Hq;
    [..|done].
  2: { split; [|done]. intros slot x [Hx _]. simpl in Hx. by rewrite lookup_empty in Hx. }
  2: { intros op s0 s1 _ HI Hroom [Hq Hv] He. split; [by eapply exec_quiescent|].
       apply (exec_micro_ind (λ s, validate (settings s) = Ok ()) op s0 s1); [|done..].
       intros s2 s3 _. apply micro_settings_valid. }
  destruct Hq as [Hq Hv]. destruct (run_reach cfg ops s Hlen Hrun) as [HI _].
  assert (fits s e = false) as Hf.
  { apply not_true_is_false. intros Hf. by apply (Hq (e_seq e, id) e). }
  destruct (fits_false_level s e HI Hf) as (g & cap & Hl & Hg & Hle).
  pose proof (validated_rules _ Hv) as Hb. assert (1 ≤ cap) as H1.
  { destruct (sb_root _ Hb), (sb_project _ Hb). destruct Hl; lia. }
  assert (1 ≤ cnt g (entries s)) as Hpos by lia.
  apply count_if_ex in Hpos as (id' & e' & Hid' & Hh).
  apply andb_true_iff in Hh as [Ha Hg']. apply has_state_true in Ha.
  by exists g, cap, id', e'.
Qed.

Lemma waiting_has_a_holder_witness :
  let s := default (new default_settings) (run crowded_ops (new default_settings)) in
  e_state <$> entries s !! 17 = Some Pending
  ∧ ∃ g cap id' e', level (settings s) g cap
      ∧ (∀ e, entries s !! 17 = Some e → g (e_scope e) = true)
      ∧ 1 ≤ cap ≤ cnt g (entries s)
      ∧ entries s !! id' = Some e' ∧ e_state e' = Active ∧ g (e_scope e') = true.
Proof.
  intros s. assert (Hst : e_state <$> entries s !! 17 = Some Pending) by by vm_compute.
  split; [exact Hst|].
  destruct (entries s !! 17) as [e|] eqn:He; [|discriminate]. injection Hst as Hst.
  destruct (waiting_has_a_holder default_settings crowded_ops s 17 e)
    as (g & cap & id' & e' & Hl & Hg & Hcap & Hid' & Ha & Hg');
    [by vm_compute|by vm_compute|by vm_compute|exact He|exact Hst|].
  exists g, cap, id', e'. split_and!; [exact Hl| |apply Hcap|apply Hcap|exact Hid'|exact Ha|exact Hg'].
  intros e0 [= <-]. exact Hg.
Defined.
