(* ===== verification/WaitGraph.v ===== *)
(** * The wait-for graph and its cycle detector

    [refact-work-core/src/waitgraph.rs].  [build] turns the declared waits into
    the edges that really block, [detect] searches them depth first for a cycle,
    [detect_stable] confirms a finding with a second capture, and the registry
    holds the waits of the runs that are blocked now. *)

From stdpp Require Import gmap strings list pretty sorting.
From S2P Require Import Prelude RustStr Identity Settings.
Local Open Scope N_scope.

(** ** Data *)

Inductive WaitKind := WChild | WAgentWait | WQuestion | WApproval | WCapacity.
#[global] Instance WaitKind_eq_dec : EqDecision WaitKind.
Proof. solve_decision. Defined.

Definition WaitKind_as_str (k : WaitKind) : string :=
  match k with
  | WChild => "child" | WAgentWait => "agent_wait" | WQuestion => "question"
  | WApproval => "approval" | WCapacity => "capacity"
  end.

Definition is_advisory (k : WaitKind) : bool := bool_decide (k = WCapacity).

Inductive WaitTarget := TRun (r : RunKey) | TUser | TProcess (id : string) | TTimer.
#[global] Instance WaitTarget_eq_dec : EqDecision WaitTarget.
Proof. solve_decision. Defined.

(** [WaitTarget::run]. *)
Definition target_run (t : WaitTarget) : option RunKey :=
  match t with TRun r => Some r | _ => None end.
Definition is_external (t : WaitTarget) : bool :=
  match t with TRun _ => false | _ => true end.
Definition display_WaitTarget (t : WaitTarget) : string :=
  match t with
  | TRun r => display_RunKey r
  | TUser => "user"
  | TProcess id => "process:" +:+ id
  | TTimer => "timer"
  end.

Record WaitEdge := {
  from : RunKey;
  to : WaitTarget;
  kind : WaitKind;
  group : option N;
  detail : string;
}.
#[global] Instance WaitEdge_eq_dec : EqDecision WaitEdge.
Proof. solve_decision. Defined.

Definition edge_describe (e : WaitEdge) : string :=
  display_RunKey (from e) +:+ " -> " +:+ display_WaitTarget (to e)
    +:+ " (" +:+ WaitKind_as_str (kind e) +:+ ")".

Record WaitGraphBounds := { max_nodes : N; max_edges : N; attempts : N }.
Definition default_bounds : WaitGraphBounds :=
  {| max_nodes := 4096; max_edges := 16384; attempts := 3 |}.
Definition from_settings (cfg : CoordinationSettings) : WaitGraphBounds :=
  {| max_nodes := deadlock_max_nodes cfg; max_edges := deadlock_max_edges cfg;
     attempts := deadlock_detection_attempts cfg |}.

Record RunFacts := { parked : bool; waiting_for_capacity : bool; facts_version : N }.

Record WaitNode := {
  node_run : RunKey;
  blocked : bool;
  waiting_on_external : bool;
  version : N;
}.

Record WaitGraph := {
  nodes : gmap RunKey WaitNode;
  edges : list WaitEdge;
  raw_edges : N;
  incomplete : option string;
}.

(** ** [WaitGraph::build] *)

Definition node_of (run : RunKey) (facts : RunFacts) : WaitNode :=
  {| node_run := run; blocked := parked facts || waiting_for_capacity facts;
     waiting_on_external := false; version := facts_version facts |}.

Definition collect_nodes (runs : list (RunKey * RunFacts)) : gmap RunKey WaitNode :=
  foldl (λ m p, <[p.1 := node_of p.1 p.2]> m) ∅ runs.

Definition set_blocked (b : bool) (n : WaitNode) : WaitNode :=
  {| node_run := node_run n; blocked := b; waiting_on_external := waiting_on_external n;
     version := version n |}.
Definition set_external (n : WaitNode) : WaitNode :=
  {| node_run := node_run n; blocked := blocked n; waiting_on_external := true;
     version := version n |}.

(** The first pass over the raw edges, on one edge. *)
Definition mark_edge (m : gmap RunKey WaitNode) (e : WaitEdge) : gmap RunKey WaitNode :=
  match to e with
  | TRun target =>
      if negb (is_advisory (kind e)) && bool_decide (is_Some (m !! target))
      then alter (set_blocked true) (from e) m else m
  | _ => alter set_external (from e) m
  end.

Definition unblock_external (n : WaitNode) : WaitNode :=
  if waiting_on_external n then set_blocked false n else n.

Definition target_node (m : gmap RunKey WaitNode) (e : WaitEdge) : option WaitNode :=
  target_run (to e) ≫= λ target, m !! target.

(** A group stays viable as long as every branch ends in a blocked run. *)
Definition mark_group (m : gmap RunKey WaitNode) (viable : gmap N bool) (e : WaitEdge) : gmap N bool :=
  match group e with
  | None => viable
  | Some g =>
      let progressable := match target_node m e with Some n => blocked n | None => false end in
      <[g := default true (viable !! g) && progressable]> viable
  end.

Definition keep_edge (m : gmap RunKey WaitNode) (viable : gmap N bool) (e : WaitEdge) : bool :=
  match m !! from e with
  | None => false
  | Some src =>
      if waiting_on_external src then false else
      match target_node m e with
      | None => false
      | Some target =>
          if is_advisory (kind e) && negb (blocked target) then false else
          match group e with
          | None => true
          | Some g => default false (viable !! g)
          end
      end
  end.

Definition too_large (n_nodes n_raw : N) (bounds : WaitGraphBounds) : option string :=
  if max_nodes bounds <? n_nodes then
    Some ("graph too large: " +:+ pretty n_nodes +:+ " runs exceed the configured bound of "
      +:+ pretty (max_nodes bounds) +:+ ", deadlock detection incomplete")
  else if max_edges bounds <? n_raw then
    Some ("graph too large: " +:+ pretty n_raw +:+ " wait edges exceed the configured bound of "
      +:+ pretty (max_edges bounds) +:+ ", deadlock detection incomplete")
  else None.

Definition build_nodes (runs : list (RunKey * RunFacts)) (raw : list WaitEdge)
  : gmap RunKey WaitNode :=
  unblock_external <$> foldl mark_edge (collect_nodes runs) raw.

Definition build (runs : list (RunKey * RunFacts)) (raw : list WaitEdge)
    (bounds : WaitGraphBounds) : WaitGraph :=
  let ns := build_nodes runs raw in
  let viable := foldl (mark_group ns) ∅ raw in {|
    nodes := ns;
    edges := filter (λ e, keep_edge ns viable e = true) raw;
    raw_edges := Nlen raw;
    incomplete := too_large (N.of_nat (size (collect_nodes runs))) (Nlen raw) bounds |}.

(** [WaitGraph::adjacency]: the indices of the edges that leave each run. *)
Definition adjacency (g : WaitGraph) : gmap RunKey (list nat) :=
  foldl (λ m p, <[from p.2 := default [] (m !! from p.2) ++ [p.1]]> m) ∅
    (imap pair (edges g)).

(** ** [detect] *)

Record DeadlockReport := {
  participants : list RunKey;
  cycle : list WaitEdge;
  closing_edge : WaitEdge;
  report_attempts : N;
}.
Definition involves (r : DeadlockReport) (run : RunKey) : bool :=
  bool_decide (run ∈ participants r).

Inductive Detection :=
  | NoDeadlock
  | Deadlock (r : DeadlockReport)
  | Incomplete (reason : string)
  | Inconsistent (attempts : N).

Inductive Color := Gray | Black.
#[global] Instance Color_eq_dec : EqDecision Color.
Proof. solve_decision. Defined.

Record Frame := { fr_node : RunKey; fr_next : nat; fr_incoming : option nat }.

(** The state of one search; the head of [stack] is the last element of the
    [Vec]. *)
Record Dfs := {
  color : gmap RunKey Color;
  depth : gmap RunKey nat;
  stack : list Frame;
}.

Inductive dfs_outcome :=
  | DfsDone | DfsMore (st : Dfs) | DfsFound (r : DeadlockReport) | DfsPanic.

(** The report for a closing edge to the gray run at [position] of the stack. *)
Definition dfs_report (g : WaitGraph) (frames : list Frame) (position : nat) (closing : WaitEdge)
  : dfs_outcome :=
  let vec := reverse frames in
  if (length vec <? S position)%nat then DfsPanic
  else match mapM (λ i, edges g !! i) (omap fr_incoming (drop (S position) vec)) with
       | None => DfsPanic
       | Some path => DfsFound {|
           participants := fr_node <$> drop position vec;
           cycle := path ++ [closing];
           closing_edge := closing;
           report_attempts := 1 |}
       end.

(** One turn of the [loop]. *)
Definition dfs_step (g : WaitGraph) (adj : gmap RunKey (list nat)) (st : Dfs) : dfs_outcome :=
  match stack st with
  | [] => DfsDone
  | fr :: rest =>
      let outgoing := default [] (adj !! fr_node fr) in
      if (length outgoing <=? fr_next fr)%nat then
        DfsMore {| color := <[fr_node fr := Black]> (color st);
                   depth := delete (fr_node fr) (depth st); stack := rest |}
      else
        let frames := {| fr_node := fr_node fr; fr_next := S (fr_next fr);
                         fr_incoming := fr_incoming fr |} :: rest in
        match outgoing !! fr_next fr ≫= λ i, pair i <$> edges g !! i with
        | None => DfsPanic
        | Some (i, e) =>
            match target_run (to e) with
            | None => DfsMore {| color := color st; depth := depth st; stack := frames |}
            | Some target =>
                match color st !! target with
                | Some Black => DfsMore {| color := color st; depth := depth st; stack := frames |}
                | Some Gray => dfs_report g frames (default O (depth st !! target)) e
                | None =>
                    DfsMore {|
                      color := <[target := Gray]> (color st);
                      depth := <[target := length frames]> (depth st);
                      stack := {| fr_node := target; fr_next := O; fr_incoming := Some i |} :: frames |}
                end
            end
        end
  end.

Inductive search_result := Exhausted (c : gmap RunKey Color) | Found (r : DeadlockReport).

Fixpoint dfs_loop (fuel : nat) (g : WaitGraph) (adj : gmap RunKey (list nat)) (st : Dfs)
  : option search_result :=
  match fuel with
  | O => None
  | S fuel =>
      match dfs_step g adj st with
      | DfsDone => Some (Exhausted (color st))
      | DfsMore st => dfs_loop fuel g adj st
      | DfsFound r => Some (Found r)
      | DfsPanic => None
      end
  end.

Definition dfs_start (c : gmap RunKey Color) (start : RunKey) : Dfs := {|
  color := <[start := Gray]> c; depth := {[start := O]};
  stack := [{| fr_node := start; fr_next := O; fr_incoming := None |}] |}.

(** Every turn consumes an edge or leaves a run, each at most once. *)
Definition dfs_fuel (g : WaitGraph) : nat := 2 * length (edges g) + 2.

Fixpoint detect_from (g : WaitGraph) (adj : gmap RunKey (list nat)) (starts : list RunKey)
    (c : gmap RunKey Color) : option Detection :=
  match starts with
  | [] => Some NoDeadlock
  | start :: starts =>
      if decide (is_Some (c !! start)) then detect_from g adj starts c
      else match dfs_loop (dfs_fuel g) g adj (dfs_start c start) with
           | Some (Exhausted c) => detect_from g adj starts c
           | Some (Found r) => Some (Deadlock r)
           | None => None
           end
  end.

Definition detect (g : WaitGraph) : option Detection :=
  match incomplete g with
  | Some reason => Some (Incomplete reason)
  | None => detect_from g (adjacency g) (btree_list (nodes g)).*1 ∅
  end.

(** ** [detect_stable] *)

(** The captures are a sequence; [k] have been taken before. *)
Definition same_state (before after : WaitNode) : bool :=
  (version before =? version after) && Bool.eqb (blocked before) (blocked after).

Definition stable (g verify : WaitGraph) (r : DeadlockReport) : bool :=
  forallb (λ run, match nodes g !! run, nodes verify !! run with
                  | Some before, Some after => same_state before after
                  | _, _ => false
                  end) (participants r).

Definition with_attempts (n : N) (r : DeadlockReport) : DeadlockReport := {|
  participants := participants r; cycle := cycle r; closing_edge := closing_edge r;
  report_attempts := n |}.

(** [remaining] more attempts after [done] of them; also returns the captures taken. *)
Fixpoint detect_attempts (capture : nat → WaitGraph) (remaining : nat) (done : N) (k : nat)
    (outcome : Detection) : option (Detection * nat) :=
  match remaining with
  | O => Some (outcome, k)
  | S remaining =>
      d ← detect (capture k);
      match d with
      | Deadlock r =>
          if stable (capture k) (capture (S k)) r
          then Some (Deadlock (with_attempts (done + 1) r), S (S k))
          else detect_attempts capture remaining (done + 1) (S (S k)) (Inconsistent (done + 1))
      | other => Some (other, S k)
      end
  end.

Definition detect_stable (capture : nat → WaitGraph) (max_attempts : N) : option (Detection * nat) :=
  detect_attempts capture (N.to_nat (N.max max_attempts 1)) 0 0 (Inconsistent 0).

(** ** The registry *)

Record LiveWait := {
  lw_from : RunKey;
  lw_targets : list WaitTarget;
  lw_kind : WaitKind;
  lw_detail : string;
  lw_refusal : option DeadlockReport;
}.

Record RegistryState := {
  next_group : N;
  waits : gmap N LiveWait;
  versions : gmap RunKey N;
  latest : option DeadlockReport;
}.
Definition empty_registry : RegistryState :=
  {| next_group := 0; waits := ∅; versions := ∅; latest := None |}.

(** The runs a wait involves: the waiter and the runs it waits for. *)
Definition wait_runs (w : LiveWait) : list RunKey := lw_from w :: omap target_run (lw_targets w).

Definition bump_run (m : gmap RunKey N) (run : RunKey) : gmap RunKey N :=
  <[run := default 0 (m !! run) +w 1]> m.
Definition bump (m : gmap RunKey N) (w : LiveWait) : gmap RunKey N :=
  foldl bump_run m (wait_runs w).

Definition declared_edges (m : gmap N LiveWait) : N :=
  N.of_nat (sum_list_with (λ w, length (lw_targets w)) (map_to_list m).*2).

(** [WaitRegistry::declare]; the handle is its group. *)
Definition declare (cfg : CoordinationSettings) (f : RunKey) (k : WaitKind)
    (targets : list WaitTarget) (detail : string) (s : RegistryState) : RegistryState * option N :=
  let bounds := from_settings cfg in
  if bool_decide (targets = [])
     || (max_edges bounds <? sat_add u64_max (declared_edges (waits s)) (Nlen targets))
  then (s, None)
  else
    let g := next_group s +w 1 in
    let w := {| lw_from := f; lw_targets := targets; lw_kind := k; lw_detail := detail;
                lw_refusal := None |} in
    let vs := bump (versions s) w in
    let vs :=
      if max_edges bounds *sat 4 <? N.of_nat (size vs)
      then filter (λ p, p.1 ∈ (map_to_list (waits s)).*2 ≫= wait_runs) vs
      else vs in
    ({| next_group := g; waits := <[g := w]> (waits s); versions := vs; latest := latest s |}, Some g).

Definition wait_edges (p : N * LiveWait) : list WaitEdge :=
  (λ t, {| from := lw_from p.2; to := t; kind := lw_kind p.2; group := Some p.1;
           detail := lw_detail p.2 |}) <$> lw_targets p.2.
Definition registry_edges (s : RegistryState) : list WaitEdge := btree_list (waits s) ≫= wait_edges.

Definition version_of (run : RunKey) (s : RegistryState) : N := default 0 (versions s !! run).
Definition live_waits (s : RegistryState) : N := N.of_nat (size (waits s)).

(** The live wait an edge of a report came from. *)
Definition matching_wait (s : RegistryState) (e : WaitEdge) : option (N * RunKey) :=
  g ← group e; w ← waits s !! g;
  if decide (lw_from w = from e) then Some (g, lw_from w) else None.

Fixpoint find_map {A B} (f : A → option B) (l : list A) : option B :=
  match l with
  | [] => None
  | x :: l => match f x with Some y => Some y | None => find_map f l end
  end.

Definition select_refused (s : RegistryState) (r : DeadlockReport) : option (N * RunKey) :=
  match matching_wait s (closing_edge r) with
  | Some sel => Some sel
  | None => find_map (matching_wait s) (cycle r)
  end.

Definition set_refusal (r : DeadlockReport) (w : LiveWait) : LiveWait := {|
  lw_from := lw_from w; lw_targets := lw_targets w; lw_kind := lw_kind w;
  lw_detail := lw_detail w; lw_refusal := Some r |}.

Definition refuse (r : DeadlockReport) (s : RegistryState) : RegistryState * option RunKey :=
  let sel := select_refused s r in
  ({| next_group := next_group s;
      waits := match sel with Some (g, _) => alter (set_refusal r) g (waits s) | None => waits s end;
      versions := versions s; latest := Some r |}, snd <$> sel).

(** [WaitHandle::refusal] and the handle's [drop]. *)
Definition refusal (handle : option N) (s : RegistryState) : option DeadlockReport :=
  g ← handle; w ← waits s !! g; lw_refusal w.
Definition drop_handle (handle : option N) (s : RegistryState) : RegistryState :=
  match handle with
  | None => s
  | Some g =>
      match waits s !! g with
      | None => s
      | Some w => {| next_group := next_group s; waits := delete g (waits s);
                     versions := bump (versions s) w; latest := latest s |}
      end
  end.
