(* ===== verification/WaitGraphSearch.v ===== *)
(** * The depth-first search decides acyclicity

    Paths and cycles over wait edges, the invariant of the search of
    [WaitGraph.dfs_step], its measure, and what a finished search proves. *)

From stdpp Require Import gmap strings list pretty sorting.
From S2P Require Import Prelude RustStr Identity Settings WaitGraph.

(** ** Paths *)

Inductive path (es : list WaitEdge) : RunKey → list WaitEdge → RunKey → Prop :=
  | path_nil u : path es u [] u
  | path_cons u e v p w :
      e ∈ es → from e = u → to e = TRun v → path es v p w → path es u (e :: p) w.

(** No run waits, through any chain of waits, for itself. *)
Definition acyclic (es : list WaitEdge) : Prop := ∀ u p, path es u p u → p = [].

(** A report is real: the cycle is a closed chain of waits of the graph, through
    each participant once, in order, ended by the closing edge. *)
Record real_deadlock (g : WaitGraph) (r : DeadlockReport) : Prop := {
  rd_closed : ∃ u, path (edges g) u (cycle r) u;
  rd_participants : participants r = from <$> cycle r;
  rd_nodup : NoDup (participants r);
  rd_closing : last (cycle r) = Some (closing_edge r);
}.

Lemma path_snoc es u p v e w :
  path es u p v → e ∈ es → from e = v → to e = TRun w → path es u (p ++ [e]) w.
Proof.
  induction 1 as [u|u e' v' p w' He' Hf Ht _ IH]; intros He Hfe Hte.
  - eapply path_cons; eauto. apply path_nil.
  - eapply path_cons; eauto.
Qed.

(** ** Adjacency *)

Definition out (g : WaitGraph) (u : RunKey) : list nat := default [] (adjacency g !! u).

Lemma adjacency_fold (l : list (nat * WaitEdge)) (m : gmap RunKey (list nat)) u :
  default [] (foldl (λ m p, <[from p.2 := default [] (m !! from p.2) ++ [p.1]]> m) m l !! u)
  = default [] (m !! u) ++ (filter (λ p, from p.2 = u) l).*1.
Proof.
  revert m. induction l as [|[i e] l IH]; intros m; simpl; [by rewrite app_nil_r|].
  rewrite IH, filter_cons. simpl. case_decide as Hd.
  - subst. rewrite lookup_insert_eq. simpl. by rewrite <- app_assoc.
  - by rewrite lookup_insert_ne.
Qed.

Lemma out_eq g u : out g u = (filter (λ p, from p.2 = u) (imap pair (edges g))).*1.
Proof. unfold out, adjacency. by rewrite adjacency_fold, lookup_empty. Qed.

Lemma elem_of_out g u i : i ∈ out g u ↔ ∃ e, edges g !! i = Some e ∧ from e = u.
Proof.
  rewrite out_eq, list_elem_of_fmap. split.
  - intros ([j e] & -> & [Hf Hin]%list_elem_of_filter). apply list_elem_of_lookup in Hin as [k Hk].
    rewrite list_lookup_imap in Hk. apply fmap_Some in Hk as (e' & He & [= -> ->]). eauto.
  - intros (e & He & Hf). exists (i, e). split; [done|]. apply list_elem_of_filter. split; [done|].
    apply list_elem_of_lookup. exists i. by rewrite list_lookup_imap, He.
Qed.

Lemma length_out g u : length (out g u) = length (filter (λ e, from e = u) (edges g)).
Proof.
  rewrite out_eq, length_fmap. generalize (edges g) as l. intros l.
  assert (∀ k : nat → nat, length (filter (λ p, from p.2 = u) (imap (λ i e, (k i, e)) l))
             = length (filter (λ e, from e = u) l)) as H; [|apply (H id)].
  induction l as [|e l IH]; intros k; [done|].
  rewrite imap_cons, !filter_cons. simpl. specialize (IH (k ∘ S)). unfold compose in IH.
  case_decide; simpl; by rewrite <- IH.
Qed.

(** ** The stack *)

(** Each frame was entered by an edge from the frame below it. *)
Fixpoint chain (g : WaitGraph) (fs : list Frame) : Prop :=
  match fs with
  | [] => True
  | f :: rest =>
      chain g rest ∧
      match rest with
      | [] => fr_incoming f = None
      | p :: _ => ∃ i e, fr_incoming f = Some i ∧ edges g !! i = Some e
                         ∧ from e = fr_node p ∧ to e = TRun (fr_node f)
      end
  end.

(** The edges walked from a frame to the top of the stack. *)
Lemma chain_path g l1 fr l2 top :
  chain g (l1 ++ fr :: l2) → head (l1 ++ [fr]) = Some top →
  ∃ es, mapM (λ i, edges g !! i) (omap fr_incoming (reverse l1)) = Some es
    ∧ path (edges g) (fr_node fr) es (fr_node top)
    ∧ (from <$> es) ++ [fr_node top] = fr_node <$> fr :: reverse l1.
Proof.
  revert top. induction l1 as [|f l1 IH]; intros top Hc Htop; simpl in *.
  - injection Htop as <-. exists []. split_and!; [done|apply path_nil|done].
  - injection Htop as <-. destruct Hc as [Hc Hin].
    assert (∃ below, head (l1 ++ [fr]) = Some below
      ∧ ∃ i e, fr_incoming f = Some i ∧ edges g !! i = Some e
               ∧ from e = fr_node below ∧ to e = TRun (fr_node f)) as (below & Hb & i & e & Hi & He & Hf & Ht).
    { destruct l1 as [|p l1]; simpl in *; eauto. }
    destruct (IH below Hc Hb) as (es & Hes & Hp & Hfrom). exists (es ++ [e]).
    rewrite reverse_cons, omap_app. change (omap fr_incoming [f]) with
      (match fr_incoming f with Some j => [j] | None => [] end). rewrite Hi. split_and!.
    + apply mapM_Some. apply mapM_Some in Hes. apply Forall2_app; [done|]. by repeat constructor.
    + eapply path_snoc; [done|by eapply list_elem_of_lookup_2|done|done].
    + rewrite fmap_app. simpl. rewrite Hf, Hfrom. simpl. by rewrite fmap_app.
Qed.

(** ** Finished runs *)

(** [fin] lists finished runs, latest first: a finished run waits only for runs
    finished before it. *)
Definition ordered (g : WaitGraph) (fin : list RunKey) : Prop :=
  ∀ l1 u l2 e v, fin = l1 ++ u :: l2 → e ∈ edges g → from e = u → to e = TRun v → v ∈ l2.

Lemma ordered_path g fin l1 u l2 p v :
  ordered g fin → fin = l1 ++ u :: l2 → path (edges g) u p v → p ≠ [] → v ∈ l2.
Proof.
  intros Ho Hfin Hp. revert l1 l2 Hfin.
  induction Hp as [u|u e v p w He Hf Ht Hp IH]; intros l1 l2 Hfin Hne; [done|].
  pose proof (Ho _ _ _ _ _ Hfin He Hf Ht) as Hv. destruct p as [|e' p].
  - by inversion Hp; subst.
  - apply list_elem_of_split in Hv as (k1 & k2 & ->).
    assert (w ∈ k2) as Hw; [|set_solver].
    apply (IH (l1 ++ u :: k1) k2); [|done]. rewrite Hfin. by rewrite <- app_assoc.
Qed.

Lemma ordered_acyclic g fin :
  NoDup fin → ordered g fin → (∀ e, e ∈ edges g → from e ∈ fin) → acyclic (edges g).
Proof.
  intros Hnd Ho Hall u p Hp. destruct p as [|e p]; [done|]. exfalso.
  assert (u ∈ fin) as Hu by (inversion Hp; subst; by apply Hall).
  apply list_elem_of_split in Hu as (l1 & l2 & ->).
  pose proof (ordered_path g _ l1 u l2 _ u Ho eq_refl Hp ltac:(done)) as Hin.
  apply NoDup_app in Hnd as (_ & _ & Hnd). by apply NoDup_cons in Hnd as [? _].
Qed.

(** ** The invariant of a search *)

(** The edges a frame has passed lead to finished runs or to the run above. *)
Definition explored (g : WaitGraph) (fin : list RunKey) (above : option RunKey) (fr : Frame) : Prop :=
  ∀ k i e v, k < fr_next fr → out g (fr_node fr) !! k = Some i → edges g !! i = Some e →
    to e = TRun v → v ∈ fin ∨ above = Some v.

Fixpoint all_explored (g : WaitGraph) (fin : list RunKey) (above : option RunKey)
    (fs : list Frame) : Prop :=
  match fs with
  | [] => True
  | fr :: rest => explored g fin above fr ∧ all_explored g fin (Some (fr_node fr)) rest
  end.

Record dfs_inv (g : WaitGraph) (fin : list RunKey) (st : Dfs) : Prop := {
  di_chain : chain g (stack st);
  di_nodup : NoDup (fr_node <$> stack st);
  di_gray r : color st !! r = Some Gray ↔ r ∈ fr_node <$> stack st;
  di_black r : color st !! r = Some Black ↔ r ∈ fin;
  di_depth l1 fr l2 : stack st = l1 ++ fr :: l2 → depth st !! fr_node fr = Some (length l2);
  di_explored : all_explored g fin None (stack st);
  di_ordered : ordered g fin;
  di_fin : NoDup fin;
}.

Lemma all_explored_mono g fin fin' above fs :
  (∀ v, v ∈ fin → v ∈ fin') → all_explored g fin above fs → all_explored g fin' above fs.
Proof.
  intros Hsub. revert above. induction fs as [|f fs IH]; intros above; simpl; [done|].
  intros [He Hr]. split; [|auto]. intros k i e v Hk Hi Hedge Ht.
  destruct (He k i e v Hk Hi Hedge Ht); auto.
Qed.

(** Leaving a run: it becomes the latest finished one. *)
Lemma all_explored_pop g fin u fs :
  all_explored g fin (Some u) fs → all_explored g (u :: fin) None fs.
Proof.
  destruct fs as [|f fs]; simpl; [done|]. intros [He Hr]. split.
  - intros k i e v Hk Hi Hedge Ht. left. destruct (He k i e v Hk Hi Hedge Ht) as [?|[= ->]]; set_solver.
  - eapply all_explored_mono; [|done]. set_solver.
Qed.

Definition next_frame (fr : Frame) : Frame :=
  {| fr_node := fr_node fr; fr_next := S (fr_next fr); fr_incoming := fr_incoming fr |}.

Lemma pop_inv g fin st fr rest :
  dfs_inv g fin st → stack st = fr :: rest → length (out g (fr_node fr)) ≤ fr_next fr →
  dfs_inv g (fr_node fr :: fin)
    {| color := <[fr_node fr := Black]> (color st); depth := delete (fr_node fr) (depth st);
       stack := rest |}.
Proof.
  intros [Hch Hnd Hg Hb Hd Hex Ho Hf] Hst Hlen. rewrite Hst in *. simpl in *.
  apply NoDup_cons in Hnd as [Hni Hnd]. destruct Hex as [Hfr Hex].
  assert (fr_node fr ∉ fin) as Hnf.
  { intros Hin%Hb. assert (color st !! fr_node fr = Some Gray) by (apply Hg; by left). congruence. }
  split; simpl.
  - apply Hch.
  - done.
  - intros r. destruct (decide (r = fr_node fr)) as [->|Hne].
    + rewrite lookup_insert_eq. by split; [intros [=]|].
    + rewrite lookup_insert_ne by done. rewrite Hg. set_solver.
  - intros r. destruct (decide (r = fr_node fr)) as [->|Hne].
    + rewrite lookup_insert_eq. set_solver.
    + rewrite lookup_insert_ne by done. rewrite Hb. set_solver.
  - intros l1 f l2 ->. rewrite lookup_delete_ne; [by apply (Hd (fr :: l1))|].
    intros Heq. apply Hni. rewrite fmap_app, Heq. set_solver.
  - by apply all_explored_pop.
  - intros [|u0 l1] u l2 e v; simpl.
    + intros [= <- <-] He Hfe Ht. apply list_elem_of_lookup in He as [i Hi].
      assert (i ∈ out g (fr_node fr)) as [k Hk]%list_elem_of_lookup by (apply elem_of_out; eauto).
      pose proof (lookup_lt_Some _ _ _ Hk).
      by destruct (Hfr k i e v ltac:(lia) Hk Hi Ht).
    + intros [= _ Hfin]. by apply (Ho l1 u l2 e v).
  - by apply NoDup_cons.
Qed.

(** Passing an edge that does not open a run. *)
Lemma advance_inv g fin st fr rest :
  dfs_inv g fin st → stack st = fr :: rest →
  (∀ i e v, out g (fr_node fr) !! fr_next fr = Some i → edges g !! i = Some e →
     to e = TRun v → v ∈ fin) →
  dfs_inv g fin {| color := color st; depth := depth st; stack := next_frame fr :: rest |}.
Proof.
  intros [Hch Hnd Hg Hb Hd Hex Ho Hf] Hst Hnext. rewrite Hst in *. split; simpl in *; try done.
  - intros [|f0 l1] f l2; simpl.
    + intros [= <- <-]. by apply (Hd [] fr).
    + intros [= _ ->]. by apply (Hd (fr :: l1)).
  - destruct Hex as [Hfr Hex]. split; [|done]. intros k i e v Hk Hi He Ht. simpl in *.
    destruct (decide (k = fr_next fr)) as [->|]; [left; eauto|].
    apply (Hfr k i e v); [lia|done..].
Qed.

(** Opening the run an edge leads to. *)
Lemma push_inv g fin st fr rest i e target :
  dfs_inv g fin st → stack st = fr :: rest →
  out g (fr_node fr) !! fr_next fr = Some i → edges g !! i = Some e → from e = fr_node fr →
  to e = TRun target → color st !! target = None →
  dfs_inv g fin
    {| color := <[target := Gray]> (color st);
       depth := <[target := S (length rest)]> (depth st);
       stack := {| fr_node := target; fr_next := O; fr_incoming := Some i |} :: next_frame fr :: rest |}.
Proof.
  intros [Hch Hnd Hg Hb Hd Hex Ho Hf] Hst Hi He Hfe Ht Hw. rewrite Hst in *.
  assert (target ∉ fr_node <$> fr :: rest) as Hnew.
  { intros Hin%Hg. congruence. }
  split; simpl in *.
  - split; [exact Hch|]. exists i, e. done.
  - apply NoDup_cons. done.
  - intros r. destruct (decide (r = target)) as [->|Hne].
    + rewrite lookup_insert_eq. split; [intros; by left|done].
    + rewrite lookup_insert_ne by done. rewrite Hg. set_solver.
  - intros r. destruct (decide (r = target)) as [->|Hne].
    + rewrite lookup_insert_eq. split; [done|]. intros Hin%Hb. congruence.
    + rewrite lookup_insert_ne by done. apply Hb.
  - intros l1 f l2. destruct l1 as [|f0 [|f1 l1]]; simpl.
    + intros [= <- <-]. simpl. by rewrite lookup_insert_eq.
    + intros [= <- <- <-]. simpl. rewrite lookup_insert_ne; [by apply (Hd [] fr)|set_solver].
    + intros [= <- <- ->]. rewrite lookup_insert_ne; [by apply (Hd (fr :: l1))|].
      intros ->. apply Hnew. rewrite fmap_app. set_solver.
  - destruct Hex as [Hfr Hex]. split_and!; [|..|done].
    + intros k j e' v Hk. simpl in Hk. lia.
    + intros k j e' v Hk Hj He' Ht'. simpl in *.
      destruct (decide (k = fr_next fr)) as [->|].
      * right. rewrite Hi in Hj. injection Hj as <-. rewrite He in He'. injection He' as <-.
        rewrite Ht in Ht'. congruence.
      * left. by destruct (Hfr k j e' v ltac:(lia) Hj He' Ht').
  - done.
  - done.
Qed.

(** A report does not read the positions of the frames. *)
Lemma dfs_report_next g fr rest n e :
  dfs_report g (next_frame fr :: rest) n e = dfs_report g (fr :: rest) n e.
Proof.
  unfold dfs_report. rewrite !reverse_cons, !length_app.
  assert (∀ k, omap fr_incoming (drop k (reverse rest ++ [next_frame fr]))
               = omap fr_incoming (drop k (reverse rest ++ [fr]))) as Ho.
  { intros k. by rewrite !drop_app, !omap_app; destruct (k - length (reverse rest)). }
  assert (∀ k, fr_node <$> drop k (reverse rest ++ [next_frame fr])
               = fr_node <$> drop k (reverse rest ++ [fr])) as Hn.
  { intros k. by rewrite !drop_app, !fmap_app; destruct (k - length (reverse rest)). }
  by rewrite Ho, Hn.
Qed.

(** Meeting a gray run closes a real cycle. *)
Lemma report_ok g fin st fr rest e target :
  dfs_inv g fin st → stack st = fr :: rest →
  color st !! target = Some Gray → e ∈ edges g → from e = fr_node fr → to e = TRun target →
  ∃ r, dfs_report g (next_frame fr :: rest) (default O (depth st !! target)) e = DfsFound r
       ∧ real_deadlock g r.
Proof.
  intros [Hch Hnd Hg Hb Hd Hex Ho Hf] Hst Hc He Hfe Hte.
  rewrite (dfs_report_next g fr rest).
  rewrite Hst in *. simpl in *.
  apply Hg in Hc. change (target ∈ fr_node <$> fr :: rest) in Hc.
  apply list_elem_of_fmap in Hc as (f & -> & Hin).
  apply list_elem_of_split in Hin as (l1 & l2 & Hs).
  rewrite (Hd _ _ _ Hs). simpl. unfold dfs_report.
  assert (Hrev : reverse (fr :: rest) = reverse l2 ++ f :: reverse l1)
    by (by rewrite Hs, reverse_app, reverse_cons, <- app_assoc).
  rewrite Hrev.
  destruct (Nat.ltb_spec (length (reverse l2 ++ f :: reverse l1)) (S (length l2))) as [Hlt|_].
  { rewrite length_app, length_reverse in Hlt. simpl in Hlt. lia. }
  assert (Hdrop : drop (length l2) (reverse l2 ++ f :: reverse l1) = f :: reverse l1).
  { rewrite drop_app_length'; [done|]. by rewrite length_reverse. }
  assert (Hdrop1 : drop (S (length l2)) (reverse l2 ++ f :: reverse l1) = reverse l1).
  { rewrite <- Nat.add_1_r, <- drop_drop, Hdrop. done. }
  rewrite Hdrop, Hdrop1.
  destruct (chain_path g l1 f l2 fr) as (es & Hes & Hp & Hfrom).
  { by rewrite <- Hs. }
  { destruct l1; simpl in *; congruence. }
  rewrite Hes. eexists. split; [done|]. split; simpl.
  - exists (fr_node f). by eapply path_snoc.
  - rewrite fmap_app. simpl. rewrite Hfe. symmetry. exact Hfrom.
  - change (NoDup (fr_node <$> f :: reverse l1)).
    change (NoDup (fr_node <$> fr :: rest)) in Hnd. rewrite Hs in Hnd.
    rewrite fmap_app in Hnd. apply NoDup_app in Hnd as (H1 & H2 & H3).
    simpl in *. apply NoDup_cons in H3 as [H3 _]. apply NoDup_cons. split.
    + rewrite fmap_reverse, elem_of_reverse. intros Hin. apply (H2 _ Hin). by left.
    + by rewrite fmap_reverse, reverse_Permutation.
  - by rewrite last_snoc.
Qed.

(** ** The measure *)

(** Edges that leave runs not met yet. *)
Definition unseen (g : WaitGraph) (c : gmap RunKey Color) : nat :=
  length (filter (λ e, c !! from e = None) (edges g)).

(** Edges the frames of the stack have still to pass. *)
Definition pending (g : WaitGraph) (fs : list Frame) : nat :=
  sum_list_with (λ fr, length (out g (fr_node fr)) - fr_next fr) fs.

Definition measure (g : WaitGraph) (st : Dfs) : nat :=
  2 * (unseen g (color st) + pending g (stack st)) + length (stack st).

Lemma unseen_mark g c u col :
  c !! u = None → unseen g c = unseen g (<[u := col]> c) + length (out g u).
Proof.
  intros Hu. rewrite length_out. unfold unseen. induction (edges g) as [|e l IH]; [done|].
  rewrite !filter_cons. destruct (decide (from e = u)) as [->|Hne].
  - rewrite lookup_insert_eq. rewrite !decide_True by done. rewrite decide_False by done.
    simpl. lia.
  - rewrite lookup_insert_ne by done. case_decide; simpl; lia.
Qed.

Lemma unseen_recolor g c u col : is_Some (c !! u) → unseen g (<[u := col]> c) = unseen g c.
Proof.
  intros Hu. unfold unseen. f_equal. apply list_filter_iff. intros e.
  destruct (decide (from e = u)) as [->|Hne].
  - rewrite lookup_insert_eq. destruct Hu as [x ->]. done.
  - by rewrite lookup_insert_ne.
Qed.

Lemma unseen_le g c : unseen g c ≤ length (edges g).
Proof. apply length_filter. Qed.

(** ** One turn *)

Definition dfs_next (g : WaitGraph) (st st' : Dfs) : Prop :=
  (∃ fin, dfs_inv g fin st') ∧ measure g st' < measure g st
  ∧ ∀ r, is_Some (color st !! r) → is_Some (color st' !! r).

Lemma dfs_step_ok g fin st :
  dfs_inv g fin st →
  match dfs_step g (adjacency g) st with
  | DfsDone => stack st = []
  | DfsMore st' => dfs_next g st st'
  | DfsFound r => real_deadlock g r
  | DfsPanic => False
  end.
Proof.
  intros HI. unfold dfs_step. destruct (stack st) as [|fr rest] eqn:Hst; [done|].
  change (default [] (adjacency g !! fr_node fr)) with (out g (fr_node fr)).
  destruct (Nat.leb_spec (length (out g (fr_node fr))) (fr_next fr)) as [Hle|Hlt].
  - split_and!; simpl.
    + eexists. by eapply pop_inv.
    + unfold measure. simpl. rewrite Hst. simpl. rewrite unseen_recolor; [lia|].
      exists Gray. apply (di_gray _ _ _ HI). rewrite Hst. by left.
    + intros r Hr. rewrite lookup_insert_is_Some'. auto.
  - destruct (lookup_lt_is_Some_2 _ _ Hlt) as [i Hi].
    pose proof (list_elem_of_lookup_2 _ _ _ Hi) as (e & He & Hfe)%elem_of_out.
    rewrite Hi. simpl. rewrite He. simpl. 
    change {| fr_node := fr_node fr; fr_next := S (fr_next fr); fr_incoming := fr_incoming fr |}
      with (next_frame fr).
    assert (∀ v, to e = TRun v → v ∈ fin → dfs_next g st
      {| color := color st; depth := depth st; stack := next_frame fr :: rest |}) as Hpass.
    { intros v Hv Hin. split_and!; [|unfold measure; simpl; rewrite Hst; simpl; lia|done].
      exists fin. eapply advance_inv; [done..|]. intros i' e' v' Hi' He' Hv'. congruence. }
    destruct (target_run (to e)) as [t|] eqn:Ht.
    + assert (to e = TRun t) as Hto by (destruct (to e); simpl in *; congruence).
      destruct (color st !! t) as [[]|] eqn:Hc.
      * destruct (report_ok g fin st fr rest e t) as (r & -> & Hr); [done|done|done|..|done|done|done].
        by eapply list_elem_of_lookup_2.
      * apply (Hpass t Hto). by apply (di_black _ _ _ HI).
      * split_and!; simpl.
        -- exists fin. by eapply push_inv.
        -- unfold measure. simpl. rewrite Hst. simpl.
           rewrite (unseen_mark g (color st) t Gray Hc). lia.
        -- intros r Hr. rewrite lookup_insert_is_Some'. auto.
    + split_and!; [|unfold measure; simpl; rewrite Hst; simpl; lia|done].
      exists fin. eapply advance_inv; [done..|]. intros i' e' v' Hi' He' Hv'.
      rewrite Hi in Hi'. injection Hi' as <-. rewrite He in He'. injection He' as <-.
      by rewrite Hv' in Ht.
Qed.

(** ** A whole search *)

(** Between two searches every met run is finished. *)
Definition settled (g : WaitGraph) (fin : list RunKey) (c : gmap RunKey Color) : Prop :=
  (∀ r, c !! r = Some Black ↔ r ∈ fin) ∧ (∀ r, c !! r ≠ Some Gray) ∧ ordered g fin ∧ NoDup fin.

Lemma dfs_loop_ok g fuel st fin :
  dfs_inv g fin st → measure g st < fuel →
  match dfs_loop fuel g (adjacency g) st with
  | Some (Exhausted c) => (∃ fin', settled g fin' c) ∧ ∀ r, is_Some (color st !! r) → is_Some (c !! r)
  | Some (Found r) => real_deadlock g r
  | None => False
  end.
Proof.
  revert st fin. induction fuel as [|fuel IH]; intros st fin HI Hlt; [lia|]. cbn [dfs_loop].
  pose proof (dfs_step_ok g fin st HI) as Hstep.
  destruct (dfs_step g (adjacency g) st) as [|st'|r|]; [|..|done|done].
  - destruct HI as [_ _ Hg Hb _ _ Ho Hf]. split; [|done]. exists fin. split_and!; [done|..|done|done].
    intros r Hr%Hg. rewrite Hstep in Hr. by apply elem_of_nil in Hr.
  - destruct Hstep as ([fin' HI'] & Hm & Hsub). specialize (IH st' fin' HI' ltac:(lia)).
    destruct (dfs_loop fuel g (adjacency g) st') as [[c|r]|]; [|done|done].
    destruct IH as [Hfin Hc]. split; [done|]. intros r Hr. by apply Hc, Hsub.
Qed.

Lemma dfs_start_inv g fin c start :
  settled g fin c → c !! start = None → dfs_inv g fin (dfs_start c start).
Proof.
  intros (Hb & Hng & Ho & Hf) Hs. split; simpl; [done| | | | | |done|done].
  - apply NoDup_singleton.
  - intros r. rewrite list_elem_of_singleton. destruct (decide (r = start)) as [->|Hne].
    + by rewrite lookup_insert_eq.
    + rewrite lookup_insert_ne by done. split; [intros H; by apply Hng in H|done].
  - intros r. destruct (decide (r = start)) as [->|Hne].
    + rewrite lookup_insert_eq. split; [done|]. intros Hin%Hb. congruence.
    + by rewrite lookup_insert_ne.
  - intros [|f0 [|f1 l1]] f l2; simpl; [|done|done]. intros [= <- <-]. by rewrite lookup_singleton_eq.
  - split; [|done]. intros k i e v Hk. simpl in Hk. lia.
Qed.

Lemma dfs_start_measure g c start :
  c !! start = None → measure g (dfs_start c start) < dfs_fuel g.
Proof.
  intros Hs. unfold measure, dfs_fuel. simpl.
  pose proof (unseen_mark g c start Gray Hs). pose proof (unseen_le g c). lia.
Qed.

Lemma detect_from_ok g starts fin c :
  settled g fin c →
  match detect_from g (adjacency g) starts c with
  | Some NoDeadlock => ∃ fin', NoDup fin' ∧ ordered g fin' ∧ (∀ r, is_Some (c !! r) → r ∈ fin')
                               ∧ ∀ r, r ∈ starts → r ∈ fin'
  | Some (Deadlock r) => real_deadlock g r
  | _ => False
  end.
Proof.
  revert fin c. induction starts as [|s starts IH]; intros fin c Hset.
  - simpl. exists fin. destruct Hset as (Hb & Hng & Ho & Hf).
    split_and!; [done|done| |by intros r Hr%elem_of_nil].
    intros r [[] Hr]; [by apply Hng in Hr|by apply Hb].
  - cbn [detect_from]. case_decide as Hs.
    + specialize (IH fin c Hset). destruct (detect_from g _ starts c) as [[| | |]|]; try done.
      destruct IH as (fin' & ? & ? & Hc & Hst). exists fin'. split_and!; [done..|].
      intros r [->|Hr]%elem_of_cons; auto.
    + apply eq_None_not_Some in Hs.
      pose proof (dfs_loop_ok g (dfs_fuel g) (dfs_start c s) fin
        (dfs_start_inv g fin c s Hset Hs) (dfs_start_measure g c s Hs)) as Hl.
      destruct (dfs_loop _ _ _ _) as [[c'|r]|]; [|done|done].
      destruct Hl as ([fin' Hset'] & Hc'). specialize (IH fin' c' Hset').
      destruct (detect_from g _ starts c') as [[| | |]|]; try done.
      destruct IH as (fin2 & ? & ? & Hc & Hst). exists fin2.
      assert (∀ r, is_Some (c !! r) → is_Some (c' !! r)) as Hcc.
      { intros r Hr. apply Hc'. simpl. rewrite lookup_insert_is_Some'. auto. }
      split_and!; [done..| |].
      * intros r Hr. by apply Hc, Hcc.
      * intros r [->|Hr]%elem_of_cons; [|auto]. apply Hc, Hc'. simpl.
        rewrite lookup_insert_eq. done.
Qed.

(** What each answer of [detect] means. *)
Lemma detect_ok g :
  incomplete g = None →
  match detect g with
  | Some NoDeadlock => (∀ e, e ∈ edges g → is_Some (nodes g !! from e)) → acyclic (edges g)
  | Some (Deadlock r) => real_deadlock g r
  | _ => False
  end.
Proof.
  intros Hinc. unfold detect. rewrite Hinc.
  assert (settled g [] ∅) as Hset.
  { split_and!; [|done|by intros [|? ?]|constructor]. intros r. rewrite lookup_empty. set_solver. }
  pose proof (detect_from_ok g (btree_list (nodes g)).*1 [] ∅ Hset) as H.
  destruct (detect_from _ _ _ _) as [[| | |]|]; try done.
  intros Hnodes. destruct H as (fin & Hnd & Ho & _ & Hall).
  apply (ordered_acyclic g fin Hnd Ho). intros e [n Hn]%Hnodes. apply Hall.
  apply list_elem_of_fmap. exists (from e, n). split; [done|]. by apply elem_of_btree_list.
Qed.
