(* ===== verification/WaitGraphProps.v ===== *)
(** * Properties of the wait-for graph

    Which waits become edges, what a detection result proves, when a finding is
    confirmed, and what the registry of live waits keeps. *)

From stdpp Require Import gmap strings list pretty sorting.
From S2P Require Import Prelude RustStr Identity Settings WaitGraph WaitGraphSearch.
Local Open Scope N_scope.

(** ** The nodes *)

Definition marked (b x : bool) (n : WaitNode) : WaitNode :=
  {| node_run := node_run n; blocked := blocked n || b;
     waiting_on_external := waiting_on_external n || x; version := version n |}.

(** The edge blocks its waiter: a real dependency on a known run. *)
Definition blocks (known : RunKey → bool) (e : WaitEdge) : bool :=
  match to e with TRun t => negb (is_advisory (kind e)) && known t | _ => false end.

Lemma marked_false n : marked false false n = n.
Proof. destruct n. unfold marked. simpl. by rewrite !orb_false_r. Qed.

Lemma mark_edge_lookup m known e r :
  (∀ t, bool_decide (is_Some (m !! t)) = known t) →
  mark_edge m e !! r
  = marked (bool_decide (from e = r) && blocks known e)
           (bool_decide (from e = r) && is_external (to e)) <$> m !! r.
Proof.
  intros Hk. unfold mark_edge, blocks.
  assert (∀ f b x, (∀ n, f n = marked b x n) →
    alter f (from e) m !! r
    = marked (bool_decide (from e = r) && b) (bool_decide (from e = r) && x) <$> m !! r) as Halter.
  { intros f b x Hf. destruct (decide (from e = r)) as [->|Hne].
    - rewrite lookup_alter_eq, bool_decide_true by done. simpl.
      destruct (m !! r); simpl; [by rewrite Hf|done].
    - rewrite lookup_alter_ne, bool_decide_false by done. simpl.
      destruct (m !! r); simpl; [by rewrite marked_false|done]. }
  assert (m !! r = marked (bool_decide (from e = r) && false) (bool_decide (from e = r) && false)
                     <$> m !! r) as Hid.
  { rewrite !andb_false_r. destruct (m !! r); simpl; [by rewrite marked_false|done]. }
  destruct (to e) as [t| | |]; simpl; try (apply Halter; intros []; unfold marked; simpl;
    by rewrite orb_true_r, orb_false_r).
  rewrite Hk. destruct (negb (is_advisory (kind e)) && known t); [|exact Hid].
  apply Halter. intros []. unfold marked. simpl. by rewrite orb_true_r, orb_false_r.
Qed.

Lemma mark_edge_known m e t : is_Some (mark_edge m e !! t) ↔ is_Some (m !! t).
Proof.
  rewrite (mark_edge_lookup m (λ t, bool_decide (is_Some (m !! t))) e t); [|done].
  by rewrite fmap_is_Some.
Qed.

Lemma marked_twice b x b' x' n : marked b' x' (marked b x n) = marked (b || b') (x || x') n.
Proof. unfold marked. simpl. by rewrite !orb_assoc. Qed.

Lemma mark_edges_lookup raw m known r :
  (∀ t, bool_decide (is_Some (m !! t)) = known t) →
  foldl mark_edge m raw !! r
  = marked (existsb (λ e, bool_decide (from e = r) && blocks known e) raw)
           (existsb (λ e, bool_decide (from e = r) && is_external (to e)) raw) <$> m !! r.
Proof.
  revert m. induction raw as [|e raw IH]; intros m Hk; simpl.
  - destruct (m !! r); simpl; [by rewrite marked_false|done].
  - rewrite IH.
    + rewrite (mark_edge_lookup m known) by done. rewrite <- option_fmap_compose.
      apply option_fmap_ext. intros n. unfold compose. apply marked_twice.
    + intros t. rewrite <- Hk. apply bool_decide_ext, mark_edge_known.
Qed.

Lemma collect_nodes_fold (runs : list (RunKey * RunFacts)) (m : gmap RunKey WaitNode) r :
  NoDup runs.*1 →
  (∀ f, (r, f) ∈ runs →
     foldl (λ m p, <[p.1 := node_of p.1 p.2]> m) m runs !! r = Some (node_of r f))
  ∧ (r ∉ runs.*1 → foldl (λ m p, <[p.1 := node_of p.1 p.2]> m) m runs !! r = m !! r).
Proof.
  revert m. induction runs as [|[k f] runs IH]; intros m Hnd; simpl in *.
  - split; [by intros f Hf%elem_of_nil|done].
  - apply NoDup_cons in Hnd as [Hni Hnd].
    destruct (IH (<[k := node_of k f]> m) Hnd) as [IH1 IH2]. split.
    + intros f' [[= -> ->]|Hin]%elem_of_cons; [|by apply IH1].
      rewrite IH2 by done. by rewrite lookup_insert_eq.
    + intros [Hne Hin]%not_elem_of_cons. rewrite IH2 by done. by rewrite lookup_insert_ne.
Qed.

Lemma collect_nodes_Some runs r n :
  NoDup runs.*1 → collect_nodes runs !! r = Some n ↔ ∃ f, (r, f) ∈ runs ∧ n = node_of r f.
Proof.
  intros Hnd. destruct (collect_nodes_fold runs ∅ r Hnd) as [H1 H2]. fold (collect_nodes runs) in *.
  split.
  - intros Hn. destruct (decide (r ∈ runs.*1)) as [Hin|Hin].
    + apply list_elem_of_fmap in Hin as ([r' f] & -> & Hin). exists f. split; [done|].
      rewrite (H1 f Hin) in Hn. by injection Hn.
    + rewrite (H2 Hin) in Hn. by rewrite lookup_empty in Hn.
  - intros (f & Hf & ->). by apply H1.
Qed.

(** ** What the graph means *)

Section meaning.
Context (runs : list (RunKey * RunFacts)) (raw : list WaitEdge).

(** The run waits on a human, a process or a timer. *)
Definition external_wait (r : RunKey) : Prop :=
  ∃ e, e ∈ raw ∧ from e = r ∧ is_external (to e) = true.

(** The run is tracked and cannot proceed by itself: the scheduler parked it or
    keeps it waiting for capacity, or it declared a real dependency on a tracked
    run, and nothing external may wake it. *)
Definition blocked_run (r : RunKey) : Prop :=
  r ∈ runs.*1 ∧ ¬ external_wait r ∧
  ((∃ f, (r, f) ∈ runs ∧ (parked f || waiting_for_capacity f) = true)
   ∨ ∃ e t, e ∈ raw ∧ from e = r ∧ to e = TRun t ∧ is_advisory (kind e) = false ∧ t ∈ runs.*1).

(** The declared waits that belong in the graph. *)
Definition blocking_wait (e : WaitEdge) : Prop :=
  e ∈ raw ∧ from e ∈ runs.*1 ∧ ¬ external_wait (from e)
  ∧ ∃ t, to e = TRun t ∧ t ∈ runs.*1
    ∧ (is_advisory (kind e) = true → blocked_run t)
    ∧ ∀ g e', group e = Some g → e' ∈ raw → group e' = Some g →
        ∃ t', to e' = TRun t' ∧ blocked_run t'.

Context (Hnd : NoDup runs.*1).

Lemma known_run t : bool_decide (is_Some (collect_nodes runs !! t)) = bool_decide (t ∈ runs.*1).
Proof.
  apply bool_decide_ext. split.
  - intros [n Hn]. apply collect_nodes_Some in Hn as (f & Hf & _); [|done].
    apply list_elem_of_fmap. by exists (t, f).
  - intros Hin. apply list_elem_of_fmap in Hin as ([t' f] & -> & Hf).
    exists (node_of t' f). apply collect_nodes_Some; eauto.
Qed.

Lemma build_nodes_Some r n :
  build_nodes runs raw !! r = Some n →
  r ∈ runs.*1 ∧ (waiting_on_external n = true ↔ external_wait r) ∧ (blocked n = true ↔ blocked_run r)
  ∧ ∃ f, (r, f) ∈ runs ∧ version n = facts_version f.
Proof.
  unfold build_nodes. rewrite lookup_fmap, (mark_edges_lookup raw _ _ r (known_run)).
  intros (n1 & Hn1 & ->)%fmap_Some. apply fmap_Some in Hn1 as (n0 & Hn0 & ->).
  apply collect_nodes_Some in Hn0 as (f & Hf & ->); [|done].
  assert (r ∈ runs.*1) as Hr by (apply list_elem_of_fmap; by exists (r, f)).
  assert (existsb (λ e, bool_decide (from e = r) && is_external (to e)) raw = true ↔ external_wait r) as Hx.
  { rewrite existsb_elem. unfold external_wait. apply exist_proper. intros e.
    rewrite andb_true_iff, bool_decide_eq_true. naive_solver. }
  assert (existsb (λ e, bool_decide (from e = r) && blocks (λ t, bool_decide (t ∈ runs.*1)) e) raw = true
    ↔ ∃ e t, e ∈ raw ∧ from e = r ∧ to e = TRun t ∧ is_advisory (kind e) = false ∧ t ∈ runs.*1) as Hb.
  { rewrite existsb_elem. apply exist_proper. intros e. unfold blocks.
    rewrite andb_true_iff, bool_decide_eq_true. split.
    - intros (Hin & Hfe & Hbl). destruct (to e) as [t| | |]; try done.
      apply andb_true_iff in Hbl as [Ha Ht]. apply negb_true_iff in Ha.
      apply bool_decide_eq_true in Ht. eauto 10.
    - intros (t & Hin & Hfe & -> & -> & Ht). simpl. by rewrite bool_decide_true. }
  unfold unblock_external, marked. simpl.
  destruct (existsb (λ e, bool_decide (from e = r) && is_external (to e)) raw) eqn:Hxe; simpl.
  - pose proof (proj1 Hx eq_refl) as Hext. split_and!; [done|done| |eauto].
    split; [done|]. intros (_ & Hno & _). done.
  - assert (¬ external_wait r) as Hext by (intros Hext%Hx; congruence).
    split_and!; [done|by split|..|eauto]. rewrite orb_true_iff, Hb. unfold blocked_run. split.
    + intros [Hp|He]; split_and!; eauto.
    + intros (_ & _ & [(f' & Hf' & Hp)|He]); [left|by right].
      assert (f' = f) as ->; [|done]. by apply (NoDup_fst_eq runs r).
Qed.

Lemma build_nodes_dom r : is_Some (build_nodes runs raw !! r) ↔ r ∈ runs.*1.
Proof.
  unfold build_nodes. rewrite lookup_fmap, (mark_edges_lookup raw _ _ r (known_run)).
  rewrite !fmap_is_Some. rewrite <- (bool_decide_eq_true (r ∈ _)), <- known_run.
  by rewrite bool_decide_eq_true.
Qed.

(** The branch of a group ends in a blocked run. *)
Definition progressable (ns : gmap RunKey WaitNode) (e : WaitEdge) : bool :=
  match target_node ns e with Some n => blocked n | None => false end.

Lemma progressable_blocked e :
  progressable (build_nodes runs raw) e = true ↔ ∃ t, to e = TRun t ∧ blocked_run t.
Proof.
  unfold progressable, target_node. split.
  - destruct (target_run (to e)) as [t|] eqn:Ht; [|done]. simpl.
    destruct (build_nodes runs raw !! t) as [n|] eqn:Hn; [|done]. intros Hb.
    exists t. split; [by destruct (to e); simplify_eq/=|].
    apply build_nodes_Some in Hn as (_ & _ & Hbl & _). by apply Hbl.
  - intros (t & -> & Hb). simpl.
    destruct (build_nodes runs raw !! t) as [n|] eqn:Hn.
    + apply build_nodes_Some in Hn as (_ & _ & Hbl & _). by apply Hbl.
    + exfalso. destruct Hb as [Hin _]. apply build_nodes_dom in Hin as [n' Hn']. congruence.
Qed.

Lemma viable_lookup ns (l : list WaitEdge) (m : gmap N bool) g :
  default true (foldl (mark_group ns) m l !! g)
  = default true (m !! g)
    && forallb (λ e, negb (bool_decide (group e = Some g)) || progressable ns e) l
  ∧ (is_Some (m !! g) ∨ (∃ e, e ∈ l ∧ group e = Some g) → is_Some (foldl (mark_group ns) m l !! g)).
Proof.
  revert m. induction l as [|e l IH]; intros m; simpl.
  - split; [by rewrite andb_true_r|]. intros [?|(e & He & _)]; [done|]. by apply elem_of_nil in He.
  - destruct (IH (mark_group ns m e)) as [IH1 IH2]. rewrite IH1.
    fold (progressable ns e) in *. unfold mark_group in *. fold (progressable ns e) in *.
    destruct (group e) as [g'|] eqn:Hg.
    + destruct (decide (g' = g)) as [->|Hne].
      * rewrite lookup_insert_eq in *. simpl. rewrite bool_decide_true by done. simpl.
        split; [by rewrite andb_assoc|]. intros _. apply IH2. by left.
      * rewrite lookup_insert_ne in * by done. rewrite bool_decide_false by congruence. simpl.
        split; [done|]. intros [?|(e' & [->|He']%elem_of_cons & He'')]; apply IH2; [by left|congruence|eauto].
    + rewrite bool_decide_false by done. simpl. split; [done|].
      intros [?|(e' & [->|He']%elem_of_cons & He'')]; apply IH2; [by left|congruence|eauto].
Qed.

Lemma group_viable e g :
  e ∈ raw → group e = Some g →
  default false (foldl (mark_group (build_nodes runs raw)) ∅ raw !! g) = true
  ↔ ∀ e', e' ∈ raw → group e' = Some g → ∃ t, to e' = TRun t ∧ blocked_run t.
Proof.
  intros He Hg. destruct (viable_lookup (build_nodes runs raw) raw ∅ g) as [Hv Hs].
  destruct Hs as [b Hb]; [right; eauto|]. rewrite Hb, lookup_empty in *. simpl in *. rewrite Hv.
  rewrite forallb_elem. split; intros H e' He'.
  - intros Hg'. specialize (H e' He'). rewrite bool_decide_true in H by done. simpl in H.
    by apply progressable_blocked.
  - destruct (bool_decide_reflect (group e' = Some g)) as [Hg'|]; [|done]. simpl.
    apply progressable_blocked. auto.
Qed.

Lemma keep_edge_spec e :
  e ∈ raw →
  keep_edge (build_nodes runs raw) (foldl (mark_group (build_nodes runs raw)) ∅ raw) e = true
  ↔ blocking_wait e.
Proof.
  intros He. unfold keep_edge, blocking_wait.
  destruct (build_nodes runs raw !! from e) as [src|] eqn:Hsrc.
  2: { split; [done|]. intros (_ & Hin & _). apply build_nodes_dom in Hin as [n Hn]. congruence. }
  pose proof (build_nodes_Some _ _ Hsrc) as (Hin & Hext & _ & _).
  destruct (waiting_on_external src) eqn:Hw.
  { split; [done|]. intros (_ & _ & Hno & _). exfalso. by apply Hno, Hext. }
  assert (¬ external_wait (from e)) as Hno by (intros H%Hext; congruence).
  unfold target_node. destruct (target_run (to e)) as [t|] eqn:Ht; simpl.
  2: { split; [done|]. intros (_ & _ & _ & t & Hto & _). by rewrite Hto in Ht. }
  assert (to e = TRun t) as Hto by (destruct (to e); simplify_eq/=; done).
  destruct (build_nodes runs raw !! t) as [n|] eqn:Hn.
  2: { split; [done|]. intros (_ & _ & _ & t' & Hto' & Hin' & _).
       apply build_nodes_dom in Hin' as [n' Hn']. congruence. }
  pose proof (build_nodes_Some _ _ Hn) as (Hin' & _ & Hbl & _).
  assert (blocking : (is_advisory (kind e) = true → blocked_run t) ↔
    is_advisory (kind e) && negb (blocked n) = false).
  { rewrite <- Hbl. by destruct (is_advisory (kind e)), (blocked n); simpl; intuition. }
  destruct (is_advisory (kind e) && negb (blocked n)) eqn:Ha.
  { split; [done|]. intros (_ & _ & _ & t' & Hto' & _ & Hadv & _).
    rewrite Hto in Hto'. injection Hto' as <-. apply blocking in Hadv. done. }
  assert (is_advisory (kind e) = true → blocked_run t) as Hadv by by apply blocking.
  destruct (group e) as [g|] eqn:Hg.
  - rewrite (group_viable e g He Hg). split.
    + intros Hv. split_and!; [done..|]. exists t. split_and!; [done..|].
      intros g' e' [= <-]. auto.
    + intros (_ & _ & _ & t' & _ & _ & _ & Hgr) e' He' Hg'. by apply (Hgr g).
  - split; [|done]. intros _. split_and!; [done..|]. exists t. by split_and!.
Qed.
End meaning.

(** ** Stable detection *)

Lemma build_edges_from runs raw bounds e :
  e ∈ edges (build runs raw bounds) → is_Some (nodes (build runs raw bounds) !! from e).
Proof.
  simpl. intros [Hk _]%list_elem_of_filter. unfold keep_edge in Hk.
  by destruct (build_nodes runs raw !! from e).
Qed.

Lemma detect_build runs raw bounds :
  match detect (build runs raw bounds) with
  | Some NoDeadlock => incomplete (build runs raw bounds) = None ∧ acyclic (edges (build runs raw bounds))
  | Some (Deadlock r) => incomplete (build runs raw bounds) = None ∧ real_deadlock (build runs raw bounds) r
  | Some (Incomplete reason) => incomplete (build runs raw bounds) = Some reason
  | _ => False
  end.
Proof.
  destruct (incomplete (build runs raw bounds)) as [reason|] eqn:Hinc.
  - unfold detect. by rewrite Hinc.
  - pose proof (detect_ok _ Hinc) as H. destruct (detect _) as [[]|]; try done.
    split; [done|]. apply H. apply build_edges_from.
Qed.

(** Every participant shows the same state in both captures. *)
Definition unchanged (g verify : WaitGraph) (r : DeadlockReport) : Prop :=
  ∀ run, run ∈ participants r → ∃ n n', nodes g !! run = Some n ∧ nodes verify !! run = Some n'
    ∧ version n = version n' ∧ blocked n = blocked n'.

Lemma stable_unchanged g verify r : stable g verify r = true ↔ unchanged g verify r.
Proof.
  unfold stable. rewrite forallb_elem. unfold unchanged. apply forall_proper. intros run.
  apply forall_proper. intros _. split.
  - destruct (nodes g !! run) as [n|], (nodes verify !! run) as [n'|]; try done.
    unfold same_state. rewrite andb_true_iff, N.eqb_eq, Bool.eqb_true_iff. intros [? ?]. eauto 10.
  - intros (n & n' & -> & -> & Hv & Hb). unfold same_state.
    by rewrite Hv, Hb, N.eqb_refl, Bool.eqb_reflx.
Qed.

(** The attempt [j] captured a cycle that its second capture did not confirm. *)
Definition refuted (capture : nat → WaitGraph) (j : nat) : Prop :=
  ∃ r, detect (capture (2 * j)%nat) = Some (Deadlock r)
       ∧ ¬ unchanged (capture (2 * j)%nat) (capture (2 * j + 1)%nat) r.

Definition captured (capture : nat → WaitGraph) : Prop :=
  ∀ i, ∃ runs raw bounds, capture i = build runs raw bounds.

(** The answer [d] after [k] captures out of at most [n] attempts. *)
Definition stable_answer (capture : nat → WaitGraph) (n : nat) (d : Detection) (k : nat) : Prop :=
  ∃ j, (∀ i, (i < j)%nat → refuted capture i) ∧
  match d with
  | Deadlock r => ∃ r', (j < n)%nat ∧ k = (2 * j + 2)%nat ∧ detect (capture (2 * j)%nat) = Some (Deadlock r')
      ∧ unchanged (capture (2 * j)%nat) (capture (2 * j + 1)%nat) r'
      ∧ r = with_attempts (N.of_nat j + 1) r'
  | Inconsistent m => j = n ∧ m = N.of_nat n ∧ k = (2 * n)%nat
  | other => (j < n)%nat ∧ k = (2 * j + 1)%nat ∧ detect (capture (2 * j)%nat) = Some other
  end.

Lemma detect_attempts_ok capture left j :
  captured capture → (∀ i, (i < j)%nat → refuted capture i) →
  ∃ d k, detect_attempts capture left (N.of_nat j) (2 * j) (Inconsistent (N.of_nat j)) = Some (d, k)
         ∧ stable_answer capture (j + left) d k.
Proof.
  intros Hcap. revert j. induction left as [|left IH]; intros j Hj; cbn [detect_attempts].
  - eexists _, _. split; [done|]. exists j. rewrite Nat.add_0_r. done.
  - destruct (Hcap (2 * j)%nat) as (runs & raw & bounds & Hg).
    pose proof (detect_build runs raw bounds) as Hd. rewrite <- Hg in Hd.
    destruct (detect (capture (2 * j)%nat)) as [[|r|reason|m]|] eqn:Hdet; try done;
      cbn [mbind option_bind].
    + eexists _, _. split; [done|]. exists j. split; [done|]. split_and!; [lia|lia|done].
    + destruct (stable (capture (2 * j)%nat) (capture (S (2 * j))) r) eqn:Hs.
      * eexists _, _. split; [done|]. exists j. split; [done|]. exists r.
        apply stable_unchanged in Hs. rewrite Nat.add_1_r. split_and!; [lia|lia|done..].
      * destruct (IH (S j)) as (d & k & Heq & Hans).
        { intros i Hi. destruct (decide (i = j)) as [->|]; [|apply Hj; lia].
          exists r. split; [done|]. rewrite <- stable_unchanged. rewrite Nat.add_1_r. by rewrite Hs. }
        exists d, k. split; [|by replace (j + S left)%nat with (S j + left)%nat by lia].
        rewrite Nat2N.inj_succ, <- N.add_1_r in Heq.
        by replace (2 * S j)%nat with (S (S (2 * j))) in Heq by lia.
    + eexists _, _. split; [done|]. exists j. split; [done|]. split_and!; [lia|lia|done].
Qed.

(** ** The registry *)

(** Groups are allocated in order and every wait has a target. *)
Definition registry_ok (s : RegistryState) : Prop :=
  next_group s < u64_max ∧
  ∀ g w, waits s !! g = Some w → g ≤ next_group s ∧ lw_targets w ≠ [].

Lemma bump_lookup m l r :
  default 0 (m !! r) + Nlen l ≤ u64_max →
  default 0 (foldl bump_run m l !! r)
  = default 0 (m !! r) + N.of_nat (length (filter (λ x, x = r) l)).
Proof.
  revert m. induction l as [|x l IH]; intros m Hle; simpl; [lia|].
  unfold Nlen in *. simpl in Hle. rewrite filter_cons. unfold bump_run at 2.
  rewrite IH; destruct (decide (x = r)) as [->|Hne]; simpl.
  - unfold bump_run. rewrite lookup_insert_eq. simpl. rewrite wadd64_small by lia. lia.
  - unfold bump_run. rewrite lookup_insert_ne by done. lia.
  - unfold bump_run. rewrite lookup_insert_eq. simpl. rewrite wadd64_small by lia. lia.
  - unfold bump_run. rewrite lookup_insert_ne by done. lia.
Qed.

Lemma bump_size m w : N.of_nat (size (bump m w)) ≤ N.of_nat (size m) + Nlen (wait_runs w).
Proof.
  unfold bump, Nlen. revert m. induction (wait_runs w) as [|r l IH]; intros m; simpl; [lia|].
  etransitivity; [apply IH|]. unfold bump_run. rewrite map_size_insert.
  destruct (m !! r); simpl; lia.
Qed.

Lemma elem_of_registry_edges s e :
  e ∈ registry_edges s ↔
  ∃ g w t, waits s !! g = Some w ∧ t ∈ lw_targets w
    ∧ e = {| from := lw_from w; to := t; kind := lw_kind w; group := Some g; detail := lw_detail w |}.
Proof.
  unfold registry_edges. rewrite list_elem_of_bind. split.
  - intros ([g w] & He & Hin). apply elem_of_btree_list in Hin.
    apply list_elem_of_fmap in He as (t & -> & Ht). simpl in *. eauto 10.
  - intros (g & w & t & Hw & Ht & ->). exists (g, w). split; [|by apply elem_of_btree_list].
    apply list_elem_of_fmap. eauto.
Qed.

Lemma length_registry_edges s : Nlen (registry_edges s) = declared_edges (waits s).
Proof.
  unfold registry_edges, declared_edges, Nlen. f_equal.
  assert (∀ l l' : list (N * LiveWait), l ≡ₚ l' →
    length (l ≫= wait_edges) = sum_list_with (λ w, length (lw_targets w)) l'.*2) as H.
  { intros l l' ->. induction l' as [|[g w] l' IH]; [done|].
    rewrite bind_cons, length_app, IH. unfold wait_edges. by rewrite length_fmap. }
  apply H. apply sort_by_key_perm.
Qed.

Lemma declared_edges_insert m g w :
  m !! g = None → declared_edges (<[g := w]> m) = declared_edges m + Nlen (lw_targets w).
Proof.
  intros Hg. unfold declared_edges, Nlen.
  rewrite (map_to_list_insert m g w Hg), fmap_cons. cbn [sum_list_with snd].
  rewrite Nat2N.inj_add. apply N.add_comm.
Qed.

Lemma matching_wait_Some s e g f :
  matching_wait s e = Some (g, f) ↔
  ∃ w, group e = Some g ∧ waits s !! g = Some w ∧ lw_from w = from e ∧ f = from e.
Proof.
  unfold matching_wait. destruct (group e) as [g'|]; simpl; [|naive_solver].
  destruct (waits s !! g') as [w|] eqn:Hw; simpl.
  - case_decide as Hd; split.
    + intros [= <- <-]. eauto.
    + intros (w' & [= <-] & Hw' & _ & ->). by rewrite Hd.
    + done.
    + intros (w' & [= <-] & Hw' & Hf & _). congruence.
  - split; [done|]. naive_solver.
Qed.

Lemma find_map_Some {A B} (f : A → option B) l y : find_map f l = Some y → ∃ x, x ∈ l ∧ f x = Some y.
Proof.
  induction l as [|x l IH]; simpl; [done|]. destruct (f x) as [z|] eqn:Hf.
  - intros [= ->]. exists x. split; [by left|done].
  - intros (x' & Hin & Hx)%IH. exists x'. split; [by right|done].
Qed.

Lemma find_map_None {A B} (f : A → option B) l x : find_map f l = None → x ∈ l → f x = None.
Proof.
  induction l as [|y l IH]; simpl; [by intros _ Hx%elem_of_nil|].
  destruct (f y) eqn:Hf; [done|]. intros Hn [->|Hin]%elem_of_cons; auto.
Qed.

(** ** Theorems *)

(** Three runs, of which the last two wait for each other. *)
Definition sample_wait_run (name : string) : RunKey :=
  {| work := {| runtime := BackgroundAgent; work_id := name |}; attempt := 1 |}.
Definition sample_facts : RunFacts :=
  {| parked := true; waiting_for_capacity := false; facts_version := 7 |}.
Definition sample_edge (a b : string) (g : N) : WaitEdge :=
  {| from := sample_wait_run a; to := TRun (sample_wait_run b); kind := WChild; group := Some g;
     detail := "child" |}.
Definition sample_wait_runs : list (RunKey * RunFacts) :=
  [(sample_wait_run "a", sample_facts); (sample_wait_run "b", sample_facts);
   (sample_wait_run "c", sample_facts)].
Definition sample_raw : list WaitEdge :=
  [sample_edge "a" "b" 1; sample_edge "b" "c" 2; sample_edge "c" "b" 3].
Definition sample_graph : WaitGraph := build sample_wait_runs sample_raw default_bounds.

(** The graph holds, in their order, exactly the declared waits that block: the
    waiter is tracked and waits on nothing external, the target is tracked,
    contention counts only against a blocked holder, and a wait for any of several
    runs counts only when every one of them is blocked. *)
Lemma graph_keeps_blocking_waits runs raw bounds :
  NoDup runs.*1 →
  edges (build runs raw bounds) `sublist_of` raw
  ∧ ∀ e, e ∈ edges (build runs raw bounds) ↔ blocking_wait runs raw e.
Proof.
  intros Hnd. split; [apply sublist_filter|]. intros e. simpl. rewrite list_elem_of_filter. split.
  - intros [Hk He]. by apply (keep_edge_spec runs raw Hnd e He).
  - intros Hb. pose proof (proj1 Hb) as He. split; [|done].
    by apply (keep_edge_spec runs raw Hnd e He).
Qed.

Lemma graph_keeps_blocking_waits_witness :
  length (edges sample_graph) = 3%nat
  ∧ ∀ e, e ∈ edges sample_graph ↔ blocking_wait sample_wait_runs sample_raw e.
Proof.
  split; [by vm_compute|].
  apply (graph_keeps_blocking_waits sample_wait_runs sample_raw default_bounds).
  apply (bool_decide_unpack (NoDup sample_wait_runs.*1)). by vm_compute.
Defined.

(** C6. Deadlock detection terminates and decides: on every graph that fits the
    bounds it finds a cycle of waits that really exists, or there is none; a graph
    over the bounds is reported as incomplete and never as free of deadlocks. *)
Theorem detection_decides_deadlock runs raw bounds :
  let g := build runs raw bounds in
  ∃ d, detect g = Some d ∧
  match d with
  | NoDeadlock => incomplete g = None ∧ acyclic (edges g)
  | Deadlock r => incomplete g = None ∧ real_deadlock g r
  | Incomplete reason =>
      too_large (N.of_nat (size (collect_nodes runs))) (Nlen raw) bounds = Some reason
  | Inconsistent _ => False
  end.
Proof.
  intros g. pose proof (detect_build runs raw bounds) as H. fold g in H.
  destruct (detect g) as [d|]; [|done]. exists d. split; [done|]. by destruct d.
Qed.

(** A deadlock is only reported when two captures in a row show every
    participant in the same state; otherwise detection tries again, at most
    [attempts] times (at least once) and with at most two captures each, and gives
    up as inconsistent only when every attempt was refuted. *)
Lemma stable_detection_confirms capture max_attempts :
  captured capture →
  ∃ d k, detect_stable capture max_attempts = Some (d, k)
    ∧ stable_answer capture (N.to_nat (N.max max_attempts 1)) d k.
Proof.
  intros Hcap. apply (detect_attempts_ok capture _ 0 Hcap). intros i Hi. lia.
Qed.

Lemma stable_detection_confirms_witness :
  match detect_stable (λ _, sample_graph) 3 with
  | Some (Deadlock r, k) => k = 2%nat ∧ stable_answer (λ _, sample_graph) 3 (Deadlock r) k
  | _ => False
  end.
Proof.
  assert (Hcap : captured (λ _, sample_graph)).
  { intros i. by exists sample_wait_runs, sample_raw, default_bounds. }
  destruct (stable_detection_confirms (λ _, sample_graph) 3 Hcap) as (d & k & Heq & Hans).
  assert (Hk : match detect_stable (λ _, sample_graph) 3 with
               | Some (Deadlock _, k) => k = 2%nat | _ => False end) by by vm_compute.
  rewrite Heq in Hk. rewrite Heq. destruct d as [|r|reason|m]; [destruct Hk| |destruct Hk..].
  split; [exact Hk|exact Hans].
Defined.

(** Every declaration is a transaction on the registry: it is refused without
    a trace when it has no target or would exceed the edge bound; otherwise it adds
    exactly its own edges under a fresh group, the registry stays within the bound,
    and dropping the handle takes exactly those edges away again. *)
Lemma declare_is_scoped cfg f k ts det s :
  registry_ok s → deadlock_max_edges cfg < u64_max →
  match declare cfg f k ts det s with
  | (s', None) => s' = s ∧ (ts = [] ∨ deadlock_max_edges cfg < declared_edges (waits s) + Nlen ts)
  | (s', Some g) =>
      waits s !! g = None
      ∧ (∀ e, e ∈ registry_edges s' ↔ e ∈ registry_edges s ∨
           ∃ t, t ∈ ts ∧ e = {| from := f; to := t; kind := k; group := Some g; detail := det |})
      ∧ Nlen (registry_edges s') ≤ deadlock_max_edges cfg
      ∧ waits (drop_handle (Some g) s') = waits s
  end.
Proof.
  intros [Hlt Hok] Hmax. unfold declare. simpl.
  destruct (bool_decide_reflect (ts = [])) as [->|Hne]; [simpl; auto|]. simpl.
  destruct (N.ltb_spec (deadlock_max_edges cfg) (sat_add u64_max (declared_edges (waits s)) (Nlen ts)))
    as [Hbig|Hfit]; unfold sat_add in *; [split; [done|right; lia]|].
  rewrite (wadd64_small (next_group s) 1) by lia.
  assert (waits s !! (next_group s + 1) = None) as Hnew.
  { destruct (waits s !! (next_group s + 1)) as [w|] eqn:Hw; [|done]. apply Hok in Hw as [? _]. lia. }
  split_and!; [done| | |].
  - intros e. rewrite !elem_of_registry_edges. simpl. split.
    + intros (g & w & t & Hw & Ht & ->).
      apply lookup_insert_Some in Hw as [[<- <-]|[_ Hw]]; [right|left]; eauto 10.
    + intros [(g & w & t & Hw & Ht & ->)|(t & Ht & ->)].
      * exists g, w, t. rewrite lookup_insert_ne; [done|congruence].
      * eexists (next_group s + 1), _, t. by rewrite lookup_insert_eq.
  - rewrite length_registry_edges. simpl. rewrite declared_edges_insert by done. simpl. lia.
  - unfold drop_handle. simpl. rewrite lookup_insert_eq. simpl. by rewrite delete_insert_id.
Qed.

Definition sample_registry : RegistryState :=
  (declare default_settings (sample_wait_run "a") WChild [TRun (sample_wait_run "b")] "child"
     empty_registry).1.

Lemma registry_ok_empty : registry_ok empty_registry.
Proof. split; [by vm_compute|]. intros g w. simpl. by rewrite lookup_empty. Qed.

Lemma declare_is_scoped_witness :
  match declare default_settings (sample_wait_run "a") WChild [TRun (sample_wait_run "b")] "child"
          empty_registry with
  | (s', Some g) => g = 1 ∧ Nlen (registry_edges s') ≤ 16384 ∧ waits (drop_handle (Some g) s') = ∅
  | _ => False
  end.
Proof.
  pose proof (declare_is_scoped default_settings (sample_wait_run "a") WChild
    [TRun (sample_wait_run "b")] "child" empty_registry registry_ok_empty ltac:(by vm_compute)) as H.
  assert (Hg : (declare default_settings (sample_wait_run "a") WChild [TRun (sample_wait_run "b")]
           "child" empty_registry).2 = Some 1) by by vm_compute.
  destruct (declare _ _ _ _ _ _) as [s' [g|]]; [|discriminate]. injection Hg as ->.
  destruct H as (_ & _ & Hle & Hd). split; [done|]. split; [exact Hle|exact Hd].
Defined.

(** The registry stays well formed through declarations. *)
Lemma declare_ok cfg f k ts det s :
  registry_ok s → next_group s + 1 < u64_max → registry_ok (declare cfg f k ts det s).1.
Proof.
  intros [Hlt Hok] Hroom. unfold declare. simpl.
  destruct (bool_decide_reflect (ts = [])) as [->|Hne]; [by split|]. simpl.
  destruct (_ <? _); [by split|]. simpl. rewrite (wadd64_small (next_group s) 1) by lia.
  split; [done|]. simpl. intros g w [[<- <-]|[_ Hw]]%lookup_insert_Some; [done|].
  apply Hok in Hw as [? ?]. split; [lia|done].
Qed.

(** A deadlock found among the registry's own waits is always refused: the wait
    that closed the cycle, and no other, gets the report, and its waiter is a
    participant. *)
Lemma found_deadlock_is_refused s runs bounds r :
  detect (build runs (registry_edges s) bounds) = Some (Deadlock r) →
  let f := from (closing_edge r) in
  let '(s', refused) := refuse r s in
  refused = Some f ∧ f ∈ participants r ∧ latest s' = Some r ∧ versions s' = versions s
  ∧ ∃ g w, waits s !! g = Some w ∧ lw_from w = f ∧ group (closing_edge r) = Some g
      ∧ waits s' = <[g := set_refusal r w]> (waits s) ∧ refusal (Some g) s' = Some r.
Proof.
  intros Hdet f. pose proof (detect_build runs (registry_edges s) bounds) as Hd.
  rewrite Hdet in Hd. destruct Hd as [_ [(u & Hp) Hpart _ Hlast]].
  assert (closing_edge r ∈ cycle r) as Hcl.
  { apply last_Some in Hlast as [l ->]. set_solver. }
  assert (∀ e u v p, path (edges (build runs (registry_edges s) bounds)) u p v → e ∈ p →
            e ∈ registry_edges s) as Hin.
  { intros e u' v p. induction 1 as [|u1 e1 v1 p w1 He _ _ _ IH]; [by intros ?%elem_of_nil|].
    intros [->|?]%elem_of_cons; [|auto]. simpl in He. by apply list_elem_of_filter in He as [_ ?]. }
  pose proof (Hin _ _ _ _ Hp Hcl) as (g & w & t & Hw & Ht & He)%elem_of_registry_edges.
  assert (matching_wait s (closing_edge r) = Some (g, f)) as Hm.
  { apply matching_wait_Some. exists w. unfold f. by rewrite He. }
  unfold refuse, select_refused. rewrite Hm. simpl. split_and!; [done| |done|done|].
  - rewrite Hpart. apply list_elem_of_fmap. by exists (closing_edge r).
  - exists g, w. split_and!; [done|unfold f; by rewrite He|by rewrite He| |].
    + apply map_eq. intros i. destruct (decide (i = g)) as [->|Hne].
      * by rewrite lookup_alter_eq, lookup_insert_eq, Hw.
      * by rewrite lookup_alter_ne, lookup_insert_ne.
    + unfold refusal. simpl. by rewrite lookup_alter_eq, Hw.
Qed.

(** A registry whose two waits close a cycle. *)
Definition looped_registry : RegistryState :=
  (declare default_settings (sample_wait_run "b") WChild [TRun (sample_wait_run "a")] "child"
     sample_registry).1.
Definition looped_graph : WaitGraph :=
  build sample_wait_runs (registry_edges looped_registry) default_bounds.

Lemma found_deadlock_is_refused_witness :
  match detect looped_graph with
  | Some (Deadlock r) =>
      let '(s', refused) := refuse r looped_registry in
      refused = Some (from (closing_edge r)) ∧ latest s' = Some r
  | _ => False
  end.
Proof.
  assert (Hk : match detect looped_graph with Some (Deadlock _) => true | _ => false end = true)
    by by vm_compute.
  destruct (detect looped_graph) as [[|r|reason|m]|] eqn:Hd; [discriminate Hk| |discriminate Hk..].
  pose proof (found_deadlock_is_refused looped_registry sample_wait_runs default_bounds r Hd) as H.
  destruct (refuse r looped_registry) as [s' refused]. destruct H as (H1 & _ & H2 & _).
  split; [exact H1|exact H2].
Defined.

(** A change of what a run waits for is visible to [detect_stable]: declaring
    and dropping a wait each raise the version of the waiter and of every run it
    waits for, and of no other run, as long as the version table is small enough
    not to be pruned and its counters do not wrap. *)
Lemma waits_raise_versions cfg f k ts det s s' g run :
  registry_ok s → declare cfg f k ts det s = (s', Some g) →
  N.of_nat (size (versions s)) + Nlen ts + 1 ≤ deadlock_max_edges cfg *sat 4 →
  version_of run s + 2 * (Nlen ts + 1) ≤ u64_max →
  let involved := N.of_nat (length (filter (λ r, r = run) (f :: omap target_run ts))) in
  version_of run s' = version_of run s + involved
  ∧ version_of run (drop_handle (Some g) s') = version_of run s' + involved.
Proof.
  intros [Hlt Hok] Hdec Hsize Hmax involved. revert Hdec. unfold declare.
  set (w := {| lw_from := f; lw_targets := ts; lw_kind := k; lw_detail := det; lw_refusal := None |}).
  destruct (bool_decide (ts = []) || _); [done|].
  assert (length (omap target_run ts) <= length ts)%nat as Hlen.
  { clear. induction ts as [|t ts IH]; [done|].
    change (omap target_run (t :: ts)) with
      (match target_run t with Some y => y :: omap target_run ts | None => omap target_run ts end).
    destruct (target_run t); simpl; lia. }
  assert (∀ m, default 0 (m !! run) + Nlen ts + 1 ≤ u64_max →
     default 0 (bump m w !! run) = default 0 (m !! run) + involved) as Hb.
  { intros m Hm. unfold bump. apply bump_lookup. unfold wait_runs, Nlen in *. simpl. lia. }
  assert (N.of_nat (size (bump (versions s) w)) ≤ N.of_nat (size (versions s)) + Nlen ts + 1) as Hsz.
  { etransitivity; [apply bump_size|]. unfold wait_runs, Nlen. simpl. lia. }
  destruct (N.ltb_spec (max_edges (from_settings cfg) *sat 4) (N.of_nat (size (bump (versions s) w))))
    as [Hbad|_]; [simpl in Hbad; lia|].
  intros [= <- <-]. unfold version_of in *.
  assert (involved ≤ Nlen ts + 1) as Hinv.
  { unfold involved, Nlen. pose proof (length_filter (λ r, r = run) (f :: omap target_run ts)) as Hf.
    simpl length in Hf at 2. lia. }
  split.
  - simpl. apply Hb. lia.
  - unfold drop_handle. cbn [waits]. rewrite lookup_insert_eq. cbn [versions].
    rewrite Hb; [done|]. rewrite Hb; lia.
Qed.

Lemma waits_raise_versions_witness :
  match declare default_settings (sample_wait_run "a") WChild [TRun (sample_wait_run "b")] "child"
          empty_registry with
  | (s', Some g) =>
      version_of (sample_wait_run "b") empty_registry = 0
      ∧ version_of (sample_wait_run "b") s' = 0 + 1
      ∧ version_of (sample_wait_run "b") (drop_handle (Some g) s')
        = version_of (sample_wait_run "b") s' + 1
  | _ => False
  end.
Proof.
  destruct (declare default_settings (sample_wait_run "a") WChild [TRun (sample_wait_run "b")]
              "child" empty_registry) as [s' [g|]] eqn:Hd; [|discriminate Hd].
  destruct (waits_raise_versions default_settings (sample_wait_run "a") WChild
    [TRun (sample_wait_run "b")] "child" empty_registry s' g (sample_wait_run "b")
    registry_ok_empty Hd ltac:(by vm_compute) ltac:(by vm_compute)) as [H1 H2].
  split; [by vm_compute|]. split; [exact H1|exact H2].
Defined.

(** When the table is pruned, the pruning runs before the new wait is stored, so it
    also forgets the version that the declaration has just raised: a run without
    another live wait goes from version 0 to version 0 and [detect_stable] cannot
    see that it started to wait. *)
Theorem pruning_forgets_the_new_wait cfg f k ts det s s' g :
  declare cfg f k ts det s = (s', Some g) →
  let w := {| lw_from := f; lw_targets := ts; lw_kind := k; lw_detail := det; lw_refusal := None |} in
  deadlock_max_edges cfg *sat 4 < N.of_nat (size (bump (versions s) w)) →
  f ∉ ((map_to_list (waits s)).*2 ≫= wait_runs) →
  version_of f s' = 0 ∧ waits s' !! g = Some w.
Proof.
  intros Hdec w Hbig Hf. revert Hdec. unfold declare. fold w.
  destruct (bool_decide (ts = []) || _); [done|]. simpl max_edges.
  destruct (N.ltb_spec (deadlock_max_edges cfg *sat 4) (N.of_nat (size (bump (versions s) w))));
    [|lia].
  intros [= <- <-]. split; [|by simpl; rewrite lookup_insert_eq].
  unfold version_of. simpl. rewrite map_lookup_filter_None_2; [done|]. right. intros v _ Hin. done.
Qed.
