(* ===== verification/Approval.v ===== *)
(** * Approvals of tool calls

    [refact-work-core/src/approval.rs].  A parent chat decides whether a tool call
    of its child may run.  One mutex protects the table of requests, so every
    operation is an atomic step; each first expires what is due at its [now].
    JSON values are [serde_json]'s: a type with decidable equality. *)

From stdpp Require Import gmap strings list sorting.
From S2P Require Import Prelude Identity Settings.
Local Open Scope N_scope.

(** ** Data *)

Record ExecutionApproval := {
  ea_command : string;
  ea_argv : list string;
  ea_cwd : string;
  ea_environment_keys : list string;
  ea_fingerprint : string;
  ea_privilege : string;
  ea_reason : string;
}.
#[global] Instance ExecutionApproval_eq_dec : EqDecision ExecutionApproval.
Proof. solve_decision. Defined.

Inductive ApprovalDecision := Approved | Rejected | DCancelled | DExpired.
#[global] Instance ApprovalDecision_eq_dec : EqDecision ApprovalDecision.
Proof. solve_decision. Defined.

Inductive ApprovalError :=
  | Capacity | EDuplicate | NotFound | NotOwner | GenerationMismatch | EExpired
  | AlreadyDecided | BindingMismatch | NotApproved | Consumed.
#[global] Instance ApprovalError_eq_dec : EqDecision ApprovalError.
Proof. solve_decision. Defined.

Section registry.
Context {Value : Type} `{!EqDecision Value}.

Record PendingApproval := {
  pa_id : string;
  child_work_id : string;
  parent_chat_id : string;
  pa_generation : N;
  tool_call_id : string;
  tool_name : string;
  args : Value;
  digest : option string;
  created_at : N;
  expires_at : N;
  execution : option ExecutionApproval;
}.
#[global] Instance PendingApproval_eq_dec : EqDecision PendingApproval.
Proof using EqDecision0. solve_decision. Defined.

Record UserOnceGrant := {
  ug_pending : PendingApproval;
  wrapper_tool_call_id : string;
  ug_consumed : bool;
}.

Record Entry := {
  pending : PendingApproval;
  decision : option ApprovalDecision;
  denial_reason : option string;
  user_once : option UserOnceGrant;
  consumed : bool;
}.

(** [ApprovalRegistry::capacity]: fixed, or the installed setting. *)
Definition capacity (max_pending : option N) (cfg : CoordinationSettings) : N :=
  default (max_pending_approvals cfg) max_pending.

(** ** [expire_locked] *)

Definition due (now : N) (e : Entry) : bool := expires_at (pending e) <=? now.

Definition expire_entry (now : N) (e : Entry) : Entry :=
  if due now e
  then {| pending := pending e; decision := Some DExpired; denial_reason := None;
          user_once := None; consumed := consumed e |}
  else e.

Definition is_expired (e : Entry) : bool := bool_decide (decision e = Some DExpired).

(** The [(expires_at, id)] pairs of the expired entries. *)
Definition expired_list (m : gmap string Entry) : list (N * string) :=
  keyed_list is_expired (λ e, expires_at (pending e)) m.

Definition purge (cap : N) (m : gmap string Entry) : gmap string Entry :=
  let expired := expired_list m in
  let purge_count := (length expired - N.to_nat cap)%nat in
  foldr (λ p m, delete p.2 m) m (take purge_count (sort_by_key id expired)).

Definition expire_locked (cap now : N) (m : gmap string Entry) : gmap string Entry := purge cap (expire_entry now <$> m).

(** ** Operations *)

(** A live request for the same tool call of the same child run. *)
Definition same_call (now : N) (p : PendingApproval) (e : Entry) : bool :=
  bool_decide (parent_chat_id (pending e) = parent_chat_id p)
  && bool_decide (child_work_id (pending e) = child_work_id p)
  && (pa_generation (pending e) =? pa_generation p)
  && bool_decide (tool_call_id (pending e) = tool_call_id p)
  && (now <? expires_at (pending e)).

Definition live (now : N) (e : Entry) : bool := now <? expires_at (pending e).

Definition fresh_entry (p : PendingApproval) : Entry :=
  {| pending := p; decision := None; denial_reason := None; user_once := None; consumed := false |}.

Definition register (cap : N) (p : PendingApproval) (now : N) (m : gmap string Entry)
  : gmap string Entry * result unit ApprovalError :=
  let m := expire_locked cap now m in
  if bool_decide (is_Some (m !! pa_id p)) || (0 <? count_if (same_call now p) m)
  then (m, Err EDuplicate)
  else if expires_at p <=? now then (m, Err EExpired)
  else if cap <=? count_if (live now) m then (m, Err Capacity)
  else (<[pa_id p := fresh_entry p]> m, Ok ()).

Definition check_owner (e : Entry) (parent : string) (generation : N) : result unit ApprovalError :=
  if negb (bool_decide (parent_chat_id (pending e) = parent)) then Err NotOwner
  else if negb (pa_generation (pending e) =? generation) then Err GenerationMismatch
  else Ok ().

Definition check_user_once_entry (e : Entry) (parent : string) (generation : N)
  : result unit ApprovalError :=
  let? _ := check_owner e parent generation in
  match decision e with
  | Some DExpired => Err EExpired
  | Some _ => Err AlreadyDecided
  | None => Ok ()
  end.

Definition set_grant (g : option UserOnceGrant) (e : Entry) : Entry :=
  {| pending := pending e; decision := decision e; denial_reason := denial_reason e;
     user_once := g; consumed := consumed e |}.

(** The grant was made for exactly this request and this wrapper call. *)
Definition grant_matches (g : UserOnceGrant) (e : Entry) (wrapper : string) : bool :=
  bool_decide (ug_pending g = pending e) && bool_decide (wrapper_tool_call_id g = wrapper).

Definition grant_user_once (cap : N) (parent id : string) (generation : N) (wrapper : string)
    (now : N) (m : gmap string Entry) : gmap string Entry * result unit ApprovalError :=
  let m := expire_locked cap now m in
  match m !! id with
  | None => (m, Err NotFound)
  | Some e =>
      match check_user_once_entry e parent generation with
      | Err err => (m, Err err)
      | Ok _ =>
          if bool_decide (wrapper = "") then (m, Err BindingMismatch)
          else match user_once e with
               | Some g =>
                   if negb (grant_matches g e wrapper) then (m, Err BindingMismatch)
                   else if ug_consumed g then (m, Err Consumed) else (m, Ok ())
               | None =>
                   let g := {| ug_pending := pending e; wrapper_tool_call_id := wrapper;
                               ug_consumed := false |} in
                   (<[id := set_grant (Some g) e]> m, Ok ())
               end
      end
  end.

Definition consume_user_once (cap : N) (parent id : string) (generation : N) (wrapper : string)
    (now : N) (m : gmap string Entry) : gmap string Entry * result unit ApprovalError :=
  let m := expire_locked cap now m in
  match m !! id with
  | None => (m, Err NotFound)
  | Some e =>
      match check_user_once_entry e parent generation with
      | Err err => (m, Err err)
      | Ok _ =>
          match user_once e with
          | None => (m, Err NotApproved)
          | Some g =>
              if negb (grant_matches g e wrapper) then (m, Err BindingMismatch)
              else if ug_consumed g then (m, Err Consumed)
              else
                let g := {| ug_pending := ug_pending g;
                            wrapper_tool_call_id := wrapper_tool_call_id g; ug_consumed := true |} in
                (<[id := set_grant (Some g) e]> m, Ok ())
          end
      end
  end.

Definition set_decision (d : ApprovalDecision) (reason : option string) (e : Entry) : Entry :=
  {| pending := pending e; decision := Some d; denial_reason := reason; user_once := None;
     consumed := consumed e |}.
Definition set_reason (reason : option string) (e : Entry) : Entry :=
  {| pending := pending e; decision := decision e; denial_reason := reason;
     user_once := user_once e; consumed := consumed e |}.

Definition decide_with_reason (cap : N) (caller_parent : string) (expected_generation : N)
    (id : string) (approve : bool) (reason : option string) (now : N) (m : gmap string Entry)
  : gmap string Entry * result ApprovalDecision ApprovalError :=
  let m := expire_locked cap now m in
  match m !! id with
  | None => (m, Err NotFound)
  | Some e =>
      match check_owner e caller_parent expected_generation with
      | Err err => (m, Err err)
      | Ok _ =>
          if is_expired e then (m, Err EExpired)
          else
            let wanted := if approve then Approved else Rejected in
            match decision e with
            | Some existing =>
                let m :=
                  if bool_decide (existing = wanted) && bool_decide (wanted = Rejected)
                     && bool_decide (denial_reason e = None)
                  then <[id := set_reason reason e]> m else m in
                (m, if decide (existing = wanted) then Ok existing else Err AlreadyDecided)
            | None =>
                let reason := if bool_decide (wanted = Rejected) then reason else None in
                (<[id := set_decision wanted reason e]> m, Ok wanted)
            end
      end
  end.

(** [ApprovalRegistry::decide]. *)
Definition decide_approval (cap : N) (caller_parent : string) (expected_generation : N)
    (id : string) (approve : bool) (now : N) (m : gmap string Entry)
  : gmap string Entry * result ApprovalDecision ApprovalError :=
  decide_with_reason cap caller_parent expected_generation id approve None now m.

Definition get_denial_reason (id : string) (m : gmap string Entry) : option string :=
  e ← m !! id; denial_reason e.

Definition cancel (cap : N) (caller_parent : string) (expected_generation : N) (id : string)
    (now : N) (m : gmap string Entry) : gmap string Entry * result unit ApprovalError :=
  let m := expire_locked cap now m in
  match m !! id with
  | None => (m, Err NotFound)
  | Some e =>
      match check_owner e caller_parent expected_generation with
      | Err err => (m, Err err)
      | Ok _ =>
          match decision e with
          | Some _ => (m, Err AlreadyDecided)
          | None => (<[id := set_decision DCancelled (denial_reason e) e]> m, Ok ())
          end
      end
  end.

Definition set_consumed (e : Entry) : Entry :=
  {| pending := pending e; decision := decision e; denial_reason := denial_reason e;
     user_once := user_once e; consumed := true |}.

Definition consume (cap : N) (id tool_call : string) (a : Value) (now : N) (m : gmap string Entry)
  : gmap string Entry * result PendingApproval ApprovalError :=
  let m := expire_locked cap now m in
  match m !! id with
  | None => (m, Err NotFound)
  | Some e =>
      match decision e with
      | Some Approved =>
          if negb (bool_decide (tool_call_id (pending e) = tool_call))
             || negb (bool_decide (args (pending e) = a))
          then (m, Err BindingMismatch)
          else if consumed e then (m, Err Consumed)
          else (<[id := set_consumed e]> m, Ok (pending e))
      | Some DExpired => (m, Err EExpired)
      | Some DCancelled | Some Rejected | None => (m, Err NotApproved)
      end
  end.

Definition get (cap : N) (caller_parent id : string) (now : N) (m : gmap string Entry)
  : gmap string Entry * result PendingApproval ApprovalError :=
  let m := expire_locked cap now m in
  match m !! id with
  | None => (m, Err NotFound)
  | Some e =>
      if bool_decide (parent_chat_id (pending e) = caller_parent) then (m, Ok (pending e))
      else (m, Err NotOwner)
  end.

(** Requests in the order they are shown. *)
Definition by_age (ps : list PendingApproval) : list PendingApproval :=
  sort_by_key (λ p, (created_at p, pa_id p)) ps.

Definition pendings (f : Entry → bool) (m : gmap string Entry) : list PendingApproval :=
  omap (λ p, if f p.2 then Some (pending p.2) else None) (map_to_list m).

Definition list_for_parent (cap : N) (caller_parent : string) (now : N) (m : gmap string Entry)
  : gmap string Entry * list PendingApproval :=
  let m := expire_locked cap now m in
  (m, by_age (pendings (λ e, bool_decide (parent_chat_id (pending e) = caller_parent)) m)).

Definition undecided (cap : N) (now : N) (m : gmap string Entry) : gmap string Entry * list PendingApproval :=
  let m := expire_locked cap now m in
  (m, by_age (pendings (λ e, bool_decide (decision e = None)) m)).

Definition expire (cap now : N) (m : gmap string Entry) : gmap string Entry := expire_locked cap now m.
Definition len (m : gmap string Entry) : N := N.of_nat (size m).

Definition wait_now (cap : N) (id : string) (now : N) (m : gmap string Entry)
  : gmap string Entry * result ApprovalDecision ApprovalError :=
  let m := expire_locked cap now m in
  match m !! id with
  | None => (m, Err NotFound)
  | Some e => (m, match decision e with Some d => Ok d | None => Err NotApproved end)
  end.

(** ** [wait], between its suspension points *)

(** The request the wait is for. *)
Definition wait_begin (id : string) (m : gmap string Entry) : result PendingApproval ApprovalError :=
  match m !! id with Some e => Ok (pending e) | None => Err NotFound end.

(** One turn of the loop, [current] milliseconds since the epoch. *)
Definition wait_poll (cap : N) (id : string) (p : PendingApproval) (current : N) (m : gmap string Entry)
  : gmap string Entry * option ApprovalDecision :=
  let m := expire_locked cap current m in
  (m, match m !! id with
      | Some e => if decide (pending e = p) then decision e else Some DExpired
      | None => Some DExpired
      end).

(** The timeout arm of the [select!]. *)
Definition wait_timeout (cap : N) (id : string) (p : PendingApproval) (m : gmap string Entry)
  : gmap string Entry * ApprovalDecision :=
  let m := expire_locked cap (expires_at p) m in
  (m, default DExpired (e ← m !! id; if decide (pending e = p) then decision e else None)).
End registry.
