(* ===== verification/ApprovalProps.v ===== *)
(** * Properties of approvals

    Every operation seen as a step on one entry; then, over sequences of
    operations: nothing runs without its owner's approval, nothing runs twice, a
    decision is final, and the table stays bounded. *)

From stdpp Require Import gmap strings list sorting.
From S2P Require Import Prelude Identity Settings Approval.
Local Open Scope N_scope.

Section approvals.
Context {Value : Type} `{!EqDecision Value}.
Implicit Types (m : gmap string (@Entry Value)) (e : @Entry Value).

(** ** Expiry and purge *)

Lemma delete_all_lookup (l : list (N * string)) m k :
  foldr (λ p m, delete p.2 m) m l !! k = if decide (k ∈ l.*2) then None else m !! k.
Proof.
  induction l as [|[t i] l IH].
  { rewrite decide_False; [done|]. apply not_elem_of_nil. }
  cbn [foldr snd]. rewrite fmap_cons. cbn [snd].
  destruct (decide (k = i)) as [->|Hne].
  - rewrite lookup_delete_eq, decide_True; [done|by left].
  - rewrite lookup_delete_ne, IH by done. apply decide_ext. set_solver.
Qed.

Lemma elem_of_expired_list m t k :
  (t, k) ∈ expired_list m ↔ ∃ e, m !! k = Some e ∧ is_expired e = true ∧ expires_at (pending e) = t.
Proof.
  apply elem_of_keyed_list.
Qed.

(** The purge only forgets expired entries. *)
Lemma purge_lookup cap m k :
  purge cap m !! k = m !! k ∨ (purge cap m !! k = None ∧ ∃ e, m !! k = Some e ∧ is_expired e = true).
Proof.
  unfold purge. rewrite delete_all_lookup. case_decide as Hd; [right|by left].
  split; [done|]. apply list_elem_of_fmap in Hd as ([t k'] & -> & Hin).
  apply (subseteq_take _ (sort_by_key id (expired_list m))) in Hin.
  apply elem_of_sort_by_key, elem_of_expired_list in Hin as (e & He & Hx & _). eauto.
Qed.

Lemma expire_locked_Some cap now m k e' :
  expire_locked cap now m !! k = Some e' → ∃ e, m !! k = Some e ∧ e' = expire_entry now e.
Proof.
  unfold expire_locked. intros H.
  assert ((expire_entry now <$> m) !! k = Some e') as Hm.
  { destruct (purge_lookup cap (expire_entry now <$> m) k) as [Heq|[Heq _]]; congruence. }
  rewrite lookup_fmap in Hm. by apply fmap_Some in Hm as (e & He & ->); eauto.
Qed.

Lemma expire_locked_live cap now m k e :
  m !! k = Some e → now < expires_at (pending e) → decision e ≠ Some DExpired →
  expire_locked cap now m !! k = Some e.
Proof.
  intros Hm Hlive Hd. unfold expire_locked.
  assert ((expire_entry now <$> m) !! k = Some e) as Hf.
  { rewrite lookup_fmap, Hm. simpl. unfold expire_entry, due.
    by destruct (N.leb_spec (expires_at (pending e)) now); [lia|]. }
  destruct (purge_lookup cap (expire_entry now <$> m) k) as [->|[_ (e' & He' & Hx)]]; [done|].
  rewrite Hf in He'. injection He' as <-. by apply bool_decide_eq_true in Hx.
Qed.

(** What an entry of the table looks like after expiry at [now]. *)
Lemma expire_entry_cases now e :
  pending (expire_entry now e) = pending e ∧ consumed (expire_entry now e) = consumed e
  ∧ ((expire_entry now e = e ∧ now < expires_at (pending e))
     ∨ (decision (expire_entry now e) = Some DExpired ∧ user_once (expire_entry now e) = None
        ∧ expires_at (pending e) <= now)).
Proof.
  unfold expire_entry, due. destruct (N.leb_spec (expires_at (pending e)) now); simpl; naive_solver.
Qed.

(** ** Operations as steps *)

Inductive Op :=
  | ORegister (p : @PendingApproval Value)
  | OGrant (parent id : string) (generation : N) (wrapper : string)
  | OConsumeOnce (parent id : string) (generation : N) (wrapper : string)
  | ODecide (parent : string) (generation : N) (id : string) (approve : bool) (reason : option string)
  | OCancel (parent : string) (generation : N) (id : string)
  | OConsume (id tool : string) (a : Value)
  | OObserve.

(** An operation with the capacity and the time it runs at. *)
Record Call := { c_cap : N; c_now : N; c_op : Op }.

Definition exec (c : Call) m : gmap string (@Entry Value) :=
  match c_op c with
  | ORegister p => (register (c_cap c) p (c_now c) m).1
  | OGrant parent id g w => (grant_user_once (c_cap c) parent id g w (c_now c) m).1
  | OConsumeOnce parent id g w => (consume_user_once (c_cap c) parent id g w (c_now c) m).1
  | ODecide parent g id b r => (decide_with_reason (c_cap c) parent g id b r (c_now c) m).1
  | OCancel parent g id => (cancel (c_cap c) parent g id (c_now c) m).1
  | OConsume id tool a => (consume (c_cap c) id tool a (c_now c) m).1
  | OObserve => expire (c_cap c) (c_now c) m
  end.

Definition run (cs : list Call) m : gmap string (@Entry Value) := foldl (λ m c, exec c m) m cs.

Definition owned (e : @Entry Value) (parent : string) (g : N) : Prop :=
  parent_chat_id (pending e) = parent ∧ pa_generation (pending e) = g.

Lemma check_owner_Ok e parent g : check_owner e parent g = Ok () ↔ owned e parent g.
Proof.
  unfold check_owner, owned.
  destruct (bool_decide_reflect (parent_chat_id (pending e) = parent)); simpl; [|naive_solver].
  destruct (N.eqb_spec (pa_generation (pending e)) g); simpl; naive_solver.
Qed.

Lemma check_user_once_Ok e parent g :
  check_user_once_entry e parent g = Ok () ↔ owned e parent g ∧ decision e = None.
Proof.
  unfold check_user_once_entry. rewrite result_bind_Ok. rewrite <- check_owner_Ok. split.
  - intros ([] & H & Hd). split; [done|]. by destruct (decision e) as [[]|].
  - intros [H Hd]. exists (). rewrite Hd. done.
Qed.

(** What an operation does to the (already expired) entry [e] of [id]. *)
Inductive entry_step (c : Call) (id : string) : @Entry Value → @Entry Value → Prop :=
  | es_keep e : entry_step c id e e
  | es_grant e g : c_op c = OGrant (parent_chat_id (pending e)) id (pa_generation (pending e))
        (wrapper_tool_call_id g) → decision e = None → user_once e = None →
      ug_consumed g = false → ug_pending g = pending e → entry_step c id e (set_grant (Some g) e)
  | es_consume_once e g g' : c_op c = OConsumeOnce (parent_chat_id (pending e)) id
        (pa_generation (pending e)) (wrapper_tool_call_id g) → decision e = None →
      user_once e = Some g → ug_consumed g = false → ug_pending g = pending e →
      ug_consumed g' = true → entry_step c id e (set_grant (Some g') e)
  | es_decide e b r r' : c_op c = ODecide (parent_chat_id (pending e)) (pa_generation (pending e)) id b r →
      decision e = None →
      entry_step c id e (set_decision (if b then Approved else Rejected) r' e)
  | es_reason e r b : c_op c = ODecide (parent_chat_id (pending e)) (pa_generation (pending e)) id b r →
      decision e = Some Rejected → entry_step c id e (set_reason r e)
  | es_cancel e : c_op c = OCancel (parent_chat_id (pending e)) (pa_generation (pending e)) id →
      decision e = None → entry_step c id e (set_decision DCancelled (denial_reason e) e)
  | es_consume e : c_op c = OConsume id (tool_call_id (pending e)) (args (pending e)) →
      decision e = Some Approved → consumed e = false → entry_step c id e (set_consumed e).

Lemma grant_matches_true g e w :
  grant_matches g e w = true ↔ ug_pending g = pending e ∧ wrapper_tool_call_id g = w.
Proof. unfold grant_matches. by rewrite andb_true_iff, !bool_decide_eq_true. Qed.

(** Every operation keeps or steps each entry, or registers a fresh one. *)
Lemma exec_entry c m k e' :
  exec c m !! k = Some e' →
  (∃ e, m !! k = Some e ∧ entry_step c k (expire_entry (c_now c) e) e')
  ∨ ∃ p, c_op c = ORegister p ∧ pa_id p = k ∧ e' = fresh_entry p ∧ c_now c < expires_at p
         ∧ expire_locked (c_cap c) (c_now c) m !! k = None.
Proof.
  unfold exec. set (m0 := expire_locked (c_cap c) (c_now c) m).
  assert (Hkeep : m0 !! k = Some e' → ∃ e, m !! k = Some e ∧ entry_step c k (expire_entry (c_now c) e) e').
  { intros (e & He & ->)%expire_locked_Some. exists e. split; [done|constructor]. }
  assert (Hset : ∀ id e f, m0 !! id = Some e → <[id := f]> m0 !! k = Some e' → entry_step c id e f →
    ∃ e, m !! k = Some e ∧ entry_step c k (expire_entry (c_now c) e) e').
  { intros id e f Hid Hk Hstep. destruct (decide (id = k)) as [->|Hne].
    - rewrite lookup_insert_eq in Hk. injection Hk as <-.
      apply expire_locked_Some in Hid as (e0 & He0 & ->). eauto.
    - rewrite lookup_insert_ne in Hk by done. auto. }
  destruct (c_op c) as [p|parent id g w|parent id g w|parent g id b r|parent g id|id tool a|] eqn:Hop.
  - unfold register. fold m0.
    destruct (bool_decide_reflect (is_Some (m0 !! pa_id p))) as [|Hnone]; [by left; apply Hkeep|]. simpl.
    destruct (0 <? _); [by left; apply Hkeep|].
    destruct (N.leb_spec (expires_at p) (c_now c)); [by left; apply Hkeep|].
    destruct (_ <=? _); [by left; apply Hkeep|]. simpl. intros Hk.
    destruct (decide (pa_id p = k)) as [Hid|Hne].
    + right. exists p. subst k. rewrite lookup_insert_eq in Hk. injection Hk as <-.
      split_and!; [done..|by apply eq_None_not_Some].
    + left. rewrite lookup_insert_ne in Hk by done. auto.
  - intros H. left. revert H. unfold grant_user_once. fold m0.
    destruct (m0 !! id) as [e|] eqn:Hid; [|exact Hkeep].
    destruct (check_user_once_entry e parent g) as [[]|err] eqn:Hc; [|exact Hkeep].
    apply check_user_once_Ok in Hc as [[<- <-] Hd].
    destruct (bool_decide (w = "")); [exact Hkeep|]. destruct (user_once e) as [u|] eqn:Hu.
    + destruct (negb _); [exact Hkeep|]. destruct (ug_consumed u); exact Hkeep.
    + simpl. intros Hk. eapply Hset; [done..|]. eapply es_grant; done.
  - intros H. left. revert H. unfold consume_user_once. fold m0.
    destruct (m0 !! id) as [e|] eqn:Hid; [|exact Hkeep].
    destruct (check_user_once_entry e parent g) as [[]|err] eqn:Hc; [|exact Hkeep].
    apply check_user_once_Ok in Hc as [[<- <-] Hd].
    destruct (user_once e) as [u|] eqn:Hu; [|exact Hkeep].
    destruct (grant_matches u e w) eqn:Hg; simpl; [|exact Hkeep].
    destruct (ug_consumed u) eqn:Hcons; simpl; [exact Hkeep|].
    apply grant_matches_true in Hg as [Hp <-].
    intros Hk. eapply Hset; [done..|]. by eapply es_consume_once.
  - intros H. left. revert H. unfold decide_with_reason. fold m0.
    destruct (m0 !! id) as [e|] eqn:Hid; [|exact Hkeep].
    destruct (check_owner e parent g) as [[]|err] eqn:Hc; [|exact Hkeep].
    apply check_owner_Ok in Hc as [<- <-]. destruct (is_expired e); [exact Hkeep|].
    destruct (decision e) as [d|] eqn:Hd; simpl.
    + destruct (bool_decide_reflect (d = if b then Approved else Rejected)) as [->|]; simpl; [|exact Hkeep].
      destruct b; simpl; [exact Hkeep|]. destruct (bool_decide _); simpl; [|exact Hkeep].
      intros Hk. eapply Hset; [done..|]. by eapply es_reason.
    + intros Hk. eapply Hset; [done..|]. by eapply es_decide.
  - intros H. left. revert H. unfold cancel. fold m0.
    destruct (m0 !! id) as [e|] eqn:Hid; [|exact Hkeep].
    destruct (check_owner e parent g) as [[]|err] eqn:Hc; [|exact Hkeep].
    apply check_owner_Ok in Hc as [<- <-].
    destruct (decision e) as [d|] eqn:Hd; simpl; [exact Hkeep|].
    intros Hk. eapply Hset; [done..|]. by eapply es_cancel.
  - intros H. left. revert H. unfold consume. fold m0.
    destruct (m0 !! id) as [e|] eqn:Hid; [|exact Hkeep].
    destruct (decision e) as [[]|] eqn:Hd; try exact Hkeep.
    destruct (bool_decide_reflect (tool_call_id (pending e) = tool)) as [<-|]; [|exact Hkeep].
    destruct (bool_decide_reflect (args (pending e) = a)) as [<-|]; [|exact Hkeep].
    simpl. destruct (consumed e) eqn:Hcons; simpl; [exact Hkeep|].
    intros Hk. eapply Hset; [done..|]. by eapply es_consume.
  - intros H. left. by apply Hkeep.
Qed.

(** ** Invariants of one entry *)

(** [P] survives every step of the entry of [id]. *)
Lemma run_entry (P : @Entry Value → Prop) id cs m :
  (∀ c e e', c ∈ cs → P e → entry_step c id (expire_entry (c_now c) e) e' → P e') →
  (∀ c p, c ∈ cs → c_op c = ORegister p → pa_id p ≠ id) →
  (∀ e, m !! id = Some e → P e) → ∀ e, run cs m !! id = Some e → P e.
Proof.
  revert m. induction cs as [|c cs IH]; intros m Hstep Hreg HP; simpl; [done|].
  apply IH; [intros c' e e' Hc; apply Hstep; by right|intros c' p Hc; apply Hreg; by right|].
  intros e' [(e & He & Hs)|(p & Hop & Hid & _)]%exec_entry.
  - eapply Hstep; [by left|by apply HP|done].
  - exfalso. eapply (Hreg c p); [by left|done|done].
Qed.

(** The calls register no request under [id]. *)
Definition not_registered (id : string) (cs : list Call) : Prop :=
  ∀ c p, c ∈ cs → c_op c = ORegister p → pa_id p ≠ id.

Lemma entry_step_pending c id e e' : entry_step c id e e' → pending e' = pending e.
Proof. by destruct 1. Qed.
Lemma entry_step_consumed c id e e' : entry_step c id e e' → consumed e = true → consumed e' = true.
Proof. by destruct 1. Qed.
Lemma entry_step_decision c id e e' d :
  entry_step c id e e' → decision e = Some d → decision e' = Some d.
Proof. destruct 1; simpl; congruence. Qed.

(** A one-time grant that can never be used again. *)
Definition grant_spent e : Prop :=
  decision e ≠ None ∨ ∃ g, user_once e = Some g ∧ ug_consumed g = true.

Lemma entry_step_grant_spent c id e e' : entry_step c id e e' → grant_spent e → grant_spent e'.
Proof.
  unfold grant_spent. destruct 1; simpl; intros [Hd|(g0 & Hg & Hc)]; try congruence; eauto.
Qed.

Lemma expire_grant_spent now e : grant_spent e → grant_spent (expire_entry now e).
Proof.
  destruct (expire_entry_cases now e) as (_ & _ & [[-> _]|(Hd & _ & _)]); [done|].
  intros _. left. congruence.
Qed.

(** What an accepted [consume] proves about the table. *)
Lemma consume_Ok cap id tool a now m m' p :
  consume cap id tool a now m = (m', Ok p) →
  ∃ e, m !! id = Some e ∧ now < expires_at (pending e) ∧ decision e = Some Approved
    ∧ consumed e = false ∧ pending e = p ∧ tool_call_id p = tool ∧ args p = a
    ∧ ∀ e', m' !! id = Some e' → consumed e' = true.
Proof.
  unfold consume. set (m0 := expire_locked cap now m).
  destruct (m0 !! id) as [e0|] eqn:Hid; [|done].
  apply expire_locked_Some in Hid as (e & He & ->).
  destruct (expire_entry_cases now e) as (Hp & Hcons & [[Heq Hlive]|(Hd & _)]).
  2: { rewrite Hd. done. }
  rewrite Heq. destruct (decision e) as [[]|] eqn:Hd; try done.
  destruct (bool_decide_reflect (tool_call_id (pending e) = tool)); [|done].
  destruct (bool_decide_reflect (args (pending e) = a)); [|done]. simpl.
  destruct (consumed e) eqn:Hc; [done|]. intros [= <- <-]. exists e. split_and!; try done.
  intros e'. rewrite lookup_insert_eq. by intros [= <-].
Qed.

(** ** Authorization *)

(** The calls contain, in this order, the registration of [p] under [id] and an
    approval of it by its parent, for its generation, before it expired. *)
Definition authorized (cs : list Call) (id : string) (p : @PendingApproval Value) : Prop :=
  ∃ l1 reg l2 dec l3 r,
    cs = l1 ++ reg :: l2 ++ dec :: l3
    ∧ c_op reg = ORegister p ∧ pa_id p = id ∧ c_now reg < expires_at p
    ∧ c_op dec = ODecide (parent_chat_id p) (pa_generation p) id true r
    ∧ c_now dec < expires_at p.

Definition registered (cs : list Call) (id : string) (p : @PendingApproval Value) : Prop :=
  ∃ l1 reg l2, cs = l1 ++ reg :: l2 ∧ c_op reg = ORegister p ∧ pa_id p = id
               ∧ c_now reg < expires_at p.

(** Entries come from registrations, and approvals from their parents. *)
Definition traced (cs : list Call) m : Prop :=
  ∀ id e, m !! id = Some e →
    registered cs id (pending e) ∧ (decision e = Some Approved → authorized cs id (pending e)).

Lemma registered_snoc cs c id p : registered cs id p → registered (cs ++ [c]) id p.
Proof.
  intros (l1 & reg & l2 & -> & H). exists l1, reg, (l2 ++ [c]).
  by rewrite <- app_assoc.
Qed.
Lemma authorized_snoc cs c id p : authorized cs id p → authorized (cs ++ [c]) id p.
Proof.
  intros (l1 & reg & l2 & dec & l3 & r & -> & H). exists l1, reg, l2, dec, (l3 ++ [c]), r.
  rewrite <- !app_assoc. simpl. by rewrite <- app_assoc.
Qed.

Lemma traced_step cs c m : traced cs m → traced (cs ++ [c]) (exec c m).
Proof.
  intros Ht id e' [(e & He & Hs)|(p & Hop & <- & -> & Hlt & _)]%exec_entry.
  - destruct (Ht _ _ He) as [Hreg Hauth].
    destruct (expire_entry_cases (c_now c) e) as (Hp & _ & Hcase).
    rewrite (entry_step_pending _ _ _ _ Hs), Hp. split; [by apply registered_snoc|].
    intros Hd. destruct Hcase as [[Heq Hlive]|(Hexp & _)].
    2: { rewrite (entry_step_decision _ _ _ _ _ Hs Hexp) in Hd. done. }
    rewrite Heq in Hs. destruct (decision e) as [d|] eqn:Hde.
    + rewrite (entry_step_decision _ _ _ _ _ Hs Hde) in Hd. injection Hd as ->.
      by apply authorized_snoc, Hauth.
    + inversion Hs as [| | |e0 b r r' Hop| | |]; subst; simpl in Hd; try congruence.
      destruct b; [|done]. destruct Hreg as (l1 & reg & l2 & -> & Hr1 & Hr2 & Hr3).
      exists l1, reg, l2, c, [], r. by rewrite <- app_assoc.
  - split; [|done]. exists cs, c, []. done.
Qed.

Lemma traced_run cs1 cs2 m : traced cs1 m → traced (cs1 ++ cs2) (run cs2 m).
Proof.
  revert cs1 m. induction cs2 as [|c cs2 IH]; intros cs1 m Ht; simpl; [by rewrite app_nil_r|].
  replace (cs1 ++ c :: cs2) with ((cs1 ++ [c]) ++ cs2) by (by rewrite <- app_assoc).
  by apply IH, traced_step.
Qed.

(** ** Capacity *)

Lemma delete_all_count (f : @Entry Value → bool) (l : list (N * string)) m :
  NoDup l.*2 → (∀ p, p ∈ l → ∃ e, m !! p.2 = Some e ∧ f e = true) →
  count_if f (foldr (λ p m, delete p.2 m) m l) + Nlen l = count_if f m.
Proof.
  unfold Nlen. induction l as [|[t k] l IH]; intros Hnd Hl; [simpl; lia|].
  apply NoDup_cons in Hnd as [Hni Hnd]. simpl in Hni.
  rewrite <- IH; [|done|intros p Hp; apply Hl; by right]. cbn [foldr snd].
  destruct (Hl (t, k)) as (e & He & Hf); [by left|]. simpl in He.
  rewrite (count_if_delete f (foldr (λ p m, delete p.2 m) m l) k e).
  - rewrite Hf. simpl length. lia.
  - by rewrite delete_all_lookup, decide_False.
Qed.

Lemma delete_all_count_le (f : @Entry Value → bool) (l : list (N * string)) m :
  count_if f (foldr (λ p m, delete p.2 m) m l) ≤ count_if f m.
Proof.
  induction l as [|p l IH]; [done|]. cbn [foldr]. etransitivity; [apply count_if_delete_le|done].
Qed.

(** The purge leaves at most [cap] expired entries. *)
Lemma purge_count cap m : count_if is_expired (purge cap m) ≤ cap.
Proof.
  unfold purge. set (l := take _ _).
  assert (count_if is_expired (foldr (λ p m, delete p.2 m) m l) + Nlen l = count_if is_expired m) as H.
  { apply delete_all_count.
    - unfold l. rewrite fmap_take. eapply sublist_NoDup; [|apply sublist_take].
      rewrite sort_by_key_perm. apply NoDup_keyed_list.
    - intros [t k] Hin. unfold l in Hin.
      apply (subseteq_take _ (sort_by_key id (expired_list m))) in Hin.
      apply elem_of_sort_by_key, elem_of_expired_list in Hin as (e & He & Hx & _). eauto. }
  rewrite (count_keyed_list is_expired (λ e, expires_at (pending e)) m) in H.
  fold (expired_list m) in H. unfold Nlen in *.
  assert (length l = (length (expired_list m) - N.to_nat cap) `min` length (expired_list m))%nat as Hl
    by (unfold l; by rewrite length_take, length_sort_by_key).
  lia.
Qed.

(** At time [t], at most [cap] requests are live and at most [cap] are not. *)
Definition bounded (cap t : N) m : Prop :=
  count_if (live t) m ≤ cap ∧ count_if (λ e, negb (live t e)) m ≤ cap.

Lemma bounded_size cap t m : bounded cap t m → len m ≤ 2 * cap.
Proof. intros [H1 H2]. unfold len. rewrite <- (count_if_split (live t) m). lia. Qed.

Lemma live_expire_entry t now e : live t (expire_entry now e) = live t e.
Proof. unfold live. by destruct (expire_entry_cases now e) as (-> & _). Qed.

Lemma expire_bounded cap t now m :
  t <= now → bounded cap t m → bounded cap now (expire_locked cap now m).
Proof.
  intros Hle [H1 H2]. split.
  - etransitivity; [|exact H1]. unfold expire_locked, purge.
    etransitivity; [apply delete_all_count_le|]. rewrite count_if_fmap. apply count_if_le.
    intros k e _. rewrite live_expire_entry. unfold live. rewrite !N.ltb_lt. lia.
  - etransitivity; [|apply (purge_count cap (expire_entry now <$> m))].
    fold (expire_locked cap now m). apply count_if_le.
    intros k e' He' Hl. apply expire_locked_Some in He' as (e & _ & ->).
    rewrite live_expire_entry in Hl. apply bool_decide_eq_true.
    destruct (expire_entry_cases now e) as (_ & _ & [[_ Hlive]|(Hd & _)]); [|done].
    unfold live in Hl. destruct (N.ltb_spec now (expires_at (pending e))); [done|lia].
Qed.

(** Replacing an entry without touching its terms. *)
Lemma bounded_insert cap t m k e e' :
  m !! k = Some e → pending e' = pending e → bounded cap t m → bounded cap t (<[k := e']> m).
Proof.
  intros He Hp [H1 H2].
  assert (live t e' = live t e) as Hl by (unfold live; by rewrite Hp).
  pose proof (count_if_update (live t) m k e e' He) as Hu1.
  pose proof (count_if_update (λ e, negb (live t e)) m k e e' He) as Hu2.
  simpl in Hu2. rewrite Hl in Hu1, Hu2. unfold bounded. lia.
Qed.

Lemma exec_bounded c t m :
  t <= c_now c → bounded (c_cap c) t m → bounded (c_cap c) (c_now c) (exec c m).
Proof.
  intros Hle Hb. apply (expire_bounded _ _ (c_now c)) in Hb; [|done]. unfold exec.
  set (m0 := expire_locked (c_cap c) (c_now c) m) in *.
  assert (Hset : ∀ k e e', m0 !! k = Some e → pending e' = pending e →
    bounded (c_cap c) (c_now c) (<[k := e']> m0)) by (intros; by eapply bounded_insert).
  destruct (c_op c) as [p|parent id g w|parent id g w|parent g id b r|parent g id|id tool a|].
  - unfold register. fold m0.
    destruct (bool_decide_reflect (is_Some (m0 !! pa_id p))) as [|Hn]; [done|]. simpl.
    apply eq_None_not_Some in Hn. destruct (0 <? _); [done|].
    destruct (N.leb_spec (expires_at p) (c_now c)) as [|Hlive]; [done|].
    destruct (N.leb_spec (c_cap c) (count_if (live (c_now c)) m0)) as [|Hroom]; [done|].
    assert (live (c_now c) (fresh_entry p) = true) as Hl by (unfold live; simpl; by apply N.ltb_lt).
    destruct Hb as [H1 H2]. split; simpl; rewrite count_if_insert_new by done; rewrite Hl; simpl; lia.
  - unfold grant_user_once. fold m0. repeat case_match; simpl; eauto.
  - unfold consume_user_once. fold m0. repeat case_match; simpl; eauto.
  - unfold decide_with_reason. fold m0. repeat case_match; simpl; eauto.
  - unfold cancel. fold m0. repeat case_match; simpl; eauto.
  - unfold consume. fold m0. repeat case_match; simpl; eauto.
  - done.
Qed.

(** The calls run at one capacity and never go back in time. *)
Fixpoint monotone (cap t : N) (cs : list Call) : Prop :=
  match cs with
  | [] => True
  | c :: cs => c_cap c = cap ∧ t <= c_now c ∧ monotone cap (c_now c) cs
  end.

Lemma run_bounded cap t cs m :
  monotone cap t cs → bounded cap t m → ∃ t', bounded cap t' (run cs m).
Proof.
  revert t m. induction cs as [|c cs IH]; intros t m Hm Hb; simpl; [eauto|].
  destruct Hm as (<- & Hle & Hm). apply (IH (c_now c)); [done|]. by eapply exec_bounded.
Qed.

(** ** The undecided set *)

Lemma elem_of_pendings (f : @Entry Value → bool) m p :
  p ∈ pendings f m ↔ ∃ k e, m !! k = Some e ∧ f e = true ∧ pending e = p.
Proof.
  unfold pendings. rewrite list_elem_of_omap. split.
  - intros ([k e] & Hi & Hx). apply elem_of_map_to_list in Hi. simpl in Hx.
    destruct (f e) eqn:Hf; [|done]. injection Hx as <-. eauto.
  - intros (k & e & He & Hf & <-). exists (k, e). rewrite elem_of_map_to_list. simpl. by rewrite Hf.
Qed.

Lemma expired_cases cap now m k e :
  expire_locked cap now m !! k = Some e → decision e ≠ Some DExpired →
  m !! k = Some e ∧ now < expires_at (pending e).
Proof.
  intros (e0 & He0 & ->)%expire_locked_Some Hd.
  destruct (expire_entry_cases now e0) as (_ & _ & [[-> Hl]|(Hx & _)]); [done|congruence].
Qed.

(** ** Theorems *)

(** C7. Nothing runs without its owner's approval: whatever the sequence of calls,
    an execution is released only for a request that was registered and then, before
    it expired, approved by its parent for its generation; it has not expired now,
    and tool call and arguments are the ones that were shown. *)
Theorem execution_needs_approval cs cap id tool a now m' p :
  consume cap id tool a now (run cs ∅) = (m', Ok p) →
  authorized cs id p ∧ now < expires_at p ∧ tool_call_id p = tool ∧ args p = a.
Proof.
  intros (e & He & Hlive & Hd & _ & <- & <- & <- & _)%consume_Ok.
  assert (traced ([] ++ cs) (run cs ∅)) as Ht.
  { apply traced_run. intros k x Hk. by rewrite lookup_empty in Hk. }
  split_and!; [|done..]. by apply (Ht _ _ He).
Qed.

(** An approval releases one execution: after it, no sequence of calls without a
    new registration under the id releases another. *)
Lemma approval_is_single_use cap id tool a now m m1 p cs cap' tool' a' now' :
  consume cap id tool a now m = (m1, Ok p) → not_registered id cs →
  is_Ok (consume cap' id tool' a' now' (run cs m1)).2 = false.
Proof.
  intros (e & _ & _ & _ & _ & _ & _ & _ & Hc)%consume_Ok Hreg.
  assert (∀ e, run cs m1 !! id = Some e → consumed e = true) as Hall.
  { apply run_entry; [|done|done]. intros c x x' _ Hx Hs.
    eapply entry_step_consumed; [done|].
    by destruct (expire_entry_cases (c_now c) x) as (_ & -> & _). }
  destruct (consume cap' id tool' a' now' (run cs m1)) as [m2 [p'|err]] eqn:Heq; [|done].
  apply consume_Ok in Heq as (e' & He' & _ & _ & Hf & _). by rewrite (Hall _ He') in Hf.
Qed.

(** A one-time grant of the user is used at most once, and never after the
    request was decided. *)
Lemma user_grant_is_single_use cap parent id g w now m m1 cs cap' parent' g' w' now' :
  consume_user_once cap parent id g w now m = (m1, Ok ()) → not_registered id cs →
  is_Ok (consume_user_once cap' parent' id g' w' now' (run cs m1)).2 = false.
Proof.
  intros Hc Hreg.
  assert (∀ e, m1 !! id = Some e → grant_spent e) as H1.
  { revert Hc. unfold consume_user_once.
    destruct (expire_locked cap now m !! id) as [e|] eqn:Hid; [|done].
    destruct (check_user_once_entry e parent g) as [[]|]; [|done].
    destruct (user_once e) as [u|]; [|done]. destruct (negb _); [done|].
    destruct (ug_consumed u); [done|]. intros [= <-] e'. rewrite lookup_insert_eq.
    intros [= <-]. right. by eexists. }
  assert (∀ e, run cs m1 !! id = Some e → grant_spent e) as Hall.
  { apply run_entry; [|done|done]. intros c x x' _ Hx Hs.
    eapply entry_step_grant_spent; [done|]. by apply expire_grant_spent. }
  unfold consume_user_once.
  destruct (expire_locked cap' now' (run cs m1) !! id) as [e0|] eqn:Hid; [|done].
  apply expire_locked_Some in Hid as (e & He & ->).
  destruct (expire_grant_spent now' e (Hall _ He)) as [Hd|(u & Hu & Hcons)].
  - destruct (check_user_once_entry _ parent' g') as [[]|] eqn:Hck; [|done].
    by apply check_user_once_Ok in Hck as [_ ?].
  - destruct (check_user_once_entry _ parent' g') as [[]|]; [|done]. rewrite Hu.
    destruct (negb _); [done|]. by rewrite Hcons.
Qed.

(** A decision is final: while a request is tracked it keeps its terms, what was
    decided stays decided that way or expires, and an expired request is never
    revived. *)
Lemma decisions_are_final id cs m e e' :
  not_registered id cs → m !! id = Some e → run cs m !! id = Some e' →
  pending e' = pending e
  ∧ (∀ d, decision e = Some d → decision e' = Some d ∨ decision e' = Some DExpired)
  ∧ (consumed e = true → consumed e' = true).
Proof.
  intros Hreg He He'.
  apply (run_entry (λ e', pending e' = pending e
    ∧ (∀ d, decision e = Some d → decision e' = Some d ∨ decision e' = Some DExpired)
    ∧ (consumed e = true → consumed e' = true)) id cs m); [|done| |done].
  - intros c x x' _ (Hp & Hd & Hc) Hs.
    destruct (expire_entry_cases (c_now c) x) as (Hpx & Hcx & Hcase).
    split_and!.
    + by rewrite (entry_step_pending _ _ _ _ Hs), Hpx.
    + intros d Hde. destruct Hcase as [[Heq _]|(Hexp & _)].
      * rewrite Heq in Hs.
        destruct (Hd d Hde) as [Hx|Hx]; [left|right]; by eapply entry_step_decision.
      * right. by eapply entry_step_decision.
    + intros Hce. eapply entry_step_consumed; [done|]. rewrite Hcx. auto.
  - intros x Hx. rewrite He in Hx. injection Hx as <-. auto.
Qed.

(** Deciding is idempotent and exclusive: as long as the request has not
    expired, repeating a decision returns it again and the opposite decision is
    refused without changing it. *)
Lemma decide_is_exclusive cap parent g id b r now m m1 d b' r' now' :
  decide_with_reason cap parent g id b r now m = (m1, Ok d) →
  (∀ e, m1 !! id = Some e → now' < expires_at (pending e)) →
  let '(m2, res) := decide_with_reason cap parent g id b' r' now' m1 in
  d = (if b then Approved else Rejected)
  ∧ res = (if Bool.eqb b b' then Ok d else Err AlreadyDecided)
  ∧ (decision <$> m2 !! id) = Some (Some d) ∧ (pending <$> m2 !! id) = (pending <$> m1 !! id).
Proof.
  intros Hdec Hlive.
  assert (∃ e, m1 !! id = Some e ∧ decision e = Some d ∧ owned e parent g
               ∧ d = if b then Approved else Rejected) as (e & He & Hd & Hown & Hdb).
  { revert Hdec. unfold decide_with_reason.
    destruct (expire_locked cap now m !! id) as [e|] eqn:Hid; [|done].
    destruct (check_owner e parent g) as [[]|] eqn:Hck; [|done]. apply check_owner_Ok in Hck.
    destruct (is_expired e) eqn:Hx; [done|]. destruct (decision e) as [d0|] eqn:Hd0.
    - destruct (decide (d0 = if b then Approved else Rejected)) as [->|]; [|done].
      intros [= <- <-]. destruct (_ && _).
      + exists (set_reason r e). rewrite lookup_insert_eq. by split_and!.
      + exists e. by split_and!.
    - intros [= <- <-]. eexists. rewrite lookup_insert_eq. by split_and!. }
  assert (d ≠ DExpired) as Hne by (subst d; by destruct b).
  assert (expire_locked cap now' m1 !! id = Some e) as Hl.
  { apply expire_locked_live; [done|auto|congruence]. }
  unfold decide_with_reason. rewrite Hl. rewrite (proj2 (check_owner_Ok e parent g) Hown).
  assert (is_expired e = false) as ->.
  { unfold is_expired. rewrite bool_decide_false; [done|]. congruence. }
  rewrite Hd, He. split; [done|]. split.
  - subst d. by destruct b, b'.
  - destruct (_ && _ && _); [rewrite lookup_insert_eq|rewrite Hl]; simpl; by rewrite ?Hd.
Qed.

(** A wait never outlives its request: at the timeout the answer is
    [DExpired], also for a request that was decided and forgotten meanwhile. *)
Lemma wait_times_out cap id (p : @PendingApproval Value) m : (wait_timeout cap id p m).2 = DExpired.
Proof.
  unfold wait_timeout. simpl.
  destruct (expire_locked cap (expires_at p) m !! id) as [e'|] eqn:Hid; [|done]. simpl.
  case_decide as Hp; [|done]. apply expire_locked_Some in Hid as (e & _ & ->).
  destruct (expire_entry_cases (expires_at p) e) as (Hpe & _ & [[Heq Hlive]|(Hd & _)]).
  - rewrite Hpe in Hp. rewrite Hp in Hlive. lia.
  - by rewrite Hd.
Qed.

(** The table is bounded: with a fixed capacity and a clock that does not run
    backwards it never holds more than twice the capacity, half of it live. *)
Lemma approvals_are_bounded cap cs :
  monotone cap 0 cs → len (run cs (∅ : gmap string (@Entry Value))) ≤ 2 * cap.
Proof.
  intros Hm. destruct (run_bounded cap 0 cs ∅ Hm) as [t Hb].
  - split; rewrite count_if_empty; lia.
  - by eapply bounded_size.
Qed.

(** What the wait graph and the parent see: the undecided set is exactly the
    requests that are tracked, not expired and not decided, oldest first. *)
Lemma undecided_is_exact cap now m :
  let ps := (undecided cap now m).2 in
  StronglySorted (key_le (λ p, (created_at p, pa_id p))) ps
  ∧ ∀ p, p ∈ ps ↔ ∃ id e, m !! id = Some e ∧ pending e = p ∧ decision e = None ∧ now < expires_at p.
Proof.
  simpl. unfold by_age. split; [apply sort_by_key_sorted|].
  intros p. rewrite elem_of_sort_by_key, elem_of_pendings. split.
  - intros (k & e & He & Hd & <-). apply bool_decide_eq_true in Hd.
    apply expired_cases in He as [He Hl]; [|congruence]. eauto 10.
  - intros (k & e & He & <- & Hd & Hl). exists k, e. split_and!; [|by rewrite bool_decide_true|done].
    apply expire_locked_live; [done|done|congruence].
Qed.
End approvals.

(** ** Witnesses *)

Definition sample_pending : @PendingApproval N := {|
  pa_id := "req"; child_work_id := "child"; parent_chat_id := "parent"; pa_generation := 1;
  tool_call_id := "call"; tool_name := "shell"; args := 7; digest := None; created_at := 10;
  expires_at := 100; execution := None |}.
Definition at_time (t : N) (op : @Op N) : Call := {| c_cap := 4; c_now := t; c_op := op |}.
Definition sample_calls : list Call := [
  at_time 10 (ORegister sample_pending);
  at_time 20 (ODecide "parent" 1 "req" true None)].
Definition sample_table : gmap string (@Entry N) := run sample_calls ∅.
Definition consumed_table : gmap string (@Entry N) := (consume 4 "req" "call" 7 30 sample_table).1.

Lemma execution_needs_approval_witness :
  (consume 4 "req" "call" 7 30 (run sample_calls ∅)).2 = Ok sample_pending
  ∧ authorized sample_calls "req" sample_pending ∧ 30 < expires_at sample_pending.
Proof.
  assert (H : (consume 4 "req" "call" 7 30 (run sample_calls ∅)).2 = Ok sample_pending) by by vm_compute.
  split; [exact H|]. destruct (consume 4 "req" "call" 7 30 (run sample_calls ∅)) as [m' r] eqn:Hc.
  simpl in H. subst r.
  destruct (execution_needs_approval sample_calls 4 "req" "call" 7 30 m' sample_pending Hc)
    as (Ha & Hl & _). split; [exact Ha|exact Hl].
Defined.

Lemma not_registered_nil : not_registered "req" ([] : list (@Call N)).
Proof. intros c p Hc. by apply elem_of_nil in Hc. Qed.

Lemma approval_is_single_use_witness :
  consume 4 "req" "call" 7 30 sample_table = (consumed_table, Ok sample_pending)
  ∧ is_Ok (consume 4 "req" "call" 7 40 (run [] consumed_table)).2 = false.
Proof.
  assert (H : (consume 4 "req" "call" 7 30 sample_table).2 = Ok sample_pending) by by vm_compute.
  assert (Hc : consume 4 "req" "call" 7 30 sample_table = (consumed_table, Ok sample_pending)).
  { unfold consumed_table. rewrite <- H. by destruct (consume 4 "req" "call" 7 30 sample_table). }
  split; [exact Hc|].
  exact (approval_is_single_use 4 "req" "call" 7 30 sample_table consumed_table sample_pending []
    4 "call" 7 40 Hc not_registered_nil).
Defined.

(** The user grants the wrapper call once, and it is used. *)
Definition granted_table : gmap string (@Entry N) :=
  run [at_time 10 (ORegister sample_pending); at_time 20 (OGrant "parent" "req" 1 "wrap")] ∅.
Definition used_table : gmap string (@Entry N) :=
  (consume_user_once 4 "parent" "req" 1 "wrap" 30 granted_table).1.

Lemma user_grant_is_single_use_witness :
  consume_user_once 4 "parent" "req" 1 "wrap" 30 granted_table = (used_table, Ok ())
  ∧ is_Ok (consume_user_once 4 "parent" "req" 1 "wrap" 40 (run [] used_table)).2 = false.
Proof.
  assert (H : (consume_user_once 4 "parent" "req" 1 "wrap" 30 granted_table).2 = Ok ()) by by vm_compute.
  assert (Hc : consume_user_once 4 "parent" "req" 1 "wrap" 30 granted_table = (used_table, Ok ())).
  { unfold used_table. rewrite <- H.
    by destruct (consume_user_once 4 "parent" "req" 1 "wrap" 30 granted_table). }
  split; [exact Hc|].
  exact (user_grant_is_single_use 4 "parent" "req" 1 "wrap" 30 granted_table used_table []
    4 "parent" 1 "wrap" 40 Hc not_registered_nil).
Defined.

Definition approved_entry : @Entry N := {|
  pending := sample_pending; decision := Some Approved; denial_reason := None; user_once := None;
  consumed := false |}.

Lemma decisions_are_final_witness :
  sample_table !! "req" = Some approved_entry
  ∧ ∀ e', run [] sample_table !! "req" = Some e' → pending e' = sample_pending.
Proof.
  assert (H : sample_table !! "req" = Some approved_entry) by by vm_compute.
  split; [exact H|]. intros e' He'.
  exact (proj1 (decisions_are_final "req" [] sample_table approved_entry e' not_registered_nil H He')).
Defined.

Lemma decide_is_exclusive_witness :
  let m0 := run [at_time 10 (ORegister sample_pending)] ∅ in
  let m1 := (decide_with_reason 4 "parent" 1 "req" true None 20 m0).1 in
  (decide_with_reason 4 "parent" 1 "req" true None 20 m0).2 = Ok Approved
  ∧ (decide_with_reason 4 "parent" 1 "req" false None 30 m1).2 = Err AlreadyDecided.
Proof.
  intros m0 m1.
  assert (H : (decide_with_reason 4 "parent" 1 "req" true None 20 m0).2 = Ok Approved) by by vm_compute.
  split; [exact H|].
  assert (Hd : decide_with_reason 4 "parent" 1 "req" true None 20 m0 = (m1, Ok Approved)).
  { unfold m1. rewrite <- H. by destruct (decide_with_reason 4 "parent" 1 "req" true None 20 m0). }
  assert (Hl : ∀ e, m1 !! "req" = Some e → 30 < expires_at (pending e)).
  { assert (Hm : m1 !! "req" = Some approved_entry) by by vm_compute.
    intros e He. rewrite Hm in He. injection He as <-. by vm_compute. }
  pose proof (decide_is_exclusive 4 "parent" 1 "req" true None 20 m0 m1 Approved false None 30 Hd Hl) as Hx.
  destruct (decide_with_reason 4 "parent" 1 "req" false None 30 m1) as [m2 res].
  destruct Hx as (_ & Hres & _). exact Hres.
Defined.

Lemma approvals_are_bounded_witness :
  monotone 4 0 sample_calls ∧ len (run sample_calls (∅ : gmap string (@Entry N))) ≤ 2 * 4.
Proof.
  assert (Hm : monotone 4 0 sample_calls) by (repeat split; by vm_compute).
  split; [exact Hm|]. exact (approvals_are_bounded 4 sample_calls Hm).
Defined.
