(* ===== verification/BoardTypes.v ===== *)
(** * The task board: data

    [refact-tasks/src/types.rs].  Records of the board, its cards and the reports
    attached to them.  Text that the board takes apart (fragment names and
    contents, run names) is kept as [text]; identifiers are [string]s; JSON values
    are a parameter. *)

From stdpp Require Import gmap strings list.
From S2P Require Import Prelude RustStr.
Local Open Scope N_scope.

(** ** Reports *)

Inductive VerificationOutcome :=
  | VUnknown | VPassed | VCommandFailed | VRejected | VPolicyDenied | VInfrastructureFailed
  | VNoCommands.
#[global] Instance VerificationOutcome_eq_dec : EqDecision VerificationOutcome.
Proof. solve_decision. Defined.

Record VerificationResult := {
  command : string;
  exit_code : option Z;
  vr_passed : bool;
  output_tail : string;
  vr_outcome : VerificationOutcome;
  from_cache : bool;
  executed_at : option string;
}.
#[global] Instance VerificationResult_eq_dec : EqDecision VerificationResult.
Proof. solve_decision. Defined.

Inductive VerifierReportClassification :=
  | RUnknown | RPassed | RVerificationFailed | RHumanReview | RUnavailable.
#[global] Instance VerifierReportClassification_eq_dec : EqDecision VerifierReportClassification.
Proof. solve_decision. Defined.

Record VerifierReport := {
  passed : bool;
  command_results : list VerificationResult;
  concerns : list string;
  recommendation : string;
  classification : VerifierReportClassification;
}.
#[global] Instance VerifierReport_eq_dec : EqDecision VerifierReport.
Proof. solve_decision. Defined.

Record SuggestedCard := {
  sc_title : string; sc_instructions : string; sc_priority : string; sc_target_files : list string;
}.

Record FinalReport := {
  fr_summary : string;
  fr_success : bool;
  files_changed : list string;
  tests_added_or_updated : list string;
  fr_verification : list VerificationResult;
  followup_cards : list SuggestedCard;
  risks : list string;
  assumptions : list string;
}.

(** ** A/B variants *)

Record AbVariantFinish := {
  af_success : bool;
  af_final_report : string;
  af_final_report_structured : option FinalReport;
  af_completed_at : string;
  commit_hash : option string;
}.
Record AbVariantInfo := {
  agent_id : string;
  av_chat_id : string;
  worktree : string;
  worktree_name : option string;
  av_branch : option string;
  av_model : option string;
  finish : option AbVariantFinish;
}.
Record AbVariants := { variant_a : AbVariantInfo; variant_b : AbVariantInfo; winner : option string }.

Definition variant (key : string) (v : AbVariants) : option AbVariantInfo :=
  if bool_decide (key = "a") then Some (variant_a v)
  else if bool_decide (key = "b") then Some (variant_b v) else None.
Definition variant_key_for_chat_id (chat_id : string) (v : AbVariants) : option string :=
  if bool_decide (av_chat_id (variant_a v) = chat_id) then Some "a"
  else if bool_decide (av_chat_id (variant_b v) = chat_id) then Some "b" else None.
Definition all_finished (v : AbVariants) : bool :=
  bool_decide (is_Some (finish (variant_a v))) && bool_decide (is_Some (finish (variant_b v))).

(** ** Cards *)

Inductive ScopeGuardMode := SgOff | SgWarn | SgReject | SgStrict.
Record TeamMember := {
  tm_role : string; tm_agent_chat_id : option string; tm_agent_branch : option string;
  tm_status : option string;
}.
Record CardComment := {
  cc_id : string; author_role : string; author_id : option string; cc_timestamp : string;
  cc_body : string; reply_to : option string;
}.
Record StatusUpdate := { su_timestamp : string; su_message : string }.
Record CardAttention := { ca_reason : string; ca_kind : string; since : string; ca_count : N }.

Section cards.
Context {Value : Type}.

Record BoardCard := {
  card_id : string;
  title : string;
  column : string;
  priority : string;
  depends_on : list string;
  instructions : string;
  assignee : option string;
  agent_chat_id : option string;
  status_updates : list StatusUpdate;
  comments : list CardComment;
  final_report : option string;
  final_report_structured : option FinalReport;
  verifier_report : option VerifierReport;
  created_at : string;
  started_at : option string;
  last_heartbeat_at : option string;
  paused_at : option string;
  paused_by : option string;
  completed_at : option string;
  agent_branch : option string;
  agent_worktree : option string;
  agent_worktree_name : option string;
  base_branch : option string;
  base_commit : option string;
  ab_variants : option AbVariants;
  team_members : list TeamMember;
  target_files : list string;
  scope_guard_mode : ScopeGuardMode;
  attention : option CardAttention;
  deliverable : option Value;
  verification : list Value;
}.

(** The only field of a card the board itself ever replaces. *)
Definition set_verifier_report (r : option VerifierReport) (c : BoardCard) : BoardCard := {|
  card_id := card_id c; title := title c; column := column c; priority := priority c;
  depends_on := depends_on c; instructions := instructions c; assignee := assignee c;
  agent_chat_id := agent_chat_id c; status_updates := status_updates c; comments := comments c;
  final_report := final_report c; final_report_structured := final_report_structured c;
  verifier_report := r; created_at := created_at c; started_at := started_at c;
  last_heartbeat_at := last_heartbeat_at c; paused_at := paused_at c; paused_by := paused_by c;
  completed_at := completed_at c; agent_branch := agent_branch c;
  agent_worktree := agent_worktree c; agent_worktree_name := agent_worktree_name c;
  base_branch := base_branch c; base_commit := base_commit c; ab_variants := ab_variants c;
  team_members := team_members c; target_files := target_files c;
  scope_guard_mode := scope_guard_mode c; attention := attention c; deliverable := deliverable c;
  verification := verification c |}.
End cards.
Arguments BoardCard Value : clear implicits.
