(* ===== verification/Outcome.v ===== *)
(** * Outcome documents of cards

    [refact-tasks/src/types.rs]: the sections a planner requires of a card, the
    fragments a run delivers for them, and their reviews. *)

From stdpp Require Import gmap strings list pretty.
From S2P Require Import Prelude RustStr BoardTypes.
Local Open Scope N_scope.

(** ** Data *)

Inductive FragmentReview := FrPending | FrApproved | FrRejected | FrContradicted.
#[global] Instance FragmentReview_eq_dec : EqDecision FragmentReview.
Proof. solve_decision. Defined.
Definition label (r : FragmentReview) : string :=
  match r with
  | FrPending => "pending" | FrApproved => "approved" | FrRejected => "rejected"
  | FrContradicted => "contradicted"
  end.

Record OutcomeRequirement := { req_fragment : text; requires_evidence : bool }.
#[global] Instance OutcomeRequirement_eq_dec : EqDecision OutcomeRequirement.
Proof. solve_decision. Defined.

Record OutcomeProvenance := { source_run : option text; evidence_spec_ids : list string }.

Record OutcomeFragment := {
  frag_name : text;
  frag_content : text;
  provenance : OutcomeProvenance;
  frag_review : FragmentReview;
  frag_reviewer : option string;
  frag_reviewed_at : option string;
  review_note : option string;
}.

Record CardFinalization := { finalized_by : string; finalized_at : string }.

Record CardOutcome := {
  required : list OutcomeRequirement;
  fragments : list OutcomeFragment;
  finalized : option CardFinalization;
}.
(** [CardOutcome::default]. *)
Definition empty_outcome : CardOutcome := {| required := []; fragments := []; finalized := None |}.
Definition outcome_is_empty (o : CardOutcome) : bool :=
  bool_decide (required o = []) && bool_decide (length (fragments o) = O)
  && bool_decide (finalized o = None).

(** ** Names and placeholders *)

Definition is_dash (c : N) : bool := c =? 45.
Definition is_backtick (c : N) : bool := c =? 96.
Definition is_dot (c : N) : bool := c =? 46.

Definition OUTCOME_PLACEHOLDERS : list text :=
  [lit "_none._"; lit "_none_"; lit "_none provided._"; lit "none"; lit "n/a"].

Definition line_is_absent (line : text) : bool :=
  let line := trim (trim_start_matches is_dash (trim line)) in
  bool_decide (line = [])
  || existsb (λ placeholder, eq_ignore_ascii_case line placeholder) OUTCOME_PLACEHOLDERS.

Definition fragment_content_is_absent (content : text) : bool :=
  let trimmed := trim content in
  if bool_decide (trimmed = []) then true
  else forallb line_is_absent (lines trimmed).

Definition normalize_fragment_name (name : text) : text :=
  (λ c, if (c =? 32) || (c =? 45) then 95 else c) <$>
    to_ascii_lowercase (trim (trim_matches is_dot (trim_matches is_backtick (trim name)))).

Definition fragment_names (t : text) : list text :=
  filter (λ name, name ≠ []) (normalize_fragment_name <$> split_on 44 t).

(** ** Requirements declared in the instructions *)

Definition clean_line (line : text) : text :=
  replace (lit "**") [] (trim (trim_start_matches is_dash (trim line))).

Definition add_evidence (needs : list text) (name : text) : list text :=
  if bool_decide (name ∈ needs) then needs else needs ++ [name].
Definition add_requirement (required : list OutcomeRequirement) (name : text)
  : list OutcomeRequirement :=
  if existsb (λ r, bool_decide (req_fragment r = name)) required then required
  else required ++ [{| req_fragment := name; requires_evidence := false |}].

(** One line of the instructions. *)
Definition read_line (acc : list OutcomeRequirement * list text) (line : text)
  : list OutcomeRequirement * list text :=
  let lower := to_ascii_lowercase (clean_line line) in
  match strip_prefix (lit "required outcome evidence:") lower with
  | Some rest => (acc.1, foldl add_evidence acc.2 (fragment_names rest))
  | None =>
      match strip_prefix (lit "required outcome:") lower with
      | Some rest => (foldl add_requirement acc.1 (fragment_names rest), acc.2)
      | None => acc
      end
  end.

(** The first requirement with the name gains the flag, or one is added. *)
Fixpoint require_evidence (required : list OutcomeRequirement) (name : text)
  : list OutcomeRequirement :=
  match required with
  | [] => [{| req_fragment := name; requires_evidence := true |}]
  | r :: rest =>
      if bool_decide (req_fragment r = name)
      then {| req_fragment := req_fragment r; requires_evidence := true |} :: rest
      else r :: require_evidence rest name
  end.

Definition outcome_requirements_from_instructions (instructions : text) : list OutcomeRequirement :=
  let '(required, needs_evidence) := foldl read_line ([], []) (lines instructions) in
  foldl require_evidence required needs_evidence.

(** ** Fragments *)

(** [OutcomeFragment::new]. *)
Definition new_fragment (name content : text) (run : option text) : OutcomeFragment := {|
  frag_name := normalize_fragment_name name; frag_content := content;
  provenance := {| source_run := run; evidence_spec_ids := [] |};
  frag_review := FrPending; frag_reviewer := None; frag_reviewed_at := None; review_note := None |}.

(** ** The sections of a final report *)

Definition OUTCOME_FRAGMENT_SUMMARY : string := "summary".
Definition OUTCOME_FRAGMENT_FILES_CHANGED : string := "files_changed".
Definition OUTCOME_FRAGMENT_TESTS : string := "tests_added_or_updated".
Definition OUTCOME_FRAGMENT_VERIFICATION : string := "verification".
Definition OUTCOME_FRAGMENT_FOLLOWUP_CARDS : string := "followup_cards".
Definition OUTCOME_FRAGMENT_RISKS : string := "risks".
Definition OUTCOME_FRAGMENT_ASSUMPTIONS : string := "assumptions".

Definition bullet_lines (items : list string) : text :=
  join_lines ((λ item, lit "- " ++ chars item) <$> items).

Definition verification_line (r : VerificationResult) : text :=
  lit "- " ++ chars (command r) ++ lit " — " ++ lit (if vr_passed r then "passed" else "failed")
  ++ match exit_code r with
     | Some exit_code => lit " (exit code " ++ chars (pretty exit_code) ++ lit ")"
     | None => []
     end.

(** The sections in the order they are pushed. *)
Definition report_sections (r : FinalReport) : list (string * text) := [
  (OUTCOME_FRAGMENT_SUMMARY, chars (fr_summary r));
  (OUTCOME_FRAGMENT_FILES_CHANGED, bullet_lines (files_changed r));
  (OUTCOME_FRAGMENT_TESTS, bullet_lines (tests_added_or_updated r));
  (OUTCOME_FRAGMENT_VERIFICATION, join_lines (verification_line <$> fr_verification r));
  (OUTCOME_FRAGMENT_FOLLOWUP_CARDS, join_lines ((λ c, lit "- " ++ chars (sc_title c)) <$> followup_cards r));
  (OUTCOME_FRAGMENT_RISKS, bullet_lines (risks r));
  (OUTCOME_FRAGMENT_ASSUMPTIONS, bullet_lines (assumptions r))].

Definition push_section (run : option text) (acc : list OutcomeFragment) (p : string * text)
  : list OutcomeFragment :=
  if fragment_content_is_absent p.2 then acc else acc ++ [new_fragment (lit p.1) p.2 run].
Definition to_outcome_fragments (run : option text) (r : FinalReport) : list OutcomeFragment :=
  foldl (push_section run) [] (report_sections r).

Definition has_content (f : OutcomeFragment) : bool :=
  negb (fragment_content_is_absent (frag_content f)).

Definition find_fragment (name : text) (fs : list OutcomeFragment) : option OutcomeFragment :=
  snd <$> list_find (λ f, frag_name f = name) fs.
Definition fragment (name : text) (o : CardOutcome) : option OutcomeFragment :=
  find_fragment (normalize_fragment_name name) (fragments o).
Definition requirement (name : text) (o : CardOutcome) : option OutcomeRequirement :=
  let name := normalize_fragment_name name in
  snd <$> list_find (λ r, req_fragment r = name) (required o).

(** Replaces the first fragment of the same name, or adds the fragment. *)
Fixpoint put_fragment (new : OutcomeFragment) (fs : list OutcomeFragment) : list OutcomeFragment :=
  match fs with
  | [] => [new]
  | f :: rest =>
      if bool_decide (frag_name f = frag_name new) then new :: rest else f :: put_fragment new rest
  end.
Definition set_fragment (new : OutcomeFragment) (o : CardOutcome) : CardOutcome :=
  {| required := required o; fragments := put_fragment new (fragments o); finalized := finalized o |}.

(** Changes the first fragment of that name. *)
Fixpoint alter_fragment (g : OutcomeFragment → OutcomeFragment) (name : text)
    (fs : list OutcomeFragment) : list OutcomeFragment :=
  match fs with
  | [] => []
  | f :: rest => if bool_decide (frag_name f = name) then g f :: rest else f :: alter_fragment g name rest
  end.

Definition set_fragments (fs : list OutcomeFragment) (o : CardOutcome) : CardOutcome :=
  {| required := required o; fragments := fs; finalized := finalized o |}.

Definition reviewed (review : FragmentReview) (reviewer at_time : string) (note : option string)
    (f : OutcomeFragment) : OutcomeFragment := {|
  frag_name := frag_name f; frag_content := frag_content f; provenance := provenance f;
  frag_review := review; frag_reviewer := Some reviewer; frag_reviewed_at := Some at_time;
  review_note := note |}.

Definition record_review (name : text) (review : FragmentReview) (reviewer at_time : string)
    (note : option string) (o : CardOutcome) : result CardOutcome text :=
  let name := normalize_fragment_name name in
  match find_fragment name (fragments o) with
  | None => Err (lit "outcome has no fragment " ++ name)
  | Some _ => Ok (set_fragments (alter_fragment (reviewed review reviewer at_time note) name
                                   (fragments o)) o)
  end.

Definition add_spec (ids : list string) (spec_id : string) : list string :=
  if bool_decide (spec_id ∈ ids) then ids else ids ++ [spec_id].
Definition with_evidence (spec_ids : list string) (f : OutcomeFragment) : OutcomeFragment := {|
  frag_name := frag_name f; frag_content := frag_content f;
  provenance := {| source_run := source_run (provenance f);
                   evidence_spec_ids := foldl add_spec (evidence_spec_ids (provenance f)) spec_ids |};
  frag_review := frag_review f; frag_reviewer := frag_reviewer f;
  frag_reviewed_at := frag_reviewed_at f; review_note := review_note f |}.

Definition attach_evidence (name : text) (spec_ids : list string) (o : CardOutcome) : CardOutcome :=
  set_fragments (alter_fragment (with_evidence spec_ids) (normalize_fragment_name name) (fragments o)) o.
