(* ===== verification/Board.v ===== *)
(** * The task board

    [refact-tasks/src/types.rs], [impl TaskBoard].  A board holds cards that depend
    on each other, the claims of the agents that work on them, and the reviews
    that gate their finalization.  Every operation is a function of the board; error
    messages are kept, since callers compare and forward them. *)

From stdpp Require Import gmap strings list pretty.
From S2P Require Import Prelude RustStr BoardTypes Outcome.
Local Open Scope N_scope.

(** ** Data *)

Record CardClaim := { claimant_chat_id : string; idempotency_key : string; claimed_at : string }.
Record DependencyOverride := {
  overridden_by : string; override_reason : string; overridden_at : string;
  override_unsatisfied : list string;
}.
Inductive ClaimOutcome := Claimed | AlreadyHeld.

Inductive BoardRuleViolation :=
  | BvCardNotFound (id : string)
  | AlreadyClaimed (id holder : string)
  | DependenciesUnsatisfied (id : string) (unsatisfied : list string)
  | RoleDenied (id reason : string).

Definition join (sep : string) (l : list string) : string :=
  match l with
  | [] => ""
  | x :: l => foldl (λ acc y, acc +:+ sep +:+ y) x l
  end.

Definition violation_code (v : BoardRuleViolation) : string :=
  match v with
  | BvCardNotFound _ => "not_found_or_not_visible"
  | AlreadyClaimed _ _ => "already_claimed"
  | DependenciesUnsatisfied _ _ => "dependency_unsatisfied"
  | RoleDenied _ _ => "scope_denied"
  end.
Definition violation_retryable (v : BoardRuleViolation) : bool :=
  match v with DependenciesUnsatisfied _ _ => true | _ => false end.
Definition violation_message (v : BoardRuleViolation) : string :=
  match v with
  | BvCardNotFound id => "card " +:+ id +:+ " not found on this board"
  | AlreadyClaimed id holder => "card " +:+ id +:+ " is already claimed by " +:+ holder
  | DependenciesUnsatisfied id unsatisfied =>
      "card " +:+ id +:+ " is blocked by unsatisfied dependencies: " +:+ join ", " unsatisfied
  | RoleDenied id reason => "card " +:+ id +:+ ": " +:+ reason
  end.

Inductive BoardReviewPolicy := OwnerAllowed | IndependentRequired.
#[global] Instance BoardReviewPolicy_eq_dec : EqDecision BoardReviewPolicy.
Proof. solve_decision. Defined.

Record BoardReviewAttestation := {
  reviewer_chat_id : string; reviewed_at : string; att_report : VerifierReport;
}.

Record BoardColumn := { col_id : string; col_title : string }.
Definition default_columns : list BoardColumn := [
  {| col_id := "planned"; col_title := "Planned" |}; {| col_id := "doing"; col_title := "Doing" |};
  {| col_id := "done"; col_title := "Done" |}; {| col_id := "failed"; col_title := "Failed" |};
  {| col_id := "regressed"; col_title := "Regressed" |}].

Inductive FinalizeBlock :=
  | CardNotFound (id : string)
  | NotCompleted (id column : string)
  | AlreadyFinalized (id by_whom : string)
  | ReviewDenied (reason : string)
  | MissingFragment (fragment : text)
  | EmptyFragment (fragment : text)
  | RejectedFragment (fragment : text) (reason : string)
  | ContradictedFragment (fragment : text) (reason : string)
  | MissingSourceRun (fragment : text)
  | MissingEvidence (fragment : text).

Record FinalizeDecision := { blocks : list FinalizeBlock }.
Definition allowed (d : FinalizeDecision) : bool :=
  match blocks d with [] => true | _ :: _ => false end.

Record ReadyCardsResult := {
  ready : list string; blocked : list string; in_progress : list string;
  completed : list string; failed : list string;
}.

Section board.
Context {Value Reply : Type}.

Record TaskBoard := {
  schema_version : N;
  rev : N;
  columns : list BoardColumn;
  cards : list (BoardCard Value);
  owner_chat_id : option string;
  reviewer_chat_ids : list string;
  review_policy : BoardReviewPolicy;
  review_attestations : gmap string BoardReviewAttestation;
  card_claims : gmap string CardClaim;
  dependency_overrides : gmap string DependencyOverride;
  card_outcomes : gmap string CardOutcome;
  planner_replies : gmap string (gmap string Reply);
  card_attempt_generations : gmap string N;
}.

Definition default_board : TaskBoard := {|
  schema_version := 1; rev := 0; columns := default_columns; cards := []; owner_chat_id := None;
  reviewer_chat_ids := []; review_policy := OwnerAllowed; review_attestations := ∅;
  card_claims := ∅; dependency_overrides := ∅; card_outcomes := ∅; planner_replies := ∅;
  card_attempt_generations := ∅ |}.

(** ** Field updates *)

Definition upd_cards (x : list (BoardCard Value)) (b : TaskBoard) : TaskBoard := {|
  schema_version := schema_version b; rev := rev b; columns := columns b; cards := x;
  owner_chat_id := owner_chat_id b; reviewer_chat_ids := reviewer_chat_ids b;
  review_policy := review_policy b; review_attestations := review_attestations b;
  card_claims := card_claims b; dependency_overrides := dependency_overrides b;
  card_outcomes := card_outcomes b; planner_replies := planner_replies b;
  card_attempt_generations := card_attempt_generations b |}.
Definition upd_roles (o : option string) (r : list string) (b : TaskBoard) : TaskBoard := {|
  schema_version := schema_version b; rev := rev b; columns := columns b; cards := cards b;
  owner_chat_id := o; reviewer_chat_ids := r;
  review_policy := review_policy b; review_attestations := review_attestations b;
  card_claims := card_claims b; dependency_overrides := dependency_overrides b;
  card_outcomes := card_outcomes b; planner_replies := planner_replies b;
  card_attempt_generations := card_attempt_generations b |}.
Definition upd_attestations (x : gmap string BoardReviewAttestation) (b : TaskBoard) : TaskBoard := {|
  schema_version := schema_version b; rev := rev b; columns := columns b; cards := cards b;
  owner_chat_id := owner_chat_id b; reviewer_chat_ids := reviewer_chat_ids b;
  review_policy := review_policy b; review_attestations := x;
  card_claims := card_claims b; dependency_overrides := dependency_overrides b;
  card_outcomes := card_outcomes b; planner_replies := planner_replies b;
  card_attempt_generations := card_attempt_generations b |}.
Definition upd_claims (x : gmap string CardClaim) (y : gmap string DependencyOverride) (b : TaskBoard)
  : TaskBoard := {|
  schema_version := schema_version b; rev := rev b; columns := columns b; cards := cards b;
  owner_chat_id := owner_chat_id b; reviewer_chat_ids := reviewer_chat_ids b;
  review_policy := review_policy b; review_attestations := review_attestations b;
  card_claims := x; dependency_overrides := y;
  card_outcomes := card_outcomes b; planner_replies := planner_replies b;
  card_attempt_generations := card_attempt_generations b |}.
Definition upd_outcomes (x : gmap string CardOutcome) (b : TaskBoard) : TaskBoard := {|
  schema_version := schema_version b; rev := rev b; columns := columns b; cards := cards b;
  owner_chat_id := owner_chat_id b; reviewer_chat_ids := reviewer_chat_ids b;
  review_policy := review_policy b; review_attestations := review_attestations b;
  card_claims := card_claims b; dependency_overrides := dependency_overrides b;
  card_outcomes := x; planner_replies := planner_replies b;
  card_attempt_generations := card_attempt_generations b |}.

(** ** Lookup *)

Definition find_card (id : string) (cs : list (BoardCard Value)) : option (BoardCard Value) :=
  snd <$> list_find (λ c, card_id c = id) cs.
Definition get_card (id : string) (b : TaskBoard) : option (BoardCard Value) := find_card id (cards b).

(** [get_card_mut] and an assignment: the first card of that id changes. *)
Fixpoint alter_card (g : BoardCard Value → BoardCard Value) (id : string) (cs : list (BoardCard Value))
  : list (BoardCard Value) :=
  match cs with
  | [] => []
  | c :: rest => if bool_decide (card_id c = id) then g c :: rest else c :: alter_card g id rest
  end.

Definition get_card_id (b : TaskBoard) (id : string) : option string := card_id <$> get_card id b.

(** ** [validate_dependencies] *)

(** [by_id.insert] of every card; [Err] names the first id met twice. *)
Fixpoint index_ids (i : nat) (cs : list (BoardCard Value)) (by_id : gmap string nat)
  : result (gmap string nat) string :=
  match cs with
  | [] => Ok by_id
  | c :: rest =>
      match by_id !! card_id c with
      | Some _ => Err ("Duplicate card ID " +:+ card_id c)
      | None => index_ids (S i) rest (<[card_id c := i]> by_id)
      end
  end.

(** The first element that occurs before in the list. *)
Fixpoint find_duplicate (seen l : list string) : option string :=
  match l with
  | [] => None
  | x :: l => if bool_decide (x ∈ seen) then Some x else find_duplicate (x :: seen) l
  end.

Definition check_card (by_id : gmap string nat) (c : BoardCard Value) : result unit string :=
  if bool_decide (card_id c ∈ depends_on c)
  then Err ("Card " +:+ card_id c +:+ " cannot depend on itself")
  else match find_duplicate [] (depends_on c) with
       | Some duplicate =>
           Err ("Card " +:+ card_id c +:+ " lists dependency " +:+ duplicate +:+ " more than once")
       | None =>
           match list_find (λ d, by_id !! d = None) (depends_on c) with
           | Some (_, missing) =>
               Err ("Card " +:+ card_id c +:+ " dependency " +:+ missing +:+ " does not exist")
           | None => Ok ()
           end
       end.

Fixpoint check_cards (by_id : gmap string nat) (cs : list (BoardCard Value)) : result unit string :=
  match cs with
  | [] => Ok ()
  | c :: rest => let? _ := check_card by_id c in check_cards by_id rest
  end.

(** The positions of the cards that depend on position [j], in order. *)
Definition push_dependents (by_id : gmap string nat) (dependents : list (list nat))
    (ic : nat * BoardCard Value) : option (list (list nat)) :=
  foldl (λ acc d, deps ← acc; j ← by_id !! d; row ← deps !! j; Some (<[j := row ++ [ic.1]]> deps))
    (Some dependents) (depends_on ic.2).
Definition build_dependents (by_id : gmap string nat) (cs : list (BoardCard Value))
  : option (list (list nat)) :=
  foldl (λ acc ic, deps ← acc; push_dependents by_id deps ic) (Some (replicate (length cs) []))
    (imap pair cs).

(** [indegree[*dependent] -= 1] and the push; [None] is an underflow or an index
    out of range. *)
Definition relax (st : option (list nat * list nat)) (dependent : nat)
  : option (list nat * list nat) :=
  '(indegree, queue) ← st; degree ← indegree !! dependent;
  match degree with
  | O => None
  | S d => Some (<[dependent := d]> indegree, if Nat.eqb d 0 then queue ++ [dependent] else queue)
  end.

(** The [while let] loop; returns the visited count and the final indegrees. *)
Fixpoint visit (fuel : nat) (dependents : list (list nat)) (queue indegree : list nat) (visited : nat)
  : option (nat * list nat) :=
  match queue with
  | [] => Some (visited, indegree)
  | index :: queue =>
      match fuel with
      | O => None
      | S fuel =>
          row ← dependents !! index;
          '(indegree, queue) ← foldl relax (Some (indegree, queue)) row;
          visit fuel dependents queue indegree (S visited)
      end
  end.

Definition initially_ready (indegree : list nat) : list nat :=
  (filter (λ p, p.2 = O) (imap pair indegree)).*1.

(** [None] is a panic or an exhausted fuel. *)
Definition validate_dependencies (b : TaskBoard) : option (result unit string) :=
  match index_ids O (cards b) ∅ with
  | Err e => Some (Err e)
  | Ok by_id =>
      match check_cards by_id (cards b) with
      | Err e => Some (Err e)
      | Ok _ =>
          dependents ← build_dependents by_id (cards b);
          let indegree := (λ c, length (depends_on c)) <$> cards b in
          '(visited, indegree) ← visit (length (cards b)) dependents (initially_ready indegree) indegree O;
          if Nat.eqb visited (length (cards b)) then Some (Ok ())
          else
            let cycle := match list_find (λ p, (0 < p.1)%nat) (zip indegree (cards b)) with
                         | Some (_, (_, c)) => card_id c
                         | None => "unknown"
                         end in
            Some (Err ("Dependency cycle includes " +:+ cycle))
      end
  end.

(** ** [validate_claims] and [validate_authority] *)

Definition blank (s : string) : bool := bool_decide (trim (chars s) = []).

(** The first error of a list of checks. *)
Fixpoint first_error {A} (check : A → result unit string) (l : list A) : result unit string :=
  match l with
  | [] => Ok ()
  | x :: l => let? _ := check x in first_error check l
  end.

Definition check_claim (b : TaskBoard) (max_claim_key_len : N) (p : string * CardClaim)
  : result unit string :=
  let '(id, claim) := p in
  if bool_decide (get_card_id b id = None)
  then Err ("Claim references missing card " +:+ id)
  else if blank (claimant_chat_id claim)
  then Err ("Claim on card " +:+ id +:+ " has an empty claimant")
  else if blank (idempotency_key claim)
  then Err ("Claim on card " +:+ id +:+ " has an empty idempotency key")
  else if max_claim_key_len <? Nlen (chars (idempotency_key claim))
  then Err ("Claim idempotency key on card " +:+ id +:+ " exceeds the configured maximum of "
            +:+ pretty max_claim_key_len +:+ " characters")
  else Ok ().

Definition check_override (b : TaskBoard) (p : string * DependencyOverride) : result unit string :=
  let '(id, o) := p in
  if bool_decide (get_card_id b id = None)
  then Err ("Dependency override references missing card " +:+ id)
  else if blank (overridden_by o)
  then Err ("Dependency override on card " +:+ id +:+ " has no recorded principal")
  else if blank (override_reason o)
  then Err ("Dependency override on card " +:+ id +:+ " has no recorded reason")
  else Ok ().

Definition validate_claims (max_claim_key_len : N) (b : TaskBoard) : result unit string :=
  let? _ := first_error (check_claim b max_claim_key_len) (btree_list (card_claims b)) in
  first_error (check_override b) (btree_list (dependency_overrides b)).

(** The reviewers in order, each against the ones before it. *)
Fixpoint check_reviewers (owner : option string) (seen l : list string) : result unit string :=
  match l with
  | [] => Ok ()
  | reviewer :: l =>
      if blank reviewer then Err "Task board reviewer IDs cannot be empty"
      else if bool_decide (reviewer ∈ seen)
      then Err ("Task board reviewer " +:+ reviewer +:+ " is duplicated")
      else if bool_decide (owner = Some reviewer)
      then Err "Task board owner cannot also be an assigned reviewer"
      else check_reviewers owner (reviewer :: seen) l
  end.

Definition check_attestation (b : TaskBoard) (p : string * BoardReviewAttestation)
  : result unit string :=
  let '(id, a) := p in
  match get_card id b with
  | None => Err ("Review attestation references missing card " +:+ id)
  | Some card =>
      if negb (bool_decide (verifier_report card = Some (att_report a)))
      then Err ("Review attestation for card " +:+ id +:+ " does not match its verifier report")
      else if negb (bool_decide (reviewer_chat_id a ∈ reviewer_chat_ids b))
      then Err ("Review attestation for card " +:+ id +:+ " names unassigned reviewer "
                +:+ reviewer_chat_id a)
      else if bool_decide (owner_chat_id b = Some (reviewer_chat_id a))
      then Err ("Review attestation for card " +:+ id +:+ " was produced by the board owner")
      else Ok ()
  end.

Definition validate_authority (max_reviewers : N) (b : TaskBoard) : result unit string :=
  if max_reviewers <? Nlen (reviewer_chat_ids b)
  then Err ("Task board has " +:+ pretty (Nlen (reviewer_chat_ids b))
            +:+ " reviewers, exceeding the configured maximum of " +:+ pretty max_reviewers)
  else
    let? _ := check_reviewers (owner_chat_id b) [] (reviewer_chat_ids b) in
    if bool_decide (owner_chat_id b = Some "") then Err "Task board owner ID cannot be empty"
    else first_error (check_attestation b) (btree_list (review_attestations b)).

Definition validate_for_write (max_reviewers max_claim_key_len : N) (b : TaskBoard)
  : option (result unit string) :=
  deps ← validate_dependencies b;
  Some (let? _ := deps in
        let? _ := validate_authority max_reviewers b in
        validate_claims max_claim_key_len b).

(** ** Dependencies and claims *)

Definition card_claim (id : string) (b : TaskBoard) : option CardClaim := card_claims b !! id.

Definition is_done (c : BoardCard Value) : bool := bool_decide (column c = "done").

Definition dependency_unsatisfied (b : TaskBoard) (d : string) : bool :=
  match get_card d b with None => true | Some c => negb (is_done c) end.

Definition unsatisfied_dependencies (id : string) (b : TaskBoard)
  : result (list string) BoardRuleViolation :=
  match get_card id b with
  | None => Err (BvCardNotFound id)
  | Some c => Ok (filter (λ d, dependency_unsatisfied b d = true) (depends_on c))
  end.

Definition dependency_gate (id : string) (b : TaskBoard) : result unit BoardRuleViolation :=
  let? unsatisfied := unsatisfied_dependencies id b in
  if bool_decide (unsatisfied = []) || bool_decide (is_Some (dependency_overrides b !! id))
  then Ok () else Err (DependenciesUnsatisfied id unsatisfied).

Definition ensure_column_move_allowed (id col : string) (b : TaskBoard)
  : result unit BoardRuleViolation :=
  match get_card id b with
  | None => Err (BvCardNotFound id)
  | Some _ => if bool_decide (col = "doing") then dependency_gate id b else Ok ()
  end.

Definition claim_card (id claimant key at_time : string) (b : TaskBoard)
  : TaskBoard * result ClaimOutcome BoardRuleViolation :=
  match dependency_gate id b with
  | Err e => (b, Err e)
  | Ok _ =>
      match card_claims b !! id with
      | Some existing =>
          if bool_decide (claimant_chat_id existing = claimant)
             && bool_decide (idempotency_key existing = key)
          then (b, Ok AlreadyHeld)
          else (b, Err (AlreadyClaimed id (claimant_chat_id existing)))
      | None =>
          let claim := {| claimant_chat_id := claimant; idempotency_key := key; claimed_at := at_time |} in
          (upd_claims (<[id := claim]> (card_claims b)) (dependency_overrides b) b, Ok Claimed)
      end
  end.

Definition release_claim (id claimant : string) (b : TaskBoard)
  : TaskBoard * result unit BoardRuleViolation :=
  match card_claims b !! id with
  | None => (b, Ok ())
  | Some existing =>
      if bool_decide (claimant_chat_id existing = claimant)
      then (upd_claims (delete id (card_claims b)) (dependency_overrides b) b, Ok ())
      else (b, Err (AlreadyClaimed id (claimant_chat_id existing)))
  end.

Definition record_dependency_override (id by_whom reason at_time : string) (b : TaskBoard)
  : TaskBoard * result (list string) BoardRuleViolation :=
  match unsatisfied_dependencies id b with
  | Err e => (b, Err e)
  | Ok unsatisfied =>
      let o := {| overridden_by := by_whom; override_reason := reason; overridden_at := at_time;
                  override_unsatisfied := unsatisfied |} in
      (upd_claims (card_claims b) (<[id := o]> (dependency_overrides b)) b, Ok unsatisfied)
  end.

Definition check_dependency_done (b : TaskBoard) (id d : string) : result unit string :=
  match get_card d b with
  | None => Err ("Card " +:+ id +:+ " dependency " +:+ d +:+ " does not exist")
  | Some c =>
      if is_done c then Ok ()
      else Err ("Card " +:+ id +:+ " is blocked by dependency " +:+ d +:+ " in '" +:+ column c +:+ "'")
  end.

Definition dependencies_satisfied (id : string) (b : TaskBoard) : option (result unit string) :=
  deps ← validate_dependencies b;
  Some (let? _ := deps in
        match get_card id b with
        | None => Err ("Card " +:+ id +:+ " not found")
        | Some c => first_error (check_dependency_done b id) (depends_on c)
        end).

Definition classify (done_cards : list string) (acc : ReadyCardsResult) (c : BoardCard Value)
  : ReadyCardsResult :=
  let add (l : list string) := l ++ [card_id c] in
  if bool_decide (column c = "done") then
    {| ready := ready acc; blocked := blocked acc; in_progress := in_progress acc;
       completed := add (completed acc); failed := failed acc |}
  else if bool_decide (column c = "failed") || bool_decide (column c = "regressed") then
    {| ready := ready acc; blocked := blocked acc; in_progress := in_progress acc;
       completed := completed acc; failed := add (failed acc) |}
  else if bool_decide (column c = "doing") then
    {| ready := ready acc; blocked := blocked acc; in_progress := add (in_progress acc);
       completed := completed acc; failed := failed acc |}
  else if bool_decide (column c = "planned") then
    if forallb (λ d, bool_decide (d ∈ done_cards)) (depends_on c) then
      {| ready := add (ready acc); blocked := blocked acc; in_progress := in_progress acc;
         completed := completed acc; failed := failed acc |}
    else
      {| ready := ready acc; blocked := add (blocked acc); in_progress := in_progress acc;
         completed := completed acc; failed := failed acc |}
  else acc.

Definition get_ready_cards (b : TaskBoard) : ReadyCardsResult :=
  let done_cards := card_id <$> filter (λ c, column c = "done") (cards b) in
  foldl (classify done_cards)
    {| ready := []; blocked := []; in_progress := []; completed := []; failed := [] |} (cards b).

Definition get_dependency_reports (id : string) (b : TaskBoard) : list (string * string) :=
  match get_card id b with
  | None => []
  | Some c =>
      omap (λ d, dep ← get_card d b; report ← final_report dep; Some (title dep, report)) (depends_on c)
  end.

(** ** Roles and reviews *)

Definition authorize_finalizer (id principal : string) (allow_self_review : bool) (b : TaskBoard)
  : result unit BoardRuleViolation :=
  match get_card id b with
  | None => Err (BvCardNotFound id)
  | Some _ =>
      match owner_chat_id b with
      | None => Ok ()
      | Some owner =>
          let is_owner := bool_decide (owner = principal) in
          let is_reviewer := bool_decide (principal ∈ reviewer_chat_ids b) in
          if negb is_owner && negb is_reviewer
          then Err (RoleDenied id "finalising requires the board owner or an assigned reviewer")
          else
            let claims_the_card := match card_claims b !! id with
                                   | Some claim => bool_decide (claimant_chat_id claim = principal)
                                   | None => false
                                   end in
            if claims_the_card && negb allow_self_review
            then Err (RoleDenied id "self-review is refused; enable coordination.board_allow_self_review to permit the claimant to finalise its own card")
            else Ok ()
      end
  end.

Definition authorize_owner (chat : string) (b : TaskBoard) : TaskBoard * result unit string :=
  match owner_chat_id b with
  | None => (upd_roles (Some chat) (reviewer_chat_ids b) b, Ok ())
  | Some owner =>
      if bool_decide (owner = chat) then (b, Ok ())
      else (b, Err "task board mutation requires the owning planner chat")
  end.

Definition require_owner (chat : string) (b : TaskBoard) : result unit string :=
  match owner_chat_id b with
  | Some owner =>
      if bool_decide (owner = chat) then Ok ()
      else Err "task board mutation requires the owning planner chat"
  | None => Err "task board has no owner; claim ownership first"
  end.

Definition owner_may_review (allow_self_review : bool) (b : TaskBoard) : bool :=
  allow_self_review && bool_decide (review_policy b = OwnerAllowed).

Definition authorize_reviewer (chat : string) (allow_self_review : bool) (b : TaskBoard)
  : result unit string :=
  let owner := bool_decide (owner_chat_id b = Some chat) in
  let assigned := bool_decide (chat ∈ reviewer_chat_ids b) in
  if assigned || (owner && owner_may_review allow_self_review b) then Ok ()
  else if owner then Err "task review policy requires an independent assigned reviewer"
  else Err "task review requires the owner or an assigned reviewer".

Definition review_policy_allows_report (id : string) (report : VerifierReport)
    (allow_self_review : bool) (b : TaskBoard) : result unit string :=
  if owner_may_review allow_self_review b then Ok ()
  else match review_attestations b !! id with
       | None => Err "task review policy requires an independent reviewer report"
       | Some a =>
           if negb (bool_decide (att_report a = report))
           then Err "task review attestation no longer matches the stored report"
           else if bool_decide (owner_chat_id b = Some (reviewer_chat_id a))
           then Err "task review policy forbids owner self-review"
           else if negb (bool_decide (reviewer_chat_id a ∈ reviewer_chat_ids b))
           then Err ("task reviewer " +:+ reviewer_chat_id a +:+ " is no longer assigned to this board")
           else Ok ()
       end.

Definition attest_review (id reviewer : string) (report : VerifierReport) (at_time : string)
    (allow_self_review : bool) (b : TaskBoard) : TaskBoard * result unit string :=
  match authorize_reviewer reviewer allow_self_review b with
  | Err e => (b, Err e)
  | Ok _ =>
      let a := {| reviewer_chat_id := reviewer; reviewed_at := at_time; att_report := report |} in
      (upd_attestations (<[id := a]> (review_attestations b)) b, Ok ())
  end.

(** The closure [tasks/storage.rs] [attest_card_review] hands to the atomic update. *)
Definition attest_card_review (id reviewer at_time : string) (allow_self_review : bool)
    (b : TaskBoard) : TaskBoard * result BoardReviewAttestation string :=
  if bool_decide (owner_chat_id b = Some reviewer)
  then (b, Err "task board owner cannot attest a review")
  else match get_card id b with
  | None => (b, Err ("Card " +:+ id +:+ " not found"))
  | Some card =>
      if negb (is_done card) then (b, Err "only a done card can be attested")
      else match verifier_report card with
      | None => (b, Err "no verifier report to attest; wait for the verifier")
      | Some report =>
          if negb (passed report) then (b, Err "cannot attest a failing verifier report")
          else if negb allow_self_review
                  && match card_claims b !! id with
                     | Some claim => bool_decide (claimant_chat_id claim = reviewer)
                     | None => false
                     end
          then (b, Err "task review policy refuses self-review by the card claimant")
          else
            match attest_review id reviewer report at_time allow_self_review b with
            | (b, Err e) => (b, Err e)
            | (b, Ok _) =>
                match review_attestations b !! id with
                | Some a => (b, Ok a)
                | None => (b, Err "review attestation was not stored")
                end
            end
      end
  end.

(** ** Outcomes and the finalize gate *)

Definition card_outcome (id : string) (b : TaskBoard) : option CardOutcome := card_outcomes b !! id.
Definition card_is_finalized (id : string) (b : TaskBoard) : bool :=
  match card_outcomes b !! id with
  | Some o => bool_decide (is_Some (finalized o))
  | None => false
  end.

Definition set_finalized (f : option CardFinalization) (o : CardOutcome) : CardOutcome :=
  {| required := required o; fragments := fragments o; finalized := f |}.
Definition set_required (r : list OutcomeRequirement) (o : CardOutcome) : CardOutcome :=
  {| required := r; fragments := fragments o; finalized := finalized o |}.

Definition record_card_outcome (id : string) (req : list OutcomeRequirement)
    (frags : list OutcomeFragment) (b : TaskBoard) : TaskBoard :=
  let o := set_required req (default empty_outcome (card_outcomes b !! id)) in
  upd_outcomes (<[id := foldl (λ o f, set_fragment f o) o frags]> (card_outcomes b)) b.

Definition attach_card_evidence (id : string) (name : text) (spec_ids : list string) (b : TaskBoard)
  : TaskBoard :=
  if bool_decide (spec_ids = []) then b
  else upd_outcomes (alter (attach_evidence name spec_ids) id (card_outcomes b)) b.

(** What one requirement adds to the answer. *)
Definition requirement_blocks (o : CardOutcome) (r : OutcomeRequirement) : list FinalizeBlock :=
  match fragment (req_fragment r) o with
  | None => [MissingFragment (req_fragment r)]
  | Some f =>
      let note := default "no reason recorded" (review_note f) in
      (if has_content f then [] else [EmptyFragment (req_fragment r)])
      ++ match frag_review f with
         | FrRejected => [RejectedFragment (req_fragment r) note]
         | FrContradicted => [ContradictedFragment (req_fragment r) note]
         | FrPending | FrApproved => []
         end
      ++ if requires_evidence r then
           (if match source_run (provenance f) with
               | Some run => bool_decide (trim run = [])
               | None => true
               end
            then [MissingSourceRun (req_fragment r)] else [])
           ++ (if bool_decide (evidence_spec_ids (provenance f) = [])
               then [MissingEvidence (req_fragment r)] else [])
         else []
  end.

Definition review_blocks (id : string) (card : BoardCard Value) (allow_self_review : bool)
    (b : TaskBoard) : list FinalizeBlock :=
  match owner_chat_id b with
  | None => []
  | Some _ =>
      match verifier_report card with
      | Some report =>
          match review_policy_allows_report id report allow_self_review b with
          | Ok _ => []
          | Err reason => [ReviewDenied reason]
          end
      | None => [ReviewDenied "finalising requires a reviewer report for the card"]
      end
  end.

Definition evaluate_finalize (id principal : string) (allow_self_review : bool) (b : TaskBoard)
  : FinalizeDecision :=
  match get_card id b with
  | None => {| blocks := [CardNotFound id] |}
  | Some card =>
      let outcome := card_outcomes b !! id in {|
        blocks :=
          (if is_done card then [] else [NotCompleted id (column card)])
          ++ match outcome ≫= finalized with
             | Some f => [AlreadyFinalized id (finalized_by f)]
             | None => []
             end
          ++ match authorize_finalizer id principal allow_self_review b with
             | Ok _ => []
             | Err violation => [ReviewDenied (violation_message violation)]
             end
          ++ review_blocks id card allow_self_review b
          ++ match outcome with
             | Some o => required o ≫= requirement_blocks o
             | None => []
             end |}
  end.

Definition finalize_card (id principal : string) (allow_self_review : bool) (at_time : string)
    (b : TaskBoard) : TaskBoard * result unit FinalizeDecision :=
  let decision := evaluate_finalize id principal allow_self_review b in
  if negb (allowed decision) then (b, Err decision)
  else
    let o := default empty_outcome (card_outcomes b !! id) in
    (upd_outcomes (<[id := set_finalized (Some {| finalized_by := principal; finalized_at := at_time |}) o]>
                     (card_outcomes b)) b, Ok ()).

(** ** Invalidation *)

Definition clear_verifier_reports (b : TaskBoard) : TaskBoard :=
  upd_outcomes (set_finalized None <$> card_outcomes b)
    (upd_cards (set_verifier_report None <$> cards b) (upd_attestations ∅ b)).

Definition invalidate_card_review (id : string) (b : TaskBoard) : TaskBoard :=
  upd_cards (alter_card (set_verifier_report None) id (cards b))
    (upd_outcomes (alter (set_finalized None) id (card_outcomes b))
       (upd_attestations (delete id (review_attestations b)) b)).

Definition remove_reviewer (reviewer : string) (b : TaskBoard) : TaskBoard :=
  let b := upd_roles (owner_chat_id b) (filter (.≠ reviewer) (reviewer_chat_ids b)) b in
  let stale := omap (λ p, if bool_decide (reviewer_chat_id p.2 = reviewer) then Some p.1 else None)
                 (btree_list (review_attestations b)) in
  foldl (λ b id, invalidate_card_review id b) b stale.

(** [Vec::remove] of the first card of that id. *)
Fixpoint remove_first (id : string) (cs : list (BoardCard Value)) : list (BoardCard Value) :=
  match cs with
  | [] => []
  | c :: rest => if bool_decide (card_id c = id) then rest else c :: remove_first id rest
  end.

Definition remove_card (id : string) (b : TaskBoard) : TaskBoard * option (BoardCard Value) :=
  let removed := get_card id b in
  let b := upd_attestations (delete id (review_attestations b)) b in
  let b := upd_claims (delete id (card_claims b)) (delete id (dependency_overrides b)) b in
  let b := upd_outcomes (delete id (card_outcomes b)) b in
  (upd_cards (remove_first id (cards b)) b, removed).
End board.
