(* ===== verification/OverlapOrder.v ===== *)
(** * Ordering cards that touch the same files

    [refact-tasks/src/overlap_order.rs].  Each card of a wave gets the least rank
    that no earlier card with a file in common has; equal ranks may be submitted
    together.  File identities are strings the caller resolved. *)

From stdpp Require Import gmap strings list sorting.
From S2P Require Import Prelude.

(** ** Data *)

Inductive OverlapSource := Declared | Observed.
Definition source_as_str (s : OverlapSource) : string :=
  match s with Declared => "declared" | Observed => "observed" end.

Definition ABSENCE_NOTE : string :=
  "No observed overlap is not permission or a guarantee that editing is safe.".

Record OverlapInputs := {
  declared : gmap string (gset string);
  observed : gmap string (gset string);
}.
Definition no_inputs : OverlapInputs := {| declared := ∅; observed := ∅ |}.

(** [entry(card_id).or_default().extend(keys)]. *)
Definition extend_keys (card_id : string) (keys : list string) (m : gmap string (gset string))
  : gmap string (gset string) :=
  <[card_id := default ∅ (m !! card_id) ∪ list_to_set keys]> m.
Definition declare_files (card_id : string) (keys : list string) (i : OverlapInputs) : OverlapInputs :=
  {| declared := extend_keys card_id keys (declared i); observed := observed i |}.
Definition observe_files (card_id : string) (keys : list string) (i : OverlapInputs) : OverlapInputs :=
  {| declared := declared i; observed := extend_keys card_id keys (observed i) |}.

Definition all_empty (m : gmap string (gset string)) : bool :=
  forallb (λ p, bool_decide (p.2 = ∅)) (btree_list m).
Definition inputs_empty (i : OverlapInputs) : bool := all_empty (declared i) && all_empty (observed i).

(** The common files of two cards, in order; [None] when there are none. *)
Definition shared (m : gmap string (gset string)) (left right : string) : option (list string) :=
  l ← m !! left; r ← m !! right;
  let files := btree_elements (l ∩ r) in
  if bool_decide (files = []) then None else Some files.

Record OverlapEdge := { with_card : string; oe_source : OverlapSource; oe_files : list string }.
Record OrderedCard := { oc_card_id : string; serial_rank : nat; overlaps : list OverlapEdge }.
Record WaveOrder := { wo_wave : nat; wo_cards : list OrderedCard; wo_note : string }.

Definition rank_of (card_id : string) (o : WaveOrder) : option nat :=
  serial_rank ∘ snd <$> list_find (λ c, oc_card_id c = card_id) (wo_cards o).
(** Collected into a map: a later card of the same id wins. *)
Definition ranks (o : WaveOrder) : gmap string nat :=
  foldl (λ m c, <[oc_card_id c := serial_rank c]> m) ∅ (wo_cards o).

(** ** Ranking *)

Definition edge_of (earlier : string) (source : OverlapSource) (files : option (list string))
  : list OverlapEdge :=
  match files with
  | Some files => [{| with_card := earlier; oe_source := source; oe_files := files |}]
  | None => []
  end.

(** One earlier card: its edges, and its rank is taken.  [None]: an index out of range. *)
Definition look_back (inputs : OverlapInputs) (cards : list OrderedCard) (card_id : string)
    (acc : option (list OverlapEdge * gset nat)) (p : nat * string)
  : option (list OverlapEdge * gset nat) :=
  '(overlaps, taken) ← acc;
  let d := shared (declared inputs) card_id p.2 in
  let o := shared (observed inputs) card_id p.2 in
  match d, o with
  | None, None => Some (overlaps, taken)
  | _, _ =>
      c ← cards !! p.1;
      Some (overlaps ++ edge_of p.2 Declared d ++ edge_of p.2 Observed o, {[ serial_rank c ]} ∪ taken)
  end.

(** The least free rank in [0..=index]. *)
Definition free_rank (taken : gset nat) (index : nat) : nat :=
  match list_find (λ r, r ∉ taken) (seq 0 (S index)) with
  | Some (_, r) => r
  | None => index
  end.

Fixpoint rank_cards (inputs : OverlapInputs) (earlier rest : list string) (cards : list OrderedCard)
  : option (list OrderedCard) :=
  match rest with
  | [] => Some cards
  | card_id :: rest =>
      '(overlaps, taken) ← foldl (look_back inputs cards card_id) (Some ([], ∅)) (imap pair earlier);
      let card := {| oc_card_id := card_id; serial_rank := free_rank taken (length earlier);
                     overlaps := overlaps |} in
      rank_cards inputs (earlier ++ [card_id]) rest (cards ++ [card])
  end.

Definition order_wave (wave : nat) (card_ids : list string) (inputs : OverlapInputs) : option WaveOrder :=
  cards ← rank_cards inputs [] card_ids [];
  Some {| wo_wave := wave; wo_cards := sort_by_key serial_rank cards; wo_note := ABSENCE_NOTE |}.

(** ** Specification *)

Definition files_of (m : gmap string (gset string)) (card_id : string) : gset string :=
  default ∅ (m !! card_id).

(** The cards are declared to touch a common file, or were seen to write one. *)
Definition overlap (inputs : OverlapInputs) (a b : string) : Prop :=
  ∃ f, (f ∈ files_of (declared inputs) a ∧ f ∈ files_of (declared inputs) b)
     ∨ (f ∈ files_of (observed inputs) a ∧ f ∈ files_of (observed inputs) b).

Lemma shared_None m a b : shared m a b = None ↔ ∀ f, f ∈ files_of m a → f ∈ files_of m b → False.
Proof.
  unfold shared, files_of. destruct (m !! a) as [l|]; simpl; [|set_solver].
  destruct (m !! b) as [r|]; simpl; [|set_solver].
  destruct (btree_elements (l ∩ r)) as [|f fs] eqn:E; simpl.
  - split; [|done]. intros _ f Hl Hr.
    assert (f ∈ btree_elements (l ∩ r)) as Hf by (apply elem_of_btree_elements; set_solver).
    rewrite E in Hf. by apply elem_of_nil in Hf.
  - split; [done|]. intros H. exfalso.
    assert (f ∈ btree_elements (l ∩ r)) as Hf by (rewrite E; by left).
    apply elem_of_btree_elements in Hf. apply (H f); set_solver.
Qed.

Lemma shared_Some m a b fs : shared m a b = Some fs → ∃ f, f ∈ files_of m a ∧ f ∈ files_of m b.
Proof.
  unfold shared, files_of. destruct (m !! a) as [l|]; simpl; [|done].
  destruct (m !! b) as [r|]; simpl; [|done].
  destruct (btree_elements (l ∩ r)) as [|f fs'] eqn:E; simpl; [done|]. intros _. exists f.
  apply elem_of_intersection, elem_of_btree_elements. rewrite E. by left.
Qed.

Lemma no_overlap inputs a b :
  shared (declared inputs) a b = None ∧ shared (observed inputs) a b = None ↔ ¬ overlap inputs a b.
Proof. rewrite !shared_None. unfold overlap. naive_solver. Qed.

Lemma inputs_empty_apart inputs a b : inputs_empty inputs = true → ¬ overlap inputs a b.
Proof.
  assert (Hall : ∀ m id f, all_empty m = true → f ∉ files_of m id).
  { intros m id f Hm. unfold files_of. destruct (m !! id) as [X|] eqn:HX; simpl; [|set_solver].
    unfold all_empty in Hm. rewrite forallb_elem in Hm.
    specialize (Hm (id, X)). rewrite elem_of_btree_list in Hm. specialize (Hm HX).
    apply bool_decide_eq_true in Hm. simpl in Hm. set_solver. }
  unfold inputs_empty. intros [Hd Ho]%andb_true_iff (f & [[Hf _]|[Hf _]]);
    [by apply (Hall _ _ _ Hd) in Hf|by apply (Hall _ _ _ Ho) in Hf].
Qed.

Lemma overlap_sym inputs a b : overlap inputs a b → overlap inputs b a.
Proof. unfold overlap. naive_solver. Qed.

Lemma free_rank_spec taken index :
  size taken ≤ index →
  (free_rank taken index ∉ taken) ∧ free_rank taken index ≤ index ∧
  ∀ r, r < free_rank taken index → r ∈ taken.
Proof.
  intros Hsz. unfold free_rank.
  destruct (list_find (λ r, r ∉ taken) (seq 0 (S index))) as [[i r]|] eqn:E.
  - apply list_find_Some in E as (Hi & Hr & Hmin). apply lookup_seq in Hi as [Hi0 Hi]. rewrite Nat.add_0_l in Hi0. subst r.
    split_and!; [done|lia|]. intros r Hr'. destruct (decide (r ∈ taken)) as [|Hn]; [done|].
    exfalso. apply (Hmin r r); [|lia|done]. apply lookup_seq. lia.
  - exfalso. apply list_find_None in E. rewrite Forall_forall in E.
    assert (list_to_set (seq 0 (S index)) ⊆ taken) as Hsub.
    { intros r Hr%elem_of_list_to_set. destruct (decide (r ∈ taken)); [done|].
      exfalso. by apply (E r). }
    apply subseteq_size in Hsub. rewrite size_list_to_set in Hsub by apply NoDup_seq.
    rewrite length_seq in Hsub. lia.
Qed.

(** The card at position [i] has the least rank no overlapping earlier card has. *)
Record ranked inputs (cards : list OrderedCard) (i : nat) (c : OrderedCard) : Prop := {
  rk_bound : serial_rank c ≤ i;
  rk_apart j c' : j < i → cards !! j = Some c' → overlap inputs (oc_card_id c) (oc_card_id c') →
    serial_rank c' ≠ serial_rank c;
  rk_least r : r < serial_rank c → ∃ j c', j < i ∧ cards !! j = Some c'
    ∧ overlap inputs (oc_card_id c) (oc_card_id c') ∧ serial_rank c' = r;
}.

Lemma look_back_ok inputs cards card_id n :
  n ≤ length cards →
  ∃ ovl taken, foldl (look_back inputs cards card_id) (Some ([], ∅))
      (imap pair (take n (oc_card_id <$> cards))) = Some (ovl, taken)
    ∧ size taken ≤ n
    ∧ ∀ r, r ∈ taken ↔ ∃ j c', j < n ∧ cards !! j = Some c'
        ∧ overlap inputs card_id (oc_card_id c') ∧ serial_rank c' = r.
Proof.
  induction n as [|n IH]; intros Hn.
  { exists [], ∅. split_and!; [done|by rewrite size_empty|]. intros r. split; [set_solver|].
    intros (j & c' & Hj & _). lia. }
  destruct IH as (ovl & taken & Heq & Hsz & Hin); [lia|].
  destruct (lookup_lt_is_Some_2 cards n) as [c Hc]; [lia|].
  assert (take (S n) (oc_card_id <$> cards) = take n (oc_card_id <$> cards) ++ [oc_card_id c]) as Htake.
  { apply take_S_r. by rewrite list_lookup_fmap, Hc. }
  assert (length (take n (oc_card_id <$> cards)) = n) as Hlen.
  { rewrite length_take, length_fmap. lia. }
  rewrite Htake, imap_app, foldl_app, Heq. simpl. rewrite Hlen, Nat.add_0_r.
  assert (Hstep : ∀ P : nat → OrderedCard → Prop,
    (∃ j c', j < S n ∧ cards !! j = Some c' ∧ P j c') ↔
    (∃ j c', j < n ∧ cards !! j = Some c' ∧ P j c') ∨ P n c).
  { intros P. split.
    - intros (j & c' & Hj & Hc' & HP). destruct (decide (j = n)) as [->|]; [right|left].
      + congruence.
      + exists j, c'. split_and!; [lia|done|done].
    - intros [(j & c' & Hj & Hc' & HP)|HP]; [exists j, c'|exists n, c]; (split_and!; [lia|done|done]). }
  destruct (decide (shared (declared inputs) card_id (oc_card_id c) = None
      ∧ shared (observed inputs) card_id (oc_card_id c) = None)) as [[Hd Ho]|Hov].
  - rewrite Hd, Ho. exists ovl, taken. split_and!; [done|lia|].
    intros r. rewrite (Hstep (λ j c', _)), Hin. split; [by left|]. intros [?|[Hbad _]]; [done|].
    apply no_overlap in Hbad; [done|by split].
  - exists (ovl ++ edge_of (oc_card_id c) Declared (shared (declared inputs) card_id (oc_card_id c))
                ++ edge_of (oc_card_id c) Observed (shared (observed inputs) card_id (oc_card_id c))),
      ({[serial_rank c]} ∪ taken).
    assert (overlap inputs card_id (oc_card_id c)) as Hyes.
    { destruct (shared (declared inputs) card_id (oc_card_id c)) as [fs|] eqn:Hd.
      - apply shared_Some in Hd as (f & ? & ?). exists f. by left.
      - destruct (shared (observed inputs) card_id (oc_card_id c)) as [fs|] eqn:Ho; [|by destruct Hov].
        apply shared_Some in Ho as (f & ? & ?). exists f. by right. }
    split_and!.
    + rewrite Hc. simpl. destruct (shared (declared inputs) _ _), (shared (observed inputs) _ _); try done.
      exfalso. by apply Hov.
    + rewrite size_union_alt, size_singleton.
      pose proof (subseteq_size (taken ∖ {[serial_rank c]}) taken ltac:(set_solver)). lia.
    + intros r. rewrite (Hstep (λ j c', _)), elem_of_union, elem_of_singleton, Hin. naive_solver.
Qed.

Lemma rank_cards_ok inputs cards rest :
  (∀ i c, cards !! i = Some c → ranked inputs cards i c) →
  ∃ cards', rank_cards inputs (oc_card_id <$> cards) rest cards = Some cards'
    ∧ oc_card_id <$> cards' = (oc_card_id <$> cards) ++ rest
    ∧ ∀ i c, cards' !! i = Some c → ranked inputs cards' i c.
Proof.
  revert cards. induction rest as [|id rest IH]; intros cards Hok; simpl.
  { exists cards. by rewrite app_nil_r. }
  destruct (look_back_ok inputs cards id (length cards)) as (ovl & taken & Heq & Hsz & Hin); [done|].
  rewrite take_ge in Heq by (by rewrite length_fmap). rewrite Heq. simpl. rewrite length_fmap.
  set (c0 := {| oc_card_id := id; serial_rank := free_rank taken (length cards); overlaps := ovl |}).
  destruct (IH (cards ++ [c0])) as (cards' & Hr & Hids & Hok').
  - destruct (free_rank_spec taken (length cards) Hsz) as (Hfree & Hle & Hleast).
    intros i c Hi. apply lookup_app_Some in Hi as [Hi|[Hge Hi]].
    + pose proof (lookup_lt_Some _ _ _ Hi) as Hlt. destruct (Hok i c Hi) as [H1 H2 H3].
      split; [done| |].
      * intros j c' Hj Hc'. rewrite lookup_app_l in Hc' by lia. by apply (H2 j).
      * intros r Hr. destruct (H3 r Hr) as (j & c' & Hj & Hc' & ?). exists j, c'.
        rewrite lookup_app_l by lia. done.
    + apply list_lookup_singleton_Some in Hi as [Hi <-]. assert (i = length cards) as -> by lia.
      split; simpl; [done| |].
      * intros j c' Hj Hc' Hov Heqr. rewrite lookup_app_l in Hc' by done.
        apply Hfree, Hin. eauto 10.
      * intros r Hr. apply Hleast, Hin in Hr as (j & c' & Hj & Hc' & ?). exists j, c'.
        rewrite lookup_app_l by done. done.
  - rewrite fmap_app in Hr. exists cards'. split_and!; [exact Hr| |done].
    rewrite Hids, fmap_app, <- app_assoc. done.
Qed.

(** What the ranks of one wave's cards, given in submission order, promise. *)
Record well_ranked (inputs : OverlapInputs) (card_ids : list string) (cards : list OrderedCard) : Prop := {
  wr_ids : oc_card_id <$> cards = card_ids;
  wr_apart i j a b : cards !! i = Some a → cards !! j = Some b → i ≠ j →
    overlap inputs (oc_card_id a) (oc_card_id b) → serial_rank a ≠ serial_rank b;
  wr_ranked i c : cards !! i = Some c → ranked inputs cards i c;
}.

Lemma order_wave_ok wave card_ids inputs :
  ∃ cards, order_wave wave card_ids inputs = Some {|
      wo_wave := wave; wo_cards := sort_by_key serial_rank cards; wo_note := ABSENCE_NOTE |}
    ∧ well_ranked inputs card_ids cards.
Proof.
  destruct (rank_cards_ok inputs [] card_ids) as (cards & Hr & Hids & Hok); [by intros ? ? ?|].
  simpl in *. exists cards. unfold order_wave. rewrite Hr. simpl. split; [done|].
  split; [done| |done]. intros i j a b Ha Hb Hne Hov Heq. destruct (decide (j < i)) as [Hlt|Hge].
  - by apply (rk_apart _ _ _ _ (Hok i a Ha) j b).
  - apply (rk_apart _ _ _ _ (Hok j b Hb) i a); [lia|done|by apply overlap_sym|done].
Qed.

(** [order_wave] returns every card it is given, sorted by rank and in submission order
    within a rank; two cards of one rank are neither declared to touch nor were seen to
    write a common file; and no card waits without need: a rank is at most the card's
    position, and every smaller rank is held by an earlier card that overlaps it. *)
Lemma order_wave_ranks wave card_ids inputs :
  ∃ o cards, order_wave wave card_ids inputs = Some o ∧ well_ranked inputs card_ids cards ∧
    wo_wave o = wave ∧ wo_cards o ≡ₚ cards ∧
    StronglySorted (λ x y, serial_rank x ≤ serial_rank y) (wo_cards o) ∧
    (∀ k, filter (λ c, serial_rank c = k) (wo_cards o) = filter (λ c, serial_rank c = k) cards).
Proof.
  destruct (order_wave_ok wave card_ids inputs) as (cards & -> & Hok). do 2 eexists.
  split; [done|]. split; [exact Hok|]. simpl. split_and!; [done|apply sort_by_key_perm| |].
  - induction (sort_by_key_sorted serial_rank cards) as [|x l Hs IH Hx]; constructor; [done|].
    eapply Forall_impl; [exact Hx|]. intros y. apply rle_nat.
  - intros k. apply sort_by_key_stable.
Qed.
