(* ===== verification/Waves.v ===== *)
(** * Waves and lanes: what a planner may submit now

    [refact-tasks/src/waves.rs].  The dependency levels of a board are its waves; the
    lanes of a request place cards in them; [plan_schedule] decides for every stage of
    every lane whether it is submitted.  Positions are [nat] (they index lists); an outer
    [None] is a panic: an index out of range, a failed subtraction or the
    [unreachable!] of [lane_not_run_reason]. *)

From stdpp Require Import gmap strings list pretty.
From S2P Require Import Prelude RustStr BoardTypes Outcome Board OverlapOrder.

Definition pretty_usize (n : nat) : string := pretty (N.of_nat n).

Definition is_terminal_column (col : string) : bool :=
  bool_decide (col = "done") || bool_decide (col = "failed") || bool_decide (col = "regressed").
Definition is_failed_column (col : string) : bool :=
  bool_decide (col = "failed") || bool_decide (col = "regressed").

(** ** Data *)

Record Wave := { wave_index : nat; wave_cards : list string }.

Inductive LaneKind := Parallel | Sequential | Pipeline.
#[global] Instance LaneKind_eq_dec : EqDecision LaneKind.
Proof. solve_decision. Defined.
Definition lane_kind_as_str (k : LaneKind) : string :=
  match k with Parallel => "parallel" | Sequential => "sequential" | Pipeline => "pipeline" end.
Definition LANE_KIND_NAMES : list string := ["parallel"; "sequential"; "pipeline"].
Definition parse_lane_kind (value : string) : result LaneKind string :=
  if bool_decide (value = "parallel") then Ok Parallel
  else if bool_decide (value = "sequential") then Ok Sequential
  else if bool_decide (value = "pipeline") then Ok Pipeline
  else Err ("unknown lane kind '" +:+ value +:+ "', expected one of " +:+ join ", " LANE_KIND_NAMES).
Definition advances_one_position_at_a_time (k : LaneKind) : bool :=
  match k with Sequential | Pipeline => true | Parallel => false end.

Record LaneStage := { ls_card : string; ls_agent : option string; ls_optional : bool }.
Record Lane := { lane_name : string; lane_kind : LaneKind; lane_stages : list LaneStage; lane_optional : bool }.
Record WaveLimits := { max_wave_width : nat; max_pipeline_depth : nat }.

Inductive PipelineAdvance :=
  | ANext (position : nat) (card : string) (agent : option string)
  | AComplete
  | AOutOfRange (position : nat).
Inductive PipelineCursor := At (position : nat) | CBlocked (position : nat) (card : string) | CComplete.

Inductive StageDecision := Dispatch | NotRun (reason : string) | DBlocked (reason : string).
#[global] Instance StageDecision_eq_dec : EqDecision StageDecision.
Proof. solve_decision. Defined.

Record StageOutcome := {
  so_card : string; so_agent : option string; so_position : nat; so_wave : nat;
  so_decision : StageDecision; so_rank : option nat;
}.
Inductive LaneStatus := LDispatched | LNotRun.
Record LaneOutcome := {
  lo_lane : string; lo_kind : LaneKind; lo_status : LaneStatus; lo_reason : option string;
  lo_optional : bool; lo_stages : list StageOutcome;
}.
Record WaveSchedule := {
  ws_waves : list Wave;
  admitted_wave : option nat;
  ws_lanes : list LaneOutcome;
  dispatch : list string;
  overlap_order : list WaveOrder;
}.
Record WaveGate := {
  frontier : nat;
  holding : list (list string);
  gate_failed : list (list string);
  blocked_at : option nat;
}.

Definition with_decision (d : StageDecision) (s : StageOutcome) : StageOutcome := {|
  so_card := so_card s; so_agent := so_agent s; so_position := so_position s; so_wave := so_wave s;
  so_decision := d; so_rank := so_rank s |}.
Definition with_rank (r : option nat) (s : StageOutcome) : StageOutcome := {|
  so_card := so_card s; so_agent := so_agent s; so_position := so_position s; so_wave := so_wave s;
  so_decision := so_decision s; so_rank := r |}.
Definition with_stages (l : list StageOutcome) (o : LaneOutcome) : LaneOutcome := {|
  lo_lane := lo_lane o; lo_kind := lo_kind o; lo_status := lo_status o; lo_reason := lo_reason o;
  lo_optional := lo_optional o; lo_stages := l |}.
Definition with_status (st : LaneStatus) (r : option string) (o : LaneOutcome) : LaneOutcome := {|
  lo_lane := lo_lane o; lo_kind := lo_kind o; lo_status := st; lo_reason := r;
  lo_optional := lo_optional o; lo_stages := lo_stages o |}.

Definition is_dispatch (s : StageOutcome) : bool := bool_decide (so_decision s = Dispatch).

Section waves.
Context {Value Reply : Type}.
Abbreviation TBoard := (TaskBoard (Value := Value) (Reply := Reply)).

(** [get_card(id).map(|card| card.column.as_str()).unwrap_or("")]. *)
Definition column_of (b : TBoard) (id : string) : string := default "" (column <$> get_card id b).

(** ** [derive_waves] *)

(** Collected into a map: a later card of the same id wins. *)
Definition index_by_id (cs : list (BoardCard Value)) : gmap string nat :=
  foldl (λ m p, <[card_id p.2 := p.1]> m) ∅ (imap pair cs).

Record level_state := { lv_levels : list nat; lv_indegree : list nat; lv_queue : list nat }.

Definition level_relax (index : nat) (acc : option level_state) (dependent : nat) : option level_state :=
  st ← acc;
  here ← lv_levels st !! index; there ← lv_levels st !! dependent;
  degree ← lv_indegree st !! dependent;
  match degree with
  | O => None
  | S d => Some {|
      lv_levels := <[dependent := Nat.max there (S here)]> (lv_levels st);
      lv_indegree := <[dependent := d]> (lv_indegree st);
      lv_queue := if Nat.eqb d 0 then lv_queue st ++ [dependent] else lv_queue st |}
  end.

Fixpoint level_visit (fuel : nat) (dependents : list (list nat)) (st : level_state) : option (list nat) :=
  match lv_queue st with
  | [] => Some (lv_levels st)
  | index :: queue =>
      match fuel with
      | O => None
      | S fuel =>
          row ← dependents !! index;
          st ← foldl (level_relax index)
                 (Some {| lv_levels := lv_levels st; lv_indegree := lv_indegree st; lv_queue := queue |}) row;
          level_visit fuel dependents st
      end
  end.

Definition wave_depth (levels : list nat) : nat :=
  match levels with [] => 0 | _ :: _ => S (max_list levels) end.

(** [waves[levels[index]].cards.push(id)]. *)
Definition place_card (levels : list nat) (acc : option (list Wave)) (p : nat * BoardCard Value)
  : option (list Wave) :=
  waves ← acc; level ← levels !! p.1; w ← waves !! level;
  Some (<[level := {| wave_index := wave_index w; wave_cards := wave_cards w ++ [card_id p.2] |}]> waves).

Definition empty_wave (i : nat) : Wave := {| wave_index := i; wave_cards := [] |}.

Definition derive_waves (b : TBoard) : option (result (list Wave) string) :=
  valid ← validate_dependencies b;
  match valid with
  | Err e => Some (Err e)
  | Ok _ =>
      dependents ← build_dependents (index_by_id (cards b)) (cards b);
      let indegree := (λ c, length (depends_on c)) <$> cards b in
      levels ← level_visit (length (cards b)) dependents
                 {| lv_levels := replicate (length (cards b)) 0; lv_indegree := indegree;
                    lv_queue := initially_ready indegree |};
      waves ← foldl (place_card levels) (Some (empty_wave <$> seq 0 (wave_depth levels)))
                (imap pair (cards b));
      Some (Ok waves)
  end.

(** ** Lanes *)

Definition advance_pipeline (stages : list LaneStage) (completed : nat) : PipelineAdvance :=
  if (length stages <=? completed)%nat then AOutOfRange completed
  else match stages !! S completed with
       | Some stage => ANext (S completed) (ls_card stage) (ls_agent stage)
       | None => AComplete
       end.

(** The loop of [pipeline_cursor] from a position; [fuel] bounds its turns. *)
Fixpoint cursor_loop (fuel : nat) (b : TBoard) (stages : list LaneStage) (position : nat)
  : option PipelineCursor :=
  match stages !! position with
  | None => Some CComplete
  | Some stage =>
      let col := column_of b (ls_card stage) in
      if is_failed_column col then Some (CBlocked position (ls_card stage))
      else if negb (is_terminal_column col) then Some (At position)
      else match advance_pipeline stages position with
           | ANext next _ _ =>
               match fuel with
               | O => None
               | S fuel => cursor_loop fuel b stages next
               end
           | AComplete | AOutOfRange _ => Some CComplete
           end
  end.
Definition pipeline_cursor (b : TBoard) (stages : list LaneStage) : option PipelineCursor :=
  cursor_loop (length stages) b stages 0.

(** The first index whose element satisfies the test. *)
Definition position {A} (f : A → bool) (l : list A) : option nat := fst <$> list_find (λ x, f x = true) l.
Definition nonempty {A} (l : list A) : bool := match l with [] => false | _ :: _ => true end.

Definition wave_failed (b : TBoard) (optional : gset string) (w : Wave) : list string :=
  filter (λ id, negb (bool_decide (id ∈ optional)) && is_failed_column (column_of b id) = true) (wave_cards w).
Definition wave_holding (b : TBoard) (optional : gset string) (w : Wave) : list string :=
  filter (λ id, negb (bool_decide (id ∈ optional)) && negb (is_failed_column (column_of b id))
                && negb (is_terminal_column (column_of b id)) = true) (wave_cards w).

Definition wave_gate (b : TBoard) (waves : list Wave) (optional : gset string) : WaveGate :=
  let hold := wave_holding b optional <$> waves in
  let fail := wave_failed b optional <$> waves in {|
    frontier := default (length waves) (position nonempty hold);
    holding := hold; gate_failed := fail; blocked_at := position nonempty fail |}.

Fixpoint check_stages (b : TBoard) (name : string) (placed : gset string) (stages : list LaneStage)
  : result (gset string) string :=
  match stages with
  | [] => Ok placed
  | stage :: stages =>
      if bool_decide (get_card (ls_card stage) b ≠ None) then
        if bool_decide (ls_card stage ∈ placed)
        then Err ("card " +:+ ls_card stage +:+ " is placed in more than one lane stage")
        else check_stages b name ({[ ls_card stage ]} ∪ placed) stages
      else Err ("lane '" +:+ name +:+ "' stage references unknown card " +:+ ls_card stage)
  end.

Fixpoint check_lanes (b : TBoard) (limits : WaveLimits) (names placed : gset string) (lanes : list Lane)
  : result unit string :=
  match lanes with
  | [] => Ok ()
  | lane :: lanes =>
      if blank (lane_name lane) then Err "lane name cannot be empty"
      else if bool_decide (lane_name lane ∈ names)
      then Err ("lane '" +:+ lane_name lane +:+ "' is declared more than once")
      else if bool_decide (lane_kind lane = Pipeline)
              && (max_pipeline_depth limits <? length (lane_stages lane))%nat
      then Err ("pipeline lane '" +:+ lane_name lane +:+ "' declares "
                +:+ pretty_usize (length (lane_stages lane))
                +:+ " stages, exceeding the configured maximum pipeline depth of "
                +:+ pretty_usize (max_pipeline_depth limits))
      else
        let? placed := check_stages b (lane_name lane) placed (lane_stages lane) in
        check_lanes b limits ({[ lane_name lane ]} ∪ names) placed lanes
  end.
Definition validate_lanes (b : TBoard) (lanes : list Lane) (limits : WaveLimits) : result unit string :=
  check_lanes b limits ∅ ∅ lanes.

(** ** Decisions *)

(** [lane.stages[position]]. *)
Definition terminal_or_dispatch (b : TBoard) (lane : Lane) (position : nat) : option StageDecision :=
  stage ← lane_stages lane !! position;
  let col := column_of b (ls_card stage) in
  Some (if is_terminal_column col
        then NotRun ("card " +:+ ls_card stage +:+ " is already in '" +:+ col +:+ "'")
        else Dispatch).

Definition lane_text (lane : Lane) : string :=
  lane_kind_as_str (lane_kind lane) +:+ " lane '" +:+ lane_name lane +:+ "'".

Definition decide_cursor (b : TBoard) (lane : Lane) (cursor : option PipelineCursor) (position : nat)
  : option StageDecision :=
  match cursor with
  | Some CComplete => Some (NotRun (lane_text lane +:+ " has no remaining stage"))
  | Some (CBlocked failed_position card) =>
      Some (DBlocked (lane_text lane +:+ " stopped at position " +:+ pretty_usize failed_position
                      +:+ ": card " +:+ card +:+ " failed"))
  | Some (At current) =>
      Some (if Nat.eqb position current then Dispatch
            else if (position <? current)%nat
            then NotRun (lane_text lane +:+ " already passed position " +:+ pretty_usize position)
            else NotRun (lane_text lane +:+ " is at position " +:+ pretty_usize current))
  | None => terminal_or_dispatch b lane position
  end.

Definition decide_stage (b : TBoard) (gate : WaveGate) (lane : Lane) (cursor : option PipelineCursor)
    (position wave : nat) : option StageDecision :=
  match (k ← blocked_at gate; if (k <? wave)%nat then Some k else None) with
  | Some blocked =>
      failed ← gate_failed gate !! blocked;
      Some (DBlocked ("wave " +:+ pretty_usize blocked +:+ " required card(s) " +:+ join ", " failed
                      +:+ " failed"))
  | None =>
      if (frontier gate <? wave)%nat
      then Some (NotRun ("wave " +:+ pretty_usize (frontier gate) +:+ " is still running required card(s) "
                         +:+ default "" (join ", " <$> holding gate !! frontier gate)))
      else decide_cursor b lane cursor position
  end.

Definition optional_cards (lanes : list Lane) : gset string :=
  list_to_set (lanes ≫= λ lane,
    ls_card <$> filter (λ stage, lane_optional lane || ls_optional stage = true) (lane_stages lane)).

(** Collected into a map: a later wave of the same card wins. *)
Definition wave_of (waves : list Wave) : gmap string nat :=
  foldl (λ m w, foldl (λ m id, <[id := wave_index w]> m) m (wave_cards w)) ∅ waves.

Definition stage_outcome (b : TBoard) (gate : WaveGate) (waves : gmap string nat) (lane : Lane)
    (cursor : option PipelineCursor) (p : nat * LaneStage) : option StageOutcome :=
  let wave := default 0 (waves !! ls_card p.2) in
  decision ← decide_stage b gate lane cursor p.1 wave;
  Some {| so_card := ls_card p.2; so_agent := ls_agent p.2; so_position := p.1; so_wave := wave;
          so_decision := decision; so_rank := None |}.

Definition lane_outcome (b : TBoard) (gate : WaveGate) (waves : gmap string nat) (lane : Lane)
  : option LaneOutcome :=
  cursor ← (if advances_one_position_at_a_time (lane_kind lane)
            then Some <$> pipeline_cursor b (lane_stages lane) else Some None);
  stages ← mapM (stage_outcome b gate waves lane cursor) (imap pair (lane_stages lane));
  Some {| lo_lane := lane_name lane; lo_kind := lane_kind lane; lo_status := LNotRun;
          lo_reason := None; lo_optional := lane_optional lane; lo_stages := stages |}.

(** ** Ordering and width *)

Definition push_wave_card (m : gmap nat (list string)) (s : StageOutcome) : gmap nat (list string) :=
  if is_dispatch s then <[so_wave s := default [] (m !! so_wave s) ++ [so_card s]]> m else m.
Definition all_stages (outcomes : list LaneOutcome) : list StageOutcome := outcomes ≫= lo_stages.

Definition order_dispatch_by_wave (outcomes : list LaneOutcome) (inputs : OverlapInputs)
  : option (list WaveOrder) :=
  mapM (λ p, order_wave p.1 p.2 inputs) (btree_list (foldl push_wave_card ∅ (all_stages outcomes))).

Definition stamp_ranks (outcomes : list LaneOutcome) (orders : list WaveOrder)
  : list LaneOutcome * option (gmap string nat) :=
  match orders with
  | [] => (outcomes, None)
  | _ :: _ =>
      (** Extended order by order: a later binding wins. *)
      let rs := foldl (λ m o, ranks o ∪ m) ∅ orders in
      ((λ o, with_stages ((λ s, with_rank (rs !! so_card s) s) <$> lo_stages o) o) <$> outcomes, Some rs)
  end.

(** The places of the dispatched stages, lane by lane. *)
Definition dispatched_places (outcomes : list LaneOutcome) : list (nat * nat) :=
  concat (imap (λ i o, omap (λ p, if is_dispatch p.2 then Some (i, p.1) else None)
                         (imap pair (lo_stages o))) outcomes).

Definition stage_at (outcomes : list LaneOutcome) (p : nat * nat) : option StageOutcome :=
  o ← outcomes !! p.1; lo_stages o !! p.2.

Definition dispatch_order (outcomes : list LaneOutcome) (rs : option (gmap string nat))
  : option (list (nat * nat)) :=
  let order := dispatched_places outcomes in
  match rs with
  | None => Some order
  | Some rs =>
      keyed ← mapM (λ p, s ← stage_at outcomes p; Some ((so_wave s, default 0 (rs !! so_card s)), p)) order;
      Some (snd <$> sort_by_key fst keyed)
  end.

(** [outcomes[lane].stages[stage].decision = ...]. *)
Definition set_decision_at (d : StageDecision) (acc : option (list LaneOutcome)) (p : nat * nat)
  : option (list LaneOutcome) :=
  outcomes ← acc; o ← outcomes !! p.1; s ← lo_stages o !! p.2;
  Some (<[p.1 := with_stages (<[p.2 := with_decision d s]> (lo_stages o)) o]> outcomes).

Definition throttle_wave_width (outcomes : list LaneOutcome) (order : list (nat * nat)) (width : nat)
  : option (list LaneOutcome) :=
  foldl (set_decision_at (NotRun ("wave width limit of " +:+ pretty_usize width
                                  +:+ " card(s) per submission was reached")))
    (Some outcomes) (drop width order).

Definition lane_not_run_reason (o : LaneOutcome) : option string :=
  match lo_stages o with
  | [] => Some ("lane '" +:+ lo_lane o +:+ "' declares no stages")
  | stage :: _ =>
      match so_decision stage with
      | NotRun reason | DBlocked reason => Some reason
      | Dispatch => None
      end
  end.

Definition set_status (o : LaneOutcome) : option LaneOutcome :=
  if existsb is_dispatch (lo_stages o) then Some (with_status LDispatched None o)
  else reason ← lane_not_run_reason o; Some (with_status LNotRun (Some reason) o).

Definition selected (outcomes : list LaneOutcome) (order : list (nat * nat)) : option (list string) :=
  stages ← mapM (stage_at outcomes) order;
  Some (so_card <$> filter (λ s, is_dispatch s = true) stages).

(** From the decided outcomes to the schedule. *)
Definition finish_schedule (waves : list Wave) (gate : WaveGate) (outcomes : list LaneOutcome)
    (limits : WaveLimits) (overlap : option OverlapInputs) : option WaveSchedule :=
  orders ← match overlap with
           | Some inputs => if inputs_empty inputs then Some [] else order_dispatch_by_wave outcomes inputs
           | None => Some []
           end;
  let '(outcomes, rs) := stamp_ranks outcomes orders in
  order ← dispatch_order outcomes rs;
  outcomes ← throttle_wave_width outcomes order (max_wave_width limits);
  ids ← selected outcomes order;
  outcomes ← mapM set_status outcomes;
  let admitted := match blocked_at gate with
                  | Some blocked => Nat.min (frontier gate) blocked
                  | None => frontier gate
                  end in
  Some {| ws_waves := waves;
          admitted_wave := if (admitted <? length waves)%nat then Some admitted else None;
          ws_lanes := outcomes; dispatch := ids; overlap_order := orders |}.

Definition plan_schedule_with_overlap (b : TBoard) (lanes : list Lane) (limits : WaveLimits)
    (overlap : option OverlapInputs) : option (result WaveSchedule string) :=
  derived ← derive_waves b;
  match derived with
  | Err e => Some (Err e)
  | Ok waves =>
      match validate_lanes b lanes limits with
      | Err e => Some (Err e)
      | Ok _ =>
          let gate := wave_gate b waves (optional_cards lanes) in
          outcomes ← mapM (lane_outcome b gate (wave_of waves)) lanes;
          schedule ← finish_schedule waves gate outcomes limits overlap;
          Some (Ok schedule)
      end
  end.

Definition plan_schedule (b : TBoard) (lanes : list Lane) (limits : WaveLimits)
  : option (result WaveSchedule string) := plan_schedule_with_overlap b lanes limits None.
End waves.

(** ** Groups *)

(** Collected into a map: a later stage of the same card wins. *)
Definition rank_keys (s : WaveSchedule) : gmap string (nat * nat) :=
  foldl (λ m st, match so_rank st with
                 | Some rank => <[so_card st := (so_wave st, rank)]> m
                 | None => m
                 end) ∅ (all_stages (ws_lanes s)).

Definition group_step (keys : gmap string (nat * nat))
    (acc : list (list string) * option (nat * nat)) (card_id : string)
  : list (list string) * option (nat * nat) :=
  let key := keys !! card_id in
  match last acc.1 with
  | Some group =>
      if bool_decide (acc.2 = key)
      then (alter (λ g, g ++ [card_id]) (length acc.1 - 1) acc.1, acc.2)
      else (acc.1 ++ [[card_id]], key)
  | None => (acc.1 ++ [[card_id]], key)
  end.
Definition submission_groups (s : WaveSchedule) : list (list string) :=
  (foldl (group_step (rank_keys s)) ([], None) (dispatch s)).1.
