(* ===== verification/OutcomeProps.v ===== *)
(** * Properties of outcome documents

    The requirements read from a card's instructions are the declared ones, and the
    fragments of a final report are its sections that say something. *)

From stdpp Require Import gmap strings list.
From S2P Require Import Prelude RustStr BoardTypes Outcome.

(** ** Declarations *)

(** [line] asks for the section [name]. *)
Definition declares (prefix : string) (line name : text) : Prop :=
  ∃ rest, to_ascii_lowercase (clean_line line) = lit prefix ++ rest ∧ name ∈ fragment_names rest.
Definition outcome_line : text → text → Prop := declares "required outcome:".
Definition evidence_line : text → text → Prop := declares "required outcome evidence:".

Lemma declares_strip prefix line name :
  declares prefix line name ↔
  ∃ rest, strip_prefix (lit prefix) (to_ascii_lowercase (clean_line line)) = Some rest
    ∧ name ∈ fragment_names rest.
Proof. unfold declares. by setoid_rewrite strip_prefix_Some. Qed.

Lemma prefixes_disjoint t r1 r2 :
  strip_prefix (lit "required outcome evidence:") t = Some r1 →
  strip_prefix (lit "required outcome:") t = Some r2 → False.
Proof. rewrite !strip_prefix_Some. intros -> H. vm_compute in H. congruence. Qed.

(** *** Collecting the names *)

Definition names (req : list OutcomeRequirement) : list text := req_fragment <$> req.

Lemma add_evidence_spec needs l :
  NoDup needs →
  NoDup (foldl add_evidence needs l) ∧ ∀ n, n ∈ foldl add_evidence needs l ↔ n ∈ needs ∨ n ∈ l.
Proof.
  revert needs. induction l as [|x l IH]; intros needs Hnd; simpl.
  { split; [done|]. intros n. rewrite elem_of_nil. tauto. }
  destruct (IH (add_evidence needs x)) as [H1 H2].
  { unfold add_evidence. case_bool_decide as Hx; [done|]. apply NoDup_app.
    split_and!; [done| |apply NoDup_singleton]. by intros y Hy ->%list_elem_of_singleton. }
  split; [done|]. intros n. rewrite H2, elem_of_cons. unfold add_evidence.
  case_bool_decide as Hx; [naive_solver|]. rewrite elem_of_app, list_elem_of_singleton. tauto.
Qed.

Lemma add_requirement_spec req l :
  NoDup (names req) → Forall (λ r, requires_evidence r = false) req →
  NoDup (names (foldl add_requirement req l)) ∧
  Forall (λ r, requires_evidence r = false) (foldl add_requirement req l) ∧
  ∀ n, n ∈ names (foldl add_requirement req l) ↔ n ∈ names req ∨ n ∈ l.
Proof.
  revert req. induction l as [|x l IH]; intros req Hnd Hf; simpl.
  { split_and!; [done..|]. intros n. rewrite elem_of_nil. tauto. }
  assert (existsb (λ r, bool_decide (req_fragment r = x)) req = true ↔ x ∈ names req) as Hex.
  { rewrite existsb_elem. unfold names. rewrite list_elem_of_fmap.
    setoid_rewrite bool_decide_eq_true. naive_solver. }
  unfold add_requirement at 2 4 6. destruct (existsb _ req).
  - destruct (IH req Hnd Hf) as (H1 & H2 & H3). split_and!; [done..|].
    intros n. rewrite H3, elem_of_cons. naive_solver.
  - destruct (IH (req ++ [{| req_fragment := x; requires_evidence := false |}])) as (H1 & H2 & H3).
    + unfold names. rewrite fmap_app. apply NoDup_app. split_and!; [done| |apply NoDup_singleton].
      intros y Hy ->%list_elem_of_singleton. by apply Hex in Hy.
    + apply Forall_app. split; [done|]. by constructor.
    + split_and!; [done..|]. intros n. rewrite H3. unfold names.
      rewrite fmap_app, elem_of_app, elem_of_cons. simpl. rewrite list_elem_of_singleton. tauto.
Qed.

Record read_ok (ls : list text) (acc : list OutcomeRequirement * list text) : Prop := {
  ro_nodup : NoDup (names acc.1);
  ro_flags : Forall (λ r, requires_evidence r = false) acc.1;
  ro_names n : n ∈ names acc.1 ↔ ∃ line, line ∈ ls ∧ outcome_line line n;
  ro_needs_nodup : NoDup acc.2;
  ro_needs n : n ∈ acc.2 ↔ ∃ line, line ∈ ls ∧ evidence_line line n;
}.

Lemma read_line_ok ls line acc : read_ok ls acc → read_ok (ls ++ [line]) (read_line acc line).
Proof.
  intros [H1 H2 H3 H4 H5].
  assert (Hsnoc : ∀ P : text → Prop, (∃ l, l ∈ ls ++ [line] ∧ P l) ↔ (∃ l, l ∈ ls ∧ P l) ∨ P line).
  { intros P. setoid_rewrite elem_of_app. setoid_rewrite list_elem_of_singleton. naive_solver. }
  assert (Hno : ∀ p n, strip_prefix (lit p) (to_ascii_lowercase (clean_line line)) = None →
    ¬ declares p line n).
  { intros p n Hs (rest & Hr & _)%declares_strip. congruence. }
  assert (Hyes : ∀ p n rest, strip_prefix (lit p) (to_ascii_lowercase (clean_line line)) = Some rest →
    declares p line n ↔ n ∈ fragment_names rest).
  { intros p n rest Hs. rewrite declares_strip, Hs. naive_solver. }
  unfold read_line.
  destruct (strip_prefix (lit "required outcome evidence:") _) as [rest|] eqn:He.
  - assert (strip_prefix (lit "required outcome:") (to_ascii_lowercase (clean_line line)) = None) as Hn.
    { destruct (strip_prefix (lit "required outcome:") _) eqn:Ho; [|done].
      by destruct (prefixes_disjoint _ _ _ He Ho). }
    destruct (add_evidence_spec acc.2 (fragment_names rest) H4) as [H6 H7].
    split; simpl; [done|done| |done|].
    + intros n. rewrite Hsnoc, H3. specialize (Hno _ n Hn). unfold outcome_line. tauto.
    + intros n. rewrite Hsnoc, H7, H5. unfold evidence_line. by rewrite (Hyes _ n rest He).
  - destruct (strip_prefix (lit "required outcome:") _) as [rest|] eqn:Ho.
    + destruct (add_requirement_spec acc.1 (fragment_names rest) H1 H2) as (H6 & H7 & H8).
      split; simpl; [done|done| |done|].
      * intros n. rewrite Hsnoc, H8, H3. unfold outcome_line. by rewrite (Hyes _ n rest Ho).
      * intros n. rewrite Hsnoc, H5. specialize (Hno _ n He). unfold evidence_line. tauto.
    + split; [done|done| |done|].
      * intros n. rewrite Hsnoc, H3. specialize (Hno _ n Ho). unfold outcome_line. tauto.
      * intros n. rewrite Hsnoc, H5. specialize (Hno _ n He). unfold evidence_line. tauto.
Qed.

Lemma read_lines_ok ls : read_ok ls (foldl read_line ([], []) ls).
Proof.
  induction ls as [|line ls IH] using rev_ind.
  - split; simpl; try constructor; try (by intros ?%elem_of_nil); by intros (? & ?%elem_of_nil & _).
  - rewrite foldl_app. by apply read_line_ok.
Qed.

(** *** The evidence flags *)

Lemma require_evidence_names req x n :
  n ∈ names (require_evidence req x) ↔ n ∈ names req ∨ n = x.
Proof.
  unfold names. induction req as [|r req IH]; simpl.
  - rewrite list_elem_of_singleton, elem_of_nil. tauto.
  - case_bool_decide as Hx; simpl; rewrite !elem_of_cons; [|rewrite IH]; naive_solver.
Qed.

Lemma require_evidence_spec req x :
  NoDup (names req) →
  NoDup (names (require_evidence req x)) ∧
  ∀ r, r ∈ require_evidence req x ↔
    (req_fragment r ≠ x ∧ r ∈ req) ∨ r = {| req_fragment := x; requires_evidence := true |}.
Proof.
  induction req as [|r0 req IH]; intros Hnd; simpl.
  { split; [apply NoDup_singleton|]. intros r. rewrite list_elem_of_singleton, elem_of_nil. tauto. }
  pose proof Hnd as [Hr0 Hnd']%NoDup_cons. destruct (IH Hnd') as [IH1 IH2].
  case_bool_decide as Hx; subst.
  - split; [done|]. intros r. rewrite !elem_of_cons. split.
    + intros [->|Hr]; [by right|]. left. split; [|by right]. intros Heq. apply Hr0. rewrite <- Heq.
      by apply list_elem_of_fmap_2.
    + intros [[Hne [->|Hr]]| ->]; [done|by right|by left].
  - split.
    + apply NoDup_cons. split; [|done]. intros [?|?]%require_evidence_names; done.
    + intros r. rewrite !elem_of_cons, IH2. naive_solver.
Qed.

Lemma require_all_spec req l :
  NoDup (names req) →
  NoDup (names (foldl require_evidence req l)) ∧
  ∀ r, r ∈ foldl require_evidence req l ↔
    ((req_fragment r ∉ l) ∧ r ∈ req) ∨ (req_fragment r ∈ l ∧ requires_evidence r = true).
Proof.
  revert req. induction l as [|x l IH]; intros req Hnd; simpl.
  { split; [done|]. intros r. rewrite elem_of_nil. tauto. }
  destruct (require_evidence_spec req x Hnd) as [H1 H2]. destruct (IH _ H1) as [H3 H4].
  split; [done|]. intros r. rewrite H4, H2, not_elem_of_cons, elem_of_cons.
  destruct r as [f e]. simpl. destruct (decide (f = x)) as [->|Hne].
  - destruct (decide (x ∈ l)), e; naive_solver.
  - naive_solver congruence.
Qed.

(** The requirements read from a card's instructions are exactly the declared ones: each
    section named on a "Required outcome:" or "Required outcome evidence:" line appears
    once, nothing else appears, and it demands evidence precisely when some evidence line
    names it, wherever that line stands. *)
Lemma requirements_are_declared instructions :
  let reqs := outcome_requirements_from_instructions instructions in
  NoDup (req_fragment <$> reqs) ∧
  ∀ n ev, {| req_fragment := n; requires_evidence := ev |} ∈ reqs ↔
    (∃ line, line ∈ lines instructions ∧ (outcome_line line n ∨ evidence_line line n)) ∧
    (ev = true ↔ ∃ line, line ∈ lines instructions ∧ evidence_line line n).
Proof.
  unfold outcome_requirements_from_instructions.
  destruct (read_lines_ok (lines instructions)) as [H1 H2 H3 H4 H5].
  destruct (foldl read_line ([], []) (lines instructions)) as [req needs]. simpl in *.
  destruct (require_all_spec req needs H1) as [H6 H7]. split; [done|].
  intros n ev. rewrite H7. simpl. rewrite <- H5.
  assert ((∃ line, line ∈ lines instructions ∧ (outcome_line line n ∨ evidence_line line n))
    ↔ n ∈ names req ∨ n ∈ needs) as ->.
  { rewrite H3, H5. clear. split.
    - intros (l & Hl & [?|?]); [left|right]; eauto.
    - intros [(l & Hl & ?)|(l & Hl & ?)]; eauto. }
  assert ({| req_fragment := n; requires_evidence := ev |} ∈ req ↔ n ∈ names req ∧ ev = false) as ->.
  { rewrite Forall_forall in H2. unfold names. rewrite list_elem_of_fmap. split.
    - intros Hin. split; [|by apply H2 in Hin].
      by exists {| req_fragment := n; requires_evidence := ev |}.
    - intros [([n' ev'] & -> & Hin) ->]. pose proof (H2 _ Hin) as Hev. simpl in *. by subst. }
  clear. destruct (decide (n ∈ needs)); destruct ev; intuition congruence.
Qed.

(** ** The fragments of a report *)

Lemma push_sections_spec run acc l :
  foldl (push_section run) acc l =
    acc ++ ((λ p, new_fragment (lit p.1) p.2 run) <$>
              filter (λ p, fragment_content_is_absent p.2 = false) l).
Proof.
  revert acc. induction l as [|p l IH]; intros acc; simpl; [by rewrite app_nil_r|].
  rewrite IH, filter_cons. unfold push_section.
  destruct (fragment_content_is_absent p.2); simpl; [done|]. by rewrite <- app_assoc.
Qed.

Lemma find_fragment_cons n f l :
  find_fragment n (f :: l) = if bool_decide (frag_name f = n) then Some f else find_fragment n l.
Proof.
  unfold find_fragment. simpl. destruct (decide (frag_name f = n)) as [H|H].
  - by rewrite bool_decide_true.
  - rewrite bool_decide_false by done. by destruct (list_find _ l) as [[]|].
Qed.

Lemma find_fragment_Some n l f : find_fragment n l = Some f → n ∈ frag_name <$> l.
Proof.
  unfold find_fragment. intros ([i x] & Hx & [= ->])%fmap_Some.
  apply list_find_Some in Hx as (Hx & <- & _). apply list_elem_of_fmap_2.
  by eapply list_elem_of_lookup_2.
Qed.

(** Storing a fragment makes it the one found under its name. *)
Lemma find_put_fragment new fs n :
  find_fragment n (put_fragment new fs) =
    if bool_decide (frag_name new = n) then Some new else find_fragment n fs.
Proof.
  induction fs as [|f fs IH]; simpl; [by rewrite find_fragment_cons|].
  destruct (decide (frag_name f = frag_name new)) as [E|E].
  - rewrite (bool_decide_true _ E), !find_fragment_cons, E. by case_bool_decide.
  - rewrite (bool_decide_false _ E), !find_fragment_cons, IH.
    destruct (decide (frag_name new = n)) as [E'|E']; [|by rewrite (bool_decide_false _ E')].
    rewrite (bool_decide_true _ E'), bool_decide_false; [done|congruence].
Qed.

Lemma find_put_all new fs n :
  NoDup (frag_name <$> new) →
  find_fragment n (foldl (λ l f, put_fragment f l) fs new) =
    match find_fragment n new with Some f => Some f | None => find_fragment n fs end.
Proof.
  revert fs. induction new as [|f new IH]; intros fs Hnd; simpl; [done|].
  apply NoDup_cons in Hnd as [Hf Hnd]. rewrite (IH _ Hnd), find_put_fragment.
  rewrite find_fragment_cons. destruct (decide (frag_name f = n)) as [E|E].
  - rewrite bool_decide_true by done. destruct (find_fragment n new) as [f'|] eqn:Hf'; [|done].
    apply find_fragment_Some in Hf'. by rewrite E in Hf.
  - by rewrite bool_decide_false.
Qed.

Lemma foldl_set_fragment o fs :
  fragments (foldl (λ o f, set_fragment f o) o fs) = foldl (λ l f, put_fragment f l) (fragments o) fs.
Proof. revert o. induction fs as [|f fs IH]; intros o; simpl; [done|]. by rewrite IH. Qed.

Definition section_key (p : string * text) : text := normalize_fragment_name (lit p.1).

(** The sections with content, as fragments. *)
Definition section_fragments (run : option text) (l : list (string * text)) : list OutcomeFragment :=
  (λ p, new_fragment (lit p.1) p.2 run) <$> filter (λ p, fragment_content_is_absent p.2 = false) l.

Lemma section_fragment_names run l n :
  n ∈ frag_name <$> section_fragments run l → n ∈ section_key <$> l.
Proof.
  unfold section_fragments. intros (f & -> & (p & -> & Hp)%list_elem_of_fmap)%list_elem_of_fmap.
  apply list_elem_of_filter in Hp as [_ Hp]. by apply (list_elem_of_fmap_2 section_key).
Qed.

Lemma section_fragments_NoDup run l :
  NoDup (section_key <$> l) → NoDup (frag_name <$> section_fragments run l).
Proof.
  induction l as [|p l IH]; intros Hnd; [constructor|].
  rewrite fmap_cons in Hnd. apply NoDup_cons in Hnd as [Hp Hnd].
  unfold section_fragments. rewrite filter_cons. case_decide; [|by apply IH].
  rewrite !fmap_cons. apply NoDup_cons. split; [|by apply IH].
  intros Hin. by apply Hp, (section_fragment_names run).
Qed.

Lemma find_section run l p :
  NoDup (section_key <$> l) → p ∈ l →
  find_fragment (section_key p) (section_fragments run l) =
    if fragment_content_is_absent p.2 then None else Some (new_fragment (lit p.1) p.2 run).
Proof.
  induction l as [|q l IH]; intros Hnd Hin; [by apply elem_of_nil in Hin|].
  rewrite fmap_cons in Hnd. apply NoDup_cons in Hnd as [Hq Hnd].
  unfold section_fragments. rewrite filter_cons. apply elem_of_cons in Hin as [->|Hin].
  - destruct (fragment_content_is_absent q.2); simpl.
    + destruct (find_fragment _ _) as [f|] eqn:Hf; [|done]. apply find_fragment_Some in Hf.
      by apply (section_fragment_names run) in Hf.
    + rewrite find_fragment_cons. by rewrite bool_decide_true.
  - assert (section_key q ≠ section_key p) as Hne.
    { intros Heq. apply Hq. rewrite Heq. by apply list_elem_of_fmap_2. }
    case_decide; [|by apply IH].
    rewrite fmap_cons, find_fragment_cons, bool_decide_false by done. by apply IH.
Qed.

Definition section_names : list string := [
  OUTCOME_FRAGMENT_SUMMARY; OUTCOME_FRAGMENT_FILES_CHANGED; OUTCOME_FRAGMENT_TESTS;
  OUTCOME_FRAGMENT_VERIFICATION; OUTCOME_FRAGMENT_FOLLOWUP_CARDS; OUTCOME_FRAGMENT_RISKS;
  OUTCOME_FRAGMENT_ASSUMPTIONS].

Lemma section_keys r : section_key <$> report_sections r = lit <$> section_names.
Proof.
  trans ((λ s, normalize_fragment_name (lit s)) <$> section_names); [done|]. by vm_compute.
Qed.

Lemma section_keys_NoDup r : NoDup (section_key <$> report_sections r).
Proof. rewrite section_keys. apply (bool_decide_unpack _). by vm_compute. Qed.

(** The standard names are in normal form. *)
Lemma section_key_name r p : p ∈ report_sections r → section_key p = lit p.1.
Proof.
  assert (Forall (λ s, normalize_fragment_name (lit s) = lit s) section_names) as H
    by (repeat (constructor; [by vm_compute|]); constructor).
  intros Hp. rewrite Forall_forall in H. apply (H p.1).
  change section_names with (fst <$> report_sections r). by apply list_elem_of_fmap_2.
Qed.

Lemma foldl_set_required o fs : required (foldl (λ o f, set_fragment f o) o fs) = required o.
Proof. revert o. induction fs as [|f fs IH]; intros o; simpl; [done|]. by rewrite IH. Qed.

(** A final report stored as the outcome of a card answers the seven standard sections
    faithfully: a section of the report that says something is found under its name, with
    the report's text, the run that produced it and a pending review, and a section that is
    empty or a placeholder leaves what was stored before. *)
Lemma report_answers_its_sections run r o p :
  p ∈ report_sections r →
  let o' := foldl (λ o f, set_fragment f o) o (to_outcome_fragments run r) in
  required o' = required o ∧
  fragment (lit p.1) o' =
    if fragment_content_is_absent p.2 then fragment (lit p.1) o
    else Some {| frag_name := lit p.1; frag_content := p.2;
                 provenance := {| source_run := run; evidence_spec_ids := [] |};
                 frag_review := FrPending; frag_reviewer := None; frag_reviewed_at := None;
                 review_note := None |}.
Proof.
  intros Hin o'. split; [apply foldl_set_required|].
  pose proof (section_key_name r p Hin) as Hkey.
  unfold fragment, o'. rewrite foldl_set_fragment.
  unfold to_outcome_fragments. rewrite push_sections_spec. simpl app.
  change (fmap _ _) with (section_fragments run (report_sections r)).
  rewrite find_put_all by apply section_fragments_NoDup, section_keys_NoDup.
  change (normalize_fragment_name (lit p.1)) with (section_key p).
  rewrite (find_section run _ _ (section_keys_NoDup r) Hin).
  destruct (fragment_content_is_absent p.2); [done|]. unfold new_fragment.
  by change (normalize_fragment_name (lit p.1)) with (section_key p); rewrite Hkey.
Qed.

Lemma report_answers_its_sections_witness :
  let r := {| fr_summary := "Done."; fr_success := true; files_changed := ["a.rs"];
              tests_added_or_updated := []; fr_verification := []; followup_cards := [];
              risks := ["none"]; assumptions := [] |} in
  (fragment (lit "files-changed")
     (foldl (λ o f, set_fragment f o) empty_outcome (to_outcome_fragments None r)))
    = Some (new_fragment (lit "files_changed") (lit "- a.rs") None).
Proof.
  intros r.
  exact (proj2 (report_answers_its_sections None r empty_outcome ("files_changed", lit "- a.rs")
    ltac:(right; left))).
Defined.

(** Names that end in a backtick and a dot keep the backtick: normalizing is not
    idempotent. *)
Lemma normalize_is_not_idempotent :
  normalize_fragment_name (lit "`summary`.") = lit "summary`" ∧
  normalize_fragment_name (lit "summary`") = lit "summary".
Proof. by vm_compute. Qed.
