(* ===== verification/BoardDeps.v ===== *)
(** * Dependency validation decides whether the cards can be ordered

    Kahn's algorithm of [Board.validate_dependencies] against its specification: the
    cards have distinct ids, every dependency exists once, and some order of the
    cards puts each one after everything it depends on. *)

From stdpp Require Import gmap strings list.
From S2P Require Import Prelude RustStr BoardTypes Outcome Board.

Section deps.
Context {Value : Type}.
Implicit Types (cs : list (BoardCard Value)) (c : BoardCard Value).

(** ** Specification *)

(** [ord] lists the cards so that each one follows all it depends on. *)
Definition ordered_by cs (ord : list string) : Prop :=
  ord ≡ₚ card_id <$> cs ∧
  ∀ l1 id l2 c d, ord = l1 ++ id :: l2 → c ∈ cs → card_id c = id → d ∈ depends_on c → d ∈ l1.

Record well_formed_card cs c : Prop := {
  wf_self : card_id c ∉ depends_on c;
  wf_once : NoDup (depends_on c);
  wf_exist d : d ∈ depends_on c → d ∈ card_id <$> cs;
}.

Record valid_dependencies cs : Prop := {
  vd_ids : NoDup (card_id <$> cs);
  vd_cards c : c ∈ cs → well_formed_card cs c;
  vd_order : ∃ ord, ordered_by cs ord;
}.

(** ** The checks before the search *)

Record indexes cs (by_id : gmap string nat) : Prop := {
  ix_card i c : cs !! i = Some c → by_id !! card_id c = Some i;
  ix_id id i : by_id !! id = Some i → ∃ c, cs !! i = Some c ∧ card_id c = id;
}.

Lemma index_ids_spec pre cs by_id :
  indexes pre by_id → NoDup (card_id <$> pre) →
  match index_ids (length pre) cs by_id with
  | Ok by_id' => indexes (pre ++ cs) by_id' ∧ NoDup (card_id <$> pre ++ cs)
  | Err _ => ¬ NoDup (card_id <$> pre ++ cs)
  end.
Proof.
  revert pre by_id. induction cs as [|c cs IH]; intros pre by_id Hix Hnd; simpl.
  - by rewrite app_nil_r.
  - destruct (by_id !! card_id c) as [i|] eqn:Hc.
    + intros Hbad. apply (ix_id _ _ Hix) in Hc as (c' & Hc' & Heq).
      rewrite fmap_app in Hbad. apply NoDup_app in Hbad as (_ & Hbad & _).
      apply (Hbad (card_id c)); [|by left].
      rewrite <- Heq. apply list_elem_of_fmap_2. by eapply list_elem_of_lookup_2.
    + assert (card_id c ∉ card_id <$> pre) as Hni.
      { intros (c' & Heq & Hin)%list_elem_of_fmap. apply list_elem_of_lookup in Hin as [j Hj].
        apply (ix_card _ _ Hix) in Hj. congruence. }
      specialize (IH (pre ++ [c]) (<[card_id c := length pre]> by_id)).
      rewrite length_app, Nat.add_1_r, <- app_assoc in IH. apply IH.
      * split.
        -- intros i c' Hi. apply lookup_app_Some in Hi as [Hi|[Hge Hi]].
           ++ rewrite lookup_insert_ne; [by apply (ix_card _ _ Hix)|].
              intros Heq. apply Hni. rewrite Heq. apply list_elem_of_fmap_2.
              by eapply list_elem_of_lookup_2.
           ++ apply list_lookup_singleton_Some in Hi as [Hi <-].
              rewrite lookup_insert_eq. f_equal. lia.
        -- intros id i [[<- <-]|[Hne Hi]]%lookup_insert_Some.
           ++ exists c. by rewrite list_lookup_middle.
           ++ apply (ix_id _ _ Hix) in Hi as (c' & Hi & <-). exists c'. split; [|done].
              by apply lookup_app_l_Some.
      * rewrite fmap_app. apply NoDup_app. split_and!; [done| |apply NoDup_singleton].
        intros x Hx Hin. apply list_elem_of_singleton in Hin as ->. done.
Qed.

Lemma find_duplicate_None seen l :
  find_duplicate seen l = None ↔ NoDup l ∧ ∀ x, x ∈ l → x ∉ seen.
Proof.
  revert seen. induction l as [|x l IH]; intros seen; simpl.
  - split; [intros _; split; [constructor|by intros x ?%elem_of_nil]|done].
  - destruct (bool_decide_reflect (x ∈ seen)) as [Hin|Hin].
    + split; [done|]. intros [_ H]. exfalso. apply (H x); [by left|done].
    + rewrite IH, NoDup_cons. split.
      * intros [Hnd H]. split_and!; [|done|].
        -- intros Hx. apply (H x Hx). by left.
        -- intros y [->|Hy]%elem_of_cons; [done|]. specialize (H y Hy). set_solver.
      * intros [[Hx Hnd] H]. split; [done|]. intros y Hy [->|Hs]%elem_of_cons; [done|].
        apply (H y); [by right|done].
Qed.

Lemma check_card_Ok cs by_id c :
  indexes cs by_id → check_card by_id c = Ok () ↔ well_formed_card cs c.
Proof.
  intros Hix. unfold check_card.
  destruct (bool_decide_reflect (card_id c ∈ depends_on c)) as [Hs|Hs].
  { split; [done|]. by intros [? _ _]. }
  destruct (find_duplicate [] (depends_on c)) as [x|] eqn:Hd.
  { split; [done|]. intros [_ Hnd _]. exfalso.
    assert (find_duplicate [] (depends_on c) = None); [|congruence].
    apply find_duplicate_None. split; [done|]. intros y _. apply not_elem_of_nil. }
  apply find_duplicate_None in Hd as [Hnd _].
  destruct (list_find _ (depends_on c)) as [[i d]|] eqn:Hf.
  - split; [done|]. intros [_ _ He]. exfalso.
    apply list_find_Some in Hf as (Hi & Hnone & _).
    apply list_elem_of_lookup_2, He in Hi. apply list_elem_of_fmap in Hi as (c' & -> & Hin).
    apply list_elem_of_lookup in Hin as [j Hj]. apply (ix_card _ _ Hix) in Hj. congruence.
  - split; [|done]. intros _. split; [done|done|]. intros d Hin.
    apply list_find_None in Hf. rewrite Forall_forall in Hf. specialize (Hf d Hin).
    destruct (by_id !! d) as [j|] eqn:Hj; [|done].
    apply (ix_id _ _ Hix) in Hj as (c' & Hj & <-). apply list_elem_of_fmap_2.
    by eapply list_elem_of_lookup_2.
Qed.

Lemma check_cards_Ok cs by_id l :
  indexes cs by_id → check_cards by_id l = Ok () ↔ ∀ c, c ∈ l → well_formed_card cs c.
Proof.
  intros Hix. induction l as [|c l IH]; simpl.
  - split; [by intros _ c ?%elem_of_nil|done].
  - rewrite result_bind_Ok. split.
    + intros ([] & Hc & Hl) c' [->|Hin]%elem_of_cons; [by apply (check_card_Ok cs by_id)|].
      by apply IH.
    + intros H. exists (). split; [apply (check_card_Ok cs by_id c Hix), H; by left|].
      apply IH. intros c' Hin. apply H. by right.
Qed.

(** ** The search *)

Section search.
Context (cs : list (BoardCard Value)) (by_id : gmap string nat).
Context (Hix : indexes cs by_id) (Hwf : ∀ c, c ∈ cs → well_formed_card cs c).

(** Position [i] depends on position [j]. *)
Definition dep (i j : nat) : Prop :=
  ∃ c d, cs !! i = Some c ∧ d ∈ depends_on c ∧ by_id !! d = Some j.

Lemma dep_lt i j : dep i j → i < length cs ∧ j < length cs.
Proof.
  intros (c & d & Hi & _ & Hj). apply (ix_id _ _ Hix) in Hj as (c' & Hj & _).
  split; by eapply lookup_lt_Some.
Qed.

(** [rows] lists, for every position, the positions that depend on it. *)
Definition dependents_ok (rows : list (list nat)) (R : nat → nat → Prop) : Prop :=
  length rows = length cs ∧
  ∀ j row, rows !! j = Some row → NoDup row ∧ ∀ i, i ∈ row ↔ R i j.

Lemma push_dependents_ok rows i c ds R :
  cs !! i = Some c → NoDup ds → (∀ d, d ∈ ds → ∃ j, by_id !! d = Some j) →
  dependents_ok rows R → (∀ d j, d ∈ ds → by_id !! d = Some j → ¬ R i j) →
  ∃ rows', foldl (λ acc d, deps ← acc; j ← by_id !! d; row ← deps !! j; Some (<[j := row ++ [i]]> deps))
      (Some rows) ds = Some rows'
    ∧ dependents_ok rows' (λ i' j, R i' j ∨ (i' = i ∧ ∃ d, d ∈ ds ∧ by_id !! d = Some j)).
Proof.
  intros Hi. revert rows R. induction ds as [|d ds IH]; intros rows R Hnd Hex Hok Hnew.
  - exists rows. split; [done|]. destruct Hok as [Hl Hr]. split; [done|].
    intros j row Hj. destruct (Hr j row Hj) as [? Hin]. split; [done|]. intros i'.
    rewrite Hin. split; [by left|]. intros [?|(_ & d & Hd & _)]; [done|by apply elem_of_nil in Hd].
  - apply NoDup_cons in Hnd as [Hd Hnd]. destruct (Hex d) as [j Hj]; [by left|].
    destruct Hok as [Hl Hr].
    assert (j < length rows) as Hlt.
    { rewrite Hl. apply (ix_id _ _ Hix) in Hj as (c' & Hj & _). by eapply lookup_lt_Some. }
    destruct (lookup_lt_is_Some_2 _ _ Hlt) as [row Hrow].
    destruct (IH (<[j := row ++ [i]]> rows) (λ i' j', R i' j' ∨ (i' = i ∧ j' = j))) as (rows' & Heq & Hok').
    + done.
    + intros d' Hd'. apply Hex. by right.
    + split; [by rewrite length_insert|]. intros j' row' Hj'.
      destruct (decide (j' = j)) as [->|Hne].
      * rewrite list_lookup_insert_eq in Hj' by done. injection Hj' as <-.
        destruct (Hr j row Hrow) as [Hnr Hin]. split.
        -- apply NoDup_app. split_and!; [done| |apply NoDup_singleton].
           intros x Hx Hxi. apply list_elem_of_singleton in Hxi as ->. apply Hin in Hx.
           apply (Hnew d j); [by left|done|done].
        -- intros i'. rewrite elem_of_app, list_elem_of_singleton, Hin. naive_solver.
      * rewrite list_lookup_insert_ne in Hj' by done. destruct (Hr j' row' Hj') as [? Hin].
        split; [done|]. intros i'. rewrite Hin. naive_solver.
    + intros d' j' Hd' Hj' [HR|[_ ->]].
      * apply (Hnew d' j'); [by right|done|done].
      * apply (ix_id _ _ Hix) in Hj as (c1 & Hc1 & <-).
        apply (ix_id _ _ Hix) in Hj' as (c2 & Hc2 & <-). congruence.
    + exists rows'. split.
      * simpl. rewrite Hj. simpl. rewrite Hrow. exact Heq.
      * destruct Hok' as [Hl' Hr']. split; [done|]. intros j' row' Hj'.
        destruct (Hr' j' row' Hj') as [? Hin]. split; [done|]. intros i'. rewrite Hin.
        split.
        -- intros [[?|[-> ->]]|(-> & d' & Hd' & Hdj)]; [by left|right|right]; (split; [done|]).
           ++ exists d. split; [by left|done].
           ++ exists d'. split; [by right|done].
        -- intros [?|(-> & d' & [->|Hd']%elem_of_cons & Hdj)]; [by left; left|..].
           ++ left. right. split; [done|congruence].
           ++ right. split; [done|]. eauto.
Qed.

Lemma card_deps_indexed i c d : cs !! i = Some c → d ∈ depends_on c → ∃ j, by_id !! d = Some j.
Proof.
  intros Hi Hd. assert (c ∈ cs) as Hc by by eapply list_elem_of_lookup_2.
  apply (wf_exist _ _ (Hwf c Hc)) in Hd. apply list_elem_of_fmap in Hd as (c' & -> & Hc').
  apply list_elem_of_lookup in Hc' as [j Hj]. exists j. by apply (ix_card _ _ Hix).
Qed.

Lemma build_dependents_from k l rows :
  (∀ i c, l !! i = Some c → cs !! (k + i) = Some c) →
  dependents_ok rows (λ i j, dep i j ∧ i < k) →
  ∃ rows', foldl (λ acc ic, deps ← acc; push_dependents by_id deps ic) (Some rows)
             (imap (λ i c, (k + i, c)) l) = Some rows'
    ∧ dependents_ok rows' (λ i j, dep i j ∧ i < k + length l).
Proof.
  revert k rows. induction l as [|c l IH]; intros k rows Hl Hok.
  - exists rows. simpl. by rewrite Nat.add_0_r.
  - assert (cs !! k = Some c) as Hk by (specialize (Hl 0 c eq_refl); by rewrite Nat.add_0_r in Hl).
    assert (c ∈ cs) as Hc by by eapply list_elem_of_lookup_2.
    destruct (push_dependents_ok rows k c (depends_on c) _ Hk (wf_once _ _ (Hwf c Hc))
      (λ d, card_deps_indexed k c d Hk) Hok) as (rows1 & Heq & Hok1).
    { intros d j _ _ [_ Hlt]. lia. }
    destruct (IH (S k) rows1) as (rows' & Heq' & Hok').
    + intros i c' Hi. specialize (Hl (S i) c' Hi). by rewrite Nat.add_succ_r in Hl.
    + destruct Hok1 as [Hlen Hr]. split; [done|]. intros j row Hj.
      destruct (Hr j row Hj) as [? Hin]. split; [done|]. intros i. rewrite Hin. split.
      * intros [[Hd Hlt]|(-> & d & Hd & Hdj)]; (split; [|lia]); [done|]. exists c, d. done.
      * intros [Hd Hlt]. destruct (decide (i = k)) as [->|]; [right|left; split; [done|lia]].
        split; [done|]. destruct Hd as (c' & d & Hc' & Hd & Hdj). rewrite Hk in Hc'.
        injection Hc' as <-. eauto.
    + exists rows'. split.
      * rewrite imap_cons. simpl. rewrite Nat.add_0_r. unfold push_dependents at 2. simpl.
        rewrite Heq. rewrite <- Heq'. f_equal. apply imap_ext. intros i x _. simpl. f_equal. lia.
      * simpl. by rewrite Nat.add_succ_r.
Qed.

Lemma build_dependents_ok :
  ∃ rows, build_dependents by_id cs = Some rows ∧ dependents_ok rows dep.
Proof.
  destruct (build_dependents_from 0 cs (replicate (length cs) [])) as (rows & Heq & Hok).
  - done.
  - split; [apply length_replicate|]. intros j row [-> Hj]%lookup_replicate.
    split; [constructor|]. intros i. split; [by intros ?%elem_of_nil|lia].
  - exists rows. split; [exact Heq|]. destruct Hok as [Hl Hr]. split; [done|].
    intros j row Hj. destruct (Hr j row Hj) as [? Hin]. split; [done|]. intros i. rewrite Hin.
    split; [by intros [? _]|]. intros Hd. split; [done|]. apply dep_lt in Hd. lia.
Qed.

(** *** One round of the loop *)

Lemma relax_row row ind queue :
  NoDup row → (∀ i, i ∈ row → ∃ k, ind !! i = Some (S k)) →
  ∃ ind' fresh, foldl relax (Some (ind, queue)) row = Some (ind', queue ++ fresh)
    ∧ length ind' = length ind
    ∧ (∀ i k, ind !! i = Some k → ind' !! i = Some (if decide (i ∈ row) then pred k else k))
    ∧ NoDup fresh ∧ (∀ i, i ∈ fresh ↔ i ∈ row ∧ ind !! i = Some 1).
Proof.
  revert ind queue. induction row as [|x row IH]; intros ind queue Hnd Hpos.
  - exists ind, []. rewrite app_nil_r. split_and!; [done|done| |constructor|].
    + intros i k Hk. rewrite decide_False; [done|]. apply not_elem_of_nil.
    + intros i. split; [by intros ?%elem_of_nil|by intros [?%elem_of_nil _]].
  - apply NoDup_cons in Hnd as [Hx Hnd]. destruct (Hpos x) as [d Hd]; [by left|].
    set (q1 := if Nat.eqb d 0 then queue ++ [x] else queue).
    destruct (IH (<[x := d]> ind) q1 Hnd) as (ind' & fresh & Heq & Hlen & Hval & Hnf & Hfr).
    { intros i Hi. rewrite list_lookup_insert_ne by (by intros ->). apply Hpos. by right. }
    rewrite length_insert in Hlen.
    assert (∀ i, i ∈ row → i ≠ x) as Hne by (by intros i Hi ->).
    exists ind', ((if Nat.eqb d 0 then [x] else []) ++ fresh). split_and!.
    + simpl. rewrite Hd. simpl. fold q1. rewrite Heq. unfold q1.
      destruct (Nat.eqb d 0); simpl; by rewrite <- ?app_assoc.
    + done.
    + intros i k Hk. destruct (decide (i = x)) as [->|Hix'].
      * rewrite Hd in Hk. injection Hk as <-.
        rewrite (Hval x d); [|apply list_lookup_insert_eq; by eapply lookup_lt_Some].
        rewrite decide_False by done. rewrite decide_True by (by left). done.
      * rewrite (Hval i k) by (by rewrite list_lookup_insert_ne).
        f_equal. destruct (decide (i ∈ row)) as [Hi|Hi].
        -- rewrite decide_True by (by right). done.
        -- rewrite decide_False; [done|]. by intros [?|?]%elem_of_cons.
    + assert (x ∉ fresh) as Hxf by (intros [Hin _]%Hfr; done).
      destruct (Nat.eqb d 0); simpl; [by apply NoDup_cons|done].
    + intros i. rewrite elem_of_app, Hfr, elem_of_cons. split.
      * intros [Hi|[Hi Hone]].
        -- destruct (Nat.eqb_spec d 0) as [->|]; [|by apply elem_of_nil in Hi].
           apply list_elem_of_singleton in Hi as ->. split; [by left|done].
        -- rewrite list_lookup_insert_ne in Hone by (intros <-; by apply (Hne x)).
           split; [by right|done].
      * intros [[->|Hi] Hone].
        -- left. rewrite Hd in Hone. injection Hone as ->. simpl. by left.
        -- right. split; [done|]. by rewrite list_lookup_insert_ne by (intros <-; by apply (Hne x)).
Qed.

(** The dependencies of a card outside the visited positions. *)
Definition visited_dep (P : list nat) (d : string) : bool :=
  match by_id !! d with Some j => bool_decide (j ∈ P) | None => false end.
Definition open_deps (P : list nat) (ds : list string) : nat :=
  length (filter (λ d, visited_dep P d = false) ds).

Lemma visited_snoc P x d :
  visited_dep (P ++ [x]) d = visited_dep P d || bool_decide (by_id !! d = Some x).
Proof.
  unfold visited_dep. destruct (by_id !! d) as [j|]; [|done].
  apply eq_true_iff_eq. rewrite orb_true_iff, !bool_decide_eq_true.
  rewrite elem_of_app, list_elem_of_singleton. naive_solver.
Qed.

Lemma by_id_inj d d' x : by_id !! d = Some x → by_id !! d' = Some x → d = d'.
Proof.
  intros (c & Hc & <-)%(ix_id _ _ Hix) (c' & Hc' & <-)%(ix_id _ _ Hix). congruence.
Qed.

Lemma open_deps_snoc P x ds :
  x ∉ P → NoDup ds →
  open_deps P ds = open_deps (P ++ [x]) ds
    + (if decide (Exists (λ d, by_id !! d = Some x) ds) then 1 else 0).
Proof.
  intros Hx. unfold open_deps. induction ds as [|d ds IH]; intros Hnd.
  { rewrite decide_False; [done|]. by intros ?%Exists_nil. }
  apply NoDup_cons in Hnd as [Hd Hnd]. specialize (IH Hnd).
  rewrite !filter_cons, visited_snoc.
  destruct (decide (by_id !! d = Some x)) as [Hdx|Hdx].
  - rewrite (decide_True (P := Exists _ (d :: ds))) by (by left).
    assert (visited_dep P d = false) as ->.
    { unfold visited_dep. rewrite Hdx. by apply bool_decide_eq_false. }
    rewrite bool_decide_true by done. simpl.
    assert (¬ Exists (λ d, by_id !! d = Some x) ds) as Hno.
    { intros (d' & Hd' & Hdx')%Exists_exists. by rewrite (by_id_inj _ _ _ Hdx Hdx') in Hd. }
    rewrite decide_False in IH by done. lia.
  - rewrite bool_decide_false, orb_false_r by done.
    assert (Exists (λ d, by_id !! d = Some x) (d :: ds) ↔ Exists (λ d, by_id !! d = Some x) ds) as He.
    { rewrite Exists_cons. naive_solver. }
    rewrite (decide_ext _ _ _ _ He). destruct (visited_dep P d); simpl; lia.
Qed.

(** [P] has been visited in this order, [Q] waits, [ind] counts what is open. *)
Record kahn (P Q ind : list nat) : Prop := {
  k_len : length ind = length cs;
  k_ind i c : cs !! i = Some c → ind !! i = Some (open_deps P (depends_on c));
  k_nodup : NoDup (P ++ Q);
  k_zero i : i ∈ P ++ Q ↔ ind !! i = Some 0;
  k_order l1 i l2 j : P = l1 ++ i :: l2 → dep i j → j ∈ l1;
}.

Lemma open_deps_zero P i c j :
  cs !! i = Some c → open_deps P (depends_on c) = 0 → dep i j → j ∈ P.
Proof.
  intros Hi Hz (c' & d & Hc' & Hd & Hj). rewrite Hi in Hc'. injection Hc' as <-.
  unfold open_deps in Hz. apply nil_length_inv in Hz.
  destruct (visited_dep P d) eqn:Hv.
  - unfold visited_dep in Hv. rewrite Hj in Hv. by apply bool_decide_eq_true in Hv.
  - assert (d ∈ filter (λ d, visited_dep P d = false) (depends_on c)) as Hin
      by (by apply list_elem_of_filter).
    rewrite Hz in Hin. by apply elem_of_nil in Hin.
Qed.

Lemma kahn_round rows P x Q ind row :
  dependents_ok rows dep → kahn P (x :: Q) ind → rows !! x = Some row →
  ∃ ind' Q', foldl relax (Some (ind, Q)) row = Some (ind', Q') ∧ kahn (P ++ [x]) Q' ind'.
Proof.
  intros [Hlr Hr] [Hlen Hind Hnd Hz Ho] Hrow. destruct (Hr x row Hrow) as [Hnr Hin].
  assert (x ∉ P) as HxP.
  { apply NoDup_app in Hnd as (_ & Hnd & _). intros Hx. apply (Hnd x Hx). by left. }
  assert (Hrow' : ∀ i c, cs !! i = Some c →
    (i ∈ row ↔ Exists (λ d, by_id !! d = Some x) (depends_on c))).
  { intros i c Hi. rewrite Hin, Exists_exists. split.
    - intros (c' & d & Hc' & Hd & Hj). rewrite Hi in Hc'. injection Hc' as <-. eauto.
    - intros (d & Hd & Hj). by exists c, d. }
  assert (Hsnoc : ∀ i c, cs !! i = Some c → open_deps P (depends_on c)
    = open_deps (P ++ [x]) (depends_on c) + (if decide (i ∈ row) then 1 else 0)).
  { intros i c Hi. rewrite (open_deps_snoc P x (depends_on c) HxP).
    - f_equal. apply decide_ext. symmetry. by apply Hrow'.
    - apply (wf_once cs), Hwf. by eapply list_elem_of_lookup_2. }
  assert (Hcard : ∀ i k, ind !! i = Some k → ∃ c, cs !! i = Some c ∧ k = open_deps P (depends_on c)).
  { intros i k Hk. destruct (lookup_lt_is_Some_2 cs i) as [c Hc].
    - rewrite <- Hlen. by eapply lookup_lt_Some.
    - exists c. split; [done|]. rewrite (Hind i c Hc) in Hk. congruence. }
  destruct (relax_row row ind Q Hnr) as (ind' & fresh & Heq & Hlen' & Hval & Hnf & Hfr).
  { intros i Hi. assert (dep i x) as Hdi by by apply Hin.
    destruct (lookup_lt_is_Some_2 cs i) as [c Hc]; [by apply (dep_lt i x)|].
    specialize (Hsnoc i c Hc). rewrite decide_True in Hsnoc by done.
    exists (open_deps (P ++ [x]) (depends_on c)). rewrite (Hind i c Hc). f_equal. lia. }
  assert (Hval' : ∀ i c, cs !! i = Some c → ind' !! i = Some (open_deps (P ++ [x]) (depends_on c))).
  { intros i c Hc. rewrite (Hval i _ (Hind i c Hc)). rewrite (Hsnoc i c Hc).
    f_equal. destruct (decide (i ∈ row)); lia. }
  exists ind', (Q ++ fresh). split; [done|].
  assert (Hmem : ∀ i, i ∈ P ++ x :: Q ↔ i ∈ (P ++ [x]) ++ Q) by (intros i; set_solver).
  split.
  - congruence.
  - exact Hval'.
  - rewrite app_assoc. apply NoDup_app.
    split_and!; [by rewrite <- app_assoc| |done].
    intros i Hi Hif. apply Hmem, Hz in Hi. apply Hfr in Hif as [_ Hone]. congruence.
  - intros i. rewrite app_assoc, elem_of_app, <- Hmem, Hz, Hfr. split.
    + intros [H0|[Hir H1]]; [rewrite (Hval i _ H0)|rewrite (Hval i _ H1)]; by case_decide.
    + intros H0'. destruct (lookup_lt_is_Some_2 ind i) as [k Hk].
      { rewrite <- Hlen'. by eapply lookup_lt_Some. }
      rewrite (Hval i k Hk) in H0'. case_decide as Hir; [|left; congruence].
      destruct (Hcard i k Hk) as (c & Hc & ->).
      specialize (Hsnoc i c Hc). rewrite decide_True in Hsnoc by done.
      right. split; [done|]. rewrite Hk. injection H0' as H0'. f_equal. lia.
  - intros l1 i l2 j Hsplit Hdep. destruct l2 as [|y l2 _] using rev_ind.
    + apply app_inj_tail in Hsplit as [<- <-].
      assert (ind !! x = Some 0) as Hx0 by (apply Hz; set_solver).
      destruct (Hcard x 0 Hx0) as (c & Hc & Hzero). by eapply open_deps_zero.
    + rewrite app_comm_cons, app_assoc in Hsplit. apply app_inj_tail in Hsplit as [Hsplit _].
      by eapply Ho.
Qed.

Lemma kahn_bound P Q ind : kahn P Q ind → length P + length Q ≤ length cs.
Proof.
  intros [Hlen _ Hnd Hz _]. rewrite <- length_app.
  assert (P ++ Q ⊆+ seq 0 (length cs)) as Hsub; [|apply submseteq_length in Hsub; by rewrite length_seq in Hsub].
  apply NoDup_submseteq; [done|]. intros i Hi%Hz.
  apply elem_of_seq. apply lookup_lt_Some in Hi. lia.
Qed.

Lemma visit_ok rows fuel P Q ind :
  dependents_ok rows dep → kahn P Q ind → length cs ≤ length P + fuel →
  ∃ P' ind', visit fuel rows Q ind (length P) = Some (length P', ind') ∧ kahn P' [] ind'.
Proof.
  intros Hrows. revert P Q ind. induction fuel as [|fuel IH]; intros P Q ind Hk Hfuel.
  - pose proof (kahn_bound _ _ _ Hk). destruct Q as [|x Q]; simpl in *; [|lia]. eauto.
  - destruct Q as [|x Q]; [simpl; eauto|]. cbn [visit].
    assert (∃ row, rows !! x = Some row) as [row Hrow].
    { apply lookup_lt_is_Some_2. rewrite (proj1 Hrows), <- (k_len _ _ _ Hk).
      assert (ind !! x = Some 0) as Hx by (apply (k_zero _ _ _ Hk); set_solver).
      by eapply lookup_lt_Some. }
    destruct (kahn_round rows P x Q ind row Hrows Hk Hrow) as (ind' & Q' & Heq & Hk').
    rewrite Hrow. simpl. rewrite Heq. simpl.
    destruct (IH (P ++ [x]) Q' ind' Hk') as (P' & ind2 & Hv & Hk2).
    { rewrite length_app. simpl. lia. }
    rewrite length_app, Nat.add_1_r in Hv. eauto.
Qed.

Lemma elem_of_initially_ready (ind : list nat) i : i ∈ initially_ready ind ↔ ind !! i = Some 0.
Proof.
  unfold initially_ready. rewrite list_elem_of_fmap. split.
  - intros ([j k] & -> & [Hk Hin]%list_elem_of_filter). simpl in *. subst k.
    apply list_elem_of_lookup in Hin as [m Hm]. rewrite list_lookup_imap in Hm.
    apply fmap_Some in Hm as (k & Hk & [= -> ->]). done.
  - intros Hi. exists (i, 0). split; [done|]. apply list_elem_of_filter. split; [done|].
    apply list_elem_of_lookup. exists i. by rewrite list_lookup_imap, Hi.
Qed.

Lemma NoDup_initially_ready (ind : list nat) : NoDup (initially_ready ind).
Proof.
  unfold initially_ready.
  assert (∀ l k, NoDup (filter (λ p, p.2 = 0) (imap (λ i x, (k + i, x)) l)).*1
    ∧ ∀ i, i ∈ (filter (λ p : nat * nat, p.2 = 0) (imap (λ i x, (k + i, x)) l)).*1 → k ≤ i) as H.
  { induction l as [|x l IH]; intros k.
    - split; [constructor|]. by intros i ?%elem_of_nil.
    - rewrite imap_cons, filter_cons.
      assert (imap ((λ i x, (k + i, x)) ∘ S) l = imap (λ i x, (S k + i, x)) l) as ->.
      { apply imap_ext. intros i y _. simpl. f_equal. lia. }
      destruct (IH (S k)) as [IH1 IH2]. case_decide; simpl.
      + split.
        * apply NoDup_cons. split; [|done]. intros Hin%IH2. lia.
        * intros i [->|Hi%IH2]%elem_of_cons; lia.
      + split; [done|]. intros i Hi%IH2. lia. }
  apply (H ind 0).
Qed.

Lemma kahn_start : kahn [] (initially_ready ((λ c, length (depends_on c)) <$> cs))
  ((λ c, length (depends_on c)) <$> cs).
Proof.
  assert (Hopen : ∀ ds, open_deps [] ds = length ds).
  { intros ds. unfold open_deps. induction ds as [|d ds IH]; [done|]. rewrite filter_cons.
    assert (visited_dep [] d = false) as Hv.
    { unfold visited_dep. destruct (by_id !! d) as [j|]; [|done].
      apply bool_decide_eq_false. apply not_elem_of_nil. }
    rewrite decide_True by done. simpl. by rewrite IH. }
  split.
  - apply length_fmap.
  - intros i c Hi. rewrite list_lookup_fmap, Hi, Hopen. done.
  - apply NoDup_initially_ready.
  - intros i. apply elem_of_initially_ready.
  - intros l1 i l2 j Hnil. by destruct l1.
Qed.

(** *** What the end of the search means *)

Lemma in_cs_lookup i c : cs !! i = Some c → c ∈ cs.
Proof. apply list_elem_of_lookup_2. Qed.

Definition name_of (i : nat) : string := default "" (card_id <$> cs !! i).

Lemma kahn_perm P ind : kahn P [] ind → length P = length cs → P ≡ₚ seq 0 (length cs).
Proof.
  intros [Hlen _ Hnd Hz _] Hfull. rewrite app_nil_r in *.
  apply submseteq_length_Permutation; [|by rewrite length_seq, Hfull].
  apply NoDup_submseteq; [done|]. intros i Hi. apply elem_of_seq.
  apply Hz, lookup_lt_Some in Hi. lia.
Qed.

(** All cards visited: the order of the visits is an order of the cards. *)
Lemma kahn_full P ind :
  NoDup (card_id <$> cs) → kahn P [] ind → length P = length cs → ordered_by cs (name_of <$> P).
Proof.
  intros Hids Hk Hfull. pose proof (kahn_perm P ind Hk Hfull) as Hperm.
  destruct Hk as [Hlen _ Hnd Hz Ho]. rewrite app_nil_r in *.
  split.
  - assert (name_of <$> seq 0 (length cs) = card_id <$> cs) as <-; [|by rewrite Hperm].
    apply list_eq. intros i. rewrite !list_lookup_fmap. unfold name_of.
    destruct (decide (i < length cs)) as [Hlt|Hge].
    + rewrite lookup_seq_lt by done. simpl. destruct (lookup_lt_is_Some_2 cs i Hlt) as [c Hc].
      by rewrite Hc.
    + rewrite lookup_seq_ge, (lookup_ge_None_2 cs) by lia. done.
  - intros l1 id l2 c d Hsplit Hc Hid Hd.
    apply fmap_app_inv in Hsplit as (p1 & p2 & -> & Hp2 & ->).
    destruct p2 as [|i p2]; [done|]. injection Hp2 as Hi ->.
    apply list_elem_of_lookup in Hc as [k Hk].
    assert (∃ ci, cs !! i = Some ci) as [ci Hci].
    { apply lookup_lt_is_Some_2. rewrite <- Hlen.
      assert (ind !! i = Some 0) as H0 by (apply Hz; set_solver). by eapply lookup_lt_Some. }
    assert (i = k) as <-.
    { assert (by_id !! card_id ci = Some i) as H1 by by apply (ix_card _ _ Hix).
      assert (by_id !! card_id c = Some k) as H2 by by apply (ix_card _ _ Hix).
      unfold name_of in Hi. rewrite Hci in Hi. simpl in Hi. congruence. }
    destruct (card_deps_indexed i c d Hk Hd) as [j Hj].
    assert (j ∈ p1) as Hjp by (eapply Ho; [done|]; by exists c, d).
    apply list_elem_of_fmap. exists j. split; [|done]. unfold name_of.
    apply (ix_id _ _ Hix) in Hj as (cj & -> & <-). done.
Qed.

(** Some order of the cards exists: the search visits them all. *)
Lemma kahn_ordered P ind ord :
  kahn P [] ind → ordered_by cs ord → length P = length cs.
Proof.
  intros Hk [Hperm Hord]. pose proof (kahn_bound _ _ _ Hk) as Hb. simpl in Hb.
  pose proof Hk as [Hlen Hind Hnd Hz _]. rewrite app_nil_r in *.
  assert (∀ l1 l2, ord = l1 ++ l2 → ∀ id, id ∈ l1 → ∃ i, by_id !! id = Some i ∧ i ∈ P) as Hall.
  { intros l1. induction l1 as [|id l1 IH] using rev_ind; intros l2 Heq; [by intros ? ?%elem_of_nil|].
    rewrite <- app_assoc in Heq. simpl in Heq. intros id' [Hin|Hin]%elem_of_app; [by eapply IH|].
    apply list_elem_of_singleton in Hin as ->.
    assert (id ∈ card_id <$> cs) as Hin by (rewrite <- Hperm, Heq; set_solver).
    apply list_elem_of_fmap in Hin as (c & -> & Hc). apply list_elem_of_lookup in Hc as [i Hi].
    exists i. split; [by apply (ix_card _ _ Hix)|].
    apply Hz. rewrite (Hind i c Hi). f_equal. unfold open_deps.
    destruct (filter _ _) as [|d rest] eqn:Hfil; [done|]. exfalso.
    assert (d ∈ filter (λ d, visited_dep P d = false) (depends_on c)) as Hd by (rewrite Hfil; by left).
    apply list_elem_of_filter in Hd as [Hv Hd].
    assert (d ∈ l1) as Hd1 by (eapply Hord; [exact Heq|by eapply in_cs_lookup|done|done]).
    destruct (IH _ Heq d Hd1) as (j & Hj & HjP). unfold visited_dep in Hv. rewrite Hj in Hv.
    by apply bool_decide_eq_false in Hv. }
  apply Nat.le_antisymm; [lia|].
  assert (seq 0 (length cs) ⊆+ P) as Hsub; [|apply submseteq_length in Hsub; by rewrite length_seq in Hsub].
  apply NoDup_submseteq; [apply NoDup_seq|]. intros i Hi%elem_of_seq. destruct (lookup_lt_is_Some_2 cs i) as [c Hc]; [lia|].
  destruct (Hall ord [] (eq_sym (app_nil_r ord)) (card_id c)) as (j & Hj & HjP).
  - rewrite Hperm. apply list_elem_of_fmap_2. by eapply in_cs_lookup.
  - rewrite (ix_card _ _ Hix i c Hc) in Hj. by injection Hj as ->.
Qed.
End search.
End deps.

(** ** The whole operation *)

Section validate.
Context {Value Reply : Type}.
Implicit Types (b : TaskBoard (Value := Value) (Reply := Reply)).

Lemma validate_dependencies_spec b :
  ∃ r, validate_dependencies b = Some r ∧ (r = Ok () ↔ valid_dependencies (cards b)).
Proof.
  unfold validate_dependencies.
  pose proof (index_ids_spec [] (cards b) ∅) as Hids. simpl in Hids.
  destruct (index_ids 0 (cards b) ∅) as [by_id|e].
  2: { eexists. split; [done|]. split; [done|]. intros [Hnd _ _]. exfalso. apply Hids; [|constructor|done].
       by split; intros ?? ?. }
  destruct Hids as [Hix Hnd]; [by split; intros ?? ?|constructor|].
  pose proof (check_cards_Ok (cards b) by_id (cards b) Hix) as Hck.
  destruct (check_cards by_id (cards b)) as [[]|e].
  2: { eexists. split; [done|]. split; [done|]. intros [_ Hwf _]. by apply Hck in Hwf. }
  destruct Hck as [Hwf _]. specialize (Hwf eq_refl).
  destruct (build_dependents_ok (cards b) by_id Hix Hwf) as (rows & -> & Hrows). simpl.
  destruct (visit_ok (cards b) by_id Hix Hwf rows (length (cards b)) [] _ _ Hrows
    (kahn_start (cards b) by_id)) as (P & ind & Hv & Hk); [done|].
  simpl in Hv. rewrite Hv. simpl.
  destruct (Nat.eqb_spec (length P) (length (cards b))) as [Hfull|Hpart];
    (eexists; split; [reflexivity|]).
  - split; [|done]. intros _. split; [done|done|]. eexists. by eapply kahn_full.
  - split; [done|]. intros [_ _ [ord Hord]]. exfalso. apply Hpart. by eapply kahn_ordered.
Qed.

(** What an accepted board satisfies. *)
Lemma validate_dependencies_sound b :
  validate_dependencies b = Some (Ok ()) → valid_dependencies (cards b).
Proof.
  intros Hok. destruct (validate_dependencies_spec b) as (r & Hr & Hdec).
  rewrite Hok in Hr. injection Hr as <-. by apply Hdec.
Qed.

(** C8. Dependency validation always answers (no underflow, no index out of range, and
    the loop ends within one visit per card), and it accepts a board exactly when the
    card ids are distinct, every dependency is another card named once, and the cards
    can be put in an order in which each one follows all it depends on. *)
Theorem validate_dependencies_decides b :
  ∃ r, validate_dependencies b = Some r ∧ (r = Ok () ↔ valid_dependencies (cards b)).
Proof. apply validate_dependencies_spec. Qed.

(** ** Which cards can be worked on *)

Definition deps_done (b : TaskBoard (Value := Value) (Reply := Reply)) (c : BoardCard Value) : bool :=
  forallb (λ d, bool_decide (d ∈ card_id <$> filter (λ c, column c = "done") (cards b))) (depends_on c).

Definition ids_where (p : BoardCard Value → bool) (cs : list (BoardCard Value)) : list string :=
  card_id <$> filter (λ c, p c = true) cs.

Definition in_column (s : string) (c : BoardCard Value) : bool := bool_decide (column c = s).

Lemma ids_where_snoc p cs c :
  ids_where p (cs ++ [c]) = ids_where p cs ++ (if p c then [card_id c] else []).
Proof.
  unfold ids_where. rewrite filter_app, fmap_app. f_equal.
  rewrite filter_cons. by destruct (p c).
Qed.

Lemma ready_cards_fields b :
  get_ready_cards b = {|
    ready := ids_where (λ c, in_column "planned" c && deps_done b c) (cards b);
    blocked := ids_where (λ c, in_column "planned" c && negb (deps_done b c)) (cards b);
    in_progress := ids_where (in_column "doing") (cards b);
    completed := ids_where (in_column "done") (cards b);
    failed := ids_where (λ c, in_column "failed" c || in_column "regressed" c) (cards b) |}.
Proof.
  unfold get_ready_cards, deps_done.
  set (done_cards := card_id <$> filter (λ c, column c = "done") (cards b)). clearbody done_cards.
  induction (cards b) as [|c cs IH] using rev_ind; [done|].
  rewrite foldl_app, IH. rewrite !ids_where_snoc. simpl. clear IH. unfold classify, in_column.
  destruct (decide (column c = "done")) as [->|H1]; [simpl; by rewrite ?app_nil_r|].
  rewrite (bool_decide_false _ H1).
  destruct (decide (column c = "failed")) as [->|H2]; [simpl; by rewrite ?app_nil_r|].
  rewrite (bool_decide_false _ H2).
  destruct (decide (column c = "regressed")) as [->|H3]; [simpl; by rewrite ?app_nil_r|].
  rewrite (bool_decide_false _ H3).
  destruct (decide (column c = "doing")) as [->|H4]; [simpl; by rewrite ?app_nil_r|].
  rewrite (bool_decide_false _ H4).
  destruct (decide (column c = "planned")) as [->|H5].
  - simpl. destruct (forallb _ _); simpl; by rewrite ?app_nil_r.
  - rewrite (bool_decide_false _ H5). simpl. by rewrite ?app_nil_r.
Qed.

Lemma elem_of_ids_where p cs id :
  id ∈ ids_where p cs ↔ ∃ c, c ∈ cs ∧ card_id c = id ∧ p c = true.
Proof.
  unfold ids_where. rewrite list_elem_of_fmap. setoid_rewrite list_elem_of_filter. naive_solver.
Qed.

(** The first card of an order that satisfies [p]. *)
Lemma first_in_order (p : string → bool) ord id :
  id ∈ ord → p id = true → ∃ l1 x l2, ord = l1 ++ x :: l2 ∧ p x = true ∧ ∀ y, y ∈ l1 → p y = false.
Proof.
  intros Hin Hp. induction ord as [|x ord IH]; [by apply elem_of_nil in Hin|].
  destruct (p x) eqn:Hx.
  - exists [], x, ord. split_and!; [done|done|by intros y ?%elem_of_nil].
  - apply elem_of_cons in Hin as [->|Hin]; [congruence|].
    destruct (IH Hin) as (l1 & y & l2 & -> & Hy & Hl). exists (x :: l1), y, l2.
    split_and!; [done|done|]. by intros z [->|?%Hl]%elem_of_cons.
Qed.

(** A validated board never stalls: while no card is running or failed and some card is
    still planned, [get_ready_cards] offers at least one card, and every card it offers is
    planned with all its dependencies done. *)
Lemma validated_board_progresses b :
  validate_dependencies b = Some (Ok ()) →
  (∀ c, c ∈ cards b → column c = "planned" ∨ column c = "done") →
  (∃ c, c ∈ cards b ∧ column c = "planned") →
  ready (get_ready_cards b) ≠ [] ∧
  ∀ id, id ∈ ready (get_ready_cards b) →
    ∃ c, c ∈ cards b ∧ card_id c = id ∧ column c = "planned" ∧
      ∀ d, d ∈ depends_on c → ∃ c', c' ∈ cards b ∧ card_id c' = d ∧ column c' = "done".
Proof.
  intros Hok Hcols [c0 [Hc0 Hp0]].
  destruct (validate_dependencies_sound b Hok) as [Hnd Hwf [ord [Hperm Hord]]].
  assert (Hready : ∀ c, deps_done b c = true ↔
    ∀ d, d ∈ depends_on c → ∃ c', c' ∈ cards b ∧ card_id c' = d ∧ column c' = "done").
  { intros c. unfold deps_done. rewrite forallb_elem. split; intros H d Hd; specialize (H d Hd).
    - apply bool_decide_eq_true, list_elem_of_fmap in H as (c' & -> & Hc').
      apply list_elem_of_filter in Hc' as [? ?]. eauto.
    - apply bool_decide_eq_true, list_elem_of_fmap. destruct H as (c' & Hc' & <- & Hd').
      exists c'. split; [done|]. by apply list_elem_of_filter. }
  rewrite ready_cards_fields. simpl. split.
  - destruct (first_in_order (λ id, bool_decide (id ∈ ids_where (in_column "planned") (cards b)))
      ord (card_id c0)) as (l1 & x & l2 & Heq & Hx & Hl1).
    + rewrite Hperm. by apply list_elem_of_fmap_2.
    + apply bool_decide_eq_true, elem_of_ids_where. exists c0. split_and!; [done..|].
      by apply bool_decide_eq_true.
    + apply bool_decide_eq_true, elem_of_ids_where in Hx as (c & Hc & <- & Hpl).
      assert (card_id c ∈ ids_where (λ c, in_column "planned" c && deps_done b c) (cards b)) as Hin.
      { apply elem_of_ids_where. exists c. split_and!; [done..|]. rewrite Hpl. simpl.
        apply Hready. intros d Hd.
        assert (d ∈ l1) as Hd1 by by eapply Hord.
        apply (wf_exist _ _ (Hwf c Hc)) in Hd. apply list_elem_of_fmap in Hd as (c' & -> & Hc').
        exists c'. split_and!; [done..|]. destruct (Hcols c' Hc') as [Hpl'|]; [|done].
        specialize (Hl1 _ Hd1). apply bool_decide_eq_false in Hl1. exfalso. apply Hl1.
        apply elem_of_ids_where. exists c'. split_and!; [done..|]. by apply bool_decide_eq_true. }
      intros Hnil. rewrite Hnil in Hin. by apply elem_of_nil in Hin.
  - intros id (c & Hc & <- & Hb)%elem_of_ids_where. apply andb_true_iff in Hb as [Hpl Hdn].
    exists c. split_and!; [done..| |]; [by apply bool_decide_eq_true in Hpl|by apply Hready].
Qed.
End validate.
