(* ===== verification/BoardProps.v ===== *)
(** * Properties of the task board

    Claims are exclusive whatever other agents do, and finalization happens exactly
    when the board's roles, reviews and required outcome allow it. *)

From stdpp Require Import gmap strings list.
From S2P Require Import Prelude RustStr BoardTypes Outcome Board.

Section props.
Context {Value Reply : Type}.
Abbreviation TBoard := (TaskBoard (Value := Value) (Reply := Reply)).
Implicit Types (b : TBoard) (c : BoardCard Value) (id : string) (g : BoardCard Value → BoardCard Value).

(** ** Lookup *)

Lemma find_card_Some id (cs : list (BoardCard Value)) c :
  find_card id cs = Some c → c ∈ cs ∧ card_id c = id.
Proof.
  unfold find_card. intros ([i x] & Hf & [= <-])%fmap_Some.
  apply list_find_Some in Hf as (Hi & Hid & _). split; [|done]. by eapply list_elem_of_lookup_2.
Qed.

Lemma find_card_cons id c (cs : list (BoardCard Value)) :
  find_card id (c :: cs) = if bool_decide (card_id c = id) then Some c else find_card id cs.
Proof.
  unfold find_card. simpl. destruct (decide (card_id c = id)) as [H|H].
  - by rewrite bool_decide_true.
  - rewrite bool_decide_false by done. by destruct (list_find _ cs) as [[]|].
Qed.

Lemma find_card_alter g id id' (cs : list (BoardCard Value)) :
  (∀ c, card_id (g c) = card_id c) →
  find_card id' (alter_card g id cs) =
    (if bool_decide (id = id') then g <$> find_card id' cs else find_card id' cs).
Proof.
  intros Hg. induction cs as [|c cs IH]; [by case_bool_decide|]. simpl.
  destruct (decide (card_id c = id)) as [H|H].
  - rewrite (bool_decide_true _ H), !find_card_cons, Hg, H.
    destruct (decide (id = id')) as [E|E].
    + by rewrite (bool_decide_true _ E).
    + by rewrite (bool_decide_false _ E).
  - rewrite (bool_decide_false _ H), !find_card_cons, IH.
    destruct (decide (card_id c = id')) as [E|E]; [|by rewrite (bool_decide_false _ E)].
    rewrite (bool_decide_true _ E), bool_decide_false; [done|congruence].
Qed.

Lemma find_card_map g id (cs : list (BoardCard Value)) :
  (∀ c, card_id (g c) = card_id c) → find_card id (g <$> cs) = g <$> find_card id cs.
Proof.
  intros Hg. induction cs as [|c cs IH]; [done|].
  rewrite fmap_cons, !find_card_cons, Hg, IH. by case_bool_decide.
Qed.

Lemma find_card_remove id id' (cs : list (BoardCard Value)) :
  id ≠ id' → find_card id' (remove_first id cs) = find_card id' cs.
Proof.
  intros Hne. induction cs as [|c cs IH]; [done|]. simpl.
  destruct (decide (card_id c = id)) as [H|H].
  - rewrite (bool_decide_true _ H), find_card_cons, bool_decide_false; [done|congruence].
  - rewrite (bool_decide_false _ H), !find_card_cons. by rewrite IH.
Qed.

(** ** Claims *)

(** [id] may be worked on: its dependencies are done, or an override is on record. *)
Definition gate_open id b : Prop :=
  ∃ c, get_card id b = Some c ∧
    (is_Some (dependency_overrides b !! id) ∨
     ∀ d, d ∈ depends_on c → ∃ c', get_card d b = Some c' ∧ column c' = "done").

Lemma dependency_satisfied b d :
  dependency_unsatisfied b d = false ↔ ∃ c', get_card d b = Some c' ∧ column c' = "done".
Proof.
  unfold dependency_unsatisfied, is_done. destruct (get_card d b) as [c'|].
  - rewrite negb_false_iff, bool_decide_eq_true. naive_solver.
  - naive_solver.
Qed.

Lemma dependency_gate_Ok id b : dependency_gate id b = Ok () ↔ gate_open id b.
Proof.
  unfold dependency_gate, unsatisfied_dependencies, gate_open.
  destruct (get_card id b) as [c|] eqn:Hc; simpl; [|split; [done|by intros (? & ? & _)]].
  assert (filter (λ d, dependency_unsatisfied b d = true) (depends_on c) = [] ↔
    ∀ d, d ∈ depends_on c → ∃ c', get_card d b = Some c' ∧ column c' = "done") as Hf.
  { setoid_rewrite <- dependency_satisfied. induction (depends_on c) as [|d ds IH].
    - split; [|done]. by intros _ d ?%elem_of_nil.
    - rewrite filter_cons. destruct (dependency_unsatisfied b d) eqn:E; simpl.
      + split; [done|]. intros H. specialize (H d ltac:(left)). congruence.
      + rewrite IH. split; [|intros H d' Hd'; apply H; by right].
        by intros H d' [->|Hd']%elem_of_cons; [|apply H]. }
  destruct (decide (filter (λ d, dependency_unsatisfied b d = true) (depends_on c) = [])) as [E|E].
  - rewrite (bool_decide_true _ E). simpl. split; [|done]. intros _. exists c.
    split; [done|]. right. by apply Hf.
  - rewrite (bool_decide_false _ E). simpl. case_bool_decide as Ho.
    + split; [|done]. intros _. exists c. eauto.
    + split; [done|]. intros (c' & [= <-] & [?|Hd]); [done|]. by apply Hf in Hd.
Qed.

Inductive ClaimOp :=
  | OpClaim (id claimant key at_time : string)
  | OpRelease (id claimant : string).
Definition claim_op (b : TBoard) (o : ClaimOp) : TBoard :=
  match o with
  | OpClaim id claimant key at_time => (claim_card id claimant key at_time b).1
  | OpRelease id claimant => (release_claim id claimant b).1
  end.
(** The operations of agents other than [a]'s releases. *)
Definition releases (id a : string) (o : ClaimOp) : Prop := o = OpRelease id a.

(** Claim operations change nothing the gate reads, and never a held claim. *)
Lemma claim_op_frame b o id cl :
  card_claims b !! id = Some cl → ¬ releases id (claimant_chat_id cl) o →
  card_claims (claim_op b o) !! id = Some cl
    ∧ cards (claim_op b o) = cards b ∧ dependency_overrides (claim_op b o) = dependency_overrides b.
Proof.
  intros Hcl Hno. destruct o as [id' a k t|id' a]; simpl.
  - unfold claim_card. destruct (dependency_gate id' b); [|done].
    destruct (card_claims b !! id') as [cl'|] eqn:E; [by case_match|].
    simpl. split; [|done]. rewrite lookup_insert_ne; [done|congruence].
  - unfold release_claim. destruct (card_claims b !! id') as [cl'|] eqn:E; [|done].
    case_bool_decide as Ha; [|done]. simpl. split; [|done].
    rewrite lookup_delete_ne; [done|]. intros ->. apply Hno. rewrite Hcl in E.
    injection E as <-. by rewrite Ha.
Qed.

Lemma gate_open_frame id b b' :
  cards b' = cards b → dependency_overrides b' = dependency_overrides b →
  dependency_gate id b' = dependency_gate id b.
Proof.
  unfold dependency_gate, unsatisfied_dependencies, get_card. intros Hc Ho.
  destruct (find_card id (cards b')) as [c|] eqn:E; rewrite Hc in E; rewrite E; [|done]. simpl.
  rewrite Ho.
  assert (∀ ds, filter (λ d, dependency_unsatisfied b' d = true) ds
    = filter (λ d, dependency_unsatisfied b d = true) ds) as ->; [|done].
  intros ds. apply list_filter_iff. intros d. unfold dependency_unsatisfied, get_card.
  by rewrite Hc.
Qed.

(** A claim is a compare-and-set.  It is granted only while the card's dependencies are
    done or overridden; whatever claims and releases other agents then try, in any
    order, the card stays claimed by that agent under that key: the agent's own retry is
    answered as already held, and everyone else, and any other key, is refused. *)
Lemma claim_is_exclusive b id a key at_time b' r ops :
  claim_card id a key at_time b = (b', Ok r) →
  (∀ o, o ∈ ops → ¬ releases id a o) →
  let b'' := foldl claim_op b' ops in
  gate_open id b ∧
  (∀ t, claim_card id a key t b'' = (b'', Ok AlreadyHeld)) ∧
  (∀ a' key' t, (a', key') ≠ (a, key) →
     claim_card id a' key' t b'' = (b'', Err (AlreadyClaimed id a))) ∧
  (∀ a', a' ≠ a → release_claim id a' b'' = (b'', Err (AlreadyClaimed id a))).
Proof.
  intros Hclaim Hops.
  assert (dependency_gate id b = Ok () ∧ cards b' = cards b
    ∧ dependency_overrides b' = dependency_overrides b
    ∧ ∃ cl, card_claims b' !! id = Some cl ∧ claimant_chat_id cl = a ∧ idempotency_key cl = key)
    as (Hg & Hcs & Hov & cl & Hcl & Ha & Hk).
  { unfold claim_card in Hclaim. destruct (dependency_gate id b) as [[]|]; [|done].
    destruct (card_claims b !! id) as [cl|] eqn:E.
    - destruct (bool_decide _) eqn:Ha in Hclaim; [|done].
      destruct (bool_decide _) eqn:Hk in Hclaim; [|done]. simpl in Hclaim.
      apply bool_decide_eq_true in Ha, Hk. injection Hclaim as <- <-. eauto 10.
    - injection Hclaim as <- <-. simpl. rewrite lookup_insert_eq. eauto 10. }
  assert (card_claims (foldl claim_op b' ops) !! id = Some cl
    ∧ cards (foldl claim_op b' ops) = cards b'
    ∧ dependency_overrides (foldl claim_op b' ops) = dependency_overrides b') as (Hcl' & Hcs' & Hov').
  { clear Hclaim Hcs Hov. revert b' Hcl. induction ops as [|o ops IH]; intros b' Hcl; [done|].
    simpl. destruct (claim_op_frame b' o id cl Hcl) as (H1 & H2 & H3).
    { rewrite Ha. apply Hops. by left. }
    rewrite <- H2, <- H3. apply IH; [|done]. intros o' Ho'. apply Hops. by right. }
  set (b'' := foldl claim_op b' ops) in *. clearbody b''.
  assert (dependency_gate id b'' = Ok ()) as Hg''.
  { rewrite (gate_open_frame id b b''); [done|congruence..]. }
  split_and!.
  - by apply dependency_gate_Ok.
  - intros t. unfold claim_card. rewrite Hg'', Hcl'. by rewrite !bool_decide_true.
  - intros a' key' t Hne. unfold claim_card. rewrite Hg'', Hcl', Ha, Hk.
    destruct (bool_decide (a = a')) eqn:E1; [|done].
    destruct (bool_decide (key = key')) eqn:E2; [|done].
    apply bool_decide_eq_true in E1, E2. by subst.
  - intros a' Hne. unfold release_claim. rewrite Hcl', Ha. by rewrite bool_decide_false.
Qed.

(** ** The finalize gate *)

(** What a required section must be for the card to be finalized. *)
Record satisfied_by (o : CardOutcome) (r : OutcomeRequirement) (f : OutcomeFragment) : Prop := {
  sat_lookup : fragment (req_fragment r) o = Some f;
  sat_content : fragment_content_is_absent (frag_content f) = false;
  sat_review : frag_review f = FrPending ∨ frag_review f = FrApproved;
  sat_evidence : requires_evidence r = true →
    evidence_spec_ids (provenance f) ≠ [] ∧ ∃ run, source_run (provenance f) = Some run ∧ trim run ≠ [];
}.

Definition may_finalize (b : TBoard) id (principal : string) (self : bool) : Prop :=
  ∀ owner, owner_chat_id b = Some owner →
    (principal = owner ∨ principal ∈ reviewer_chat_ids b) ∧
    (self = false → ∀ cl, card_claims b !! id = Some cl → claimant_chat_id cl ≠ principal).

Definition review_in_force (b : TBoard) id c (self : bool) : Prop :=
  ∀ owner, owner_chat_id b = Some owner →
    ∃ report, verifier_report c = Some report ∧
      ((self = true ∧ review_policy b = OwnerAllowed) ∨
       ∃ a, review_attestations b !! id = Some a ∧ att_report a = report ∧
         reviewer_chat_id a ≠ owner ∧ reviewer_chat_id a ∈ reviewer_chat_ids b).

Record finalizable (b : TBoard) id (principal : string) (self : bool) c : Prop := {
  fz_card : get_card id b = Some c;
  fz_done : column c = "done";
  fz_fresh : card_is_finalized id b = false;
  fz_principal : may_finalize b id principal self;
  fz_review : review_in_force b id c self;
  fz_outcome o r : card_outcomes b !! id = Some o → r ∈ required o → ∃ f, satisfied_by o r f;
}.

Lemma requirement_blocks_nil o r : requirement_blocks o r = [] ↔ ∃ f, satisfied_by o r f.
Proof.
  unfold requirement_blocks. destruct (fragment (req_fragment r) o) as [f|] eqn:Hf.
  2: { split; [done|]. intros (f & [Hl _ _ _]). congruence. }
  transitivity (satisfied_by o r f).
  2: { split; [eauto|]. intros (f' & [Hl H1 H2 H3]). rewrite Hf in Hl. injection Hl as <-. by split. }
  cbv zeta. unfold has_content. rewrite !app_nil.
  assert ((if negb (fragment_content_is_absent (frag_content f)) then []
           else [EmptyFragment (req_fragment r)]) = []
          ↔ fragment_content_is_absent (frag_content f) = false) as ->
    by (by destruct (fragment_content_is_absent _)).
  assert (∀ n, match frag_review f with
               | FrRejected => [RejectedFragment (req_fragment r) n]
               | FrContradicted => [ContradictedFragment (req_fragment r) n]
               | FrPending | FrApproved => []
               end = [] ↔ frag_review f = FrPending ∨ frag_review f = FrApproved) as ->
    by (intros n; destruct (frag_review f); naive_solver).
  transitivity (fragment_content_is_absent (frag_content f) = false
    ∧ (frag_review f = FrPending ∨ frag_review f = FrApproved)
    ∧ (requires_evidence r = true → evidence_spec_ids (provenance f) ≠ []
        ∧ ∃ run, source_run (provenance f) = Some run ∧ trim run ≠ [])).
  2: { split; [by intros (? & ? & ?)|by intros [? ? ? ?]]. }
  do 2 f_equiv. destruct (requires_evidence r); [|done]. rewrite app_nil.
  destruct (source_run (provenance f)) as [run|]; [|naive_solver].
  repeat case_bool_decide; naive_solver.
Qed.

Lemma authorize_finalizer_Ok id principal self b c :
  get_card id b = Some c →
  authorize_finalizer id principal self b = Ok () ↔ may_finalize b id principal self.
Proof.
  intros Hc. unfold authorize_finalizer, may_finalize. rewrite Hc.
  destruct (owner_chat_id b) as [owner|]; [|done].
  destruct (negb _ && negb _) eqn:Hrole.
  - split; [done|]. intros H. destruct (H owner eq_refl) as [Hr _].
    apply andb_true_iff in Hrole as [H1 H2]. apply negb_true_iff in H1, H2.
    apply bool_decide_eq_false in H1, H2. destruct Hr; congruence.
  - assert (principal = owner ∨ principal ∈ reviewer_chat_ids b) as Hr.
    { apply andb_false_iff in Hrole as [H%negb_false_iff|H%negb_false_iff];
        apply bool_decide_eq_true in H; auto. }
    destruct (card_claims b !! id) as [cl|] eqn:Hcl.
    + destruct (decide (claimant_chat_id cl = principal)) as [Hp|Hp].
      * rewrite (bool_decide_true _ Hp). destruct self; naive_solver.
      * rewrite (bool_decide_false _ Hp). naive_solver.
    + simpl. naive_solver.
Qed.

Lemma owner_may_review_true self b :
  owner_may_review self b = true ↔ self = true ∧ review_policy b = OwnerAllowed.
Proof. unfold owner_may_review. by rewrite andb_true_iff, bool_decide_eq_true. Qed.

Lemma review_blocks_nil id c self b : review_blocks id c self b = [] ↔ review_in_force b id c self.
Proof.
  unfold review_blocks, review_in_force. destruct (owner_chat_id b) as [owner|] eqn:Ho; [|done].
  destruct (verifier_report c) as [report|]; [|naive_solver].
  unfold review_policy_allows_report.
  destruct (owner_may_review self b) eqn:Hself.
  { apply owner_may_review_true in Hself. naive_solver. }
  assert (¬ (self = true ∧ review_policy b = OwnerAllowed)) as Hno.
  { rewrite <- owner_may_review_true. congruence. }
  destruct (review_attestations b !! id) as [a|]; [|naive_solver]. rewrite Ho.
  repeat case_bool_decide; simpl; naive_solver.
Qed.

Lemma finalize_allowed b id principal self :
  allowed (evaluate_finalize id principal self b) = true ↔ ∃ c, finalizable b id principal self c.
Proof.
  unfold evaluate_finalize. destruct (get_card id b) as [c|] eqn:Hc.
  2: { split; [done|]. intros (c & [? _ _ _ _ _]). congruence. }
  assert (∀ d, allowed d = true ↔ blocks d = []) as -> by (intros [[|??]]; simpl; naive_solver).
  simpl. rewrite !app_nil, review_blocks_nil.
  transitivity (finalizable b id principal self c).
  2: { split; [eauto|]. intros (c' & Hfz). pose proof (fz_card _ _ _ _ _ Hfz). congruence. }
  assert ((if is_done c then [] else [NotCompleted id (column c)]) = [] ↔ column c = "done") as ->.
  { unfold is_done. by case_bool_decide. }
  assert (match card_outcomes b !! id ≫= finalized with
          | Some f => [AlreadyFinalized id (finalized_by f)] | None => [] end = []
          ↔ card_is_finalized id b = false) as ->.
  { unfold card_is_finalized. destruct (card_outcomes b !! id) as [o|]; simpl; [|done].
    by destruct (finalized o). }
  assert (match authorize_finalizer id principal self b with
          | Ok _ => [] | Err v => [ReviewDenied (violation_message v)] end = []
          ↔ may_finalize b id principal self) as ->.
  { rewrite <- (authorize_finalizer_Ok id principal self b c Hc).
    destruct (authorize_finalizer id principal self b) as [[]|]; done. }
  assert (match card_outcomes b !! id with Some o => required o ≫= requirement_blocks o | None => [] end = []
          ↔ ∀ o r, card_outcomes b !! id = Some o → r ∈ required o → ∃ f, satisfied_by o r f) as ->.
  { destruct (card_outcomes b !! id) as [o|]; [|naive_solver].
    transitivity (∀ r, r ∈ required o → requirement_blocks o r = []).
    - rewrite <- Forall_forall. induction (required o) as [|r rs IH]; [done|].
      rewrite Forall_cons. simpl. rewrite app_nil, IH. done.
    - setoid_rewrite requirement_blocks_nil. naive_solver. }
  split; [by intros (? & ? & ? & ? & ?)|by intros [? ? ? ? ? ?]].
Qed.

(** C9. [finalize_card] succeeds exactly when the card is done and not yet finalized, the
    principal is the owner or an assigned reviewer of an owned board and, unless self
    review is allowed, not the agent that claims the card, the stored verifier report is
    covered by the review policy (by the owner where that is allowed, otherwise by an
    assigned reviewer who is not the owner and attested this very report), and each
    required section is present, has content, is not rejected or contradicted and
    carries its evidence and source run where that is required.  Success records who
    finalized and when, so that every later attempt is refused; a refusal changes
    nothing. *)
Theorem finalize_decides b id principal self at_time :
  let out := finalize_card id principal self at_time b in
  (out.2 = Ok () ↔ ∃ c, finalizable b id principal self c) ∧
  (out.2 = Ok () →
     card_outcome id out.1 = Some (set_finalized
       (Some {| finalized_by := principal; finalized_at := at_time |})
       (default empty_outcome (card_outcome id b))) ∧
     ∀ principal' self' t, ∃ d, finalize_card id principal' self' t out.1 = (out.1, Err d)) ∧
  (out.2 ≠ Ok () → out.1 = b).
Proof.
  cbv zeta. rewrite <- finalize_allowed. unfold finalize_card.
  destruct (allowed (evaluate_finalize id principal self b)) eqn:Hal; simpl; [|done].
  unfold card_outcome. split_and!; [done| |done]. intros _. split.
  { simpl. by rewrite lookup_insert_eq. }
  intros principal' self' t.
  match goal with |- context [evaluate_finalize ?i ?p ?s ?bb] =>
    destruct (allowed (evaluate_finalize i p s bb)) eqn:Hal' end; [|eauto].
  apply finalize_allowed in Hal' as (c & [_ _ Hf _ _ _]).
  unfold card_is_finalized in Hf. simpl in Hf. rewrite lookup_insert_eq in Hf.
  done.
Qed.
End props.
