(* ===== verification/BoardAuthority.v ===== *)
(** * The authority rules of a board are an invariant

    [Board.validate_authority] as a specification, and its preservation by every
    operation of the board, the attestation of [tasks/storage.rs] and the closures of
    [tools/tool_task_board_authority.rs] included, but those that [breaks_authority] names. *)

From stdpp Require Import gmap strings list.
From S2P Require Import Prelude RustStr BoardTypes Outcome Board BoardDeps BoardProps.


Section authority.
Context {Value Reply : Type}.
Abbreviation TBoard := (TaskBoard (Value := Value) (Reply := Reply)).
Implicit Types (b : TBoard) (c : BoardCard Value) (id : string).

(** ** Specification *)

Record valid_reviewers (owner : option string) (l : list string) : Prop := {
  vr_nodup : NoDup l;
  vr_each r : r ∈ l → blank r = false ∧ owner ≠ Some r;
}.

(** An attestation is of the report the card carries, by a reviewer of the board. *)
Record valid_attestation b id (a : BoardReviewAttestation) : Prop := {
  va_report : get_card id b ≫= verifier_report = Some (att_report a);
  va_assigned : reviewer_chat_id a ∈ reviewer_chat_ids b;
  va_independent : owner_chat_id b ≠ Some (reviewer_chat_id a);
}.

Record valid_authority (max_reviewers : N) b : Prop := {
  au_count : (Nlen (reviewer_chat_ids b) ≤ max_reviewers)%N;
  au_reviewers : valid_reviewers (owner_chat_id b) (reviewer_chat_ids b);
  au_owner : owner_chat_id b ≠ Some "";
  au_attest id a : review_attestations b !! id = Some a → valid_attestation b id a;
}.

Lemma check_reviewers_Ok owner seen l :
  check_reviewers owner seen l = Ok () ↔ valid_reviewers owner l ∧ ∀ r, r ∈ l → r ∉ seen.
Proof.
  revert seen. induction l as [|r l IH]; intros seen; simpl.
  { split; [|done]. intros _. split; [split; [constructor|]|]; by intros ? ?%elem_of_nil. }
  destruct (blank r) eqn:Hb.
  { split; [done|]. intros [[_ H] _]. destruct (H r ltac:(left)). congruence. }
  destruct (decide (r ∈ seen)) as [Hs|Hs].
  { rewrite bool_decide_true by done. split; [done|]. intros [_ H]. by destruct (H r ltac:(left)). }
  rewrite (bool_decide_false _ Hs). destruct (decide (owner = Some r)) as [Ho|Ho].
  { rewrite bool_decide_true by done. split; [done|]. intros [[_ H] _]. by destruct (H r ltac:(left)). }
  rewrite (bool_decide_false _ Ho), IH. split.
  - intros [[Hnd He] Hns]. split; [split|].
    + apply NoDup_cons. split; [|done]. intros Hr. apply (Hns r Hr). by left.
    + by intros r' [->|Hr']%elem_of_cons; [|apply He].
    + intros r' [->|Hr']%elem_of_cons; [done|]. intros Hin. apply (Hns r' Hr'). by right.
  - intros [[[Hr Hnd]%NoDup_cons He] Hns]. split; [split; [done|]|].
    + intros r' Hr'. apply He. by right.
    + intros r' Hr' [->|Hin]%elem_of_cons; [done|]. apply (Hns r'); [by right|done].
Qed.

Lemma first_error_Ok {A} (check : A → result unit string) l :
  first_error check l = Ok () ↔ ∀ x, x ∈ l → check x = Ok ().
Proof.
  induction l as [|x l IH]; simpl.
  - split; [by intros _ ? ?%elem_of_nil|done].
  - rewrite result_bind_Ok. split.
    + by intros ([] & Hx & Hl) y [->|Hy]%elem_of_cons; [|apply IH].
    + intros H. exists (). split; [apply H; by left|]. apply IH. intros y Hy. apply H. by right.
Qed.

Lemma check_attestation_Ok b id a : check_attestation b (id, a) = Ok () ↔ valid_attestation b id a.
Proof.
  unfold check_attestation. destruct (get_card id b) as [c|] eqn:Hc.
  2: { split; [done|]. intros [H _ _]. rewrite Hc in H. done. }
  transitivity (verifier_report c = Some (att_report a)
    ∧ reviewer_chat_id a ∈ reviewer_chat_ids b ∧ owner_chat_id b ≠ Some (reviewer_chat_id a)).
  - repeat case_bool_decide; simpl; naive_solver.
  - split; [intros (? & ? & ?); split; [by rewrite Hc|done|done]|].
    intros [H ? ?]. rewrite Hc in H. done.
Qed.

Lemma validate_authority_Ok max_reviewers b :
  validate_authority max_reviewers b = Ok () ↔ valid_authority max_reviewers b.
Proof.
  unfold validate_authority. destruct (N.ltb_spec max_reviewers (Nlen (reviewer_chat_ids b))).
  { split; [done|]. intros [? _ _ _]. lia. }
  rewrite result_bind_Ok.
  transitivity (valid_reviewers (owner_chat_id b) (reviewer_chat_ids b) ∧ owner_chat_id b ≠ Some ""
    ∧ ∀ id a, review_attestations b !! id = Some a → valid_attestation b id a).
  - split.
    + intros ([] & [Hr _]%check_reviewers_Ok & Hrest). destruct (decide (owner_chat_id b = Some "")) as [E|E].
      { by rewrite (bool_decide_true _ E) in Hrest. }
      rewrite (bool_decide_false _ E), first_error_Ok in Hrest. split_and!; [done|done|].
      intros id a Ha. apply check_attestation_Ok, Hrest. by apply elem_of_btree_list.
    + intros (Hr & Ho & Ha). exists (). split.
      * apply check_reviewers_Ok. split; [done|]. intros ? _. apply not_elem_of_nil.
      * rewrite (bool_decide_false _ Ho). apply first_error_Ok. intros [id a] Hin.
        apply check_attestation_Ok, Ha. by apply elem_of_btree_list.
  - split; [intros (? & ? & ?); by split|by intros [? ? ? ?]].
Qed.

(** ** Operations *)

(** The closures of [task_board_authority]'s actions; the tool has checked that [target] is a chat of the
    task, and a refused closure leaves the board alone. *)
Inductive AuthorityAction := ClaimOwner | AddReviewer (target : string) | RemoveReviewer (target : string)
  | TransferOwner (target : string) | SetReviewPolicy (policy : BoardReviewPolicy).
Definition upd_policy (policy : BoardReviewPolicy) b : TBoard := {|
  schema_version := schema_version b; rev := rev b; columns := columns b; cards := cards b;
  owner_chat_id := owner_chat_id b; reviewer_chat_ids := reviewer_chat_ids b; review_policy := policy;
  review_attestations := review_attestations b; card_claims := card_claims b;
  dependency_overrides := dependency_overrides b; card_outcomes := card_outcomes b;
  planner_replies := planner_replies b; card_attempt_generations := card_attempt_generations b |}.
Definition authority_closure (actor : string) (action : AuthorityAction) b : result TBoard string :=
  match action with
  | ClaimOwner => let '(b, r) := authorize_owner actor b in let? _ := r in Ok b
  | AddReviewer target =>
      let? _ := require_owner actor b in
      if bool_decide (owner_chat_id b = Some target)
      then Err "task board owner cannot also be an assigned reviewer"
      else if bool_decide (target ∈ reviewer_chat_ids b) then Ok b
      else Ok (upd_roles (owner_chat_id b) (reviewer_chat_ids b ++ [target]) b)
  | RemoveReviewer target => let? _ := require_owner actor b in Ok (remove_reviewer target b)
  | TransferOwner target =>
      let? _ := require_owner actor b in
      let b := remove_reviewer target b in
      Ok (clear_verifier_reports (upd_roles (Some target) (reviewer_chat_ids b) b))
  | SetReviewPolicy policy =>
      let? _ := require_owner actor b in Ok (clear_verifier_reports (upd_policy policy b))
  end.

Inductive BoardOp :=
  | ORemoveCard id
  | OInvalidate id
  | OClaim (id claimant key at_time : string)
  | ORelease (id claimant : string)
  | OOverride (id by_whom reason at_time : string)
  | ORecordOutcome id (req : list OutcomeRequirement) (frags : list OutcomeFragment)
  | OEvidence id (name : text) (spec_ids : list string)
  | OAttest (id reviewer at_time : string) (self : bool)
  | OFinalize (id principal : string) (self : bool) (at_time : string)
  | OAuthorizeOwner (chat : string)
  | OAttestReview (id reviewer : string) (report : VerifierReport) (at_time : string) (self : bool)
  | ORemoveReviewer (reviewer : string)
  | OClearReports
  | OAuthority (actor : string) (action : AuthorityAction).

Definition board_op b (o : BoardOp) : TBoard :=
  match o with
  | ORemoveCard id => (remove_card id b).1
  | OInvalidate id => invalidate_card_review id b
  | OClaim id claimant key at_time => (claim_card id claimant key at_time b).1
  | ORelease id claimant => (release_claim id claimant b).1
  | OOverride id by_whom reason at_time => (record_dependency_override id by_whom reason at_time b).1
  | ORecordOutcome id req frags => record_card_outcome id req frags b
  | OEvidence id name spec_ids => attach_card_evidence id name spec_ids b
  | OAttest id reviewer at_time self => (attest_card_review id reviewer at_time self b).1
  | OFinalize id principal self at_time => (finalize_card id principal self at_time b).1
  | OAuthorizeOwner chat => (authorize_owner chat b).1
  | OAttestReview id reviewer report at_time self => (attest_review id reviewer report at_time self b).1
  | ORemoveReviewer reviewer => remove_reviewer reviewer b
  | OClearReports => clear_verifier_reports b
  | OAuthority actor action => match authority_closure actor action b with Ok b => b | Err _ => b end
  end.

Definition report_of id b : option VerifierReport := get_card id b ≫= verifier_report.

(** The operation touches none of what the rules read. *)
Definition same_authority b b' : Prop :=
  cards b' = cards b ∧ owner_chat_id b' = owner_chat_id b ∧
  reviewer_chat_ids b' = reviewer_chat_ids b ∧ review_attestations b' = review_attestations b.

Lemma same_authority_valid m b b' : same_authority b b' → valid_authority m b → valid_authority m b'.
Proof.
  intros (Hc & Ho & Hr & Ha) [H1 H2 H3 H4]. split; rewrite ?Ho, ?Hr; [done..|].
  intros id a Hid. rewrite Ha in Hid. destruct (H4 id a Hid) as [? ? ?].
  split; rewrite ?Ho, ?Hr; [|done..]. unfold get_card in *. by rewrite Hc.
Qed.

(** Attestations are only lost, and the cards of the others keep their reports. *)
Lemma fewer_attestations_valid m b b' :
  owner_chat_id b' = owner_chat_id b → reviewer_chat_ids b' = reviewer_chat_ids b →
  (∀ id a, review_attestations b' !! id = Some a →
     review_attestations b !! id = Some a ∧ report_of id b' = report_of id b) →
  valid_authority m b → valid_authority m b'.
Proof.
  intros Ho Hr Ha [H1 H2 H3 H4]. split; rewrite ?Ho, ?Hr; [done..|].
  intros id a [Hid Hrep]%Ha. destruct (H4 id a Hid) as [? ? ?].
  split; rewrite ?Ho, ?Hr; [|done..]. unfold report_of in Hrep. by rewrite Hrep.
Qed.

Lemma report_of_invalidate id id' b :
  id' ≠ id → report_of id' (invalidate_card_review id b) = report_of id' b.
Proof.
  intros Hne. unfold report_of, get_card. simpl. rewrite find_card_alter by done.
  by rewrite bool_decide_false.
Qed.

(** Invalidating a list of cards. *)
Lemma invalidate_all l b :
  let b' := foldl (λ b id, invalidate_card_review id b) b l in
  owner_chat_id b' = owner_chat_id b ∧ reviewer_chat_ids b' = reviewer_chat_ids b ∧
  ∀ id a, review_attestations b' !! id = Some a →
    (id ∉ l) ∧ review_attestations b !! id = Some a ∧ report_of id b' = report_of id b.
Proof.
  revert b. induction l as [|x l IH]; intros b; simpl.
  { split_and!; [done..|]. intros id a Ha. split_and!; [apply not_elem_of_nil|done..]. }
  destruct (IH (invalidate_card_review x b)) as (Ho & Hr & Ha). split_and!; [done..|].
  intros id a (Hin & Hid & Hrep)%Ha. simpl in Hid. apply lookup_delete_Some in Hid as [Hne Hid].
  split_and!; [|done|]; [by apply not_elem_of_cons|]. rewrite Hrep. by apply report_of_invalidate.
Qed.

Lemma remove_reviewer_valid m reviewer b :
  valid_authority m b → valid_authority m (remove_reviewer reviewer b).
Proof.
  intros [H1 [H2 H2'] H3 H4]. unfold remove_reviewer.
  match goal with |- valid_authority _ (foldl ?f ?b1 ?l) =>
    destruct (invalidate_all l b1) as (Ho & Hr & Ha); set (stale := l) in *;
    set (b' := foldl f b1 stale) in * end.
  simpl in Ho, Hr. split; rewrite ?Ho, ?Hr.
  - unfold Nlen in *. pose proof (length_filter (.≠ reviewer) (reviewer_chat_ids b)). lia.
  - split; [by apply NoDup_filter|]. intros r [_ Hin]%list_elem_of_filter. by apply H2'.
  - done.
  - intros id a (Hns & Hid & Hrep)%Ha. simpl in Hid. destruct (H4 id a Hid) as [Hv1 Hv2 Hv3].
    split; rewrite ?Ho, ?Hr; [by unfold report_of in Hrep; rewrite Hrep| |done].
    apply list_elem_of_filter. split; [|done]. intros Heq. apply Hns.
    apply list_elem_of_omap. exists (id, a). split; [by apply elem_of_btree_list|].
    simpl. by rewrite bool_decide_true.
Qed.

Lemma remove_card_valid m id b : valid_authority m b → valid_authority m (remove_card id b).1.
Proof.
  apply fewer_attestations_valid; [done..|]. simpl. intros id' a [Hne Ha]%lookup_delete_Some.
  split; [done|]. unfold report_of, get_card. simpl. by rewrite find_card_remove.
Qed.

Lemma attest_valid m id reviewer at_time self b :
  valid_authority m b → valid_authority m (attest_card_review id reviewer at_time self b).1.
Proof.
  unfold attest_card_review. intros Hv.
  destruct (decide (owner_chat_id b = Some reviewer)) as [Ho|Ho];
    [by rewrite (bool_decide_true _ Ho)|rewrite (bool_decide_false _ Ho)].
  destruct (get_card id b) as [c|] eqn:Hc; [|done]. case_match; [done|].
  destruct (verifier_report c) as [report|] eqn:Hrep; [|done].
  do 2 (case_match; [done|]). unfold attest_review, authorize_reviewer.
  rewrite (bool_decide_false _ Ho). simpl.
  destruct (decide (reviewer ∈ reviewer_chat_ids b)) as [Hin|Hin];
    [rewrite (bool_decide_true _ Hin)|by rewrite (bool_decide_false _ Hin)].
  simpl. rewrite lookup_insert_eq. simpl. destruct Hv as [Hv1 Hv2 Hv3 Hv4].
  split; [done..|]. simpl. intros id' a [[<- <-]|[Hne Ha]]%lookup_insert_Some.
  - split; simpl; [|done|done]. unfold get_card in *. simpl. rewrite Hc. simpl. by rewrite Hrep.
  - destruct (Hv4 id' a Ha). by split.
Qed.

(** The operations that would break a rule: a board without an owner claimed for a reviewer or an empty
    chat, an attestation by the owner or of another report than the card's, a blank reviewer or one too
    many, a transfer to an empty chat. *)
Definition breaks_authority (max_reviewers : N) b (o : BoardOp) : bool :=
  let claims chat :=
    bool_decide (owner_chat_id b = None) && (bool_decide (chat = ""%string) || bool_decide (chat ∈ reviewer_chat_ids b)) in
  match o with
  | OAuthorizeOwner chat => claims chat
  | OAttestReview id reviewer report _ self =>
      (if authorize_reviewer reviewer self b then true else false)
      && (bool_decide (owner_chat_id b = Some reviewer) || negb (bool_decide (report_of id b = Some report)))
  | OAuthority actor ClaimOwner => claims actor
  | OAuthority actor (AddReviewer target) =>
      bool_decide (owner_chat_id b = Some actor) && negb (bool_decide (actor = target))
      && negb (bool_decide (target ∈ reviewer_chat_ids b))
      && (blank target || (max_reviewers <=? Nlen (reviewer_chat_ids b))%N)
  | OAuthority actor (TransferOwner target) =>
      bool_decide (owner_chat_id b = Some actor) && bool_decide (target = ""%string)
  | _ => false
  end.

Lemma authorize_owner_valid m chat b :
  valid_authority m b →
  valid_authority m (authorize_owner chat b).1 ↔
  bool_decide (owner_chat_id b = None) && (bool_decide (chat = ""%string) || bool_decide (chat ∈ reviewer_chat_ids b)) = false.
Proof.
  intros Hv. pose proof Hv as [H1 [H2 H2'] H3 H4]. unfold authorize_owner. destruct (owner_chat_id b) as [owner|] eqn:Ho.
  { rewrite (bool_decide_false (Some owner = None)) by done. split; [done|intros _]. by case_bool_decide. }
  rewrite bool_decide_true by done. cbn [andb]. rewrite orb_false_iff, !bool_decide_eq_false. split.
  - intros [_ [_ Hr] He _]. cbn in Hr, He. split; [by intros ->|]. intros Hin. by destruct (Hr _ Hin).
  - intros [Hne Hin]. split; cbn; [done| |congruence|].
    + split; [done|]. intros r Hr. split; [by apply H2'|]. by intros [= ->].
    + intros id a Ha. destruct (H4 id a Ha) as [Hrep Has _]. split; cbn; [done|done|]. by intros [= ->].
Qed.
Lemma attest_review_valid m id reviewer report at_time self b :
  valid_authority m b →
  valid_authority m (attest_review id reviewer report at_time self b).1 ↔
  (if authorize_reviewer reviewer self b then true else false)
  && (bool_decide (owner_chat_id b = Some reviewer) || negb (bool_decide (report_of id b = Some report))) = false.
Proof.
  intros Hv. unfold attest_review. destruct (authorize_reviewer reviewer self b) as [[]|e] eqn:Ha; [|by split].
  cbn [fst andb]. rewrite orb_false_iff, bool_decide_eq_false, negb_false_iff, bool_decide_eq_true. split.
  - intros [_ _ _ H4]. destruct (H4 id {| reviewer_chat_id := reviewer; reviewed_at := at_time; att_report := report |}) as [Hr _ Hi];
      [cbn; by rewrite lookup_insert_eq|]. by split.
  - intros [Hno Hrep]. destruct Hv as [H1 H2 H3 H4]. split; [done..|]. cbn. intros id' a [[<- <-]|[Hne Hl]]%lookup_insert_Some.
    + split; [exact Hrep| |done]. cbn. unfold authorize_reviewer in Ha.
      destruct (decide (reviewer ∈ reviewer_chat_ids b)) as [Hin|Hin]; [done|].
      rewrite (bool_decide_false _ Hin), (bool_decide_false _ Hno) in Ha. done.
    + destruct (H4 id' a Hl). by split.
Qed.
Lemma clear_reports_valid m b :
  (Nlen (reviewer_chat_ids b) ≤ m)%N → valid_reviewers (owner_chat_id b) (reviewer_chat_ids b) → owner_chat_id b ≠ Some ""%string →
  valid_authority m (clear_verifier_reports b).
Proof. intros. split; [done..|]. cbn. intros id a. by rewrite lookup_empty. Qed.
Lemma require_owner_Ok actor b : require_owner actor b = Ok () ↔ owner_chat_id b = Some actor.
Proof. unfold require_owner. destruct (owner_chat_id b); [case_bool_decide; naive_solver|done]. Qed.

Lemma authority_closure_valid m actor action b :
  valid_authority m b →
  valid_authority m (match authority_closure actor action b with Ok b => b | Err _ => b end) ↔
  breaks_authority m b (OAuthority actor action) = false.
Proof.
  intros Hv. pose proof Hv as [H1 [H2 H2'] H3 H4]. destruct action as [|target|target|target|policy]; cbn [authority_closure breaks_authority].
  - rewrite <- (authorize_owner_valid m) by done. unfold authorize_owner. destruct (owner_chat_id b); [case_bool_decide|]; done.
  - destruct (require_owner actor b) as [[]|] eqn:Hro; cbn [result_bind].
    2: { split; [intros _|done]. rewrite bool_decide_false; [done|]. rewrite <- require_owner_Ok, Hro. done. }
    apply require_owner_Ok in Hro. rewrite Hro, (bool_decide_true (Some actor = Some actor)) by done. cbn [andb].
    destruct (decide (actor = target)) as [->|Hne]; [by rewrite !bool_decide_true by done|].
    rewrite (bool_decide_false (Some actor = Some target)), (bool_decide_false _ Hne) by congruence. cbn [negb andb].
    destruct (decide (target ∈ reviewer_chat_ids b)) as [Hin|Hin]; [by rewrite !bool_decide_true by done|].
    rewrite !(bool_decide_false _ Hin). cbn [negb andb]. rewrite orb_false_iff, N.leb_gt. split.
    + intros [Hc [_ Hr] _ _]. cbn in Hc, Hr. split; [apply Hr; set_solver|]. unfold Nlen in *. rewrite length_app in Hc. cbn in Hc. lia.
    + intros [Hb Hc]. split; cbn; [unfold Nlen in *; rewrite length_app; cbn; lia| |by rewrite Hro in H3|].
      * split; [apply NoDup_app; split_and!; [done|by intros x Hx ->%list_elem_of_singleton|apply NoDup_singleton]|].
        rewrite Hro in H2'. intros r [Hr| ->%list_elem_of_singleton]%elem_of_app; [by apply H2'|]. split; [done|congruence].
      * intros id a Ha. destruct (H4 id a Ha) as [? ? Hi]. split; cbn; [done|set_solver|by rewrite Hro in Hi].
  - split; [done|intros _]. destruct (require_owner actor b) as [[]|]; cbn; [by apply remove_reviewer_valid|done].
  - destruct (require_owner actor b) as [[]|] eqn:Hro; cbn [result_bind].
    2: { split; [intros _|done]. rewrite bool_decide_false; [done|]. rewrite <- require_owner_Ok, Hro. done. }
    apply require_owner_Ok in Hro. rewrite (bool_decide_true _ Hro). cbn [andb]. rewrite bool_decide_eq_false.
    assert (reviewer_chat_ids (remove_reviewer target b) = filter (.≠ target) (reviewer_chat_ids b)) as Hrr.
    { unfold remove_reviewer. match goal with |- reviewer_chat_ids (foldl _ ?b1 ?l) = _ => by destruct (invalidate_all l b1) as (_ & -> & _) end. }
    split; [intros [_ _ He _]; cbn in He; by intros ->|]. intros Hne. apply clear_reports_valid; cbn; rewrite ?Hrr; [| |congruence].
    + unfold Nlen in *. pose proof (length_filter (.≠ target) (reviewer_chat_ids b)). lia.
    + split; [by apply NoDup_filter|]. intros r [Hrt Hin]%list_elem_of_filter. split; [by apply H2'|congruence].
  - split; [done|intros _]. destruct (require_owner actor b) as [[]|]; cbn; [|done]. by apply clear_reports_valid.
Qed.

Lemma board_op_valid m b o : valid_authority m b → valid_authority m (board_op b o) ↔ breaks_authority m b o = false.
Proof.
  destruct o as [id|id|id a k t|id a|id w r t|id req fs|id n ids|id r t self|id p self t|chat|id r rep t self|r| |actor action];
    cbn [board_op]; intros Hv.
  10: by apply authorize_owner_valid. 10: by apply attest_review_valid. 12: by apply authority_closure_valid.
  all: split; [done|intros _].
  - by apply remove_card_valid.
  - revert Hv. apply fewer_attestations_valid; [done..|]. simpl.
    intros id' x [Hne Ha]%lookup_delete_Some. split; [done|]. by apply report_of_invalidate.
  - unfold claim_card. repeat case_match; try done; by apply (same_authority_valid m b).
  - unfold release_claim. repeat case_match; try done; by apply (same_authority_valid m b).
  - unfold record_dependency_override. case_match; [|done]. by apply (same_authority_valid m b).
  - by apply (same_authority_valid m b).
  - unfold attach_card_evidence. case_match; [done|]. by apply (same_authority_valid m b).
  - by apply attest_valid.
  - unfold finalize_card. case_match; [done|]. by apply (same_authority_valid m b).
  - by apply remove_reviewer_valid.
  - destruct Hv. by apply clear_reports_valid.
Qed.

(** No operation of the sequence would break a rule of the board it meets. *)
Fixpoint unbroken (max_reviewers : N) b (ops : list BoardOp) : bool :=
  match ops with
  | [] => true
  | o :: ops => negb (breaks_authority max_reviewers b o) && unbroken max_reviewers (board_op b o) ops
  end.

(** C10. The authority rules of a board - at most the configured number of reviewers, each named once, none
    blank, none the owner, and every attestation matching the report its card carries and made by an assigned
    reviewer who is not the owner - survive every operation of the board and of the tool that manages its
    authority, except exactly those that [breaks_authority] names: a board without an owner claimed for one of its
    reviewers or an empty chat, the bare [attest_review] by the owner or of another report than the card's,
    a blank reviewer or one too many, and a transfer to an empty chat.  So the rules survive every sequence without
    those, attestations through [attest_card_review] included. *)
Theorem authority_is_preserved max_reviewers b :
  validate_authority max_reviewers b = Ok () →
  (∀ o, validate_authority max_reviewers (board_op b o) = Ok () ↔ breaks_authority max_reviewers b o = false)
  ∧ ∀ ops, unbroken max_reviewers b ops = true → validate_authority max_reviewers (foldl board_op b ops) = Ok ().
Proof.
  intros Hv%validate_authority_Ok. split; [intros o; rewrite validate_authority_Ok; by apply board_op_valid|]. intros ops.
  rewrite validate_authority_Ok. revert b Hv. induction ops as [|o ops IH]; intros b Hv; [done|]. cbn [unbroken foldl].
  intros [Hb%negb_true_iff Hops]%andb_true_iff. apply IH; [by apply board_op_valid|done].
Qed.
End authority.

(** ** A board on which the theorems apply

    Three cards in a chain: [a] is done and reviewed, [b] can be claimed, [c] waits. *)


Abbreviation card0 := (BoardCard unit).
Abbreviation board0 := (TaskBoard (Value := unit) (Reply := unit)).

Definition mk_card (id col : string) (deps : list string) (report : option VerifierReport) : card0 := {|
  card_id := id; title := id; column := col; priority := "P1"; depends_on := deps; instructions := "";
  assignee := None; agent_chat_id := None; status_updates := []; comments := []; final_report := None;
  final_report_structured := None; verifier_report := report; created_at := ""; started_at := None;
  last_heartbeat_at := None; paused_at := None; paused_by := None; completed_at := None;
  agent_branch := None; agent_worktree := None; agent_worktree_name := None; base_branch := None;
  base_commit := None; ab_variants := None; team_members := []; target_files := [];
  scope_guard_mode := SgOff; attention := None; deliverable := None; verification := [] |}.

Definition good_report : VerifierReport := {|
  passed := true; command_results := []; concerns := []; recommendation := "merge";
  classification := RPassed |}.

Definition chain : board0 := {|
  schema_version := 1; rev := 0; columns := default_columns;
  cards := [mk_card "c" "planned" ["b"] None; mk_card "b" "planned" ["a"] None;
            mk_card "a" "done" [] (Some good_report)];
  owner_chat_id := Some "planner"; reviewer_chat_ids := ["rita"]; review_policy := IndependentRequired;
  review_attestations := {[ "a" := {| reviewer_chat_id := "rita"; reviewed_at := "t0"; att_report := good_report |} ]};
  card_claims := ∅; dependency_overrides := ∅; card_outcomes := ∅; planner_replies := ∅;
  card_attempt_generations := ∅ |}.

Lemma validated_board_progresses_witness :
  ready (get_ready_cards chain) ≠ [] ∧ ready (get_ready_cards chain) = ["b"].
Proof.
  split; [|by vm_compute].
  refine (proj1 (validated_board_progresses chain _ _ _)).
  - by vm_compute.
  - intros c Hc. repeat (apply elem_of_cons in Hc as [->|Hc]; [by (left + right)|]).
    by apply elem_of_nil in Hc.
  - exists (mk_card "b" "planned" ["a"] None). split; [right; left|done].
Defined.

Lemma claim_is_exclusive_witness :
  let b' := (claim_card "b" "agent" "k1" "t1" chain).1 in
  let b'' := foldl claim_op b' [OpClaim "b" "rival" "k2" "t2"; OpRelease "b" "rival"] in
  (∀ t, claim_card "b" "agent" "k1" t b'' = (b'', Ok AlreadyHeld)) ∧
  claim_card "b" "rival" "k2" "t3" b'' = (b'', Err (AlreadyClaimed "b" "agent")).
Proof.
  intros b' b''.
  destruct (claim_is_exclusive chain "b" "agent" "k1" "t1" b' Claimed
    [OpClaim "b" "rival" "k2" "t2"; OpRelease "b" "rival"]) as (_ & H1 & H2 & _).
  - reflexivity.
  - intros o Ho. repeat (apply elem_of_cons in Ho as [->|Ho]; [discriminate|]).
    by apply elem_of_nil in Ho.
  - split; [exact H1|]. apply H2. discriminate.
Defined.

Lemma finalize_decides_witness :
  let out := finalize_card "a" "planner" false "t5" chain in
  out.2 = Ok () ∧ ∀ p s t, ∃ d, finalize_card "a" p s t out.1 = (out.1, Err d).
Proof.
  intros out. assert (out.2 = Ok ()) as Hok by reflexivity.
  split; [exact Hok|].
  exact (proj2 (proj1 (proj2 (finalize_decides chain "a" "planner" false "t5")) Hok)).
Defined.

Lemma authority_is_preserved_witness :
  validate_authority 3 (foldl board_op chain
    [OClaim "b" "agent" "k1" "t1"; OFinalize "a" "planner" false "t2"; ORemoveReviewer "rita";
     OAttest "a" "rita" "t3" false; OAuthority "planner" (TransferOwner "pat"); ORemoveCard "c"]) = Ok ()
  ∧ validate_authority 3 (board_op chain (OAuthority "planner" (AddReviewer "sam"))) = Ok ()
  ∧ breaks_authority 3 (upd_roles None ["rita"] chain) (OAuthorizeOwner "rita") = true.
Proof.
  split_and!.
  - apply (authority_is_preserved 3 chain); by vm_compute.
  - apply (authority_is_preserved 3 chain); by vm_compute.
  - by vm_compute.
Defined.

(** The cycle error can name a card that is on no cycle: [a] only waits for one. *)
Lemma cycle_error_names_a_follower :
  let b := upd_cards [mk_card "a" "planned" ["b"] None; mk_card "b" "planned" ["c"] None;
                      mk_card "c" "planned" ["b"] None] chain in
  validate_dependencies b = Some (Err "Dependency cycle includes a").
Proof. by vm_compute. Qed.
