(* ===== verification/WaveLevels.v ===== *)
(** * The waves of a board are its dependency levels

    The level-computing variant of Kahn's search in [Waves.derive_waves]: on a validated
    board it visits every card, and a card ends one level below its deepest
    dependency. *)

From stdpp Require Import gmap strings list.
From S2P Require Import Prelude RustStr BoardTypes Outcome Board BoardDeps OverlapOrder Waves.

Lemma foldl_relax_None row : foldl relax None row = None.
Proof. by induction row. Qed.

(** Relaxing a row with levels: the counts and the queue move as without levels. *)
Lemma level_relax_row x h row lv ind q ind' q' :
  lv !! x = Some h → x ∉ row → NoDup row → (∀ i, i ∈ row → is_Some (lv !! i)) →
  foldl relax (Some (ind, q)) row = Some (ind', q') →
  ∃ lv', foldl (level_relax x) (Some {| lv_levels := lv; lv_indegree := ind; lv_queue := q |}) row
      = Some {| lv_levels := lv'; lv_indegree := ind'; lv_queue := q' |}
    ∧ length lv' = length lv
    ∧ ∀ i a, lv !! i = Some a → lv' !! i = Some (if decide (i ∈ row) then Nat.max a (S h) else a).
Proof.
  revert lv ind q. induction row as [|y row IH]; intros lv ind q Hx Hxr Hnd Hin Hrelax.
  { injection Hrelax as <- <-. exists lv. split_and!; [done..|]. intros i a Ha.
    by rewrite decide_False by apply not_elem_of_nil. }
  apply NoDup_cons in Hnd as [Hy Hnd]. apply not_elem_of_cons in Hxr as [Hxy Hxr].
  destruct (Hin y) as [a Ha]; [by left|].
  cbn [foldl] in Hrelax. unfold relax at 2 in Hrelax. simpl in Hrelax.
  destruct (ind !! y) as [[|d]|] eqn:Hd; simpl in Hrelax;
    [by rewrite foldl_relax_None in Hrelax| |by rewrite foldl_relax_None in Hrelax].
  destruct (IH (<[y := Nat.max a (S h)]> lv) (<[y := d]> ind)
    (if Nat.eqb d 0 then q ++ [y] else q)) as (lv' & Heq & Hlen & Hval).
  - by rewrite list_lookup_insert_ne.
  - done.
  - done.
  - intros i Hi. rewrite list_lookup_insert_ne by (by intros ->). apply Hin. by right.
  - done.
  - exists lv'. split_and!.
    + cbn [foldl]. unfold level_relax at 2. simpl. rewrite Hx, Ha, Hd. simpl. exact Heq.
    + by rewrite Hlen, length_insert.
    + intros i b Hb. destruct (decide (i = y)) as [->|Hne].
      * rewrite Ha in Hb. injection Hb as <-.
        rewrite (Hval y (Nat.max a (S h))).
        -- rewrite decide_False by done. by rewrite decide_True by (by left).
        -- apply list_lookup_insert_eq. by eapply lookup_lt_Some.
      * rewrite (Hval i b) by (by rewrite list_lookup_insert_ne).
        f_equal. apply decide_ext. rewrite elem_of_cons. naive_solver.
Qed.

Section levels.
Context {Value : Type} (cs : list (BoardCard Value)) (by_id : gmap string nat).
Context (Hix : indexes cs by_id) (Hwf : ∀ c, c ∈ cs → well_formed_card cs c).
Abbreviation dep := (dep cs by_id).

(** Every position is above its visited dependencies, and just above one of them. *)
Record levels_ok (P lv : list nat) : Prop := {
  lo_len : length lv = length cs;
  lo_above i j a b : dep i j → j ∈ P → lv !! i = Some a → lv !! j = Some b → b < a;
  lo_below i a : lv !! i = Some a →
    a = 0 ∨ ∃ j b, dep i j ∧ j ∈ P ∧ lv !! j = Some b ∧ a = S b;
}.

Lemma dep_irrefl x : ¬ dep x x.
Proof.
  intros (c & d & Hc & Hd & Hj). apply (ix_id _ _ Hix) in Hj as (c' & Hc' & <-).
  rewrite Hc in Hc'. injection Hc' as <-. apply (wf_self cs c); [|done].
  apply Hwf. by eapply list_elem_of_lookup_2.
Qed.

Lemma level_round rows P x Q ind row lv :
  dependents_ok cs rows dep → kahn cs by_id P (x :: Q) ind → levels_ok P lv → rows !! x = Some row →
  ∃ lv' ind' Q',
    foldl (level_relax x) (Some {| lv_levels := lv; lv_indegree := ind; lv_queue := Q |}) row
      = Some {| lv_levels := lv'; lv_indegree := ind'; lv_queue := Q' |}
    ∧ kahn cs by_id (P ++ [x]) Q' ind' ∧ levels_ok (P ++ [x]) lv'.
Proof.
  intros Hrows Hk [Hlen Habove Hbelow] Hrow.
  destruct (kahn_round cs by_id Hix Hwf rows P x Q ind row Hrows Hk Hrow) as (ind' & Q' & Hrelax & Hk').
  destruct (proj2 Hrows x row Hrow) as [Hnd Hin].
  assert (x ∉ P) as HxP.
  { pose proof (k_nodup _ _ _ _ _ Hk) as Hn. apply NoDup_app in Hn as (_ & Hn & _).
    intros Hx. apply (Hn x Hx). by left. }
  assert (Hsome : ∀ i, i < length cs → ∃ a, lv !! i = Some a).
  { intros i Hi. apply lookup_lt_is_Some_2. by rewrite Hlen. }
  assert (Hxdeps : ∀ j, dep x j → j ∈ P).
  { intros j. apply (k_order _ _ _ _ _ Hk' P x [] j). done. }
  assert (HProw : ∀ j, j ∈ P → j ∉ row).
  { intros j Hj Hjr. apply Hin in Hjr. apply list_elem_of_split in Hj as (l1 & l2 & ->).
    pose proof (k_order _ _ _ _ _ Hk l1 j l2 x eq_refl Hjr) as Hx. apply HxP. set_solver. }
  assert (x ∉ row) as Hxrow by (intros Hx; by apply Hin, dep_irrefl in Hx).
  assert (∃ h, lv !! x = Some h) as [h Hh].
  { apply Hsome. rewrite <- (k_len _ _ _ _ _ Hk).
    assert (ind !! x = Some 0) as H0 by (apply (k_zero _ _ _ _ _ Hk); set_solver).
    by eapply lookup_lt_Some. }
  destruct (level_relax_row x h row lv ind Q ind' Q' Hh Hxrow Hnd) as (lv' & Heq & Hlen' & Hval).
  { intros i Hi. apply Hin, dep_lt in Hi as [Hi _]; [|done]. by apply lookup_lt_is_Some_2; rewrite Hlen. }
  { done. }
  exists lv', ind', Q'. split_and!; [done|done|].
  assert (Hx' : lv' !! x = Some h) by (rewrite (Hval x h Hh); by rewrite decide_False).
  assert (HP' : ∀ j b, j ∈ P → lv' !! j = Some b → lv !! j = Some b).
  { intros j b Hj Hb. destruct (Hsome j) as [b' Hb'].
    { rewrite <- Hlen, <- Hlen'. by eapply lookup_lt_Some. }
    rewrite (Hval j b' Hb'), decide_False in Hb by (by apply HProw). congruence. }
  assert (Hback : ∀ i a, lv' !! i = Some a → ∃ a0, lv !! i = Some a0
    ∧ a = if decide (i ∈ row) then Nat.max a0 (S h) else a0).
  { intros i a Ha. destruct (Hsome i) as [a0 Ha0].
    { rewrite <- Hlen, <- Hlen'. by eapply lookup_lt_Some. }
    exists a0. split; [done|]. rewrite (Hval i a0 Ha0) in Ha. congruence. }
  split; [congruence| |].
  - intros i j a b Hd Hj Ha Hb. destruct (Hback i a Ha) as (a0 & Ha0 & ->).
    apply elem_of_app in Hj as [Hj|Hj].
    + pose proof (Habove i j a0 b Hd Hj Ha0 (HP' j b Hj Hb)). case_decide; lia.
    + apply list_elem_of_singleton in Hj as ->. rewrite Hx' in Hb. injection Hb as <-.
      rewrite decide_True by (by apply Hin). lia.
  - intros i a Ha. destruct (Hback i a Ha) as (a0 & Ha0 & ->).
    assert (Hold : a0 = 0 ∨ ∃ j b, dep i j ∧ j ∈ P ++ [x] ∧ lv' !! j = Some b ∧ a0 = S b).
    { destruct (Hbelow i a0 Ha0) as [->|(j & b & Hd & Hj & Hb & ->)]; [by left|right].
      exists j, b. split_and!; [done|set_solver| |done].
      rewrite (Hval j b Hb). by rewrite decide_False by (by apply HProw). }
    case_decide as Hi; [|done]. destruct (Nat.max_spec a0 (S h)) as [[_ ->]|[_ ->]]; [|done].
    right. exists x, h. split_and!; [by apply Hin|set_solver|done|done].
Qed.

Lemma level_visit_ok rows fuel P Q ind lv :
  dependents_ok cs rows dep → kahn cs by_id P Q ind → levels_ok P lv → length cs ≤ length P + fuel →
  ∃ P' ind' lv',
    level_visit fuel rows {| lv_levels := lv; lv_indegree := ind; lv_queue := Q |} = Some lv'
    ∧ kahn cs by_id P' [] ind' ∧ levels_ok P' lv'.
Proof.
  intros Hrows. revert P Q ind lv. induction fuel as [|fuel IH]; intros P Q ind lv Hk Hl Hfuel.
  - pose proof (kahn_bound _ _ _ _ _ Hk). destruct Q as [|x Q]; simpl in *; [|lia]. eauto 10.
  - destruct Q as [|x Q]; [simpl; eauto 10|]. cbn [level_visit lv_queue lv_levels lv_indegree].
    assert (∃ row, rows !! x = Some row) as [row Hrow].
    { apply lookup_lt_is_Some_2. rewrite (proj1 Hrows), <- (k_len _ _ _ _ _ Hk).
      assert (ind !! x = Some 0) as Hx by (apply (k_zero _ _ _ _ _ Hk); set_solver).
      by eapply lookup_lt_Some. }
    destruct (level_round rows P x Q ind row lv Hrows Hk Hl Hrow) as (lv' & ind' & Q' & Heq & Hk' & Hl').
    rewrite Hrow. simpl. rewrite Heq. simpl.
    destruct (IH (P ++ [x]) Q' ind' lv' Hk' Hl') as (P' & ind2 & lv2 & Hv & Hk2 & Hl2).
    { rewrite length_app. simpl. lia. }
    eauto 10.
Qed.

Lemma levels_start : levels_ok [] (replicate (length cs) 0).
Proof.
  split; [apply length_replicate|by intros ???? _ ?%elem_of_nil|].
  intros i a [-> _]%lookup_replicate. by left.
Qed.
End levels.

(** ** Placing the cards *)

Lemma filter_imap_snd {A} (P : nat * A → Prop) (Q : A → Prop) `{!∀ p, Decision (P p), !∀ x, Decision (Q x)}
    (l : list A) :
  (∀ i x, l !! i = Some x → P (i, x) ↔ Q x) → snd <$> filter P (imap pair l) = filter Q l.
Proof.
  induction l as [|x l IH] using rev_ind; intros HPQ; [done|].
  rewrite imap_app, !filter_app, fmap_app, IH.
  - f_equal. simpl. rewrite !filter_cons.
    rewrite (decide_ext (P (length l + 0, x)) (Q x)); [by case_decide|].
    apply HPQ. rewrite Nat.add_0_r. by apply list_lookup_middle.
  - intros i y Hi. apply HPQ. by apply lookup_app_l_Some.
Qed.

Section place.
Context {Value : Type} (lv : list nat) (n : nat).
Implicit Types ps : list (nat * BoardCard Value).

(** Wave [k] after the cards of [ps] have been placed. *)
Definition bucket ps (k : nat) : Wave :=
  {| wave_index := k; wave_cards := card_id ∘ snd <$> filter (λ p, lv !! p.1 = Some k) ps |}.

Lemma place_cards_ok ps :
  (∀ p, p ∈ ps → ∃ k, lv !! p.1 = Some k ∧ k < n) →
  foldl (place_card lv) (Some (empty_wave <$> seq 0 n)) ps = Some (bucket ps <$> seq 0 n).
Proof.
  induction ps as [|p ps IH] using rev_ind; intros Hps; [done|].
  rewrite foldl_app, IH by (intros q Hq; apply Hps; set_solver). simpl.
  destruct (Hps p) as (k & Hk & Hlt); [set_solver|]. rewrite Hk. simpl.
  rewrite list_lookup_fmap, (lookup_seq_lt _ _ _ Hlt). simpl. f_equal.
  apply list_eq. intros i. destruct (decide (i = k)) as [->|Hne].
  - rewrite list_lookup_insert_eq by (by rewrite length_fmap, length_seq).
    rewrite list_lookup_fmap, (lookup_seq_lt _ _ _ Hlt). simpl. f_equal. unfold bucket. f_equal.
    rewrite filter_app, fmap_app. f_equal. rewrite filter_cons, decide_True by done. done.
  - rewrite list_lookup_insert_ne by done. rewrite !list_lookup_fmap.
    destruct (seq 0 n !! i) as [j|] eqn:Hj; [|done]. apply lookup_seq in Hj as [-> _]. simpl.
    f_equal. unfold bucket. f_equal. rewrite filter_app, fmap_app, filter_cons, decide_False.
    + simpl. by rewrite app_nil_r.
    + rewrite Hk. naive_solver.
Qed.
End place.

(** ** The waves *)

Lemma index_ids_fold {Value} k (cs : list (BoardCard Value)) m m' :
  index_ids k cs m = Ok m' → foldl (λ m p, <[card_id p.2 := p.1]> m) m (imap (λ i c, (k + i, c)) cs) = m'.
Proof.
  revert k m. induction cs as [|c cs IH]; intros k m; simpl; [by intros [= ->]|].
  destruct (m !! card_id c); [done|]. intros H%IH. rewrite Nat.add_0_r. simpl. rewrite <- H. f_equal.
  apply imap_ext. intros i x _. simpl. f_equal. lia.
Qed.

Lemma index_by_id_indexes {Value} (cs : list (BoardCard Value)) :
  NoDup (card_id <$> cs) → indexes cs (index_by_id cs).
Proof.
  intros Hnd. pose proof (index_ids_spec [] cs ∅) as H. simpl in H.
  destruct (index_ids 0 cs ∅) as [m|e] eqn:Hm.
  - destruct H as [Hix _]; [by split; intros ?? ?|constructor|].
    apply index_ids_fold in Hm. unfold index_by_id.
    assert (imap pair cs = imap (λ i c, (0 + i, c)) cs) as -> by done. by rewrite Hm.
  - exfalso. apply H; [by split; intros ?? ?|constructor|done].
Qed.

Lemma wave_depth_bound lv i k : lv !! i = Some k → k < wave_depth lv.
Proof.
  intros Hi. destruct lv as [|a l]; [done|]. unfold wave_depth.
  apply list_elem_of_lookup_2 in Hi. pose proof (max_list_elem_of_le _ _ Hi). lia.
Qed.

Lemma wave_depth_top lv k : wave_depth lv = S k → ∃ i, lv !! i = Some k.
Proof.
  destruct lv as [|a l]; [done|]. unfold wave_depth. intros [= <-].
  assert (∀ l : list nat, l ≠ [] → max_list l ∈ l) as Hmax.
  { clear. induction l as [|x l IH]; [done|]. intros _. simpl.
    destruct (Nat.max_spec x (max_list l)) as [[Hlt ->]|[_ ->]]; [|by left].
    right. apply IH. intros ->. simpl in Hlt. lia. }
  apply list_elem_of_lookup. by apply (Hmax (a :: l)).
Qed.

Section waves.
Context {Value Reply : Type}.
Implicit Types (b : TaskBoard (Value := Value) (Reply := Reply)).

(** The waves of a board with their meaning: [level] gives every card its wave. *)
Record waves_of b (waves : list Wave) (level : string → nat) : Prop := {
  wv_cards k w : waves !! k = Some w → wave_index w = k ∧ wave_cards w ≠ [] ∧
    wave_cards w = card_id <$> filter (λ c, level (card_id c) = k) (cards b);
  wv_bound c : c ∈ cards b → level (card_id c) < length waves;
  wv_above c d : c ∈ cards b → d ∈ depends_on c → level d < level (card_id c);
  wv_below c : c ∈ cards b → level (card_id c) = 0 ∨
    ∃ d, d ∈ depends_on c ∧ level (card_id c) = S (level d);
}.

Lemma derive_waves_valid b :
  validate_dependencies b = Some (Ok ()) →
  ∃ waves level, derive_waves b = Some (Ok waves) ∧ waves_of b waves level.
Proof.
  intros Hok. destruct (validate_dependencies_sound b Hok) as [Hnd Hwf [ord Hord]].
  unfold derive_waves. rewrite Hok. simpl.
  set (cs := cards b) in *. pose proof (index_by_id_indexes cs Hnd) as Hix.
  set (by_id := index_by_id cs) in *.
  destruct (build_dependents_ok cs by_id Hix Hwf) as (rows & -> & Hrows). simpl.
  destruct (level_visit_ok cs by_id Hix Hwf rows (length cs) [] _ _ (replicate (length cs) 0) Hrows
    (kahn_start cs by_id) (levels_start cs by_id)) as (P & ind & lv & Hv & Hk & [Hlen Habove Hbelow]); [simpl; lia|].
  rewrite Hv. simpl.
  assert (HP : ∀ i j, dep cs by_id i j → j ∈ P).
  { pose proof (kahn_ordered cs by_id Hix Hwf P ind ord Hk Hord) as Hfull.
    intros i j Hd. rewrite (kahn_perm cs by_id P ind Hk Hfull).
    apply elem_of_seq. apply dep_lt in Hd; [lia|done]. }
  assert (Hsome : ∀ i c, cs !! i = Some c → ∃ k, lv !! i = Some k).
  { intros i c Hc. apply lookup_lt_is_Some_2. rewrite Hlen. by eapply lookup_lt_Some. }
  set (level := λ id, default 0 (by_id !! id ≫= λ i, lv !! i)).
  assert (Hlv : ∀ i c k, cs !! i = Some c → lv !! i = Some k → level (card_id c) = k).
  { intros i c k Hc Hl. unfold level. by rewrite (ix_card _ _ Hix i c Hc); simpl; rewrite Hl. }
  assert (Hdeps : ∀ i c d, cs !! i = Some c → d ∈ depends_on c →
    ∃ j a, by_id !! d = Some j ∧ dep cs by_id i j ∧ lv !! j = Some a ∧ level d = a).
  { intros i c d Hc Hd. destruct (card_deps_indexed cs by_id Hix Hwf i c d Hc Hd) as [j Hj].
    pose proof Hj as (cj & Hcj & Heq)%(ix_id _ _ Hix). destruct (Hsome j cj Hcj) as [a Ha].
    exists j, a. split_and!; [done|by exists c, d|done|]. rewrite <- Heq. by apply (Hlv j). }
  rewrite (place_cards_ok lv (wave_depth lv) (imap pair cs)).
  2: { intros [i c] Hp. apply list_elem_of_lookup in Hp as [m Hm].
       rewrite list_lookup_imap in Hm. apply fmap_Some in Hm as (c' & Hc' & [= -> ->]).
       destruct (Hsome m c' Hc') as [k Hk']. exists k. split; [done|]. by eapply wave_depth_bound. }
  simpl. eexists _, level. split; [done|].
  assert (Hlevel_some : ∀ k, (∃ i, lv !! i = Some k) → k = 0 ∨ ∃ i, lv !! i = Some (pred k)).
  { intros k [i Hi]. destruct (Hbelow i k Hi) as [->|(j & a & _ & _ & Ha & ->)]; [by left|right; eauto]. }
  split.
  - intros k w Hw. rewrite list_lookup_fmap in Hw. apply fmap_Some in Hw as (k' & Hk' & ->).
    apply lookup_seq in Hk' as [-> Hlt]. simpl. split; [done|].
    rewrite list_fmap_compose, (filter_imap_snd (λ p, lv !! p.1 = Some k) (λ c, level (card_id c) = k)).
    2: { intros i c Hc. simpl. destruct (Hsome i c Hc) as [a Ha].
         rewrite (Hlv i c a Hc Ha), Ha. naive_solver. }
    split; [|done]. assert (∃ i, lv !! i = Some k) as [i Hi].
    { destruct (wave_depth lv) as [|top] eqn:Hd; [lia|]. apply wave_depth_top in Hd.
      assert (k ≤ top) as Hle by lia. clear -Hd Hle Hlevel_some.
      remember (top - k) as m eqn:Hm. revert top Hd Hle Hm. induction m as [|m IH]; intros top Hd Hle Hm.
      - by replace k with top by lia.
      - destruct (Hlevel_some top Hd) as [->|Hp]; [lia|]. apply (IH (pred top)); [done|lia|lia]. }
    destruct (lookup_lt_is_Some_2 cs i) as [c Hc].
    { rewrite <- Hlen. by eapply lookup_lt_Some. }
    assert (card_id c ∈ card_id <$> filter (λ c, level (card_id c) = k) cs) as Hin.
    { apply list_elem_of_fmap_2, list_elem_of_filter. split; [by eapply Hlv|by eapply list_elem_of_lookup_2]. }
    intros Hnil. rewrite Hnil in Hin. by apply elem_of_nil in Hin.
  - intros c Hc. rewrite length_fmap, length_seq. apply list_elem_of_lookup in Hc as [i Hi].
    destruct (Hsome i c Hi) as [k Hk']. rewrite (Hlv i c k Hi Hk'). by eapply wave_depth_bound.
  - intros c d Hc Hd. apply list_elem_of_lookup in Hc as [i Hi].
    destruct (Hdeps i c d Hi Hd) as (j & a & _ & Hdep & Ha & ->). destruct (Hsome i c Hi) as [k Hk'].
    rewrite (Hlv i c k Hi Hk'). by apply (Habove i j k a Hdep (HP i j Hdep)).
  - intros c Hc. apply list_elem_of_lookup in Hc as [i Hi]. destruct (Hsome i c Hi) as [k Hk'].
    rewrite (Hlv i c k Hi Hk').
    destruct (Hbelow i k Hk') as [->|(j & a & (c' & d & Hc' & Hd & Hj) & _ & Ha & ->)]; [by left|right].
    assert (Some c = Some c') as [= <-] by (rewrite <- Hi; exact Hc'). exists d. split; [done|].
    unfold level. by rewrite Hj; simpl; rewrite Ha.
Qed.

(** [derive_waves] always answers: with the board's own validation error, or with the
    dependency levels of the board, each wave numbered by its place, none empty, listing
    its cards in board order; every card is in exactly one wave, above all its
    dependencies, and just above its deepest one unless it has none. *)
Lemma waves_are_levels b :
  ∃ r, derive_waves b = Some r ∧
    match r with
    | Ok waves => valid_dependencies (cards b) ∧ ∃ level, waves_of b waves level
    | Err e => validate_dependencies b = Some (Err e)
    end.
Proof.
  destruct (validate_dependencies_spec b) as (v & Hv & Hok). destruct v as [[]|e].
  - destruct (derive_waves_valid b Hv) as (waves & level & Hd & Hw).
    exists (Ok waves). split; [done|]. split; [by apply Hok|by exists level].
  - exists (Err e). split; [|done]. unfold derive_waves. by rewrite Hv.
Qed.
End waves.
