(* ===== verification/WaveSched.v ===== *)
(** * How a schedule is put together

    The gate and the decisions of single stages, the places of the dispatched stages,
    their order and the width limit: the lemmas the theorems on schedules rest on. *)

From stdpp Require Import gmap strings list sorting.
From S2P Require Import Prelude RustStr BoardTypes Outcome Board BoardDeps OverlapOrder Waves WaveLevels.

(** ** Positions *)

Lemma position_Some {A} (f : A → bool) l k :
  position f l = Some k → (∃ x, l !! k = Some x ∧ f x = true) ∧ ∀ i x, i < k → l !! i = Some x → f x = false.
Proof.
  unfold position. intros ([i x] & Hf & ->)%fmap_Some. apply list_find_Some in Hf as (Hi & Hx & Hmin).
  split; [by exists x|]. intros j y Hj Hy. simpl in Hj. specialize (Hmin j y Hy Hj).
  by destruct (f y).
Qed.

Lemma position_None {A} (f : A → bool) l : position f l = None → ∀ x, x ∈ l → f x = false.
Proof.
  unfold position. intros Hn x Hx. apply fmap_None, list_find_None in Hn.
  rewrite Forall_forall in Hn. specialize (Hn x Hx). by destruct (f x).
Qed.

Lemma nonempty_false {A} (l : list A) : nonempty l = false ↔ l = [].
Proof. by destruct l. Qed.

Section sched.
Context {Value Reply : Type}.
Abbreviation TBoard := (TaskBoard (Value := Value) (Reply := Reply)).
Implicit Types (b : TBoard).

(** ** The gate *)

Lemma failed_is_terminal col : is_failed_column col = true → is_terminal_column col = true.
Proof. unfold is_failed_column, is_terminal_column. intros H. by rewrite <- orb_assoc, H, orb_true_r. Qed.

Lemma terminal_not_failed col :
  is_terminal_column col = true → is_failed_column col = false → col = "done".
Proof.
  unfold is_failed_column, is_terminal_column. rewrite <- orb_assoc. intros Ht Hf.
  rewrite Hf, orb_false_r in Ht. by apply bool_decide_eq_true in Ht.
Qed.

Lemma column_of_done b id : column_of b id = "done" → ∃ c, get_card id b = Some c ∧ column c = "done".
Proof. unfold column_of. destruct (get_card id b) as [c|]; simpl; [eauto|done]. Qed.

(** Where the gate lets a stage of wave [k] through. *)
Definition gate_admits (gate : WaveGate) (k : nat) : Prop :=
  k ≤ frontier gate ∧ ∀ j, blocked_at gate = Some j → k ≤ j.

(** The required cards of the waves below an admitted one are done. *)
Lemma gate_below b waves optional k j w id :
  gate_admits (wave_gate b waves optional) k → j < k → waves !! j = Some w →
  id ∈ wave_cards w → id ∉ optional → column_of b id = "done".
Proof.
  intros [Hfr Hbl] Hj Hw Hid Hopt. unfold wave_gate in Hfr, Hbl. simpl in Hfr, Hbl.
  assert (wave_holding b optional w = []) as Hhold.
  { destruct (position nonempty (wave_holding b optional <$> waves)) as [f|] eqn:Hp; simpl in Hfr.
    - apply position_Some in Hp as [_ Hmin]. apply nonempty_false, (Hmin j); [lia|].
      by rewrite list_lookup_fmap, Hw.
    - apply nonempty_false, (position_None _ _ Hp). apply list_elem_of_fmap_2.
      by eapply list_elem_of_lookup_2. }
  assert (wave_failed b optional w = []) as Hfail.
  { destruct (position nonempty (wave_failed b optional <$> waves)) as [f|] eqn:Hp.
    - specialize (Hbl f eq_refl). apply position_Some in Hp as [_ Hmin].
      apply nonempty_false, (Hmin j); [lia|]. by rewrite list_lookup_fmap, Hw.
    - apply nonempty_false, (position_None _ _ Hp). apply list_elem_of_fmap_2.
      by eapply list_elem_of_lookup_2. }
  assert (is_failed_column (column_of b id) = false) as Hf.
  { destruct (is_failed_column (column_of b id)) eqn:E; [|done]. exfalso.
    assert (id ∈ wave_failed b optional w) as Hin.
    { apply list_elem_of_filter. by rewrite E, bool_decide_false. }
    rewrite Hfail in Hin. by apply elem_of_nil in Hin. }
  apply terminal_not_failed; [|done].
  destruct (is_terminal_column (column_of b id)) eqn:E; [done|]. exfalso.
  assert (id ∈ wave_holding b optional w) as Hin.
  { apply list_elem_of_filter. by rewrite E, Hf, bool_decide_false. }
  rewrite Hhold in Hin. by apply elem_of_nil in Hin.
Qed.

(** The wave the gate is closed after has its list of failures. *)
Lemma gate_failed_list b waves optional j :
  blocked_at (wave_gate b waves optional) = Some j →
  ∃ l, gate_failed (wave_gate b waves optional) !! j = Some l.
Proof. simpl. intros ((l & Hl & _) & _)%position_Some. eauto. Qed.

(** ** The cursor of a lane *)

(** Stages [0..k) are done. *)
Definition done_before b (stages : list LaneStage) (k : nat) : Prop :=
  ∀ i st, i < k → stages !! i = Some st → column_of b (ls_card st) = "done".

Lemma cursor_loop_ok fuel b stages k :
  length stages ≤ k + S fuel → done_before b stages k →
  ∃ c, cursor_loop fuel b stages k = Some c ∧
    match c with
    | At p => done_before b stages p ∧ ∃ st, stages !! p = Some st
                ∧ is_terminal_column (column_of b (ls_card st)) = false
    | CBlocked p card => done_before b stages p ∧ ∃ st, stages !! p = Some st ∧ ls_card st = card
                ∧ is_failed_column (column_of b card) = true
    | CComplete => done_before b stages (length stages)
    end.
Proof.
  revert k. induction fuel as [|fuel IH]; intros k Hlen Hdone; simpl.
  all: destruct (stages !! k) as [st|] eqn:Hst;
    [|exists CComplete; split; [done|]; apply lookup_ge_None in Hst;
      intros i s Hi Hs; apply (Hdone i s); [lia|done]].
  all: destruct (is_failed_column _) eqn:Hf;
    [exists (CBlocked k (ls_card st)); split; [done|]; split; [done|]; by exists st|].
  all: destruct (is_terminal_column _) eqn:Ht; simpl;
    [|exists (At k); split; [done|]; split; [done|]; by exists st].
  all: assert (done_before b stages (S k)) as Hdone'.
  all: try (intros i s Hi Hs; destruct (decide (i = k)) as [->|];
    [rewrite Hst in Hs; injection Hs as <-; by apply terminal_not_failed|apply (Hdone i s); [lia|done]]).
  all: unfold advance_pipeline; pose proof (lookup_lt_Some _ _ _ Hst) as Hlt.
  all: rewrite (proj2 (Nat.leb_gt (length stages) k) Hlt).
  - destruct (stages !! S k) as [st'|] eqn:Hst'; [apply lookup_lt_Some in Hst'; lia|].
    exists CComplete. split; [done|]. apply lookup_ge_None in Hst'. intros i s Hi Hs.
    apply (Hdone' i s); [lia|done].
  - destruct (stages !! S k) as [st'|] eqn:Hst'.
    + apply IH; [lia|done].
    + exists CComplete. split; [done|]. apply lookup_ge_None in Hst'. intros i s Hi Hs.
      apply (Hdone' i s); [lia|done].
Qed.

Lemma pipeline_cursor_ok b stages :
  ∃ c, pipeline_cursor b stages = Some c ∧
    match c with
    | At p => done_before b stages p ∧ ∃ st, stages !! p = Some st
                ∧ is_terminal_column (column_of b (ls_card st)) = false
    | CBlocked p card => done_before b stages p ∧ ∃ st, stages !! p = Some st ∧ ls_card st = card
                ∧ is_failed_column (column_of b card) = true
    | CComplete => done_before b stages (length stages)
    end.
Proof. apply cursor_loop_ok; [lia|]. intros i st Hi. lia. Qed.

(** ** Decisions *)

Implicit Types (lane : Lane) (st : LaneStage).

(** The stage at [pos] of the lane is the next one to run. *)
Definition its_turn b lane (pos : nat) st : Prop :=
  is_terminal_column (column_of b (ls_card st)) = false ∧
  (advances_one_position_at_a_time (lane_kind lane) = true → done_before b (lane_stages lane) pos).

Lemma done_terminal : is_terminal_column "done" = true ∧ is_failed_column "done" = false.
Proof. done. Qed.

Lemma decide_cursor_at b lane c pos st :
  pipeline_cursor b (lane_stages lane) = Some c → lane_stages lane !! pos = Some st →
  advances_one_position_at_a_time (lane_kind lane) = true →
  decide_cursor b lane (Some c) pos = Some Dispatch ↔ its_turn b lane pos st.
Proof.
  intros Hc Hst Hadv. destruct (pipeline_cursor_ok b (lane_stages lane)) as (c' & Hc' & Hok).
  rewrite Hc in Hc'. injection Hc' as <-. unfold its_turn. rewrite Hadv.
  destruct done_terminal as [Hdt Hdf].
  split.
  - destruct c as [p|p card|]; simpl; [|done|done].
    destruct (Nat.eqb_spec pos p) as [->|Hne]; [|by case_match].
    intros _. destruct Hok as (Hdone & st' & Hst' & Ht). rewrite Hst in Hst'.
    injection Hst' as <-. done.
  - intros [Ht Hdone]. specialize (Hdone eq_refl). destruct c as [p|p card|]; simpl.
    + destruct Hok as (Hdone' & st' & Hst' & Ht'). destruct (Nat.eqb_spec pos p) as [|Hne]; [done|].
      exfalso. destruct (decide (p < pos)).
      * rewrite (Hdone p st') in Ht' by done. congruence.
      * rewrite (Hdone' pos st) in Ht by (done || lia). congruence.
    + exfalso. destruct Hok as (Hdone' & st' & Hst' & <- & Hf).
      destruct (decide (p < pos)); [rewrite (Hdone p st') in Hf by done; congruence|].
      destruct (decide (p = pos)) as [->|].
      * rewrite Hst in Hst'. injection Hst' as <-. apply failed_is_terminal in Hf. congruence.
      * rewrite (Hdone' pos st) in Ht by (done || lia). congruence.
    + exfalso. rewrite (Hok pos st) in Ht; [congruence| |done]. by eapply lookup_lt_Some.
Qed.

Lemma decide_cursor_none b lane pos st :
  lane_stages lane !! pos = Some st → advances_one_position_at_a_time (lane_kind lane) = false →
  decide_cursor b lane None pos = Some Dispatch ↔ its_turn b lane pos st.
Proof.
  intros Hst Hadv. unfold its_turn, decide_cursor, terminal_or_dispatch. rewrite Hst, Hadv. simpl.
  destruct (is_terminal_column _); naive_solver.
Qed.

Lemma decide_stage_dispatch b gate lane cursor pos wave :
  decide_stage b gate lane cursor pos wave = Some Dispatch ↔
  gate_admits gate wave ∧ decide_cursor b lane cursor pos = Some Dispatch.
Proof.
  unfold decide_stage, gate_admits. destruct (blocked_at gate) as [k|]; simpl.
  - destruct (Nat.ltb_spec k wave); simpl.
    + split; [by destruct (gate_failed gate !! k)|]. intros [[_ H'] _]. specialize (H' k eq_refl). lia.
    + destruct (Nat.ltb_spec (frontier gate) wave); [split; [done|lia]|].
      split; [intros ?; split; [split; [lia|naive_solver]|done]|naive_solver].
  - destruct (Nat.ltb_spec (frontier gate) wave); [split; [done|lia]|]. naive_solver lia.
Qed.

Lemma decide_stage_total b gate lane cursor pos wave :
  (∀ j, blocked_at gate = Some j → ∃ l, gate_failed gate !! j = Some l) →
  pos < length (lane_stages lane) → ∃ d, decide_stage b gate lane cursor pos wave = Some d.
Proof.
  intros Hgate Hpos.
  assert (∃ d, decide_cursor b lane cursor pos = Some d) as Hcur.
  { unfold decide_cursor, terminal_or_dispatch. apply lookup_lt_is_Some_2 in Hpos as [st ->].
    destruct cursor as [[]|]; simpl; eauto. }
  unfold decide_stage. destruct (blocked_at gate) as [k|] eqn:Hb; simpl.
  - destruct (Hgate k eq_refl) as [l Hl]. destruct (k <? wave); [rewrite Hl; simpl; eauto|].
    destruct (_ <? wave); eauto.
  - destruct (_ <? wave); eauto.
Qed.

(** What is decided of one stage. *)
Record stage_decided b (gate : WaveGate) (wm : gmap string nat) lane (p : nat * LaneStage)
    (s : StageOutcome) : Prop := {
  sd_card : so_card s = ls_card p.2;
  sd_position : so_position s = p.1;
  sd_wave : so_wave s = default 0 (wm !! ls_card p.2);
  sd_rank : so_rank s = None;
  sd_dispatch : so_decision s = Dispatch ↔ gate_admits gate (so_wave s) ∧ its_turn b lane p.1 p.2;
}.

Lemma lane_outcome_ok b waves optional wm lane :
  ∃ o, lane_outcome b (wave_gate b waves optional) wm lane = Some o ∧
    lo_lane o = lane_name lane ∧
    Forall2 (stage_decided b (wave_gate b waves optional) wm lane) (imap pair (lane_stages lane)) (lo_stages o).
Proof.
  unfold lane_outcome. set (gate := wave_gate b waves optional).
  assert (Hgate : ∀ j, blocked_at gate = Some j → ∃ l, gate_failed gate !! j = Some l)
    by apply gate_failed_list. clearbody gate.
  assert (∃ cursor, (if advances_one_position_at_a_time (lane_kind lane)
                     then Some <$> pipeline_cursor b (lane_stages lane) else Some None) = Some cursor
    ∧ ∀ pos st, lane_stages lane !! pos = Some st →
        decide_cursor b lane cursor pos = Some Dispatch ↔ its_turn b lane pos st) as (cursor & -> & Hcur).
  { destruct (advances_one_position_at_a_time (lane_kind lane)) eqn:Hadv.
    - destruct (pipeline_cursor_ok b (lane_stages lane)) as (c & Hc & _). rewrite Hc.
      exists (Some c). split; [done|]. intros pos st Hst. by apply decide_cursor_at.
    - exists None. split; [done|]. intros pos st Hst. by apply decide_cursor_none. }
  simpl.
  assert (∀ pos st, (pos, st) ∈ imap pair (lane_stages lane) → lane_stages lane !! pos = Some st) as Hpos.
  { intros pos st Hin. apply list_elem_of_lookup in Hin as [m Hm].
    rewrite list_lookup_imap in Hm. by apply fmap_Some in Hm as (st' & Hst' & [= -> ->]). }
  destruct (mapM_total (stage_outcome b gate wm lane cursor) (imap pair (lane_stages lane))) as [l Hl].
  { intros [pos st] Hp%Hpos. unfold stage_outcome. simpl.
    destruct (decide_stage_total b gate lane cursor pos (default 0 (wm !! ls_card st)) Hgate) as [d ->];
      [by eapply lookup_lt_Some|]. simpl. eauto. }
  rewrite Hl. simpl. eexists. split; [done|]. split; [done|]. simpl. apply mapM_Some in Hl.
  apply Forall2_same_length_lookup. apply Forall2_same_length_lookup in Hl as [Hlen Hl].
  split; [done|]. intros i [pos st] s Hi Hs. specialize (Hl i _ s Hi Hs).
  apply list_elem_of_lookup_2, Hpos in Hi. unfold stage_outcome in Hl. simpl in Hl.
  destruct (decide_stage b gate lane cursor pos _) as [d|] eqn:Hd; [|done]. injection Hl as <-.
  split; simpl; [done..|]. rewrite <- (Hcur pos st Hi), <- decide_stage_dispatch, Hd. naive_solver.
Qed.

(** All lanes, stage by stage. *)
Definition lane_places (lanes : list Lane) : list (Lane * (nat * LaneStage)) :=
  lanes ≫= λ lane, pair lane <$> imap pair (lane_stages lane).
Definition lane_cards (lanes : list Lane) : list string :=
  lanes ≫= λ lane, ls_card <$> lane_stages lane.

Lemma lane_outcomes_ok b waves optional wm lanes :
  ∃ outcomes, mapM (lane_outcome b (wave_gate b waves optional) wm) lanes = Some outcomes ∧
    Forall2 (λ q, stage_decided b (wave_gate b waves optional) wm q.1 q.2)
      (lane_places lanes) (all_stages outcomes).
Proof.
  induction lanes as [|lane lanes (outcomes & Heq & Hall)]; [by exists []; split; [|constructor]|].
  destruct (lane_outcome_ok b waves optional wm lane) as (o & Ho & _ & Hst).
  exists (o :: outcomes). split; [simpl; rewrite Ho; simpl; by rewrite Heq|].
  unfold lane_places, all_stages. rewrite !bind_cons. apply Forall2_app; [|done].
  by apply Forall2_fmap_l.
Qed.

Lemma lane_places_cards lanes : (λ q, ls_card q.2.2) <$> lane_places lanes = lane_cards lanes.
Proof.
  unfold lane_places, lane_cards. induction lanes as [|lane lanes IH]; [done|].
  rewrite !bind_cons, fmap_app, IH. f_equal. rewrite <- list_fmap_compose.
  apply list_eq. intros i. rewrite !list_lookup_fmap, list_lookup_imap.
  by destruct (lane_stages lane !! i).
Qed.
End sched.
