(* ===== verification/WavePlan.v ===== *)
(** * From decided stages to a schedule

    The places of the dispatched stages, their order, the width limit and the status of
    the lanes: what [Waves.finish_schedule] makes of the decisions. *)

From stdpp Require Import gmap strings list sorting.
From S2P Require Import Prelude OverlapOrder Waves.

Implicit Types (outs : list LaneOutcome) (o : LaneOutcome) (s : StageOutcome) (p : nat * nat).

(** ** Places *)

Definition dummy_stage : StageOutcome := {|
  so_card := ""; so_agent := None; so_position := 0; so_wave := 0; so_decision := Dispatch; so_rank := None |}.
Definition stage_of outs p : StageOutcome := default dummy_stage (stage_at outs p).

Lemma places_of_lane k (l stages : list StageOutcome) :
  (∀ i s, l !! i = Some s → stages !! i = Some s) →
  Forall2 (λ p s, p.1 = k ∧ stages !! p.2 = Some s)
    (omap (λ q : nat * StageOutcome, if is_dispatch q.2 then Some (k, q.1) else None) (imap pair l))
    (filter (λ s, is_dispatch s = true) l).
Proof.
  induction l as [|s l IH] using rev_ind; intros Hl; [constructor|].
  rewrite imap_app, omap_app, filter_app. apply Forall2_app.
  - apply IH. intros i t Hi. apply Hl. by apply lookup_app_l_Some.
  - simpl. rewrite filter_cons, Nat.add_0_r. destruct (is_dispatch s); simpl; [|constructor].
    constructor; [|constructor]. split; [done|]. apply Hl. by apply list_lookup_middle.
Qed.

Lemma places_from pre outs :
  Forall2 (λ p s, stage_at (pre ++ outs) p = Some s)
    (concat (imap (λ i o, omap (λ q : nat * StageOutcome, if is_dispatch q.2 then Some (length pre + i, q.1) else None)
                            (imap pair (lo_stages o))) outs))
    (filter (λ s, is_dispatch s = true) (all_stages outs)).
Proof.
  revert pre. induction outs as [|o outs IH]; intros pre; [constructor|].
  rewrite imap_cons. unfold all_stages. rewrite bind_cons, filter_app. cbn [concat]. apply Forall2_app.
  - rewrite Nat.add_0_r. eapply Forall2_impl; [apply (places_of_lane (length pre) _ (lo_stages o)); done|].
    intros [i j] s [Hi Hs]. simpl in *. subst i. unfold stage_at. simpl.
    by rewrite list_lookup_middle.
  - specialize (IH (pre ++ [o])). rewrite <- app_assoc in IH. simpl in IH.
    rewrite length_app, Nat.add_1_r in IH.
    assert (∀ (f g : nat → LaneOutcome → list (nat * nat)), (∀ i o, f i o = g i o) → imap f outs = imap g outs) as Hext.
    { intros f g Hfg. apply imap_ext. auto. }
    rewrite (Hext _ (λ i o, omap (λ q : nat * StageOutcome, if is_dispatch q.2 then Some (S (length pre) + i, q.1) else None)
                            (imap pair (lo_stages o)))); [exact IH|].
    intros i o'. simpl. by rewrite Nat.add_succ_r.
Qed.

Lemma Forall2_get outs ps ss :
  Forall2 (λ p s, stage_at outs p = Some s) ps ss →
  ss = stage_of outs <$> ps ∧ ∀ p, p ∈ ps → stage_at outs p = Some (stage_of outs p).
Proof.
  induction 1 as [|p s ps ss Hp _ [IH1 IH2]]; [split; [done|by intros p ?%elem_of_nil]|].
  assert (stage_of outs p = s) as Hg by (unfold stage_of; by rewrite Hp).
  split; [rewrite fmap_cons, Hg; by f_equal|].
  intros q [->|Hq]%elem_of_cons; [by rewrite Hg|by apply IH2].
Qed.

Lemma dispatched_places_ok outs :
  stage_of outs <$> dispatched_places outs = filter (λ s, is_dispatch s = true) (all_stages outs) ∧
  ∀ p, p ∈ dispatched_places outs → stage_at outs p = Some (stage_of outs p).
Proof.
  destruct (Forall2_get outs (dispatched_places outs) _ (places_from [] outs)) as [H1 H2].
  by split; [symmetry|].
Qed.

Lemma mapM_get outs ps :
  (∀ p, p ∈ ps → stage_at outs p = Some (stage_of outs p)) → mapM (stage_at outs) ps = Some (stage_of outs <$> ps).
Proof.
  intros Hps. apply mapM_Some. induction ps as [|p ps IH]; [constructor|].
  constructor; [apply Hps; by left|]. apply IH. intros q Hq. apply Hps. by right.
Qed.

(** ** The order *)

Definition order_key (rs : gmap string nat) s : nat * nat := (so_wave s, default 0 (rs !! so_card s)).

Lemma StronglySorted_fmap {A B} (R : B → B → Prop) (f : A → B) l :
  StronglySorted R (f <$> l) ↔ StronglySorted (λ x y, R (f x) (f y)) l.
Proof.
  induction l as [|x l IH]; [split; constructor|]. rewrite fmap_cons. split.
  - intros H. inversion_clear H as [|?? Hl Hx]. constructor; [by apply IH|by rewrite Forall_fmap in Hx].
  - intros H. inversion_clear H as [|?? Hl Hx]. constructor; [by apply IH|by rewrite Forall_fmap].
Qed.

Lemma dispatch_order_ok outs rs :
  ∃ order, dispatch_order outs rs = Some order ∧ order ≡ₚ dispatched_places outs ∧
    match rs with
    | None => order = dispatched_places outs
    | Some rs => StronglySorted (λ s t, rle (order_key rs s) (order_key rs t)) (stage_of outs <$> order)
    end.
Proof.
  destruct (dispatched_places_ok outs) as [_ Hget]. unfold dispatch_order.
  destruct rs as [rs|]; [|by eexists].
  set (kf := λ p : nat * nat, s ← stage_at outs p; Some (so_wave s, default 0 (rs !! so_card s), p)).
  assert (mapM kf (dispatched_places outs) =
    Some ((λ p, (order_key rs (stage_of outs p), p)) <$> dispatched_places outs)) as ->.
  { apply mapM_Some. revert Hget. generalize (dispatched_places outs). intros ps Hget.
    induction ps as [|p ps IH]; [constructor|]. constructor.
    - unfold kf. rewrite (Hget p) by (by left). done.
    - apply IH. intros q Hq. apply Hget. by right. }
  simpl. set (keyed := (λ p, (order_key rs (stage_of outs p), p)) <$> dispatched_places outs).
  eexists. split; [done|]. split.
  - assert (snd <$> keyed = dispatched_places outs) as <-; [|by rewrite sort_by_key_perm].
    unfold keyed. rewrite <- list_fmap_compose. by apply list_fmap_id.
  - rewrite <- list_fmap_compose. apply StronglySorted_fmap.
    pose proof (sort_by_key_sorted fst keyed) as Hs.
    assert (∀ x, x ∈ sort_by_key fst keyed → x.1 = order_key rs (stage_of outs x.2)) as Hk.
    { intros x Hx. rewrite elem_of_sort_by_key in Hx. unfold keyed in Hx.
      apply list_elem_of_fmap in Hx as (p & -> & _). done. }
    induction Hs as [|x l Hs IH Hx]; constructor.
    + apply IH. intros y Hy. apply Hk. by right.
    + apply Forall_forall. intros y Hy. rewrite Forall_forall in Hx. specialize (Hx y Hy).
      unfold key_le in Hx. rewrite (Hk x), (Hk y) in Hx by (by left || by right). exact Hx.
Qed.

(** ** The width limit *)

Lemma stage_at_set outs p o s d :
  outs !! p.1 = Some o → lo_stages o !! p.2 = Some s →
  ∀ q, stage_at (<[p.1 := with_stages (<[p.2 := with_decision d s]> (lo_stages o)) o]> outs) q =
    if decide (q = p) then Some (with_decision d s) else stage_at outs q.
Proof.
  intros Ho Hs q. unfold stage_at. destruct (decide (q.1 = p.1)) as [E1|E1].
  - rewrite E1, list_lookup_insert_eq by (by eapply lookup_lt_Some). simpl. rewrite Ho. simpl.
    destruct (decide (q.2 = p.2)) as [E2|E2].
    + rewrite E2, list_lookup_insert_eq by (by eapply lookup_lt_Some).
      rewrite decide_True; [done|]. by destruct p, q; simpl in *; subst.
    + rewrite list_lookup_insert_ne by done. rewrite decide_False; [done|]. by intros ->.
  - rewrite list_lookup_insert_ne by done. rewrite decide_False; [done|]. by intros ->.
Qed.

(** What a throttled stage keeps. *)
Definition stage_key s : string * (nat * option nat) := (so_card s, (so_wave s, so_rank s)).

Lemma fmap_bind_concat {A B C} (f : A → list B) (g : B → C) l :
  g <$> (l ≫= f) = concat ((λ x, g <$> f x) <$> l).
Proof. induction l as [|x l IH]; [done|]. rewrite bind_cons, fmap_app, IH. done. Qed.

Lemma stage_keys_set outs p o s d :
  outs !! p.1 = Some o → lo_stages o !! p.2 = Some s →
  stage_key <$> all_stages (<[p.1 := with_stages (<[p.2 := with_decision d s]> (lo_stages o)) o]> outs)
    = stage_key <$> all_stages outs.
Proof.
  intros Ho Hs. unfold all_stages. rewrite !fmap_bind_concat. f_equal.
  rewrite list_fmap_insert. apply list_insert_id. rewrite list_lookup_fmap, Ho. simpl. f_equal.
  rewrite list_fmap_insert. symmetry. apply list_insert_id. by rewrite list_lookup_fmap, Hs.
Qed.

Lemma set_decisions_ok d ps outs :
  (∀ p, p ∈ ps → is_Some (stage_at outs p)) →
  ∃ outs', foldl (set_decision_at d) (Some outs) ps = Some outs'
    ∧ (∀ p, stage_at outs' p = if decide (p ∈ ps) then with_decision d <$> stage_at outs p else stage_at outs p)
    ∧ stage_key <$> all_stages outs' = stage_key <$> all_stages outs.
Proof.
  revert outs. induction ps as [|p ps IH]; intros outs Hps.
  { exists outs. split_and!; [done| |done]. intros p. by rewrite decide_False by apply not_elem_of_nil. }
  destruct (Hps p) as [s Hs]; [by left|]. pose proof Hs as Hat. unfold stage_at in Hs.
  destruct (outs !! p.1) as [o|] eqn:Ho; [|done]. simpl in Hs.
  pose proof (stage_at_set outs p o s d Ho Hs) as Hset.
  destruct (IH (<[p.1 := with_stages (<[p.2 := with_decision d s]> (lo_stages o)) o]> outs))
    as (outs' & Heq & Hst & Hkeys).
  { intros q Hq. rewrite Hset. case_decide; [by eexists|]. apply Hps. by right. }
  exists outs'. split_and!.
  - cbn [foldl]. unfold set_decision_at at 2. simpl. rewrite Ho. simpl. rewrite Hs. exact Heq.
  - intros q. rewrite Hst, Hset. destruct (decide (q = p)) as [->|Hne].
    + rewrite (decide_True (P := p ∈ p :: ps)) by (by left). rewrite Hat. simpl. by case_decide.
    + assert (q ∈ p :: ps ↔ q ∈ ps) as Hiff by (rewrite elem_of_cons; naive_solver).
      by rewrite (decide_ext _ _ _ _ Hiff).
  - rewrite Hkeys. by apply stage_keys_set.
Qed.

Lemma NoDup_places outs ps :
  (∀ p, p ∈ ps → stage_at outs p = Some (stage_of outs p)) → NoDup (so_card <$> (stage_of outs <$> ps)) → NoDup ps.
Proof.
  intros _ Hnd. rewrite <- list_fmap_compose in Hnd. by apply NoDup_fmap_1 in Hnd.
Qed.

Lemma throttle_ok outs order width :
  NoDup order →
  (∀ p, p ∈ order → stage_at outs p = Some (stage_of outs p) ∧ is_dispatch (stage_of outs p) = true) →
  ∃ outs', throttle_wave_width outs order width = Some outs'
    ∧ selected outs' order = Some (so_card <$> take width (stage_of outs <$> order))
    ∧ stage_key <$> all_stages outs' = stage_key <$> all_stages outs.
Proof.
  intros Hnd Hord. unfold throttle_wave_width.
  set (d := NotRun _). assert (d ≠ Dispatch) as Hd by done. clearbody d.
  destruct (set_decisions_ok d (drop width order) outs) as (outs' & Heq & Hst & Hkeys).
  { intros p Hp. apply (subseteq_drop width) in Hp. eexists. by apply Hord. }
  exists outs'. split_and!; [done| |done]. unfold selected.
  rewrite <- (take_drop width order) in Hnd. apply NoDup_app in Hnd as (_ & Hdisj & _).
  assert (Htake : stage_of outs' <$> take width order = stage_of outs <$> take width order).
  { apply list_fmap_ext. intros i p Hp. unfold stage_of. rewrite Hst, decide_False; [done|].
    apply Hdisj. by eapply list_elem_of_lookup_2. }
  assert (Hdrop : ∀ p, p ∈ drop width order → stage_of outs' p = with_decision d (stage_of outs p)).
  { intros p Hp. unfold stage_of at 1. rewrite Hst, decide_True by done.
    apply (subseteq_drop width) in Hp as Hp'. by destruct (Hord p Hp') as [-> _]. }
  rewrite (mapM_get outs').
  2: { intros p Hp. unfold stage_of. rewrite Hst. destruct (Hord p Hp) as [-> _]. by case_decide. }
  simpl. f_equal. f_equal. rewrite <- (take_drop width order) at 1. rewrite fmap_app, filter_app, Htake.
  rewrite <- fmap_take.
  assert (filter (λ s, is_dispatch s = true) (stage_of outs' <$> drop width order) = []) as ->.
  { apply filter_none. intros s (p & -> & Hp)%list_elem_of_fmap. rewrite Hdrop by done.
    unfold is_dispatch. simpl. by rewrite bool_decide_false. }
  rewrite app_nil_r. apply filter_every.
  intros s (p & -> & Hp)%list_elem_of_fmap. apply (subseteq_take width) in Hp. by apply Hord.
Qed.

Lemma set_status_ok outs :
  ∃ outs', mapM set_status outs = Some outs' ∧ all_stages outs' = all_stages outs.
Proof.
  induction outs as [|o outs (outs' & Heq & Hall)]; [by exists []|].
  assert (∃ o', set_status o = Some o' ∧ lo_stages o' = lo_stages o) as (o' & Ho & Hst).
  { unfold set_status. destruct (existsb is_dispatch (lo_stages o)) eqn:Hex; [by eexists|].
    unfold lane_not_run_reason. destruct (lo_stages o) as [|s l] eqn:Hl; simpl; [by eexists|].
    simpl in Hex. apply orb_false_iff in Hex as [Hs _]. unfold is_dispatch in Hs.
    destruct (so_decision s); simpl; [done|by eexists..]. }
  exists (o' :: outs'). simpl. rewrite Ho. simpl. rewrite Heq. split; [done|].
  unfold all_stages in *. simpl. by rewrite Hst, Hall.
Qed.

(** ** Stamping *)

Definition collected_ranks (orders : list WaveOrder) : gmap string nat :=
  foldl (λ m (w : WaveOrder), ranks w ∪ m) ∅ orders.
Definition stamp (orders : list WaveOrder) s : StageOutcome :=
  match orders with [] => s | _ :: _ => with_rank (collected_ranks orders !! so_card s) s end.

Lemma all_stages_map (f : StageOutcome → StageOutcome) outs :
  all_stages ((λ o, with_stages (f <$> lo_stages o) o) <$> outs) = f <$> all_stages outs.
Proof.
  unfold all_stages. induction outs as [|o outs IH]; [done|]. rewrite fmap_cons, !bind_cons, fmap_app, IH. done.
Qed.

Lemma stamp_ranks_ok outs orders :
  all_stages (stamp_ranks outs orders).1 = stamp orders <$> all_stages outs ∧
  (stamp_ranks outs orders).2 = match orders with [] => None | _ :: _ => Some (collected_ranks orders) end.
Proof.
  destruct orders as [|o orders]; simpl; [by rewrite list_fmap_id|].
  split; [|done]. apply (all_stages_map (λ s, with_rank (collected_ranks (o :: orders) !! so_card s) s)).
Qed.

Lemma filter_fmap_dispatch orders (l : list StageOutcome) :
  filter (λ s, is_dispatch s = true) (stamp orders <$> l) = stamp orders <$> filter (λ s, is_dispatch s = true) l.
Proof.
  induction l as [|s l IH]; [done|]. rewrite fmap_cons, !filter_cons, IH.
  assert (is_dispatch (stamp orders s) = is_dispatch s) as -> by (by destruct orders).
  by destruct (is_dispatch s).
Qed.

Lemma NoDup_fmap_filter {A B} (f : A → B) (P : A → Prop) `{!∀ x, Decision (P x)} (l : list A) :
  NoDup (f <$> l) → NoDup (f <$> filter P l).
Proof.
  induction l as [|x l IH]; intros Hnd; [done|]. rewrite fmap_cons in Hnd.
  apply NoDup_cons in Hnd as [Hx Hnd]. rewrite filter_cons. case_decide; [|by apply IH].
  rewrite fmap_cons. apply NoDup_cons. split; [|by apply IH].
  intros (y & Hxy & [_ Hy]%list_elem_of_filter)%list_elem_of_fmap. apply Hx. rewrite Hxy.
  by apply list_elem_of_fmap_2.
Qed.

(** ** The whole schedule *)

Definition overlap_orders outs (overlap : option OverlapInputs) : option (list WaveOrder) :=
  match overlap with
  | Some inputs => if inputs_empty inputs then Some [] else order_dispatch_by_wave outs inputs
  | None => Some []
  end.

(** [ss] are the stages that pass the gate and their lane's turn, in submission order. *)
Record scheduled waves outs (width : nat) orders (sch : WaveSchedule) (ss : list StageOutcome) : Prop := {
  sc_waves : ws_waves sch = waves;
  sc_orders : overlap_order sch = orders;
  sc_perm : ss ≡ₚ stamp orders <$> filter (λ s, is_dispatch s = true) (all_stages outs);
  sc_dispatch : dispatch sch = so_card <$> take width ss;
  sc_lane_order : orders = [] → ss = filter (λ s, is_dispatch s = true) (all_stages outs);
  sc_sorted : orders ≠ [] →
    StronglySorted (λ s t, rle (order_key (collected_ranks orders) s) (order_key (collected_ranks orders) t)) ss;
  sc_keys : stage_key <$> all_stages (ws_lanes sch) = stage_key <$> (stamp orders <$> all_stages outs);
}.

Lemma finish_schedule_ok waves gate outs limits overlap orders :
  overlap_orders outs overlap = Some orders → NoDup (so_card <$> all_stages outs) →
  ∃ sch ss, finish_schedule waves gate outs limits overlap = Some sch ∧
    scheduled waves outs (max_wave_width limits) orders sch ss.
Proof.
  intros Hov Hnd. unfold finish_schedule.
  change (match overlap with Some inputs => _ | None => _ end) with (overlap_orders outs overlap).
  rewrite Hov. simpl. destruct (stamp_ranks_ok outs orders) as [Hall Hrs].
  destruct (stamp_ranks outs orders) as [outs1 rs]. simpl in Hall, Hrs.
  destruct (dispatch_order_ok outs1 rs) as (order & -> & Hperm & Hsorted). simpl.
  destruct (dispatched_places_ok outs1) as [Hplaces Hget].
  rewrite Hall, filter_fmap_dispatch in Hplaces.
  assert (Hss : stage_of outs1 <$> order ≡ₚ stamp orders <$> filter (λ s, is_dispatch s = true) (all_stages outs))
    by (by rewrite Hperm, Hplaces).
  assert (Hget' : ∀ p, p ∈ order → stage_at outs1 p = Some (stage_of outs1 p)).
  { intros p Hp. apply Hget. by rewrite <- Hperm. }
  assert (Hcard : ∀ l : list StageOutcome, so_card <$> (stamp orders <$> l) = so_card <$> l).
  { intros l. rewrite <- list_fmap_compose. apply list_fmap_ext. intros i s _. by destruct orders. }
  destruct (throttle_ok outs1 order (max_wave_width limits)) as (outs2 & -> & Hsel & Hkeys).
  - apply (NoDup_places outs1); [done|]. rewrite Hss, Hcard.
    by apply NoDup_fmap_filter.
  - intros p Hp. split; [by apply Hget'|].
    assert (stage_of outs1 p ∈ stage_of outs1 <$> order) as Hin by (by apply list_elem_of_fmap_2).
    rewrite Hss in Hin. rewrite <- filter_fmap_dispatch in Hin.
    by apply list_elem_of_filter in Hin as [? _].
  - simpl. rewrite Hsel. simpl. destruct (set_status_ok outs2) as (outs3 & -> & Hst). simpl.
    eexists _, (stage_of outs1 <$> order). split; [done|]. split; simpl; try done.
    + intros ->. rewrite Hrs in Hsorted. rewrite Hsorted, Hplaces. by rewrite list_fmap_id.
    + intros Hne. destruct orders as [|o orders]; [done|]. by rewrite Hrs in Hsorted.
    + by rewrite Hst, Hkeys, Hall.
Qed.
