(* ===== verification/WaveProps.v ===== *)
(** * Properties of schedules

    [Waves.plan_schedule_with_overlap] always answers; it dispatches exactly the eligible
    stages, up to the width limit; overlaps only reorder; and what is submitted together
    touches no common file. *)

From stdpp Require Import gmap strings list sorting.
From S2P Require Import Prelude RustStr BoardTypes Outcome Board OverlapOrder Waves BoardDeps BoardProps BoardAuthority WaveLevels WaveSched WavePlan.


(** ** Collected ranks *)

Lemma collected_snoc orders w : collected_ranks (orders ++ [w]) = ranks w ∪ collected_ranks orders.
Proof. unfold collected_ranks. by rewrite foldl_app. Qed.

Lemma collected_lookup orders w id r :
  w ∈ orders → ranks w !! id = Some r → (∀ w', w' ∈ orders → ranks w' !! id = None ∨ ranks w' !! id = Some r) →
  collected_ranks orders !! id = Some r.
Proof.
  induction orders as [|w' orders IH] using rev_ind; intros Hin Hr Hall; [by apply elem_of_nil in Hin|].
  rewrite collected_snoc. destruct (Hall w') as [Hn|Hs]; [set_solver| |].
  - rewrite lookup_union_r by done. apply IH; [|done|].
    + apply elem_of_app in Hin as [|Hin]; [done|]. apply list_elem_of_singleton in Hin as ->. congruence.
    + intros w'' Hw''. apply Hall. set_solver.
  - by apply lookup_union_Some_l.
Qed.

Lemma ranks_lookup w id r :
  NoDup (oc_card_id <$> wo_cards w) →
  ranks w !! id = Some r ↔ ∃ c, c ∈ wo_cards w ∧ oc_card_id c = id ∧ serial_rank c = r.
Proof.
  intros Hnd. unfold ranks. split.
  - intros Hr. destruct (decide (id ∈ oc_card_id <$> wo_cards w)) as [Hin|Hni].
    + apply list_elem_of_fmap in Hin as (c & -> & Hc). exists c. split_and!; [done..|].
      rewrite (foldl_insert_lookup oc_card_id serial_rank _ _ _ (serial_rank c)) in Hr.
      * rewrite bool_decide_true in Hr by (by apply list_elem_of_fmap_2). congruence.
      * intros x Hx Heq. f_equal. apply list_elem_of_lookup in Hx as [i Hi], Hc as [j Hj].
        assert (i = j) as <-; [|congruence]. eapply NoDup_lookup; [exact Hnd| |].
        -- by rewrite list_lookup_fmap, Hi.
        -- rewrite list_lookup_fmap, Hj. simpl. by rewrite Heq.
    + rewrite (foldl_insert_lookup oc_card_id serial_rank _ _ _ 0) in Hr.
      * rewrite bool_decide_false in Hr by done. by rewrite lookup_empty in Hr.
      * intros x Hx <-. exfalso. apply Hni. by apply list_elem_of_fmap_2.
  - intros (c & Hc & <- & <-).
    rewrite (foldl_insert_lookup oc_card_id serial_rank _ _ _ (serial_rank c)).
    + by rewrite bool_decide_true by (by apply list_elem_of_fmap_2).
    + intros x Hx Heq. f_equal. apply list_elem_of_lookup in Hx as [i Hi], Hc as [j Hj].
      assert (i = j) as <-; [|congruence]. eapply NoDup_lookup; [exact Hnd| |].
      * by rewrite list_lookup_fmap, Hi.
      * rewrite list_lookup_fmap, Hj. simpl. by rewrite Heq.
Qed.

(** ** The orders of the waves *)

(** The dispatched cards of wave [k], lane by lane. *)
Definition wave_ids (l : list StageOutcome) (k : nat) : list string :=
  so_card <$> filter (λ s, is_dispatch s = true ∧ so_wave s = k) l.

Lemma push_wave_cards l k :
  foldl push_wave_card ∅ l !! k = match wave_ids l k with [] => None | ids => Some ids end.
Proof.
  induction l as [|s l IH] using rev_ind; [done|]. rewrite foldl_app. simpl.
  unfold wave_ids. rewrite filter_app, fmap_app, filter_cons. unfold push_wave_card at 1.
  destruct (is_dispatch s) eqn:Hd.
  - destruct (decide (so_wave s = k)) as [Hk|Hk].
    + rewrite Hk, lookup_insert_eq, IH, decide_True by done. unfold wave_ids.
      by destruct (so_card <$> filter _ l).
    + rewrite lookup_insert_ne by done. rewrite decide_False by naive_solver. simpl.
      rewrite app_nil_r. exact IH.
  - rewrite decide_False by naive_solver. simpl. rewrite app_nil_r. exact IH.
Qed.

Lemma order_dispatch_ok outs inputs :
  ∃ orders, order_dispatch_by_wave outs inputs = Some orders ∧
    (∀ w, w ∈ orders →
       order_wave (wo_wave w) (wave_ids (all_stages outs) (wo_wave w)) inputs = Some w) ∧
    (∀ k, wave_ids (all_stages outs) k ≠ [] → ∃ w, w ∈ orders ∧ wo_wave w = k).
Proof.
  unfold order_dispatch_by_wave. set (m := foldl push_wave_card ∅ (all_stages outs)).
  destruct (mapM_total (λ p, order_wave p.1 p.2 inputs) (btree_list m)) as [orders Ho].
  { intros [k ids] _. simpl. destruct (order_wave_ok k ids inputs) as (cards & -> & _). by eexists. }
  exists orders. split; [exact Ho|]. apply mapM_Some in Ho.
  assert (Hm : ∀ k ids, (k, ids) ∈ btree_list m ↔ wave_ids (all_stages outs) k = ids ∧ ids ≠ []).
  { intros k ids. rewrite elem_of_btree_list. unfold m. rewrite push_wave_cards.
    destruct (wave_ids (all_stages outs) k); naive_solver. }
  split.
  - intros w Hw. apply list_elem_of_lookup in Hw as [i Hi].
    destruct (Forall2_lookup_r _ _ _ _ _ Ho Hi) as ([k ids] & Hk & Hord). simpl in Hord.
    apply list_elem_of_lookup_2, Hm in Hk as [Hids _].
    destruct (order_wave_ok k ids inputs) as (cards & Heq & _). pose proof Hord as Hord'.
    rewrite Heq in Hord'. injection Hord' as <-. simpl. by rewrite Hids.
  - intros k Hk. assert ((k, wave_ids (all_stages outs) k) ∈ btree_list m) as Hin by (by apply Hm).
    apply list_elem_of_lookup in Hin as [i Hi].
    destruct (Forall2_lookup_l _ _ _ _ _ Ho Hi) as (w & Hw & Hord). simpl in Hord.
    destruct (order_wave_ok k (wave_ids (all_stages outs) k) inputs) as (cards & Heq & _).
    rewrite Hord in Heq. injection Heq as ->. eexists. split; [by eapply list_elem_of_lookup_2|done].
Qed.

Lemma NoDup_wave_ids l k : NoDup (so_card <$> l) → NoDup (wave_ids l k).
Proof. apply NoDup_fmap_filter. Qed.

(** The collected ranks are those of each dispatched card in its own wave. *)
Lemma ranks_of_wave outs inputs orders k :
  NoDup (so_card <$> all_stages outs) → order_dispatch_by_wave outs inputs = Some orders →
  wave_ids (all_stages outs) k ≠ [] →
  ∃ cards, well_ranked inputs (wave_ids (all_stages outs) k) cards ∧
    ∀ u, u ∈ all_stages outs → is_dispatch u = true → so_wave u = k →
      ∃ i c, cards !! i = Some c ∧ oc_card_id c = so_card u
        ∧ collected_ranks orders !! so_card u = Some (serial_rank c).
Proof.
  intros Hnd Ho Hk. destruct (order_dispatch_ok outs inputs) as (orders' & Ho' & Hall & Hex).
  rewrite Ho in Ho'. injection Ho' as <-.
  assert (Huniq : ∀ u k, u ∈ all_stages outs → so_card u ∈ wave_ids (all_stages outs) k → so_wave u = k).
  { intros u k' Hu Hin. apply list_elem_of_fmap in Hin as (v & Hv & [[_ <-] Hv']%list_elem_of_filter).
    apply list_elem_of_lookup in Hu as [i Hi], Hv' as [j Hj].
    assert (i = j) as <-; [|congruence]. eapply NoDup_lookup; [exact Hnd| |].
    - by rewrite list_lookup_fmap, Hi.
    - rewrite list_lookup_fmap, Hj. simpl. by rewrite Hv. }
  assert (Hranked : ∀ w, w ∈ orders → ∃ cards, wo_cards w ≡ₚ cards
    ∧ well_ranked inputs (wave_ids (all_stages outs) (wo_wave w)) cards).
  { intros w Hwo. specialize (Hall w Hwo).
    destruct (order_wave_ok (wo_wave w) (wave_ids (all_stages outs) (wo_wave w)) inputs) as (cards & Heq & Hok).
    rewrite Hall in Heq. injection Heq as ->. simpl. exists cards. split; [apply sort_by_key_perm|done]. }
  assert (Hnds : ∀ w, w ∈ orders → NoDup (oc_card_id <$> wo_cards w)).
  { intros w Hwo. destruct (Hranked w Hwo) as (cards & Hp & Hok). rewrite Hp, (wr_ids _ _ _ Hok).
    by apply NoDup_wave_ids. }
  destruct (Hex k Hk) as (w & Hwo & Hwave). destruct (Hranked w Hwo) as (cards & Hp & Hok).
  rewrite Hwave in Hok. exists cards. split; [done|]. intros u Hu Hdu Huw.
  assert (so_card u ∈ wave_ids (all_stages outs) k) as Hin.
  { apply list_elem_of_fmap_2. by apply list_elem_of_filter. }
  rewrite <- (wr_ids _ _ _ Hok) in Hin. apply list_elem_of_fmap in Hin as (c & Hc & Hin).
  apply list_elem_of_lookup in Hin as [i Hi]. exists i, c. split_and!; [done..|].
  assert (Hrw : ranks w !! so_card u = Some (serial_rank c)).
  { apply ranks_lookup; [by apply Hnds|]. exists c. split_and!; [|done..]. rewrite Hp.
    by eapply list_elem_of_lookup_2. }
  apply (collected_lookup _ w); [done|done|]. intros w' Hw'.
  destruct (ranks w' !! so_card u) as [r'|] eqn:Hr'; [right|by left].
  pose proof Hr' as (c' & Hc' & Hid' & _)%ranks_lookup; [|by apply Hnds].
  assert (so_wave u = wo_wave w') as Hwave'.
  { apply Huniq; [done|]. destruct (Hranked w' Hw') as (cards' & Hp' & Hok').
    rewrite <- (wr_ids _ _ _ Hok'), <- Hp', <- Hid'. by apply list_elem_of_fmap_2. }
  assert (w' = w) as ->; [|congruence]. pose proof (Hall w' Hw') as H1. pose proof (Hall w Hwo) as H2.
  rewrite <- Hwave', Huw in H1. rewrite Hwave in H2. congruence.
Qed.

(** Dispatched cards with one collected place - wave and rank - have no file in common. *)
Lemma same_place_apart outs inputs orders s t :
  NoDup (so_card <$> all_stages outs) → order_dispatch_by_wave outs inputs = Some orders →
  s ∈ all_stages outs → t ∈ all_stages outs → is_dispatch s = true → is_dispatch t = true →
  so_card s ≠ so_card t →
  pair (so_wave s) <$> collected_ranks orders !! so_card s
    = pair (so_wave t) <$> collected_ranks orders !! so_card t →
  ¬ overlap inputs (so_card s) (so_card t).
Proof.
  intros Hnd Ho Hs Ht Hds Hdt Hne Heq.
  assert (Hids : ∀ u, u ∈ all_stages outs → is_dispatch u = true → wave_ids (all_stages outs) (so_wave u) ≠ []).
  { intros u Hu Hdu Hnil. assert (so_card u ∈ wave_ids (all_stages outs) (so_wave u)) as Hin.
    { apply list_elem_of_fmap_2. by apply list_elem_of_filter. }
    rewrite Hnil in Hin. by apply elem_of_nil in Hin. }
  destruct (ranks_of_wave outs inputs orders (so_wave s) Hnd Ho (Hids s Hs Hds)) as (cards & Hok & Hcol).
  destruct (Hcol s Hs Hds eq_refl) as (i & a & Ha & Haid & Har).
  destruct (ranks_of_wave outs inputs orders (so_wave t) Hnd Ho (Hids t Ht Hdt)) as (cards' & _ & Hcol').
  destruct (Hcol' t Ht Hdt eq_refl) as (_ & b' & _ & _ & Hbr'). rewrite Har, Hbr' in Heq.
  injection Heq as Hw Hr. destruct (Hcol t Ht Hdt (eq_sym Hw)) as (j & b & Hb & Hbid & Hbr).
  rewrite <- Haid, <- Hbid. intros Hov. assert (i ≠ j) as Hij by (intros <-; congruence).
  apply (wr_apart _ _ _ Hok i j a b Ha Hb Hij Hov). congruence.
Qed.

(** ** Groups *)

Lemma elem_of_concat {A} (l : list A) (ls : list (list A)) x : l ∈ ls → x ∈ l → x ∈ concat ls.
Proof.
  intros Hl Hx. induction ls as [|l' ls IH]; [by apply elem_of_nil in Hl|]. simpl.
  apply elem_of_app. apply elem_of_cons in Hl as [->|Hl]; [by left|right; by apply IH].
Qed.

Record groups_ok (keys : gmap string (nat * nat)) (ids : list string)
    (acc : list (list string) * option (nat * nat)) : Prop := {
  go_concat : concat acc.1 = ids;
  go_same g a b : g ∈ acc.1 → a ∈ g → b ∈ g → keys !! a = keys !! b;
  go_last g a : last acc.1 = Some g → a ∈ g → keys !! a = acc.2;
}.

Lemma group_step_ok keys ids acc id :
  groups_ok keys ids acc → groups_ok keys (ids ++ [id]) (group_step keys acc id).
Proof.
  intros [Hc Hs Hl]. unfold group_step.
  assert (Hfresh : groups_ok keys (ids ++ [id]) (acc.1 ++ [[id]], keys !! id)).
  { split; simpl.
    - rewrite concat_app, Hc. done.
    - intros g a b [Hg|Hg]%elem_of_app; [by eapply Hs|].
      apply list_elem_of_singleton in Hg as ->.
      by intros ->%list_elem_of_singleton ->%list_elem_of_singleton.
    - intros g a. rewrite last_snoc. intros [= <-] ->%list_elem_of_singleton. done. }
  destruct (last acc.1) as [g|] eqn:Hg; [|exact Hfresh].
  destruct (decide (acc.2 = keys !! id)) as [Hk|Hk];
    [rewrite (bool_decide_true _ Hk)|by rewrite (bool_decide_false _ Hk)].
  pose proof Hg as [pre Hpre]%last_Some.
  assert (alter (λ g, g ++ [id]) (length acc.1 - 1) acc.1 = pre ++ [g ++ [id]]) as Halt.
  { rewrite Hpre, length_app. simpl. rewrite Nat.add_sub, <- (Nat.add_0_r (length pre)).
    by rewrite alter_app_r. }
  assert (Hlast : ∀ a, a ∈ g ++ [id] → keys !! a = acc.2).
  { intros a [Ha| ->%list_elem_of_singleton]%elem_of_app; [|done].
    by apply (Hl g). }
  rewrite Halt. split; simpl.
  - rewrite concat_app. simpl. rewrite app_nil_r, app_assoc. f_equal.
    rewrite <- Hc, Hpre, concat_app. simpl. by rewrite app_nil_r.
  - intros g' a b [Hg'|Hg']%elem_of_app.
    + apply Hs. rewrite Hpre. by apply elem_of_app; left.
    + apply list_elem_of_singleton in Hg' as ->. intros Ha Hb. by rewrite (Hlast a Ha), (Hlast b Hb).
  - intros g' a. rewrite last_snoc. intros [= <-]. apply Hlast.
Qed.

Lemma submission_groups_ok s :
  concat (submission_groups s) = dispatch s ∧
  ∀ g a b, g ∈ submission_groups s → a ∈ g → b ∈ g → rank_keys s !! a = rank_keys s !! b.
Proof.
  unfold submission_groups. set (keys := rank_keys s). clearbody keys.
  assert (groups_ok keys (dispatch s) (foldl (group_step keys) ([], None) (dispatch s))) as [H1 H2 _]; [|by split].
  induction (dispatch s) as [|id ids IH] using rev_ind; [by split; [|intros ??? ?%elem_of_nil|]|].
  rewrite foldl_app. by apply group_step_ok.
Qed.

Lemma rank_keys_lookup s st :
  NoDup (so_card <$> all_stages (ws_lanes s)) → st ∈ all_stages (ws_lanes s) →
  rank_keys s !! so_card st = pair (so_wave st) <$> so_rank st.
Proof.
  unfold rank_keys. induction (all_stages (ws_lanes s)) as [|t l IH] using rev_ind; intros Hnd Hin;
    [by apply elem_of_nil in Hin|].
  rewrite fmap_app in Hnd. apply NoDup_app in Hnd as (Hnd & Hdisj & _). rewrite foldl_app. simpl.
  assert (Hne : ∀ k, (∃ u, u ∈ l ∧ so_card u = k) → so_card t ≠ k).
  { intros k (u & Hu & <-) Heq. apply (Hdisj (so_card u)); [by apply list_elem_of_fmap_2|].
    rewrite <- Heq. by left. }
  apply elem_of_app in Hin as [Hin|Hin].
  - rewrite <- (IH Hnd Hin). destruct (so_rank t); [|done]. rewrite lookup_insert_ne; [done|].
    apply Hne. eauto.
  - apply list_elem_of_singleton in Hin as ->. destruct (so_rank t) as [r|]; simpl; [by rewrite lookup_insert_eq|].
    clear IH. induction l as [|u l IH] using rev_ind; [done|]. rewrite foldl_app. simpl.
    rewrite fmap_app in Hnd, Hdisj. apply NoDup_app in Hnd as (Hnd & _ & _).
    assert (so_card u ≠ so_card t) by (intros Heq; symmetry in Heq; revert Heq; apply Hne; exists u; set_solver).
    destruct (so_rank u); [rewrite lookup_insert_ne by done|]; (apply IH; [done| |]).
    all: try (intros k Hk; apply Hdisj; set_solver).
    all: intros k (v & Hv & <-); apply Hne; exists v; set_solver.
Qed.

Section plans.
Context {Value Reply : Type}.
Abbreviation TBoard := (TaskBoard (Value := Value) (Reply := Reply)).
Implicit Types (b : TBoard).

(** ** Lanes *)

Lemma check_stages_ok b name placed stages placed' :
  check_stages b name placed stages = Ok placed' →
  placed' = list_to_set (ls_card <$> stages) ∪ placed ∧ NoDup (ls_card <$> stages) ∧
  ∀ id, id ∈ ls_card <$> stages → (id ∉ placed) ∧ is_Some (get_card id b).
Proof.
  revert placed. induction stages as [|st stages IH]; intros placed; simpl.
  { intros [= ->]. split_and!; [set_solver|constructor|by intros id ?%elem_of_nil]. }
  destruct (get_card (ls_card st) b) as [c|] eqn:Hc; [|done]. rewrite bool_decide_true by done.
  case_bool_decide as Hp; [done|]. intros (-> & Hnd & Hall)%IH. split_and!.
  - set_solver.
  - apply NoDup_cons. split; [|done]. intros Hin. apply Hall in Hin as [Hin _]. set_solver.
  - intros id [->|Hin]%elem_of_cons; [split; [done|by eexists]|].
    apply Hall in Hin as [Hin ?]. split; [set_solver|done].
Qed.

Lemma check_lanes_ok b limits nms placed lanes :
  check_lanes b limits nms placed lanes = Ok () →
  NoDup (lane_cards lanes) ∧ ∀ id, id ∈ lane_cards lanes → (id ∉ placed) ∧ is_Some (get_card id b).
Proof.
  revert nms placed. induction lanes as [|lane lanes IH]; intros nms placed.
  { intros _. split; [constructor|by intros id ?%elem_of_nil]. }
  cbn [check_lanes]. repeat (case_match; [done|]).
  intros (placed' & Hst & Hrest)%result_bind_Ok.
  apply check_stages_ok in Hst as (-> & Hnd & Hall). apply IH in Hrest as [Hnd' Hall'].
  unfold lane_cards. rewrite bind_cons. split.
  - apply NoDup_app. split_and!; [done| |done]. intros id Hid Hid'. apply Hall' in Hid' as [Hid' _].
    set_solver.
  - intros id [Hid|Hid]%elem_of_app; [by apply Hall|]. apply Hall' in Hid as [Hid ?].
    split; [set_solver|done].
Qed.

(** ** The gate in terms of levels *)

Lemma wave_of_lookup b waves level c :
  waves_of b waves level → NoDup (card_id <$> cards b) → c ∈ cards b →
  wave_of waves !! card_id c = Some (level (card_id c)).
Proof.
  intros Hw Hnd Hc. unfold wave_of.
  assert (Hin : ∀ k w id, waves !! k = Some w → id ∈ wave_cards w → level id = k).
  { intros k w id Hk. destruct (wv_cards _ _ _ Hw k w Hk) as (_ & _ & ->).
    intros (c' & -> & [? _]%list_elem_of_filter)%list_elem_of_fmap. done. }
  assert (∃ w, waves !! level (card_id c) = Some w ∧ card_id c ∈ wave_cards w) as (w & Hk & Hcw).
  { destruct (lookup_lt_is_Some_2 waves (level (card_id c))) as [w Hk]; [by apply (wv_bound _ _ _ Hw)|].
    exists w. split; [done|]. destruct (wv_cards _ _ _ Hw _ w Hk) as (_ & _ & ->).
    apply list_elem_of_fmap_2. by apply list_elem_of_filter. }
  assert (Hidx : ∀ k w, waves !! k = Some w → wave_index w = k) by (intros k w' Hw'; by apply (wv_cards _ _ _ Hw)).
  set (id := card_id c) in *. clearbody id. clear Hw Hc.
  assert (Hstep : ∀ (w : Wave) (m : gmap string nat), foldl (λ m id, <[id := wave_index w]> m) m (wave_cards w) !! id
    = if bool_decide (id ∈ wave_cards w) then Some (wave_index w) else m !! id).
  { intros w' m. rewrite (foldl_insert_lookup (λ x, x) (λ _, wave_index w') _ _ _ (wave_index w')) by done.
    by rewrite list_fmap_id. }
  assert (∀ l m, (∀ w, w ∈ l → ∃ k, waves !! k = Some w) → (m !! id = Some (level id) ∨ w ∈ l) →
    foldl (λ (m : gmap string nat) w, foldl (λ m id, <[id := wave_index w]> m) m (wave_cards w)) m l !! id
      = Some (level id)) as Hfold.
  { induction l as [|w' l IH]; intros m Hl Hor; simpl; [destruct Hor as [?|?%elem_of_nil]; done|].
    apply IH; [intros u Hu; apply Hl; by right|]. rewrite Hstep.
    destruct (Hl w') as [k' Hk']; [by left|].
    destruct (decide (id ∈ wave_cards w')) as [Hid|Hid].
    - left. rewrite bool_decide_true by done. f_equal. rewrite (Hidx _ _ Hk'). symmetry. by eapply Hin.
    - rewrite bool_decide_false by done. destruct Hor as [?|[->|?]%elem_of_cons]; [by left|done|by right]. }
  apply Hfold; [intros u Hu; by apply list_elem_of_lookup in Hu|right; by eapply list_elem_of_lookup_2].
Qed.

(** The gate lets a wave through when all required cards below it are done. *)
Definition below_done b (optional : gset string) (level : string → nat) (k : nat) : Prop :=
  ∀ c, c ∈ cards b → level (card_id c) < k → card_id c ∈ optional ∨ column c = "done".

Lemma find_card_unique (cs : list (BoardCard Value)) c :
  NoDup (card_id <$> cs) → c ∈ cs → find_card (card_id c) cs = Some c.
Proof.
  intros Hnd Hc. destruct (find_card (card_id c) cs) as [c'|] eqn:Hf.
  - apply find_card_Some in Hf as [Hc' Heq]. f_equal.
    apply list_elem_of_lookup in Hc as [i Hi], Hc' as [j Hj].
    assert (i = j) as <-; [|congruence]. eapply NoDup_lookup; [exact Hnd| |].
    + by rewrite list_lookup_fmap, Hi.
    + rewrite list_lookup_fmap, Hj. simpl. by rewrite Heq.
  - exfalso. unfold find_card in Hf. apply fmap_None, list_find_None in Hf.
    rewrite Forall_forall in Hf. by apply (Hf c).
Qed.

Lemma column_of_card b c : NoDup (card_id <$> cards b) → c ∈ cards b → column_of b (card_id c) = column c.
Proof. intros Hnd Hc. unfold column_of, get_card. by rewrite find_card_unique. Qed.

Lemma gate_admits_iff b waves level optional k :
  waves_of b waves level → NoDup (card_id <$> cards b) → k < length waves →
  gate_admits (wave_gate b waves optional) k ↔ below_done b optional level k.
Proof.
  intros Hw Hnd Hk. split.
  - intros Hg c Hc Hlt. destruct (decide (card_id c ∈ optional)) as [|Hopt]; [by left|right].
    destruct (lookup_lt_is_Some_2 waves (level (card_id c))) as [w Hwk]; [by apply (wv_bound _ _ _ Hw)|].
    rewrite <- (column_of_card b c) by done. eapply gate_below; [exact Hg|exact Hlt|exact Hwk| |done].
    destruct (wv_cards _ _ _ Hw _ w Hwk) as (_ & _ & ->).
    apply list_elem_of_fmap_2. by apply list_elem_of_filter.
  - intros Hb.
    assert (Hids : ∀ j w id, waves !! j = Some w → j < k → id ∈ wave_cards w → id ∈ optional ∨ column_of b id = "done").
    { intros j w id Hj Hjk. destruct (wv_cards _ _ _ Hw j w Hj) as (_ & _ & ->).
      intros (c & -> & [Hl Hc]%list_elem_of_filter)%list_elem_of_fmap. rewrite column_of_card by done.
      apply Hb; [done|lia]. }
    assert (Hh : ∀ j w, waves !! j = Some w → j < k → wave_holding b optional w = []).
    { intros j w Hj Hjk. apply filter_none. intros id Hid. destruct (Hids j w id Hj Hjk Hid) as [Ho| ->].
      - by rewrite bool_decide_true.
      - by rewrite andb_false_r. }
    assert (Hf : ∀ j w, waves !! j = Some w → j < k → wave_failed b optional w = []).
    { intros j w Hj Hjk. apply filter_none. intros id Hid. destruct (Hids j w id Hj Hjk Hid) as [Ho| ->].
      - by rewrite bool_decide_true.
      - by rewrite andb_false_r. }
    unfold gate_admits, wave_gate. simpl. split.
    + destruct (position nonempty (wave_holding b optional <$> waves)) as [f|] eqn:Hp; simpl; [|lia].
      apply position_Some in Hp as [(l & Hl & Hne) _]. rewrite list_lookup_fmap in Hl.
      apply fmap_Some in Hl as (w & Hwf & ->). destruct (decide (f < k)) as [Hlt|]; [|lia].
      by rewrite (Hh f w Hwf Hlt) in Hne.
    + intros f Hp. apply position_Some in Hp as [(l & Hl & Hne) _]. rewrite list_lookup_fmap in Hl.
      apply fmap_Some in Hl as (w & Hwf & ->). destruct (decide (f < k)) as [Hlt|]; [|lia].
      by rewrite (Hf f w Hwf Hlt) in Hne.
Qed.

(** ** Plans *)

(** The stage of [lane] at [pos] may be submitted now. *)
Record eligible_at b (lanes : list Lane) (level : string → nat) (lane : Lane) (pos : nat) (st : LaneStage) : Prop := {
  el_lane : lane ∈ lanes;
  el_stage : lane_stages lane !! pos = Some st;
  el_turn : its_turn b lane pos st;
  el_gate : below_done b (optional_cards lanes) level (level (ls_card st));
}.
Definition eligible b lanes level (id : string) : Prop :=
  ∃ lane pos st, eligible_at b lanes level lane pos st ∧ ls_card st = id.

Lemma elem_of_lane_places lanes lane pos st :
  (lane, (pos, st)) ∈ lane_places lanes ↔ lane ∈ lanes ∧ lane_stages lane !! pos = Some st.
Proof.
  unfold lane_places. rewrite list_elem_of_bind. split.
  - intros (lane' & Hin & Hl). apply list_elem_of_fmap in Hin as (q & [= -> <-] & Hq).
    split; [done|]. apply list_elem_of_lookup in Hq as [i Hi]. rewrite list_lookup_imap in Hi.
    by apply fmap_Some in Hi as (st' & Hst & [= -> ->]).
  - intros [Hl Hst]. exists lane. split; [|done]. apply list_elem_of_fmap_2, list_elem_of_lookup.
    exists pos. by rewrite list_lookup_imap, Hst.
Qed.

(** A successful plan, taken apart. *)
Lemma plan_cases b lanes limits overlap :
  ∃ r, plan_schedule_with_overlap b lanes limits overlap = Some r ∧
    match r with
    | Err e => derive_waves b = Some (Err e)
        ∨ ((∃ waves, derive_waves b = Some (Ok waves)) ∧ validate_lanes b lanes limits = Err e)
    | Ok sch => ∃ waves level outs orders ss,
        valid_dependencies (cards b) ∧ derive_waves b = Some (Ok waves) ∧ waves_of b waves level
        ∧ validate_lanes b lanes limits = Ok ()
        ∧ mapM (lane_outcome b (wave_gate b waves (optional_cards lanes)) (wave_of waves)) lanes = Some outs
        ∧ Forall2 (λ q, stage_decided b (wave_gate b waves (optional_cards lanes)) (wave_of waves) q.1 q.2)
            (lane_places lanes) (all_stages outs)
        ∧ NoDup (so_card <$> all_stages outs)
        ∧ overlap_orders outs overlap = Some orders
        ∧ scheduled waves outs (max_wave_width limits) orders sch ss
    end.
Proof.
  unfold plan_schedule_with_overlap. destruct (validate_dependencies_spec b) as (v & Hv & Hok).
  destruct v as [[]|e].
  2: { exists (Err e). unfold derive_waves. rewrite Hv. simpl. split; [done|by left]. }
  pose proof (proj1 Hok eq_refl) as Hvalid.
  destruct (derive_waves_valid b Hv) as (waves & level & Hd & Hw). rewrite Hd. simpl.
  destruct (validate_lanes b lanes limits) as [[]|e] eqn:Hl;
    [|exists (Err e); split; [done|right; split; [by exists waves|done]]].
  destruct (lane_outcomes_ok b waves (optional_cards lanes) (wave_of waves) lanes) as (outs & Houts & Hall).
  rewrite Houts. simpl.
  assert (NoDup (so_card <$> all_stages outs)) as Hnd.
  { assert (so_card <$> all_stages outs = lane_cards lanes) as ->.
    { rewrite <- lane_places_cards. symmetry. clear -Hall.
      induction Hall as [|q s qs ss Hq _ IH]; [done|]. rewrite !fmap_cons, IH. f_equal.
      by rewrite (sd_card _ _ _ _ _ _ Hq). }
    by apply check_lanes_ok in Hl as [? _]. }
  assert (∃ orders, overlap_orders outs overlap = Some orders) as [orders Ho].
  { unfold overlap_orders. destruct overlap as [inputs|]; [|eauto]. destruct (inputs_empty inputs); [eauto|].
    destruct (order_dispatch_ok outs inputs) as (orders & -> & _). eauto. }
  destruct (finish_schedule_ok waves (wave_gate b waves (optional_cards lanes)) outs limits overlap orders Ho Hnd)
    as (sch & ss & Hf & Hs).
  rewrite Hf. simpl. exists (Ok sch). split; [done|]. exists waves, level, outs, orders, ss. done.
Qed.

Lemma dispatched_eligible b waves level outs lanes id :
  valid_dependencies (cards b) → waves_of b waves level→
  (∀ id, id ∈ lane_cards lanes → is_Some (get_card id b)) →
  Forall2 (λ q, stage_decided b (wave_gate b waves (optional_cards lanes)) (wave_of waves) q.1 q.2)
    (lane_places lanes) (all_stages outs) →
  id ∈ so_card <$> filter (λ s, is_dispatch s = true) (all_stages outs) ↔ eligible b lanes level id.
Proof.
  intros [Hnd Hwf _] Hw Hcards Hall.
  assert (Hwave : ∀ lane pos st s, (lane, (pos, st)) ∈ lane_places lanes →
    stage_decided b (wave_gate b waves (optional_cards lanes)) (wave_of waves) lane (pos, st) s →
    so_card s = ls_card st ∧ (is_dispatch s = true ↔
      below_done b (optional_cards lanes) level (level (ls_card st)) ∧ its_turn b lane pos st)).
  { intros lane pos st s Hin Hd. split; [apply Hd|]. unfold is_dispatch. rewrite bool_decide_eq_true.
    rewrite (sd_dispatch _ _ _ _ _ _ Hd), (sd_wave _ _ _ _ _ _ Hd). simpl.
    destruct (Hcards (ls_card st)) as [c Hc].
    { rewrite <- lane_places_cards. by apply (list_elem_of_fmap_2 (λ q, ls_card q.2.2) _ (lane, (pos, st))). }
    apply find_card_Some in Hc as [Hc <-]. rewrite (wave_of_lookup b waves level c Hw Hnd Hc). simpl.
    rewrite gate_admits_iff; [done..|]. by apply (wv_bound _ _ _ Hw). }
  rewrite list_elem_of_fmap. setoid_rewrite list_elem_of_filter. split.
  - intros (s & -> & Hd & Hs). apply list_elem_of_lookup in Hs as [i Hi].
    destruct (Forall2_lookup_r _ _ _ _ _ Hall Hi) as ([lane [pos st]] & Hq & Hdec). simpl in Hdec.
    apply list_elem_of_lookup_2 in Hq. destruct (Hwave lane pos st s Hq Hdec) as [Hcard Hiff].
    apply Hiff in Hd as [Hb Ht]. apply elem_of_lane_places in Hq as [Hl Hst].
    exists lane, pos, st. split; [by split|done].
  - intros (lane & pos & st & [Hl Hst Ht Hb] & <-).
    assert ((lane, (pos, st)) ∈ lane_places lanes) as Hq by (by apply elem_of_lane_places).
    pose proof Hq as [i Hi]%list_elem_of_lookup.
    destruct (Forall2_lookup_l _ _ _ _ _ Hall Hi) as (s & Hs & Hdec). simpl in Hdec.
    destruct (Hwave lane pos st s Hq Hdec) as [Hcard Hiff]. exists s. split; [done|].
    split; [by apply Hiff|by eapply list_elem_of_lookup_2].
Qed.

Lemma plan_eligible b lanes limits overlap sch :
  plan_schedule_with_overlap b lanes limits overlap = Some (Ok sch) →
  ∃ level el, valid_dependencies (cards b) ∧ waves_of b (ws_waves sch) level
    ∧ (∀ id, id ∈ lane_cards lanes → is_Some (get_card id b))
    ∧ NoDup el ∧ dispatch sch = take (max_wave_width limits) el ∧ ∀ id, id ∈ el ↔ eligible b lanes level id.
Proof.
  intros Hplan. destruct (plan_cases b lanes limits overlap) as (r & Hr & Hcase). rewrite Hplan in Hr.
  injection Hr as <-. destruct Hcase as (waves & level & outs & orders & ss & Hvalid & _ & Hw & Hl & _ & Hall & Hnd & _ & Hs).
  exists level, (so_card <$> ss). apply check_lanes_ok in Hl as [_ Hcards].
  assert (Hperm : so_card <$> ss ≡ₚ so_card <$> filter (λ s, is_dispatch s = true) (all_stages outs)).
  { rewrite (sc_perm _ _ _ _ _ _ Hs), <- list_fmap_compose.
    apply reflexive_eq, list_fmap_ext. intros i s _. by destruct orders. }
  assert (Hget : ∀ id, id ∈ lane_cards lanes → is_Some (get_card id b)) by (intros id Hid; by apply Hcards).
  split_and!.
  - done.
  - by rewrite (sc_waves _ _ _ _ _ _ Hs).
  - done.
  - rewrite Hperm. by apply NoDup_fmap_filter.
  - by rewrite (sc_dispatch _ _ _ _ _ _ Hs), fmap_take.
  - intros id. rewrite Hperm. by eapply (dispatched_eligible b waves).
Qed.

(** ** Theorems *)

(** C20. Planning a schedule always answers: the lane cursors, the dependency search and the
    ranking end, no index is out of range, no count underflows and the arm the code calls
    unreachable is; an error is the board's or the lanes' own validation error. *)
Theorem schedule_is_total b lanes limits overlap :
  ∃ r, plan_schedule_with_overlap b lanes limits overlap = Some r ∧
    match r with
    | Ok sch => derive_waves b = Some (Ok (ws_waves sch)) ∧ validate_lanes b lanes limits = Ok ()
    | Err e => derive_waves b = Some (Err e)
        ∨ ((∃ waves, derive_waves b = Some (Ok waves)) ∧ validate_lanes b lanes limits = Err e)
    end.
Proof.
  destruct (plan_cases b lanes limits overlap) as ([sch|e] & Hr & Hc); [|by eexists].
  destruct Hc as (waves & level & outs & orders & ss & _ & Hd & _ & Hl & _ & _ & _ & _ & Hs).
  exists (Ok sch). split; [done|]. by rewrite (sc_waves _ _ _ _ _ _ Hs).
Qed.

(** C21. A schedule dispatches exactly the eligible stages, up to the width limit: the cards
    that are not finished, whose lane - if it runs one stage at a time - has all earlier
    stages done, and for which every required card of a lower dependency level is done. *)
Theorem dispatch_is_exact b lanes limits overlap sch :
  plan_schedule_with_overlap b lanes limits overlap = Some (Ok sch) →
  ∃ level el, waves_of b (ws_waves sch) level ∧ NoDup el ∧
    dispatch sch = take (max_wave_width limits) el ∧ ∀ id, id ∈ el ↔ eligible b lanes level id.
Proof.
  intros (level & el & _ & Hw & _ & Hnd & Hd & Hel)%plan_eligible. by exists level, el.
Qed.

(** No card is submitted before what it depends on: a dispatched card is on the board and
    unfinished, and each of its dependencies is done or was placed as optional. *)
Lemma dispatch_respects_dependencies b lanes limits overlap sch id :
  plan_schedule_with_overlap b lanes limits overlap = Some (Ok sch) → id ∈ dispatch sch →
  ∃ c, get_card id b = Some c ∧ is_terminal_column (column c) = false ∧
    ∀ d, d ∈ depends_on c → d ∈ optional_cards lanes ∨ ∃ c', get_card d b = Some c' ∧ column c' = "done".
Proof.
  intros (level & el & [Hndc Hwf _] & Hw & Hcards & _ & Hd & Hel)%plan_eligible Hin.
  rewrite Hd in Hin. apply (subseteq_take (max_wave_width limits)) in Hin.
  apply Hel in Hin as (lane & pos & st & [Hl Hst [Ht _] Hb] & <-).
  destruct (Hcards (ls_card st)) as [c Hc].
  { apply list_elem_of_bind. exists lane. split; [|done]. apply list_elem_of_fmap_2.
    by eapply list_elem_of_lookup_2. }
  exists c. split; [done|]. unfold column_of in Ht. rewrite Hc in Ht. simpl in Ht. split; [done|].
  apply find_card_Some in Hc as [Hc Hid]. intros d Hdep.
  pose proof (wv_above _ _ _ Hw c d Hc Hdep) as Hlt. rewrite Hid in Hlt.
  apply (wf_exist _ _ (Hwf c Hc)) in Hdep. apply list_elem_of_fmap in Hdep as (c' & -> & Hc').
  destruct (Hb c' Hc' Hlt) as [?|?]; [by left|right]. exists c'. split; [|done].
  by apply find_card_unique.
Qed.

(** C22. Ordering by overlap can only reorder: it answers when the plain schedule does, over the
    same waves, and both dispatch a prefix, cut at the width limit, of the same cards; when
    it ordered anything, the cards go wave by wave. *)
Theorem overlap_only_reorders b lanes limits inputs sch :
  plan_schedule b lanes limits = Some (Ok sch) →
  ∃ sch' el el' level, plan_schedule_with_overlap b lanes limits (Some inputs) = Some (Ok sch') ∧
    ws_waves sch' = ws_waves sch ∧ el ≡ₚ el' ∧
    dispatch sch = take (max_wave_width limits) el ∧ dispatch sch' = take (max_wave_width limits) el' ∧
    waves_of b (ws_waves sch) level ∧
    (overlap_order sch' = [] → el' = el) ∧
    (overlap_order sch' ≠ [] → StronglySorted (λ x y, level x ≤ level y) el').
Proof.
  intros Hplan. unfold plan_schedule in Hplan.
  destruct (plan_cases b lanes limits None) as (r & Hr & Hc). rewrite Hplan in Hr. injection Hr as <-.
  destruct Hc as (waves & level & outs & orders & ss & Hv & Hd & Hw & Hl & Ho & Hall & Hnd & Hov & Hs).
  simpl in Hov. injection Hov as <-.
  destruct (plan_cases b lanes limits (Some inputs)) as (r & Hr & Hc).
  destruct r as [sch'|e]; [|destruct Hc as [Hc|[_ Hc]]; congruence].
  destruct Hc as (waves' & level' & outs' & orders & ss' & _ & Hd' & _ & _ & Ho' & _ & _ & Hov & Hs').
  rewrite Hd in Hd'. injection Hd' as <-. rewrite Ho in Ho'. injection Ho' as <-.
  assert (Hids : ∀ l : list StageOutcome, so_card <$> (stamp orders <$> l) = so_card <$> l).
  { intros l. rewrite <- list_fmap_compose. apply list_fmap_ext. intros i s _. by destruct orders. }
  exists sch', (so_card <$> ss), (so_card <$> ss'), level.
  rewrite (sc_waves _ _ _ _ _ _ Hs), (sc_waves _ _ _ _ _ _ Hs'), (sc_orders _ _ _ _ _ _ Hs').
  split_and!; [done|done| |by rewrite (sc_dispatch _ _ _ _ _ _ Hs), fmap_take
    |by rewrite (sc_dispatch _ _ _ _ _ _ Hs'), fmap_take|done| |].
  - rewrite (sc_lane_order _ _ _ _ _ _ Hs eq_refl), (sc_perm _ _ _ _ _ _ Hs'). by rewrite Hids.
  - intros Hnil. by rewrite (sc_lane_order _ _ _ _ _ _ Hs eq_refl), (sc_lane_order _ _ _ _ _ _ Hs' Hnil).
  - intros Hne. apply StronglySorted_fmap.
    assert (Hlev : ∀ s, s ∈ ss' → so_wave s = level (so_card s)).
    { intros s Hin. rewrite (sc_perm _ _ _ _ _ _ Hs') in Hin.
      apply list_elem_of_fmap in Hin as (s0 & -> & [_ Hin]%list_elem_of_filter).
      assert (so_wave (stamp orders s0) = so_wave s0 ∧ so_card (stamp orders s0) = so_card s0) as [-> ->]
        by (by destruct orders).
      apply list_elem_of_lookup in Hin as [i Hi].
      destruct (Forall2_lookup_r _ _ _ _ _ Hall Hi) as ([lane [pos st]] & Hq & Hdec). simpl in Hdec.
      rewrite (sd_wave _ _ _ _ _ _ Hdec), (sd_card _ _ _ _ _ _ Hdec). simpl.
      destruct (check_lanes_ok b limits _ _ _ Hl) as [_ Hcards].
      destruct (Hcards (ls_card st)) as [_ [c Hc]].
      { rewrite <- lane_places_cards. apply (list_elem_of_fmap_2 (λ q, ls_card q.2.2) _ (lane, (pos, st))).
        by eapply list_elem_of_lookup_2. }
      apply find_card_Some in Hc as [Hc <-]. by rewrite (wave_of_lookup b waves level c Hw (vd_ids _ Hv) Hc). }
    pose proof (sc_sorted _ _ _ _ _ _ Hs' Hne) as Hsort. clear -Hsort Hlev.
    induction Hsort as [|s l _ IH Hle]; constructor.
    + apply IH. intros t Ht. apply Hlev. by right.
    + rewrite Forall_forall in *. intros t Ht. specialize (Hle t Ht).
      rewrite <- !Hlev by (by left || by right).
      unfold rle, order_key in Hle. rewrite rcmp_pair in Hle. unfold rcmp, nat_ord in Hle.
      destruct (Nat.compare_spec (so_wave s) (so_wave t)); simpl in Hle; [lia|lia|done].
Qed.

(** The submission groups of a schedule are its dispatch list cut into pieces, and two cards
    of one group are neither declared to touch nor were seen to write a common file. *)
Lemma groups_touch_no_common_file b lanes limits inputs sch :
  plan_schedule_with_overlap b lanes limits (Some inputs) = Some (Ok sch) →
  concat (submission_groups sch) = dispatch sch ∧
  ∀ g x y, g ∈ submission_groups sch → x ∈ g → y ∈ g → x ≠ y → ¬ overlap inputs x y.
Proof.
  intros Hplan. destruct (submission_groups_ok sch) as [Hcat Hsame]. split; [done|].
  destruct (plan_cases b lanes limits (Some inputs)) as (r & Hr & Hc). rewrite Hplan in Hr. injection Hr as <-.
  destruct Hc as (waves & level & outs & orders & ss & _ & _ & _ & _ & _ & _ & Hnd & Hov & Hs).
  intros g x y Hg Hx Hy Hne. specialize (Hsame g x y Hg Hx Hy). simpl in Hov.
  destruct (inputs_empty inputs) eqn:Hempty; [by apply inputs_empty_apart|].
  assert (Hcards : so_card <$> all_stages (ws_lanes sch) = so_card <$> all_stages outs).
  { pose proof (f_equal (fmap fst) (sc_keys _ _ _ _ _ _ Hs)) as Hk.
    rewrite <- !list_fmap_compose in Hk. rewrite (list_fmap_ext (fst ∘ stage_key) so_card) in Hk by done.
    rewrite Hk. apply list_fmap_ext. intros i s _. by destruct orders. }
  assert (Hin : ∀ z, z ∈ g → ∃ s, s ∈ all_stages outs ∧ is_dispatch s = true ∧ so_card s = z
    ∧ rank_keys sch !! z = pair (so_wave s) <$> so_rank (stamp orders s)).
  { intros z Hz. assert (z ∈ dispatch sch) as Hd.
    { rewrite <- Hcat. by apply (elem_of_concat g). }
    rewrite (sc_dispatch _ _ _ _ _ _ Hs) in Hd. apply list_elem_of_fmap in Hd as (s' & -> & Hd).
    apply (subseteq_take (max_wave_width limits)) in Hd. rewrite (sc_perm _ _ _ _ _ _ Hs) in Hd.
    apply list_elem_of_fmap in Hd as (s & -> & [Hds Hd]%list_elem_of_filter).
    assert (so_card (stamp orders s) = so_card s ∧ so_wave (stamp orders s) = so_wave s) as [Hsc Hsw]
      by (by destruct orders).
    exists s. split_and!; [done..|].
    assert (stage_key (stamp orders s) ∈ stage_key <$> all_stages (ws_lanes sch)) as Hk.
    { rewrite (sc_keys _ _ _ _ _ _ Hs). by do 2 apply list_elem_of_fmap_2. }
    apply list_elem_of_fmap in Hk as (st & [= H1 H2 H3] & Hst). rewrite <- Hsw, H3, H2, H1.
    apply rank_keys_lookup; [by rewrite Hcards|done]. }
  destruct (Hin x Hx) as (s & Hs1 & Hs2 & <- & Hs4). destruct (Hin y Hy) as (t & Ht1 & Ht2 & <- & Ht4).
  rewrite Hs4, Ht4 in Hsame. apply (same_place_apart outs inputs orders); try done.
  destruct orders as [|o orders]; [|exact Hsame]. exfalso.
  destruct (order_dispatch_ok outs inputs) as (orders' & Ho & _ & Hex). rewrite Hov in Ho. injection Ho as <-.
  destruct (Hex (so_wave s)) as (w & Hw & _); [|by apply elem_of_nil in Hw].
  intros Hnil. assert (so_card s ∈ wave_ids (all_stages outs) (so_wave s)) as Hin'.
  { apply list_elem_of_fmap_2. by apply list_elem_of_filter. }
  rewrite Hnil in Hin'. by apply elem_of_nil in Hin'.
Qed.

(** A schedule makes progress: when no card has failed, some required card is unfinished,
    every unfinished required card is placed in a parallel lane and at least one card may be
    submitted, something is dispatched. *)
Lemma schedule_progresses b lanes limits overlap sch :
  plan_schedule_with_overlap b lanes limits overlap = Some (Ok sch) →
  1 ≤ max_wave_width limits →
  (∀ c, c ∈ cards b → is_failed_column (column c) = false) →
  (∀ c, c ∈ cards b → column c ≠ "done" → card_id c ∉ optional_cards lanes →
     ∃ lane st, lane ∈ lanes ∧ lane_kind lane = Parallel ∧ st ∈ lane_stages lane ∧ ls_card st = card_id c) →
  (∃ c, c ∈ cards b ∧ column c ≠ "done" ∧ (card_id c ∉ optional_cards lanes)) →
  dispatch sch ≠ [].
Proof.
  intros (level & el & [Hndc _ _] & Hw & _ & _ & Hd & Hel)%plan_eligible Hwidth Hnf Hplaced (c0 & Hc0 & Hn0 & Ho0).
  assert (∃ c, c ∈ cards b ∧ column c ≠ "done" ∧ (card_id c ∉ optional_cards lanes)
    ∧ below_done b (optional_cards lanes) level (level (card_id c))) as (c & Hc & Hn & Ho & Hb).
  { remember (level (card_id c0)) as n eqn:Hlev. revert c0 Hc0 Hn0 Ho0 Hlev.
    induction (lt_wf n) as [n _ IH]. intros c0 Hc0 Hn0 Ho0 ->.
    destruct (decide (Exists (λ c, level (card_id c) < level (card_id c0) ∧ (card_id c ∉ optional_cards lanes)
      ∧ column c ≠ "done") (cards b))) as [Hex|Hno].
    - apply Exists_exists in Hex as (c & Hc & Hlt & Ho & Hn). by apply (IH _ Hlt c).
    - exists c0. split_and!; [done..|]. intros c Hc Hlt.
      destruct (decide (card_id c ∈ optional_cards lanes)); [by left|right].
      destruct (decide (column c = "done")); [done|]. exfalso. apply Hno, Exists_exists. by exists c. }
  destruct (Hplaced c Hc Hn Ho) as (lane & st & Hl & Hk & Hst & Hid).
  apply list_elem_of_lookup in Hst as [pos Hst].
  assert (card_id c ∈ el) as Hin.
  { apply Hel. exists lane, pos, st. split; [|done]. split; [done|done| |by rewrite Hid].
    split; [|by rewrite Hk]. rewrite Hid, column_of_card by done.
    destruct (is_terminal_column (column c)) eqn:Ht; [|done]. exfalso. apply Hn.
    apply terminal_not_failed; [done|by apply Hnf]. }
  rewrite Hd. destruct el as [|x el]; [by apply elem_of_nil in Hin|].
  destruct (max_wave_width limits); [lia|done].
Qed.
End plans.

(** ** Schedules on a concrete board

    Four independent cards and one that waits for them, planned in two lanes. *)


Definition fan : board0 := upd_cards [
  mk_card "a" "done" [] None; mk_card "b" "planned" [] None; mk_card "c" "planned" [] None;
  mk_card "d" "planned" [] None; mk_card "e" "planned" ["a"; "b"; "c"] None] chain.

Definition stage (id : string) : LaneStage := {| ls_card := id; ls_agent := None; ls_optional := false |}.
Definition lane_of (name : string) (k : LaneKind) (ids : list string) : Lane := {|
  lane_name := name; lane_kind := k; lane_stages := stage <$> ids; lane_optional := false |}.
Definition fan_lanes : list Lane := [
  lane_of "one by one" Sequential ["a"; "b"]; lane_of "at once" Parallel ["c"; "d"; "e"]].
Definition roomy : WaveLimits := {| max_wave_width := 8; max_pipeline_depth := 4 |}.
Definition same_file : OverlapInputs :=
  observe_files "d" ["/r/x.rs"] (observe_files "b" ["/r/x.rs"] no_inputs).

Definition plain_plan : WaveSchedule :=
  match plan_schedule fan fan_lanes roomy with Some (Ok s) => s | _ => {|
    ws_waves := []; admitted_wave := None; ws_lanes := []; dispatch := []; overlap_order := [] |} end.
Definition ordered_plan : WaveSchedule :=
  match plan_schedule_with_overlap fan fan_lanes roomy (Some same_file) with Some (Ok s) => s | _ => plain_plan end.

Lemma plain_plan_eq : plan_schedule fan fan_lanes roomy = Some (Ok plain_plan).
Proof. by vm_compute. Qed.
Lemma ordered_plan_eq : plan_schedule_with_overlap fan fan_lanes roomy (Some same_file) = Some (Ok ordered_plan).
Proof. by vm_compute. Qed.
Lemma plain_dispatch : dispatch plain_plan = ["b"; "c"; "d"].
Proof. by vm_compute. Qed.
Lemma ordered_groups : submission_groups ordered_plan = [["b"; "c"]; ["d"]].
Proof. by vm_compute. Qed.

Lemma dispatch_is_exact_witness :
  ∃ level el, waves_of fan (ws_waves plain_plan) level ∧ NoDup el ∧
    dispatch plain_plan = take 8 el ∧ ∀ id, id ∈ el ↔ eligible fan fan_lanes level id.
Proof. exact (dispatch_is_exact fan fan_lanes roomy None plain_plan plain_plan_eq). Defined.

Lemma dispatch_respects_dependencies_witness :
  ∃ c, get_card "b" fan = Some c ∧ is_terminal_column (column c) = false ∧
    ∀ d, d ∈ depends_on c → d ∈ optional_cards fan_lanes ∨ ∃ c', get_card d fan = Some c' ∧ column c' = "done".
Proof.
  apply (dispatch_respects_dependencies fan fan_lanes roomy None plain_plan "b" plain_plan_eq).
  rewrite plain_dispatch. by left.
Defined.

Lemma overlap_only_reorders_witness :
  ∃ sch' el el' level, plan_schedule_with_overlap fan fan_lanes roomy (Some same_file) = Some (Ok sch') ∧
    ws_waves sch' = ws_waves plain_plan ∧ el ≡ₚ el' ∧
    dispatch plain_plan = take 8 el ∧ dispatch sch' = take 8 el' ∧
    waves_of fan (ws_waves plain_plan) level ∧
    (overlap_order sch' = [] → el' = el) ∧
    (overlap_order sch' ≠ [] → StronglySorted (λ x y, level x ≤ level y) el').
Proof. exact (overlap_only_reorders fan fan_lanes roomy same_file plain_plan plain_plan_eq). Defined.

Lemma groups_touch_no_common_file_witness :
  concat [["b"; "c"]; ["d"]] = dispatch ordered_plan ∧ ¬ overlap same_file "b" "c".
Proof.
  destruct (groups_touch_no_common_file fan fan_lanes roomy same_file ordered_plan ordered_plan_eq) as [H1 H2].
  rewrite ordered_groups in H1, H2. split; [exact H1|].
  apply (H2 ["b"; "c"]); [by left|by left|right; by left|done].
Defined.

Lemma schedule_progresses_witness :
  dispatch (match plan_schedule fan [lane_of "all" Parallel ["b"; "c"; "d"; "e"]] roomy with
            | Some (Ok s) => s | _ => plain_plan end) ≠ [].
Proof.
  apply (schedule_progresses fan [lane_of "all" Parallel ["b"; "c"; "d"; "e"]] roomy None).
  - by vm_compute.
  - simpl. lia.
  - intros c Hc. repeat (apply elem_of_cons in Hc as [->|Hc]; [done|]). by apply elem_of_nil in Hc.
  - intros c Hc Hn _. exists (lane_of "all" Parallel ["b"; "c"; "d"; "e"]), (stage (card_id c)).
    split_and!; [by left|done| |done].
    repeat (apply elem_of_cons in Hc as [->|Hc]; [first [by destruct Hn|simpl; set_solver]|]).
    by apply elem_of_nil in Hc.
  - exists (mk_card "b" "planned" [] None). split_and!; [right; by left|done|].
    by apply not_elem_of_empty.
Defined.

(** A file one card declares and another was seen to write orders nothing. *)
Lemma sources_are_not_compared :
  let inputs := declare_files "b" ["/r/x.rs"] (observe_files "d" ["/r/x.rs"] no_inputs) in
  (λ o, serial_rank <$> wo_cards o) <$> order_wave 0 ["b"; "d"] inputs = Some [0; 0].
Proof. by vm_compute. Qed.
