(* ===== verification/Render.v ===== *)
(** * Markdown of outcome documents and final reports

    [refact-tasks/src/types.rs]: [CardOutcome::to_markdown], [FinalReport::to_markdown],
    and the messages of the finalize gate.  An output buffer is the text pushed so
    far; each [push_] function is what it appends. *)

From stdpp Require Import list strings pretty.
From S2P Require Import Prelude RustStr BoardTypes Outcome Board.
Local Open Scope N_scope.

Definition nl : text := [10].
Definition join_text (sep : text) (l : list text) : text :=
  match l with
  | [] => []
  | x :: l => foldl (λ acc y, acc ++ sep ++ y) x l
  end.

(** [while output.ends_with('\n') { output.pop(); } output.push('\n')]. *)
Definition one_final_newline (output : text) : text :=
  trim_end_matches (λ c, c =? 10) output ++ nl.

(** ** Backticks *)

(** The loop state: the longest run so far and the current one. *)
Definition backtick_step (st : N * N) (c : N) : N * N :=
  let '(max_run, current) := st in
  if c =? 96 then (max_run `max` (current + 1), current + 1) else (max_run, 0).
Definition max_backtick_run (t : text) : N := (foldl backtick_step (0, 0) t).1.

Definition backticks (n : N) : text := replicate (N.to_nat n) 96.
Definition markdown_inline_code (t : text) : text :=
  let max_run := max_backtick_run t in
  if max_run =? 0 then lit "`" ++ t ++ lit "`"
  else let fence := backticks (max_run + 1) in fence ++ lit " " ++ t ++ lit " " ++ fence.
Definition markdown_code_fence (t : text) : text := backticks (max_backtick_run t `max` 2 + 1).

(** ** Outcome documents *)

Definition fragment_body (f : OutcomeFragment) : text :=
  let content := trim (frag_content f) in
  (if bool_decide (content = []) then lit "_None._" ++ nl else content ++ nl)
  ++ lit "- source run: " ++ default (lit "_unrecorded_") (source_run (provenance f)) ++ nl
  ++ (if bool_decide (evidence_spec_ids (provenance f) = [])
      then lit "- evidence: _unrecorded_" ++ nl
      else lit "- evidence: " ++ chars (join ", " (evidence_spec_ids (provenance f))) ++ nl)
  ++ lit "- review: " ++ lit (label (frag_review f)) ++ nl ++ nl.

Definition requirement_section (o : CardOutcome) (r : OutcomeRequirement) : text :=
  lit "## " ++ req_fragment r
  ++ (if requires_evidence r then lit " (required, evidence)" else lit " (required)") ++ nl
  ++ match f ← fragment (req_fragment r) o; if has_content f then Some f else None with
     | Some f => fragment_body f
     | None => lit "**MISSING — required outcome fragment.**" ++ nl ++ nl
     end.

Definition extra_section (o : CardOutcome) (f : OutcomeFragment) : text :=
  match requirement (frag_name f) o with
  | Some _ => []
  | None => lit "## " ++ frag_name f ++ nl ++ fragment_body f
  end.

Definition outcome_to_markdown (o : CardOutcome) : text :=
  one_final_newline (
    lit "# Outcome Document" ++ nl ++ nl
    ++ (required o ≫= requirement_section o)
    ++ (fragments o ≫= extra_section o)
    ++ match finalized o with
       | Some f => lit "## Finalized" ++ nl ++ lit "- by: " ++ chars (finalized_by f) ++ nl
                   ++ lit "- at: " ++ chars (finalized_at f) ++ nl ++ nl
       | None => []
       end).

(** ** Final reports *)

Definition push_text_or_empty (t : text) : text :=
  let t := trim t in
  if bool_decide (t = []) then lit "_None provided._" ++ nl else t ++ nl.

Definition none_item : text := lit "- _None._" ++ nl ++ nl.

Definition push_string_list (title : string) (items : list string) : text :=
  lit "## " ++ lit title ++ nl
  ++ if bool_decide (items = []) then none_item
     else (items ≫= λ item, lit "- " ++ chars item ++ nl) ++ nl.

Definition verification_item (r : VerificationResult) : text :=
  lit "- " ++ markdown_inline_code (chars (command r)) ++ lit " — "
  ++ lit (if vr_passed r then "passed" else "failed")
  ++ match exit_code r with
     | Some exit_code => lit " (exit code " ++ chars (pretty exit_code) ++ lit ")"
     | None => []
     end ++ nl
  ++ let tail := trim (chars (output_tail r)) in
     if bool_decide (tail = []) then []
     else let fence := markdown_code_fence tail in
          nl ++ fence ++ lit "text" ++ nl ++ tail ++ nl ++ fence ++ nl.

Definition push_verification (l : list VerificationResult) : text :=
  lit "## Verification" ++ nl
  ++ match l with
     | [] => none_item
     | _ :: _ => (l ≫= verification_item) ++ nl
     end.

Definition or_default (d : string) (s : string) : text :=
  let t := trim (chars s) in if bool_decide (t = []) then lit d else t.

Definition followup_item (c : SuggestedCard) : text :=
  lit "### " ++ or_default "Untitled" (sc_title c) ++ nl
  ++ lit "- Priority: " ++ or_default "unspecified" (sc_priority c) ++ nl
  ++ (if bool_decide (sc_target_files c = []) then []
      else lit "- Target files: " ++ chars (join ", " (sc_target_files c)) ++ nl)
  ++ (let t := trim (chars (sc_instructions c)) in
      if bool_decide (t = []) then [] else nl ++ t ++ nl)
  ++ nl.

Definition push_followup_cards (l : list SuggestedCard) : text :=
  lit "## Follow-up Cards" ++ nl
  ++ match l with
     | [] => none_item
     | _ :: _ => l ≫= followup_item
     end.

Definition report_to_markdown (r : FinalReport) : text :=
  one_final_newline (
    lit "# Final Report" ++ nl ++ nl ++ lit "## Summary" ++ nl
    ++ push_text_or_empty (chars (fr_summary r)) ++ nl
    ++ lit "## Result" ++ nl
    ++ (if fr_success r then lit "- Success: true" else lit "- Success: false") ++ nl ++ nl
    ++ push_string_list "Files Changed" (files_changed r)
    ++ push_string_list "Tests Added or Updated" (tests_added_or_updated r)
    ++ push_verification (fr_verification r)
    ++ push_followup_cards (followup_cards r)
    ++ push_string_list "Risks" (risks r)
    ++ push_string_list "Assumptions" (assumptions r)).

(** ** Messages of the finalize gate *)

Definition quoted_fragment (name rest : text) : text :=
  lit "required outcome fragment '" ++ name ++ lit "' " ++ rest.

Definition block_message (b : FinalizeBlock) : text :=
  match b with
  | CardNotFound id => lit "card " ++ chars id ++ lit " not found on this board"
  | NotCompleted id col =>
      lit "card " ++ chars id ++ lit " is in '" ++ chars col
      ++ lit "'; finalising requires a completed card"
  | AlreadyFinalized id by_whom =>
      lit "card " ++ chars id ++ lit " was already finalized by " ++ chars by_whom
  | ReviewDenied reason => chars reason
  | MissingFragment f => quoted_fragment f (lit "is missing")
  | EmptyFragment f => quoted_fragment f (lit "is empty or a placeholder")
  | RejectedFragment f reason => quoted_fragment f (lit "was rejected in review: " ++ chars reason)
  | ContradictedFragment f reason =>
      quoted_fragment f (lit "is contradicted and unresolved: " ++ chars reason)
  | MissingSourceRun f => quoted_fragment f (lit "does not record the run that produced it")
  | MissingEvidence f => quoted_fragment f (lit "references no evidence record")
  end.

Definition decision_message (d : FinalizeDecision) : text :=
  match blocks d with
  | [] => lit "finalize allowed"
  | _ :: _ =>
      lit "finalize blocked by " ++ chars (pretty (Nlen (blocks d))) ++ lit " unmet requirement(s):"
      ++ nl ++ join_lines ((λ b, lit "- " ++ block_message b) <$> blocks d)
  end.

(** ** A code fence is longer than every run of backticks it encloses *)

(** The backticks at the end of a text. *)
Definition trailing (t : text) : nat := length (take_while (λ c, c =? 96) (reverse t)).

Lemma trailing_snoc t c : trailing (t ++ [c]) = if c =? 96 then S (trailing t) else O.
Proof. unfold trailing. rewrite reverse_snoc. simpl. by destruct (c =? 96). Qed.

Lemma run_suffix_trailing t p n : t = p ++ replicate n 96 → (n ≤ trailing t)%nat.
Proof.
  intros ->. unfold trailing. rewrite reverse_app, reverse_replicate.
  induction n as [|n IH]; simpl; lia.
Qed.

Record run_ok (t : text) (st : N * N) : Prop := {
  rk_current : st.2 = N.of_nat (trailing t);
  rk_max p n s : t = p ++ replicate n 96 ++ s → N.of_nat n ≤ st.1;
}.

Lemma backtick_step_ok t c st : run_ok t st → run_ok (t ++ [c]) (backtick_step st c).
Proof.
  destruct st as [m k]. intros [Hk Hm]. simpl in *.
  assert (Hinner : ∀ p n s, t ++ [c] = p ++ replicate n 96 ++ s → N.of_nat n ≤ m ∨ s = []).
  { intros p n s Heq. destruct s as [|x s _] using rev_ind; [by right|left].
    rewrite !app_assoc in Heq. apply app_inj_tail in Heq as [Heq _]. rewrite <- app_assoc in Heq.
    by apply (Hm p n s). }
  assert (Hend : ∀ p n, t ++ [c] = p ++ replicate n 96 ++ [] → (n ≤ trailing (t ++ [c]))%nat).
  { intros p n Heq. rewrite app_nil_r in Heq. by apply (run_suffix_trailing _ p). }
  destruct (N.eqb_spec c 96) as [->|Hne]; split; simpl; rewrite ?trailing_snoc in *.
  - rewrite N.eqb_refl in *. lia.
  - intros p n s Heq. destruct (Hinner p n s Heq) as [?| ->]; [lia|].
    apply Hend in Heq. simpl in Heq. lia.
  - apply N.eqb_neq in Hne. by rewrite Hne.
  - intros p n s Heq. destruct (Hinner p n s Heq) as [?| ->]; [lia|].
    apply N.eqb_neq in Hne. rewrite Hne in Hend. apply Hend in Heq. lia.
Qed.

Lemma max_backtick_run_ok t : run_ok t (foldl backtick_step (0, 0) t).
Proof.
  induction t as [|c t IH] using rev_ind; [|rewrite foldl_app; by apply backtick_step_ok].
  split; [done|]. intros p [|n] s Heq; [simpl; lia|]. by destruct p.
Qed.

(** The fence and the inline delimiter chosen for a text do not occur inside it, so no
    output of a verification command can close its own code block. *)
Lemma fence_does_not_occur t :
  (¬ ∃ p s, t = p ++ markdown_code_fence t ++ s) ∧ (3 ≤ length (markdown_code_fence t))%nat ∧
  (¬ ∃ p s, t = p ++ backticks (max_backtick_run t + 1) ++ s).
Proof.
  destruct (max_backtick_run_ok t) as [_ Hm]. unfold markdown_code_fence, backticks, max_backtick_run.
  split_and!.
  - intros (p & s & Heq). apply Hm in Heq. lia.
  - rewrite length_replicate. lia.
  - intros (p & s & Heq). apply Hm in Heq. lia.
Qed.
