(* ===== verification/Patch.v ===== *)
(** * Patches: parsing and applying

    [refact-file-edit-core/src/openai_apply_patch.rs].  The text of a patch is parsed into
    file operations; the chunks of an update are located in the old lines of the file and
    spliced in.  The parsers of the source move an index [i] through the array of lines;
    here they carry the index, for error messages, and the lines from it on.  An outer
    [None] is a panic or, in [parse_patch], fuel that ran out. *)

From stdpp Require Import list strings pretty.
From S2P Require Import Prelude RustStr.

(** ** Data *)

Record UpdateChunk := {
  change_context : list text;
  old_lines : list text;
  new_lines : list text;
  is_end_of_file : bool;
}.
Inductive FileOperation :=
  | Add (path contents : text)
  | Delete (path : text)
  | Update (path : text) (move_to : option text) (chunks : list UpdateChunk).
Record ParsedPatch := { operations : list FileOperation }.
Inductive ParseError := InvalidPatch (message : text) | InvalidHunk (message : text) (line_number : nat).

Definition display_ParseError (e : ParseError) : text :=
  match e with
  | InvalidPatch msg => lit "Invalid patch: " ++ msg
  | InvalidHunk msg n => lit "Invalid hunk at line " ++ lit (pretty (N.of_nat n)) ++ lit ": " ++ msg
  end.

(** ** Parsing *)

Definition quoted (message line : text) : text := message ++ lit "'" ++ line ++ lit "'".

(** The path after a header's keyword. *)
Definition header_path (keyword what : string) (i : nat) (header : text) : result text ParseError :=
  match strip_prefix (lit keyword) (trim header) with
  | None => Err (InvalidPatch (lit ("Invalid " +:+ what +:+ " header")))
  | Some rest =>
      let path := trim rest in
      if bool_decide (path = []) then Err (InvalidHunk (lit (what +:+ " path cannot be empty")) (S i))
      else Ok path
  end.

Fixpoint add_lines (i : nat) (rest content : list text) : result (list text * nat * list text) ParseError :=
  match rest with
  | [] => Ok (content, i, [])
  | line :: rest' =>
      if starts_with (lit "*** ") (trim line) then Ok (content, i, rest)
      else match strip_prefix (lit "+") line with
           | Some l => add_lines (S i) rest' (content ++ [l])
           | None => Err (InvalidHunk (quoted (lit "Add File lines must start with '+', found: ") line) (S i))
           end
  end.

Definition parse_add_file (i : nat) (header : text) (rest : list text)
  : result (FileOperation * nat * list text) ParseError :=
  let? path := header_path "*** Add File:" "Add File" i header in
  let? (content, i, rest) := add_lines (S i) rest [] in
  let contents := if bool_decide (content = []) then [] else join_lines content ++ [10%N] in
  Ok (Add path contents, i, rest).

Definition parse_delete_file (i : nat) (header : text) (rest : list text)
  : result (FileOperation * nat * list text) ParseError :=
  let? path := header_path "*** Delete File:" "Delete File" i header in
  Ok (Delete path, S i, rest).

(** The [@@] lines of a hunk: its contexts that are not empty. *)
Fixpoint hunk_context (i : nat) (rest : list text) : list text * nat * list text :=
  match rest with
  | [] => ([], i, [])
  | line :: rest' =>
      match strip_prefix (lit "@@") (trim line) with
      | None => ([], i, rest)
      | Some ctx =>
          let '(ctxs, i', rest'') := hunk_context (S i) rest' in
          (if bool_decide (trim ctx = []) then ctxs else trim ctx :: ctxs, i', rest'')
      end
  end.

Fixpoint hunk_body (i : nat) (rest old new : list text)
  : result (list text * list text * bool * nat * list text) ParseError :=
  match rest with
  | [] => Ok (old, new, false, i, [])
  | line :: rest' =>
      let trimmed := trim line in
      if starts_with (lit "*** End of File") trimmed then Ok (old, new, true, S i, rest')
      else if starts_with (lit "*** ") trimmed || starts_with (lit "@@") trimmed
      then Ok (old, new, false, i, rest)
      else match line with
           | [] => hunk_body (S i) rest' (old ++ [[]]) (new ++ [[]])
           | c :: l =>
               if (c =? 43)%N then hunk_body (S i) rest' old (new ++ [l])
               else if (c =? 45)%N then hunk_body (S i) rest' (old ++ [l]) new
               else if (c =? 32)%N then hunk_body (S i) rest' (old ++ [l]) (new ++ [l])
               else Err (InvalidHunk (quoted (lit "Invalid diff line (must start with +, -, or space): ") line) (S i))
           end
  end.

Definition parse_hunk (i : nat) (rest : list text) : result (UpdateChunk * nat * list text) ParseError :=
  let '(ctxs, i, rest) := hunk_context i rest in
  let? (old, new, eof, i, rest) := hunk_body i rest [] [] in
  Ok ({| change_context := ctxs; old_lines := old; new_lines := new; is_end_of_file := eof |}, i, rest).

Definition ends_update (line : text) : bool :=
  starts_with (lit "*** Add File:") line || starts_with (lit "*** Delete File:") line
  || starts_with (lit "*** Update File:") line || starts_with (lit "*** End Patch") line.
Definition starts_hunk (line : text) : bool :=
  starts_with (lit "@@") line || starts_with (lit "+") line
  || starts_with (lit "-") line || starts_with (lit " ") line.

Fixpoint update_hunks (fuel : nat) (i : nat) (rest : list text) (chunks : list UpdateChunk)
  : option (result (list UpdateChunk * nat * list text) ParseError) :=
  match rest with
  | [] => Some (Ok (chunks, i, []))
  | raw :: rest' =>
      let line := trim raw in
      if ends_update line then Some (Ok (chunks, i, rest))
      else if starts_hunk line then
        match parse_hunk i rest with
        | Err e => Some (Err e)
        | Ok (chunk, i, rest) =>
            match fuel with
            | O => None
            | S fuel => update_hunks fuel i rest (chunks ++ [chunk])
            end
        end
      else if bool_decide (line = []) then
        match fuel with
        | O => None
        | S fuel => update_hunks fuel (S i) rest' chunks
        end
      else Some (Err (InvalidHunk (quoted (lit "Unexpected line in Update File: ") line) (S i)))
  end.

Definition move_target (i : nat) (rest : list text) : result (option text * nat * list text) ParseError :=
  match rest with
  | line :: rest' =>
      match strip_prefix (lit "*** Move to:") (trim line) with
      | Some p =>
          if bool_decide (trim p = []) then Err (InvalidHunk (lit "Move to path cannot be empty") (S i))
          else Ok (Some (trim p), S i, rest')
      | None => Ok (None, i, rest)
      end
  | [] => Ok (None, i, [])
  end.

Definition parse_update_file (start : nat) (header : text) (rest : list text)
  : option (result (FileOperation * nat * list text) ParseError) :=
  match (let? path := header_path "*** Update File:" "Update File" start header in
         let? (move_to, i, rest) := move_target (S start) rest in
         Ok (path, move_to, i, rest)) with
  | Err e => Some (Err e)
  | Ok (path, move_to, i, rest) =>
      hunks ← update_hunks (length rest) i rest [];
      Some (let? (chunks, i, rest) := hunks in
            if bool_decide (chunks = [])
            then Err (InvalidHunk (lit "Update File requires at least one hunk") (S start))
            else Ok (Update path move_to chunks, i, rest))
  end.

(** The loop of [parse_patch]; the boolean is [found_end_patch]. *)
Fixpoint patch_loop (fuel : nat) (i : nat) (rest : list text) (ops : list FileOperation)
  : option (result (list FileOperation * bool) ParseError) :=
  match rest with
  | [] => Some (Ok (ops, false))
  | raw :: rest' =>
      let line := trim raw in
      if starts_with (lit "*** End Patch") line then Some (Ok (ops, true))
      else match fuel with
      | O => None
      | S fuel =>
          let next (r : option (result (FileOperation * nat * list text) ParseError)) :=
            parsed ← r;
            match parsed with
            | Err e => Some (Err e)
            | Ok (op, i, rest) => patch_loop fuel i rest (ops ++ [op])
            end in
          if bool_decide (line = []) then patch_loop fuel (S i) rest' ops
          else if starts_with (lit "*** Add File:") line then next (Some (parse_add_file i raw rest'))
          else if starts_with (lit "*** Delete File:") line then next (Some (parse_delete_file i raw rest'))
          else if starts_with (lit "*** Update File:") line then next (parse_update_file i raw rest')
          else Some (Err (InvalidHunk (quoted (lit "Unexpected line: ") line) (S i)))
      end
  end.

Fixpoint skip_blank (i : nat) (rest : list text) : nat * list text :=
  match rest with
  | line :: rest' => if bool_decide (trim line = []) then skip_blank (S i) rest' else (i, rest)
  | [] => (i, [])
  end.

Definition parse_patch (patch : text) : option (result ParsedPatch ParseError) :=
  let '(i, rest) := skip_blank 0 (lines patch) in
  match rest with
  | first :: rest =>
      if starts_with (lit "*** Begin Patch") (trim first) then
        parsed ← patch_loop (length rest) (S i) rest [];
        Some (let? (ops, found_end_patch) := parsed in
              if negb found_end_patch then Err (InvalidPatch (lit "Patch must end with '*** End Patch'"))
              else if bool_decide (ops = []) then Err (InvalidPatch (lit "No file operations found"))
              else Ok {| operations := ops |})
      else Some (Err (InvalidPatch (lit "Patch must start with '*** Begin Patch'")))
  | [] => Some (Err (InvalidPatch (lit "Patch must start with '*** Begin Patch'")))
  end.

(** ** Paths *)

(** [Path::components] of the standard library, on Unix. *)
Inductive Component := RootDir | CurDir | ParentDir | Normal (name : text).
Definition component (piece : text) : option Component :=
  if bool_decide (piece = []) || bool_decide (piece = lit ".") then None
  else if bool_decide (piece = lit "..") then Some ParentDir
  else Some (Normal piece).
Definition components (path : text) : list Component :=
  let pieces := split_on 47 path in
  (if starts_with (lit "/") path then [RootDir] else [])
  ++ match pieces with first :: _ => if bool_decide (first = lit ".") then [CurDir] else [] | [] => [] end
  ++ omap component pieces.

Definition is_ascii_alphabetic (c : N) : bool :=
  ((65 <=? c) && (c <=? 90) || (97 <=? c) && (c <=? 122))%N.
(** A drive letter; a first byte that is a letter is a whole character. *)
Definition has_drive (path : text) : bool :=
  match path with c :: d :: _ => is_ascii_alphabetic c && (d =? 58)%N | _ => false end.

Fixpoint check_depth (path : text) (depth : Z) (cs : list Component) : result text text :=
  match cs with
  | [] => Ok path
  | ParentDir :: cs =>
      if (depth - 1 <? 0)%Z then Err (quoted (lit "Path escapes workspace: ") path)
      else check_depth path (depth - 1) cs
  | Normal _ :: cs => check_depth path (depth + 1) cs
  | CurDir :: cs => check_depth path depth cs
  | RootDir :: _ => Err (quoted (lit "Invalid path component in: ") path)
  end.

Definition validate_relative_path (path : text) : result text text :=
  let path := trim path in
  if bool_decide (path = []) then Err (lit "Path cannot be empty")
  else if starts_with (lit "/") path then Err (quoted (lit "Absolute paths not allowed: ") path)
  else if has_drive path then Err (quoted (lit "Absolute paths not allowed: ") path)
  else if starts_with (lit "\\") path then Err (quoted (lit "UNC paths not allowed: ") path)
  else if bool_decide (92%N ∈ path) then Err (quoted (lit "Backslashes not allowed in paths: ") path)
  else check_depth path 0 (components path).

(** ** Applying *)

Definition normalize_char (c : N) : N :=
  (if (c =? 8211) || (c =? 8212) || (c =? 8722) || (c =? 8209) then 45
   else if (c =? 8216) || (c =? 8217) then 39
   else if (c =? 8220) || (c =? 8221) then 34
   else c)%N.
Definition normalize_line (s : text) : text := normalize_char <$> trim_end s.
Definition lines_match_normalized (a b : text) : bool :=
  bool_decide (normalize_line a = normalize_line b).
(** Equal up to trailing white space. *)
Definition lines_match (a b : text) : bool :=
  bool_decide (a = b) || bool_decide (trim_end a = trim_end b).

(** The needle, compared line by line with the beginning of the haystack. *)
Fixpoint matches_by (eq : text → text → bool) (haystack needle : list text) : bool :=
  match needle, haystack with
  | [], _ => true
  | n :: needle, h :: haystack => eq h n && matches_by eq haystack needle
  | _ :: _, [] => false
  end.
Definition matches_sequence (haystack needle : list text) : bool := matches_by lines_match haystack needle.
Definition matches_sequence_normalized (haystack needle : list text) : bool :=
  matches_by lines_match_normalized haystack needle.

(** [start..=max]. *)
Definition range_inclusive (start max : nat) : list nat := seq start (S max - start).
Definition first_index (f : nat → bool) (l : list nat) : option nat :=
  snd <$> list_find (λ i, f i = true) l.

Definition seek_sequence (haystack needle : list text) (start_from : nat) (is_end_of_file : bool)
  : option nat :=
  if bool_decide (needle = []) then None
  else
    let max_idx := length haystack - length needle in
    let range := range_inclusive start_from max_idx in
    let range := if is_end_of_file then reverse range else range in
    match first_index (λ i, matches_sequence (drop i haystack) needle) range with
    | Some i => Some i
    | None => first_index (λ i, matches_sequence_normalized (drop i haystack) needle) range
    end.

Record Replacement := { r_start : nat; r_len : nat; r_lines : list text; r_seq : nat }.

Fixpoint find_contexts (original_lines ctxs : list text) (line_index : nat) : result nat text :=
  match ctxs with
  | [] => Ok line_index
  | ctx :: ctxs =>
      match seek_sequence original_lines [ctx] line_index false with
      | Some idx => find_contexts original_lines ctxs (S idx)
      | None => Err (lit "Failed to find context '" ++ ctx ++ lit "' in file")
      end
  end.

Definition last_is_empty (l : list text) : bool := bool_decide (last l = Some []).
Definition drop_last {A} (l : list A) : list A := take (length l - 1) l.

(** Where the old lines of a chunk are, how many, and the lines that replace them; the last
    old line is given up when it is empty and they are not found with it. *)
Definition locate (original_lines : list text) (chunk : UpdateChunk) (line_index : nat)
  : option nat * nat * list text :=
  let pattern := old_lines chunk in
  match seek_sequence original_lines pattern line_index (is_end_of_file chunk) with
  | Some idx => (Some idx, length pattern, new_lines chunk)
  | None =>
      if last_is_empty pattern then
        let trimmed_new := if last_is_empty (new_lines chunk) then drop_last (new_lines chunk)
                           else new_lines chunk in
        (seek_sequence original_lines (drop_last pattern) line_index (is_end_of_file chunk),
         length (drop_last pattern), trimmed_new)
      else (None, length pattern, new_lines chunk)
  end.

Definition insertion_index (original_lines : list text) (chunk : UpdateChunk) (line_index : nat) : nat :=
  if is_end_of_file chunk
  then if last_is_empty original_lines then length original_lines - 1 else length original_lines
  else line_index.

(** One chunk: its replacement, if any, and the next line index. *)
Definition chunk_replacement (original_lines : list text) (seq : nat) (chunk : UpdateChunk) (line_index : nat)
  : result (list Replacement * nat) text :=
  let? line_index := find_contexts original_lines (change_context chunk) line_index in
  if bool_decide (old_lines chunk = []) then
    let insertion_idx := insertion_index original_lines chunk line_index in
    if bool_decide (new_lines chunk = []) then Ok ([], line_index)
    else Ok ([{| r_start := insertion_idx; r_len := 0; r_lines := new_lines chunk; r_seq := seq |}],
             insertion_idx + length (new_lines chunk))
  else
    match locate original_lines chunk line_index with
    | (Some start_idx, len, lines) =>
        Ok ([{| r_start := start_idx; r_len := len; r_lines := lines; r_seq := seq |}], start_idx + len)
    | (None, _, _) =>
        Err (lit "Failed to find expected lines in file:" ++ [10%N] ++ join_lines (take 5 (old_lines chunk)))
    end.

Fixpoint all_replacements (original_lines : list text) (seq : nat) (chunks : list UpdateChunk)
    (replacements : list Replacement) (line_index : nat) : result (list Replacement) text :=
  match chunks with
  | [] => Ok replacements
  | chunk :: chunks =>
      let? (r, line_index) := chunk_replacement original_lines seq chunk line_index in
      all_replacements original_lines (S seq) chunks (replacements ++ r) line_index
  end.

Definition compute_replacements (original_lines : list text) (chunks : list UpdateChunk)
  : result (list Replacement) text :=
  let? replacements := all_replacements original_lines 0 chunks [] 0 in
  Ok (sort_by_key (λ r, (r_start r, r_seq r)) replacements).

(** [lines.splice(start..end, new)]: a range out of order or out of bounds panics. *)
Definition splice (start end_idx : nat) (new l : list text) : option (list text) :=
  if decide (start ≤ end_idx ∧ end_idx ≤ length l)
  then Some (take start l ++ new ++ drop end_idx l) else None.

Definition apply_replacement (acc : option (list text)) (r : Replacement) : option (list text) :=
  l ← acc; splice (r_start r) (Nat.min (r_start r + r_len r) (length l)) (r_lines r) l.

Definition apply_update_chunks (original : text) (chunks : list UpdateChunk)
  : option (result text text) :=
  let ls := lines original in
  let had_trailing_newline := ends_with_char 10 original in
  match compute_replacements ls chunks with
  | Err e => Some (Err e)
  | Ok replacements =>
      ls ← foldl apply_replacement (Some ls) (reverse replacements);
      let result := join_lines ls in
      Some (Ok (if bool_decide (result ≠ []) || had_trailing_newline then result ++ [10%N] else result))
  end.
