(* ===== verification/PatchApply.v ===== *)
(** * What applying a patch does

    The replacements of [Patch.compute_replacements] are in the order of their chunks and
    do not overlap, so splicing them from the last to the first rebuilds the file with each
    chunk's old lines replaced by its new ones.  [patched] says where chunks land without the
    searches of the code: the nearest place where contexts and old lines stand. *)

From stdpp Require Import list strings sorting.
From S2P Require Import Prelude RustStr Patch.

(** ** Specification *)

(** Equal up to trailing white space, and up to typographic dashes and quotes as well. *)
Definition trimmed_eq (a b : text) : Prop := trim_end a = trim_end b.
Definition normalized_eq (a b : text) : Prop := normalize_line a = normalize_line b.
(** The lines stand in the file, from line [i] on. *)
Definition stands (eq : text → text → Prop) (ls needle : list text) (i : nat) : Prop :=
  ∃ s rest, drop i ls = s ++ rest ∧ Forall2 eq s needle.
(** The first place from [start] on, or the last one. *)
Definition nearest (P : nat → Prop) (start : nat) (from_end : bool) (i : nat) : Prop :=
  start ≤ i ∧ P i ∧ ∀ j, start ≤ j → P j → if from_end then j ≤ i else i ≤ j.
(** Lines that match more closely are preferred, wherever they are. *)
Definition found_at (ls needle : list text) (start : nat) (from_end : bool) (i : nat) : Prop :=
  needle ≠ [] ∧
  (nearest (stands trimmed_eq ls needle) start from_end i
   ∨ (∀ j, start ≤ j → ¬ stands trimmed_eq ls needle j)
     ∧ nearest (stands normalized_eq ls needle) start from_end i).

(** Each context line is the next one that matches; the place is the line after the last. *)
Inductive contexts_end (ls : list text) : nat → list text → nat → Prop :=
  | contexts_done c : contexts_end ls c [] c
  | contexts_next c ctx ctxs i c' :
      found_at ls [ctx] c false i → contexts_end ls (S i) ctxs c' → contexts_end ls c (ctx :: ctxs) c'.

(** Where a chunk lands, looking from line [c] on: at [p] it takes [n] lines out and puts [new] in; the
    next chunk is looked for from [next] on.  An insertion lands right there, or at the end of the file
    (before its last line when that is empty), and moves the search by what it inserts.  Lines to be
    replaced are those found; a last line that is empty is given up when they are not found with it. *)
Inductive lands (ls : list text) (chunk : UpdateChunk) (c : nat) : nat → nat → list text → nat → Prop :=
  | lands_here :
      old_lines chunk = [] → new_lines chunk ≠ [] → is_end_of_file chunk = false →
      lands ls chunk c c 0 (new_lines chunk) (c + length (new_lines chunk))
  | lands_at_end p :
      old_lines chunk = [] → new_lines chunk ≠ [] → is_end_of_file chunk = true →
      p = (if last_is_empty ls then length ls - 1 else length ls) →
      lands ls chunk c p 0 (new_lines chunk) (p + length (new_lines chunk))
  | lands_on_old p :
      found_at ls (old_lines chunk) c (is_end_of_file chunk) p →
      lands ls chunk c p (length (old_lines chunk)) (new_lines chunk) (p + length (old_lines chunk))
  | lands_without_last p pattern :
      old_lines chunk = pattern ++ [[]] → (∀ i, ¬ found_at ls (old_lines chunk) c (is_end_of_file chunk) i) →
      found_at ls pattern c (is_end_of_file chunk) p →
      lands ls chunk c p (length pattern)
        (if last_is_empty (new_lines chunk) then drop_last (new_lines chunk) else new_lines chunk) (p + length pattern).

(** The file from line [e] on, with the chunks made: they land in the file one after the other. *)
Inductive patched (ls : list text) : nat → nat → list UpdateChunk → list text → Prop :=
  | patched_done e c : patched ls e c [] (drop e ls)
  | patched_nothing e c chunk chunks c' out :
      old_lines chunk = [] → new_lines chunk = [] → contexts_end ls c (change_context chunk) c' →
      patched ls e c' chunks out → patched ls e c (chunk :: chunks) out
  | patched_chunk e c chunk chunks c' p n new next out :
      contexts_end ls c (change_context chunk) c' → lands ls chunk c' p n new next →
      e ≤ p → p + n ≤ length ls → patched ls (p + n) next chunks out →
      patched ls e c (chunk :: chunks) (take (p - e) (drop e ls) ++ new ++ out).

(** ** Searching *)

Lemma lines_match_same a b : lines_match a b = true ↔ trimmed_eq a b.
Proof. unfold lines_match, trimmed_eq. rewrite orb_true_iff, !bool_decide_eq_true. split; [intros [->|?]; done|by right]. Qed.

Lemma lines_match_normalized_same a b : lines_match_normalized a b = true ↔ normalized_eq a b.
Proof. unfold lines_match_normalized, normalized_eq. by rewrite bool_decide_eq_true. Qed.

Lemma trimmed_normalized a b : trimmed_eq a b → normalized_eq a b.
Proof. unfold trimmed_eq, normalized_eq, normalize_line. by intros ->. Qed.

Lemma matches_by_spec eq (R : text → text → Prop) haystack needle :
  (∀ a b, eq a b = true ↔ R a b) →
  matches_by eq haystack needle = true ↔ ∃ s rest, haystack = s ++ rest ∧ Forall2 R s needle.
Proof.
  intros Heq. revert haystack. induction needle as [|n needle IH]; intros haystack; simpl.
  { split; [|by destruct haystack]. intros _. exists [], haystack. split; [done|constructor]. }
  destruct haystack as [|h haystack].
  { split; [done|]. intros (s & rest & Hs & Hf). apply Forall2_cons_inv_r in Hf as (x & s' & _ & _ & ->). by simplify_eq/=. }
  simpl. rewrite andb_true_iff, Heq, IH. split.
  - intros [H1 (s & rest & -> & Hs)]. exists (h :: s), rest. split; [done|]. by constructor.
  - intros (s & rest & Hs & Hf). apply Forall2_cons_inv_r in Hf as (x & s' & Hx & Hf & ->). injection Hs as -> ->.
    split; [done|]. by exists s', rest.
Qed.

Lemma first_index_cons f x l : first_index f (x :: l) = if f x then Some x else first_index f l.
Proof.
  unfold first_index. cbn [list_find]. case_decide as Hf; [by rewrite Hf|]. apply not_true_is_false in Hf as ->.
  by destruct (list_find _ l) as [[k y]|].
Qed.

(** The first of an ordered list that is as wanted. *)
Lemma first_index_nearest R f l i :
  (∀ a b, R a b → R b a → a = b) → StronglySorted R l →
  first_index f l = Some i ↔ i ∈ l ∧ f i = true ∧ ∀ j, j ∈ l → f j = true → j = i ∨ R i j.
Proof.
  intros Hanti Hs. split.
  - induction Hs as [|x l _ IH Hx]; [done|]. rewrite first_index_cons. rewrite Forall_forall in Hx. destruct (f x) eqn:Hf.
    + intros [= <-]. split_and!; [by left|done|]. intros j [->|Hj]%elem_of_cons _; [by left|right; by apply Hx].
    + intros (Hi & Hfi & Hmin)%IH. split_and!; [by right|done|]. intros j [->|Hj]%elem_of_cons Hfj; [congruence|by apply Hmin].
  - intros (Hi & Hfi & Hmin). induction Hs as [|x l _ IH Hx]; [by apply elem_of_nil in Hi|]. rewrite first_index_cons.
    rewrite Forall_forall in Hx. apply elem_of_cons in Hi as [->|Hi]; [by rewrite Hfi|]. destruct (f x) eqn:Hf.
    + destruct (Hmin x ltac:(by left) Hf) as [->|Hr]; [done|]. f_equal. by apply Hanti; [apply Hx|].
    + apply IH; [done|]. intros j Hj. apply Hmin. by right.
Qed.

Lemma first_index_None f l : first_index f l = None ↔ ∀ j, j ∈ l → f j = false.
Proof.
  induction l as [|x l IH]; [split; [by intros _ j ?%elem_of_nil|done]|]. rewrite first_index_cons. destruct (f x) eqn:Hf.
  - split; [done|]. intros H. specialize (H x ltac:(by left)). congruence.
  - rewrite IH. split; intros H j; [intros [->|?]%elem_of_cons; auto|intros ?; apply H; by right].
Qed.

Lemma elem_of_range_inclusive i start max : i ∈ range_inclusive start max ↔ start ≤ i ≤ max.
Proof. unfold range_inclusive. rewrite elem_of_seq. lia. Qed.

Lemma seq_sorted a n : StronglySorted le (seq a n).
Proof.
  revert a. induction n as [|n IH]; intros a; constructor; [apply IH|]. apply Forall_forall. intros x Hx%elem_of_seq. lia.
Qed.

Lemma reverse_seq_sorted a n : StronglySorted ge (reverse (seq a n)).
Proof.
  induction n as [|n IH]; [constructor|]. rewrite seq_S, reverse_snoc. constructor; [done|]. apply Forall_forall.
  intros x Hx%elem_of_reverse%elem_of_seq. lia.
Qed.

Lemma stands_bound R ls needle i : needle ≠ [] → stands R ls needle i → i + length needle ≤ length ls.
Proof.
  intros Hn (s & rest & Hd & Hf). apply Forall2_length in Hf as Hl. apply (f_equal length) in Hd. rewrite length_drop, length_app in Hd.
  destruct needle; [done|]. simpl in *. lia.
Qed.

(** Either pass of a search, over the places from [start] on. *)
Lemma pass_spec (eq : text → text → bool) (R : text → text → Prop) ls needle start (from_end : bool) :
  (∀ a b, eq a b = true ↔ R a b) → needle ≠ [] →
  let range := range_inclusive start (length ls - length needle) in
  let range := if from_end then reverse range else range in
  let found := first_index (λ i, matches_by eq (drop i ls) needle) range in
  (∀ i, found = Some i ↔ nearest (stands R ls needle) start from_end i)
  ∧ (found = None ↔ ∀ j, start ≤ j → ¬ stands R ls needle j).
Proof.
  intros Heq Hn range0 range found.
  assert (∀ j, matches_by eq (drop j ls) needle = true ↔ stands R ls needle j) as Hm by (intros j; by apply matches_by_spec).
  assert (∀ j, j ∈ range ↔ start ≤ j ≤ length ls - length needle) as Hin.
  { intros j. unfold range, range0. destruct from_end; by rewrite ?elem_of_reverse, elem_of_range_inclusive. }
  assert (∀ j, stands R ls needle j → start ≤ j → j ∈ range) as Hst.
  { intros j Hj%stands_bound Hs; [|done]. apply Hin. lia. }
  split.
  - intros i. unfold found, nearest. destruct from_end.
    + rewrite (first_index_nearest ge) by (lia || apply reverse_seq_sorted). rewrite Hm. split.
      * intros (Hi%Hin & Hs & Hmin). split_and!; [lia|done|]. intros j Hj Hsj. destruct (Hmin j); [by apply Hst|by apply Hm|lia|lia].
      * intros (Hi & Hs & Hmin). split_and!; [by apply Hst|done|]. intros j [Hj _]%Hin Hsj%Hm. specialize (Hmin j Hj Hsj). lia.
    + rewrite (first_index_nearest le) by (lia || apply seq_sorted). rewrite Hm. split.
      * intros (Hi%Hin & Hs & Hmin). split_and!; [lia|done|]. intros j Hj Hsj. destruct (Hmin j); [by apply Hst|by apply Hm|lia|lia].
      * intros (Hi & Hs & Hmin). split_and!; [by apply Hst|done|]. intros j [Hj _]%Hin Hsj%Hm. specialize (Hmin j Hj Hsj). lia.
  - unfold found. rewrite first_index_None. split.
    + intros H j Hj Hs. specialize (H j (Hst _ Hs Hj)). apply Hm in Hs. congruence.
    + intros H j [Hj _]%Hin. apply not_true_is_false. by intros ?%Hm%H.
Qed.

(** A search finds the place it promises, or there is none. *)
Lemma seek_sequence_spec ls needle start eof i :
  seek_sequence ls needle start eof = Some i ↔ found_at ls needle start eof i.
Proof.
  unfold seek_sequence, found_at. case_bool_decide as Hn; [split; [done|by intros [? _]]|].
  destruct (pass_spec lines_match trimmed_eq ls needle start eof lines_match_same Hn) as [H1 H1n].
  destruct (pass_spec _ normalized_eq ls needle start eof lines_match_normalized_same Hn) as [H2 _].
  unfold matches_sequence, matches_sequence_normalized. cbn zeta in *.
  destruct (first_index (λ i, matches_by lines_match (drop i ls) needle) _) as [j|] eqn:Hj.
  - split.
    + intros [= ->]. split; [done|]. left. by apply H1.
    + intros [_ [H|[Hno _]]]; [by apply H1|]. pose proof (proj1 (H1 j) eq_refl) as (Hs & Hst & _). by destruct (Hno j).
  - rewrite H2. split; [intros H; split; [done|right; split; [by apply H1n|done]]|].
    intros [_ [(Hs & Hst & _)|[_ H]]]; [|done]. by destruct (proj1 H1n eq_refl i).
Qed.

Lemma seek_sequence_none ls needle start eof :
  seek_sequence ls needle start eof = None ↔ ∀ i, ¬ found_at ls needle start eof i.
Proof.
  split.
  - intros H i Hf%seek_sequence_spec. congruence.
  - intros H. destruct (seek_sequence _ _ _ _) as [i|] eqn:Hs; [|done]. by apply seek_sequence_spec, H in Hs.
Qed.

Lemma found_at_bound ls needle start eof i : found_at ls needle start eof i → start ≤ i ∧ i + length needle ≤ length ls.
Proof. intros [Hn [(? & ?%stands_bound & _)|[_ (? & ?%stands_bound & _)]]]; done. Qed.

(** Context lines: their end is the place the code goes on from, and it does not go back. *)
Lemma find_contexts_spec ls ctxs li c : find_contexts ls ctxs li = Ok c ↔ contexts_end ls li ctxs c.
Proof.
  revert li. induction ctxs as [|ctx ctxs IH]; intros li; simpl.
  { split; [intros [= ->]; constructor|by inversion 1]. }
  destruct (seek_sequence ls [ctx] li false) as [i|] eqn:Hs.
  - apply seek_sequence_spec in Hs as Hf. rewrite IH. split; [by apply contexts_next|].
    inversion_clear 1 as [|? ? ? i' ? Hi Hc]. apply seek_sequence_spec in Hi. congruence.
  - split; [done|]. inversion_clear 1 as [|? ? ? i' ? Hi Hc]. apply seek_sequence_spec in Hi. congruence.
Qed.

Lemma contexts_end_ge ls c ctxs c' : contexts_end ls c ctxs c' → c ≤ c'.
Proof. induction 1 as [|c ctx ctxs i c' Hf _ IH]; [done|]. apply found_at_bound in Hf. lia. Qed.

Lemma lands_ge ls chunk c p n new next :
  lands ls chunk c p n new next → (old_lines chunk = [] → is_end_of_file chunk = true → last_is_empty ls = false) →
  (c ≤ p ∨ p = length ls) ∧ (n = 0 ∨ p + n ≤ length ls) ∧ p + n ≤ next.
Proof.
  intros [? ? ?|p' Ho ? He Hp|p' Hf|p' pat ? ? Hf] Heof; [split_and!; [by left|by left|lia]| | |].
  - rewrite (Heof Ho He) in Hp. split_and!; [by right|by left|lia].
  - apply found_at_bound in Hf as [? ?]. split_and!; [by left|by right|lia].
  - apply found_at_bound in Hf as [? ?]. split_and!; [by left|by right|lia].
Qed.

Lemma contexts_end_le ls c ctxs c' : contexts_end ls c ctxs c' → c' ≤ length ls ∨ ctxs = [] ∧ c' = c.
Proof.
  induction 1 as [|c ctx ctxs i c' Hf _ IH]; [by right|]. left. apply found_at_bound in Hf as [_ Hb]. simpl in Hb.
  destruct IH as [?|[_ ->]]; lia.
Qed.

(** ** Replacements in order *)

Definition in_bounds (n : nat) (r : Replacement) : Prop := r_start r + r_len r ≤ n.
#[global] Instance in_bounds_dec n r : Decision (in_bounds n r).
Proof. unfold in_bounds. apply _. Defined.

Fixpoint in_order (e : nat) (reps : list Replacement) : Prop :=
  match reps with
  | [] => True
  | r :: reps => e ≤ r_start r ∧ in_order (r_start r + r_len r) reps
  end.

(** The lines from [e] on, with the replacements made. *)
Fixpoint rebuild (e : nat) (ls : list text) (reps : list Replacement) : list text :=
  match reps with
  | [] => drop e ls
  | r :: reps => take (r_start r - e) (drop e ls) ++ r_lines r ++ rebuild (r_start r + r_len r) ls reps
  end.

Definition eof_insertion (chunk : UpdateChunk) : Prop :=
  old_lines chunk = [] ∧ is_end_of_file chunk = true.

(** One chunk: its replacement is where it lands. *)
Lemma locate_lands ls chunk c p n new :
  old_lines chunk ≠ [] → locate ls chunk c = (Some p, n, new) ↔ lands ls chunk c p n new (p + n).
Proof.
  intros Hold. unfold locate. destruct (seek_sequence ls (old_lines chunk) c _) as [i|] eqn:H1.
  - apply seek_sequence_spec in H1 as Hf. split.
    { intros [= -> <- <-]. by apply lands_on_old. }
    inversion 1 as [? ? ?| |? Hf'|? ? ? Hno ?]; simplify_eq; [apply seek_sequence_spec in Hf'; congruence|by apply Hno in Hf].
  - pose proof (proj1 (seek_sequence_none _ _ _ _) H1) as Hno. destruct (last_is_empty (old_lines chunk)) eqn:Hl.
    + unfold last_is_empty in Hl. apply bool_decide_eq_true, last_Some in Hl as [pat Hpat].
      assert (drop_last (old_lines chunk) = pat) as ->.
      { rewrite Hpat. unfold drop_last. rewrite length_app. simpl. by rewrite Nat.add_sub, take_app_length. }
      split; [intros [= Hp <- <-]; apply lands_without_last; [done|done|by apply seek_sequence_spec]|].
      inversion 1 as [? ? ?| |? Hf'|? pat' Hpat' ? Hf']; simplify_eq; [by apply Hno in Hf'|].
      rewrite Hpat in Hpat'. apply app_inj_2 in Hpat' as [<- _]; [|done]. by apply seek_sequence_spec in Hf' as ->.
    + split; [done|]. inversion 1 as [? ? ?| |? Hf'|? pat' Hpat' ? Hf']; simplify_eq; [by apply Hno in Hf'|].
      unfold last_is_empty in Hl. rewrite Hpat', last_snoc in Hl. by apply bool_decide_eq_false in Hl.
Qed.

Lemma insertion_lands ls chunk c p n new next :
  old_lines chunk = [] →
  lands ls chunk c p n new next ↔
  new_lines chunk ≠ [] ∧ p = insertion_index ls chunk c ∧ n = 0 ∧ new = new_lines chunk ∧ next = p + length new.
Proof.
  intros Hold. unfold insertion_index. split.
  - intros [? ? ->|p' ? ? -> ->|p' [? _]|p' pat Hpat]; [done|done|done|]. rewrite Hold in Hpat. by destruct pat.
  - intros (Hnew & -> & -> & -> & ->). destruct (is_end_of_file chunk) eqn:He; [by apply lands_at_end|by apply lands_here].
Qed.

Lemma chunk_replacement_spec ls seq chunk li r li' :
  chunk_replacement ls seq chunk li = Ok (r, li') ↔
  ∃ c, contexts_end ls li (change_context chunk) c
       ∧ ((old_lines chunk = [] ∧ new_lines chunk = [] ∧ r = [] ∧ li' = c)
          ∨ ∃ p n new, lands ls chunk c p n new li' ∧ r = [{| r_start := p; r_len := n; r_lines := new; r_seq := seq |}]).
Proof.
  unfold chunk_replacement. destruct (find_contexts _ _ _) as [c|e] eqn:Hctx; cbn [result_bind].
  2: { split; [done|]. intros (c & Hc%find_contexts_spec & _). congruence. }
  apply find_contexts_spec in Hctx as Hc.
  assert (∀ Q : nat → Prop, (∃ c, contexts_end ls li (change_context chunk) c ∧ Q c) ↔ Q c) as Hcut.
  { intros Q. split; [|by exists c]. intros (c' & Hc'%find_contexts_spec & HQ). congruence. }
  rewrite Hcut. case_bool_decide as Hold; [case_bool_decide as Hnew|].
  - split; [intros [= <- <-]; by left|]. intros [(_ & _ & -> & ->)|(p & n & new & Hl & _)]; [done|].
    by apply insertion_lands in Hl as [? _].
  - split.
    + intros [= <- <-]. right. do 3 eexists. split; [by apply insertion_lands|done].
    + intros [(_ & ? & _)|(p & n & new & Hl & ->)]; [done|]. by apply insertion_lands in Hl as (_ & -> & -> & -> & ->).
  - split.
    + destruct (locate ls chunk c) as [[[p|] n] new] eqn:Hloc; [|done]. intros [= <- <-]. right.
      do 3 eexists. split; [by apply locate_lands|done].
    + intros [(? & _)|(p & n & new & Hl & ->)]; [done|].
      assert (li' = p + n) as -> by (inversion Hl; simplify_eq; done).
      by apply (locate_lands _ _ _ _ _ _ Hold) in Hl as ->.
Qed.

(** The replacements of a list of chunks, [e] being the end of those before. *)
Lemma all_replacements_patched ls chunks seq acc li reps e :
  all_replacements ls seq chunks acc li = Ok reps →
  (∀ chunk, chunk ∈ chunks → eof_insertion chunk → last_is_empty ls = false) → e ≤ li → e ≤ length ls →
  ∃ new, reps = acc ++ new ∧ StronglySorted (λ r s, r_seq r < r_seq s) new ∧ (∀ r, r ∈ new → seq ≤ r_seq r) ∧
    (Forall (in_bounds (length ls)) new → in_order e new ∧ patched ls e li chunks (rebuild e ls new)).
Proof.
  revert seq acc li e. induction chunks as [|chunk chunks IH]; intros seq acc li e; simpl.
  { intros [= <-] _ _ _. exists []. rewrite app_nil_r. split_and!; [done|constructor|by intros ? ?%elem_of_nil|].
    intros _. split; [done|constructor]. }
  intros ([r li'] & Hc & Hrest)%result_bind_Ok Heof Hli Hn.
  assert (Heof' : ∀ c, c ∈ chunks → eof_insertion c → last_is_empty ls = false) by (intros; eapply Heof; [by right|done]).
  apply chunk_replacement_spec in Hc as (c & Hctx & [(Hold & Hnew & -> & ->)|(p & n & new & Hl & ->)]);
    pose proof (contexts_end_ge _ _ _ _ Hctx) as Hge.
  - destruct (IH _ _ _ e Hrest Heof') as (reps' & -> & Hs & Hmin & Hok); [lia|done|].
    rewrite app_nil_r. exists reps'. split_and!; [done|done|intros s Hs'%Hmin; lia|].
    intros Hall. destruct (Hok Hall) as [Hord Hp]. split; [done|]. by eapply patched_nothing.
  - destruct (lands_ge _ _ _ _ _ _ _ Hl) as (Hpos & _ & Hnext); [intros; eapply Heof; [by left|done]|].
    set (rep := {| r_start := p; r_len := n; r_lines := new; r_seq := seq |}) in *.
    destruct (decide (in_bounds (length ls) rep)) as [Hb|Hb]; unfold in_bounds in Hb; cbn in Hb.
    + destruct (IH _ _ _ (p + n) Hrest Heof') as (reps' & -> & Hs & Hmin & Hok); [lia|done|].
      exists (rep :: reps'). rewrite <- app_assoc. split_and!; [done| | |].
      * constructor; [done|]. apply Forall_forall. intros s Hs'%Hmin. cbn. lia.
      * intros s [->|Hs']%elem_of_cons; [done|]. apply Hmin in Hs'. lia.
      * intros [_ Hall]%Forall_cons. destruct (Hok Hall) as [Hord Hp]. split; [split; [cbn; lia|done]|]. simpl.
        eapply patched_chunk; [done|done|lia|done|done].
    + destruct (IH _ _ _ 0 Hrest Heof') as (reps' & -> & Hs & Hmin & _); [lia|lia|].
      exists (rep :: reps'). rewrite <- app_assoc. split_and!; [done| | |].
      * constructor; [done|]. apply Forall_forall. intros s Hs'%Hmin. cbn. lia.
      * intros s [->|Hs']%elem_of_cons; [done|]. apply Hmin in Hs'. lia.
      * by intros [? _]%Forall_cons.
Qed.

Lemma patched_replacements ls e c chunks out seq acc :
  patched ls e c chunks out →
  ∃ new, all_replacements ls seq chunks acc c = Ok (acc ++ new) ∧ StronglySorted (λ r s, r_seq r < r_seq s) new
    ∧ (∀ r, r ∈ new → seq ≤ r_seq r) ∧ Forall (in_bounds (length ls)) new ∧ in_order e new ∧ out = rebuild e ls new.
Proof.
  intros Hp. revert seq acc.
  induction Hp as [e c|e c chunk chunks c' out Hold Hnew Hctx _ IH|e c chunk chunks c' p n new next out Hctx Hl He Hb _ IH];
    intros seq acc; cbn [all_replacements].
  - exists []. rewrite app_nil_r. split_and!; [done|constructor|by intros ? ?%elem_of_nil|constructor|done|done].
  - rewrite (proj2 (chunk_replacement_spec ls seq chunk c [] c')) by (exists c'; split; [done|by left]). cbn [result_bind].
    destruct (IH (S seq) (acc ++ [])) as (reps & Hr & Hs & Hmin & Hrest). rewrite app_nil_r in Hr at 2. exists reps.
    split_and!; [done|done|intros r Hr'%Hmin; lia|apply Hrest..].
  - set (rep := {| r_start := p; r_len := n; r_lines := new; r_seq := seq |}).
    rewrite (proj2 (chunk_replacement_spec ls seq chunk c [rep] next)) by (exists c'; split; [done|right; by exists p, n, new]).
    cbn [result_bind]. destruct (IH (S seq) (acc ++ [rep])) as (reps & Hr & Hs & Hmin & Hall & Hord & ->).
    exists (rep :: reps). rewrite <- app_assoc in Hr. split_and!; [done| | |by constructor|by split|done].
    + constructor; [done|]. apply Forall_forall. intros s Hs'%Hmin. cbn. lia.
    + intros s [->|Hs']%elem_of_cons; [done|]. apply Hmin in Hs'. lia.
Qed.

(** ** Splicing *)

Lemma foldl_apply_None reps : foldl apply_replacement None reps = None.
Proof. induction reps; simpl; done. Qed.

(** Splicing replacements in order, from the last one, rebuilds the lines. *)
Lemma splice_in_order ls reps e :
  Forall (in_bounds (length ls)) reps → in_order e reps → e ≤ length ls →
  foldl apply_replacement (Some ls) (reverse reps) = Some (take e ls ++ rebuild e ls reps).
Proof.
  revert e. induction reps as [|r reps IH]; intros e; simpl.
  { intros _ _ _. by rewrite take_drop. }
  intros [Hb Hall]%Forall_cons [Hge Hord] He. rewrite reverse_cons, foldl_app. simpl.
  rewrite (IH _ Hall Hord Hb). unfold apply_replacement, in_bounds in *. simpl. unfold splice.
  rewrite length_app, length_take, !Nat.min_l by lia.
  rewrite decide_True by lia. f_equal.
  rewrite drop_app_ge by (rewrite length_take; lia). rewrite length_take, Nat.min_l, Nat.sub_diag, drop_0 by lia.
  rewrite take_app_le by (rewrite length_take; lia). rewrite take_take, Nat.min_l by lia.
  rewrite !app_assoc. do 2 f_equal.
  replace (r_start r) with (e + (r_start r - e)) at 1 by lia. by rewrite take_take_drop.
Qed.

(** Replacements by decreasing start never reach outside of what is left. *)
Lemma splice_total ls reps :
  StronglySorted (λ r s, r_start r ≤ r_start s) reps → (∀ r, r ∈ reps → r_start r ≤ length ls) →
  ∃ ls', foldl apply_replacement (Some ls) (reverse reps) = Some ls' ∧
    ∀ k, k ≤ length ls → (∀ r, r ∈ reps → k ≤ r_start r) → k ≤ length ls'.
Proof.
  induction 1 as [|r reps _ IH Hle]; intros Hall.
  { exists ls. by split. }
  destruct IH as (l & Hl & Hk); [intros; apply Hall; by right|].
  rewrite reverse_cons, foldl_app, Hl. simpl. rewrite Forall_forall in Hle.
  assert (r_start r ≤ length l) as Hs by (apply Hk; [apply Hall; by left|done]).
  unfold splice. rewrite decide_True by lia. eexists. split; [done|].
  intros k _ Hr. rewrite !length_app, length_take. specialize (Hr r ltac:(by left)). lia.
Qed.

(** A replacement that starts after the end of the file panics. *)
Lemma splice_panics ls reps r :
  StronglySorted (λ r s, r_start r ≤ r_start s) reps → r ∈ reps → length ls < r_start r →
  foldl apply_replacement (Some ls) (reverse reps) = None.
Proof.
  intros Hs Hr Hlen. destruct reps as [|s reps _] using rev_ind; [by apply elem_of_nil in Hr|].
  rewrite reverse_snoc. simpl. assert (length ls < r_start s) as Hlt.
  { apply elem_of_app in Hr as [Hr|Hr%list_elem_of_singleton]; [|by subst].
    enough (r_start r ≤ r_start s) by lia. clear -Hs Hr. induction reps as [|x reps IH]; [by apply elem_of_nil in Hr|].
    simpl in Hs. inversion_clear Hs as [|? ? Hs' Hx]. apply elem_of_cons in Hr as [->|Hr]; [|by apply IH].
    rewrite Forall_forall in Hx. apply Hx, elem_of_app. right. by left. }
  unfold splice. rewrite decide_False by lia. apply foldl_apply_None.
Qed.

(** ** Theorems *)

Lemma start_seq_sorted e reps :
  in_order e reps → StronglySorted (λ r s, r_seq r < r_seq s) reps →
  (∀ r, r ∈ reps → e ≤ r_start r) ∧ StronglySorted (key_le (λ r, (r_start r, r_seq r))) reps.
Proof.
  revert e. induction reps as [|r reps IH]; intros e; simpl.
  { intros _ _. split; [by intros ? ?%elem_of_nil|constructor]. }
  intros [Hge Hord] [Hs Hr]%StronglySorted_inv. destruct (IH _ Hord Hs) as [Hmin Hsort].
  split; [intros s [->|Hs']%elem_of_cons; [done|]; apply Hmin in Hs'; lia|].
  constructor; [done|]. rewrite Forall_forall in *. intros s Hs'. specialize (Hmin s Hs'). specialize (Hr s Hs').
  unfold key_le, rle. rewrite rcmp_pair. unfold rcmp, nat_ord.
  destruct (Nat.compare_spec (r_start r) (r_start s)); simpl; [|done|lia].
  destruct (Nat.compare_spec (r_seq r) (r_seq s)); [lia|done|lia].
Qed.

Lemma sorted_starts reps :
  StronglySorted (λ r s, r_start r ≤ r_start s) (sort_by_key (λ r, (r_start r, r_seq r)) reps).
Proof.
  induction (sort_by_key_sorted (λ r, (r_start r, r_seq r)) reps) as [|r l _ IH Hr]; constructor; [done|].
  eapply Forall_impl; [exact Hr|]. intros s. unfold key_le, rle. rewrite rcmp_pair. unfold rcmp, nat_ord.
  destruct (Nat.compare_spec (r_start r) (r_start s)); simpl; [lia|lia|done].
Qed.

(** A replacement that takes lines out is within the file. *)
Lemma lands_bounded ls chunk c p n new next : lands ls chunk c p n new next → n = 0 ∨ p + n ≤ length ls.
Proof. intros [? ? ?|p' Ho ? He Hp|p' Hf|p' pat ? ? Hf]; [by left|by left|right; apply found_at_bound in Hf; lia..]. Qed.

Lemma all_replacements_bounded ls chunks seq acc li reps r :
  all_replacements ls seq chunks acc li = Ok reps → r ∈ reps → r ∈ acc ∨ r_len r = 0 ∨ in_bounds (length ls) r.
Proof.
  revert seq acc li. induction chunks as [|chunk chunks IH]; intros seq acc li; simpl.
  { intros [= <-]. by left. }
  intros ([new li'] & Hc & Hrest)%result_bind_Ok Hr. destruct (IH _ _ _ Hrest Hr) as [Hr'|?]; [|by right].
  apply elem_of_app in Hr' as [?|Hr']; [by left|right]. clear Hrest IH.
  apply chunk_replacement_spec in Hc as (c & _ & [(_ & _ & -> & _)|(p & n & new' & Hl & ->)]); [by apply elem_of_nil in Hr'|].
  apply list_elem_of_singleton in Hr' as ->. by apply lands_bounded in Hl.
Qed.

(** The text put back together. *)
Definition finish_text (original : text) (ls : list text) : text :=
  if bool_decide (join_lines ls ≠ []) || ends_with_char 10 original
  then join_lines ls ++ [10%N] else join_lines ls.

(** Replacements in order are spliced as they were made. *)
Lemma apply_in_order original chunks reps :
  let ls := lines original in
  all_replacements ls 0 chunks [] 0 = Ok reps → Forall (in_bounds (length ls)) reps → in_order 0 reps →
  StronglySorted (λ r s, r_seq r < r_seq s) reps →
  apply_update_chunks original chunks = Some (Ok (finish_text original (rebuild 0 ls reps))).
Proof.
  intros ls Hall Hb Hord Hseq. unfold apply_update_chunks, compute_replacements. fold ls. rewrite Hall. cbn [result_bind].
  destruct (start_seq_sorted _ _ Hord Hseq) as [_ Hsort]. rewrite (sort_by_key_id _ _ Hsort).
  rewrite (splice_in_order ls reps 0) by (done || lia). done.
Qed.

(** C23. A patch applies just when its chunks land in the file one after the other, and the outcome is the
    file with their edits and nothing else changed.  Where a chunk lands is pinned: its context lines are the next
    that match, from where the chunk before left off; its old lines are the first that match from there (the
    last, for a chunk at the end of the file), equal up to trailing white space if any are, otherwise up
    to typographic dashes and quotes too; a chunk that only inserts does so right there, or at the end of the
    file, and moves the search on by the lines it inserts.  Excepted are chunks that only insert at the end of a
    file whose last line is empty: they may overwrite, [eof_insertion_overwrites]. *)
Theorem patch_is_exact original chunks out :
  (∀ chunk, chunk ∈ chunks → eof_insertion chunk → last_is_empty (lines original) = false) →
  apply_update_chunks original chunks = Some (Ok out)
  ↔ ∃ ls, patched (lines original) 0 0 chunks ls ∧ out = finish_text original ls.
Proof.
  intros Heof. set (ls := lines original) in *. split.
  - unfold apply_update_chunks, compute_replacements. fold ls.
    destruct (all_replacements ls 0 chunks [] 0) as [reps|e] eqn:Hall; simpl; [|done]. intros Happly.
    destruct (all_replacements_patched _ _ _ _ _ _ 0 Hall Heof) as (new & Heq & Hseq & _ & Hok); [lia|lia|].
    simpl in Heq. subst new.
    assert (Forall (in_bounds (length ls)) reps) as Hb.
    { apply Forall_forall. intros r Hr. destruct (decide (in_bounds (length ls) r)) as [?|Hn]; [done|exfalso].
      destruct (all_replacements_bounded _ _ _ _ _ _ r Hall Hr) as [H|[H|H]]; [by apply elem_of_nil in H| |done].
      unfold in_bounds in Hn. rewrite (splice_panics ls _ r) in Happly; [done|apply sorted_starts| |lia].
      by apply elem_of_sort_by_key. }
    destruct (Hok Hb) as [Hord Hp]. exists (rebuild 0 ls reps). split; [done|].
    pose proof (apply_in_order original chunks reps Hall Hb Hord Hseq) as Ha. fold ls in Ha.
    unfold apply_update_chunks, compute_replacements in Ha. fold ls in Ha. rewrite Hall in Ha. simpl in Ha. congruence.
  - intros (ls' & Hp & ->). destruct (patched_replacements _ _ _ _ _ 0 [] Hp) as (reps & Hall & Hseq & _ & Hb & Hord & ->).
    by apply apply_in_order.
Qed.

(** Applying a patch does not panic when every chunk that only inserts - and not at the end of
    the file - is the first one or names a context line. *)
Lemma patch_never_panics original chunks :
  (∀ i chunk, chunks !! i = Some chunk → old_lines chunk = [] → is_end_of_file chunk = false →
     i = 0 ∨ change_context chunk ≠ []) →
  ∃ r, apply_update_chunks original chunks = Some r.
Proof.
  intros Hins. unfold apply_update_chunks, compute_replacements. set (ls := lines original).
  destruct (all_replacements ls 0 chunks [] 0) as [reps|e] eqn:Hall; simpl; [|by eexists].
  assert (∀ r, r ∈ reps → r_start r ≤ length ls) as Hb.
  { assert (Hgen : ∀ chunks seq acc li, all_replacements ls seq chunks acc li = Ok reps →
      (∀ i chunk, chunks !! i = Some chunk → old_lines chunk = [] → is_end_of_file chunk = false →
         (i = 0 ∧ li ≤ length ls) ∨ change_context chunk ≠ []) →
      (∀ r, r ∈ acc → r_start r ≤ length ls) → ∀ r, r ∈ reps → r_start r ≤ length ls).
    { clear. intros chunks. induction chunks as [|chunk chunks IH]; intros seq acc li; simpl; [by intros [= ->]|].
      intros ([new li'] & Hc & Hrest)%result_bind_Ok Hins Hacc. apply (IH _ _ _ Hrest).
      { intros i c Hi Ho He. destruct (Hins (S i) c Hi Ho He) as [[? _]|?]; [done|by right]. }
      intros r [?|Hr]%elem_of_app; [by apply Hacc|].
      apply chunk_replacement_spec in Hc as (c & Hctx & [(_ & _ & -> & _)|(p & n & new' & Hl & ->)]); [by apply elem_of_nil in Hr|].
      apply list_elem_of_singleton in Hr as ->. cbn [r_start].
      destruct Hl as [Hold ? He|p Hold ? He ->|p Hf|p pat ? ? Hf]; [|destruct (last_is_empty ls); lia|apply found_at_bound in Hf; lia..].
      apply contexts_end_le in Hctx as [?|[Hnil ->]]; [done|]. by destruct (Hins 0 chunk eq_refl Hold He) as [[_ ?]|?]. }
    apply (Hgen chunks 0 [] 0 Hall); [|by intros ? ?%elem_of_nil].
    intros i c Hi Ho He. destruct (Hins i c Hi Ho He); [left; split; [done|lia]|by right]. }
  destruct (splice_total ls _ (sorted_starts reps)) as (ls' & -> & _); [|by eexists].
  intros r Hr%elem_of_sort_by_key. by apply Hb.
Qed.
