(* ===== verification/PatchParse.v ===== *)
(** * The patch parser

    [Patch.parse_patch] always answers, what it accepts is well formed, and every well-formed
    patch is what it reads from a text: a printer, [print_patch], is its right inverse. *)

From stdpp Require Import list strings sets.
From S2P Require Import Prelude RustStr Patch.


#[local] Arguments lit _ : simpl never.
#[local] Arguments trim _ : simpl never.
#[local] Arguments starts_with _ _ : simpl never.
#[local] Arguments strip_prefix _ _ : simpl never.

(** ** Well-formed patches *)

(** A line of a text. *)
Definition clean (l : text) : Prop := 10%N ∉ l.
(** A path or a context line. *)
Record trimmed (l : text) : Prop := { tr_some : l ≠ []; tr_trim : trim l = l; tr_clean : clean l }.

Definition has_body (c : UpdateChunk) : Prop :=
  old_lines c ≠ [] ∨ new_lines c ≠ [] ∨ is_end_of_file c = true.
Record wf_chunk (c : UpdateChunk) : Prop := {
  wc_context : Forall trimmed (change_context c);
  wc_old : Forall clean (old_lines c);
  wc_new : Forall clean (new_lines c);
}.
(** Only the last chunk can be empty: [@@] lines after an empty one would belong to it. *)
Fixpoint wf_chunks (cs : list UpdateChunk) : Prop :=
  match cs with
  | [] => True
  | c :: cs => wf_chunk c ∧ (cs = [] ∨ has_body c) ∧ wf_chunks cs
  end.
Definition wf_operation (op : FileOperation) : Prop :=
  match op with
  | Add path contents => trimmed path ∧ (contents = [] ∨ last contents = Some 10%N)
  | Delete path => trimmed path
  | Update path move_to chunks =>
      trimmed path ∧ (∀ p, move_to = Some p → trimmed p) ∧ chunks ≠ [] ∧ wf_chunks chunks
  end.
Record wf_patch (p : ParsedPatch) : Prop := {
  wp_some : operations p ≠ [];
  wp_operations : Forall wf_operation (operations p);
}.

(** ** The parser answers, with well-formed patches *)

(** The parser moves forward through clean lines. *)
Definition moves (rest rest' : list text) : Prop := length rest' ≤ length rest ∧ Forall clean rest'.

Lemma strip_prefix_clean p l r : strip_prefix p l = Some r → clean l → clean r.
Proof. intros ->%strip_prefix_Some Hc Hr. apply Hc, elem_of_app. by right. Qed.

Lemma trim_clean l : clean l → clean (trim l).
Proof.
  intros Hc Hin. apply Hc. destruct (trim_infix l) as (p & q & Hl). rewrite Hl, !elem_of_app. tauto.
Qed.

Lemma trim_trimmed l : clean l → trim l ≠ [] → trimmed (trim l).
Proof. intros Hc Hn. split; [done|apply trim_idem|by apply trim_clean]. Qed.

Lemma header_path_ok k w i header path : header_path k w i header = Ok path → clean header → trimmed path.
Proof.
  unfold header_path. destruct (strip_prefix (lit k) (trim header)) as [rest|] eqn:Hs; [|done].
  case_bool_decide as Hn; [done|]. intros [= <-] Hc. apply trim_trimmed; [|done].
  eapply strip_prefix_clean; [exact Hs|]. by apply trim_clean.
Qed.

Lemma add_lines_ok i rest content content' i' rest' :
  add_lines i rest content = Ok (content', i', rest') → Forall clean rest → moves rest rest'.
Proof.
  revert i content. induction rest as [|line rest IH]; intros i content; simpl.
  { intros [= <- <- <-] _. by split. }
  destruct (starts_with _ _); [intros [= <- <- <-]; by split|].
  destruct (strip_prefix _ line) as [l|] eqn:Hl; [|done].
  intros Ha [_ Hc]%Forall_cons. apply IH in Ha as [Hle ?]; [|done]. split; [simpl; lia|done].
Qed.

Lemma parse_add_file_ok i header rest op i' rest' :
  parse_add_file i header rest = Ok (op, i', rest') → clean header → Forall clean rest →
  wf_operation op ∧ moves rest rest'.
Proof.
  unfold parse_add_file. intros (path & Hp & H)%result_bind_Ok Hh Hr.
  apply result_bind_Ok in H as ([[content i1] r1] & Ha & [= <- <- <-]).
  split; [|by eapply add_lines_ok]. split; [by eapply header_path_ok|].
  case_bool_decide; [by left|right]. by rewrite last_snoc.
Qed.

Lemma parse_delete_file_ok i header rest op i' rest' :
  parse_delete_file i header rest = Ok (op, i', rest') → clean header → Forall clean rest →
  wf_operation op ∧ moves rest rest'.
Proof.
  unfold parse_delete_file. intros (path & Hp & [= <- <- <-])%result_bind_Ok Hh Hr.
  split; [|by split]. by eapply header_path_ok.
Qed.

Lemma hunk_context_ok i rest ctxs i' rest' :
  hunk_context i rest = (ctxs, i', rest') → Forall clean rest →
  Forall trimmed ctxs ∧ moves rest rest' ∧
  (∀ line l, rest' = line :: l → starts_with (lit "@@") (trim line) = false) ∧
  (∀ line l, rest = line :: l → starts_with (lit "@@") (trim line) = true → length rest' < length rest).
Proof.
  revert i ctxs i'. induction rest as [|line rest IH]; intros i ctxs i'; simpl.
  { intros [= <- <- <-] _. split_and!; [constructor|by split|done|done]. }
  destruct (strip_prefix (lit "@@") (trim line)) as [ctx|] eqn:Hs.
  - destruct (hunk_context (S i) rest) as [[ctxs0 i0] rest0] eqn:Hh. intros [= <- <- <-] [Hc Hr]%Forall_cons.
    destruct (IH _ _ _ Hh Hr) as (Ht & [Hle Hcl] & Hat & _). split_and!; [|split; [simpl; lia|done]|done|].
    + case_bool_decide as Hn; [done|]. constructor; [|done]. apply trim_trimmed; [|done].
      eapply strip_prefix_clean; [exact Hs|]. by apply trim_clean.
    + intros _ _ _ _. simpl. lia.
  - intros [= <- <- <-] Hr. split_and!; [constructor|by split| |];
      intros line' l [= <- <-]; unfold starts_with; by rewrite Hs.
Qed.

(** A hunk body ends at the end of the patch or at a [***] or [@@] line, unless it saw the
    end of the file; the lines it has read are its old and new lines. *)
Lemma hunk_body_ok i rest old new old' new' eof i' rest' :
  hunk_body i rest old new = Ok (old', new', eof, i', rest') →
  Forall clean rest → Forall clean old → Forall clean new →
  Forall clean old' ∧ Forall clean new' ∧ moves rest rest' ∧
  (length rest' = length rest → eof = false ∧ old' = old ∧ new' = new ∧ rest' = rest ∧
     ∀ line l, rest = line :: l → starts_with (lit "*** ") (trim line) = true ∨ starts_with (lit "@@") (trim line) = true) ∧
  (length rest' < length rest → eof = true ∨ length old + length new < length old' + length new') ∧
  length old + length new ≤ length old' + length new'.
Proof.
  revert i old new. induction rest as [|line rest IH]; intros i old new; simpl.
  { intros [= <- <- <- <- <-] _ Ho Hn. split_and!; [done|done|by split| |lia|lia]. intros _. by split_and!. }
  destruct (starts_with (lit "*** End of File") (trim line)).
  { intros [= <- <- <- <- <-] [_ Hr]%Forall_cons Ho Hn. split_and!; [done|done|split; [simpl; lia|done]|lia|by left|lia]. }
  destruct (starts_with (lit "*** ") (trim line) || starts_with (lit "@@") (trim line)) eqn:Hst.
  { intros [= <- <- <- <- <-] Hr Ho Hn. split_and!; [done|done|by split| |simpl; lia|lia].
    intros _. split_and!; [done..|]. intros line' l [= <- <-]. by apply orb_true_iff. }
  assert (Hstep : ∀ o n, hunk_body (S i) rest o n = Ok (old', new', eof, i', rest') →
    Forall clean rest → Forall clean o → Forall clean n →
    length old + length new < length o + length n →
    Forall clean old' ∧ Forall clean new' ∧ moves (line :: rest) rest' ∧
    (length rest' = length (line :: rest) → eof = false ∧ old' = old ∧ new' = new ∧ rest' = line :: rest ∧
       ∀ line' l, line :: rest = line' :: l →
         starts_with (lit "*** ") (trim line') = true ∨ starts_with (lit "@@") (trim line') = true) ∧
    (length rest' < length (line :: rest) → eof = true ∨ length old + length new < length old' + length new') ∧
    length old + length new ≤ length old' + length new').
  { intros o n Hb Hr Ho Hn Hlt. destruct (IH _ _ _ Hb Hr Ho Hn) as (? & ? & [Hle ?] & _ & _ & Hge).
    split_and!; [done|done|split; [simpl; lia|done]|simpl; lia|right; lia|lia]. }
  destruct line as [|c l].
  - intros Hb [Hc Hr]%Forall_cons Ho Hn. apply (Hstep _ _ Hb Hr); [|by apply Forall_app; repeat constructor..|].
    + by apply Forall_app; repeat constructor.
    + rewrite !length_app. simpl. lia.
  - assert (Hcl : clean (c :: l) → Forall clean [l]).
    { intros Hc. repeat constructor. intros Hin. apply Hc. by right. }
    destruct (c =? 43)%N; [|destruct (c =? 45)%N; [|destruct (c =? 32)%N; [|done]]];
      intros Hb [Hc Hr]%Forall_cons Ho Hn; specialize (Hcl Hc); apply (Hstep _ _ Hb Hr);
      rewrite ?Forall_app, ?length_app; simpl; try done; try lia.
Qed.


(** Different beginnings exclude each other. *)
Lemma starts_with_not p q t :
  starts_with p t = true → strip_prefix p q = None → strip_prefix q p = None → starts_with q t = false.
Proof.
  intros Hp Hq Hq'. destruct (starts_with q t) eqn:E; [|done]. exfalso.
  apply starts_with_spec in Hp as [x ->], E as [y E]. revert q Hq Hq' E.
  induction p as [|a p IH]; intros [|b q]; try done. simpl.
  intros Hq Hq' [= <- E]. unfold strip_prefix in Hq, Hq'. rewrite !N.eqb_refl in *. by apply (IH q).
Qed.

Lemma starts_with_weaken p q t : starts_with (p ++ q) t = true → starts_with p t = true.
Proof. rewrite !starts_with_spec. intros [x ->]. exists (q ++ x). by rewrite app_assoc. Qed.

Definition stars (rest : list text) : Prop :=
  ∀ line l, rest = line :: l → starts_with (lit "*** ") (trim line) = true.

Lemma parse_hunk_ok i line rest chunk i' rest' :
  parse_hunk i (line :: rest) = Ok (chunk, i', rest') → starts_hunk (trim line) = true →
  Forall clean (line :: rest) →
  wf_chunk chunk ∧ (has_body chunk ∨ stars rest') ∧ length rest' ≤ length rest ∧ Forall clean rest'.
Proof.
  unfold parse_hunk. destruct (hunk_context i (line :: rest)) as [[ctxs i1] r1] eqn:Hctx.
  intros (b & Hb & H)%result_bind_Ok Hst Hc. destruct b as [[[[old new] eof] i2] r2]. injection H as <- <- <-.
  destruct (hunk_context_ok _ _ _ _ _ Hctx Hc) as (Ht & [Hle Hr1] & Hat & Hless).
  destruct (hunk_body_ok _ _ _ _ _ _ _ _ _ Hb Hr1) as (Ho & Hn & [Hle2 Hr2] & Heq & Hlt & _); [constructor..|].
  split_and!; [by split| | |done].
  - destruct (decide (length r2 = length r1)) as [He|He].
    + destruct (Heq He) as (_ & _ & _ & -> & Hhead). right. intros l ls ->.
      destruct (Hhead l ls eq_refl) as [?|Hbad]; [done|]. by rewrite (Hat l ls) in Hbad.
    + destruct Hlt as [->|Hlen]; [lia|left; right; by right|]. left. unfold has_body. simpl.
      destruct old; [destruct new; [simpl in Hlen; lia|right; by left]|by left].
  - destruct (starts_with (lit "@@") (trim line)) eqn:Hats.
    + specialize (Hless line rest eq_refl Hats). simpl in Hless. lia.
    + assert (r1 = line :: rest) as ->.
      { simpl in Hctx. unfold starts_with in Hats. destruct (strip_prefix (lit "@@") (trim line)); [done|].
        by injection Hctx as <- <- <-. }
      destruct (decide (length r2 = length (line :: rest))) as [He|He]; [|simpl in *; lia].
      destruct (Heq He) as (_ & _ & _ & _ & Hhead). destruct (Hhead line rest eq_refl) as [Hs|Hs]; [|congruence].
      exfalso. unfold starts_hunk in Hst. rewrite Hats in Hst.
      by rewrite !(starts_with_not (lit "*** ") _ _ Hs) in Hst by done.
Qed.

Lemma stars_not_hunk line : starts_with (lit "*** ") (trim line) = true →
  starts_hunk (trim line) = false ∧ trim line ≠ [].
Proof.
  intros Hs. split; [|by intros Hn; rewrite Hn in Hs]. unfold starts_hunk.
  by rewrite !(starts_with_not (lit "*** ") _ _ Hs) by done.
Qed.

Lemma update_hunks_ok fuel i rest chunks :
  length rest ≤ fuel → Forall clean rest →
  ∃ r, update_hunks fuel i rest chunks = Some r ∧ ∀ chunks' i' rest', r = Ok (chunks', i', rest') →
    ∃ new, chunks' = chunks ++ new ∧ wf_chunks new ∧ moves rest rest' ∧ (stars rest → new = []).
Proof.
  revert i rest chunks. induction fuel as [|fuel IH]; intros i rest chunks Hf Hc.
  { destruct rest; [|simpl in Hf; lia]. simpl. eexists. split; [done|]. intros ? ? ? [= <- <- <-].
    exists []. rewrite app_nil_r. split_and!; [done|done|by split|done]. }
  destruct rest as [|line rest].
  { simpl. eexists. split; [done|]. intros ? ? ? [= <- <- <-].
    exists []. rewrite app_nil_r. split_and!; [done|done|by split|done]. }
  simpl in Hf. cbn [update_hunks]. destruct (ends_update (trim line)) eqn:He.
  { eexists. split; [done|]. intros ? ? ? [= <- <- <-].
    exists []. rewrite app_nil_r. split_and!; [done|done|by split|done]. }
  destruct (starts_hunk (trim line)) eqn:Hst.
  - destruct (parse_hunk i (line :: rest)) as [[[chunk i1] r1]|e] eqn:Hh; [|by eexists].
    destruct (parse_hunk_ok _ _ _ _ _ _ Hh Hst Hc) as (Hwf & Hbody & Hle & Hr1).
    destruct (IH i1 r1 (chunks ++ [chunk])) as (r & Hr & Hok); [lia|done|]. exists r. split; [done|].
    intros chunks' i' rest' ->. destruct (Hok _ _ _ eq_refl) as (new & -> & Hnew & [Hle' ?] & Hstop).
    exists (chunk :: new). rewrite <- app_assoc. split_and!; [done| |split; [simpl; lia|done]|].
    + split_and!; [done| |done]. destruct Hbody as [?|?]; [by right|left; by apply Hstop].
    + intros Hs. specialize (Hs line rest eq_refl). apply stars_not_hunk in Hs as [Hs _]. congruence.
  - case_bool_decide as Hn; [|by eexists]. inversion_clear Hc as [|? ? _ Hr].
    destruct (IH (S i) rest chunks) as (r & -> & Hok); [lia|done|]. exists r. split; [done|].
    intros chunks' i' rest' ->. destruct (Hok _ _ _ eq_refl) as (new & -> & Hnew & [Hle' ?] & Hstop).
    exists new. split_and!; [done|done|split; [simpl; lia|done]|].
    intros Hs. specialize (Hs line rest eq_refl). by apply stars_not_hunk in Hs as [_ ?].
Qed.

Lemma move_target_ok i rest m i' rest' :
  move_target i rest = Ok (m, i', rest') → Forall clean rest →
  (∀ p, m = Some p → trimmed p) ∧ moves rest rest'.
Proof.
  unfold move_target. destruct rest as [|line rest]; [by intros [= <- <- <-]|].
  destruct (strip_prefix _ (trim line)) as [p|] eqn:Hs; [|by intros [= <- <- <-]].
  case_bool_decide as Hn; [done|]. intros [= <- <- <-] [Hl Hr]%Forall_cons. split; [|by split; [simpl; lia|]].
  intros p' [= <-]. apply trim_trimmed; [|done]. eapply strip_prefix_clean; [exact Hs|]. by apply trim_clean.
Qed.

Lemma parse_update_file_ok i header rest :
  clean header → Forall clean rest →
  ∃ r, parse_update_file i header rest = Some r ∧ ∀ op i' rest', r = Ok (op, i', rest') →
    wf_operation op ∧ moves rest rest'.
Proof.
  intros Hh Hr. unfold parse_update_file.
  destruct (header_path _ _ i header) as [path|] eqn:Hp; simpl; [|by eexists].
  destruct (move_target (S i) rest) as [[[m i1] r1]|] eqn:Hm; simpl; [|by eexists].
  apply move_target_ok in Hm as [Hm [Hle Hr1]]; [|done].
  destruct (update_hunks_ok (length r1) i1 r1 []) as (u & -> & Hok); [done|done|]. simpl.
  eexists. split; [done|]. intros op i' rest' ([[chunks i2] r2] & Hu & Hres)%result_bind_Ok.
  case_bool_decide as Hn; [done|]. injection Hres as <- <- <-.
  destruct (Hok _ _ _ Hu) as (new & -> & Hwf & [Hle2 ?] & _). split; [|split; [lia|done]].
  split_and!; [by eapply header_path_ok|done|done|done].
Qed.

Lemma patch_loop_ok fuel i rest ops :
  length rest ≤ fuel → Forall clean rest → Forall wf_operation ops →
  ∃ r, patch_loop fuel i rest ops = Some r ∧ ∀ ops' found, r = Ok (ops', found) → Forall wf_operation ops'.
Proof.
  revert i rest ops. induction fuel as [|fuel IH]; intros i rest ops Hf Hc Hops.
  { destruct rest; [|simpl in Hf; lia]. simpl. eexists. split; [done|]. by intros ? ? [= <- <-]. }
  destruct rest as [|raw rest].
  { simpl. eexists. split; [done|]. by intros ? ? [= <- <-]. }
  simpl in Hf. apply Forall_cons in Hc as [Hraw Hc]. cbn [patch_loop].
  destruct (starts_with (lit "*** End Patch") _); [eexists; split; [done|]; by intros ? ? [= <- <-]|].
  assert (Hnext : ∀ r0, (∃ r1, r0 = Some r1 ∧ ∀ op i' rest', r1 = Ok (op, i', rest') → wf_operation op ∧ moves rest rest') →
    ∃ r, (parsed ← r0; match parsed with Err e => Some (Err e) | Ok (op, i, rest) => patch_loop fuel i rest (ops ++ [op]) end) = Some r
      ∧ ∀ ops' found, r = Ok (ops', found) → Forall wf_operation ops').
  { intros r0 (r1 & -> & Hok). simpl. destruct r1 as [[[op i'] rest']|e]; [|by eexists].
    destruct (Hok _ _ _ eq_refl) as [Hwf [Hle Hr]]. apply IH; [lia|done|]. by apply Forall_app; repeat constructor. }
  case_bool_decide; [apply IH; [lia|done|done]|].
  destruct (starts_with (lit "*** Add File:") _).
  { apply Hnext. eexists. split; [done|]. intros op i' rest' Hp. by eapply parse_add_file_ok. }
  destruct (starts_with (lit "*** Delete File:") _).
  { apply Hnext. eexists. split; [done|]. intros op i' rest' Hp. by eapply parse_delete_file_ok. }
  destruct (starts_with (lit "*** Update File:") _); [apply Hnext, parse_update_file_ok; done|by eexists].
Qed.

Lemma skip_blank_ok i rest : Forall clean rest → Forall clean (skip_blank i rest).2.
Proof.
  revert i. induction rest as [|line rest IH]; intros i; simpl; [done|].
  intros Hc. case_bool_decide; [|done]. apply Forall_cons in Hc as [_ ?]. by apply IH.
Qed.

(** C24. Parsing a patch always answers, and what it accepts is well formed: there is an
    operation; paths, move targets and context lines are trimmed, not empty and single
    lines; added files are empty or end with a line feed; an update has a chunk, and only
    its last chunk can be empty. *)
Theorem parse_patch_well_formed t :
  ∃ r, parse_patch t = Some r ∧ ∀ p, r = Ok p → wf_patch p.
Proof.
  unfold parse_patch. assert (Forall clean (lines t)) as Hc by (apply Forall_forall; apply lines_clean).
  apply (skip_blank_ok 0) in Hc. destruct (skip_blank 0 (lines t)) as [i rest]. simpl in Hc.
  destruct rest as [|first rest]; [by eexists|]. destruct (starts_with _ (trim first)); [|by eexists].
  apply Forall_cons in Hc as [_ Hc].
  destruct (patch_loop_ok (length rest) (S i) rest []) as (r & -> & Hok); [done|done|constructor|]. simpl.
  eexists. split; [done|]. intros p ([ops found] & Hr & Hp)%result_bind_Ok.
  destruct found; simpl in Hp; [|done]. case_bool_decide as Hn; [done|]. injection Hp as <-.
  split; [done|]. by eapply Hok.
Qed.

(** ** Printing *)

Definition crlf (l : text) : text := l ++ [13%N; 10%N].
Definition print_text (ls : list text) : text := concat (crlf <$> ls).

Definition context_line (ctx : text) : text := lit "@@ " ++ ctx.
#[local] Arguments context_line _ : simpl never.
Definition print_contexts (ctxs : list text) : list text :=
  match ctxs with [] => [lit "@@"] | _ :: _ => context_line <$> ctxs end.
Definition print_body (c : UpdateChunk) : list text :=
  (cons 45%N <$> old_lines c) ++ (cons 43%N <$> new_lines c)
  ++ (if is_end_of_file c then [lit "*** End of File"] else []).
Definition print_chunk (c : UpdateChunk) : list text := print_contexts (change_context c) ++ print_body c.

Definition content_lines (contents : text) : list text := drop_last (split_on 10 contents).
Definition print_operation (op : FileOperation) : list text :=
  match op with
  | Add path contents => (lit "*** Add File: " ++ path) :: (cons 43%N <$> content_lines contents)
  | Delete path => [lit "*** Delete File: " ++ path]
  | Update path move_to chunks =>
      (lit "*** Update File: " ++ path)
        :: match move_to with Some p => [lit "*** Move to: " ++ p] | None => [] end
        ++ concat (print_chunk <$> chunks)
  end.
Definition patch_lines (p : ParsedPatch) : list text :=
  lit "*** Begin Patch" :: concat (print_operation <$> operations p) ++ [lit "*** End Patch"].
Definition print_patch (p : ParsedPatch) : text := print_text (patch_lines p).

Lemma lines_print_text ls : Forall clean ls → lines (print_text ls) = ls.
Proof.
  induction 1 as [|l ls Hl _ IH]; [done|]. change (print_text (l :: ls)) with (crlf l ++ print_text ls).
  unfold crlf. rewrite <- app_assoc. simpl. by rewrite lines_crlf, IH.
Qed.

Lemma trim_headed c p path : is_whitespace c = false → trimmed path → trim ((c :: p) ++ path) = (c :: p) ++ path.
Proof.
  intros Hc [Hn Ht _]. apply trim_id; [by intros ? [= <-]|]. intros x. rewrite last_app.
  destruct (last path) as [y|] eqn:Hy; [|by apply last_None in Hy]. intros [= <-].
  apply (proj2 (trim_ends path)). by rewrite Ht.
Qed.

Lemma trim_spaced path : trimmed path → trim (32%N :: path) = path.
Proof.
  intros [Hn Ht _]. destruct (trim_ends path) as [Hh Hl]. rewrite Ht in Hh, Hl.
  unfold trim. assert (trim_end (32%N :: path) = 32%N :: path) as ->.
  { unfold trim_end, trim_end_matches. rewrite drop_while_id, reverse_involutive; [done|].
    intros c. rewrite head_reverse. destruct path as [|x path]; [done|]. apply Hl. }
  unfold trim_start, trim_start_matches. simpl. by apply drop_while_id.
Qed.

(** A header line, and what follows its keyword. *)
Lemma header_line k path :
  (∃ c p, lit k = c :: p ∧ is_whitespace c = false) → trimmed path →
  trim (lit k ++ path) = lit k ++ path.
Proof. intros (c & p & -> & Hc) Hp. by apply trim_headed. Qed.
#[local] Ltac header := rewrite header_line by (done || (do 2 eexists; split; vm_compute; reflexivity)).

Lemma header_path_print k w i path :
  (∃ c p, lit k = c :: p ∧ is_whitespace c = false) → trimmed path → ∀ h, h = lit k ++ 32%N :: path →
  header_path k w i h = Ok path.
Proof.
  intros Hk Hp h ->. unfold header_path. destruct Hk as (c & p & Hk & Hc).
  assert (trim (lit k ++ 32%N :: path) = lit k ++ 32%N :: path) as ->.
  { rewrite Hk. change (32%N :: path) with ([32%N] ++ path). rewrite app_assoc. change ((c :: p) ++ [32%N]) with (c :: (p ++ [32%N])).
    by apply trim_headed. }
  assert (strip_prefix (lit k) (lit k ++ 32%N :: path) = Some (32%N :: path)) as -> by (by apply strip_prefix_Some).
  rewrite trim_spaced by done. rewrite bool_decide_false by apply Hp. done.
Qed.

(** The next line begins an operation or ends the patch. *)
Definition boundary (rest : list text) : Prop := ∃ line l, rest = line :: l ∧ ends_update (trim line) = true.

Lemma ends_update_stars line : ends_update line = true →
  starts_with (lit "*** ") line = true ∧ starts_with (lit "*** End of File") line = false
  ∧ starts_with (lit "@@") line = false.
Proof.
  unfold ends_update. rewrite !orb_true_iff. intros H.
  assert (Hs : ∀ k, starts_with (lit "*** " ++ k) line = true → starts_with (lit "*** ") line = true) by (intros k; apply starts_with_weaken).
  destruct H as [[[H|H]|H]|H]; (split;
    [first [exact (Hs (drop 4 (lit "*** Add File:")) H)|exact (Hs (drop 4 (lit "*** Delete File:")) H)
           |exact (Hs (drop 4 (lit "*** Update File:")) H)|exact (Hs (drop 4 (lit "*** End Patch")) H)]
    |split; by apply (starts_with_not _ _ _ H)]).
Qed.

Lemma add_lines_print i ls rest acc :
  boundary rest → add_lines i ((cons 43%N <$> ls) ++ rest) acc = Ok (acc ++ ls, i + length ls, rest).
Proof.
  intros (line & l & -> & He). revert i acc. induction ls as [|x ls IH]; intros i acc; csimpl.
  - apply ends_update_stars in He as [-> _]. by rewrite app_nil_r, Nat.add_0_r.
  - rewrite trim_cons by done. change (starts_with (lit "*** ") (43%N :: trim_end x)) with false.
    change (strip_prefix (lit "+") (43%N :: x)) with (Some x). cbn iota beta. rewrite IH, <- app_assoc. simpl.
    by rewrite Nat.add_succ_r.
Qed.

Lemma hunk_context_print i ctxs rest :
  Forall trimmed ctxs → (∀ line l, rest = line :: l → starts_with (lit "@@") (trim line) = false) →
  ∃ i', hunk_context i ((context_line <$> ctxs) ++ rest) = (ctxs, i', rest).
Proof.
  intros Hctx Hrest. revert i. induction Hctx as [|ctx ctxs Hc _ IH]; intros i; csimpl.
  - destruct rest as [|line rest]; [by eexists|]. specialize (Hrest line rest eq_refl).
    unfold starts_with in Hrest. simpl. destruct (strip_prefix _ (trim line)); [done|]. by eexists.
  - destruct (IH (S i)) as [i' Hi]. exists i'. unfold context_line at 1. header.
    change (strip_prefix (lit "@@") (lit "@@ " ++ ctx)) with (Some (32%N :: ctx)). cbn iota beta.
    rewrite Hi, trim_spaced by done. by rewrite bool_decide_false by apply Hc.
Qed.

Lemma contexts_print i ctxs rest :
  Forall trimmed ctxs → (∀ line l, rest = line :: l → starts_with (lit "@@") (trim line) = false) →
  ∃ i', hunk_context i (print_contexts ctxs ++ rest) = (ctxs, i', rest).
Proof.
  intros Hctx Hrest. destruct ctxs as [|ctx ctxs]; [|by apply hunk_context_print].
  destruct (hunk_context_print (S i) [] rest) as [i' Hi]; [constructor|done|]. exists i'. simpl in *.
  change (trim (lit "@@")) with (lit "@@"). change (strip_prefix (lit "@@") (lit "@@")) with (@Some text []).
  cbn iota beta. by rewrite Hi.
Qed.

Lemma body_print i c rest o n :
  is_end_of_file c = true ∨ (∃ line l, rest = line :: l ∧ starts_with (lit "*** End of File") (trim line) = false ∧
    starts_with (lit "*** ") (trim line) || starts_with (lit "@@") (trim line) = true) →
  ∃ i', hunk_body i (print_body c ++ rest) o n = Ok (o ++ old_lines c, n ++ new_lines c, is_end_of_file c, i', rest).
Proof.
  intros Hend. unfold print_body. revert i o. induction (old_lines c) as [|x old IH]; intros i o.
  - rewrite app_nil_r. simpl. revert i n. induction (new_lines c) as [|x new IH]; intros i n; csimpl.
    + rewrite app_nil_r. destruct (is_end_of_file c) eqn:He; csimpl.
      * change (starts_with (lit "*** End of File") (trim (lit "*** End of File"))) with true. by eexists.
      * destruct Hend as [?|(line & l & -> & H1 & H2)]; [done|]. cbn [hunk_body]. cbv zeta. rewrite H1, H2. by eexists.
    + rewrite trim_cons by done.
      change (starts_with (lit "*** End of File") (43%N :: trim_end x)) with false.
      change (starts_with (lit "*** ") (43%N :: trim_end x)) with false.
      change (starts_with (lit "@@") (43%N :: trim_end x)) with false. cbn [orb].
      destruct (IH (S i) (n ++ [x])) as [i' Hi]. exists i'. by rewrite Hi, <- app_assoc.
  - csimpl. rewrite trim_cons by done.
    change (starts_with (lit "*** End of File") (45%N :: trim_end x)) with false.
    change (starts_with (lit "*** ") (45%N :: trim_end x)) with false.
    change (starts_with (lit "@@") (45%N :: trim_end x)) with false. cbn [orb].
    destruct (IH (S i) (o ++ [x])) as [i' Hi]. exists i'. by rewrite Hi, <- app_assoc.
Qed.

(** The next line begins a hunk. *)
Definition at_line (rest : list text) : Prop :=
  ∃ line l, rest = line :: l ∧ starts_with (lit "@@") (trim line) = true.

Lemma parse_hunk_print i c rest :
  wf_chunk c → boundary rest ∨ has_body c ∧ at_line rest →
  ∃ i', parse_hunk i (print_chunk c ++ rest) = Ok (c, i', rest).
Proof.
  intros [Hctx _ _] Hnext. unfold parse_hunk, print_chunk. rewrite <- app_assoc.
  destruct (contexts_print i (change_context c) (print_body c ++ rest)) as [i1 ->]; [done| |].
  { intros line l Heq.
    assert (print_body c = [] ∧ rest = line :: l ∨ line ∈ print_body c) as [[Hnil ->]|Hin].
    { destruct (print_body c) as [|x b]; [by left|right]. injection Heq as <- _. by left. }
    - destruct Hnext as [(x & y & [= <- <-] & He)|[Hb _]]; [by apply ends_update_stars in He as (_ & _ & ?)|].
      exfalso. unfold print_body, has_body in *. destruct (old_lines c), (new_lines c), (is_end_of_file c); try done; naive_solver.
    - unfold print_body in Hin. rewrite !elem_of_app, !list_elem_of_fmap in Hin.
      destruct Hin as [(x & -> & _)|[(x & -> & _)|Hin]]; [by rewrite trim_cons by done..|].
      destruct (is_end_of_file c); [|by apply elem_of_nil in Hin]. by apply list_elem_of_singleton in Hin as ->. }
  destruct (body_print i1 c rest [] []) as [i2 ->].
  { destruct Hnext as [(line & l & -> & He)|[_ (line & l & -> & Hat)]]; right; exists line, l; (split; [done|]).
    - apply ends_update_stars in He as (-> & -> & _). done.
    - rewrite Hat, orb_true_r. split; [|done]. by apply (starts_with_not _ _ _ Hat). }
  simpl. exists i2. by destruct c.
Qed.

Lemma print_chunk_head c rest :
  Forall trimmed (change_context c) →
  ∃ line l, print_chunk c ++ rest = line :: l ∧ starts_with (lit "@@") (trim line) = true
    ∧ ends_update (trim line) = false ∧ starts_hunk (trim line) = true.
Proof.
  unfold print_chunk, print_contexts. intros Hc.
  assert (Hat : ∀ t, starts_with (lit "@@") t = true →
    starts_with (lit "@@") t = true ∧ ends_update t = false ∧ starts_hunk t = true).
  { intros t Ht. unfold ends_update, starts_hunk. rewrite Ht. split_and!; [done| |done].
    by rewrite !(starts_with_not (lit "@@") _ _ Ht) by done. }
  destruct Hc as [|ctx ctxs Hctx _]; do 2 eexists; (split; [done|]); apply Hat; [done|].
  unfold context_line. header. by apply starts_with_spec; eexists.
Qed.

Lemma update_hunks_print fuel i cs rest acc :
  length cs ≤ fuel → wf_chunks cs → boundary rest →
  ∃ i', update_hunks fuel i (concat (print_chunk <$> cs) ++ rest) acc = Some (Ok (acc ++ cs, i', rest)).
Proof.
  intros Hf Hwf Hb. revert i acc fuel Hf Hwf. induction cs as [|c cs IH]; intros i acc fuel Hf Hwf.
  - simpl. destruct Hb as (line & l & -> & He). destruct fuel; cbn [update_hunks]; rewrite He, app_nil_r; by eexists.
  - destruct Hwf as (Hc & Hbody & Hcs). rewrite fmap_cons. simpl concat. rewrite <- app_assoc.
    set (rest' := concat (print_chunk <$> cs) ++ rest).
    assert (boundary rest' ∨ has_body c ∧ at_line rest') as Hnext.
    { destruct cs as [|c' cs]; [by left|right]. destruct Hbody as [?|?]; [done|]. split; [done|].
      destruct Hcs as [[Hc' _ _] _]. unfold rest'. rewrite fmap_cons. simpl concat. rewrite <- app_assoc.
      destruct (print_chunk_head c' (concat (print_chunk <$> cs) ++ rest)) as (line & l & -> & ? & _); [done|].
      by exists line, l. }
    destruct (parse_hunk_print i c rest' Hc Hnext) as [i1 Hp].
    destruct (print_chunk_head c rest') as (line & l & Heq & _ & He & Hs); [by destruct Hc|].
    rewrite Heq in Hp |- *. destruct fuel as [|fuel]; [simpl in Hf; lia|]. cbn [update_hunks].
    rewrite He, Hs, Hp. destruct (IH i1 (acc ++ [c]) fuel) as [i2 Hi]; [simpl in Hf; lia|done|].
    exists i2. unfold rest'. by rewrite Hi, <- app_assoc.
Qed.

Lemma content_lines_spec contents :
  contents = [] ∨ last contents = Some 10%N →
  (if bool_decide (content_lines contents = []) then [] else join_lines (content_lines contents) ++ [10%N]) = contents.
Proof.
  unfold content_lines. intros [->|Hl]; [done|].
  assert (∃ ls, Forall clean ls ∧ ls ≠ [] ∧ contents = join_lines ls ++ [10%N]) as (ls & Hcl & Hn & ->).
  { apply last_Some in Hl as [c ->]. exists (split_on 10 c). split_and!.
    - apply Forall_forall. intros l. apply split_on_pieces.
    - by destruct (split_on_cons 10 c) as (? & ? & ->).
    - f_equal. clear. induction c as [|x c IH]; [done|]. simpl. destruct (N.eqb_spec x 10) as [->|Hx].
      + destruct (split_on_cons 10 c) as (p & r & Heq). rewrite Heq in *. csimpl. by f_equal.
      + destruct (split_on_cons 10 c) as (p & r & Heq). rewrite Heq in *. destruct r; csimpl in *; by rewrite IH. }
  assert (split_on 10 (join_lines ls ++ [10%N]) = ls ++ [[]]) as ->.
  { clear Hl. induction Hcl as [|l ls Hl Hcl IH]; [done|]. destruct ls as [|l' ls].
    - simpl. by rewrite split_on_app.
    - change (join_lines (l :: l' :: ls)) with (l ++ 10%N :: join_lines (l' :: ls)).
      by rewrite <- app_assoc, <- app_comm_cons, split_on_app, IH. }
  unfold drop_last. rewrite length_app. simpl. replace (length ls + 1 - 1) with (length ls) by lia.
  rewrite take_app_length. by rewrite bool_decide_false.
Qed.

Lemma visible_header k : (∃ c p, lit k = c :: p ∧ is_whitespace c = false) → ∀ path, trimmed path →
  trim (lit k ++ path) = lit k ++ path.
Proof. intros; by apply header_line. Qed.

#[local] Ltac visible := do 2 eexists; split; vm_compute; reflexivity.

(** The first line of a printed operation is its header. *)
Lemma print_operation_head op rest :
  wf_operation op → ∃ line l, print_operation op ++ rest = line :: l ∧ ends_update (trim line) = true.
Proof.
  destruct op as [path contents|path|path m cs]; cbn [wf_operation print_operation];
    [intros [Hp _]|intros Hp|intros (Hp & _)]; do 2 eexists; (split; [done|]); rewrite visible_header by (done || visible); reflexivity.
Qed.

Lemma print_boundary ops :
  Forall wf_operation ops → boundary (concat (print_operation <$> ops) ++ [lit "*** End Patch"]).
Proof.
  intros Hops. destruct Hops as [|op ops Hop _].
  - exists (lit "*** End Patch"), []. split; [done|]. by vm_compute.
  - rewrite fmap_cons. simpl concat. rewrite <- app_assoc. by apply print_operation_head.
Qed.

Lemma parse_add_print i path contents rest :
  wf_operation (Add path contents) → boundary rest →
  ∃ i', parse_add_file i (lit "*** Add File: " ++ path) ((cons 43%N <$> content_lines contents) ++ rest)
        = Ok (Add path contents, i', rest).
Proof.
  intros [Hp Hc] Hb. unfold parse_add_file.
  rewrite (header_path_print "*** Add File:" _ _ path) by (done || visible). simpl.
  rewrite add_lines_print by done. simpl. eexists. by rewrite content_lines_spec.
Qed.

Lemma parse_update_print i path m cs rest :
  wf_operation (Update path m cs) → boundary rest →
  ∃ i', parse_update_file i (lit "*** Update File: " ++ path)
          (match m with Some p => [lit "*** Move to: " ++ p] | None => [] end ++ concat (print_chunk <$> cs) ++ rest)
        = Some (Ok (Update path m cs, i', rest)).
Proof.
  intros (Hp & Hm & Hcs & Hwf) Hb. unfold parse_update_file.
  rewrite (header_path_print "*** Update File:" _ _ path) by (done || visible). cbn [result_bind].
  set (tail := concat (print_chunk <$> cs) ++ rest).
  assert (∃ i1, move_target (S i) (match m with Some p => [lit "*** Move to: " ++ p] | None => [] end ++ tail)
    = Ok (m, i1, tail)) as [i1 ->].
  { destruct m as [p|]; cbn [app].
    - unfold move_target. rewrite visible_header by (auto || visible).
      change (strip_prefix (lit "*** Move to:") (lit "*** Move to: " ++ p)) with (Some (32%N :: p)).
      cbn iota beta. rewrite trim_spaced, bool_decide_false by (apply Hm; auto). by eexists.
    - destruct cs as [|c cs]; [done|]. destruct Hwf as [[Hctx _ _] _].
      destruct (print_chunk_head c (concat (print_chunk <$> cs) ++ rest) Hctx) as (line & l & Heq & Hat & _).
      unfold tail. rewrite fmap_cons. simpl concat. rewrite <- app_assoc, Heq. unfold move_target.
      pose proof (starts_with_not (lit "@@") (lit "*** Move to:") _ Hat eq_refl eq_refl) as Hno.
      unfold starts_with in Hno. destruct (strip_prefix _ (trim line)); [done|]. by eexists. }
  simpl.
  destruct (update_hunks_print (length tail) i1 cs rest []) as [i2 Hu]; [|done|done|].
  { unfold tail. rewrite length_app. clear -Hwf. induction cs as [|c cs IH]; [simpl; lia|].
    destruct Hwf as (Hc & _ & Hcs). rewrite fmap_cons. simpl. rewrite length_app. specialize (IH Hcs).
    destruct (print_chunk_head c []) as (line & l & Heq & _); [by destruct Hc|].
    rewrite app_nil_r in Heq. rewrite Heq. simpl. lia. }
  unfold tail in *. rewrite Hu. simpl. rewrite bool_decide_false by done. by eexists.
Qed.

Lemma patch_loop_print fuel i ops acc :
  length ops ≤ fuel → Forall wf_operation ops →
  patch_loop fuel i (concat (print_operation <$> ops) ++ [lit "*** End Patch"]) acc = Some (Ok (acc ++ ops, true)).
Proof.
  intros Hf Hops. revert fuel i acc Hf. induction Hops as [|op ops Hop Hops IH]; intros fuel i acc Hf.
  { destruct fuel; cbn [patch_loop fmap list_fmap concat app];
      change (starts_with (lit "*** End Patch") (trim (lit "*** End Patch"))) with true; by rewrite app_nil_r. }
  destruct fuel as [|fuel]; [simpl in Hf; lia|]. rewrite fmap_cons. simpl concat. rewrite <- app_assoc.
  pose proof (print_boundary ops Hops) as Hb. set (rest := concat (print_operation <$> ops) ++ _) in *.
  assert (∀ i, patch_loop fuel i rest (acc ++ [op]) = Some (Ok (acc ++ op :: ops, true))) as Hrest.
  { intros i1. unfold rest. rewrite IH by (simpl in Hf; lia). by rewrite <- app_assoc. }
  destruct op as [path contents|path|path m cs]; cbn [print_operation app patch_loop].
  - rewrite (visible_header "*** Add File: " ltac:(visible) path (proj1 Hop)).
    change (starts_with (lit "*** End Patch") (lit "*** Add File: " ++ path)) with false.
    change (starts_with (lit "*** Add File:") (lit "*** Add File: " ++ path)) with true.
    rewrite bool_decide_false by done. cbv zeta.
    destruct (parse_add_print i path contents rest Hop Hb) as [i1 ->]. simpl. apply Hrest.
  - rewrite (visible_header "*** Delete File: " ltac:(visible) path Hop).
    change (starts_with (lit "*** End Patch") (lit "*** Delete File: " ++ path)) with false.
    change (starts_with (lit "*** Add File:") (lit "*** Delete File: " ++ path)) with false.
    change (starts_with (lit "*** Delete File:") (lit "*** Delete File: " ++ path)) with true.
    rewrite bool_decide_false by done. cbv zeta. unfold parse_delete_file.
    rewrite (header_path_print "*** Delete File:" _ _ path) by (done || visible). simpl. apply Hrest.
  - rewrite (visible_header "*** Update File: " ltac:(visible) path (proj1 Hop)).
    change (starts_with (lit "*** End Patch") (lit "*** Update File: " ++ path)) with false.
    change (starts_with (lit "*** Add File:") (lit "*** Update File: " ++ path)) with false.
    change (starts_with (lit "*** Delete File:") (lit "*** Update File: " ++ path)) with false.
    change (starts_with (lit "*** Update File:") (lit "*** Update File: " ++ path)) with true.
    rewrite bool_decide_false by done. cbv zeta. rewrite <- app_assoc.
    destruct (parse_update_print i path m cs rest Hop Hb) as [i1 ->]. simpl. apply Hrest.
Qed.

Lemma print_operation_clean op : wf_operation op → Forall clean (print_operation op).
Proof.
  assert (Hh : ∀ k path, clean (lit k) → trimmed path → clean (lit k ++ path)).
  { intros k path Hk Hp [?|?]%elem_of_app; [done|by apply (tr_clean _ Hp)]. }
  assert (Hcons : ∀ c ls, c ≠ 10%N → Forall clean ls → Forall clean (cons c <$> ls)).
  { intros c ls Hc. intros Hls. rewrite Forall_fmap. eapply Forall_impl; [exact Hls|].
    intros l Hl [?|?]%elem_of_cons; [by subst|done]. }
  destruct op as [path contents|path|path m cs]; cbn [wf_operation print_operation].
  - intros [Hp _]. constructor; [by apply Hh; [vm_compute; set_solver|]|]. apply Hcons; [done|].
    apply Forall_forall. intros l Hl. eapply split_on_pieces. by eapply (subseteq_take).
  - intros Hp. constructor; [|constructor]. by apply Hh; [vm_compute; set_solver|].
  - intros (Hp & Hm & _ & Hwf). constructor; [by apply Hh; [vm_compute; set_solver|]|]. apply Forall_app. split.
    + destruct m as [p|]; repeat constructor. apply Hh; [vm_compute; set_solver|by apply Hm].
    + clear Hm. induction cs as [|c cs IH]; [constructor|]. destruct Hwf as ([Hctx Ho Hn] & _ & Hcs).
      rewrite fmap_cons. cbn [concat]. apply Forall_app. split; [|by apply IH].
      unfold print_chunk, print_body, print_contexts. rewrite !Forall_app. split_and!; [|by apply Hcons..|].
      * destruct Hctx as [|ctx ctxs Hc Hctx]; [repeat constructor; vm_compute; set_solver|].
        apply Forall_fmap. constructor; [by apply Hh; [vm_compute; set_solver|]|].
        eapply Forall_impl; [exact Hctx|]. intros x Hx. by apply Hh; [vm_compute; set_solver|].
      * destruct (is_end_of_file c); repeat constructor. vm_compute. set_solver.
Qed.

(** C25. Every well-formed patch can be written: parsing its printed form gives it back. *)
Theorem parse_print_patch p : wf_patch p → parse_patch (print_patch p) = Some (Ok p).
Proof.
  intros [Hn Hops]. unfold parse_patch, print_patch.
  rewrite lines_print_text.
  - destruct p as [ops]. cbn [operations] in *. unfold patch_lines. cbn [skip_blank operations].
    change (trim (lit "*** Begin Patch")) with (lit "*** Begin Patch").
    rewrite bool_decide_false by done. change (starts_with (lit "*** Begin Patch") (lit "*** Begin Patch")) with true.
    cbn iota beta. rewrite patch_loop_print; [|clear Hn|done].
    + simpl. by rewrite bool_decide_false.
    + rewrite length_app. enough (length ops ≤ length (concat (print_operation <$> ops))) by lia.
      induction Hops as [|op ops Hop _ IH]; [done|]. rewrite fmap_cons. cbn [concat length]. rewrite length_app.
      destruct (print_operation_head op [] Hop) as (line & l & Heq & _). rewrite app_nil_r in Heq. rewrite Heq.
      cbn [length]. lia.
  - unfold patch_lines. constructor; [vm_compute; set_solver|]. apply Forall_app. split; [|repeat constructor; vm_compute; set_solver].
    apply Forall_concat, Forall_fmap. eapply Forall_impl; [exact Hops|]. apply print_operation_clean.
Qed.

(** ** Paths in patches

    [Patch.validate_relative_path] accepts exactly the relative paths that never leave the
    directory they start from. *)


(** Walking a path from a directory, given as the names from the innermost one up. *)
Definition walk (dir : list text) (c : Component) : list text :=
  match c with
  | RootDir => []
  | CurDir => dir
  | ParentDir => tail dir
  | Normal name => name :: dir
  end.

(** Every directory on the way is the first one or inside it. *)
Definition stays_inside (cs : list Component) : Prop :=
  ∀ base k, ∃ inner, foldl walk base (take k cs) = inner ++ base.

Lemma check_depth_ok path cs inner :
  RootDir ∉ cs →
  (check_depth path (Z.of_nat (length inner)) cs = Ok path
    ∧ ∀ base k, ∃ inner', foldl walk (inner ++ base) (take k cs) = inner' ++ base)
  ∨ ((∃ e, check_depth path (Z.of_nat (length inner)) cs = Err e)
    ∧ ∃ base k, ∀ inner', foldl walk (inner ++ base) (take k cs) ≠ inner' ++ base).
Proof.
  revert inner. induction cs as [|c cs IH]; intros inner Hroot.
  { left. split; [done|]. intros base k. exists inner. by rewrite take_nil. }
  assert (Hstep : ∀ inner', (∀ base, walk (inner ++ base) c = inner' ++ base) →
    check_depth path (Z.of_nat (length inner)) (c :: cs) = check_depth path (Z.of_nat (length inner')) cs →
    (check_depth path (Z.of_nat (length inner)) (c :: cs) = Ok path
      ∧ ∀ base k, ∃ i, foldl walk (inner ++ base) (take k (c :: cs)) = i ++ base)
    ∨ ((∃ e, check_depth path (Z.of_nat (length inner)) (c :: cs) = Err e)
      ∧ ∃ base k, ∀ i, foldl walk (inner ++ base) (take k (c :: cs)) ≠ i ++ base)).
  { intros inner' Hw ->. destruct (IH inner') as [[H1 H2]|[H1 (base & k & H2)]]; [set_solver|left|right]; (split; [done|]).
    - intros base [|k]; [by exists inner|]. simpl. rewrite Hw. apply H2.
    - exists base, (S k). simpl. by rewrite Hw. }
  destruct c as [| | |name].
  - exfalso. apply Hroot. by left.
  - by apply (Hstep inner).
  - destruct inner as [|x inner].
    + right. split; [by eexists|]. exists [[]], 1. intros i. simpl. by destruct i.
    + apply (Hstep inner); [done|]. cbn [check_depth length]. rewrite Nat2Z.inj_succ.
      replace (Z.succ (Z.of_nat (length inner)) - 1)%Z with (Z.of_nat (length inner)) by lia.
      destruct (Z.ltb_spec (Z.of_nat (length inner)) 0); [lia|done].
  - apply (Hstep (name :: inner)); [done|]. cbn [check_depth length]. f_equal. lia.
Qed.

Lemma no_root path : starts_with (lit "/") path = false → RootDir ∉ components path.
Proof.
  intros Hs. unfold components. rewrite Hs, !elem_of_app. intros [H|[H|H]].
  - by apply elem_of_nil in H.
  - destruct (split_on 47 path) as [|p l]; [by apply elem_of_nil in H|].
    case_bool_decide; [by apply list_elem_of_singleton in H|by apply elem_of_nil in H].
  - apply list_elem_of_omap in H as (p & _ & Hp). unfold component in Hp.
    destruct (_ || _); [done|]. by case_bool_decide.
Qed.

(** [validate_relative_path] accepts exactly the paths, trimmed, that are not empty, have no
    root, drive or backslash, and, walked from any directory, never leave it on the way. *)
Lemma validate_relative_path_decides path p :
  validate_relative_path path = Ok p ↔
  p = trim path ∧ p ≠ [] ∧ starts_with (lit "/") p = false ∧ has_drive p = false ∧ (92%N ∉ p)
  ∧ stays_inside (components p).
Proof.
  unfold validate_relative_path. set (t := trim path).
  assert (Hunc : starts_with (lit "\\") t = true → 92%N ∈ t).
  { intros Hs. apply starts_with_spec in Hs as [r ->]. by left. }
  case_bool_decide as Hn; [split; [done|by intros (-> & ? & _)]|].
  destruct (starts_with (lit "/") t) eqn:H1; [split; [done|intros (-> & _ & ? & _); congruence]|].
  destruct (has_drive t) eqn:H2; [split; [done|intros (-> & _ & _ & ? & _); congruence]|].
  destruct (starts_with (lit "\\") t) eqn:H3; [split; [done|intros (-> & _ & _ & _ & ? & _); exfalso; auto]|].
  case_bool_decide as H4; [split; [done|by intros (-> & _ & _ & _ & ? & _)]|].
  destruct (check_depth_ok t (components t) [] (no_root _ H1)) as [[Hc Hin]|[[e Hc] (base & k & Hout)]];
    change (Z.of_nat (length (@nil text))) with 0%Z in Hc; rewrite Hc.
  - split; [intros [= <-]|by intros [-> _]]. by split_and!.
  - split; [done|]. intros (-> & _ & _ & _ & _ & Hin). destruct (Hin base k) as [i Hi]. by destruct (Hout i).
Qed.
