(* ===== verification/TextEdit.v ===== *)
(** * Editing text

    [refact-file-edit-core/src/text_edit.rs] and the text part of the edit tools of
    [src/tools/file_edit/auxiliary.rs]: line endings, anchors, line ranges.  Offsets
    count scalar values where the source counts bytes; they are only added, compared and
    used to slice at matches.  A slice or a splice out of range is [None]. *)

From stdpp Require Import list strings pretty.
From S2P Require Import Prelude RustStr Patch.

(** ** Searching *)

Fixpoint find (pat t : text) : option nat :=
  if starts_with pat t then Some 0
  else match t with [] => None | _ :: t' => S <$> find pat t' end.

(** [match_indices]: the matches of a pattern that is not empty, from left to right and without overlap. *)
Fixpoint match_indices_from (pat : text) (skip pos : nat) (t : text) : list nat :=
  match t with
  | [] => []
  | _ :: t' =>
      match skip with
      | S skip => match_indices_from pat skip (S pos) t'
      | O => if starts_with pat t then pos :: match_indices_from pat (length pat - 1) (S pos) t'
             else match_indices_from pat O (S pos) t'
      end
  end.
Definition match_indices (pat t : text) : list nat := match_indices_from pat 0 0 t.
Definition contains (pat t : text) : bool := match find pat t with Some _ => true | None => false end.

(** [content[..i].lines().count() + 1]. *)
Definition line_number (content : text) (i : nat) : nat := length (lines (take i content)) + 1.

(** [{:?}] of a vector of numbers. *)
Definition debug_numbers (l : list nat) : text :=
  lit "[" ++ match l with
             | [] => []
             | x :: l => lit (pretty (N.of_nat x)) ++ concat ((λ x, lit ", " ++ lit (pretty (N.of_nat x))) <$> l)
             end ++ lit "]".
Definition number (n : nat) : text := lit (pretty (N.of_nat n)).

(** ** Line endings *)

Definition normalize_all_line_endings (content : text) : text :=
  replace [13%N] [10%N] (replace [13%N; 10%N] [10%N] content).
Definition normalize_line_endings (content : text) : text := normalize_all_line_endings content.
Definition restore_line_endings (content : text) (original_had_crlf : bool) : text :=
  if original_had_crlf then replace [10%N] [13%N; 10%N] (normalize_all_line_endings content) else content.
Definition had_crlf (content : text) : bool := contains [13%N; 10%N] content.

(** The loop of [find_match_lines] from [pos]; a match is not empty, so [fuel] bounds it. *)
Fixpoint match_lines_from (fuel pos : nat) (content pattern : text) : list nat :=
  match fuel with
  | O => []
  | S fuel =>
      match find pattern (drop pos content) with
      | None => []
      | Some idx =>
          line_number content (pos + idx) :: match_lines_from fuel (pos + idx + length pattern) content pattern
      end
  end.
Definition find_match_lines (content pattern : text) : list nat :=
  if bool_decide (pattern = []) then [] else match_lines_from (S (length content)) 0 content pattern.

(** ** Anchors *)

Inductive AnchorMode := ReplaceBetween | InsertAfter | InsertBefore.

(** The end of a region: the first closing anchor after the opening one. *)
Definition anchor_pair (content before after : text) (b_start : nat) : option (nat * nat) :=
  (λ rel_a, (b_start, b_start + length before + rel_a)) <$> find after (drop (b_start + length before) content).

Fixpoint overlapping (after : text) (pairs : list (nat * nat)) : option (nat * nat) :=
  match pairs with
  | p :: (q :: _) as rest =>
      if (q.1 <? p.2 + length after)%nat then Some (p.1, q.1) else overlapping after rest
  | _ => None
  end.

Definition replace_region (before after replacement : text) (acc : option text) (p : nat * nat) : option text :=
  result ← acc;
  let b_end := p.1 + length before in
  let a_end := p.2 + length after in
  if decide (b_end ≤ length result ∧ a_end ≤ length result)
  then Some (take b_end result ++ replacement ++ after ++ drop a_end result) else None.

Definition replace_between_anchors (content before after replacement : text) (multiple : bool)
  : option (result text text) :=
  if bool_decide (before = [])
  then Some (Err (lit "⚠️ anchor_before cannot be empty. 💡 Provide unique text before the replacement"))
  else if bool_decide (after = [])
  then Some (Err (lit "⚠️ anchor_after cannot be empty. 💡 Provide unique text after the replacement"))
  else
    let before_positions := match_indices before content in
    if bool_decide (before_positions = [])
    then Some (Err (lit "⚠️ anchor_before not found. 💡 Use cat() to verify text exists"))
    else
      let pairs := omap (anchor_pair content before after) before_positions in
      if bool_decide (pairs = [])
      then Some (Err (lit "⚠️ anchor_after not found after anchor_before. 💡 Check anchor order"))
      else if negb multiple && (1 <? length pairs)%nat
      then Some (Err (lit "⚠️ " ++ number (length pairs) ++ lit " anchor pairs at lines "
                      ++ debug_numbers ((λ p, line_number content p.1) <$> pairs)
                      ++ lit ". 💡 Use more specific anchors, or set multiple:true"))
      else
        let pairs := sort_by_key fst pairs in
        match overlapping after pairs with
        | Some (p, q) =>
            Some (Err (lit "⚠️ Overlapping anchor regions at lines " ++ number (line_number content p)
                       ++ lit " and " ++ number (line_number content q) ++ lit ". 💡 Use more specific anchors"))
        | None =>
            result ← foldl (replace_region before after replacement) (Some content) (reverse pairs);
            Some (Ok result)
        end.

(** [String::insert_str]. *)
Definition insert_str (pos : nat) (insert t : text) : option text :=
  if decide (pos ≤ length t) then Some (take pos t ++ insert ++ drop pos t) else None.

Definition insert_at_anchor (content anchor insert : text) (multiple after : bool)
  : option (result text text) :=
  if bool_decide (anchor = [])
  then Some (Err (lit "⚠️ Anchor cannot be empty. 💡 Provide unique text to locate edit position"))
  else
    let positions := match_indices anchor content in
    if bool_decide (positions = [])
    then Some (Err (lit "⚠️ Anchor not found. 💡 Use cat() to verify text exists"))
    else if negb multiple && (1 <? length positions)%nat
    then Some (Err (lit "⚠️ " ++ number (length positions) ++ lit " anchor occurrences at lines "
                    ++ debug_numbers (line_number content <$> positions)
                    ++ lit ". 💡 Use more specific anchor, or set multiple:true"))
    else
      result ← foldl (λ acc pos, t ← acc; insert_str (if after then pos + length anchor else pos) insert t)
                 (Some content) (reverse positions);
      Some (Ok result).

(** ** Line ranges *)

Record LineRange := { lr_start : N; lr_end : N }.

Fixpoint digits (acc : N) (t : text) : option N :=
  match t with
  | [] => Some acc
  | c :: t =>
      if ((48 <=? c) && (c <=? 57))%N then
        let acc := (acc * 10 + (c - 48))%N in
        if (acc <=? u64_max)%N then digits acc t else None
      else None
  end.
(** [str::parse::<usize>]: digits after an optional plus sign, within 64 bits. *)
Definition parse_usize (t : text) : option N :=
  let t := match strip_prefix (lit "+") t with Some r => r | None => t end in
  if bool_decide (t = []) then None else digits 0 t.

(** [splitn(2, ':')]: before and after the first colon. *)
Fixpoint split_once (c : N) (t : text) : option (text * text) :=
  match t with
  | [] => None
  | x :: t => if (x =? c)%N then Some ([], t) else (λ p, (x :: p.1, p.2)) <$> split_once c t
  end.

Definition parse_bound (what : string) (dflt : N) (s part : text) : result N text :=
  if bool_decide (s = []) then Ok dflt
  else match parse_usize s with
       | Some n => Ok n
       | None => Err (lit ("⚠️ Invalid " +:+ what +:+ " '") ++ s ++ lit "' in '" ++ part
                      ++ lit "'. 💡 Use numbers like '10:20'")
       end.

Definition parse_range (part : text) (total_lines : N) : result LineRange text :=
  match split_once 58 part with
  | Some (a, b) =>
      let? start := parse_bound "start" 1 (trim a) part in
      let? end_ := parse_bound "end" total_lines (trim b) part in
      Ok {| lr_start := start; lr_end := end_ |}
  | None =>
      match parse_usize part with
      | Some line => Ok {| lr_start := line; lr_end := line |}
      | None => Err (lit "⚠️ Invalid line '" ++ part ++ lit "'. 💡 Use number like '10' or range '10:20'")
      end
  end.

Definition decimal (n : N) : text := lit (pretty n).
Definition check_range (part : text) (total_lines : N) (r : LineRange) : result LineRange text :=
  if (lr_start r =? 0)%N then Err (lit "⚠️ Line numbers are 1-based, got 0. 💡 Use 1 for first line")
  else if (lr_end r <? lr_start r)%N
  then Err (lit "⚠️ Invalid range '" ++ part ++ lit "': end (" ++ decimal (lr_end r) ++ lit ") < start ("
            ++ decimal (lr_start r) ++ lit "). 💡 Use start:end format")
  else if ((total_lines <? lr_start r) && negb ((total_lines =? 0) && (lr_start r =? 1)))%N
  then Err (lit "⚠️ Line " ++ decimal (lr_start r) ++ lit " beyond EOF (" ++ decimal total_lines
            ++ lit " lines). 💡 Use cat() to check file length")
  else Ok r.

Fixpoint parse_parts (parts : list text) (total_lines : N) (ranges : list LineRange)
  : result (list LineRange) text :=
  match parts with
  | [] => Ok ranges
  | part :: parts =>
      let part := trim part in
      if bool_decide (part = []) then parse_parts parts total_lines ranges
      else
        let? range := parse_range part total_lines in
        let? range := check_range part total_lines range in
        parse_parts parts total_lines (ranges ++ [range])
  end.

Fixpoint ranges_overlap (sorted : list LineRange) : option (LineRange * LineRange) :=
  match sorted with
  | prev :: (curr :: _) as rest =>
      if (lr_start curr <=? lr_end prev)%N then Some (prev, curr) else ranges_overlap rest
  | _ => None
  end.

Definition parse_line_ranges (ranges_str : text) (total_lines : N) : result (list LineRange) text :=
  let? ranges := parse_parts (split_on 44 ranges_str) total_lines [] in
  if bool_decide (ranges = [])
  then Err (lit "⚠️ No ranges provided. 💡 Use format '10:20' or '5' or ':10,20:'")
  else match ranges_overlap (sort_by_key lr_start ranges) with
       | Some (prev, curr) =>
           Err (lit "⚠️ Overlapping ranges " ++ decimal (lr_start prev) ++ lit ":" ++ decimal (lr_end prev)
                ++ lit " and " ++ decimal (lr_start curr) ++ lit ":" ++ decimal (lr_end curr)
                ++ lit ". 💡 Ranges must not overlap")
       | None => Ok ranges
       end.
