(* ===== verification/TextEditProps.v ===== *)
(** * Properties of text editing

    Insertions at anchors are replacements, regions between anchors are rewritten in
    place, line ranges are disjoint, and line endings survive an edit. *)

From stdpp Require Import list strings sets sorting.
From S2P Require Import Prelude RustStr Patch PatchApply TextEdit.

(** ** Matches *)

Lemma find_Some pat t k : find pat t = Some k → ∃ rest, t = take k t ++ pat ++ rest ∧ k + length pat ≤ length t.
Proof.
  revert k. induction t as [|c t IH]; intros k; simpl.
  - destruct (starts_with pat []) eqn:Hs; [|done]. intros [= <-].
    apply starts_with_spec in Hs as [r Hr]. destruct pat, r; [|done..]. by exists [].
  - destruct (starts_with pat (c :: t)) eqn:Hs.
    + intros [= <-]. apply starts_with_spec in Hs as [r Hr]. exists r. split; [done|].
      apply (f_equal length) in Hr. rewrite length_app in Hr. simpl in *. lia.
    + intros (j & Hj & ->)%fmap_Some. destruct (IH j Hj) as (rest & Heq & Hle).
      exists rest. simpl. split; [by f_equal|lia].
Qed.

Lemma drop_decompose {A} (t pat rest : list A) k :
  t = take k t ++ pat ++ rest → k + length pat ≤ length t → drop k t = pat ++ rest.
Proof.
  intros Heq Hle. rewrite Heq at 1. rewrite drop_app_ge by (rewrite length_take; lia).
  rewrite length_take, Nat.min_l, Nat.sub_diag by lia. by rewrite drop_0.
Qed.

Section matches.
Context (pat : text) (Hpat : pat ≠ []).

Lemma match_indices_skip k pos t :
  k ≤ length t → match_indices_from pat k pos t = match_indices_from pat 0 (pos + k) (drop k t).
Proof.
  revert k pos. induction t as [|c t IH]; intros k pos Hk.
  - destruct k; [|simpl in Hk; lia]. by rewrite Nat.add_0_r.
  - destruct k as [|k]; [by rewrite Nat.add_0_r|]. simpl in Hk. cbn [match_indices_from drop].
    rewrite IH by lia. f_equal. lia.
Qed.

Lemma replace_skip rep k t : k ≤ length t → replace_from pat rep k t = replace_from pat rep 0 (drop k t).
Proof.
  revert k. induction t as [|c t IH]; intros [|k] Hk; [done|simpl in Hk; lia|done|].
  simpl in Hk. cbn [replace_from drop]. apply IH. lia.
Qed.

(** The first match, if any, cuts a text in two. *)
Lemma first_match pos t :
  (match_indices_from pat 0 pos t = [] ∧ ∀ rep, replace_from pat rep 0 t = t)
  ∨ ∃ pre rest, t = pre ++ pat ++ rest
    ∧ match_indices_from pat 0 pos t = (pos + length pre) :: match_indices_from pat 0 (pos + length pre + length pat) rest
    ∧ ∀ rep, replace_from pat rep 0 t = pre ++ rep ++ replace_from pat rep 0 rest.
Proof.
  revert pos. induction t as [|c t IH]; intros pos; [by left|].
  cbn [match_indices_from replace_from]. destruct (starts_with pat (c :: t)) eqn:Hs.
  - right. apply starts_with_spec in Hs as [rest Hr]. exists [], rest. split; [done|].
    assert (length pat - 1 ≤ length t ∧ drop (length pat - 1) t = rest ∧ 0 < length pat) as (Hle & Hd & Hlt).
    { destruct pat as [|a p]; [done|]. injection Hr as -> Hr. rewrite Hr. cbn [length].
      replace (S (length p) - 1) with (length p) by lia. rewrite length_app, drop_app_length. split_and!; [lia|done|lia]. }
    split.
    + simpl. rewrite Nat.add_0_r, match_indices_skip, Hd by done. do 2 f_equal. lia.
    + intros rep. simpl. by rewrite replace_skip, Hd.
  - destruct (IH (S pos)) as [[Hm Hr]|(pre & rest & -> & Hm & Hr)].
    + left. split; [done|]. intros rep. by rewrite Hr.
    + right. exists (c :: pre), rest. split; [done|]. split.
      * rewrite Hm. simpl. f_equal; [lia|]. f_equal. lia.
      * intros rep. by rewrite Hr.
Qed.

(** Rewriting the matches from the last to the first is [str::replace]. *)
Lemma foldl_replace (step : option text → nat → option text) rep :
  (∀ hd tl, step (Some (hd ++ pat ++ tl)) (length hd) = Some (hd ++ rep ++ tl)) →
  ∀ n hd t, length t ≤ n →
  foldl step (Some (hd ++ t)) (reverse (match_indices_from pat 0 (length hd) t)) = Some (hd ++ replace pat rep t).
Proof.
  intros Hstep n. induction n as [|n IH]; intros hd t Hn.
  { destruct t; [done|simpl in Hn; lia]. }
  unfold replace. destruct (first_match (length hd) t) as [[-> ->]|(pre & rest & -> & -> & Hr)]; [done|].
  rewrite reverse_cons, foldl_app, Hr. simpl.
  assert (0 < length pat) by (destruct pat; [done|simpl; lia]).
  replace (hd ++ pre ++ pat ++ rest) with ((hd ++ pre ++ pat) ++ rest) by (by rewrite <- !app_assoc).
  replace (length hd + length pre + length pat) with (length (hd ++ pre ++ pat)) by (rewrite !length_app; lia).
  rewrite IH by (rewrite !length_app in Hn; lia).
  replace ((hd ++ pre ++ pat) ++ replace pat rep rest) with ((hd ++ pre) ++ pat ++ replace pat rep rest) by (by rewrite <- !app_assoc).
  replace (length hd + length pre) with (length (hd ++ pre)) by apply length_app.
  rewrite Hstep. by rewrite <- !app_assoc.
Qed.

(** Matches are in order, and each is one. *)
Lemma match_indices_sorted pos t n :
  length t ≤ n →
  StronglySorted lt (match_indices_from pat 0 pos t) ∧
  ∀ i, i ∈ match_indices_from pat 0 pos t → pos ≤ i ∧ ∃ rest, drop (i - pos) t = pat ++ rest.
Proof.
  revert pos t. induction n as [|n IH]; intros pos t Hn.
  { destruct t; [|simpl in Hn; lia]. split; [constructor|by intros i ?%elem_of_nil]. }
  destruct (first_match pos t) as [[-> _]|(pre & rest & -> & -> & _)]; [split; [constructor|by intros i ?%elem_of_nil]|].
  assert (0 < length pat) by (destruct pat; [done|simpl; lia]).
  destruct (IH (pos + length pre + length pat) rest) as [Hs Hin]; [rewrite !length_app in Hn; lia|].
  split.
  - constructor; [done|]. apply Forall_forall. intros i Hi. destruct (Hin i Hi). lia.
  - intros i [->|Hi]%elem_of_cons.
    + split; [lia|]. exists rest. replace (pos + length pre - pos) with (length pre) by lia. by rewrite drop_app_length.
    + destruct (Hin i Hi) as (Hge & r & Hr). split; [lia|]. exists r.
      rewrite !drop_app_ge by lia. rewrite <- Hr. f_equal. lia.
Qed.

Lemma find_cases pos t :
  (find pat t = None ∧ match_indices_from pat 0 pos t = []) ∨
  ∃ k, find pat t = Some k ∧ k + length pat ≤ length t ∧
    match_indices_from pat 0 pos t = (pos + k) :: match_indices_from pat 0 (pos + k + length pat) (drop (k + length pat) t).
Proof.
  revert pos. induction t as [|c t IH]; intros pos; cbn [find match_indices_from].
  { left. destruct (starts_with pat []) eqn:Hs; [|done]. apply starts_with_spec in Hs as [r Hr]. by destruct pat. }
  destruct (starts_with pat (c :: t)) eqn:Hs.
  - right. exists 0. apply starts_with_spec in Hs as [rest Hr].
    assert (length pat - 1 ≤ length t ∧ 0 < length pat) as [Hle Hlt].
    { apply (f_equal length) in Hr. rewrite length_app in Hr. simpl in Hr. destruct pat; [done|simpl in *; lia]. }
    split_and!; [done|simpl; lia|]. rewrite match_indices_skip by done. f_equal; [lia|]. f_equal; [lia|].
    by replace (0 + length pat) with (S (length pat - 1)) by lia.
  - destruct (IH (S pos)) as [[-> ->]|(k & -> & Hle & ->)]; [by left|right].
    exists (S k). split_and!; [done|simpl; lia|]. simpl. f_equal; [lia|]. f_equal. lia.
Qed.

Lemma match_lines_from_ok content fuel pos :
  pos ≤ length content → length content - pos < fuel →
  match_lines_from fuel pos content pat = line_number content <$> match_indices_from pat 0 pos (drop pos content).
Proof.
  assert (0 < length pat) by (destruct pat; [done|simpl; lia]).
  revert pos. induction fuel as [|fuel IH]; intros pos Hpos Hf; [lia|]. cbn [match_lines_from].
  destruct (find_cases pos (drop pos content)) as [[-> ->]|(k & -> & Hle & ->)]; [done|].
  rewrite length_drop in Hle. rewrite IH, drop_drop by lia. csimpl. by rewrite Nat.add_assoc.
Qed.
End matches.

(** The loop of [find_match_lines] is [match_indices]: its fuel is enough. *)
Lemma find_match_lines_spec content pattern :
  pattern ≠ [] → find_match_lines content pattern = line_number content <$> match_indices pattern content.
Proof.
  intros Hp. unfold find_match_lines. rewrite bool_decide_false by done.
  rewrite match_lines_from_ok by (done || lia). by rewrite drop_0.
Qed.

(** ** Insertions *)

(** Inserting at an anchor is the replacement of the anchor by itself and the insertion, after
    or before it.  It fails only on an empty anchor, an anchor that does not occur, or one that
    occurs several times when a single place is wanted. *)
Lemma insert_is_replace content anchor insert multiple after :
  let occurrences := length (match_indices anchor content) in
  ∃ r, insert_at_anchor content anchor insert multiple after = Some r ∧
    match r with
    | Ok out => anchor ≠ [] ∧ 1 ≤ occurrences ∧ (multiple = true ∨ occurrences = 1)
        ∧ out = replace anchor (if after then anchor ++ insert else insert ++ anchor) content
    | Err _ => anchor = [] ∨ occurrences = 0 ∨ multiple = false ∧ 1 < occurrences
    end.
Proof.
  cbv zeta. unfold insert_at_anchor. case_bool_decide as Hn; [eexists; split; [done|by left]|].
  case_bool_decide as Hp; [eexists; split; [done|right; left; by rewrite Hp]|].
  destruct (negb multiple && (1 <? length (match_indices anchor content))) eqn:Hm.
  { eexists. split; [done|]. apply andb_true_iff in Hm as [Hm Hl%Nat.ltb_lt]. right; right. by destruct multiple. }
  set (rep := if after then anchor ++ insert else insert ++ anchor).
  set (step := λ acc pos, t ← acc; insert_str (if after then pos + length anchor else pos) insert t).
  assert (Hstep : ∀ hd tl, step (Some (hd ++ anchor ++ tl)) (length hd) = Some (hd ++ rep ++ tl)).
  { intros hd tl. unfold step, rep, insert_str. simpl. destruct after.
    - rewrite decide_True by (rewrite !length_app; lia).
      replace (length hd + length anchor) with (length (hd ++ anchor)) by apply length_app.
      rewrite (app_assoc hd anchor tl), take_app_length, drop_app_length. by rewrite <- !app_assoc.
    - rewrite decide_True by (rewrite !length_app; lia). rewrite take_app_length, drop_app_length. by rewrite <- !app_assoc. }
  pose proof (foldl_replace anchor Hn step rep Hstep (length content) [] content (le_n _)) as Hf.
  cbn [app length] in Hf. unfold match_indices in *. rewrite Hf. eexists. split; [done|].
  split_and!; [done| | |done].
  - destruct (match_indices_from anchor 0 0 content); [done|simpl; lia].
  - destruct multiple; [by left|right]. apply andb_false_iff in Hm as [?|Hl%Nat.ltb_ge]; [done|].
    destruct (match_indices_from anchor 0 0 content); [done|simpl in *; lia].
Qed.

(** ** Regions *)

(** [n] regions, from an opening anchor to the first closing one after it, are rewritten. *)
Inductive rewritten (before after replacement : text) : nat → text → text → Prop :=
  | rewritten_rest t : rewritten before after replacement 0 t t
  | rewritten_region n pre mid rest out :
      find after (mid ++ after ++ rest) = Some (length mid) → rewritten before after replacement n rest out →
      rewritten before after replacement (S n)
        (pre ++ before ++ mid ++ after ++ rest) (pre ++ before ++ replacement ++ after ++ out).

(** Regions that start at or after [e] and do not overlap. *)
Fixpoint chained (after : text) (e : nat) (pairs : list (nat * nat)) : Prop :=
  match pairs with
  | [] => True
  | p :: pairs => e ≤ p.1 ∧ chained after (p.2 + length after) pairs
  end.

Lemma overlapping_None after pairs e :
  overlapping after pairs = None → (∀ p, head pairs = Some p → e ≤ p.1) → chained after e pairs.
Proof.
  revert e. induction pairs as [|p pairs IH]; intros e; [done|]. intros Ho He. split; [by apply He|].
  destruct pairs as [|q pairs]; [done|]. cbn [overlapping] in Ho.
  destruct (Nat.ltb_spec q.1 (p.2 + length after)); [done|]. apply IH; [done|]. intros ? [= <-]. done.
Qed.

Lemma regions_rewritten content before after replacement pairs e :
  before ≠ [] →
  (∀ b a, (b, a) ∈ pairs → ∃ r, drop b content = before ++ r ∧ anchor_pair content before after b = Some (b, a)) →
  chained after e pairs → e ≤ length content →
  ∃ out, foldl (replace_region before after replacement) (Some content) (reverse pairs) = Some (take e content ++ out)
    ∧ rewritten before after replacement (length pairs) (drop e content) out.
Proof.
  intros Hbefore. assert (0 < length before) as Hb0 by (destruct before; [done|simpl; lia]).
  revert e. induction pairs as [|[b a] pairs IH]; intros e Hpairs Hch He.
  { exists (drop e content). rewrite take_drop. split; [done|constructor]. }
  destruct Hch as [Hb Hch]. cbn [fst snd] in *. destruct (Hpairs b a) as (r & Hr & Ha); [by left|].
  unfold anchor_pair in Ha. apply fmap_Some in Ha as (rel & Hf & [= ->]).
  pose proof Hf as (rest & Heq & Hle)%find_Some. rewrite length_drop in Hle.
  pose proof (f_equal length Hr) as Hbl. rewrite length_drop, length_app in Hbl.
  set (mid := take rel (drop (b + length before) content)) in *.
  assert (length mid = rel) as Hmid by (unfold mid; rewrite length_take, length_drop; lia).
  assert (drop (b + length before + rel + length after) content = rest) as Hrest.
  { rewrite <- drop_drop, <- drop_drop, Heq. rewrite <- Hmid, drop_app_length. by rewrite drop_app_length. }
  destruct (IH (b + length before + rel + length after)) as (out & Hout & Hrw); [by intros; apply Hpairs; right|done|lia|].
  rewrite Hrest in Hrw.
  exists (take (b - e) (drop e content) ++ before ++ replacement ++ after ++ out). split.
  - rewrite reverse_cons, foldl_app, Hout. simpl. rewrite length_app, length_take, Nat.min_l by lia.
    rewrite decide_True by lia. f_equal.
    rewrite take_app_le by (rewrite length_take; lia). rewrite take_take, Nat.min_l by lia.
    rewrite drop_app_ge by (rewrite length_take; lia). rewrite length_take, Nat.min_l, Nat.sub_diag, drop_0 by lia.
    rewrite !app_assoc. do 3 f_equal.
    assert (take (b + length before) content = take b content ++ before) as ->.
    { rewrite <- take_take_drop, Hr. by rewrite take_app_length. }
    f_equal. replace b with (e + (b - e)) at 1 by lia. by rewrite take_take_drop.
  - cbn [length].
    assert (drop e content = take (b - e) (drop e content) ++ before ++ mid ++ after ++ rest) as Hd.
    { rewrite <- (take_drop (b - e) (drop e content)) at 1. f_equal. rewrite drop_drop.
      replace (e + (b - e)) with b by lia. rewrite Hr. f_equal.
      rewrite <- Heq. rewrite <- drop_drop, Hr. by rewrite drop_app_length. }
    rewrite Hd at 1. constructor; [|done]. by rewrite Hmid, <- Heq.
Qed.

(** Replacing between anchors never slices out of range; when it succeeds, at least one region -
    exactly one unless several are asked for - from an opening anchor to the first closing
    anchor after it has its inside replaced, the anchors and all other text are kept. *)
Lemma replace_between_is_exact content before after replacement multiple :
  ∃ r, replace_between_anchors content before after replacement multiple = Some r ∧
    ∀ out, r = Ok out → ∃ n, 1 ≤ n ∧ (multiple = false → n = 1) ∧ rewritten before after replacement n content out.
Proof.
  unfold replace_between_anchors. case_bool_decide as Hb; [by eexists|]. case_bool_decide as Ha; [by eexists|].
  case_bool_decide as Hpos; [by eexists|]. set (pairs := omap _ _).
  case_bool_decide as Hp; [by eexists|]. destruct (negb multiple && (1 <? length pairs)) eqn:Hm; [by eexists|].
  assert (sort_by_key fst pairs = pairs) as ->.
  { apply sort_by_key_id. unfold pairs.
    destruct (match_indices_sorted before Hb 0 content (length content)) as [Hs _]; [done|].
    unfold match_indices. induction Hs as [|i l _ IH Hi]; simpl; [constructor|].
    unfold anchor_pair at 1. destruct (find after _) as [rel|]; simpl; [|done].
    constructor; [done|]. rewrite Forall_forall in Hi. apply Forall_forall. intros [b a] (j & Hj & (x & _ & [= -> _])%fmap_Some)%list_elem_of_omap.
    apply rle_nat. simpl. specialize (Hi _ Hj). lia. }
  destruct (overlapping after pairs) as [[p q]|] eqn:Ho; [by eexists|].
  destruct (regions_rewritten content before after replacement pairs 0 Hb) as (out & Hf & Hrw).
  - intros b a Hin. unfold pairs in Hin. apply list_elem_of_omap in Hin as (i & Hi & Heq).
    pose proof Heq as (x & _ & [= <- _])%fmap_Some.
    destruct (match_indices_sorted before Hb 0 content (length content)) as [_ Hin]; [done|].
    destruct (Hin _ Hi) as (_ & rest & Hrest). rewrite Nat.sub_0_r in Hrest. by exists rest.
  - apply overlapping_None; [done|]. lia.
  - lia.
  - rewrite Hf. simpl. eexists. split; [done|]. intros ? [= <-]. exists (length pairs). split_and!; [| |done].
    + destruct pairs; [done|simpl; lia].
    + intros ->. simpl in Hm. apply Nat.ltb_ge in Hm. destruct pairs; [done|simpl in *; lia].
Qed.

(** ** Line ranges *)

Definition range_ok (total : N) (r : LineRange) : Prop :=
  (1 ≤ lr_start r ≤ lr_end r ∧ (lr_start r ≤ total ∨ total = 0 ∧ lr_start r = 1))%N.
Definition apart (r s : LineRange) : Prop := (lr_end r < lr_start s ∨ lr_end s < lr_start r)%N.

Lemma check_range_ok part total r r' : check_range part total r = Ok r' → r' = r ∧ range_ok total r.
Proof.
  unfold check_range. destruct (N.eqb_spec (lr_start r) 0); [done|].
  destruct (N.ltb_spec (lr_end r) (lr_start r)); [done|].
  destruct ((_ <? _)%N && negb _) eqn:Hc; [done|]. intros [= <-]. split; [done|]. split; [lia|].
  apply andb_false_iff in Hc as [Hc%N.ltb_ge|Hc%negb_false_iff]; [by left|right].
  by apply andb_true_iff in Hc as [?%N.eqb_eq ?%N.eqb_eq].
Qed.

Lemma parse_parts_ok parts total acc rs :
  parse_parts parts total acc = Ok rs → Forall (range_ok total) acc → Forall (range_ok total) rs.
Proof.
  revert acc. induction parts as [|part parts IH]; intros acc; simpl; [by intros [= <-]|].
  case_bool_decide; [apply IH|].
  intros (r & _ & (r' & [-> Hr]%check_range_ok & Hp)%result_bind_Ok)%result_bind_Ok Hacc.
  eapply IH; [exact Hp|]. apply Forall_app. split; [done|]. by apply Forall_singleton.
Qed.

Lemma ranges_overlap_None l :
  ranges_overlap l = None → Forall (λ r, lr_start r ≤ lr_end r)%N l →
  StronglySorted (λ r s, lr_end r < lr_start s)%N l.
Proof.
  induction l as [|r l IH]; [constructor|]. intros Ho [Hr Hl]%Forall_cons.
  assert (ranges_overlap l = None) as Ho'.
  { destruct l as [|s l]; [done|]. cbn [ranges_overlap] in Ho. by destruct (_ <=? _)%N. }
  constructor; [by apply IH|]. specialize (IH Ho' Hl). destruct l as [|s l]; [constructor|].
  cbn [ranges_overlap] in Ho. destruct (N.leb_spec (lr_start s) (lr_end r)) as [|Hlt]; [done|].
  constructor; [done|]. apply StronglySorted_inv in IH as [_ Hs]. apply Forall_cons in Hl as [Hse _].
  eapply Forall_impl; [exact Hs|]. intros t Ht. simpl in *. lia.
Qed.

Lemma pairwise_perm {A} (R : A → A → Prop) (l k : list A) :
  (∀ x y, R x y → R y x) → StronglySorted R l → l ≡ₚ k →
  ∀ i j x y, i ≠ j → k !! i = Some x → k !! j = Some y → R x y.
Proof.
  intros Hsym Hs Hp.
  assert (Hl : ∀ i j x y, i < j → l !! i = Some x → l !! j = Some y → R x y).
  { clear Hp k. induction Hs as [|z l _ IH Hz]; intros i j x y Hij Hi Hj; [done|].
    destruct j as [|j]; [lia|]. destruct i as [|i]; simpl in *; [|apply (IH i j); auto; lia].
    injection Hi as <-. rewrite Forall_forall in Hz. apply Hz. by eapply list_elem_of_lookup_2. }
  symmetry in Hp. apply Permutation_inj in Hp as (_ & f & Hinj & Hf). intros i j x y Hne Hi Hj.
  rewrite Hf in Hi, Hj. destruct (decide (f i < f j)); [by apply (Hl (f i) (f j))|].
  apply Hsym, (Hl (f j) (f i)); [|done..]. assert (f i ≠ f j) by (intros ?%Hinj; done). lia.
Qed.

(** Accepted line ranges are usable: there is at least one; each is one-based, in order and starts
    within the file (or at line 1 of an empty file); no two share a line. *)
Lemma line_ranges_are_disjoint s total rs :
  parse_line_ranges s total = Ok rs →
  rs ≠ [] ∧ Forall (range_ok total) rs ∧
  ∀ i j r1 r2, i ≠ j → rs !! i = Some r1 → rs !! j = Some r2 → apart r1 r2.
Proof.
  unfold parse_line_ranges. intros (l & Hp & H)%result_bind_Ok. case_bool_decide as Hn; [done|].
  destruct (ranges_overlap (sort_by_key lr_start l)) as [[a b]|] eqn:Ho; [done|]. injection H as <-.
  assert (Forall (range_ok total) l) as Hok by (eapply parse_parts_ok; [exact Hp|constructor]).
  split_and!; [done|done|]. pose proof (sort_by_key_perm lr_start l) as Hperm.
  apply ranges_overlap_None in Ho.
  - intros i j r1 r2. apply (pairwise_perm apart (sort_by_key lr_start l)); [|clear -Ho|done].
    + unfold apart. tauto.
    + induction Ho as [|x k _ IH Hx]; constructor; [done|]. eapply Forall_impl; [exact Hx|]. intros y. by left.
  - rewrite Hperm. eapply Forall_impl; [exact Hok|]. intros r [? _]. lia.
Qed.

(** ** Line endings *)

(** Every line feed is the second half of a CRLF, every carriage return the first. *)
Inductive crlf_text : text → Prop :=
  | crlf_nil : crlf_text []
  | crlf_char c t : c ≠ 13%N → c ≠ 10%N → crlf_text t → crlf_text (c :: t)
  | crlf_line t : crlf_text t → crlf_text (13%N :: 10%N :: t).

Lemma starts_one c x t : starts_with [c] (x :: t) = (c =? x)%N.
Proof. unfold starts_with. simpl. by destruct (c =? x)%N. Qed.
Lemma starts_two c d x t :
  starts_with [c; d] (x :: t) = (c =? x)%N && match t with y :: _ => (d =? y)%N | [] => false end.
Proof. unfold starts_with. simpl. destruct (c =? x)%N; [|done]. destruct t as [|y t]; simpl; [done|]. by destruct (d =? y)%N. Qed.

Lemma replace_one_cons c rep x t :
  replace [c] rep (x :: t) = (if (c =? x)%N then rep else [x]) ++ replace [c] rep t.
Proof. unfold replace. cbn [replace_from]. rewrite starts_one. by destruct (c =? x)%N. Qed.
Lemma replace_crlf_line rep t : replace [13%N; 10%N] rep (13%N :: 10%N :: t) = rep ++ replace [13%N; 10%N] rep t.
Proof. done. Qed.
Lemma replace_crlf_char rep c t : c ≠ 13%N → replace [13%N; 10%N] rep (c :: t) = c :: replace [13%N; 10%N] rep t.
Proof.
  intros Hc. unfold replace. cbn [replace_from]. rewrite starts_two.
  by destruct (N.eqb_spec 13 c); [subst|].
Qed.

Lemma replace_one_absent c rep t : c ∉ t → replace [c] rep t = t.
Proof.
  induction t as [|x t IH]; [done|]. intros [Hne Hni]%not_elem_of_cons. rewrite replace_one_cons, IH by done.
  by destruct (N.eqb_spec c x).
Qed.

Lemma normalize_no_cr t : 13%N ∉ normalize_line_endings t.
Proof.
  unfold normalize_line_endings, normalize_all_line_endings.
  generalize (replace [13%N; 10%N] [10%N] t). intros s. induction s as [|c s IH]; [apply not_elem_of_nil|].
  rewrite replace_one_cons, elem_of_app. intros [H|H]; [|done].
  destruct (N.eqb_spec 13 c); apply list_elem_of_singleton in H; congruence.
Qed.

Lemma normalize_absent t : 13%N ∉ t → normalize_line_endings t = t.
Proof.
  intros Hn. unfold normalize_line_endings, normalize_all_line_endings.
  assert (replace [13%N; 10%N] [10%N] t = t) as ->; [|by apply replace_one_absent].
  induction t as [|c t IH]; [done|]. apply not_elem_of_cons in Hn as [Hc Hn].
  by rewrite replace_crlf_char, IH.
Qed.

Lemma crlf_text_restores t :
  crlf_text t → replace [10%N] [13%N; 10%N] (normalize_line_endings (normalize_line_endings t)) = t.
Proof.
  intros Ht. rewrite normalize_absent by apply normalize_no_cr.
  unfold normalize_line_endings, normalize_all_line_endings.
  induction Ht as [|c t H13 H10 _ IH|t _ IH]; [done| |].
  - rewrite replace_crlf_char, replace_one_cons by done. destruct (N.eqb_spec 13 c); [by subst|]. simpl app at 1.
    rewrite replace_one_cons. destruct (N.eqb_spec 10 c); [by subst|]. simpl. by f_equal.
  - rewrite replace_crlf_line. simpl app at 1. rewrite replace_one_cons. simpl app at 1. rewrite replace_one_cons.
    simpl. by do 2 f_equal.
Qed.

Lemma had_crlf_none t : 13%N ∉ t → had_crlf t = false.
Proof.
  unfold had_crlf, contains. induction t as [|c t IH]; [done|]. intros [Hc Ht]%not_elem_of_cons.
  cbn [find]. rewrite starts_two. destruct (N.eqb_spec 13 c); [done|]. simpl. specialize (IH Ht).
  by destruct (find _ t).
Qed.

Lemma crlf_text_cases t : crlf_text t → had_crlf t = true ∨ (13%N ∉ t) ∧ 10%N ∉ t.
Proof.
  induction 1 as [|c t H13 H10 _ IH|t _ IH]; [right; set_solver| |by left].
  destruct IH as [IH|[? ?]]; [left|right; set_solver].
  unfold had_crlf, contains in *. cbn [find]. rewrite starts_two. destruct (N.eqb_spec 13 c); [by subst|]. simpl.
  by destruct (find _ t).
Qed.

Lemma restored_is_crlf t : crlf_text (restore_line_endings t true).
Proof.
  unfold restore_line_endings. change (normalize_all_line_endings t) with (normalize_line_endings t).
  pose proof (normalize_no_cr t) as Hn. revert Hn. generalize (normalize_line_endings t). intros s.
  induction s as [|c s IH]; [constructor|]. intros [Hc Hs]%not_elem_of_cons. rewrite replace_one_cons.
  destruct (N.eqb_spec 10 c); simpl; [by apply crlf_line, IH|by apply crlf_char; [..|apply IH]].
Qed.

(** Line endings survive an edit: what is edited has no carriage return; a file whose line ends are
    all CRLF, or that has no carriage return, is restored exactly when it is not changed; and
    what is written back to a CRLF file has CRLF line ends only. *)
Lemma line_endings_survive content edited :
  (13%N ∉ normalize_line_endings content) ∧
  (crlf_text content ∨ (13%N ∉ content) →
     restore_line_endings (normalize_line_endings content) (had_crlf content) = content) ∧
  (had_crlf content = true → crlf_text (restore_line_endings edited (had_crlf content))).
Proof.
  split_and!; [apply normalize_no_cr| |intros ->; apply restored_is_crlf].
  intros [Hc|Hn].
  - destruct (crlf_text_cases _ Hc) as [Hh|[Hn _]]; [rewrite Hh; by apply crlf_text_restores|].
    by rewrite had_crlf_none, normalize_absent.
  - by rewrite had_crlf_none, normalize_absent.
Qed.
