(* ===== verification/FileActivity.v ===== *)
(** * File activity: who read and wrote which file

    [src/file_activity.rs].  Every file read shown to a chat leaves a stamp, every recorded
    write an observation; before a tool writes, the stamp of its chat is compared with
    the file.  A file is known under one key, the first canonical path seen for its
    identity.  The disk, the clock and the settings are arguments: they change between
    operations.  The content of a file is text; its digest is a parameter, like the
    resolution of symbolic links.  Refusals are values; their wording is left out. *)

From stdpp Require Import gmap strings list pretty.
From S2P Require Import Prelude RustStr Patch TextEdit Identity Settings.

(** ** The disk *)

(** A file is a device and an inode; several paths can name one. *)
Record Disk := {
  file_at : gmap string (N * N);
  content_of : gmap (N * N) text;
  dirs : gset string;
}.
Definition file_text (d : Disk) (path : string) : option text := i ← file_at d !! path; content_of d !! i.
Definition is_dir (d : Disk) (path : string) : bool := bool_decide (path ∈ dirs d).
Definition exists_path (d : Disk) (path : string) : bool :=
  bool_decide (is_Some (file_at d !! path)) || is_dir d path.

(** [Path::starts_with]: by components. *)
Fixpoint is_prefix {A} `{EqDecision A} (p l : list A) : bool :=
  match p, l with
  | [], _ => true
  | x :: p, y :: l => bool_decide (x = y) && is_prefix p l
  | _ :: _, [] => false
  end.
#[global] Instance Component_eq_dec : EqDecision Component.
Proof. solve_decision. Defined.
Definition path_starts_with (path prefix : string) : bool :=
  is_prefix (components (chars prefix)) (components (chars path)).

(** ** Data *)

Inductive WriteIntent := WCreate | WOverwrite (authorized : bool) | WContextual | WDelete | WRename | WTree.
Inductive WriteKind := Created | Modified | Deleted | Renamed.

Record ReadObservation := {
  ro_actor : string;
  ro_key : string;
  ro_path : string;
  ro_alias : option string;
  line1 : N;
  line2 : N;
  total_lines : N;
  ro_whole : bool;
  ro_partial_reason : option string;
  ro_bytes : N;
  ro_digest : string;
  ro_at_ms : N;
}.
Record WriteObservation := {
  wo_actor : option string;
  wo_key : string;
  wo_path : string;
  wo_alias : option string;
  wo_kind : WriteKind;
  wo_tool : string;
  attributed : bool;
  bytes_after : option N;
  digest_after : option string;
  wo_at_ms : N;
}.
Record Observations := {
  obs_reads : list ReadObservation;
  obs_writes : list WriteObservation;
  obs_reads_dropped : N;
  obs_writes_dropped : N;
}.
Record ActorState := {
  as_digest : string;
  as_bytes : N;
  as_whole : bool;
  as_partial_reason : option string;
  as_at_ms : N;
  from_write : bool;
}.
Record Registry := {
  alias_to_key : gmap string string;
  key_to_alias : gmap string string;
  key_to_path : gmap string string;
  reads : list ReadObservation;
  writes : list WriteObservation;
  actor_state : gmap (string * string) ActorState;
  reads_dropped : N;
  writes_dropped : N;
}.
Definition empty_registry : Registry := {|
  alias_to_key := ∅; key_to_alias := ∅; key_to_path := ∅; reads := []; writes := []; actor_state := ∅;
  reads_dropped := 0; writes_dropped := 0 |}.

Definition with_aliases (a k p : gmap string string) (r : Registry) : Registry := {|
  alias_to_key := a; key_to_alias := k; key_to_path := p; reads := reads r; writes := writes r;
  actor_state := actor_state r; reads_dropped := reads_dropped r; writes_dropped := writes_dropped r |}.
Definition with_reads (l : list ReadObservation) (m : gmap (string * string) ActorState) (dropped : N) (r : Registry)
  : Registry := {|
  alias_to_key := alias_to_key r; key_to_alias := key_to_alias r; key_to_path := key_to_path r;
  reads := l; writes := writes r; actor_state := m; reads_dropped := dropped; writes_dropped := writes_dropped r |}.
Definition with_writes (l : list WriteObservation) (dropped : N) (r : Registry) : Registry := {|
  alias_to_key := alias_to_key r; key_to_alias := key_to_alias r; key_to_path := key_to_path r;
  reads := reads r; writes := l; actor_state := actor_state r; reads_dropped := reads_dropped r;
  writes_dropped := dropped |}.

Record WriteGuard := {
  g_actor : option string;
  g_key : string;
  g_alias : option string;
  g_path : string;
  g_tool : string;
  g_digest_before : option string;
  committed : bool;
}.
Inductive Refusal :=
  | CannotInspect (path : string)
  | NotADirectory
  | AlreadyExists (path : string)
  | NotRead (path : string)
  | PartiallyRead (path reason : string)
  | DoesNotExist (path : string)
  | Stale (path : string) (state : ActorState) (key : string) (actor : option string).

Section activity.
Context (digest_of : text → string) (canonical_string : Disk → string → string).

(** ** Keys *)

Definition file_alias (d : Disk) (path : string) : option string :=
  (λ i, "id:" +:+ pretty i.1 +:+ ":" +:+ pretty i.2) <$> file_at d !! path.

Definition retained_keys (r : Registry) : gset string :=
  list_to_set ((ro_key <$> reads r) ++ (wo_key <$> writes r)).
Definition prune_aliases (r : Registry) : Registry :=
  let retained := retained_keys r in
  with_aliases (filter (λ p, p.2 ∈ retained) (alias_to_key r))
    (filter (λ p, p.1 ∈ retained) (key_to_alias r)) (filter (λ p, p.1 ∈ retained) (key_to_path r)) r.

Definition resolve_key (d : Disk) (cfg : CoordinationSettings) (path : string) (r : Registry)
  : Registry * (string * option string) :=
  let canonical := canonical_string d path in
  match file_alias d path with
  | None => (r, (canonical, None))
  | Some alias =>
      let r :=
        match alias_to_key r !! alias with
        | Some existing =>
            if bool_decide (file_alias d existing = Some alias) then r
            else with_aliases (delete alias (alias_to_key r)) (key_to_alias r) (key_to_path r) r
        | None => r
        end in
      let cap := (max_read_stamps cfg +sat max_write_records cfg)%rust in
      let r := if (cap <=? N.of_nat (size (alias_to_key r)))%N then prune_aliases r else r in
      let '(key, aliases) :=
        match alias_to_key r !! alias with
        | Some existing => (existing, alias_to_key r)
        | None => (canonical, <[alias := canonical]> (alias_to_key r))
        end in
      (with_aliases aliases (<[key := alias]> (key_to_alias r)) (<[key := canonical]> (key_to_path r)) r,
       (key, Some alias))
  end.

(** Digest and size; [Err] when the path cannot be read as a file. *)
Definition current_state (d : Disk) (path : string) : result (option (string * N)) Refusal :=
  match file_text d path with
  | Some t => Ok (Some (digest_of t, text_len t))
  | None => if is_dir d path then Err (CannotInspect path) else Ok None
  end.

(** ** Reads *)

(** The oldest observations beyond [max] go, and with the last one of a chat for a key, its state. *)
Fixpoint drop_reads (max : nat) (l : list ReadObservation) (m : gmap (string * string) ActorState) (dropped : N)
  : list ReadObservation * gmap (string * string) ActorState * N :=
  match l with
  | [] => ([], m, dropped)
  | removed :: l' =>
      if (max <? length l)%nat then
        let m := if existsb (λ o, bool_decide (ro_actor o = ro_actor removed) && bool_decide (ro_key o = ro_key removed)) l'
                 then m else delete (ro_actor removed, ro_key removed) m in
        drop_reads max l' m (dropped +sat 1)%rust
      else (l, m, dropped)
  end.

Definition stamp_state (whole : bool) (reason : option string) (digest : string) (bytes at_ms : N)
    (old : option ActorState) : ActorState :=
  let slot := default {| as_digest := digest; as_bytes := bytes; as_whole := whole; as_partial_reason := reason;
                         as_at_ms := at_ms; from_write := false |} old in
  let same_content := bool_decide (as_digest slot = digest) in
  let '(w, pr) :=
    if whole then (true, None)
    else if negb same_content then (false, reason)
    else (as_whole slot, as_partial_reason slot) in
  {| as_digest := digest; as_bytes := bytes; as_whole := w; as_partial_reason := pr; as_at_ms := at_ms;
     from_write := false |}.

Definition record_read (d : Disk) (cfg : CoordinationSettings) (now : N) (actor : option string) (path : string)
    (content : text) (l1 l2 total : N) (partial_reason : option string) (r : Registry)
  : Registry * ReadObservation :=
  let '(r, (key, alias)) := resolve_key d cfg path r in
  let digest := digest_of content in
  let whole := bool_decide (partial_reason = None) && (l1 <=? 1)%N && (total <=? l2)%N in
  let observation := {|
    ro_actor := default "" actor; ro_key := key; ro_path := path; ro_alias := alias; line1 := l1; line2 := l2;
    total_lines := total; ro_whole := whole; ro_partial_reason := partial_reason; ro_bytes := text_len content;
    ro_digest := digest; ro_at_ms := now |} in
  let max_reads := N.to_nat (N.max (max_read_stamps cfg) 1) in
  let '(l, m, dropped) := drop_reads max_reads (reads r ++ [observation]) (actor_state r) (reads_dropped r) in
  let m := match actor with
           | None => m
           | Some actor =>
               <[(actor, key) := stamp_state whole partial_reason digest (text_len content) now (m !! (actor, key))]> m
           end in
  (with_reads l m dropped r, observation).

(** The rendered lines, ["<number> | <content>"]. *)
Fixpoint split_once_str (pat t : text) : option (text * text) :=
  match strip_prefix pat t with
  | Some r => Some ([], r)
  | None => match t with [] => None | x :: t => (λ p, (x :: p.1, p.2)) <$> split_once_str pat t end
  end.
Definition shown_line (line : text) : option (N * text) :=
  '(number, content) ← split_once_str (lit " | ") line;
  n ← parse_usize (trim number);
  Some (n, content).
Record ContextFile := { cf_file_name : string; cf_file_content : text; cf_line1 : N; cf_line2 : N }.
Definition shown_whole (file : ContextFile) (content : text) : bool :=
  let expected := lines content in
  let shown := omap shown_line (lines (cf_file_content file)) in
  (cf_line1 file <=? 1)%N && (Nlen expected <=? cf_line2 file)%N
  && bool_decide (shown = imap (λ i l, (N.of_nat i + 1, l)%N) expected).

Definition record_visible_read (d : Disk) (cfg : CoordinationSettings) (now : N) (actor : string)
    (file : ContextFile) (content : text) (r : Registry) : Registry * ReadObservation :=
  record_read d cfg now (Some actor) (cf_file_name file) content (cf_line1 file) (cf_line2 file)
    (Nlen (lines content))
    (if shown_whole file content then None else Some "only the rendered range survived output processing") r.

(** ** Writes *)

Fixpoint drop_writes (max : nat) (l : list WriteObservation) (dropped : N) : list WriteObservation * N :=
  match l with
  | [] => ([], dropped)
  | _ :: l' => if (max <? length l)%nat then drop_writes max l' (dropped +sat 1)%rust else (l, dropped)
  end.

Definition record_bytes (cfg : CoordinationSettings) (now : N) (kind : WriteKind) (after : option text)
    (g : WriteGuard) (r : Registry) : Registry :=
  let observation := {|
    wo_actor := g_actor g; wo_key := g_key g; wo_path := g_path g; wo_alias := g_alias g; wo_kind := kind;
    wo_tool := g_tool g; attributed := bool_decide (is_Some (g_actor g)); bytes_after := text_len <$> after;
    digest_after := digest_of <$> after; wo_at_ms := now |} in
  let '(l, dropped) := drop_writes (N.to_nat (N.max (max_write_records cfg) 1)) (writes r ++ [observation])
                         (writes_dropped r) in
  with_writes l dropped r.

Definition last_other_writer (key : string) (actor : option string) (since_ms : N) (r : Registry)
  : option WriteObservation :=
  let other w := match wo_actor w, actor with Some a, Some b => negb (bool_decide (a = b)) | _, _ => true end in
  snd <$> list_find (λ w, bool_decide (wo_key w = key) && (since_ms <=? wo_at_ms w)%N && other w = true)
            (reverse (writes r)).

(** A directory is refused when a file below it that the chat has read is no longer what it read. *)
Definition stale_below (d : Disk) (path : string) (actor : option string) (r : Registry)
    (read : ReadObservation) (rest : result unit Refusal) : result unit Refusal :=
  if bool_decide (actor = Some (ro_actor read)) && path_starts_with (ro_path read) path then
    match actor_state r !! (ro_actor read, ro_key read) with
    | Some observed =>
        let? current := current_state d (ro_path read) in
        if bool_decide (fst <$> current = Some (as_digest observed)) then rest
        else Err (Stale (ro_path read) observed (ro_key read) actor)
    | None => rest
    end
  else rest.

Definition check_overwrite (path key : string) (actor : option string) (current : string)
    (observed : option ActorState) : result unit Refusal :=
  match observed with
  | None => Err (NotRead path)
  | Some state =>
      if bool_decide (as_digest state ≠ current) then Err (Stale path state key actor)
      else if negb (as_whole state)
      then Err (PartiallyRead path (default "only part of the file was returned" (as_partial_reason state)))
      else Ok ()
  end.

Definition check_contextual (path key : string) (actor : option string) (must_exist : bool)
    (current : option string) (observed : option ActorState) : result unit Refusal :=
  match current, observed with
  | Some digest, Some state =>
      if bool_decide (as_digest state ≠ digest) then Err (Stale path state key actor) else Ok ()
  | None, _ => if must_exist then Err (DoesNotExist path) else Ok ()
  | _, _ => Ok ()
  end.

Definition validate_write (d : Disk) (cfg : CoordinationSettings) (actor : option string) (path : string)
    (intent : WriteIntent) (tool : string) (r : Registry) : Registry * result WriteGuard Refusal :=
  let '(r, (key, alias)) := resolve_key d cfg path r in
  (r,
   let? before := match intent with WTree => Ok None | _ => current_state d path end in
   let guard := {| g_actor := actor; g_key := key; g_alias := alias; g_path := path; g_tool := tool;
                   g_digest_before := fst <$> before; committed := false |} in
   if negb (enabled cfg) then Ok guard
   else
     let observed := a ← actor; actor_state r !! (a, key) in
     let current := fst <$> before in
     let? _ :=
       match intent with
       | WTree =>
           if exists_path d path && negb (is_dir d path) then Err NotADirectory
           else foldr (stale_below d path actor r) (Ok ()) (reads r)
       | WCreate => if bool_decide (is_Some current) then Err (AlreadyExists path) else Ok ()
       | WOverwrite authorized =>
           match current with
           | Some digest => if authorized then Ok () else check_overwrite path key actor digest observed
           | None => Ok ()
           end
       | WContextual => check_contextual path key actor false current observed
       | WDelete | WRename => check_contextual path key actor true current observed
       end in
     Ok guard).

(** ** Queries *)

Definition observations (project : option string) (r : Registry) : Observations :=
  let keep path := match project with
                   | Some prefix => if bool_decide (prefix = "") then true else path_starts_with path prefix
                   | None => true
                   end in
  {| obs_reads := filter (λ o, keep (ro_path o) || keep (ro_key o) = true) (reads r);
     obs_writes := filter (λ o, keep (wo_path o) || keep (wo_key o) = true) (writes r);
     obs_reads_dropped := reads_dropped r; obs_writes_dropped := writes_dropped r |}.

(** ** Lock keys *)

(** [Path::parent] of a path without redundant separators. *)
Definition parent (path : string) : option string :=
  let bs := String.list_ascii_of_string path in
  let is_slash c := bool_decide (c = Ascii.ascii_of_N 47) in
  if bool_decide (path = "") || bool_decide (path = "/") then None
  else match drop_while (λ c, negb (is_slash c)) (reverse bs) with
       | [] => Some ""
       | [_] => Some "/"
       | _ :: dir => Some (String.string_of_list_ascii (reverse dir))
       end.
Fixpoint ancestors_from (fuel : nat) (path : string) : list string :=
  match fuel with
  | O => []
  | S fuel => match parent path with Some p => p :: ancestors_from fuel p | None => [] end
  end.
(** [ancestors().skip(1)]; each ancestor is shorter. *)
Definition proper_ancestors (path : string) : list string := ancestors_from (String.length path) path.

(** Whether the lock of a key is shared. *)
Definition add_lock_keys (d : Disk) (m : gmap string bool) (p : string * WriteIntent) : gmap string bool :=
  let canonical := canonical_string d p.1 in
  let m := <["path:" +:+ canonical := false]> m in
  let m := foldl (λ m parent, match m !! ("directory:" +:+ parent) with
                              | Some _ => m
                              | None => <["directory:" +:+ parent := true]> m
                              end) m (proper_ancestors canonical) in
  let m := match p.2 with WTree => <["directory:" +:+ canonical := false]> m | _ => m end in
  match file_alias d p.1 with Some alias => <[alias := false]> m | None => m end.
Definition lock_keys (d : Disk) (paths : list (string * WriteIntent)) : list (string * bool) :=
  btree_list (foldl (add_lock_keys d) ∅ paths).

(** The validation of a transaction, under its locks. *)
Fixpoint validate_writes (d : Disk) (cfg : CoordinationSettings) (actor : option string)
    (paths : list (string * WriteIntent)) (tool : string) (r : Registry)
  : Registry * result (list WriteGuard) Refusal :=
  match paths with
  | [] => (r, Ok [])
  | (path, intent) :: paths =>
      match validate_write d cfg actor path intent tool r with
      | (r, Err e) => (r, Err e)
      | (r, Ok guard) =>
          match validate_writes d cfg actor paths tool r with
          | (r, Err e) => (r, Err e)
          | (r, Ok guards) => (r, Ok (guard :: guards))
          end
      end
  end.
End activity.
