(* ===== verification/FileLocks.v ===== *)
(** * Locks of file transactions

    [hold] and [begin_writes] of [src/file_activity.rs] as a transition system: a
    transaction takes the locks of its keys one by one, in the order of the map, shared
    or exclusive, and drops them all when it ends, times out or finds that its keys
    have changed.  Transactions with a file in common exclude each other, and some
    transaction can always go on. *)

From stdpp Require Import gmap strings list sorting relations.
From S2P Require Import Prelude RustStr Patch TextEdit Identity Settings FileActivity.

(** ** Keys *)

Section keys.
Context (canonical_string : Disk → string → string).

(** [true] is shared: an exclusive key stays exclusive. *)
Definition le_keys (m m' : gmap string bool) : Prop :=
  ∀ k b, m !! k = Some b → ∃ b', m' !! k = Some b' ∧ (b = false → b' = false).

#[local] Instance le_keys_preorder : PreOrder le_keys.
Proof.
  split; [by intros m k b H; exists b|]. intros m1 m2 m3 H12 H23 k b H.
  destruct (H12 k b H) as (b2 & H2 & E2). destruct (H23 k b2 H2) as (b3 & H3 & E3). exists b3. auto.
Qed.

Lemma le_keys_exclusive m k : le_keys m (<[k := false]> m).
Proof.
  intros k' b H. destruct (decide (k = k')) as [<-|Hne].
  - exists false. by rewrite lookup_insert_eq.
  - exists b. by rewrite lookup_insert_ne.
Qed.

Lemma le_keys_shared m k : le_keys m (match m !! k with Some _ => m | None => <[k := true]> m end).
Proof.
  destruct (m !! k) eqn:E; [done|]. intros k' b H. exists b.
  rewrite lookup_insert_ne; [done|]. intros <-. congruence.
Qed.

Definition add_shared (m : gmap string bool) (parent : string) : gmap string bool :=
  match m !! ("directory:" +:+ parent) with
  | Some _ => m
  | None => <["directory:" +:+ parent := true]> m
  end.

Lemma le_keys_fold l m : le_keys m (foldl add_shared m l).
Proof. revert m. induction l as [|x l IH]; intros m; simpl; [done|]. etrans; [|apply IH]. apply le_keys_shared. Qed.

Lemma fold_shared_present l m p : p ∈ l → is_Some (foldl add_shared m l !! ("directory:" +:+ p)).
Proof.
  revert m. induction l as [|x l IH]; intros m Hp; [by apply not_elem_of_nil in Hp|]. simpl.
  apply elem_of_cons in Hp as [<-|Hp]; [|by apply IH].
  assert (is_Some (add_shared m p !! ("directory:" +:+ p))) as [b Hb].
  { unfold add_shared. destruct (m !! ("directory:" +:+ p)) eqn:E; [by rewrite E|]. by rewrite lookup_insert_eq. }
  destruct (le_keys_fold l _ _ _ Hb) as (b' & Hb' & _). by exists b'.
Qed.

Lemma add_lock_keys_ok d m path intent :
  let c := canonical_string d path in
  let m' := add_lock_keys canonical_string d m (path, intent) in
  le_keys m m' ∧ m' !! ("path:" +:+ c) = Some false
  ∧ (∀ parent, parent ∈ proper_ancestors c → is_Some (m' !! ("directory:" +:+ parent)))
  ∧ (intent = WTree → m' !! ("directory:" +:+ c) = Some false)
  ∧ (∀ alias, file_alias d path = Some alias → m' !! alias = Some false).
Proof.
  intros c m'. unfold m', add_lock_keys. simpl. fold c. fold add_shared.
  set (m1 := <["path:" +:+ c := false]> m). change (foldl _ m1 _) with (foldl add_shared m1 (proper_ancestors c)).
  set (m2 := foldl add_shared m1 (proper_ancestors c)).
  set (m3 := match intent with WTree => <["directory:" +:+ c := false]> m2 | _ => m2 end).
  set (m4 := match file_alias d path with Some alias => <[alias := false]> m3 | None => m3 end).
  assert (H12 : le_keys m1 m2) by apply le_keys_fold.
  assert (H23 : le_keys m2 m3) by (unfold m3; destruct intent; try done; apply le_keys_exclusive).
  assert (H34 : le_keys m3 m4) by (unfold m4; destruct (file_alias d path); [apply le_keys_exclusive|done]).
  assert (Hex : ∀ m m' k, le_keys m m' → m !! k = Some false → m' !! k = Some false).
  { intros ? ? k Hle H. destruct (Hle k _ H) as (b & -> & Hb). by rewrite Hb. }
  split_and!.
  - transitivity m1; [apply le_keys_exclusive|]. by transitivity m2; [|transitivity m3].
  - apply (Hex m1); [by transitivity m2; [|transitivity m3]|]. apply lookup_insert_eq.
  - intros parent Hp. destruct (fold_shared_present _ m1 _ Hp) as [b Hb].
    destruct (H23 _ _ Hb) as (b2 & Hb2 & _). destruct (H34 _ _ Hb2) as (b3 & Hb3 & _). by exists b3.
  - intros ->. apply (Hex m3); [done|]. apply lookup_insert_eq.
  - intros alias Ha. unfold m4. rewrite Ha. apply lookup_insert_eq.
Qed.

Lemma lock_keys_ok d paths path intent :
  (path, intent) ∈ paths →
  let c := canonical_string d path in
  let keys := lock_keys canonical_string d paths in
  ("path:" +:+ c, false) ∈ keys
  ∧ (∀ parent, parent ∈ proper_ancestors c → ∃ b, ("directory:" +:+ parent, b) ∈ keys)
  ∧ (intent = WTree → ("directory:" +:+ c, false) ∈ keys)
  ∧ (∀ alias, file_alias d path = Some alias → (alias, false) ∈ keys).
Proof.
  intros Hin c keys. unfold keys, lock_keys.
  assert (∀ l m, le_keys m (foldl (add_lock_keys canonical_string d) m l)) as Hmono.
  { induction l as [|[p i] l IH]; intros m; simpl; [done|]. etrans; [|apply IH]. apply add_lock_keys_ok. }
  apply list_elem_of_split in Hin as (l1 & l2 & ->). rewrite foldl_app. simpl.
  set (m := foldl (add_lock_keys canonical_string d) ∅ l1).
  destruct (add_lock_keys_ok d m path intent) as (_ & Hp & Hd & Ht & Ha). fold c in Hp, Hd, Ht, Ha.
  assert (∀ k, add_lock_keys canonical_string d m (path, intent) !! k = Some false →
    (k, false) ∈ btree_list (foldl (add_lock_keys canonical_string d) (add_lock_keys canonical_string d m (path, intent)) l2)) as Hf.
  { intros k Hk. apply elem_of_btree_list. destruct (Hmono l2 _ _ _ Hk) as (b & -> & Hb). by rewrite Hb. }
  split_and!; [by apply Hf| |by intros ?; apply Hf, Ht|by intros a ?; apply Hf, Ha].
  intros parent Hpar. destruct (Hd parent Hpar) as [b Hb]. destruct (Hmono l2 _ _ _ Hb) as (b' & Hb' & _).
  exists b'. by apply elem_of_btree_list.
Qed.

(** Two transactions have something in common: a path, a file, or one replaces a whole
    directory above a path of the other. *)
Inductive overlaps (d d' : Disk) : string * WriteIntent → string * WriteIntent → Prop :=
  | SamePath p p' i i' : canonical_string d p = canonical_string d' p' → overlaps d d' (p, i) (p', i')
  | SameFile p p' i i' a : file_alias d p = Some a → file_alias d' p' = Some a → overlaps d d' (p, i) (p', i')
  | TreeAbove p p' i' : canonical_string d p ∈ proper_ancestors (canonical_string d' p') →
      overlaps d d' (p, WTree) (p', i')
  | TreeBelow p p' i : canonical_string d' p' ∈ proper_ancestors (canonical_string d p) →
      overlaps d d' (p, i) (p', WTree).

(** They have a common key, exclusive for one of them. *)
Lemma overlap_conflict d d' l l' x x' :
  x ∈ l → x' ∈ l' → overlaps d d' x x' →
  ∃ k b b', (k, b) ∈ lock_keys canonical_string d l ∧ (k, b') ∈ lock_keys canonical_string d' l' ∧ b && b' = false.
Proof.
  intros Hx Hx' Ho. destruct x as [p0 i0], x' as [p0' i0'].
  destruct (lock_keys_ok d l p0 i0 Hx) as (H1 & H2 & H3 & H4).
  destruct (lock_keys_ok d' l' p0' i0' Hx') as (H1' & H2' & H3' & H4').
  inversion Ho as [p p' i i' E|p p' i i' a Ea Ea'|p p' i' Hp|p p' i Hp]; simplify_eq.
  - rewrite E in H1. by exists ("path:" +:+ canonical_string d' p0'), false, false.
  - exists a, false, false. auto.
  - destruct (H2' _ Hp) as [b Hb]. exists ("directory:" +:+ canonical_string d p0), false, b. auto.
  - destruct (H2 _ Hp) as [b Hb]. exists ("directory:" +:+ canonical_string d' p0'), b, false.
    split_and!; [done|by apply H3'|by destruct b].
Qed.
End keys.

(** The keys are taken in increasing order. *)
Lemma btree_list_increasing `{Countable K, !RustOrd K, !RustOrdLaws K} {V} (m : gmap K V) i j x y :
  btree_list m !! i = Some x → btree_list m !! j = Some y → i < j → rlt x.1 y.1.
Proof.
  intros Hi Hj Hij. pose proof (NoDup_btree_list_fst m) as Hnd.
  assert (rle x.1 y.1) as Hle.
  { pose proof (sort_by_key_sorted fst (map_to_list m)) as Hs. fold (btree_list m) in Hs.
    clear Hnd. revert i j Hi Hj Hij. induction Hs as [|z l _ IH Hz]; [done|]. intros [|i] [|j] Hi Hj Hij; [lia| |lia|].
    - simpl in Hi, Hj. injection Hi as ->. rewrite Forall_forall in Hz. apply Hz. by apply list_elem_of_lookup_2 in Hj.
    - apply (IH i j); [done..|lia]. }
  destruct (decide (rle y.1 x.1)) as [Hle'|Hn]; [|by apply not_rle in Hn].
  exfalso. assert (x.1 = y.1) as E by (apply (anti_symm rle); done).
  enough (i = j) by lia. eapply NoDup_lookup; [exact Hnd| |]; rewrite list_lookup_fmap; [by rewrite Hi|by rewrite Hj, E].
Qed.

(** ** The transition system *)

Record Txn := {
  t_disk : Disk;
  t_paths : list (string * WriteIntent);
  t_held : nat;
  t_ready : bool;
}.

Section locking.
Context (canonical_string : Disk → string → string).

Definition t_keys (t : Txn) : list (string * bool) := lock_keys canonical_string (t_disk t) (t_paths t).
Definition holds (t : Txn) (k : string) (b : bool) : Prop := (k, b) ∈ take (t_held t) (t_keys t).
Definition waits_for (t : Txn) (k : string) (b : bool) : Prop := t_keys t !! t_held t = Some (k, b).

(** Nobody else holds the key, or everybody shares it. *)
Definition can_take (ts : gmap nat Txn) (i : nat) (k : string) (b : bool) : Prop :=
  ∀ j t b', j ≠ i → ts !! j = Some t → holds t k b' → b && b' = true.

Definition begin (d : Disk) (paths : list (string * WriteIntent)) : Txn :=
  {| t_disk := d; t_paths := paths; t_held := 0; t_ready := false |}.
Definition take_next (t : Txn) : Txn :=
  {| t_disk := t_disk t; t_paths := t_paths t; t_held := S (t_held t); t_ready := false |}.
(** The keys are computed again; the files are those of the disk as it is now. *)
Definition confirm (d : Disk) (t : Txn) : Txn :=
  {| t_disk := d; t_paths := t_paths t; t_held := t_held t; t_ready := true |}.

Inductive lock_step (ts : gmap nat Txn) : gmap nat Txn → Prop :=
  | LBegin i d paths : ts !! i = None → lock_step ts (<[i := begin d paths]> ts)
  | LTake i t k b : ts !! i = Some t → waits_for t k b → can_take ts i k b → lock_step ts (<[i := take_next t]> ts)
  | LConfirm i t d : ts !! i = Some t → t_held t = length (t_keys t) →
      lock_keys canonical_string d (t_paths t) = t_keys t → lock_step ts (<[i := confirm d t]> ts)
  | LDrop i : is_Some (ts !! i) → lock_step ts (delete i ts).

Definition lock_reachable : gmap nat Txn → Prop := rtc lock_step ∅.

Record locks_ok (ts : gmap nat Txn) : Prop := {
  lk_excl i j t t' k b b' : i ≠ j → ts !! i = Some t → ts !! j = Some t' → holds t k b → holds t' k b' → b && b' = true;
  lk_held i t : ts !! i = Some t → t_held t ≤ length (t_keys t);
  lk_ready i t : ts !! i = Some t → t_ready t = true → t_held t = length (t_keys t);
}.

Lemma holds_take_next t k b k' b' :
  waits_for t k b → holds (take_next t) k' b' → holds t k' b' ∨ (k' = k ∧ b' = b).
Proof.
  unfold waits_for, holds. simpl. change (t_keys (take_next t)) with (t_keys t). intros Hw.
  rewrite (take_S_r _ _ _ Hw). intros [?|H%list_elem_of_singleton]%elem_of_app; [by left|right; by simplify_eq].
Qed.

Lemma holds_key t k b : holds t k b → (k, b) ∈ t_keys t.
Proof. apply subseteq_take. Qed.

Lemma lock_step_ok ts ts' : locks_ok ts → lock_step ts ts' → locks_ok ts'.
Proof.
  intros [Hex Hlen Hr] Hs.
  (* a transaction that holds no more than before, or only a key that could be taken *)
  assert (Hput : ∀ i t1, (∀ k b, holds t1 k b → (∃ t, ts !! i = Some t ∧ holds t k b) ∨ can_take ts i k b) →
    t_held t1 ≤ length (t_keys t1) →
    (t_ready t1 = true → t_held t1 = length (t_keys t1)) → locks_ok (<[i := t1]> ts)).
  { intros i t1 Hh Hl1 Hr1. split.
    - assert (∀ j t' k b b', i ≠ j → ts !! j = Some t' → holds t1 k b → holds t' k b' → b && b' = true) as Hone.
      { intros j t' k b b' Hij Hj H1 H2. destruct (Hh k b H1) as [(t & Ht & Hk)|Hc]; [by eapply (Hex i j)|].
        by eapply (Hc j t'). }
      intros a c t t' k b b' Hac Ha Hc H1 H2.
      apply lookup_insert_Some in Ha as [[<- <-]|[Hia Ha]]; apply lookup_insert_Some in Hc as [[<- <-]|[Hic Hc]].
      + done.
      + by eapply (Hone c t').
      + rewrite andb_comm. by eapply (Hone a t).
      + by eapply (Hex a c).
    - intros j t [[<- <-]|[_ Hj]]%lookup_insert_Some; [done|by eapply Hlen].
    - intros j t [[<- <-]|[_ Hj]]%lookup_insert_Some; [done|by eapply Hr]. }
  destruct Hs as [i d paths Hi|i t k b Hi Hw Hc|i t d Hi Hfull Hk|i Hi].
  - apply Hput; [|simpl; lia|done]. intros k b H. by apply not_elem_of_nil in H.
  - apply Hput; [|by apply lookup_lt_Some in Hw|done]. intros k' b' H. destruct (holds_take_next t k b k' b' Hw H) as [?|[-> ->]]; [left; by exists t|by right].
  - apply Hput.
    + intros k b H. left. exists t. split; [done|]. unfold holds, t_keys in H. simpl in H. by rewrite Hk in H.
    + unfold t_keys. simpl. rewrite Hk. lia.
    + intros _. unfold t_keys. simpl. by rewrite Hk.
  - split.
    + intros a c t t' k b b' Hac [_ Ha]%lookup_delete_Some [_ Hc]%lookup_delete_Some. by eapply (Hex a c).
    + intros j t [_ Hj]%lookup_delete_Some. by eapply Hlen.
    + intros j t [_ Hj]%lookup_delete_Some. by eapply Hr.
Qed.

Lemma lock_reachable_ok ts : lock_reachable ts → locks_ok ts.
Proof.
  intros H. refine (rtc_ind_r locks_ok ∅ _ _ ts H); [by split|]. intros ts1 ts2 _ Hs Hok. by eapply lock_step_ok.
Qed.

(** C27. Two transactions that are both let through to their writes have nothing in common: no
    path, no file under two names, no directory that one replaces above a path of
    the other. *)
Theorem transactions_exclude_each_other ts i j t t' x x' :
  lock_reachable ts → i ≠ j → ts !! i = Some t → ts !! j = Some t' →
  t_ready t = true → t_ready t' = true → x ∈ t_paths t → x' ∈ t_paths t' →
  ¬ overlaps canonical_string (t_disk t) (t_disk t') x x'.
Proof.
  intros [Hex _ Hr]%lock_reachable_ok Hij Hi Hj Ht Ht' Hx Hx' Ho.
  destruct (overlap_conflict _ _ _ _ _ _ _ Hx Hx' Ho) as (k & b & b' & Hb & Hb' & Hf).
  enough (b && b' = true) by congruence. eapply (Hex i j t t' k); [done..| |]; unfold holds; rewrite firstn_all2; try done.
  - unfold t_keys. by rewrite (Hr i t Hi Ht).
  - unfold t_keys. by rewrite (Hr j t' Hj Ht').
Qed.

(** Who holds a key waits only for greater ones. *)
Lemma holds_lt_waits t k b k' b' : holds t k b → waits_for t k' b' → rlt k k'.
Proof.
  intros (n & Hn)%list_elem_of_lookup Hw. apply lookup_take_Some in Hn as [Hn Hlt].
  exact (btree_list_increasing _ n (t_held t) (k, b) (k', b') Hn Hw Hlt).
Qed.

Lemma greatest_wait (l : list (nat * string)) :
  l ≠ [] → ∃ x, x ∈ l ∧ ∀ y, y ∈ l → rle y.2 x.2.
Proof.
  induction l as [|x l IH]; [done|]. intros _. destruct (decide (l = [])) as [->|Hl].
  { exists x. split; [by left|]. intros y ->%list_elem_of_singleton. by apply rle_reflexive. }
  destruct (IH Hl) as (m & Hm & Hmax). destruct (decide (rle x.2 m.2)) as [Hle|Hle%not_rle].
  - exists m. split; [by right|]. intros y [->|Hy]%elem_of_cons; auto.
  - exists x. split; [by left|]. intros y [->|Hy]%elem_of_cons; [apply rle_reflexive|].
    transitivity m.2; [auto|by apply rlt_rle].
Qed.

(** A transaction whose keys nobody else holds in conflict gets them all. *)
Definition held (d : Disk) (paths : list (string * WriteIntent)) (n : nat) : Txn :=
  {| t_disk := d; t_paths := paths; t_held := n; t_ready := false |}.
Lemma undisturbed_transaction ts i d paths :
  ts !! i = None → (∀ k b, (k, b) ∈ lock_keys canonical_string d paths → can_take ts i k b) →
  let t := held d paths (length (lock_keys canonical_string d paths)) in
  rtc lock_step ts (<[i := t]> ts) ∧ rtc lock_step ts (<[i := confirm d t]> ts).
Proof.
  intros Hi Hfree t.
  assert (∀ n, n ≤ length (lock_keys canonical_string d paths) → rtc lock_step ts (<[i := held d paths n]> ts)) as H.
  { induction n as [|n IH]; intros Hn; [by apply rtc_once, LBegin|].
    eapply rtc_r; [apply IH; lia|].
    destruct (lookup_lt_is_Some_2 (lock_keys canonical_string d paths) n) as [[k b] Hk]; [lia|].
    replace (<[i := held d paths (S n)]> ts) with (<[i := take_next (held d paths n)]> (<[i := held d paths n]> ts))
      by apply insert_insert_eq.
    eapply LTake; [apply lookup_insert_eq|exact Hk|]. intros j t' b' Hj Ht'.
    rewrite lookup_insert_ne in Ht' by done. refine (Hfree k b _ j t' b' Hj Ht'). by eapply list_elem_of_lookup_2. }
  split; [by apply H|]. eapply rtc_r; [by apply H|].
  replace (<[i := confirm d t]> ts) with (<[i := confirm d t]> (<[i := t]> ts)) by apply insert_insert_eq.
  eapply LConfirm; [apply lookup_insert_eq|done|done].
Qed.

(** C28. Transactions never wait for each other in a circle: as long as one is there, one of them
    holds all its locks, or one waits for a key that nobody holds. *)
Theorem locking_never_deadlocks ts :
  lock_reachable ts → ts ≠ ∅ →
  (∃ i t, ts !! i = Some t ∧ t_held t = length (t_keys t)) ∨
  (∃ i t k b, ts !! i = Some t ∧ waits_for t k b ∧ ∀ j t' b', ts !! j = Some t' → ¬ holds t' k b').
Proof.
  intros [_ Hlen _]%lock_reachable_ok Hne.
  set (waiting := omap (λ p : nat * Txn, (λ x, (p.1, x.1)) <$> (t_keys p.2 !! t_held p.2)) (map_to_list ts)).
  assert (Hw : ∀ i t k b, ts !! i = Some t → waits_for t k b → (i, k) ∈ waiting).
  { intros i t k b Hi Hk. apply list_elem_of_omap. exists (i, t). split; [by apply elem_of_map_to_list|]. simpl. by rewrite Hk. }
  assert (Hfull : ∀ i t, ts !! i = Some t → (∃ k b, waits_for t k b) ∨ t_held t = length (t_keys t)).
  { intros i t Hi. destruct (t_keys t !! t_held t) as [[k b]|] eqn:E; [left; by exists k, b|right].
    apply lookup_ge_None in E. pose proof (Hlen i t Hi). lia. }
  destruct (decide (waiting = [])) as [Hnil|Hsome].
  { left. destruct (map_choose ts Hne) as (i & t & Hi). exists i, t. split; [done|].
    destruct (Hfull i t Hi) as [(k & b & Hk)|?]; [|done]. pose proof (Hw i t k b Hi Hk) as H. rewrite Hnil in H.
    by apply not_elem_of_nil in H. }
  destruct (greatest_wait waiting Hsome) as ([i k] & Hik & Hmax).
  apply list_elem_of_omap in Hik as ([i' t] & Hi & E). apply elem_of_map_to_list in Hi. simpl in E.
  destruct (t_keys t !! t_held t) as [[k' b]|] eqn:Ek; simpl in E; [|done]. injection E as -> ->.
  destruct (decide (map_Exists (λ _ t', k ∈ (take (t_held t') (t_keys t')).*1) ts)) as [(j & t' & Hj & Hh)|Hno].
  - left. exists j, t'. split; [done|]. destruct (Hfull j t' Hj) as [(k' & b' & Hk')|?]; [exfalso|done].
    apply list_elem_of_fmap in Hh as ([k2 b2] & -> & Hh). pose proof (holds_lt_waits t' k2 b2 k' b' Hh Hk') as Hlt.
    pose proof (Hmax _ (Hw j t' k' b' Hj Hk')) as Hle. simpl in Hle. by apply not_rle in Hlt.
  - right. exists i, t, k, b. split_and!; [done|done|]. intros j t' b' Hj Hh. apply Hno. exists j, t'. split; [done|].
    apply list_elem_of_fmap. by exists (k, b').
Qed.
End locking.
