(* ===== verification/EditExamples.v ===== *)
(** * Editing files: concrete runs

    The hypotheses of the theorems about patches, text edits and file activity met by concrete
    inputs, and the inputs on which the code does not do what it means to. *)

From stdpp Require Import gmap strings list pretty sorting relations.
From S2P Require Import Prelude RustStr Settings Patch PatchApply PatchParse TextEdit TextEditProps FileActivity FileActivityProps FileLocks.

Definition file (ls : list string) : text := concat ((λ l, lit l ++ [10%N]) <$> ls).
Definition chunk (ctx old new : list string) (eof : bool) : UpdateChunk := {|
  change_context := lit <$> ctx; old_lines := lit <$> old; new_lines := lit <$> new; is_end_of_file := eof |}.

(** ** Patches *)

Definition greet : text := file ["def a():"; "    hi  "; ""; "def b():"; "    hi"].
Definition greet_chunks : list UpdateChunk :=
  [chunk [] ["def a():"; "    hi"] ["def a():"; "    hello"] false;
   chunk ["def b():"] ["    hi"] ["    bye"] false;
   chunk [] [] ["# end"] true].
Definition greet_out : text := file ["def a():"; "    hello"; ""; "def b():"; "    bye"; "# end"].

Lemma patch_is_exact_witness :
  apply_update_chunks greet greet_chunks = Some (Ok greet_out) ∧
  ∃ ls, patched (lines greet) 0 0 greet_chunks ls ∧ greet_out = finish_text greet ls.
Proof.
  assert (apply_update_chunks greet greet_chunks = Some (Ok greet_out)) as H by (vm_compute; reflexivity).
  split; [exact H|]. apply (patch_is_exact greet greet_chunks greet_out); [|exact H].
  intros c _ _. vm_compute. reflexivity.
Defined.

Lemma patch_never_panics_witness : ∃ r, apply_update_chunks greet greet_chunks = Some r.
Proof.
  apply (patch_never_panics greet greet_chunks). intros [|[|[|i]]] c Hc; simpl in Hc; [by left| | |done];
    injection Hc as <-; simpl; done.
Defined.

Definition moved : ParsedPatch := {| operations := [
  Add (lit "src/new.rs") (file ["fn main() {"; ""; "}"]);
  Delete (lit "old.rs");
  Update (lit "a.py") (Some (lit "b.py")) greet_chunks] |}.
Lemma parse_print_patch_witness : parse_patch (print_patch moved) = Some (Ok moved).
Proof.
  apply (parse_print_patch moved). split; [done|].
  assert (∀ l, bool_decide (l ≠ []) && bool_decide (trim l = l) && bool_decide (10%N ∉ l) = true → trimmed l) as Ht.
  { intros l [[H1%bool_decide_eq_true H2%bool_decide_eq_true]%andb_true_iff H3%bool_decide_eq_true]%andb_true_iff. by split. }
  assert (∀ ls, forallb (λ l, bool_decide (10%N ∉ l)) ls = true → Forall clean ls) as Hc.
  { intros ls H. apply Forall_forall. intros l Hl. by apply (proj1 (forallb_elem _ _) H), bool_decide_eq_true in Hl. }
  constructor; [split; [by apply Ht|by right]|]. constructor; [by apply Ht|]. constructor; [|constructor].
  split_and!; [by apply Ht|by intros p [= <-]; apply Ht|done|].
  assert (∀ ctx old new eof, forallb (λ l, bool_decide (l ≠ []) && bool_decide (trim l = l) && bool_decide (10%N ∉ l)) (lit <$> ctx) = true →
    forallb (λ l, bool_decide (10%N ∉ l)) (lit <$> old) = true → forallb (λ l, bool_decide (10%N ∉ l)) (lit <$> new) = true →
    wf_chunk (chunk ctx old new eof)) as Hk.
  { intros ctx old new eof H1 H2 H3. split; [|by apply Hc..]. apply Forall_forall. intros l Hl.
    by apply Ht, (proj1 (forallb_elem _ _) H1). }
  cbn [wf_chunks greet_chunks]. split_and!; try (by apply Hk; vm_compute); unfold has_body; auto.
Defined.

(** An insertion moves the line index by the lines it adds, which are not lines of the file: the next
    chunk looks too far down. *)
Lemma insertions_can_panic :
  apply_update_chunks (file ["a"]) [chunk [] [] ["x"; "y"; "z"] false; chunk [] [] ["w"] false] = None.
Proof. vm_compute. reflexivity. Qed.
Lemma insertion_hides_next_line :
  apply_update_chunks (file ["a"; "b"]) [chunk [] [] ["x"] false; chunk [] ["a"] ["A"] false]
  = Some (Err (lit "Failed to find expected lines in file:" ++ [10%N] ++ lit "a")).
Proof. vm_compute. reflexivity. Qed.
(** The end of the file is before its last line when that is empty, even if a chunk replaced it. *)
Lemma eof_insertion_overwrites :
  apply_update_chunks (file ["a"; ""]) [chunk [] ["a"; ""] ["A"; ""] false; chunk [] [] ["x"] true]
  = Some (Ok (file ["A"; ""; ""])).
Proof. vm_compute. reflexivity. Qed.
(** A context is trimmed at both ends, the lines of the file only at the right. *)
Lemma indented_context_not_found :
  ∃ e, apply_update_chunks (file ["class C:"; "    def m():"; "        a"])
    [chunk ["def m():"] ["        a"] ["        b"] false] = Some (Err e).
Proof. eexists. vm_compute. reflexivity. Qed.
(** The first line of a hunk without [@@] cannot be a context line. *)
Lemma space_does_not_start_hunk :
  ∃ m n, parse_patch (file ["*** Begin Patch"; "*** Update File: a"; " x"; "-y"; "*** End Patch"])
    = Some (Err (InvalidHunk m n)).
Proof. eexists _, _. vm_compute. reflexivity. Qed.

(** ** Texts *)

Lemma line_ranges_are_disjoint_witness :
  parse_line_ranges (lit "7:9, 2, 4:5") 20 = Ok [ {| lr_start := 7; lr_end := 9 |};
    {| lr_start := 2; lr_end := 2 |}; {| lr_start := 4; lr_end := 5 |}] ∧
  apart {| lr_start := 7; lr_end := 9 |} {| lr_start := 4; lr_end := 5 |}.
Proof.
  assert (parse_line_ranges (lit "7:9, 2, 4:5") 20 = Ok [ {| lr_start := 7; lr_end := 9 |};
    {| lr_start := 2; lr_end := 2 |}; {| lr_start := 4; lr_end := 5 |}]) as H by (vm_compute; reflexivity).
  split; [exact H|]. exact (proj2 (proj2 (line_ranges_are_disjoint _ _ _ H)) 0 2 _ _ ltac:(done) eq_refl eq_refl).
Defined.

(** A match in the middle of a line is reported as one of the next line. *)
Lemma matches_are_one_line_late :
  find_match_lines (lit "ab") (lit "b") = [2] ∧ find_match_lines (lit "ab") (lit "a") = [1].
Proof. split; vm_compute; reflexivity. Qed.

(** ** File activity *)

Definition digest (t : text) : string := String.concat "," (pretty <$> t).
Definition real (d : Disk) (path : string) : string := path.
Definition disk_with (content : string) : Disk := {|
  file_at := {["/w/a.txt" := (1%N, 7%N)]}; content_of := {[(1%N, 7%N) := lit content]}; dirs := {["/w"; "/"]} |}.
Definition env (content : string) (now : N) : Env := {|
  disk := disk_with content; config := default_settings; clock := now |}.
Definition reading (actor path content : string) : Op := OpRead (Some actor) path (lit content) 1 1 1 None.
Definition session : list (Env * Op) := [(env "one" 1, reading "c1" "/w/a.txt" "one"); (env "two" 2, reading "c2" "/w/a.txt" "two")].

Lemma replacement_was_read_witness : ∃ r log r' g,
  run digest real session = (r, log) ∧
  validate_write digest real (disk_with "two") default_settings (Some "c2") "/w/a.txt" (WOverwrite false) "t" r = (r', Ok g) ∧
  ∃ o, o ∈ log ∧ read_key o = ("c2", g_key g) ∧ ro_whole o = true ∧ ro_digest o = digest (lit "two").
Proof.
  destruct (run digest real session) as [r log] eqn:Hr.
  destruct (validate_write digest real (disk_with "two") default_settings (Some "c2") "/w/a.txt" (WOverwrite false) "t" r)
    as [r' [g|e]] eqn:Hv.
  - exists r, log, r', g. split_and!; [done|done|].
    exact (proj1 (replacement_was_read digest real session (disk_with "two") default_settings "c2" "/w/a.txt" "t" r log r' g
      (lit "two") Hr ltac:(done) eq_refl eq_refl Hv)).
  - exfalso. vm_compute in Hr. injection Hr as <- <-. vm_compute in Hv. discriminate Hv.
Defined.
(** The first chat would write over what it has not seen. *)
Example overwrite_of_stale_file :
  match (validate_write digest real (disk_with "two") default_settings (Some "c1") "/w/a.txt" WContextual "t"
           (run digest real session).1).2 with
  | Err (Stale path st key actor) => Some (path, as_digest st, key, actor)
  | _ => None
  end = Some ("/w/a.txt", digest (lit "one"), "/w/a.txt", Some "c1").
Proof. vm_compute. reflexivity. Qed.

Definition deletion : Registry * result WriteGuard Refusal :=
  validate_write digest real (disk_with "two") default_settings (Some "c2") "/w/a.txt" WDelete "t" (run digest real session).1.
Lemma contextual_write_is_current_witness : ∃ r' g,
  deletion = (r', Ok g) ∧
  ∃ o, last_read (run digest real session).2 ("c2", g_key g) = Some o ∧ ro_digest o = digest (lit "two").
Proof.
  assert (existsb (λ o, bool_decide (read_key o = ("c2", match deletion.2 with Ok g => g_key g | Err _ => "" end)))
    (reads (run digest real session).1) = true) as Hin by (vm_compute; reflexivity).
  assert (match deletion.2 with Ok _ => true | Err _ => false end = true) as Hok by (vm_compute; reflexivity).
  assert (run digest real session = ((run digest real session).1, (run digest real session).2)) as Hr by apply surjective_pairing.
  destruct deletion as [r' [g|e]] eqn:Hv; [|discriminate Hok]. exists r', g. split; [done|].
  apply existsb_elem in Hin as (o & Ho & Hk%bool_decide_eq_true).
  assert (file_text (disk_with "two") "/w/a.txt" = Some (lit "two")) as Hf by (vm_compute; reflexivity).
  assert (WDelete ∈ [WContextual; WDelete; WRename]) as Hi by (right; left).
  unfold deletion in Hv. simpl in Hk. assert ("c2" ≠ "") as Ha by done.
  exact (contextual_write_is_current digest real session (disk_with "two") default_settings "c2" "/w/a.txt" WDelete "t" _ _ r' g
    (lit "two") Hr Ha eq_refl Hf Hi Hv (ex_intro _ o (conj Ho Hk))).
Defined.

Lemma activity_is_bounded_witness :
  Forall (within 16384 65536) session ∧ length (reads (run digest real session).1) ≤ N.to_nat (N.max 16384 1).
Proof.
  assert (Forall (within 16384 65536) session) as H.
  { apply Forall_cons; split; [split; vm_compute; discriminate|]. apply Forall_singleton. split; vm_compute; discriminate. }
  split; [exact H|]. exact (proj1 (activity_is_bounded digest real 16384 65536 session H)).
Defined.

(** ** Locks *)

Definition path_a : string * WriteIntent := ("/w/a.txt", WContextual).
Definition tree_w : string * WriteIntent := ("/w", WTree).
Definition one : Disk := disk_with "one".
Example keys_of_file_and_tree :
  lock_keys real one [path_a] = [("directory:/", true); ("directory:/w", true); ("id:1:7", false); ("path:/w/a.txt", false)] ∧
  lock_keys real one [tree_w] = [("directory:/", true); ("directory:/w", false); ("path:/w", false)].
Proof. split; vm_compute; reflexivity. Qed.
#[local] Opaque lock_keys.
Definition path_b : string * WriteIntent := ("/w/b.txt", WCreate).
Definition locked (x : string * WriteIntent) : Txn := held one [x] (length (lock_keys real one [x])).
Definition two_transactions : gmap nat Txn := <[1 := confirm one (locked path_b)]> (<[0 := confirm one (locked path_a)]> ∅).
Lemma two_reachable : lock_reachable real two_transactions.
Proof.
  assert (lock_keys real one [path_b] = [("directory:/", true); ("directory:/w", true); ("path:/w/b.txt", false)]) as Hb
    by (vm_compute; reflexivity).
  destruct keys_of_file_and_tree as [Ha _]. unfold lock_reachable, two_transactions.
  etrans; [eapply (undisturbed_transaction real ∅ 0 one [path_a]); [done|]|
           eapply (undisturbed_transaction real _ 1 one [path_b]); [by rewrite lookup_insert_ne|]].
  - intros k b _ j t b' _ Ht. by rewrite lookup_empty in Ht.
  - rewrite Hb. intros k b Hk j t b' Hj Ht Hh. apply lookup_insert_Some in Ht as [[_ <-]|[_ Ht]]; [|by rewrite lookup_empty in Ht].
    apply holds_key in Hh. change (t_keys real _) with (lock_keys real one [path_a]) in Hh.
    rewrite Ha in Hh. rewrite !elem_of_cons in Hk. rewrite !elem_of_cons in Hh.
    clear -Hk Hh. destruct Hk as [?|[?|[?|[]%not_elem_of_nil]]], Hh as [?|[?|[?|[?|[]%not_elem_of_nil]]]]; by simplify_eq.
Qed.

Lemma locking_never_deadlocks_witness :
  (∃ i t, two_transactions !! i = Some t ∧ t_held t = length (t_keys real t)) ∨
  (∃ i t k b, two_transactions !! i = Some t ∧ waits_for real t k b
     ∧ ∀ j t' b', two_transactions !! j = Some t' → ¬ holds real t' k b').
Proof. apply (locking_never_deadlocks real two_transactions); [exact two_reachable|]. apply insert_non_empty. Defined.

Lemma transactions_exclude_each_other_witness :
  ¬ overlaps real one one path_a path_b.
Proof.
  assert (two_transactions !! 0 = Some (confirm one (locked path_a))) as H0
    by (unfold two_transactions; by rewrite lookup_insert_ne, lookup_insert_eq).
  assert (two_transactions !! 1 = Some (confirm one (locked path_b))) as H1 by apply lookup_insert_eq.
  exact (transactions_exclude_each_other real two_transactions 0 1 _ _ path_a path_b two_reachable ltac:(lia) H0 H1
    eq_refl eq_refl ltac:(by left) ltac:(by left)).
Defined.
