(* ===== verification/History.v ===== *)
(** * Chat history on the wire

    [refact-chat-history/src/history_limit.rs]: the repairs made to a conversation before
    it is sent.  Calls without results and results without calls are removed, results
    are moved behind their calls, and what comes out is checked.  The parser of JSON
    arguments is a parameter; the fields of a message that are not looked at are
    one field. *)

From stdpp Require Import gmap strings list pretty.
From S2P Require Import Prelude RustStr.

(** ** Data *)

Inductive ContextPressure := PLow | PMedium | PHigh | PCritical.

Record ChatToolCall := { tc_id : string; tc_name : text; tc_arguments : text }.

Inductive ChatContent (R : Type) := SimpleText (t : text) | OtherContent (r : R).
Arguments SimpleText {R} t.
Arguments OtherContent {R} r.

Record ChatMessage (R : Type) := {
  role : string;
  content : ChatContent R;
  finish_reason : option string;
  tool_calls : option (list ChatToolCall);
  tool_call_id : string;
  other_fields : R;
}.
Arguments role {R} _.
Arguments content {R} _.
Arguments finish_reason {R} _.
Arguments tool_calls {R} _.
Arguments tool_call_id {R} _.
Arguments other_fields {R} _.

(** [iter().position] and [iter().rposition]. *)
Definition position_of {A} (f : A → bool) (l : list A) : option nat := fst <$> list_find (λ x, f x = true) l.
Definition rposition_of {A} (f : A → bool) (l : list A) : option nat :=
  (λ k, length l - 1 - k) <$> position_of f (reverse l).

(** ** Context pressure *)

Definition pressure_for_used_tokens (used_tokens effective_n_ctx : N) : ContextPressure :=
  if (effective_n_ctx =? 0)%N then PLow
  else
    let pct_used := ((used_tokens *sat 100) / effective_n_ctx)%N in
    if (pct_used <? 70)%N then PLow
    else if (pct_used <? 85)%N then PMedium
    else if (pct_used <? 95)%N then PHigh
    else PCritical.

Section history.
Context {R : Type}.
Implicit Types (m : ChatMessage R) (messages : list (ChatMessage R)).

(** ** Calls and results *)

Definition is_result m : bool :=
  bool_decide (role m = "tool") || bool_decide (role m = "diff") || bool_decide (role m = "context_file").
Definition is_tool_or_diff m : bool := bool_decide (role m = "tool") || bool_decide (role m = "diff").
Definition has_call_id m : bool := negb (bool_decide (tool_call_id m = "")).

Definition answered_ids messages : gset string :=
  list_to_set (tool_call_id <$> filter (λ m, is_result m && has_call_id m = true) messages).
Definition called_ids messages : gset string :=
  list_to_set (tc_id <$> mjoin (omap tool_calls messages)).

Definition calls_answered (ids : gset string) m : bool :=
  match tool_calls m with
  | Some calls => forallb (λ tc, bool_decide (tc_id tc ∈ ids)) calls
  | None => true
  end.
Definition call_exists (ids : gset string) m : bool :=
  negb (is_result m && has_call_id m && negb (bool_decide (tool_call_id m ∈ ids))).

(** The place of the last tool or diff result of each call. *)
Definition last_occurrence messages : gmap string nat :=
  foldl (λ acc p, if is_tool_or_diff p.2 && has_call_id p.2 then <[tool_call_id p.2 := p.1]> acc else acc)
    ∅ (imap pair messages).
Definition is_last_result (indices_to_keep : gset nat) (p : nat * ChatMessage R) : bool :=
  if negb (has_call_id p.2) || negb (is_tool_or_diff p.2) then true
  else bool_decide (p.1 ∈ indices_to_keep).

Definition remove_invalid_tool_calls_and_tool_calls_results messages : list (ChatMessage R) :=
  let tool_call_ids := answered_ids messages in
  let messages := filter (λ m, calls_answered tool_call_ids m = true) messages in
  let tool_call_ids := called_ids messages in
  let messages := filter (λ m, call_exists tool_call_ids m = true) messages in
  let indices_to_keep : gset nat := map_img (last_occurrence messages) in
  (filter (λ p, is_last_result indices_to_keep p = true) (imap pair messages)).*2.

(** ** Results behind their calls *)

Definition declares_call m (call_id : string) : bool :=
  bool_decide (role m = "assistant")
  && match tool_calls m with
     | Some calls => existsb (λ call, bool_decide (tc_id call = call_id)) calls
     | None => false
     end.

(** The nearest message before that declares the call, or else the nearest after. *)
Definition owner_for messages (idx : nat) (call_id : string) : option nat :=
  match rposition_of (λ m, declares_call m call_id) (take idx messages) with
  | Some owner => Some owner
  | None => (λ offset, idx + 1 + offset) <$> position_of (λ m, declares_call m call_id) (drop (idx + 1) messages)
  end.
Definition owners_of messages : list (option nat) :=
  imap (λ idx m, if is_result m && has_call_id m then owner_for messages idx (tool_call_id m) else None) messages.

Definition push_owned (acc : gmap nat (list (ChatMessage R)) * list (nat * ChatMessage R))
    (p : nat * (option nat * ChatMessage R)) : gmap nat (list (ChatMessage R)) * list (nat * ChatMessage R) :=
  let '(results_by_owner, kept) := acc in
  match p.2.1 with
  | Some owner_idx =>
      (<[owner_idx := default [] (results_by_owner !! owner_idx) ++ [p.2.2]]> results_by_owner, kept)
  | None => (results_by_owner, kept ++ [(p.1, p.2.2)])
  end.
Fixpoint emit_kept (results_by_owner : gmap nat (list (ChatMessage R))) (kept : list (nat * ChatMessage R))
  : list (ChatMessage R) :=
  match kept with
  | [] => []
  | (original_idx, message) :: kept =>
      message :: default [] (results_by_owner !! original_idx)
      ++ emit_kept (delete original_idx results_by_owner) kept
  end.

Definition has_any_calls messages : bool :=
  existsb (λ m, match tool_calls m with Some (_ :: _) => true | _ => false end) messages.

Definition relocate_tool_results_after_their_calls messages : list (ChatMessage R) :=
  if negb (has_any_calls messages) then messages
  else
    let owners := owners_of messages in
    if forallb (λ owner, bool_decide (owner = None)) owners then messages
    else
      let '(results_by_owner, kept) := foldl push_owned (∅, []) (imap pair (zip owners messages)) in
      emit_kept results_by_owner kept.

(** ** Broken calls *)

(** [serde_json::from_str] of an object: the error, if any, as it is displayed. *)
Context (json_error : text → option text).

(** [parse_args]: what does not begin as an object is taken for the empty one. *)
Definition parse_args (arguments : text) : option text :=
  let trimmed := trim arguments in
  json_error (if starts_with (lit "{") trimmed then trimmed else lit "{}").

Definition first_n_chars (msg : text) (n : nat) : text :=
  let result := take n msg in
  let result := if bool_decide (length result = n) then result ++ lit "..." else result in
  replace [10%N] (lit "\n") result.

Definition broken_reason (tc : ChatToolCall) : option text :=
  (λ err, lit "broken " ++ tc_name tc ++ lit "(" ++ first_n_chars (tc_arguments tc) 100 ++ lit "): " ++ err)
    <$> json_error (tc_arguments tc).

Definition decimal_text (n : N) : text := lit (pretty n).

(** The advice for a message cut off by the token limit, and the limit from now on. *)
Definition stripped_advice (has_high_budget_tools : bool) (max_new_tokens new_max_new_tokens : N) : text * N :=
  let '(tokens_msg, max_new_tokens) :=
    if (max_new_tokens <? new_max_new_tokens)%N then
      (lit "The message was stripped (finish_reason=`length`), the tokens budget was too small for the tool calls. Increasing `max_new_tokens` to "
       ++ decimal_text new_max_new_tokens ++ lit ".", new_max_new_tokens)
    else
      (lit "The message was stripped (finish_reason=`length`), the tokens budget cannot fit those tool calls.", max_new_tokens) in
  (if has_high_budget_tools
   then tokens_msg ++ lit " Try to make changes one by one (ie using `patch()`)."
   else tokens_msg ++ lit " Change your strategy.", max_new_tokens).

Fixpoint join_text (sep : text) (l : list text) : text :=
  match l with
  | [] => []
  | [x] => x
  | x :: l => x ++ sep ++ join_text sep l
  end.

Definition replace_broken_message (last_index_assistant i : nat) (max_new_tokens new_max_new_tokens : N) m
  : ChatMessage R * N :=
  match tool_calls m with
  | None => (m, max_new_tokens)
  | Some calls =>
      let incorrect_reasons := omap broken_reason calls in
      let has_high_budget_tools := existsb (λ tc, bool_decide (tc_name tc = lit "write")) calls in
      if bool_decide (incorrect_reasons = []) then (m, max_new_tokens)
      else
        let '(extra_message, max_new_tokens) :=
          if bool_decide (i = last_index_assistant) && bool_decide (finish_reason m = Some "length")
          then stripped_advice has_high_budget_tools max_new_tokens new_max_new_tokens
          else ([], max_new_tokens) in
        ({| role := "cd_instruction";
            content := SimpleText (lit " Previous tool calls are not valid: " ++ join_text [10%N] incorrect_reasons
                                   ++ lit "." ++ [10%N] ++ extra_message);
            finish_reason := finish_reason m; tool_calls := None; tool_call_id := tool_call_id m;
            other_fields := other_fields m |}, max_new_tokens)
  end.
Fixpoint replace_broken_from (last_index_assistant i : nat) (max_new_tokens new_max_new_tokens : N) messages
  : list (ChatMessage R) * N :=
  match messages with
  | [] => ([], max_new_tokens)
  | m :: messages =>
      let '(m, max_new_tokens) := replace_broken_message last_index_assistant i max_new_tokens new_max_new_tokens m in
      let '(messages, max_new_tokens) :=
        replace_broken_from last_index_assistant (S i) max_new_tokens new_max_new_tokens messages in
      (m :: messages, max_new_tokens)
  end.
Definition replace_broken_tool_call_messages messages (max_new_tokens new_max_new_tokens : N)
  : list (ChatMessage R) * N :=
  let last_index_assistant := default 0 (rposition_of (λ m, bool_decide (role m = "assistant")) messages) in
  replace_broken_from last_index_assistant 0 max_new_tokens new_max_new_tokens messages.

(** ** Validation *)

Inductive HistoryError :=
  | NoMessages
  | NoPromptAnchor
  | BadFirstRole (first : string)
  | BadArguments (msg_idx : nat) (name error arguments : text)
  | Unresponded (idx : nat) (id : string).

Definition is_prompt_anchor m : bool :=
  bool_decide (role m ∈ ["system"; "user"; "event"; "plan"; "goal"]).
Definition ends_turn m : bool := bool_decide (role m ∈ ["user"; "assistant"; "system"]).

(** The first call whose arguments cannot be read. *)
Fixpoint first_bad_arguments (i : nat) messages : option HistoryError :=
  match messages with
  | [] => None
  | m :: messages =>
      match list_find (λ tc, is_Some (parse_args (tc_arguments tc))) (default [] (tool_calls m)) with
      | Some (_, tc) =>
          Some (BadArguments i (tc_name tc) (default [] (parse_args (tc_arguments tc))) (tc_arguments tc))
      | None => first_bad_arguments (S i) messages
      end
  end.

(** Whether a call is answered before the next turn. *)
Fixpoint found_result (id : string) (later : list (ChatMessage R)) : bool :=
  match later with
  | [] => false
  | m :: later =>
      if is_result m && bool_decide (tool_call_id m = id) then true
      else if ends_turn m then false
      else found_result id later
  end.
Fixpoint first_unresponded (i : nat) messages : option HistoryError :=
  match messages with
  | [] => None
  | m :: later =>
      match (if bool_decide (role m = "assistant")
             then list_find (λ tc, found_result (tc_id tc) later = false) (default [] (tool_calls m)) else None) with
      | Some (_, tc) => Some (Unresponded i (tc_id tc))
      | None => first_unresponded (S i) later
      end
  end.

Definition validate_chat_history_slice messages : result unit HistoryError :=
  match messages with
  | [] => Err NoMessages
  | first :: _ =>
      if negb (existsb is_prompt_anchor messages) then Err NoPromptAnchor
      else if negb (is_prompt_anchor first) then Err (BadFirstRole (role first))
      else match first_bad_arguments 0 messages with
           | Some e => Err e
           | None =>
               match first_unresponded 0 messages with
               | Some e => Err e
               | None => Ok ()
               end
           end
  end.
Definition validate_chat_history messages : result (list (ChatMessage R)) HistoryError :=
  let? _ := validate_chat_history_slice messages in Ok messages.

Definition fix_and_limit_messages_history messages (max_new_tokens : N)
  : result (list (ChatMessage R)) HistoryError * N :=
  let '(messages, max_new_tokens) := replace_broken_tool_call_messages messages max_new_tokens 16000 in
  let messages := remove_invalid_tool_calls_and_tool_calls_results messages in
  let messages := relocate_tool_results_after_their_calls messages in
  (validate_chat_history messages, max_new_tokens).
End history.
