(* ===== verification/HistoryProps.v ===== *)
(** * Properties of the history repairs

    What is left after the first repair is paired: calls have results, results have calls,
    and no call has two tool results.  Moving results keeps every message and puts each
    result behind its call, so that the repaired history passes validation, which decides
    whether a history can be sent ([sendable]). *)

From stdpp Require Import gmap strings list sets.
From S2P Require Import Prelude RustStr History.


Section history.
Context {R : Type}.
Implicit Types (m r : ChatMessage R) (ms : list (ChatMessage R)).

(** ** Pairing *)

Definition single m : bool := is_tool_or_diff m && has_call_id m.
Record paired ms : Prop := {
  pair_calls m calls tc : m ∈ ms → tool_calls m = Some calls → tc ∈ calls →
    ∃ r, r ∈ ms ∧ is_result r = true ∧ tool_call_id r = tc_id tc ∧ tc_id tc ≠ "";
  pair_results r : r ∈ ms → is_result r = true → tool_call_id r ≠ "" →
    ∃ m calls tc, m ∈ ms ∧ tool_calls m = Some calls ∧ tc ∈ calls ∧ tc_id tc = tool_call_id r;
  pair_single : NoDup (tool_call_id <$> filter (λ m, single m = true) ms);
}.

#[export] Instance paired_perm : Proper ((≡ₚ) ==> impl) paired.
Proof.
  intros l1 l2 Hp [H1 H2 H3]. split.
  - intros m calls tc Hm Hc Ht. rewrite <- Hp in Hm. destruct (H1 m calls tc Hm Hc Ht) as (r & Hr & ?).
    exists r. by rewrite <- Hp.
  - intros r Hr Hi Hn. rewrite <- Hp in Hr. destruct (H2 r Hr Hi Hn) as (m & calls & tc & Hm & ?).
    exists m, calls, tc. by rewrite <- Hp.
  - by rewrite <- Hp.
Qed.

Lemma has_call_id_true m : has_call_id m = true ↔ tool_call_id m ≠ "".
Proof. unfold has_call_id. rewrite negb_true_iff. apply bool_decide_eq_false. Qed.

Lemma elem_of_answered_ids id ms :
  id ∈ answered_ids ms ↔ ∃ r, r ∈ ms ∧ is_result r = true ∧ tool_call_id r = id ∧ id ≠ "".
Proof.
  unfold answered_ids. rewrite elem_of_list_to_set, list_elem_of_fmap. setoid_rewrite list_elem_of_filter.
  setoid_rewrite andb_true_iff. setoid_rewrite has_call_id_true. split.
  - intros (r & -> & [Hr Hn] & Hin). by exists r.
  - intros (r & Hin & Hr & <- & Hn). by exists r.
Qed.

Lemma elem_of_called_ids id ms :
  id ∈ called_ids ms ↔ ∃ m calls tc, m ∈ ms ∧ tool_calls m = Some calls ∧ tc ∈ calls ∧ tc_id tc = id.
Proof.
  unfold called_ids. rewrite elem_of_list_to_set, list_elem_of_fmap. setoid_rewrite list_elem_of_join.
  setoid_rewrite list_elem_of_omap. split.
  - intros (tc & -> & calls & Hin & m & Hm & Hc). by exists m, calls, tc.
  - intros (m & calls & tc & Hm & Hc & Hin & <-). exists tc. split; [done|]. exists calls. split; [done|]. by exists m.
Qed.

Lemma calls_answered_true ids m :
  calls_answered ids m = true ↔ ∀ calls tc, tool_calls m = Some calls → tc ∈ calls → tc_id tc ∈ ids.
Proof.
  unfold calls_answered. destruct (tool_calls m) as [calls|]; [|by split].
  rewrite forallb_elem. setoid_rewrite bool_decide_eq_true. split; [by intros H ? ? [= <-]; auto|eauto].
Qed.

Lemma call_exists_true ids m :
  call_exists ids m = true ↔ (is_result m = true → tool_call_id m ≠ "" → tool_call_id m ∈ ids).
Proof.
  unfold call_exists. rewrite negb_true_iff, !andb_false_iff, negb_false_iff, bool_decide_eq_true.
  rewrite <- has_call_id_true. destruct (is_result m), (has_call_id m); intuition congruence.
Qed.

Lemma single_is_result m : single m = true → is_result m = true ∧ tool_call_id m ≠ "".
Proof.
  unfold single, is_tool_or_diff, is_result. intros [H1 H2]%andb_true_iff. rewrite H1. by rewrite <- has_call_id_true.
Qed.

(** ** The last result of a call *)

Lemma last_occurrence_snoc ms m :
  last_occurrence (ms ++ [m])
  = if single m then <[tool_call_id m := length ms]> (last_occurrence ms) else last_occurrence ms.
Proof. unfold last_occurrence. rewrite imap_app, foldl_app. simpl. by rewrite Nat.add_0_r. Qed.

Lemma last_occurrence_Some ms id i :
  last_occurrence ms !! id = Some i → ∃ m, ms !! i = Some m ∧ single m = true ∧ tool_call_id m = id.
Proof.
  induction ms as [|m ms IH] using rev_ind; [done|]. rewrite last_occurrence_snoc. destruct (single m) eqn:Hs.
  - intros [[<- <-]|[_ H]]%lookup_insert_Some.
    + exists m. by rewrite lookup_app_r, Nat.sub_diag by lia.
    + destruct (IH H) as (m' & Hm & ?). exists m'. split; [by apply lookup_app_l_Some|done].
  - intros H. destruct (IH H) as (m' & Hm & ?). exists m'. split; [by apply lookup_app_l_Some|done].
Qed.

Lemma last_occurrence_is_Some ms m : m ∈ ms → single m = true → is_Some (last_occurrence ms !! tool_call_id m).
Proof.
  induction ms as [|m' ms IH] using rev_ind; [by intros ?%not_elem_of_nil|]. rewrite last_occurrence_snoc.
  intros Hin Hs. apply elem_of_app in Hin as [Hin| ->%list_elem_of_singleton].
  - destruct (single m'); [|by apply IH]. destruct (decide (tool_call_id m' = tool_call_id m)) as [->|Hne].
    + by rewrite lookup_insert_eq.
    + rewrite lookup_insert_ne by done. by apply IH.
  - rewrite Hs. by rewrite lookup_insert_eq.
Qed.

Lemma is_last_result_true ms i m :
  ms !! i = Some m →
  is_last_result (map_img (last_occurrence ms)) (i, m) = true
  ↔ (single m = true → last_occurrence ms !! tool_call_id m = Some i).
Proof.
  intros Hi. unfold is_last_result, single. simpl.
  destruct (has_call_id m) eqn:H1; simpl; [|by rewrite andb_false_r; split].
  destruct (is_tool_or_diff m) eqn:H2; simpl; [|by split]. rewrite bool_decide_eq_true, elem_of_map_img. split.
  - intros (id & Hid) _. destruct (last_occurrence_Some _ _ _ Hid) as (m' & Hm' & _ & <-). by simplify_eq.
  - intros H. exists (tool_call_id m). by apply H.
Qed.

(** The messages left by the last of the three passes. *)
Definition keep_last ms : list (ChatMessage R) :=
  (filter (λ p, is_last_result (map_img (last_occurrence ms)) p = true) (imap pair ms)).*2.

Lemma elem_of_imap_pair {A} (l : list A) i x : (i, x) ∈ imap pair l ↔ l !! i = Some x.
Proof.
  rewrite elem_of_lookup_imap. split; [by intros (j & y & [= -> ->] & H)|]. intros H. by exists i, x.
Qed.

Lemma elem_of_keep_last ms m :
  m ∈ keep_last ms ↔ ∃ i, ms !! i = Some m ∧ (single m = true → last_occurrence ms !! tool_call_id m = Some i).
Proof.
  unfold keep_last. rewrite list_elem_of_fmap. split.
  - intros ([i m'] & -> & [Hl Hin%elem_of_imap_pair]%list_elem_of_filter). exists i.
    split; [done|]. by apply (is_last_result_true ms i m' Hin).
  - intros (i & Hi & H). exists (i, m). split; [done|]. apply list_elem_of_filter.
    split; [by apply is_last_result_true|by apply elem_of_imap_pair].
Qed.

Lemma imap_pair_snd {A} (l : list A) : (imap pair l).*2 = l.
Proof.
  induction l as [|x l IH] using rev_ind; [done|]. rewrite imap_app, fmap_app. simpl. by rewrite IH.
Qed.
Lemma NoDup_imap_pair {A} (l : list A) : NoDup (imap pair l).
Proof.
  induction l as [|x l IH] using rev_ind; [constructor|]. rewrite imap_app. apply NoDup_app. split_and!; [done| |apply NoDup_singleton].
  intros [i y] H%elem_of_imap_pair [= -> ->]%list_elem_of_singleton. apply lookup_lt_Some in H. lia.
Qed.

Lemma keep_last_sublist ms : keep_last ms `sublist_of` ms.
Proof. unfold keep_last. rewrite <- (imap_pair_snd ms) at 2. apply fmap_sublist, sublist_filter. Qed.

Lemma keep_last_single ms : NoDup (tool_call_id <$> filter (λ m, single m = true) (keep_last ms)).
Proof.
  unfold keep_last. set (L := filter _ (imap pair ms)).
  assert (filter (λ m, single m = true) L.*2 = (filter (λ p, single p.2 = true) L).*2) as ->.
  { clear. induction L as [|[i m] L IH]; [done|]. rewrite fmap_cons, !filter_cons. simpl. case_decide; csimpl; by rewrite IH. }
  rewrite <- list_fmap_compose. apply NoDup_fmap_2_strong.
  - intros [i m] [j m'] [Hm Hi]%list_elem_of_filter [Hm' Hj]%list_elem_of_filter Heq. simpl in *.
    unfold L in Hi, Hj. apply list_elem_of_filter in Hi as [Hi Hi'%elem_of_imap_pair], Hj as [Hj Hj'%elem_of_imap_pair].
    pose proof (proj1 (is_last_result_true ms i m Hi') Hi Hm) as E1.
    pose proof (proj1 (is_last_result_true ms j m' Hj') Hj Hm') as E2. rewrite Heq in E1. by simplify_eq.
  - apply NoDup_filter. unfold L. apply NoDup_filter, NoDup_imap_pair.
Qed.

Lemma keep_last_id ms : NoDup (tool_call_id <$> filter (λ m, single m = true) ms) → keep_last ms = ms.
Proof.
  intros Hnd. unfold keep_last. transitivity (imap pair ms).*2; [|apply imap_pair_snd]. f_equal. apply filter_every.
  intros [i m] Hi%elem_of_imap_pair. apply is_last_result_true; [done|]. intros Hs.
  destruct (last_occurrence_is_Some ms m) as [j Hj]; [by eapply list_elem_of_lookup_2|done|]. rewrite Hj. f_equal.
  destruct (last_occurrence_Some _ _ _ Hj) as (m' & Hm' & Hs' & Heq). clear Hj.
  revert i j Hi Hm' Hnd. induction ms as [|x ms IH]; intros i j Hi Hm' Hnd; [done|]. rewrite filter_cons in Hnd.
  assert (∀ k y, ms !! k = Some y → single y = true → tool_call_id y ∈ tool_call_id <$> filter (λ m, single m = true) ms) as Hin.
  { intros k y Hk Hy. apply list_elem_of_fmap. exists y. split; [done|]. apply list_elem_of_filter. split; [done|]. by eapply list_elem_of_lookup_2. }
  destruct i as [|i], j as [|j]; simpl in Hi, Hm'; [done|..].
  - injection Hi as ->. rewrite decide_True in Hnd by done. apply NoDup_cons in Hnd as [Hn _]. destruct Hn. rewrite <- Heq. by eapply Hin.
  - injection Hm' as ->. rewrite decide_True in Hnd by done. apply NoDup_cons in Hnd as [Hn _]. destruct Hn. rewrite Heq. by eapply Hin.
  - f_equal. apply (IH i j); [done..|]. case_decide; [by apply NoDup_cons in Hnd as [_ ?]|done].
Qed.

(** ** The first repair *)

(** Neither calls nor answers a call. *)
Definition plain m : bool := bool_decide (tool_calls m = None) && negb (is_result m && has_call_id m).
Definition results_do_not_call ms : Prop := ∀ m, m ∈ ms → is_result m = true → tool_calls m = None.

Lemma remove_invalid_eq ms :
  remove_invalid_tool_calls_and_tool_calls_results ms
  = let ms1 := filter (λ m, calls_answered (answered_ids ms) m = true) ms in
    keep_last (filter (λ m, call_exists (called_ids ms1) m = true) ms1).
Proof. done. Qed.

Lemma filter_filter_imp (P Q : ChatMessage R → bool) ms :
  (∀ m, P m = true → Q m = true) → filter (λ m, P m = true) (filter (λ m, Q m = true) ms) = filter (λ m, P m = true) ms.
Proof.
  intros H. rewrite list_filter_filter. apply list_filter_iff. intros m. split; [by intros [? _]|]. intros Hp. split; auto.
Qed.

Lemma plain_keep_last ms : filter (λ m, plain m = true) (keep_last ms) = filter (λ m, plain m = true) ms.
Proof.
  unfold keep_last. transitivity (filter (λ m, plain m = true) (imap pair ms).*2); [|by rewrite imap_pair_snd].
  generalize (last_occurrence ms) as L. intros L. induction (imap pair ms) as [|[i m] l IH]; [done|]. rewrite fmap_cons, !filter_cons. simpl.
  destruct (plain m) eqn:Hp.
  - assert (is_last_result (map_img L) (i, m) = true) as ->.
    { unfold is_last_result. simpl. unfold plain, is_result, is_tool_or_diff in *. apply andb_true_iff in Hp as [_ Hp].
      destruct (has_call_id m), (bool_decide (role m = "tool")), (bool_decide (role m = "diff")); done. }
    rewrite !decide_True by done. rewrite fmap_cons, filter_cons, decide_True by done. simpl. by rewrite IH.
  - rewrite (decide_False (P := false = true)) by done. case_decide; [rewrite fmap_cons, filter_cons; simpl; rewrite decide_False by congruence|]; done.
Qed.

(** The first repair pairs calls and results: every call left has a result, every result a call,
    no call has two tool results; it only removes, nothing that neither calls nor answers,
    and it leaves a paired history as it is. *)
Lemma repair_pairs ms :
  results_do_not_call ms →
  let out := remove_invalid_tool_calls_and_tool_calls_results ms in
  paired out ∧ out `sublist_of` ms
  ∧ filter (λ m, plain m = true) out = filter (λ m, plain m = true) ms
  ∧ (paired ms → out = ms).
Proof.
  intros Hrc out. unfold out. rewrite remove_invalid_eq. cbv zeta. clear out.
  set (ms1 := filter (λ m, calls_answered (answered_ids ms) m = true) ms).
  set (ms2 := filter (λ m, call_exists (called_ids ms1) m = true) ms1).
  assert (Hms1 : ∀ m, m ∈ ms1 ↔ calls_answered (answered_ids ms) m = true ∧ m ∈ ms) by (intros m; exact (list_elem_of_filter _ _ _)).
  assert (Hms2 : ∀ m, m ∈ ms2 ↔ call_exists (called_ids ms1) m = true ∧ m ∈ ms1) by (intros m; exact (list_elem_of_filter _ _ _)).
  assert (Hsub : ∀ m, m ∈ keep_last ms2 → m ∈ ms2) by (intros m (i & Hi & _)%elem_of_keep_last; by eapply list_elem_of_lookup_2).
  assert (Hquiet : ∀ m, single m = false → m ∈ ms2 → m ∈ keep_last ms2).
  { intros m Hs (i & Hi)%list_elem_of_lookup. apply elem_of_keep_last. exists i. by rewrite Hs. }
  split_and!.
  - split; [| |apply keep_last_single].
    + intros m calls tc Hm%Hsub Hc Htc. pose proof Hm as Hm'. apply Hms2 in Hm' as [_ Hm1].
      pose proof Hm1 as Hm'. apply Hms1 in Hm' as [Ha _].
      pose proof (proj1 (calls_answered_true _ _) Ha calls tc Hc Htc) as (r & Hr & Hres & Hid & Hn)%elem_of_answered_ids.
      assert (r ∈ ms1) as Hr1.
      { apply Hms1. split; [|done]. apply calls_answered_true. intros ? ?. by rewrite (Hrc r Hr Hres). }
      assert (r ∈ ms2) as Hr2.
      { apply Hms2. split; [|done]. apply call_exists_true. intros _ _. apply elem_of_called_ids. exists m, calls, tc. by rewrite Hid. }
      destruct (single r) eqn:Hs; [|exists r; split_and!; auto].
      destruct (last_occurrence_is_Some ms2 r Hr2 Hs) as [j Hj]. pose proof Hj as (r' & Hr' & Hs' & Heq)%last_occurrence_Some.
      exists r'. split_and!; [|by apply single_is_result|congruence|done]. apply elem_of_keep_last. exists j. split; [done|]. by rewrite Heq.
    + intros r Hr%Hsub Hres Hn. apply Hms2 in Hr as [Hex _].
      pose proof (proj1 (call_exists_true _ _) Hex Hres Hn) as (m & calls & tc & Hm & Hc & Htc & Hid)%elem_of_called_ids.
      exists m, calls, tc. split_and!; [|done..]. apply Hms1 in Hm as Hm'. destruct Hm' as [_ Hm'].
      assert (is_result m = false) as Hq by (destruct (is_result m) eqn:E; [by rewrite (Hrc m Hm' E) in Hc|done]).
      apply Hquiet; [|apply Hms2; split; [|done]; apply call_exists_true; congruence].
      destruct (single m) eqn:E; [|done]. apply single_is_result in E as [? _]. congruence.
  - etrans; [apply keep_last_sublist|]. etrans; apply sublist_filter.
  - rewrite plain_keep_last. unfold ms2, ms1. rewrite !filter_filter_imp; [done|..].
    + intros m Hp. apply calls_answered_true. intros calls tc Hc. unfold plain in Hp. by rewrite Hc in Hp.
    + intros m Hp. apply call_exists_true. intros Hr Hn%has_call_id_true. unfold plain in Hp. rewrite Hr, Hn in Hp.
      by rewrite andb_false_r in Hp.
  - intros [H1 H2 H3]. assert (ms1 = ms) as E1.
    { apply filter_every. intros m Hm. apply calls_answered_true. intros calls tc Hc Htc. apply elem_of_answered_ids.
      destruct (H1 m calls tc Hm Hc Htc) as (r & ? & ? & ? & ?). by exists r. }
    assert (ms2 = ms) as ->; [|by apply keep_last_id]. unfold ms2. rewrite E1. apply filter_every. intros m Hm.
    apply call_exists_true. intros Hr Hn. apply elem_of_called_ids. by apply H2.
Qed.

(** A message that calls stays just when each of its calls has some result, wherever in the history it is. *)
Lemma repair_keeps_answered ms m calls :
  results_do_not_call ms → m ∈ ms → tool_calls m = Some calls →
  m ∈ remove_invalid_tool_calls_and_tool_calls_results ms
  ↔ ∀ tc, tc ∈ calls → ∃ r, r ∈ ms ∧ is_result r = true ∧ tool_call_id r = tc_id tc ∧ tc_id tc ≠ "".
Proof.
  intros Hrc Hm Hc. rewrite remove_invalid_eq. cbv zeta.
  assert (is_result m = false) as Hnr by (destruct (is_result m) eqn:E; [by rewrite (Hrc m Hm E) in Hc|done]).
  assert (calls_answered (answered_ids ms) m = true
          ↔ ∀ tc, tc ∈ calls → ∃ r, r ∈ ms ∧ is_result r = true ∧ tool_call_id r = tc_id tc ∧ tc_id tc ≠ "") as <-.
  { rewrite calls_answered_true, Hc. setoid_rewrite elem_of_answered_ids. split.
    - intros H tc Htc. destruct (H calls tc eq_refl Htc) as (r & ? & ? & ? & ?). by exists r.
    - intros H ? tc [= <-] Htc. destruct (H tc Htc) as (r & ? & ? & ? & ?). by exists r. }
  split.
  - intros (i & Hi & _)%elem_of_keep_last. apply list_elem_of_lookup_2 in Hi.
    apply list_elem_of_filter in Hi as [_ [? _]%list_elem_of_filter]. done.
  - intros Ha. set (ms2 := filter _ (filter _ ms)).
    assert (m ∈ ms2) as (i & Hi)%list_elem_of_lookup.
    { apply list_elem_of_filter. split; [by apply call_exists_true; rewrite Hnr|]. by apply list_elem_of_filter. }
    apply elem_of_keep_last. exists i. split; [done|]. intros [Hr _]%single_is_result. congruence.
Qed.

(** C31. The first repair pairs calls and results.  In a history whose results carry no calls of their own, every
    call left has a result, every result a call, and no id has two tool or diff results; a message that
    calls stays just when each of its calls had a result; only messages are removed, none that
    neither calls nor answers, and a paired history is left as it is.  Calls and results are matched by
    id over the whole history, without regard to turns: an id that two turns use keeps one answer, so that
    [reused_ids_are_refused]. *)
Theorem first_repair_pairs ms :
  results_do_not_call ms →
  let out := remove_invalid_tool_calls_and_tool_calls_results ms in
  paired out ∧ out `sublist_of` ms
  ∧ filter (λ m, plain m = true) out = filter (λ m, plain m = true) ms
  ∧ (∀ m calls, m ∈ ms → tool_calls m = Some calls →
       m ∈ out ↔ ∀ tc, tc ∈ calls → ∃ r, r ∈ ms ∧ is_result r = true ∧ tool_call_id r = tc_id tc ∧ tc_id tc ≠ "")
  ∧ (paired ms → out = ms).
Proof.
  intros Hrc out. destruct (repair_pairs ms Hrc) as (H1 & H2 & H3 & H4). split_and!; [done..| |done].
  intros m calls Hm Hc. by apply repair_keeps_answered.
Qed.

(** ** Moving results *)

Definition kept_of (l : list (nat * (option nat * ChatMessage R))) : list (nat * ChatMessage R) :=
  (λ p, (p.1, p.2.2)) <$> filter (λ p, p.2.1 = None) l.
Definition owned_by (i : nat) (l : list (nat * (option nat * ChatMessage R))) : list (ChatMessage R) :=
  (λ p, p.2.2) <$> filter (λ p, p.2.1 = Some i) l.
Definition triples ms : list (nat * (option nat * ChatMessage R)) := imap pair (zip (owners_of ms) ms).
(** Each message that stays, followed by its results. *)
Definition blocks (l : list (nat * (option nat * ChatMessage R))) : list (ChatMessage R) :=
  kept_of l ≫= λ p, p.2 :: owned_by p.1 l.

Lemma kept_of_cons n o m l :
  kept_of ((n, (o, m)) :: l) = match o with None => (n, m) :: kept_of l | Some _ => kept_of l end.
Proof. unfold kept_of. rewrite filter_cons. by destruct o. Qed.
Lemma owned_by_cons i n o m l :
  owned_by i ((n, (o, m)) :: l) = if decide (o = Some i) then m :: owned_by i l else owned_by i l.
Proof. unfold owned_by. rewrite filter_cons. simpl. by case_decide. Qed.

Lemma push_owned_all l results kept :
  let '(results', kept') := foldl push_owned (results, kept) l in
  kept' = kept ++ kept_of l ∧ ∀ i, default [] (results' !! i) = default [] (results !! i) ++ owned_by i l.
Proof.
  revert results kept. induction l as [|[n [o m]] l IH]; intros results kept; cbn [foldl].
  { split; [by rewrite app_nil_r|]. intros i. by rewrite app_nil_r. }
  rewrite kept_of_cons. destruct o as [o|].
  - specialize (IH (<[o := default [] (results !! o) ++ [m]]> results) kept). cbn [push_owned fst snd].
    destruct (foldl push_owned _ l) as [results' kept']. destruct IH as [-> IH]. split; [done|]. intros i.
    rewrite IH, owned_by_cons.
    destruct (decide (Some o = Some i)) as [[= ->]|Hne].
    + rewrite lookup_insert_eq. simpl. by rewrite <- app_assoc.
    + rewrite lookup_insert_ne by congruence. done.
  - specialize (IH results (kept ++ [(n, m)])). cbn [push_owned fst snd].
    destruct (foldl push_owned _ l) as [results' kept']. destruct IH as [-> IH]. split; [by rewrite <- app_assoc|].
    intros i. rewrite owned_by_cons, decide_False by done. apply IH.
Qed.

Lemma emit_kept_eq (results : gmap nat (list (ChatMessage R))) kept :
  NoDup kept.*1 → emit_kept results kept = kept ≫= λ p, p.2 :: default [] (results !! p.1).
Proof.
  revert results. induction kept as [|[i m] kept IH]; intros results; [done|].
  rewrite fmap_cons, NoDup_cons. intros [Hi Hnd]. simpl. rewrite IH by done. do 2 f_equal.
  apply Forall_bind_ext, Forall_forall. intros [j m'] Hj. rewrite lookup_delete_ne; [done|]. simpl. intros ->.
  apply Hi. apply list_elem_of_fmap. by exists (j, m').
Qed.

Lemma kept_of_fst l : (kept_of l).*1 `sublist_of` l.*1.
Proof. unfold kept_of. rewrite <- list_fmap_compose. apply fmap_sublist, sublist_filter. Qed.

Lemma triples_fst ms : NoDup (triples ms).*1.
Proof.
  apply NoDup_fmap_fst; [|apply NoDup_imap_pair].
  intros i x y Hx%elem_of_imap_pair Hy%elem_of_imap_pair. congruence.
Qed.
Lemma length_owners ms : length (owners_of ms) = length ms.
Proof. apply length_imap. Qed.
Lemma elem_of_triples ms i o m : (i, (o, m)) ∈ triples ms ↔ owners_of ms !! i = Some o ∧ ms !! i = Some m.
Proof. unfold triples. rewrite elem_of_imap_pair, lookup_zip_Some. done. Qed.
Lemma triples_snd ms : (λ p, p.2.2) <$> triples ms = ms.
Proof.
  unfold triples. transitivity ((imap pair (zip (owners_of ms) ms)).*2).*2; [by rewrite <- list_fmap_compose|].
  rewrite imap_pair_snd. apply snd_zip. by rewrite length_owners.
Qed.

(** Positions. *)
Lemma position_of_Some {A} (f : A → bool) l k : position_of f l = Some k → ∃ x, l !! k = Some x ∧ f x = true.
Proof.
  unfold position_of. intros ([k' x] & H & [= ->])%fmap_Some. apply list_find_Some in H as (Hl & Hf & _). by exists x.
Qed.
Lemma position_of_None {A} (f : A → bool) l x : position_of f l = None → x ∈ l → f x = false.
Proof.
  unfold position_of. intros H%fmap_None Hx. apply list_find_None in H. rewrite Forall_forall in H.
  by apply not_true_is_false, H.
Qed.
Lemma rposition_of_Some {A} (f : A → bool) l k : rposition_of f l = Some k → ∃ x, l !! k = Some x ∧ f x = true.
Proof.
  unfold rposition_of. intros (j & H & ->)%fmap_Some. apply position_of_Some in H as (x & Hx & Hf).
  exists x. split; [|done]. pose proof (lookup_lt_Some _ _ _ Hx) as Hlt. rewrite length_reverse in Hlt.
  rewrite reverse_lookup in Hx by done. rewrite <- Hx. f_equal. lia.
Qed.
Lemma rposition_of_None {A} (f : A → bool) l x : rposition_of f l = None → x ∈ l → f x = false.
Proof.
  unfold rposition_of. intros H%fmap_None Hx. apply (position_of_None f (reverse l)); [done|]. by apply elem_of_reverse.
Qed.

Lemma owner_for_Some ms idx id o :
  owner_for ms idx id = Some o → ∃ m, ms !! o = Some m ∧ declares_call m id = true ∧ o ≠ idx.
Proof.
  unfold owner_for. destruct (rposition_of _ _) as [k|] eqn:Hk.
  - intros [= <-]. apply rposition_of_Some in Hk as (m & Hm & Hd). apply lookup_take_Some in Hm as [Hm ?].
    exists m. split_and!; [done..|lia].
  - intros (off & Hoff & ->)%fmap_Some. apply position_of_Some in Hoff as (m & Hm & Hd). rewrite lookup_drop in Hm.
    exists m. split_and!; [done..|lia].
Qed.
Lemma owner_for_None ms idx id i m :
  owner_for ms idx id = None → ms !! i = Some m → i ≠ idx → declares_call m id = false.
Proof.
  unfold owner_for. destruct (rposition_of _ _) as [k|] eqn:Hk; [done|]. intros Hoff%fmap_None Hm Hi.
  destruct (decide (i < idx)).
  - eapply (rposition_of_None (λ m, declares_call m id)); [exact Hk|]. apply list_elem_of_lookup_2 with i.
    apply lookup_take_Some. done.
  - eapply (position_of_None (λ m, declares_call m id)); [exact Hoff|]. apply list_elem_of_lookup_2 with (i - (idx + 1)).
    rewrite lookup_drop, <- Hm. f_equal. lia.
Qed.

Lemma declares_call_true m id :
  declares_call m id = true ↔
  role m = "assistant" ∧ ∃ calls tc, tool_calls m = Some calls ∧ tc ∈ calls ∧ tc_id tc = id.
Proof.
  unfold declares_call. rewrite andb_true_iff, bool_decide_eq_true. apply and_iff_compat_l.
  destruct (tool_calls m) as [calls|]; [|split; [done|by intros (? & ? & ? & _)]].
  rewrite existsb_elem. setoid_rewrite bool_decide_eq_true. split; [intros (tc & ? & ?); by exists calls, tc|].
  intros (? & tc & [= <-] & ? & ?). by exists tc.
Qed.

(** Only results are owned, and only by messages that are none. *)
Lemma owners_Some ms i o m :
  owners_of ms !! i = Some (Some o) → ms !! i = Some m →
  is_result m = true ∧ tool_call_id m ≠ "" ∧ owners_of ms !! o = Some None
  ∧ ∃ a, ms !! o = Some a ∧ declares_call a (tool_call_id m) = true.
Proof.
  unfold owners_of at 1. intros Ho Hm. rewrite list_lookup_imap, Hm in Ho. simpl in Ho.
  destruct (is_result m && has_call_id m) eqn:Hr; [|done]. injection Ho as Ho.
  apply owner_for_Some in Ho as (a & Ha & Hd & _). apply andb_true_iff in Hr as [Hr Hn%has_call_id_true].
  split_and!; [done|done| |by exists a]. unfold owners_of. rewrite list_lookup_imap, Ha. simpl.
  assert (is_result a = false) as ->; [|done]. apply declares_call_true in Hd as [Hrole _].
  unfold is_result. by rewrite Hrole.
Qed.

Lemma relocate_eq ms : relocate_tool_results_after_their_calls ms = blocks (triples ms).
Proof.
  assert (Hnone : (∀ o, o ∈ owners_of ms → o = None) → blocks (triples ms) = ms).
  { intros H. unfold blocks. assert (∀ i, owned_by i (triples ms) = []) as Ho.
    { intros i. unfold owned_by. rewrite filter_none; [done|]. intros [n [o m]] [Hn _]%elem_of_triples. simpl. intros ->.
      apply list_elem_of_lookup_2, H in Hn. done. }
    transitivity (kept_of (triples ms) ≫= λ p, [p.2]); [apply list_bind_ext; [intros p; by rewrite Ho|done]|].
    transitivity (kept_of (triples ms)).*2; [by induction (kept_of (triples ms)) as [|p l IH]; [done|csimpl; rewrite <- IH]|].
    unfold kept_of. rewrite <- list_fmap_compose. rewrite filter_every; [apply triples_snd|].
    intros [n [o m]] [Hn _]%elem_of_triples. simpl. by apply list_elem_of_lookup_2, H in Hn. }
  unfold relocate_tool_results_after_their_calls. destruct (has_any_calls ms) eqn:Hc; simpl.
  2: { symmetry. apply Hnone. intros o (i & Hi)%list_elem_of_lookup. destruct o as [o|]; [exfalso|done].
       destruct (lookup_lt_is_Some_2 ms i) as [m Hm]; [apply lookup_lt_Some in Hi; by rewrite length_owners in Hi|].
       destruct (owners_Some ms i o m Hi Hm) as (_ & _ & _ & a & Ha & (_ & calls & tc & Hcalls & Htc & _)%declares_call_true).
       enough (has_any_calls ms = true) by congruence. apply existsb_elem. exists a.
       split; [by eapply list_elem_of_lookup_2|]. rewrite Hcalls. by destruct calls; [apply not_elem_of_nil in Htc|]. }
  destruct (forallb _ (owners_of ms)) eqn:Ho.
  { symmetry. apply Hnone. intros o Hin. apply (proj1 (forallb_elem _ _) Ho), bool_decide_eq_true in Hin. done. }
  pose proof (push_owned_all (triples ms) ∅ []) as Hp. unfold triples in Hp at 1.
  destruct (foldl push_owned _ _) as [results kept]. destruct Hp as [-> Hr]. simpl.
  rewrite emit_kept_eq; [|eapply sublist_NoDup; [apply triples_fst|apply kept_of_fst]].
  apply list_bind_ext; [|done]. intros p. by rewrite Hr, lookup_empty.
Qed.

(** Every message is still there, once. *)
Lemma bind_insert {A} (f : nat → list A) ks o x :
  NoDup ks → o ∈ ks → (ks ≫= λ k, if decide (Some o = Some k) then x :: f k else f k) ≡ₚ x :: (ks ≫= f).
Proof.
  induction ks as [|k ks IH]; [by intros _ ?%not_elem_of_nil|]. rewrite NoDup_cons. intros [Hk Hnd] Ho. csimpl.
  destruct (decide (Some o = Some k)) as [[= ->]|Hne].
  - simpl. do 2 f_equiv. apply reflexive_eq. apply Forall_bind_ext, Forall_forall. intros j Hj.
    rewrite decide_False; [done|]. by intros [= ->].
  - apply elem_of_cons in Ho as [->|Ho]; [done|]. rewrite IH by done. by rewrite Permutation_middle.
Qed.

Lemma spread_perm (ks : list nat) l :
  NoDup ks → (∀ n o m, (n, (Some o, m)) ∈ l → o ∈ ks) →
  (ks ≫= λ k, owned_by k l) ++ (kept_of l).*2 ≡ₚ (λ p, p.2.2) <$> l.
Proof.
  intros Hnd. induction l as [|[n [o m]] l IH]; intros Hin.
  { clear. by induction ks as [|k ks IH]. }
  rewrite kept_of_cons. assert (IH' := IH (λ n o m H, Hin n o m (list_elem_of_further _ _ _ H))). destruct o as [o|].
  - rewrite fmap_cons, <- IH'. simpl. transitivity ((m :: (ks ≫= λ k, owned_by k l)) ++ (kept_of l).*2); [|done].
    f_equiv. rewrite <- (bind_insert (λ k, owned_by k l) ks o m) by (done || eapply Hin; by left).
    apply reflexive_eq. apply list_bind_ext; [|done]. intros k. apply owned_by_cons.
  - rewrite !fmap_cons, <- IH'. simpl. rewrite <- Permutation_middle. f_equiv. f_equiv.
    apply reflexive_eq. apply list_bind_ext; [|done]. intros k. by rewrite owned_by_cons, decide_False.
Qed.

Lemma bind_cons_perm {A B} (f : A → B) (g : A → list B) l : (l ≫= λ x, f x :: g x) ≡ₚ (f <$> l) ++ (l ≫= g).
Proof.
  induction l as [|x l IH]; [done|]. csimpl. rewrite IH. f_equiv. rewrite !(assoc (++)). f_equiv. by rewrite (comm (++)).
Qed.

Lemma relocate_perm ms : relocate_tool_results_after_their_calls ms ≡ₚ ms.
Proof.
  rewrite relocate_eq. unfold blocks. rewrite (bind_cons_perm snd (λ p, owned_by p.1 (triples ms))).
  rewrite (comm (++)).
  assert ((kept_of (triples ms) ≫= λ p, owned_by p.1 (triples ms)) = ((kept_of (triples ms)).*1 ≫= λ k, owned_by k (triples ms)))
    as -> by (by rewrite list_fmap_bind).
  rewrite spread_perm; [by rewrite triples_snd| |].
  - eapply sublist_NoDup; [apply triples_fst|apply kept_of_fst].
  - intros n o m [Hn Hm]%elem_of_triples. destruct (owners_Some ms n o m Hn Hm) as (_ & _ & Ho & a & Ha & _).
    apply list_elem_of_fmap. exists (o, a). split; [done|]. unfold kept_of. apply list_elem_of_fmap.
    exists (o, (None, a)). split; [done|]. apply list_elem_of_filter. split; [done|]. by apply elem_of_triples.
Qed.

(** ** Validation *)

Lemma is_result_not_assistant m : is_result m = true → role m ≠ "assistant" ∧ ends_turn m = false.
Proof.
  unfold is_result, ends_turn. rewrite !orb_true_iff, !bool_decide_eq_true. rewrite bool_decide_eq_false.
  intros [[->| ->]| ->]; split; try done; rewrite !elem_of_cons; intros Hr; decompose [or] Hr; try done; by eapply not_elem_of_nil.
Qed.

Lemma found_result_block id results later :
  (∀ r, r ∈ results → is_result r = true) → (∃ r, r ∈ results ∧ tool_call_id r = id) →
  found_result id (results ++ later) = true.
Proof.
  induction results as [|x results IH]; intros Hall (r & Hr & Hid); [by apply not_elem_of_nil in Hr|]. simpl.
  assert (is_result x = true) as Hx by (apply Hall; by left). rewrite Hx. simpl. case_bool_decide; [done|].
  rewrite (proj2 (is_result_not_assistant x Hx)). apply IH; [intros; apply Hall; by right|].
  exists r. split; [|done]. by apply elem_of_cons in Hr as [->|?].
Qed.

Lemma first_unresponded_results n results later :
  (∀ r, r ∈ results → is_result r = true) →
  first_unresponded n (results ++ later) = first_unresponded (n + length results) later.
Proof.
  revert n. induction results as [|x results IH]; intros n Hall; simpl; [by rewrite Nat.add_0_r|].
  rewrite bool_decide_false by (apply is_result_not_assistant, Hall; by left).
  rewrite IH by (intros; apply Hall; by right). f_equal. lia.
Qed.

Lemma first_unresponded_blocks n (kept : list (nat * ChatMessage R)) (f : nat → list (ChatMessage R)) :
  (∀ i m, (i, m) ∈ kept → ∀ r, r ∈ f i → is_result r = true) →
  (∀ i m calls tc, (i, m) ∈ kept → role m = "assistant" → tool_calls m = Some calls → tc ∈ calls →
     ∃ r, r ∈ f i ∧ tool_call_id r = tc_id tc) →
  first_unresponded n (kept ≫= λ p, p.2 :: f p.1) = None.
Proof.
  revert n. induction kept as [|[i m] kept IH]; intros n Hres Hcalls; [done|]. csimpl.
  assert (∀ r, r ∈ f i → is_result r = true) as Hr by (apply (Hres i m); by left).
  destruct (if bool_decide (role m = "assistant") then _ else None) as [[k tc]|] eqn:E.
  - exfalso. case_bool_decide as Hrole; [|done]. apply list_find_Some in E as (Hl & Hf & _).
    destruct (tool_calls m) as [calls|] eqn:Hc; [|by destruct k]. simpl in Hl.
    rewrite found_result_block in Hf; [done|done|].
    eapply (Hcalls i m calls tc); [by left|done..|by eapply list_elem_of_lookup_2].
  - rewrite first_unresponded_results by done. apply IH.
    + intros j x Hj. eapply Hres. by right.
    + intros j x calls tc Hj. eapply Hcalls. by right.
Qed.

(** Every call of an assistant has an id of its own. *)
Definition assistant_calls m : list string :=
  if decide (role m = "assistant") then tc_id <$> default [] (tool_calls m) else [].
Definition distinct_calls ms : Prop := NoDup (ms ≫= assistant_calls).

Lemma declares_call_elem m id : declares_call m id = true ↔ id ∈ assistant_calls m.
Proof.
  rewrite declares_call_true. unfold assistant_calls. case_decide as Hr; [|split; [by intros [? _]|by intros ?%not_elem_of_nil]].
  rewrite list_elem_of_fmap. destruct (tool_calls m) as [calls|]; simpl; split.
  - intros (_ & ? & tc & [= <-] & ? & <-). by exists tc.
  - intros (tc & -> & ?). split; [done|]. by exists calls, tc.
  - by intros (_ & ? & ? & ? & _).
  - by intros (? & _ & ?%not_elem_of_nil).
Qed.

Lemma distinct_owner ms i j m m' id :
  distinct_calls ms → ms !! i = Some m → ms !! j = Some m' → declares_call m id = true → declares_call m' id = true → i = j.
Proof.
  unfold distinct_calls. rewrite !declares_call_elem. revert i j. induction ms as [|x ms IH]; intros i j Hnd Hi Hj H1 H2; [done|].
  rewrite bind_cons in Hnd. apply NoDup_app in Hnd as (_ & Hdis & Hnd).
  assert (∀ k y, ms !! k = Some y → id ∈ assistant_calls y → id ∈ ms ≫= assistant_calls) as Hin.
  { intros k y Hk Hy. apply list_elem_of_bind. exists y. split; [done|]. by eapply list_elem_of_lookup_2. }
  destruct i as [|i], j as [|j]; simpl in Hi, Hj; simplify_eq; [done|..].
  - exfalso. eapply Hdis; [exact H1|]. by eapply Hin.
  - exfalso. eapply Hdis; [exact H2|]. by eapply Hin.
  - f_equal. by eapply IH.
Qed.

Lemma relocated_responded ms n :
  paired ms → distinct_calls ms → first_unresponded n (relocate_tool_results_after_their_calls ms) = None.
Proof.
  intros [Hcalls _ _] Hd. rewrite relocate_eq. unfold blocks. apply (first_unresponded_blocks n _ (λ i, owned_by i (triples ms))).
  - intros i m _ r Hr. unfold owned_by in Hr. apply list_elem_of_fmap in Hr as ([k [o x]] & -> & [Ho Hin]%list_elem_of_filter).
    simpl in *. subst o. apply elem_of_triples in Hin as [Hk Hx]. by apply (owners_Some ms k i x Hk Hx).
  - intros i m calls tc Hin Hrole Hc Htc. unfold kept_of in Hin.
    apply list_elem_of_fmap in Hin as ([k [o x]] & [= -> ->] & [Ho [Hk Hx]%elem_of_triples]%list_elem_of_filter). simpl in *. subst o.
    assert (declares_call x (tc_id tc) = true) as Hdecl by (apply declares_call_true; split; [done|]; by exists calls, tc).
    destruct (Hcalls x calls tc) as (r & Hr & Hres & Hid & Hn); [by eapply list_elem_of_lookup_2|done..|].
    exists r. split; [|done]. apply list_elem_of_lookup in Hr as [j Hj].
    assert (owners_of ms !! j = Some (Some k)) as Hown.
    { unfold owners_of. rewrite list_lookup_imap, Hj. simpl. rewrite Hres. simpl.
      rewrite (proj2 (has_call_id_true r)) by congruence. rewrite Hid.
      destruct (owner_for ms j (tc_id tc)) as [o|] eqn:Hof.
      - apply owner_for_Some in Hof as (a & Ha & Hda & _). do 2 f_equal. by eapply (distinct_owner ms o k a x).
      - exfalso. assert (k ≠ j) as Hkj by (intros ->; simplify_eq; by apply is_result_not_assistant in Hres as [? _]).
        rewrite (owner_for_None ms j (tc_id tc) k x Hof Hx Hkj) in Hdecl. done. }
    unfold owned_by. apply list_elem_of_fmap. exists (j, (Some k, r)). split; [done|]. apply list_elem_of_filter.
    split; [done|]. by apply elem_of_triples.
Qed.

(** ** Broken calls *)

Context (json_error : text → option text).

Definition calls_ok m : Prop :=
  ∀ calls tc, tool_calls m = Some calls → tc ∈ calls → json_error (tc_arguments tc) = None.
(** A message without broken calls stays; one with broken calls becomes an instruction. *)
Definition mended m m' : Prop :=
  m' = m ∧ calls_ok m ∨ tool_calls m' = None ∧ role m' = "cd_instruction" ∧ tool_calls m ≠ None.

Lemma replace_broken_message_ok last i max new m : mended m (replace_broken_message json_error last i max new m).1.
Proof.
  unfold replace_broken_message. destruct (tool_calls m) as [calls|] eqn:Hc.
  2: { left. split; [done|]. intros calls tc H. congruence. }
  case_bool_decide as Hn.
  - left. split; [done|]. intros calls' tc Hc' Htc. rewrite Hc in Hc'. injection Hc' as <-.
    destruct (json_error (tc_arguments tc)) as [e|] eqn:He; [exfalso|done].
    assert (∃ x, broken_reason json_error tc = Some x) as [x Hx] by (unfold broken_reason; rewrite He; by eexists).
    assert (x ∈ omap (broken_reason json_error) calls) as H by (apply list_elem_of_omap; by exists tc).
    rewrite Hn in H. by apply not_elem_of_nil in H.
  - right. destruct (if bool_decide (i = last) && _ then _ else _). simpl. by rewrite Hc.
Qed.

Lemma replace_broken_from_ok last i max new ms :
  Forall2 mended ms (replace_broken_from json_error last i max new ms).1.
Proof.
  revert i max. induction ms as [|m ms IH]; intros i max; simpl; [constructor|].
  pose proof (replace_broken_message_ok last i max new m) as Hm.
  destruct (replace_broken_message json_error last i max new m) as [m' max'].
  specialize (IH (S i) max'). destruct (replace_broken_from json_error last (S i) max' new ms) as [ms' max''].
  by constructor.
Qed.

Lemma mended_results ms ms' : Forall2 mended ms ms' → results_do_not_call ms → results_do_not_call ms'.
Proof.
  intros H Hrc m' (i & Hi)%list_elem_of_lookup Hr. destruct (Forall2_lookup_r _ _ _ _ _ H Hi) as (m & Hm & [[-> _]|(? & ? & _)]); [|done].
  apply Hrc; [by eapply list_elem_of_lookup_2|done].
Qed.

Lemma mended_distinct ms ms' : Forall2 mended ms ms' → distinct_calls ms → distinct_calls ms'.
Proof.
  unfold distinct_calls. intros H Hd. eapply sublist_NoDup; [exact Hd|].
  induction H as [|m m' ms ms' Hm _ IH]; [done|]. rewrite !bind_cons. rewrite bind_cons in Hd.
  apply NoDup_app in Hd as (_ & _ & Hd). apply sublist_app; [|by apply IH].
  destruct Hm as [[-> _]|(Hn & Hr & _)]; [done|]. unfold assistant_calls at 1. rewrite Hr. apply sublist_nil_l.
Qed.

Lemma sublist_distinct ms ms' : ms' `sublist_of` ms → distinct_calls ms → distinct_calls ms'.
Proof.
  unfold distinct_calls. intros Hs Hd. eapply sublist_NoDup; [exact Hd|]. clear Hd.
  induction Hs as [|m ms' ms _ IH|m ms' ms _ IH]; [done|..]; rewrite ?bind_cons; [by apply sublist_app|by apply sublist_inserts_l].
Qed.

Lemma first_bad_arguments_None n ms :
  (∀ a, json_error a = None → json_error (trim a) = None) → json_error (lit "{}") = None →
  (∀ m, m ∈ ms → calls_ok m) → first_bad_arguments json_error n ms = None.
Proof.
  intros Htrim Hempty. revert n. induction ms as [|m ms IH]; intros n Hok; [done|]. simpl.
  destruct (list_find _ (default [] (tool_calls m))) as [[k tc]|] eqn:E; [exfalso|apply IH; intros; apply Hok; by right].
  apply list_find_Some in E as (Hl & [e He] & _). destruct (tool_calls m) as [calls|] eqn:Hc; [|by destruct k].
  assert (json_error (tc_arguments tc) = None) as Ha by (eapply (Hok m); [by left|exact Hc|by eapply list_elem_of_lookup_2]).
  unfold parse_args in He. destruct (starts_with _ _); [rewrite Htrim in He|]; congruence.
Qed.

(** ** The first message *)

Lemma anchor_plain m : is_prompt_anchor m = true → tool_calls m = None → plain m = true ∧ is_result m = false.
Proof.
  unfold is_prompt_anchor. rewrite bool_decide_eq_true. intros Hr Hc.
  assert (is_result m = false) as Hres.
  { apply not_true_is_false. unfold is_result. rewrite !orb_true_iff, !bool_decide_eq_true. intros [[H|H]|H]; rewrite H in Hr; set_solver. }
  split; [|done]. unfold plain. by rewrite Hc, Hres.
Qed.

Lemma filter_head_plain ms (first : ChatMessage R) rest :
  plain first = true → ms = first :: rest →
  ∃ rest', remove_invalid_tool_calls_and_tool_calls_results ms = first :: rest'.
Proof.
  intros Hp ->. rewrite remove_invalid_eq. cbv zeta. unfold plain in Hp. apply andb_true_iff in Hp as [Hc%bool_decide_eq_true Hr].
  rewrite filter_cons, decide_True by (unfold calls_answered; by rewrite Hc).
  set (ids := called_ids _). rewrite filter_cons, decide_True.
  2: { unfold call_exists. destruct (is_result first && has_call_id first); done. }
  unfold keep_last. rewrite imap_cons, filter_cons, decide_True; [rewrite fmap_cons; by eexists|].
  unfold is_last_result, is_result, is_tool_or_diff in *. simpl.
  destruct (has_call_id first), (bool_decide (role first = "tool")), (bool_decide (role first = "diff")); done.
Qed.

Lemma relocate_head (first : ChatMessage R) rest :
  is_result first = false → ∃ rest', relocate_tool_results_after_their_calls (first :: rest) = first :: rest'.
Proof.
  intros Hr. rewrite relocate_eq. unfold blocks, triples, owners_of. rewrite imap_cons, Hr. simpl zip. rewrite imap_cons.
  rewrite kept_of_cons. csimpl. by eexists.
Qed.

(** What is sent, or why nothing is: the first message decides. *)
Definition outcome ms : result (list (ChatMessage R)) HistoryError :=
  match ms with
  | [] => Err NoMessages
  | first :: _ =>
      if is_prompt_anchor first then Ok ms
      else Err (if existsb is_prompt_anchor ms then BadFirstRole (role first) else NoPromptAnchor)
  end.

(** What an API accepts: a prompt message first, arguments that can be read, and each call of an assistant
    answered before the next turn begins. *)
Record sendable ms : Prop := {
  snd_first : ∃ first, head ms = Some first ∧ is_prompt_anchor first = true;
  snd_arguments m calls tc : m ∈ ms → tool_calls m = Some calls → tc ∈ calls → parse_args json_error (tc_arguments tc) = None;
  snd_answered i m calls tc : ms !! i = Some m → role m = "assistant" → tool_calls m = Some calls → tc ∈ calls →
    ∃ j r, i < j ∧ ms !! j = Some r ∧ is_result r = true ∧ tool_call_id r = tc_id tc
           ∧ ∀ k x, i < k → k < j → ms !! k = Some x → ends_turn x = false;
}.

Lemma found_result_spec id later :
  found_result id later = true ↔
  ∃ j r, later !! j = Some r ∧ is_result r = true ∧ tool_call_id r = id ∧ ∀ k x, k < j → later !! k = Some x → ends_turn x = false.
Proof.
  induction later as [|m later IH]; simpl.
  { split; [done|]. by intros (j & r & ? & _). }
  destruct (is_result m && bool_decide (tool_call_id m = id)) eqn:Hm.
  - split; [|done]. intros _. apply andb_true_iff in Hm as [Hr Hid%bool_decide_eq_true]. exists 0, m. split_and!; [done..|]. intros k x Hk. lia.
  - destruct (ends_turn m) eqn:He; [split; [done|]|rewrite IH; split].
    + intros ([|j] & r & Hj & Hr & Hid & Hbefore); [|by rewrite (Hbefore 0 m ltac:(lia) eq_refl) in He].
      injection Hj as ->. by rewrite Hr, bool_decide_eq_true_2 in Hm.
    + intros (j & r & Hj & Hr & Hid & Hbefore). exists (S j), r. split_and!; [done..|]. intros [|k] x Hk Hx; [by injection Hx as <-|].
      apply (Hbefore k x); [lia|done].
    + intros ([|j] & r & Hj & Hr & Hid & Hbefore).
      * injection Hj as ->. by rewrite Hr, bool_decide_eq_true_2 in Hm.
      * exists j, r. split_and!; [done..|]. intros k x Hk Hx. apply (Hbefore (S k) x); [lia|done].
Qed.

Lemma first_bad_arguments_spec n ms :
  first_bad_arguments json_error n ms = None ↔
  ∀ m calls tc, m ∈ ms → tool_calls m = Some calls → tc ∈ calls → parse_args json_error (tc_arguments tc) = None.
Proof.
  revert n. induction ms as [|m ms IH]; intros n; simpl; [split; [by intros _ ? ? ? ?%not_elem_of_nil|done]|].
  destruct (list_find _ (default [] (tool_calls m))) as [[k tc]|] eqn:E.
  - split; [done|]. intros H. apply list_find_Some in E as (Hl & [e He] & _).
    destruct (tool_calls m) as [calls|] eqn:Hc; [|by destruct k].
    rewrite (H m calls tc ltac:(by left) Hc) in He; [done|by eapply list_elem_of_lookup_2].
  - apply list_find_None in E. rewrite Forall_forall in E. rewrite IH. split.
    + intros H x calls tc [->|Hx]%elem_of_cons Hc Htc; [|by eapply H]. apply eq_None_not_Some, E. by rewrite Hc.
    + intros H x calls tc Hx. apply H. by right.
Qed.

Lemma first_unresponded_spec n ms :
  first_unresponded n ms = None ↔
  ∀ i m calls tc, ms !! i = Some m → role m = "assistant" → tool_calls m = Some calls → tc ∈ calls →
    found_result (tc_id tc) (drop (S i) ms) = true.
Proof.
  revert n. induction ms as [|m ms IH]; intros n; simpl; [split; [done|done]|].
  destruct (if bool_decide (role m = "assistant") then _ else None) as [[k tc]|] eqn:E.
  - split; [done|]. intros H. case_bool_decide as Hr; [|done]. apply list_find_Some in E as (Hl & Hf & _).
    destruct (tool_calls m) as [calls|] eqn:Hc; [|by destruct k].
    specialize (H 0 m calls tc eq_refl Hr Hc ltac:(by eapply list_elem_of_lookup_2)). rewrite drop_0 in H. congruence.
  - rewrite IH. split.
    + intros H [|i] x calls tc Hi Hr Hc Htc; [|by eapply H]. injection Hi as <-. rewrite bool_decide_eq_true_2 in E by done.
      apply list_find_None in E. rewrite Forall_forall, Hc in E. rewrite drop_0. apply not_false_iff_true. by apply E.
    + intros H i x calls tc Hi. by apply (H (S i)).
Qed.

(** The validator decides what can be sent. *)
Lemma validate_decides ms out : validate_chat_history json_error ms = Ok out ↔ out = ms ∧ sendable ms.
Proof.
  assert (validate_chat_history_slice json_error ms = Ok () ↔ sendable ms) as Hs.
  2: { unfold validate_chat_history. rewrite <- Hs. destruct (validate_chat_history_slice json_error ms) as [[]|e]; cbn [result_bind];
       [split; [by intros [= ->]|by intros [-> _]]|by split; [|intros [_ ?]]]. }
  transitivity ((∃ first, head ms = Some first ∧ is_prompt_anchor first = true)
                ∧ first_bad_arguments json_error 0 ms = None ∧ first_unresponded 0 ms = None).
  - unfold validate_chat_history_slice. destruct ms as [|first ms]; [split; [done|by intros [(? & ? & _) _]]|].
    destruct (is_prompt_anchor first) eqn:Hf; cbn [existsb]; rewrite Hf; cbn [negb orb].
    + destruct (first_bad_arguments _ _ _); [split; [done|by intros (_ & ? & _)]|].
      destruct (first_unresponded _ _); [split; [done|by intros (_ & _ & ?)]|]. split; [|done]. intros _. split; [by exists first|done].
    + split; [by destruct (negb _)|]. intros [(x & [= <-] & Hx) _]. congruence.
  - rewrite first_bad_arguments_spec, first_unresponded_spec. setoid_rewrite found_result_spec. split.
    + intros (H1 & H2 & H3). split; [done|done|]. intros i m calls tc Hi Hr Hc Htc.
      destruct (H3 i m calls tc Hi Hr Hc Htc) as (j & r & Hj & Hres & Hid & Hb). rewrite lookup_drop in Hj.
      exists (S i + j), r. split_and!; [lia|done..|]. intros k x Hk Hkj Hx. apply (Hb (k - S i) x); [lia|].
      rewrite lookup_drop. rewrite <- Hx. f_equal. lia.
    + intros [H1 H2 H3]. split_and!; [done|done|]. intros i m calls tc Hi Hr Hc Htc.
      destruct (H3 i m calls tc Hi Hr Hc Htc) as (j & r & Hij & Hj & Hres & Hid & Hb). exists (j - S i), r. rewrite lookup_drop.
      split_and!; [by rewrite <- Hj; f_equal; lia|done..|]. intros k x Hk Hx. rewrite lookup_drop in Hx. apply (Hb (S i + k) x); [lia|lia|done].
Qed.

Lemma repaired_outcome ms max_new_tokens :
  (∀ a, json_error a = None → json_error (trim a) = None) → json_error (lit "{}") = None →
  results_do_not_call ms → distinct_calls ms →
  ∃ out, paired out ∧ (fix_and_limit_messages_history json_error ms max_new_tokens).1 = outcome out
    ∧ ∀ first rest, ms = first :: rest → is_prompt_anchor first = true → tool_calls first = None → head out = Some first.
Proof.
  intros Htrim Hempty Hrc Hd. unfold fix_and_limit_messages_history, replace_broken_tool_call_messages.
  set (last := default 0 _). pose proof (replace_broken_from_ok last 0 max_new_tokens 16000 ms) as Hmend.
  destruct (replace_broken_from json_error last 0 max_new_tokens 16000 ms) as [ms1 max'] eqn:Hrep. simpl in Hmend |- *.
  destruct (repair_pairs ms1 (mended_results _ _ Hmend Hrc)) as (Hp & Hsub & _ & _). clear Hrc.
  set (ms2 := remove_invalid_tool_calls_and_tool_calls_results (R:=R) ms1) in *.
  exists (relocate_tool_results_after_their_calls (R:=R) ms2). split_and!.
  - by rewrite relocate_perm.
  - assert (first_unresponded 0 (relocate_tool_results_after_their_calls (R:=R) ms2) = None) as Hu.
    { apply relocated_responded; [done|]. eapply sublist_distinct; [exact Hsub|]. by eapply mended_distinct. }
    assert (first_bad_arguments json_error 0 (relocate_tool_results_after_their_calls (R:=R) ms2) = None) as Hb.
    { apply first_bad_arguments_None; [done..|]. intros m Hm. rewrite relocate_perm in Hm.
      assert (m ∈ ms1) as (i & Hi)%list_elem_of_lookup by (by eapply sublist_subseteq).
      destruct (Forall2_lookup_r _ _ _ _ _ Hmend Hi) as (m0 & _ & [[-> ?]|(Hn & _)]); [done|]. intros calls tc H. congruence. }
    unfold validate_chat_history, validate_chat_history_slice, outcome. rewrite Hb, Hu.
    destruct (relocate_tool_results_after_their_calls (R:=R) ms2) as [|first out]; [done|].
    destruct (is_prompt_anchor first) eqn:Hf; simpl; rewrite Hf; simpl; [done|]. by destruct (existsb is_prompt_anchor out).
  - intros first rest -> Ha Hc. destruct (anchor_plain first Ha Hc) as [Hpl Hr].
    inversion Hmend as [|? first' ? rest1 Hm1 _ E1 E2]; subst.
    assert (first' = first) as -> by (by destruct Hm1 as [[-> _]|(_ & _ & ?)]).
    destruct (filter_head_plain _ first rest1 Hpl eq_refl) as [rest2 E]. unfold ms2. rewrite E.
    destruct (relocate_head first rest2 Hr) as [rest3 ->]. done.
Qed.

(** C32. What the repairs of a history return can be sent: it begins with a prompt message, the arguments of every
    call can be read, and every call of an assistant is answered before the next turn; this is what the
    validator decides, for any messages.  And the repairs succeed: if results carry no calls and each call of
    an assistant has an id of its own (and the JSON parser accepts the empty object, and an object with the
    white space around it trimmed), what they return is paired, and it is refused only for the role of
    its first message, which is that of the history when that begins with a prompt message that does not call. *)
Theorem fixed_history_is_sendable ms max_new_tokens :
  (∀ l out, validate_chat_history json_error l = Ok out ↔ out = l ∧ sendable l)
  ∧ (∀ out, (fix_and_limit_messages_history json_error ms max_new_tokens).1 = Ok out → sendable out)
  ∧ ((∀ a, json_error a = None → json_error (trim a) = None) → json_error (lit "{}") = None →
     results_do_not_call ms → distinct_calls ms →
     ∃ out, paired out ∧ (fix_and_limit_messages_history json_error ms max_new_tokens).1 = outcome out
       ∧ ∀ first rest, ms = first :: rest → is_prompt_anchor first = true → tool_calls first = None → head out = Some first).
Proof.
  split; [apply validate_decides|]. split; [|apply repaired_outcome]. intros out.
  unfold fix_and_limit_messages_history. destruct (replace_broken_tool_call_messages _ _ _ _) as [ms1 max']. cbn [fst].
  by intros [-> ?]%validate_decides.
Qed.
End history.

(** ** Chat history: concrete conversations *)


Definition msg (r : string) (calls : option (list ChatToolCall)) (id : string) : ChatMessage unit := {|
  role := r; content := SimpleText []; finish_reason := None; tool_calls := calls; tool_call_id := id; other_fields := () |}.
Definition call (id args : string) : ChatToolCall := {| tc_id := id; tc_name := lit "cat"; tc_arguments := lit args |}.
(** An object is accepted from its brace on. *)
Definition object_error (a : text) : option text :=
  if starts_with (lit "{") (trim a) then None else Some (lit "expected value").

(** A result behind a user message, an unanswered call, an answer to nobody, a repeated answer. *)
Definition conversation : list (ChatMessage unit) :=
  [msg "user" None ""; msg "assistant" (Some [call "a" "{}"; call "b" " {} "]) ""; msg "tool" None "a";
   msg "user" None ""; msg "tool" None "b"; msg "tool" None "b"; msg "context_file" None "a"; msg "context_file" None "x";
   msg "assistant" (Some [call "c" "{}"]) ""; msg "assistant" (Some [call "d" "oops"]) ""; msg "diff" None "d"].
Definition roles_of {R} (ms : list (ChatMessage R)) : list (string * string) := (λ m, (role m, tool_call_id m)) <$> ms.

Example repaired_conversation :
  match (fix_and_limit_messages_history object_error conversation 4096).1 with
  | Ok out => roles_of out
  | Err _ => []
  end = [("user", ""); ("assistant", ""); ("tool", "a"); ("tool", "b"); ("context_file", "a"); ("user", "");
         ("cd_instruction", "")].
Proof. vm_compute. reflexivity. Qed.

Lemma conversation_results : results_do_not_call conversation.
Proof.
  assert (forallb (λ m, negb (is_result m) || bool_decide (tool_calls m = None)) conversation = true) as H by (vm_compute; reflexivity).
  intros m Hm Hr. apply (proj1 (forallb_elem _ _) H) in Hm. rewrite Hr in Hm. simpl in Hm. by apply bool_decide_eq_true in Hm.
Qed.

Lemma first_repair_pairs_witness : paired (remove_invalid_tool_calls_and_tool_calls_results conversation).
Proof. exact (proj1 (first_repair_pairs conversation conversation_results)). Defined.

Lemma fixed_history_is_sendable_witness :
  (∃ out, (fix_and_limit_messages_history object_error conversation 4096).1 = Ok out ∧ sendable object_error out)
  ∧ ∃ out, paired out ∧ (fix_and_limit_messages_history object_error conversation 4096).1 = outcome out.
Proof.
  assert (∀ a, object_error a = None → object_error (trim a) = None) as Ht by (intros a; unfold object_error; by rewrite trim_idem).
  assert (distinct_calls conversation) as Hd by (apply (bool_decide_unpack _); vm_compute; exact I).
  destruct (fixed_history_is_sendable object_error conversation 4096) as (_ & H1 & H2). split.
  - destruct (fix_and_limit_messages_history object_error conversation 4096).1 as [out|e] eqn:E; [|exfalso; vm_compute in E; discriminate].
    exists out. split; [reflexivity|]. by apply H1.
  - destruct (H2 Ht eq_refl conversation_results Hd) as (out & H3 & H4 & _). exists out. exact (conj H3 H4).
Defined.

(** Two calls of different turns with one id, each answered: the first answer is removed as a
    duplicate, and the history cannot be sent. *)
Definition reused_id : list (ChatMessage unit) :=
  [msg "user" None ""; msg "assistant" (Some [call "a" "{}"]) ""; msg "tool" None "a"; msg "user" None "";
   msg "assistant" (Some [call "a" "{}"]) ""; msg "tool" None "a"].
Lemma reused_ids_are_refused :
  validate_chat_history object_error reused_id = Ok reused_id ∧
  (fix_and_limit_messages_history object_error reused_id 4096).1 = Err (Unresponded 1 "a").
Proof. split; vm_compute; reflexivity. Qed.
