(* ===== verification/SubGoal.v ===== *)
(** * Sub-goals

    [refact-chat-api/src/sub_goal.rs]: the lanes declared under a goal form a graph; a
    declaration is validated before it is recorded, and the reports of the lanes are
    rolled up for their parent. *)

From stdpp Require Import gmap strings list pretty.
From S2P Require Import Prelude.

(** ** Data *)

Definition ROOT_SUB_GOAL_ID : string := "goal".
Definition DEFAULT_SUB_GOAL_MAX_DEPTH : nat := 4.
Definition DEFAULT_SUB_GOAL_MAX_FAN_OUT : nat := 16.

Record SubGoalOwner := { so_runtime : string; so_id : string }.
Definition display_SubGoalOwner (o : SubGoalOwner) : string := so_runtime o +:+ ":" +:+ so_id o.

Inductive SubGoalEdgeKind := Required | Optional.
Definition is_required (k : SubGoalEdgeKind) : bool := match k with Required => true | Optional => false end.
Definition edge_kind_label (k : SubGoalEdgeKind) : string :=
  match k with Required => "required" | Optional => "optional" end.

Inductive SubGoalOutcome := NotRun | Dispatched | Met | Failed | Blocked | Superseded.
#[global] Instance SubGoalOutcome_eq_dec : EqDecision SubGoalOutcome.
Proof. solve_decision. Defined.
Definition is_met (o : SubGoalOutcome) : bool := match o with Met => true | _ => false end.
Definition outcome_label (o : SubGoalOutcome) : string :=
  match o with
  | NotRun => "not_run" | Dispatched => "dispatched" | Met => "met"
  | Failed => "failed" | Blocked => "blocked" | Superseded => "superseded"
  end.

Record SubGoalNode := {
  sn_id : string;
  title : string;
  owner : option SubGoalOwner;
  criterion_ids : list string;
}.
Record SubGoalEdge := { parent_id : string; child_id : string; edge_kind : SubGoalEdgeKind }.

Inductive VerdictSource := Judged | Measured.
Record CriterionEvidence := {
  spec_id : string;
  command : string;
  exit_code : option Z;
  ce_verdict : string;
}.
Record CriterionVerdict := {
  cv_id : string;
  met : bool;
  note : string;
  source : VerdictSource;
  evidence : option CriterionEvidence;
}.
Record SubGoalReport := {
  claimed_outcome : SubGoalOutcome;
  criteria_verdicts : list CriterionVerdict;
  result_summary : string;
  reported_at_ms : N;
}.
Definition met_verdict (r : SubGoalReport) (criterion_id : string) : bool :=
  existsb (λ v, bool_decide (cv_id v = criterion_id) && met v) (criteria_verdicts r).

Record SubGoalDeclaration := { d_nodes : list SubGoalNode; d_edges : list SubGoalEdge }.
Inductive SubGoalDeclarationError :=
  | EmptyNodeId
  | ReservedNodeId (node_id : string)
  | DuplicateNode (node_id : string)
  | UnknownNode (parent child missing : string)
  | SelfEdge (node_id : string)
  | Cycle (participants : list string)
  | DepthExceeded (node_id : string) (depth max_depth : nat)
  | FanOutExceeded (parent : string) (fan_out max_fan_out : nat).
Definition show_nat (n : nat) : string := pretty (N.of_nat n).
Definition display_SubGoalDeclarationError (e : SubGoalDeclarationError) : string :=
  match e with
  | EmptyNodeId => "sub-goal id must not be empty"
  | ReservedNodeId node_id => "sub-goal id '" +:+ node_id +:+ "' is reserved for the top-level goal"
  | DuplicateNode node_id => "sub-goal '" +:+ node_id +:+ "' is already declared"
  | UnknownNode parent child missing =>
      "edge " +:+ parent +:+ " -> " +:+ child +:+ " names undeclared sub-goal '" +:+ missing +:+ "'"
  | SelfEdge node_id => "sub-goal '" +:+ node_id +:+ "' cannot depend on itself"
  | Cycle participants => "sub-goal cycle rejected: " +:+ String.concat " -> " participants
  | DepthExceeded node_id depth max_depth =>
      "sub-goal '" +:+ node_id +:+ "' sits at depth " +:+ show_nat depth +:+ ", over the limit of " +:+ show_nat max_depth
  | FanOutExceeded parent fan_out max_fan_out =>
      "sub-goal '" +:+ parent +:+ "' would own " +:+ show_nat fan_out +:+ " children, over the limit of "
      +:+ show_nat max_fan_out
  end.

Record SubGoalLimits := { max_depth : nat; max_fan_out : nat }.
Definition default_limits : SubGoalLimits := {|
  max_depth := DEFAULT_SUB_GOAL_MAX_DEPTH; max_fan_out := DEFAULT_SUB_GOAL_MAX_FAN_OUT |}.

Record SubGoalNodeState := {
  node : SubGoalNode;
  dispatched : bool;
  superseded : option string;
  report : option SubGoalReport;
}.
Record SubGoalGraph := { nodes : list SubGoalNodeState; edges : list SubGoalEdge }.
Definition empty_graph : SubGoalGraph := {| nodes := []; edges := [] |}.

Definition node_id_of (s : SubGoalNodeState) : string := sn_id (node s).
Definition find_node (g : SubGoalGraph) (node_id : string) : option SubGoalNodeState :=
  snd <$> list_find (λ s, node_id_of s = node_id) (nodes g).

(** ** Validation of a declaration *)

Fixpoint check_nodes (known : gset string) (ns : list SubGoalNode) : result (gset string) SubGoalDeclarationError :=
  match ns with
  | [] => Ok known
  | n :: ns =>
      if bool_decide (sn_id n = "") then Err EmptyNodeId
      else if bool_decide (sn_id n = ROOT_SUB_GOAL_ID) then Err (ReservedNodeId (sn_id n))
      else if bool_decide (sn_id n ∈ known) then Err (DuplicateNode (sn_id n))
      else check_nodes ({[sn_id n]} ∪ known) ns
  end.

Definition add_child (adjacency : gmap string (list string)) (e : SubGoalEdge) : gmap string (list string) :=
  let children := default [] (adjacency !! parent_id e) in
  <[parent_id e := if bool_decide (child_id e ∈ children) then children else children ++ [child_id e]]> adjacency.

Fixpoint check_edges (known : gset string) (adjacency : gmap string (list string)) (es : list SubGoalEdge)
  : result (gmap string (list string)) SubGoalDeclarationError :=
  match es with
  | [] => Ok adjacency
  | e :: es =>
      if bool_decide (parent_id e = child_id e) then Err (SelfEdge (parent_id e))
      else match list_find (λ endpoint, endpoint ∉ known) [parent_id e; child_id e] with
           | Some (_, missing) => Err (UnknownNode (parent_id e) (child_id e) missing)
           | None => check_edges known (add_child adjacency e) es
           end
  end.

Inductive Mark := Open | Done.

(** The walk from one node: a cycle, or the marks after it.  [fuel] bounds the depth of the
    recursion; [None] is fuel that ran out. *)
Fixpoint walk (fuel : nat) (adjacency : gmap string (list string)) (node : string)
    (marks : gmap string Mark) (stack : list string) : option (result (gmap string Mark) (list string)) :=
  match fuel with
  | O => None
  | S fuel =>
      match marks !! node with
      | Some Done => Some (Ok marks)
      | Some Open =>
          let start := default 0 (fst <$> list_find (λ entry, entry = node) stack) in
          Some (Err (drop start stack ++ [node]))
      | None =>
          let visit :=
            fix visit (children : list string) (marks : gmap string Mark) :=
              match children with
              | [] => Some (Ok (<[node := Done]> marks))
              | child :: children =>
                  match walk fuel adjacency child marks (stack ++ [node]) with
                  | Some (Ok marks) => visit children marks
                  | other => other
                  end
              end in
          visit (default [] (adjacency !! node)) (<[node := Open]> marks)
      end
  end.
Fixpoint walk_all (fuel : nat) (adjacency : gmap string (list string)) (parents : list string)
    (marks : gmap string Mark) : option (result (gmap string Mark) (list string)) :=
  match parents with
  | [] => Some (Ok marks)
  | parent :: parents =>
      match walk fuel adjacency parent marks [] with
      | Some (Ok marks) => walk_all fuel adjacency parents marks
      | other => other
      end
  end.
(** [Some (Some participants)] is a cycle. *)
Definition first_cycle (adjacency : gmap string (list string)) : option (option (list string)) :=
  r ← walk_all (S (S (size adjacency))) adjacency (btree_list adjacency).*1 ∅;
  Some (match r with Ok _ => None | Err participants => Some participants end).

Definition relax_child (candidate : nat) (acc : gmap string nat * bool) (child : string) : gmap string nat * bool :=
  let '(depths, changed) := acc in
  match depths !! child with
  | Some existing => if existing <? candidate then (<[child := candidate]> depths, true) else (depths, changed)
  | None => (<[child := candidate]> depths, true)
  end.
Definition relax_parent (acc : gmap string nat * bool) (p : string * list string) : gmap string nat * bool :=
  match acc.1 !! p.1 with
  | None => acc
  | Some parent_depth => foldl (relax_child (parent_depth + 1)) acc p.2
  end.
Fixpoint relax_rounds (rounds : nat) (adjacency : gmap string (list string)) (depths : gmap string nat)
  : gmap string nat :=
  match rounds with
  | O => depths
  | S rounds =>
      let '(depths, changed) := foldl relax_parent (depths, false) (btree_list adjacency) in
      if changed then relax_rounds rounds adjacency depths else depths
  end.
Definition total_edges (adjacency : gmap string (list string)) : nat :=
  sum_list (length <$> (btree_list adjacency).*2).
Definition longest_depths (adjacency : gmap string (list string)) : gmap string nat :=
  delete ROOT_SUB_GOAL_ID
    (relax_rounds (S (total_edges adjacency)) adjacency {[ROOT_SUB_GOAL_ID := 0]}).

Definition check_fan_out (limits : SubGoalLimits) (adjacency : gmap string (list string))
  : result unit SubGoalDeclarationError :=
  match list_find (λ p, max_fan_out limits < length p.2) (btree_list adjacency) with
  | Some (_, (parent, children)) => Err (FanOutExceeded parent (length children) (max_fan_out limits))
  | None => Ok ()
  end.
Definition check_depths (limits : SubGoalLimits) (adjacency : gmap string (list string))
  : result unit SubGoalDeclarationError :=
  match list_find (λ p, max_depth limits < p.2) (btree_list (longest_depths adjacency)) with
  | Some (_, (node_id, depth)) => Err (DepthExceeded node_id depth (max_depth limits))
  | None => Ok ()
  end.

Definition known_ids (g : SubGoalGraph) : gset string :=
  {[ROOT_SUB_GOAL_ID]} ∪ list_to_set (node_id_of <$> nodes g).

(** An outer [None] is fuel that ran out. *)
Definition validate_declaration (g : SubGoalGraph) (d : SubGoalDeclaration) (limits : SubGoalLimits)
  : option (result unit SubGoalDeclarationError) :=
  match (let? known := check_nodes (known_ids g) (d_nodes d) in
         check_edges known ∅ (edges g ++ d_edges d)) with
  | Err e => Some (Err e)
  | Ok adjacency =>
      cycle ← first_cycle adjacency;
      Some (match cycle with
            | Some participants => Err (Cycle participants)
            | None =>
                let? _ := check_fan_out limits adjacency in
                check_depths limits adjacency
            end)
  end.

(** ** Replay *)

Definition apply_node (ns : list SubGoalNodeState) (n : SubGoalNode) : list SubGoalNodeState :=
  if bool_decide (sn_id n = "") || bool_decide (sn_id n = ROOT_SUB_GOAL_ID)
     || existsb (λ s, bool_decide (node_id_of s = sn_id n)) ns
  then ns
  else ns ++ [{| node := n; dispatched := false; superseded := None; report := None |}].
Definition apply_edge (es : list SubGoalEdge) (e : SubGoalEdge) : list SubGoalEdge :=
  if existsb (λ x, bool_decide (parent_id x = parent_id e) && bool_decide (child_id x = child_id e)) es
  then es else es ++ [e].
Definition apply_declaration (d : SubGoalDeclaration) (g : SubGoalGraph) : SubGoalGraph :=
  {| nodes := foldl apply_node (nodes g) (d_nodes d); edges := foldl apply_edge (edges g) (d_edges d) |}.

(** [node_mut]: the first node of the id. *)
Fixpoint alter_node (f : SubGoalNodeState → SubGoalNodeState) (node_id : string) (ns : list SubGoalNodeState)
  : list SubGoalNodeState :=
  match ns with
  | [] => []
  | s :: ns => if bool_decide (node_id_of s = node_id) then f s :: ns else s :: alter_node f node_id ns
  end.
Definition with_nodes (f : list SubGoalNodeState → list SubGoalNodeState) (g : SubGoalGraph) : SubGoalGraph :=
  {| nodes := f (nodes g); edges := edges g |}.

Definition mark_dispatched (node_id : string) (o : option SubGoalOwner) : SubGoalGraph → SubGoalGraph :=
  with_nodes (alter_node (λ s, {|
    node := match o with
            | Some _ => {| sn_id := sn_id (node s); title := title (node s); owner := o;
                           criterion_ids := criterion_ids (node s) |}
            | None => node s
            end;
    dispatched := true; superseded := superseded s; report := report s |}) node_id).
Definition record_report (node_id : string) (r : SubGoalReport) : SubGoalGraph → SubGoalGraph :=
  with_nodes (alter_node (λ s, {|
    node := node s; dispatched := true; superseded := superseded s; report := Some r |}) node_id).
Definition supersede (node_id reason : string) : SubGoalGraph → SubGoalGraph :=
  with_nodes (alter_node (λ s, {|
    node := node s; dispatched := dispatched s; superseded := Some reason; report := report s |}) node_id).

(** ** Rolling up *)

Record SubGoalLane := {
  lane_node_id : string;
  lane_title : string;
  lane_kind : SubGoalEdgeKind;
  lane_owner : option SubGoalOwner;
  lane_outcome : SubGoalOutcome;
  lane_dispatched : bool;
  unmet_criteria : list string;
  lane_reason_text : string;
}.
Record SubGoalRollup := { required_total : nat; required_met : nat; lanes : list SubGoalLane }.

Definition blocking (r : SubGoalRollup) : list SubGoalLane :=
  filter (λ lane, is_required (lane_kind lane) && negb (is_met (lane_outcome lane)) = true) (lanes r).
Definition parent_may_proceed (r : SubGoalRollup) : bool := bool_decide (length (blocking r) = 0).
Definition reasons (r : SubGoalRollup) : list string := lane_reason_text <$> blocking r.
Definition optional_lanes (r : SubGoalRollup) : list SubGoalLane :=
  filter (λ lane, negb (is_required (lane_kind lane)) = true) (lanes r).

(** Each criterion is named once. *)
Definition push_new (l : list string) (id : string) : list string :=
  if bool_decide (id ∈ l) then l else l ++ [id].
Definition unmet_of (s : SubGoalNodeState) (r : SubGoalReport) : list string :=
  let unmet := foldl (λ l v, if met v then l else push_new l (cv_id v)) [] (criteria_verdicts r) in
  foldl (λ l id, if met_verdict r id then l else push_new l id) unmet (criterion_ids (node s)).

Definition sub_goal_effective_outcome (s : SubGoalNodeState) : SubGoalOutcome * list string :=
  match superseded s with
  | Some _ => (Superseded, [])
  | None =>
      match report s with
      | None => (if dispatched s then Dispatched else NotRun, criterion_ids (node s))
      | Some r =>
          let unmet := unmet_of s r in
          if bool_decide (unmet ≠ []) then (Failed, unmet)
          else (match claimed_outcome r with
                | Met => Met
                | NotRun | Dispatched => Dispatched
                | other => other
                end, [])
      end
  end.

Definition lane_reason (ttl node_id : string) (k : SubGoalEdgeKind) (o : SubGoalOutcome) (unmet : list string)
  : string :=
  let name := if bool_decide (ttl = "") then node_id else ttl in
  let lane := edge_kind_label k +:+ " sub-goal '" +:+ name +:+ "' " in
  match o with
  | Met => lane +:+ "is met"
  | NotRun => lane +:+ "was never dispatched [not_run] — this is not a result"
  | Dispatched => lane +:+ "is still running and has reported no verdict"
  | Blocked => lane +:+ "reported blocked"
  | Superseded => lane +:+ "was superseded"
  | Failed =>
      if bool_decide (unmet = []) then lane +:+ "reported failed"
      else lane +:+ "failed criteria: " +:+ String.concat ", " unmet
  end.

Definition add_lane (g : SubGoalGraph) (r : SubGoalRollup) (e : SubGoalEdge) : SubGoalRollup :=
  match find_node g (child_id e) with
  | None => r
  | Some s =>
      let '(o, unmet) := sub_goal_effective_outcome s in
      let req := is_required (edge_kind e) in
      {| required_total := if req then S (required_total r) else required_total r;
         required_met := if req && is_met o then S (required_met r) else required_met r;
         lanes := lanes r ++ [{|
           lane_node_id := node_id_of s; lane_title := title (node s); lane_kind := edge_kind e;
           lane_owner := owner (node s); lane_outcome := o; lane_dispatched := dispatched s;
           unmet_criteria := unmet;
           lane_reason_text := lane_reason (title (node s)) (node_id_of s) (edge_kind e) o unmet |}] |}
  end.
Definition aggregate_sub_goals (g : SubGoalGraph) (parent : string) : SubGoalRollup :=
  foldl (add_lane g) {| required_total := 0; required_met := 0; lanes := [] |}
    (filter (λ e, parent_id e = parent) (edges g)).
