(* ===== verification/SubGoalProps.v ===== *)
(** * Properties of sub-goals

    The validation of a declaration decides whether the lanes form a bounded acyclic graph, the
    recorded graph stays one, and a parent proceeds exactly when its required lanes are met. *)

From stdpp Require Import gmap strings list sets relations.
From S2P Require Import Prelude SubGoal.

Section graph.
Context (adjacency : gmap string (list string)).

Definition arrow (p c : string) : Prop := c ∈ default [] (adjacency !! p).
Definition linked (l : list string) : Prop := ∀ i a b, l !! i = Some a → l !! S i = Some b → arrow a b.
Definition is_cycle (l : list string) : Prop := ∃ n m, l = n :: m ++ [n] ∧ linked l.

Lemma arrow_dom p c : arrow p c → p ∈ dom adjacency.
Proof. unfold arrow. intros H. apply elem_of_dom. destruct (adjacency !! p); [by eexists|by apply not_elem_of_nil in H]. Qed.

(** ** The search for a cycle *)

Record walk_inv (marks : gmap string Mark) (stack : list string) : Prop := {
  wi_open n : marks !! n = Some Open ↔ n ∈ stack;
  wi_distinct : NoDup stack;
  wi_linked : linked stack;
  wi_closed n c : marks !! n = Some Done → arrow n c → marks !! c = Some Done;
  wi_acyclic n : marks !! n = Some Done → ¬ tc arrow n n;
}.

Lemma linked_snoc l n : linked l → (∀ x, last l = Some x → arrow x n) → linked (l ++ [n]).
Proof.
  intros Hl Hlast i a b Ha Hb. destruct (decide (S i < length l)) as [Hlt|Hge].
  - rewrite lookup_app_l in Ha, Hb by lia. by eapply Hl.
  - apply lookup_lt_Some in Hb as Hlen. rewrite length_app in Hlen. simpl in Hlen. assert (S i = length l) as Hi by lia.
    rewrite lookup_app_l in Ha by lia. rewrite lookup_app_r, Hi, Nat.sub_diag in Hb by lia. injection Hb as <-.
    apply Hlast. rewrite last_lookup, <- Hi. done.
Qed.

Lemma linked_drop l k : linked l → linked (drop k l).
Proof. intros Hl i a b. rewrite !lookup_drop. replace (k + S i) with (S (k + i)) by lia. apply Hl. Qed.

(** All that is open has a child, hence the bound on the depth of the recursion. *)
Lemma stack_bound stack n :
  NoDup stack → linked stack → (∀ x, last stack = Some x → arrow x n) → length stack ≤ size adjacency.
Proof.
  intros Hnd Hl Hlast. rewrite <- size_dom.
  transitivity (size (list_to_set stack : gset string)); [by rewrite size_list_to_set|]. apply subseteq_size.
  intros x (i & Hi)%elem_of_list_to_set%list_elem_of_lookup. destruct (stack !! S i) as [y|] eqn:Hy; [by eapply arrow_dom, Hl|].
  eapply arrow_dom, Hlast. apply lookup_ge_None in Hy. apply lookup_lt_Some in Hi as Hlt. rewrite last_lookup, <- Hi. f_equal. lia.
Qed.

Lemma done_reaches marks stack n m :
  walk_inv marks stack → marks !! n = Some Done → rtc arrow n m → marks !! m = Some Done.
Proof. intros Hi Hn H. induction H as [|x y z Hxy _ IH]; [done|]. apply IH. by eapply wi_closed. Qed.

Lemma walk_inv_push marks stack n :
  walk_inv marks stack → marks !! n = None → (∀ x, last stack = Some x → arrow x n) →
  walk_inv (<[n := Open]> marks) (stack ++ [n]).
Proof.
  intros [Ho Hd Hl Hc Ha] Hn Hlast. assert (n ∉ stack) as Hns by (rewrite <- Ho, Hn; done). split.
  - intros x. rewrite elem_of_app, list_elem_of_singleton. destruct (decide (n = x)) as [<-|Hne].
    + rewrite lookup_insert_eq. split; [by right|done].
    + rewrite lookup_insert_ne, Ho by done. naive_solver.
  - apply NoDup_app. split_and!; [done| |apply NoDup_singleton]. intros x Hx ->%list_elem_of_singleton. done.
  - by apply linked_snoc.
  - intros x c [[_ ?]|[Hne Hx]]%lookup_insert_Some Hxc; [done|].
    rewrite lookup_insert_ne; [by eapply Hc|]. intros <-. by rewrite (Hc x n Hx Hxc) in Hn.
  - intros x [[_ ?]|[Hne Hx]]%lookup_insert_Some; [done|by apply Ha].
Qed.

Lemma walk_inv_pop marks stack n :
  walk_inv marks (stack ++ [n]) → (∀ c, arrow n c → marks !! c = Some Done) → walk_inv (<[n := Done]> marks) stack.
Proof.
  intros Hi Hch. pose proof Hi as [Ho Hd Hl Hc Ha]. apply NoDup_app in Hd as (Hd & Hns & _).
  assert (marks !! n = Some Open) as Hn by (apply Ho, elem_of_app; right; by left). split.
  - intros x. destruct (decide (n = x)) as [<-|Hne].
    + rewrite lookup_insert_eq. split; [done|]. intros Hx. by destruct (Hns n Hx (list_elem_of_here _ _)).
    + rewrite lookup_insert_ne, Ho, elem_of_app, list_elem_of_singleton by done. naive_solver.
  - done.
  - intros i a b Ha' Hb. eapply (Hl i); by apply lookup_app_l_Some.
  - intros x c Hx Hxc. destruct (decide (n = c)) as [<-|Hne]; [by rewrite lookup_insert_eq|]. rewrite lookup_insert_ne by done.
    apply lookup_insert_Some in Hx as [[<- _]|[_ Hx]]; [by apply Hch|by eapply Hc].
  - intros x [[<- _]|[_ Hx]]%lookup_insert_Some; [|by apply Ha]. intros Hcyc.
    assert (∃ c, arrow n c ∧ rtc arrow c n) as (c & Hnc & Hcn).
    { inversion Hcyc as [? ? H|? c ? H H']; subst; [by exists n|]. exists c. split; [done|by apply tc_rtc]. }
    pose proof (done_reaches _ _ _ _ Hi (Hch c Hnc) Hcn). congruence.
Qed.

Lemma found_cycle stack n :
  n ∈ stack → linked stack → (∀ x, last stack = Some x → arrow x n) →
  is_cycle (drop (default 0 (fst <$> list_find (λ entry, entry = n) stack)) stack ++ [n]).
Proof.
  intros Hn Hl Hlast. destruct (list_find (λ entry, entry = n) stack) as [[i x]|] eqn:Hf.
  2: { apply list_find_None in Hf. rewrite Forall_forall in Hf. by destruct (Hf n Hn). }
  apply list_find_Some in Hf as (Hi & -> & _). simpl. exists n, (drop (S i) stack).
  rewrite (drop_S _ _ _ Hi). split; [done|]. rewrite <- (drop_S _ _ _ Hi). apply linked_snoc; [by apply linked_drop|].
  intros y Hy. apply Hlast. rewrite <- Hy. apply lookup_lt_Some in Hi. rewrite !last_lookup, lookup_drop, length_drop. f_equal. lia.
Qed.

Lemma walk_ok fuel n marks stack :
  walk_inv marks stack → (∀ x, last stack = Some x → arrow x n) → size adjacency + 1 < length stack + fuel →
  ∃ r, walk fuel adjacency n marks stack = Some r ∧
    match r with
    | Ok marks' => walk_inv marks' stack ∧ marks' !! n = Some Done ∧ ∀ x, marks !! x = Some Done → marks' !! x = Some Done
    | Err participants => is_cycle participants
    end.
Proof.
  revert n marks stack. induction fuel as [|fuel IH]; intros n marks stack Hi Hlast Hfuel.
  { pose proof (stack_bound stack n (wi_distinct _ _ Hi) (wi_linked _ _ Hi) Hlast). lia. }
  simpl. destruct (marks !! n) as [[]|] eqn:Hn.
  - eexists. split; [done|]. simpl. apply found_cycle; [by apply (wi_open _ _ Hi)|apply Hi|done].
  - eexists. split; [done|]. simpl. by split_and!.
  - pose proof (walk_inv_push _ _ _ Hi Hn Hlast) as Hi1.
    assert (Hstart : ∀ c, c ∈ default [] (adjacency !! n) → c ∈ default [] (adjacency !! n) ∨ <[n:=Open]> marks !! c = Some Done) by (by left).
    assert (Hall : ∀ c, arrow n c → c ∈ default [] (adjacency !! n) ∨ <[n:=Open]> marks !! c = Some Done) by (by left).
    assert (Hold : ∀ x, marks !! x = Some Done → <[n:=Open]> marks !! x = Some Done).
    { intros x Hx. rewrite lookup_insert_ne; [done|]. intros <-. congruence. }
    clear Hstart. revert Hi1 Hall Hold. generalize (<[n:=Open]> marks) as m.
    assert (Hsub : ∀ c, c ∈ default [] (adjacency !! n) → arrow n c) by done. revert Hsub.
    generalize (default [] (adjacency !! n)) as children. induction children as [|c children IHc]; intros Hsub m Hi1 Hall Hold.
    + eexists. split; [done|]. simpl. assert (Hdone : ∀ c, arrow n c → m !! c = Some Done).
      { intros c Hc. destruct (Hall c Hc) as [H|H]; [by apply not_elem_of_nil in H|done]. }
      split_and!; [by apply walk_inv_pop|apply lookup_insert_eq|]. intros x Hx. rewrite lookup_insert_ne; [by apply Hold|].
      intros <-. congruence.
    + destruct (IH c m (stack ++ [n]) Hi1) as (r & -> & Hr).
      { intros x Hx. rewrite last_snoc in Hx. injection Hx as <-. apply Hsub. by left. }
      { rewrite length_app. simpl. lia. }
      destruct r as [m'|e]; [|by eexists]. destruct Hr as (Hi2 & Hc & Hmono).
      apply IHc; [intros; apply Hsub; by right|done| |].
      * intros x Hx. destruct (Hall x Hx) as [[->|H]%elem_of_cons|H]; [by right|by left|right; by apply Hmono].
      * intros x Hx. by apply Hmono, Hold.
Qed.

Lemma walk_all_ok parents marks :
  walk_inv marks [] →
  ∃ r, walk_all (S (S (size adjacency))) adjacency parents marks = Some r ∧
    match r with
    | Ok marks' => walk_inv marks' [] ∧ (∀ x, marks !! x = Some Done → marks' !! x = Some Done)
                   ∧ ∀ x, x ∈ parents → marks' !! x = Some Done
    | Err participants => is_cycle participants
    end.
Proof.
  revert marks. induction parents as [|p parents IH]; intros marks Hi.
  { eexists. split; [done|]. split_and!; [done|done|by intros x ?%not_elem_of_nil]. }
  cbn [walk_all]. destruct (walk_ok (S (S (size adjacency))) p marks [] Hi) as (r & -> & Hr); [done|simpl; lia|].
  destruct r as [m|e]; [|by eexists]. destruct Hr as (Hi' & Hp & Hmono). destruct (IH m Hi') as (r & -> & Hr).
  exists r. split; [done|]. destruct r as [m'|e]; [|done]. destruct Hr as (H1 & H2 & H3). split_and!; [done|auto|].
  intros x [->|Hx]%elem_of_cons; auto.
Qed.

(** The search ends, and finds a cycle exactly when there is one. *)
Lemma first_cycle_decides :
  ∃ r, first_cycle adjacency = Some r ∧
    match r with
    | Some participants => is_cycle participants
    | None => ∀ n, ¬ tc arrow n n
    end.
Proof.
  unfold first_cycle. destruct (walk_all_ok (btree_list adjacency).*1 ∅) as (r & -> & Hr).
  { split; [|constructor|by intros i a b|by intros n c ?%lookup_empty_Some|by intros n ?%lookup_empty_Some].
    intros n. rewrite lookup_empty. split; [done|by intros ?%not_elem_of_nil]. }
  simpl. eexists. split; [done|]. destruct r as [marks|e]; [|done]. destruct Hr as (Hi & _ & Hall). intros n Hn.
  apply (wi_acyclic _ _ Hi n); [|done]. apply Hall.
  assert (n ∈ dom adjacency) as [l Hl]%elem_of_dom by (inversion Hn; subst; by eapply arrow_dom).
  apply list_elem_of_fmap. exists (n, l). split; [done|]. by apply elem_of_btree_list.
Qed.

Lemma cycle_tc participants : is_cycle participants → ∃ n, tc arrow n n.
Proof.
  intros (n & m & -> & Hl). exists n. apply tc_nsteps. exists (S (length m)). split; [lia|]. apply nsteps_list.
  exists (n :: m ++ [n]). split_and!; [simpl; rewrite length_app; simpl; lia|done| |done].
  by rewrite app_comm_cons, last_snoc.
Qed.

(** ** Depths *)

(** Depths are lengths of paths from the root, and no arrow can raise one. *)
Definition witnessed (depths : gmap string nat) : Prop :=
  ∀ n d, depths !! n = Some d → nsteps arrow d ROOT_SUB_GOAL_ID n.
Definition deep (k : nat) (depths : gmap string nat) : Prop :=
  ∀ j n, j ≤ k → nsteps arrow j ROOT_SUB_GOAL_ID n → ∃ d, depths !! n = Some d ∧ j ≤ d.
Definition grown (depths depths' : gmap string nat) : Prop :=
  ∀ n d, depths !! n = Some d → ∃ d', depths' !! n = Some d' ∧ d ≤ d'.

#[local] Instance grown_preorder : PreOrder grown.
Proof.
  split; [by intros m n d H; exists d|]. intros m1 m2 m3 H12 H23 n d H.
  destruct (H12 n d H) as (d2 & H2 & ?). destruct (H23 n d2 H2) as (d3 & H3 & ?). exists d3. split; [done|lia].
Qed.

Lemma relax_child_ok candidate depths changed c :
  let '(depths', changed') := relax_child candidate (depths, changed) c in
  grown depths depths' ∧ (∃ d, depths' !! c = Some d ∧ candidate ≤ d)
  ∧ (changed' = false → depths' = depths ∧ changed = false)
  ∧ (witnessed depths → nsteps arrow candidate ROOT_SUB_GOAL_ID c → witnessed depths').
Proof.
  assert (Hput : (∀ d, depths !! c = Some d → d ≤ candidate) →
    grown depths (<[c := candidate]> depths) ∧ (∃ d, <[c := candidate]> depths !! c = Some d ∧ candidate ≤ d)
    ∧ (witnessed depths → nsteps arrow candidate ROOT_SUB_GOAL_ID c → witnessed (<[c := candidate]> depths))).
  { intros Hle. split_and!.
    - intros n d Hn. destruct (decide (c = n)) as [<-|Hne].
      + exists candidate. rewrite lookup_insert_eq. auto.
      + exists d. by rewrite lookup_insert_ne.
    - exists candidate. by rewrite lookup_insert_eq.
    - intros Hw Hc n d [[<- <-]|[_ Hn]]%lookup_insert_Some; [done|by apply Hw]. }
  unfold relax_child. destruct (depths !! c) as [existing|] eqn:Hc.
  - destruct (Nat.ltb_spec existing candidate).
    + destruct Hput as (H1 & H2 & H3); [intros d [= <-]; lia|]. by split_and!.
    + split_and!; [done|by exists existing|done|done].
  - destruct Hput as (H1 & H2 & H3); [done|]. by split_and!.
Qed.

Lemma relax_children_ok candidate cs depths changed :
  let '(depths', changed') := foldl (relax_child candidate) (depths, changed) cs in
  grown depths depths' ∧ (∀ c, c ∈ cs → ∃ d, depths' !! c = Some d ∧ candidate ≤ d)
  ∧ (changed' = false → depths' = depths ∧ changed = false)
  ∧ (witnessed depths → (∀ c, c ∈ cs → nsteps arrow candidate ROOT_SUB_GOAL_ID c) → witnessed depths').
Proof.
  revert depths changed. induction cs as [|c cs IH]; intros depths changed; cbn [foldl].
  { split_and!; [done|by intros c ?%not_elem_of_nil|done|done]. }
  pose proof (relax_child_ok candidate depths changed c) as Hc.
  destruct (relax_child candidate (depths, changed) c) as [d1 b1]. destruct Hc as (G1 & C1 & F1 & W1).
  specialize (IH d1 b1). destruct (foldl (relax_child candidate) (d1, b1) cs) as [d2 b2]. destruct IH as (G2 & C2 & F2 & W2).
  split_and!.
  - by etrans.
  - intros x [->|Hx]%elem_of_cons; [|by apply C2]. destruct C1 as (d & Hd & Hle). destruct (G2 _ _ Hd) as (d' & Hd' & ?).
    exists d'. split; [done|lia].
  - intros Hb. destruct (F2 Hb) as [-> Hb1]. by destruct (F1 Hb1) as [-> ->].
  - intros Hw Hall. apply W2; [apply W1; [done|]; apply Hall; by left|]. intros x Hx. apply Hall. by right.
Qed.

(** A round over the parents [ps]. *)
Lemma relax_parents_ok ps depths changed :
  (∀ p cs, (p, cs) ∈ ps → adjacency !! p = Some cs) →
  let '(depths', changed') := foldl relax_parent (depths, changed) ps in
  grown depths depths'
  ∧ (∀ p cs c d, (p, cs) ∈ ps → c ∈ cs → depths !! p = Some d → ∃ d', depths' !! c = Some d' ∧ d + 1 ≤ d')
  ∧ (changed' = false → depths' = depths ∧ changed = false)
  ∧ (witnessed depths → witnessed depths').
Proof.
  revert depths changed. induction ps as [|[p cs] ps IH]; intros depths changed Hadj; cbn [foldl].
  { split_and!; [done|by intros p cs c d ?%not_elem_of_nil|done|done]. }
  assert (Hstep : let '(d1, b1) := relax_parent (depths, changed) (p, cs) in grown depths d1
    ∧ (∀ c d, c ∈ cs → depths !! p = Some d → ∃ d', d1 !! c = Some d' ∧ d + 1 ≤ d')
    ∧ (b1 = false → d1 = depths ∧ changed = false) ∧ (witnessed depths → witnessed d1)).
  { unfold relax_parent. cbn [fst snd]. destruct (depths !! p) as [d|] eqn:Hp; [|by split_and!].
    pose proof (relax_children_ok (d + 1) cs depths changed) as Hc. destruct (foldl _ _ cs) as [d1 b1].
    destruct Hc as (G & C & F & W). split_and!; [done|intros c d' Hc [= <-]; by apply C|done|].
    intros Hw. apply W; [done|]. intros c Hc. replace (d + 1) with (S d) by lia. eapply nsteps_r; [by apply Hw|].
    unfold arrow. by rewrite (Hadj p cs (list_elem_of_here _ _)). }
  destruct (relax_parent (depths, changed) (p, cs)) as [d1 b1]. destruct Hstep as (G1 & C1 & F1 & W1).
  specialize (IH d1 b1 (λ p cs H, Hadj p cs (list_elem_of_further _ _ _ H))).
  destruct (foldl relax_parent (d1, b1) ps) as [d2 b2]. destruct IH as (G2 & C2 & F2 & W2). split_and!.
  - by etrans.
  - intros q qs c d Hq Hc Hd. apply elem_of_cons in Hq as [[= -> ->]|Hq].
    + destruct (C1 c d Hc Hd) as (d' & Hd' & ?). destruct (G2 _ _ Hd') as (d'' & Hd'' & ?). exists d''. split; [done|lia].
    + destruct (G1 _ _ Hd) as (d' & Hd' & ?). destruct (C2 q qs c d' Hq Hc Hd') as (d'' & Hd'' & ?). exists d''. split; [done|lia].
  - intros Hb. destruct (F2 Hb) as [-> Hb1]. by destruct (F1 Hb1) as [-> ->].
  - auto.
Qed.

Lemma round_ok depths :
  let '(depths', changed') := foldl relax_parent (depths, false) (btree_list adjacency) in
  grown depths depths'
  ∧ (∀ p c d, arrow p c → depths !! p = Some d → ∃ d', depths' !! c = Some d' ∧ d + 1 ≤ d')
  ∧ (changed' = false → depths' = depths) ∧ (witnessed depths → witnessed depths').
Proof.
  pose proof (relax_parents_ok (btree_list adjacency) depths false) as H.
  destruct (foldl relax_parent _ _) as [d1 b1]. destruct H as (G & C & F & W); [intros p cs; apply elem_of_btree_list|].
  split_and!; [done| |intros H; by destruct (F H)|done]. intros p c d Hpc Hd. unfold arrow in Hpc.
  destruct (adjacency !! p) as [cs|] eqn:Hp; [|by apply not_elem_of_nil in Hpc].
  apply (C p cs c d); [by apply elem_of_btree_list|done|done].
Qed.

Lemma relax_rounds_ok rounds k depths :
  witnessed depths → deep k depths →
  let depths' := relax_rounds rounds adjacency depths in
  witnessed depths' ∧ (deep (k + rounds) depths').
Proof.
  revert k depths. induction rounds as [|rounds IH]; intros k depths Hw Hk; cbn [relax_rounds].
  { rewrite Nat.add_0_r. by split. }
  pose proof (round_ok depths) as H. destruct (foldl relax_parent (depths, false) (btree_list adjacency)) as [d1 b1].
  destruct H as (G & C & F & W). assert (Hnext : deep (S k) d1).
  { intros j n Hj Hn. destruct j as [|j].
    - destruct (Hk 0 n (Nat.le_0_l _) Hn) as (d & Hd & _). destruct (G _ _ Hd) as (d' & ? & ?). exists d'. split; [done|lia].
    - apply nsteps_inv_r in Hn as (p & Hp & Hpn). destruct (Hk j p) as (d & Hd & ?); [lia|done|].
      destruct (C p n d Hpn Hd) as (d' & ? & ?). exists d'. split; [done|lia]. }
  destruct b1.
  - replace (k + S rounds) with (S k + rounds) by lia. by apply IH; [apply W|].
  - rewrite (F eq_refl) in *. split; [done|]. intros j n _. revert n. induction j as [|j IHj]; intros n Hn.
    + apply (Hk 0); [lia|done].
    + apply nsteps_inv_r in Hn as (p & Hp & Hpn). destruct (IHj p Hp) as (d & Hd & ?).
      destruct (C p n d Hpn Hd) as (d' & ? & ?). exists d'. split; [done|lia].
Qed.

(** A path visits no parent twice, so it is no longer than the number of arrows. *)
Lemma path_parents k a b :
  (∀ n, ¬ tc arrow n n) → nsteps arrow k a b →
  ∃ l, length l = k ∧ NoDup l ∧ ∀ p, p ∈ l → rtc arrow a p ∧ ∃ c, arrow p c.
Proof.
  intros Hac Hk. induction Hk as [a|k a c b Hac' Hcb (l & Hlen & Hnd & Hl)].
  { exists []. split_and!; [done|constructor|by intros p ?%not_elem_of_nil]. }
  exists (a :: l). split_and!.
  - simpl. by rewrite Hlen.
  - constructor; [|done]. intros Ha. destruct (Hl a Ha) as [Hca _]. apply (Hac a). eapply tc_rtc_r; [by apply tc_once|done].
  - intros p [->|Hp]%elem_of_cons; [split; [done|by exists c]|]. destruct (Hl p Hp) as [? ?]. split; [|done].
    by eapply rtc_l.
Qed.

Lemma path_bound k a b : (∀ n, ¬ tc arrow n n) → nsteps arrow k a b → k ≤ total_edges adjacency.
Proof.
  intros Hac (l & <- & Hnd & Hl)%path_parents; [|done].
  set (parents := (filter (λ p, p.2 ≠ []) (btree_list adjacency)).*1).
  transitivity (length parents).
  - apply submseteq_length, NoDup_submseteq; [done|]. intros p Hp. destruct (Hl p Hp) as (_ & c & Hc). unfold arrow in Hc.
    destruct (adjacency !! p) as [cs|] eqn:E; [|by apply not_elem_of_nil in Hc]. apply list_elem_of_fmap.
    exists (p, cs). split; [done|]. apply list_elem_of_filter. split; [|by apply elem_of_btree_list].
    simpl. intros ->. by apply not_elem_of_nil in Hc.
  - unfold parents, total_edges. rewrite length_fmap. generalize (btree_list adjacency) as bs.
    induction bs as [|[p cs] bs IH]; [done|]. rewrite filter_cons, !fmap_cons. cbn [snd].
    change (sum_list (length cs :: (length <$> bs.*2))) with (length cs + sum_list (length <$> bs.*2)).
    case_decide as Hcs; [|lia].
    destruct cs; [done|simpl; lia].
Qed.

(** A depth is the length of a longest path from the root: the rounds are enough. *)
Lemma longest_depths_longest limit :
  (∀ n, ¬ tc arrow n n) →
  (∀ n d, longest_depths adjacency !! n = Some d → d ≤ limit) ↔ (∀ k n, nsteps arrow k ROOT_SUB_GOAL_ID n → k ≤ limit).
Proof.
  intros Hac. unfold longest_depths.
  destruct (relax_rounds_ok (S (total_edges adjacency)) 0 {[ROOT_SUB_GOAL_ID := 0]}) as [Hw Hd].
  { intros n d [<- <-]%lookup_singleton_Some. constructor. }
  { intros j n Hj Hn. assert (j = 0) as -> by lia. inversion Hn; subst. exists 0. by rewrite lookup_singleton_eq. }
  set (depths := relax_rounds _ adjacency _) in *. split.
  - intros Hle k n Hk. destruct (decide (n = ROOT_SUB_GOAL_ID)) as [->|Hne].
    { destruct k; [lia|]. exfalso. apply (Hac ROOT_SUB_GOAL_ID), tc_nsteps. exists (S k). split; [lia|done]. }
    destruct (Hd k n) as (d & Hn & ?); [apply path_bound in Hk; [lia|done]|done|].
    transitivity d; [done|]. apply (Hle n). by rewrite lookup_delete_ne.
  - intros Hle n d [_ Hn]%lookup_delete_Some. by eapply Hle, Hw.
Qed.
End graph.

(** ** Declarations *)

Definition edge_rel (es : list SubGoalEdge) (p c : string) : Prop := ∃ e, e ∈ es ∧ parent_id e = p ∧ child_id e = c.
Definition children_of (es : list SubGoalEdge) (p : string) : gset string :=
  list_to_set (child_id <$> filter (λ e, parent_id e = p) es).
Definition new_ids (g : SubGoalGraph) (d : SubGoalDeclaration) : gset string :=
  known_ids g ∪ list_to_set (sn_id <$> d_nodes d).

(** Edges between known nodes that form an acyclic graph within the limits. *)
Record lanes_ok (limits : SubGoalLimits) (known : gset string) (es : list SubGoalEdge) : Prop := {
  lo_known e : e ∈ es → parent_id e ≠ child_id e ∧ parent_id e ∈ known ∧ child_id e ∈ known;
  lo_acyclic n : ¬ tc (edge_rel es) n n;
  lo_fan_out p : size (children_of es p) ≤ max_fan_out limits;
  lo_depth k n : nsteps (edge_rel es) k ROOT_SUB_GOAL_ID n → k ≤ max_depth limits;
}.
Record nodes_ok (known : gset string) (ids : list string) : Prop := {
  no_distinct : NoDup ids;
  no_fresh id : id ∈ ids → id ≠ "" ∧ id ≠ ROOT_SUB_GOAL_ID ∧ id ∉ known;
}.

Lemma check_nodes_ok known ns :
  match check_nodes known ns with
  | Ok known' => nodes_ok known (sn_id <$> ns) ∧ known' = known ∪ list_to_set (sn_id <$> ns)
  | Err _ => ¬ nodes_ok known (sn_id <$> ns)
  end.
Proof.
  revert known. induction ns as [|n ns IH]; intros known; cbn [check_nodes].
  { split; [split; [constructor|by intros id ?%not_elem_of_nil]|]. simpl. set_solver. }
  rewrite fmap_cons. case_bool_decide as H1; [intros [_ Hf]; by destruct (Hf (sn_id n) (list_elem_of_here _ _))|].
  case_bool_decide as H2; [intros [_ Hf]; by destruct (Hf (sn_id n) (list_elem_of_here _ _)) as (_ & ? & _)|].
  case_bool_decide as H3; [intros [_ Hf]; by destruct (Hf (sn_id n) (list_elem_of_here _ _)) as (_ & _ & ?)|].
  specialize (IH ({[sn_id n]} ∪ known)). destruct (check_nodes _ ns) as [known'|e].
  - destruct IH as [[Hd Hf] ->]. split; [|simpl; set_solver]. split.
    + constructor; [|done]. intros Hin. destruct (Hf _ Hin) as (_ & _ & ?). set_solver.
    + intros id [->|Hin]%elem_of_cons; [done|]. destruct (Hf _ Hin) as (? & ? & ?). set_solver.
  - intros [Hd Hf]. apply IH. apply NoDup_cons in Hd as [Hn Hd]. split; [done|]. intros id Hin.
    destruct (Hf id) as (? & ? & ?); [by right|]. split_and!; [done..|]. set_solver.
Qed.

(** The children collected so far: each once, the targets of the edges. *)
Definition adjacent (adjacency : gmap string (list string)) (es : list SubGoalEdge) : Prop :=
  ∀ p, NoDup (default [] (adjacency !! p)) ∧ ∀ c, c ∈ default [] (adjacency !! p) ↔ edge_rel es p c.

Lemma add_child_ok adjacency es e : adjacent adjacency es → adjacent (add_child adjacency e) (es ++ [e]).
Proof.
  intros Hadj p. destruct (Hadj p) as [Hnd Hin].
  assert (∀ c, edge_rel (es ++ [e]) p c ↔ edge_rel es p c ∨ (parent_id e = p ∧ child_id e = c)) as Hrel.
  { intros c. unfold edge_rel. split.
    - intros (x & [Hx| ->%list_elem_of_singleton]%elem_of_app & ?); [left; by exists x|by right].
    - intros [(x & Hx & ?)|?]; [exists x|exists e]; rewrite elem_of_app, list_elem_of_singleton; auto. }
  unfold add_child. destruct (decide (parent_id e = p)) as [<-|Hne].
  2: { rewrite lookup_insert_ne by done. split; [done|]. intros c. rewrite Hin, Hrel. naive_solver. }
  rewrite lookup_insert_eq. simpl. case_bool_decide as Hc.
  - split; [done|]. intros c. rewrite Hin, Hrel. split; [by left|]. intros [?|[_ <-]]; [done|by apply Hin].
  - split; [apply NoDup_app; split_and!; [done| |apply NoDup_singleton]; by intros x Hx ->%list_elem_of_singleton|].
    intros c. rewrite elem_of_app, list_elem_of_singleton, Hin, Hrel. naive_solver.
Qed.

Lemma check_edges_ok known adjacency done_es es :
  adjacent adjacency done_es →
  match check_edges known adjacency es with
  | Ok adjacency' => adjacent adjacency' (done_es ++ es)
      ∧ ∀ e, e ∈ es → parent_id e ≠ child_id e ∧ parent_id e ∈ known ∧ child_id e ∈ known
  | Err _ => ¬ ∀ e, e ∈ es → parent_id e ≠ child_id e ∧ parent_id e ∈ known ∧ child_id e ∈ known
  end.
Proof.
  revert adjacency done_es. induction es as [|e es IH]; intros adjacency done_es Hadj; cbn [check_edges].
  { rewrite app_nil_r. split; [done|by intros e ?%not_elem_of_nil]. }
  case_bool_decide as Hself; [intros H; by destruct (H e (list_elem_of_here _ _))|].
  destruct (list_find _ [parent_id e; child_id e]) as [[i missing]|] eqn:Hf.
  { apply list_find_Some in Hf as (Hl & Hm & _). intros H. destruct (H e (list_elem_of_here _ _)) as (_ & Hp & Hc).
    destruct i as [|[|i]]; simpl in Hl; simplify_eq; done. }
  apply list_find_None in Hf. rewrite Forall_forall in Hf.
  assert (parent_id e ∈ known) as Hp by (apply dec_stable, Hf; by left).
  assert (child_id e ∈ known) as Hc by (apply dec_stable, Hf; right; by left).
  specialize (IH (add_child adjacency e) (done_es ++ [e]) (add_child_ok _ _ _ Hadj)).
  destruct (check_edges known (add_child adjacency e) es) as [adjacency'|err].
  - rewrite <- app_assoc in IH. destruct IH as [H1 H2]. split; [done|]. intros x [->|Hx]%elem_of_cons; [done|by apply H2].
  - intros H. apply IH. intros x Hx. apply H. by right.
Qed.

Lemma check_fan_out_ok limits adjacency es :
  adjacent adjacency es → check_fan_out limits adjacency = Ok () ↔ ∀ p, size (children_of es p) ≤ max_fan_out limits.
Proof.
  intros Hadj. assert (∀ p, size (children_of es p) = length (default [] (adjacency !! p))) as Hsize.
  { intros p. destruct (Hadj p) as [Hnd Hin]. rewrite <- (size_list_to_set (C:=gset string)) by done. f_equal.
    apply set_eq. intros c. unfold children_of. rewrite !elem_of_list_to_set, Hin, list_elem_of_fmap. unfold edge_rel.
    setoid_rewrite list_elem_of_filter. naive_solver. }
  unfold check_fan_out. destruct (list_find _ (btree_list adjacency)) as [[i [p cs]]|] eqn:Hf.
  - split; [done|]. intros Hle. apply list_find_Some in Hf as (Hl & Hlt & _). simpl in Hlt.
    apply list_elem_of_lookup_2, elem_of_btree_list in Hl. specialize (Hle p). rewrite Hsize, Hl in Hle. simpl in Hle. lia.
  - split; [|done]. intros _ p. apply list_find_None in Hf. rewrite Forall_forall in Hf. rewrite Hsize.
    destruct (adjacency !! p) as [cs|] eqn:Hp; simpl; [|lia]. apply elem_of_btree_list, Hf in Hp. simpl in Hp. lia.
Qed.

Lemma arrow_edges adjacency es p c : adjacent adjacency es → arrow adjacency p c ↔ edge_rel es p c.
Proof. intros Hadj. apply Hadj. Qed.

Lemma tc_arrow adjacency es n m : adjacent adjacency es → tc (arrow adjacency) n m ↔ tc (edge_rel es) n m.
Proof.
  intros Hadj. split; intros H; (induction H as [x y H|x y z H _ IH]; [apply tc_once|eapply tc_l; [|exact IH]]);
    by apply (arrow_edges _ _ _ _ Hadj).
Qed.
Lemma nsteps_arrow adjacency es k n m : adjacent adjacency es → nsteps (arrow adjacency) k n m ↔ nsteps (edge_rel es) k n m.
Proof.
  intros Hadj. split; intros H; (induction H as [x|k x y z H _ IH]; [constructor|eapply nsteps_l; [|exact IH]]);
    by apply (arrow_edges _ _ _ _ Hadj).
Qed.

Lemma check_depths_ok limits adjacency es :
  adjacent adjacency es → (∀ n, ¬ tc (edge_rel es) n n) →
  check_depths limits adjacency = Ok () ↔ ∀ k n, nsteps (edge_rel es) k ROOT_SUB_GOAL_ID n → k ≤ max_depth limits.
Proof.
  intros Hadj Hac. assert (∀ n, ¬ tc (arrow adjacency) n n) as Hac' by (intros n; by rewrite tc_arrow).
  transitivity (∀ n d, longest_depths adjacency !! n = Some d → d ≤ max_depth limits).
  - unfold check_depths. destruct (list_find _ (btree_list _)) as [[i [n d]]|] eqn:Hf.
    + split; [done|]. intros Hle. apply list_find_Some in Hf as (Hl & Hlt & _). simpl in Hlt.
      apply list_elem_of_lookup_2, elem_of_btree_list, Hle in Hl. lia.
    + split; [|done]. intros _ n d Hn. apply list_find_None in Hf. rewrite Forall_forall in Hf.
      apply elem_of_btree_list, Hf in Hn. simpl in Hn. lia.
  - rewrite (longest_depths_longest adjacency (max_depth limits) Hac'). split; intros H k n Hk; apply (H k n);
      by apply (nsteps_arrow adjacency es).
Qed.

(** Validation always answers, and accepts a declaration exactly when its ids are new and distinct,
    its edges join known lanes, and all edges together form an acyclic graph within the
    fan-out, whose longest path from the goal is within the depth. *)
Lemma validate_declaration_spec g d limits :
  ∃ r, validate_declaration g d limits = Some r ∧
    (r = Ok () ↔ nodes_ok (known_ids g) (sn_id <$> d_nodes d) ∧ lanes_ok limits (new_ids g d) (edges g ++ d_edges d)).
Proof.
  unfold validate_declaration. pose proof (check_nodes_ok (known_ids g) (d_nodes d)) as Hn.
  destruct (check_nodes _ _) as [known|e]; simpl; [|eexists; split; [done|]; split; [done|by intros [? _]]].
  destruct Hn as [Hn ->]. fold (new_ids g d).
  pose proof (check_edges_ok (new_ids g d) ∅ [] (edges g ++ d_edges d)) as He.
  destruct (check_edges _ _ _) as [adjacency|e].
  2: { eexists. split; [done|]. split; [done|]. intros [_ Hl]. destruct He; [|apply Hl].
       intros p. rewrite lookup_empty. split; [constructor|]. intros c. split; [by intros ?%not_elem_of_nil|by intros (e' & ?%not_elem_of_nil & _)]. }
  destruct He as [Hadj Hedges].
  { intros p. rewrite lookup_empty. split; [constructor|]. intros c. split; [by intros ?%not_elem_of_nil|by intros (e' & ?%not_elem_of_nil & _)]. }
  simpl in Hadj. destruct (first_cycle_decides adjacency) as (r & -> & Hr). simpl. eexists. split; [done|].
  destruct r as [participants|].
  { split; [done|]. intros [_ Hl]. apply cycle_tc in Hr as (n & Hc). apply (tc_arrow _ _ _ _ Hadj) in Hc. by destruct (lo_acyclic _ _ _ Hl n). }
  assert (∀ n, ¬ tc (edge_rel (edges g ++ d_edges d)) n n) as Hac by (intros n; rewrite <- tc_arrow by done; apply Hr).
  pose proof (check_fan_out_ok limits _ _ Hadj) as Hfan. pose proof (check_depths_ok limits _ _ Hadj Hac) as Hdep.
  destruct (check_fan_out limits adjacency) as [[]|e]; simpl.
  - rewrite Hdep. split; [|intros [_ [_ _ _ H]]; exact H]. intros H. split; [done|]. split; [done|done|by apply Hfan|done].
  - split; [done|]. intros [_ [_ _ H _]]. by apply Hfan in H.
Qed.
