(* ===== verification/SubGoalGraphProps.v ===== *)
(** * The recorded graph of sub-goals

    Accepted declarations and the reports of the lanes keep the graph valid, and the rollup of a
    parent says exactly whether its required lanes are met. *)

From stdpp Require Import gmap strings list sets relations.
From S2P Require Import Prelude SubGoal SubGoalProps.

(** ** The graph stays valid *)

(** The ids are distinct, none is empty or the goal's own, and the edges are lanes within the limits. *)
Record graph_ok (limits : SubGoalLimits) (g : SubGoalGraph) : Prop := {
  go_ids : NoDup (node_id_of <$> nodes g);
  go_named id : id ∈ node_id_of <$> nodes g → id ≠ "" ∧ id ≠ ROOT_SUB_GOAL_ID;
  go_lanes : lanes_ok limits (known_ids g) (edges g);
}.

Lemma lanes_ok_ext limits known es es' :
  (∀ p c, edge_rel es p c ↔ edge_rel es' p c) → lanes_ok limits known es → lanes_ok limits known es'.
Proof.
  intros Heq [Hk Ha Hf Hd].
  assert (∀ x y, tc (edge_rel es') x y → tc (edge_rel es) x y) as Htc.
  { induction 1 as [x y H|x y z H _ IH]; [apply tc_once|eapply tc_l; [|exact IH]]; by apply Heq. }
  assert (∀ k x y, nsteps (edge_rel es') k x y → nsteps (edge_rel es) k x y) as Hns.
  { induction 1 as [x|k x y z H _ IH]; [constructor|eapply nsteps_l; [|exact IH]]; by apply Heq. }
  split.
  - intros e He. assert (edge_rel es (parent_id e) (child_id e)) as (e' & He' & <- & <-) by (apply Heq; by exists e).
    by apply Hk.
  - intros n Hn. by apply (Ha n), Htc.
  - intros p. etrans; [|apply (Hf p)]. apply subseteq_size. intros c. unfold children_of.
    rewrite !elem_of_list_to_set, !list_elem_of_fmap. setoid_rewrite list_elem_of_filter.
    intros (e & -> & <- & He). assert (edge_rel es (parent_id e) (child_id e)) as (e' & He' & ? & ?) by (apply Heq; by exists e).
    by exists e'.
  - intros k n Hk'. by apply (Hd k n), Hns.
Qed.

Lemma apply_nodes_ids ns ds :
  nodes_ok ({[ROOT_SUB_GOAL_ID]} ∪ list_to_set (node_id_of <$> ns)) (sn_id <$> ds) →
  node_id_of <$> foldl apply_node ns ds = (node_id_of <$> ns) ++ (sn_id <$> ds).
Proof.
  revert ns. induction ds as [|n ds IH]; intros ns [Hd Hf]; [by rewrite app_nil_r|].
  rewrite fmap_cons in Hd, Hf. apply NoDup_cons in Hd as [Hn Hd]. cbn [foldl].
  destruct (Hf (sn_id n) (list_elem_of_here _ _)) as (H1 & H2 & H3). unfold apply_node at 2.
  rewrite !bool_decide_eq_false_2 by done.
  destruct (existsb _ ns) eqn:Hex.
  { apply existsb_elem in Hex as (s & Hs & Heq%bool_decide_eq_true). destruct H3. rewrite <- Heq.
    apply elem_of_union_r, elem_of_list_to_set, list_elem_of_fmap. by exists s. }
  cbn [orb]. rewrite IH.
  - by rewrite fmap_app, <- app_assoc.
  - split; [done|]. intros id Hid. destruct (Hf id) as (? & ? & Hk); [by right|]. split_and!; [done..|].
    rewrite fmap_app, list_to_set_app. intros [?|[?|Hin]%elem_of_union]%elem_of_union; [set_solver..|].
    apply elem_of_list_to_set in Hin. simpl in Hin. apply list_elem_of_singleton in Hin as ->. done.
Qed.

Lemma apply_edges_rel ds es p c : edge_rel (foldl apply_edge es ds) p c ↔ edge_rel (es ++ ds) p c.
Proof.
  revert es. induction ds as [|d ds IH]; intros es; [by rewrite app_nil_r|]. cbn [foldl]. rewrite IH. unfold apply_edge.
  destruct (existsb _ es) eqn:Hex; [|by rewrite <- app_assoc].
  apply existsb_elem in Hex as (x & Hx & [Hp%bool_decide_eq_true Hc%bool_decide_eq_true]%andb_prop).
  unfold edge_rel. setoid_rewrite elem_of_app. setoid_rewrite elem_of_cons. split.
  - intros (e & [?|?] & ?); exists e; auto.
  - intros (e & [?|[->|?]] & <- & <-); [exists e|exists x|exists e]; auto.
Qed.

Lemma alter_node_ids f node_id ns :
  (∀ s, node_id_of (f s) = node_id_of s) → node_id_of <$> alter_node f node_id ns = node_id_of <$> ns.
Proof.
  intros Hf. induction ns as [|s ns IH]; [done|]. simpl. case_bool_decide; rewrite !fmap_cons; [by rewrite Hf|by rewrite IH].
Qed.

Lemma with_nodes_ok limits f g :
  node_id_of <$> f (nodes g) = node_id_of <$> nodes g → graph_ok limits g → graph_ok limits (with_nodes f g).
Proof. intros Hf [H1 H2 H3]. split; unfold with_nodes, known_ids in *; simpl in *; by rewrite ?Hf. Qed.

Lemma validated_extends g d limits :
  validate_declaration g d limits = Some (Ok ()) →
  nodes_ok (known_ids g) (sn_id <$> d_nodes d) ∧ lanes_ok limits (new_ids g d) (edges g ++ d_edges d).
Proof. intros Hv. destruct (validate_declaration_spec g d limits) as (r & Hr & Hiff). apply Hiff. congruence. Qed.

Lemma declared_ok limits g d :
  graph_ok limits g → validate_declaration g d limits = Some (Ok ()) → graph_ok limits (apply_declaration d g).
Proof.
  intros [Hi Hn _] [Hnodes Hl]%validated_extends. pose proof (apply_nodes_ids (nodes g) (d_nodes d) Hnodes) as Hids. split.
  - simpl. rewrite Hids. apply NoDup_app. split_and!; [done| |apply Hnodes]. intros id Hid Hin.
    destruct (no_fresh _ _ Hnodes id Hin) as (_ & _ & []). apply elem_of_union_r. by apply elem_of_list_to_set.
  - simpl. rewrite Hids. intros id [Hid|Hid]%elem_of_app; [by apply Hn|]. by destruct (no_fresh _ _ Hnodes id Hid) as (? & ? & _).
  - apply (lanes_ok_ext _ _ (edges g ++ d_edges d)); [intros p c; symmetry; apply apply_edges_rel|].
    unfold known_ids. simpl. rewrite Hids, list_to_set_app_L, assoc_L by apply _. exact Hl.
Qed.

Lemma mark_dispatched_ok limits node_id o g : graph_ok limits g → graph_ok limits (mark_dispatched node_id o g).
Proof. apply with_nodes_ok, alter_node_ids. intros s. unfold node_id_of. simpl. by destruct o. Qed.
Lemma record_report_ok limits node_id r g : graph_ok limits g → graph_ok limits (record_report node_id r g).
Proof. by apply with_nodes_ok, alter_node_ids. Qed.
Lemma supersede_ok limits node_id reason g : graph_ok limits g → graph_ok limits (supersede node_id reason g).
Proof. by apply with_nodes_ok, alter_node_ids. Qed.

Lemma empty_graph_ok limits : graph_ok limits empty_graph.
Proof.
  assert (∀ p c, ¬ edge_rel [] p c) as Hno by (by intros p c (e & ?%not_elem_of_nil & _)).
  split; [constructor|by intros id ?%not_elem_of_nil|]. split.
  - by intros e ?%not_elem_of_nil.
  - intros n Hn. inversion Hn as [? ? H|? ? ? H]; by apply Hno in H.
  - intros p. unfold children_of. change (size (∅ : gset string) ≤ max_fan_out limits). rewrite size_empty. lia.
  - intros k n Hk. inversion Hk as [|? ? ? ? H]; [lia|]. by apply Hno in H.
Qed.

(** ** Rolling up *)

(** A lane is met when it was not superseded and its report claims so, with every verdict met and
    one for each of its criteria. *)
Definition lane_met (s : SubGoalNodeState) : Prop :=
  superseded s = None ∧ ∃ r, report s = Some r ∧ claimed_outcome r = Met
  ∧ (∀ v, v ∈ criteria_verdicts r → met v = true) ∧ ∀ id, id ∈ criterion_ids (node s) → met_verdict r id = true.

Lemma push_new_elem l id x : x ∈ push_new l id ↔ x ∈ l ∨ x = id.
Proof. unfold push_new. case_bool_decide; rewrite ?elem_of_app, ?list_elem_of_singleton; naive_solver. Qed.

Lemma foldl_push {A} (skip : A → bool) (key : A → string) l acc x :
  x ∈ foldl (λ l v, if skip v then l else push_new l (key v)) acc l ↔
  x ∈ acc ∨ ∃ v, v ∈ l ∧ skip v = false ∧ key v = x.
Proof.
  revert acc. induction l as [|v l IH]; intros acc; cbn [foldl].
  { split; [by left|]. by intros [?|(v & ?%not_elem_of_nil & _)]. }
  rewrite IH. destruct (skip v) eqn:Hv.
  - setoid_rewrite elem_of_cons. split; [|intros [?|(w & [->|?] & ? & ?)]]; [naive_solver|by left|congruence|right; by exists w].
  - rewrite push_new_elem. setoid_rewrite elem_of_cons. naive_solver.
Qed.

Lemma unmet_of_elem s r x :
  x ∈ unmet_of s r ↔
  (∃ v, v ∈ criteria_verdicts r ∧ met v = false ∧ cv_id v = x) ∨ (x ∈ criterion_ids (node s) ∧ met_verdict r x = false).
Proof.
  unfold unmet_of. rewrite (foldl_push (met_verdict r) (λ id, id)), (foldl_push met cv_id).
  split; [|naive_solver]. intros [[?%not_elem_of_nil|?]|(v & ? & ? & ->)]; [done|by left|by right].
Qed.

Lemma unmet_of_nil s r :
  unmet_of s r = [] ↔
  (∀ v, v ∈ criteria_verdicts r → met v = true) ∧ ∀ id, id ∈ criterion_ids (node s) → met_verdict r id = true.
Proof.
  split.
  - intros Hnil. assert (∀ x, x ∉ unmet_of s r) as Hno by (rewrite Hnil; intros x; apply not_elem_of_nil).
    setoid_rewrite unmet_of_elem in Hno. split.
    + intros v Hv. destruct (met v) eqn:Hm; [done|]. destruct (Hno (cv_id v)). left. by exists v.
    + intros id Hid. destruct (met_verdict r id) eqn:Hm; [done|]. destruct (Hno id). by right.
  - intros [Hv Hc]. destruct (unmet_of s r) as [|x l] eqn:Hl; [done|].
    assert (x ∈ unmet_of s r) as Hx by (rewrite Hl; by left). apply unmet_of_elem in Hx as [(v & Hin & Hm & _)|[Hin Hm]].
    + by rewrite (Hv v Hin) in Hm.
    + by rewrite (Hc x Hin) in Hm.
Qed.

Lemma effective_met s : is_met (sub_goal_effective_outcome s).1 = true ↔ lane_met s.
Proof.
  unfold sub_goal_effective_outcome, lane_met. destruct (superseded s); [by split; [|intros []]|].
  destruct (report s) as [r|].
  2: { split; [by destruct (dispatched s)|by intros (_ & r & ? & _)]. }
  case_bool_decide as Hu.
  - split; [done|]. intros (_ & r' & [= <-] & _ & H). by destruct Hu; apply unmet_of_nil.
  - apply unmet_of_nil in Hu. split.
    + intros Hm. split; [done|]. exists r. split_and!; [done| |apply Hu..]. by destruct (claimed_outcome r).
    + intros (_ & r' & [= <-] & Hc & _). simpl. by rewrite Hc.
Qed.

Definition required_edge (g : SubGoalGraph) (parent : string) (e : SubGoalEdge) (s : SubGoalNodeState) : Prop :=
  e ∈ edges g ∧ parent_id e = parent ∧ is_required (edge_kind e) = true ∧ find_node g (child_id e) = Some s.

Lemma blocking_snoc rt rm ls lane :
  blocking {| required_total := rt; required_met := rm; lanes := ls ++ [lane] |} =
  blocking {| required_total := rt; required_met := rm; lanes := ls |}
  ++ (if is_required (lane_kind lane) && negb (is_met (lane_outcome lane)) then [lane] else []).
Proof. unfold blocking. simpl. rewrite filter_app. f_equal. rewrite filter_cons. simpl. by destruct (_ && _). Qed.

Lemma add_lanes_ok g es r :
  required_total r = required_met r + length (blocking r) →
  let r' := foldl (add_lane g) r es in
  required_total r' = required_met r' + length (blocking r') ∧
  (blocking r' = [] ↔ blocking r = [] ∧ ∀ e s, e ∈ es → is_required (edge_kind e) = true → find_node g (child_id e) = Some s → lane_met s).
Proof.
  revert r. induction es as [|e es IH]; intros r Hr; cbn [foldl].
  { split; [done|]. split; [|by intros []]. intros H. split; [done|by intros e s ?%not_elem_of_nil]. }
  assert (required_total (add_lane g r e) = required_met (add_lane g r e) + length (blocking (add_lane g r e))
    ∧ (blocking (add_lane g r e) = [] ↔
       blocking r = [] ∧ ∀ s, is_required (edge_kind e) = true → find_node g (child_id e) = Some s → lane_met s)) as [Hr' Hb'].
  { unfold add_lane. destruct (find_node g (child_id e)) as [s|] eqn:Hs; [|naive_solver].
    pose proof (effective_met s) as Hmet. destruct (sub_goal_effective_outcome s) as [o unmet]. simpl in Hmet.
    rewrite blocking_snoc. cbn [required_total required_met lane_kind lane_outcome].
    change (blocking {| required_total := _; required_met := _; lanes := lanes r |}) with (blocking r).
    destruct (is_required (edge_kind e)), (is_met o) eqn:Hm; simpl; rewrite ?app_nil_r, ?length_app; simpl.
    - split; [lia|]. split; [|by intros []]. intros ->. split; [done|]. intros s' _ [= <-]. by apply Hmet.
    - split; [lia|]. split; [by intros [_ ?]%app_nil|]. intros [_ H]. by apply Hmet in H.
    - split; [done|]. naive_solver.
    - split; [done|]. naive_solver. }
  destruct (IH _ Hr') as [H1 H2]. split; [done|]. rewrite H2, Hb'. setoid_rewrite elem_of_cons. split.
  - intros [[? H] H']. split; [done|]. intros e' s [->|?]; eauto.
  - intros [? H]. split_and!; [done| |]; intros; eapply H; eauto.
Qed.

(** A parent may proceed exactly when every required lane that is declared under it is met, which
    is also when all of them are counted met. *)
Lemma rollup_is_exact g parent :
  let r := aggregate_sub_goals g parent in
  (parent_may_proceed r = true ↔ ∀ e s, required_edge g parent e s → lane_met s)
  ∧ (parent_may_proceed r = true ↔ required_met r = required_total r).
Proof.
  unfold aggregate_sub_goals.
  destruct (add_lanes_ok g (filter (λ e, parent_id e = parent) (edges g)) {| required_total := 0; required_met := 0; lanes := [] |}) as [H1 H2]; [done|].
  cbv zeta in *. unfold parent_may_proceed. rewrite bool_decide_eq_true, length_zero_iff_nil. split.
  - rewrite H2. split.
    + intros [_ H] e s (He & Hp & Hr & Hs). eapply H; [|done..]. by apply list_elem_of_filter.
    + intros H. split; [done|]. intros e s [Hp He]%list_elem_of_filter Hr Hs. by apply (H e s).
  - rewrite <- length_zero_iff_nil. lia.
Qed.

(** Validation always answers, and accepts a declaration exactly when its ids are new and distinct,
    its edges join known lanes, and all edges together form an acyclic graph within the
    fan-out, whose longest path from the goal is within the depth. *)
Lemma validation_decides_the_lanes g d limits :
  ∃ r, validate_declaration g d limits = Some r ∧
    (r = Ok () ↔ nodes_ok (known_ids g) (sn_id <$> d_nodes d) ∧ lanes_ok limits (new_ids g d) (edges g ++ d_edges d)).
Proof. apply validate_declaration_spec. Qed.

(** A parent may proceed exactly when every required lane declared under it is met: not
    superseded, reported met, every verdict met and one for each of its criteria.  That is
    also when all required lanes are counted met. *)
Lemma parent_proceeds_when_lanes_are_met g parent :
  let r := aggregate_sub_goals g parent in
  (parent_may_proceed r = true ↔ ∀ e s, required_edge g parent e s → lane_met s)
  ∧ (parent_may_proceed r = true ↔ required_met r = required_total r).
Proof. apply rollup_is_exact. Qed.
