(* ===== verification/GoalLedger.v ===== *)
(** * The goal and its ledger

    [refact-chat-api/src/lib.rs] (the goal's data), [refact-chat-api/src/goal_ledger.rs] (the
    operations recorded for a goal and their replay), [engine/src/chat/types.rs] (the accounting of
    the live snapshot).  Times are milliseconds; counters saturate at their widths.

    The snapshot leaves out [plan], which nothing here reads or writes. *)

From stdpp Require Import gmap strings list.
From S2P Require Import Prelude SubGoal.
Open Scope N_scope.

(** ** Data *)

Inductive GoalStatus :=
  | Active | Verifying | Paused | Completed | Stopped | BudgetExhausted | NoProgress | Transferred.
#[global] Instance GoalStatus_eq_dec : EqDecision GoalStatus.
Proof. solve_decision. Defined.

Record GoalBudget := {
  max_turns : option N;
  max_minutes : option N;
  max_tokens : option N;
  max_cost_cents : option N;
  cooldown_ms : N;
  no_progress_token_threshold : N;
  budget_no_progress_turns : option N;
  explicit : bool;
}.
Definition default_goal_budget_cooldown_ms : N := 30000.
Definition LEGACY_GOAL_BUDGET_COOLDOWN_MS : N := 1500.
Definition default_goal_no_progress_token_threshold : N := 50.
Definition default_GoalBudget : GoalBudget := {|
  max_turns := None; max_minutes := None; max_tokens := None; max_cost_cents := None;
  cooldown_ms := default_goal_budget_cooldown_ms;
  no_progress_token_threshold := default_goal_no_progress_token_threshold;
  budget_no_progress_turns := None; explicit := false |}.
Definition legacy_default_hard_limits : GoalBudget := {|
  max_turns := Some 10; max_minutes := Some 15; max_tokens := Some 200000; max_cost_cents := None;
  cooldown_ms := default_goal_budget_cooldown_ms;
  no_progress_token_threshold := default_goal_no_progress_token_threshold;
  budget_no_progress_turns := Some 2; explicit := false |}.
Definition migrate_legacy_default_hard_limits (b : GoalBudget) : GoalBudget :=
  if explicit b then b
  else
    let b :=
      if bool_decide (max_turns b = Some 10) && bool_decide (max_minutes b = Some 15)
         && bool_decide (max_tokens b = Some 200000) && bool_decide (budget_no_progress_turns b = Some 2)
      then {| max_turns := None; max_minutes := None; max_tokens := None; max_cost_cents := None;
              cooldown_ms := cooldown_ms b; no_progress_token_threshold := no_progress_token_threshold b;
              budget_no_progress_turns := None; explicit := false |}
      else b in
    if bool_decide (cooldown_ms b = LEGACY_GOAL_BUDGET_COOLDOWN_MS) && bool_decide (max_turns b = None)
       && bool_decide (max_minutes b = None) && bool_decide (max_tokens b = None)
       && bool_decide (max_cost_cents b = None) && bool_decide (budget_no_progress_turns b = None)
    then {| max_turns := max_turns b; max_minutes := max_minutes b; max_tokens := max_tokens b;
            max_cost_cents := max_cost_cents b; cooldown_ms := default_goal_budget_cooldown_ms;
            no_progress_token_threshold := no_progress_token_threshold b;
            budget_no_progress_turns := budget_no_progress_turns b; explicit := explicit b |}
    else b.

Record GoalProgress := {
  turns_used : N;
  tokens_used : N;
  started_at_ms : N;
  no_progress_turns : N;
  last_nudge_at_ms : N;
  cost_used_cents : N;
}.
Definition default_GoalProgress : GoalProgress := {|
  turns_used := 0; tokens_used := 0; started_at_ms := 0; no_progress_turns := 0; last_nudge_at_ms := 0;
  cost_used_cents := 0 |}.

Record GoalAttempt := {
  ga_at_ms : N;
  ga_trigger : string;
  ga_verdict : string;
  ga_gaps : list string;
  verifier_reply : string;
  ga_criteria_verdicts : list CriterionVerdict;
}.
Record GoalCriterion := {
  gc_id : string;
  gc_text : string;
  verify_hint : option string;
  verify_command : option string;
}.
Record GoalEvent := { ev_at_ms : N; ev_kind : string; ev_text : string }.
#[global] Instance GoalEvent_eq_dec : EqDecision GoalEvent.
Proof. solve_decision. Defined.

Inductive GoalWaitSubject :=
  | WaitProcess (process_id : string)
  | WaitChild (agent_id : string)
  | WaitEvent (name : string)
  | WaitDeadline (until_ms : N).
#[global] Instance GoalWaitSubject_eq_dec : EqDecision GoalWaitSubject.
Proof. solve_decision. Defined.
Definition own_deadline_ms (w : GoalWaitSubject) : option N :=
  match w with WaitDeadline until_ms => Some until_ms | _ => None end.
Record GoalWait := { subject : GoalWaitSubject; since_ms : N; deadline_ms : option N }.
Definition new_GoalWait (s : GoalWaitSubject) (deadline : option N) : GoalWait := {|
  subject := s; since_ms := 0;
  deadline_ms := match deadline with Some d => Some d | None => own_deadline_ms s end |}.
Definition expired_at (w : GoalWait) (now_ms : N) : bool :=
  match deadline_ms w with Some until_ms => until_ms <=? now_ms | None => false end.
Definition wait_matches (w : GoalWait) (s : GoalWaitSubject) : bool := bool_decide (subject w = s).

Inductive GoalOwner := OwnerChat (id : string) | OwnerTask (id : string).

Record GoalSnapshot := {
  goal_owner : option GoalOwner;
  revision : N;
  content : string;
  version : N;
  active : bool;
  status : GoalStatus;
  budget : GoalBudget;
  progress : GoalProgress;
  attempts : list GoalAttempt;
  events : list GoalEvent;
  criteria : list GoalCriterion;
  snoozed_until_ms : option N;
  goal_wait_of : option GoalWait;
  stop_reason : option string;
  transferred_from : option string;
  transferred_to : option string;
  sub_goals : SubGoalGraph;
}.

(** ** The budget *)

(** A limit that is absent or zero does not bind. *)
Definition limit_reached (limit : option N) (used : N) : bool :=
  match limit with Some l => (0 <? l) && (l <=? used) | None => false end.
Definition minutes_reached (limit : option N) (p : GoalProgress) (now_ms : N) : bool :=
  match limit with
  | Some l =>
      let max_ms := sat_mul u64_max l 60000 in
      (0 <? l) && (0 <? started_at_ms p) && (max_ms <=? now_ms - started_at_ms p)
  | None => false
  end.
Definition goal_budget_exhaustion_status (b : GoalBudget) (p : GoalProgress) (now_ms : N) : option GoalStatus :=
  if limit_reached (budget_no_progress_turns b) (no_progress_turns p) then Some NoProgress
  else if limit_reached (max_turns b) (turns_used p) then Some BudgetExhausted
  else if limit_reached (max_tokens b) (tokens_used p) then Some BudgetExhausted
  else if limit_reached (max_cost_cents b) (cost_used_cents p) then Some BudgetExhausted
  else if minutes_reached (max_minutes b) p now_ms then Some BudgetExhausted
  else None.

Definition exhausted_status (s : GoalStatus) : bool :=
  match s with BudgetExhausted | NoProgress => true | _ => false end.
(** The status after an accounting step: the same match in the snapshot's methods and the replay. *)
Definition accounted_status (b : GoalBudget) (p : GoalProgress) (now_ms : N) (s : GoalStatus) : GoalStatus :=
  match goal_budget_exhaustion_status b p now_ms with
  | Some st => st
  | None => if exhausted_status s then Active else s
  end.
Definition reset_status (b : GoalBudget) (p : GoalProgress) (now_ms : N) (s : GoalStatus) : GoalStatus :=
  if exhausted_status s then default Active (goal_budget_exhaustion_status b p now_ms) else s.

(** The steps of a progress record. *)
Definition start_clock (at_ms : N) (p : GoalProgress) : GoalProgress := {|
  turns_used := turns_used p; tokens_used := tokens_used p;
  started_at_ms := if started_at_ms p =? 0 then at_ms else started_at_ms p;
  no_progress_turns := no_progress_turns p; last_nudge_at_ms := last_nudge_at_ms p;
  cost_used_cents := cost_used_cents p |}.
Definition count_turn (tokens : N) (p : GoalProgress) : GoalProgress := {|
  turns_used := sat_add u32_max (turns_used p) 1; tokens_used := sat_add u64_max (tokens_used p) tokens;
  started_at_ms := started_at_ms p; no_progress_turns := no_progress_turns p;
  last_nudge_at_ms := last_nudge_at_ms p; cost_used_cents := cost_used_cents p |}.
Definition add_cost (cost_cents : N) (p : GoalProgress) : GoalProgress := {|
  turns_used := turns_used p; tokens_used := tokens_used p; started_at_ms := started_at_ms p;
  no_progress_turns := no_progress_turns p; last_nudge_at_ms := last_nudge_at_ms p;
  cost_used_cents := sat_add u64_max (cost_used_cents p) cost_cents |}.
Definition set_no_progress (n : N) (p : GoalProgress) : GoalProgress := {|
  turns_used := turns_used p; tokens_used := tokens_used p; started_at_ms := started_at_ms p;
  no_progress_turns := n; last_nudge_at_ms := last_nudge_at_ms p; cost_used_cents := cost_used_cents p |}.
Definition set_nudge (at_ms : N) (p : GoalProgress) : GoalProgress := {|
  turns_used := turns_used p; tokens_used := tokens_used p; started_at_ms := started_at_ms p;
  no_progress_turns := no_progress_turns p; last_nudge_at_ms := at_ms; cost_used_cents := cost_used_cents p |}.
Definition miss_progress (p : GoalProgress) : GoalProgress :=
  set_no_progress (sat_add u32_max (no_progress_turns p) 1) p.
Definition progress_recorded (at_ms tokens : N) (made_progress : bool) (cost_cents : N) (p : GoalProgress)
  : GoalProgress :=
  let p := add_cost cost_cents (count_turn tokens (start_clock at_ms p)) in
  if made_progress then set_no_progress 0 p else miss_progress p.

(** ** The ledger *)

Inductive GoalLedgerOp :=
  | Installed (version : N) (active : bool) (budget : GoalBudget) (criteria : list GoalCriterion)
  | StatusChanged (from to : GoalStatus) (reason : string)
  | ProgressRecorded (tokens : N) (made_progress : bool) (cost_cents : N)
  | VerifierAttemptRecorded (tokens : N)
  | NoProgressNoted
  | NudgeRecorded
  | ProgressReset (reason : string)
  | AttemptPushed (attempt : GoalAttempt)
  | EventPushed (event : GoalEvent)
  | BudgetSet (budget : GoalBudget)
  | CriteriaSet (criteria : list GoalCriterion)
  | SnoozeSet (until_ms : option N)
  | WaitSet (wait : option GoalWait)
  | TransferredOut (target_chat_id : string)
  | TransferredIn (source_chat_id : string) (progress : GoalProgress)
  | SubGoalsDeclared (declaration : SubGoalDeclaration)
  | SubGoalDispatched (node_id : string) (owner : option SubGoalOwner)
  | SubGoalReported (node_id : string) (report : SubGoalReport)
  | SubGoalSuperseded (node_id : string) (reason : string).
Record GoalLedgerEntry := { seq : N; at_ms : N; op : GoalLedgerOp }.

Record GoalLedgerState := {
  gl_version : N;
  gl_active : bool;
  gl_status : GoalStatus;
  gl_budget : GoalBudget;
  gl_progress : GoalProgress;
  gl_attempts : list GoalAttempt;
  gl_events : list GoalEvent;
  gl_criteria : list GoalCriterion;
  gl_snoozed_until_ms : option N;
  gl_wait : option GoalWait;
  gl_stop_reason : option string;
  gl_transferred_from : option string;
  gl_transferred_to : option string;
  gl_sub_goals : SubGoalGraph;
  last_seq : N;
}.

(** Assignments to a field of the snapshot and of the replayed state. *)
Definition set_status (v : GoalStatus) (s : GoalSnapshot) : GoalSnapshot := {|
  goal_owner := goal_owner s; revision := revision s; content := content s; version := version s;
  active := active s; status := v; budget := budget s; progress := progress s; attempts := attempts s;
  events := events s; criteria := criteria s; snoozed_until_ms := snoozed_until_ms s;
  goal_wait_of := goal_wait_of s; stop_reason := stop_reason s; transferred_from := transferred_from s;
  transferred_to := transferred_to s; sub_goals := sub_goals s |}.
Definition set_progress (v : GoalProgress) (s : GoalSnapshot) : GoalSnapshot := {|
  goal_owner := goal_owner s; revision := revision s; content := content s; version := version s;
  active := active s; status := status s; budget := budget s; progress := v; attempts := attempts s;
  events := events s; criteria := criteria s; snoozed_until_ms := snoozed_until_ms s;
  goal_wait_of := goal_wait_of s; stop_reason := stop_reason s; transferred_from := transferred_from s;
  transferred_to := transferred_to s; sub_goals := sub_goals s |}.
Definition set_attempts (v : list GoalAttempt) (s : GoalSnapshot) : GoalSnapshot := {|
  goal_owner := goal_owner s; revision := revision s; content := content s; version := version s;
  active := active s; status := status s; budget := budget s; progress := progress s; attempts := v;
  events := events s; criteria := criteria s; snoozed_until_ms := snoozed_until_ms s;
  goal_wait_of := goal_wait_of s; stop_reason := stop_reason s; transferred_from := transferred_from s;
  transferred_to := transferred_to s; sub_goals := sub_goals s |}.
Definition set_events (v : list GoalEvent) (s : GoalSnapshot) : GoalSnapshot := {|
  goal_owner := goal_owner s; revision := revision s; content := content s; version := version s;
  active := active s; status := status s; budget := budget s; progress := progress s; attempts := attempts s;
  events := v; criteria := criteria s; snoozed_until_ms := snoozed_until_ms s; goal_wait_of := goal_wait_of s;
  stop_reason := stop_reason s; transferred_from := transferred_from s; transferred_to := transferred_to s;
  sub_goals := sub_goals s |}.
Definition set_criteria (v : list GoalCriterion) (s : GoalSnapshot) : GoalSnapshot := {|
  goal_owner := goal_owner s; revision := revision s; content := content s; version := version s;
  active := active s; status := status s; budget := budget s; progress := progress s; attempts := attempts s;
  events := events s; criteria := v; snoozed_until_ms := snoozed_until_ms s; goal_wait_of := goal_wait_of s;
  stop_reason := stop_reason s; transferred_from := transferred_from s; transferred_to := transferred_to s;
  sub_goals := sub_goals s |}.
Definition set_snooze (v : option N) (s : GoalSnapshot) : GoalSnapshot := {|
  goal_owner := goal_owner s; revision := revision s; content := content s; version := version s;
  active := active s; status := status s; budget := budget s; progress := progress s; attempts := attempts s;
  events := events s; criteria := criteria s; snoozed_until_ms := v; goal_wait_of := goal_wait_of s;
  stop_reason := stop_reason s; transferred_from := transferred_from s; transferred_to := transferred_to s;
  sub_goals := sub_goals s |}.
Definition set_wait (v : option GoalWait) (s : GoalSnapshot) : GoalSnapshot := {|
  goal_owner := goal_owner s; revision := revision s; content := content s; version := version s;
  active := active s; status := status s; budget := budget s; progress := progress s; attempts := attempts s;
  events := events s; criteria := criteria s; snoozed_until_ms := snoozed_until_ms s; goal_wait_of := v;
  stop_reason := stop_reason s; transferred_from := transferred_from s; transferred_to := transferred_to s;
  sub_goals := sub_goals s |}.
Definition set_stop_reason (v : option string) (s : GoalSnapshot) : GoalSnapshot := {|
  goal_owner := goal_owner s; revision := revision s; content := content s; version := version s;
  active := active s; status := status s; budget := budget s; progress := progress s; attempts := attempts s;
  events := events s; criteria := criteria s; snoozed_until_ms := snoozed_until_ms s;
  goal_wait_of := goal_wait_of s; stop_reason := v; transferred_from := transferred_from s;
  transferred_to := transferred_to s; sub_goals := sub_goals s |}.
Definition gl_set_active (v : bool) (s : GoalLedgerState) : GoalLedgerState := {|
  gl_version := gl_version s; gl_active := v; gl_status := gl_status s; gl_budget := gl_budget s;
  gl_progress := gl_progress s; gl_attempts := gl_attempts s; gl_events := gl_events s;
  gl_criteria := gl_criteria s; gl_snoozed_until_ms := gl_snoozed_until_ms s; gl_wait := gl_wait s;
  gl_stop_reason := gl_stop_reason s; gl_transferred_from := gl_transferred_from s;
  gl_transferred_to := gl_transferred_to s; gl_sub_goals := gl_sub_goals s; last_seq := last_seq s |}.
Definition gl_set_status (v : GoalStatus) (s : GoalLedgerState) : GoalLedgerState := {|
  gl_version := gl_version s; gl_active := gl_active s; gl_status := v; gl_budget := gl_budget s;
  gl_progress := gl_progress s; gl_attempts := gl_attempts s; gl_events := gl_events s;
  gl_criteria := gl_criteria s; gl_snoozed_until_ms := gl_snoozed_until_ms s; gl_wait := gl_wait s;
  gl_stop_reason := gl_stop_reason s; gl_transferred_from := gl_transferred_from s;
  gl_transferred_to := gl_transferred_to s; gl_sub_goals := gl_sub_goals s; last_seq := last_seq s |}.
Definition gl_set_budget (v : GoalBudget) (s : GoalLedgerState) : GoalLedgerState := {|
  gl_version := gl_version s; gl_active := gl_active s; gl_status := gl_status s; gl_budget := v;
  gl_progress := gl_progress s; gl_attempts := gl_attempts s; gl_events := gl_events s;
  gl_criteria := gl_criteria s; gl_snoozed_until_ms := gl_snoozed_until_ms s; gl_wait := gl_wait s;
  gl_stop_reason := gl_stop_reason s; gl_transferred_from := gl_transferred_from s;
  gl_transferred_to := gl_transferred_to s; gl_sub_goals := gl_sub_goals s; last_seq := last_seq s |}.
Definition gl_set_progress (v : GoalProgress) (s : GoalLedgerState) : GoalLedgerState := {|
  gl_version := gl_version s; gl_active := gl_active s; gl_status := gl_status s; gl_budget := gl_budget s;
  gl_progress := v; gl_attempts := gl_attempts s; gl_events := gl_events s; gl_criteria := gl_criteria s;
  gl_snoozed_until_ms := gl_snoozed_until_ms s; gl_wait := gl_wait s; gl_stop_reason := gl_stop_reason s;
  gl_transferred_from := gl_transferred_from s; gl_transferred_to := gl_transferred_to s;
  gl_sub_goals := gl_sub_goals s; last_seq := last_seq s |}.
Definition gl_set_attempts (v : list GoalAttempt) (s : GoalLedgerState) : GoalLedgerState := {|
  gl_version := gl_version s; gl_active := gl_active s; gl_status := gl_status s; gl_budget := gl_budget s;
  gl_progress := gl_progress s; gl_attempts := v; gl_events := gl_events s; gl_criteria := gl_criteria s;
  gl_snoozed_until_ms := gl_snoozed_until_ms s; gl_wait := gl_wait s; gl_stop_reason := gl_stop_reason s;
  gl_transferred_from := gl_transferred_from s; gl_transferred_to := gl_transferred_to s;
  gl_sub_goals := gl_sub_goals s; last_seq := last_seq s |}.
Definition gl_set_events (v : list GoalEvent) (s : GoalLedgerState) : GoalLedgerState := {|
  gl_version := gl_version s; gl_active := gl_active s; gl_status := gl_status s; gl_budget := gl_budget s;
  gl_progress := gl_progress s; gl_attempts := gl_attempts s; gl_events := v; gl_criteria := gl_criteria s;
  gl_snoozed_until_ms := gl_snoozed_until_ms s; gl_wait := gl_wait s; gl_stop_reason := gl_stop_reason s;
  gl_transferred_from := gl_transferred_from s; gl_transferred_to := gl_transferred_to s;
  gl_sub_goals := gl_sub_goals s; last_seq := last_seq s |}.
Definition gl_set_criteria (v : list GoalCriterion) (s : GoalLedgerState) : GoalLedgerState := {|
  gl_version := gl_version s; gl_active := gl_active s; gl_status := gl_status s; gl_budget := gl_budget s;
  gl_progress := gl_progress s; gl_attempts := gl_attempts s; gl_events := gl_events s; gl_criteria := v;
  gl_snoozed_until_ms := gl_snoozed_until_ms s; gl_wait := gl_wait s; gl_stop_reason := gl_stop_reason s;
  gl_transferred_from := gl_transferred_from s; gl_transferred_to := gl_transferred_to s;
  gl_sub_goals := gl_sub_goals s; last_seq := last_seq s |}.
Definition gl_set_snooze (v : option N) (s : GoalLedgerState) : GoalLedgerState := {|
  gl_version := gl_version s; gl_active := gl_active s; gl_status := gl_status s; gl_budget := gl_budget s;
  gl_progress := gl_progress s; gl_attempts := gl_attempts s; gl_events := gl_events s;
  gl_criteria := gl_criteria s; gl_snoozed_until_ms := v; gl_wait := gl_wait s;
  gl_stop_reason := gl_stop_reason s; gl_transferred_from := gl_transferred_from s;
  gl_transferred_to := gl_transferred_to s; gl_sub_goals := gl_sub_goals s; last_seq := last_seq s |}.
Definition gl_set_wait (v : option GoalWait) (s : GoalLedgerState) : GoalLedgerState := {|
  gl_version := gl_version s; gl_active := gl_active s; gl_status := gl_status s; gl_budget := gl_budget s;
  gl_progress := gl_progress s; gl_attempts := gl_attempts s; gl_events := gl_events s;
  gl_criteria := gl_criteria s; gl_snoozed_until_ms := gl_snoozed_until_ms s; gl_wait := v;
  gl_stop_reason := gl_stop_reason s; gl_transferred_from := gl_transferred_from s;
  gl_transferred_to := gl_transferred_to s; gl_sub_goals := gl_sub_goals s; last_seq := last_seq s |}.
Definition gl_set_stop_reason (v : option string) (s : GoalLedgerState) : GoalLedgerState := {|
  gl_version := gl_version s; gl_active := gl_active s; gl_status := gl_status s; gl_budget := gl_budget s;
  gl_progress := gl_progress s; gl_attempts := gl_attempts s; gl_events := gl_events s;
  gl_criteria := gl_criteria s; gl_snoozed_until_ms := gl_snoozed_until_ms s; gl_wait := gl_wait s;
  gl_stop_reason := v; gl_transferred_from := gl_transferred_from s; gl_transferred_to := gl_transferred_to s;
  gl_sub_goals := gl_sub_goals s; last_seq := last_seq s |}.
Definition gl_set_transferred_from (v : option string) (s : GoalLedgerState) : GoalLedgerState := {|
  gl_version := gl_version s; gl_active := gl_active s; gl_status := gl_status s; gl_budget := gl_budget s;
  gl_progress := gl_progress s; gl_attempts := gl_attempts s; gl_events := gl_events s;
  gl_criteria := gl_criteria s; gl_snoozed_until_ms := gl_snoozed_until_ms s; gl_wait := gl_wait s;
  gl_stop_reason := gl_stop_reason s; gl_transferred_from := v; gl_transferred_to := gl_transferred_to s;
  gl_sub_goals := gl_sub_goals s; last_seq := last_seq s |}.
Definition gl_set_transferred_to (v : option string) (s : GoalLedgerState) : GoalLedgerState := {|
  gl_version := gl_version s; gl_active := gl_active s; gl_status := gl_status s; gl_budget := gl_budget s;
  gl_progress := gl_progress s; gl_attempts := gl_attempts s; gl_events := gl_events s;
  gl_criteria := gl_criteria s; gl_snoozed_until_ms := gl_snoozed_until_ms s; gl_wait := gl_wait s;
  gl_stop_reason := gl_stop_reason s; gl_transferred_from := gl_transferred_from s; gl_transferred_to := v;
  gl_sub_goals := gl_sub_goals s; last_seq := last_seq s |}.
Definition gl_set_sub_goals (v : SubGoalGraph) (s : GoalLedgerState) : GoalLedgerState := {|
  gl_version := gl_version s; gl_active := gl_active s; gl_status := gl_status s; gl_budget := gl_budget s;
  gl_progress := gl_progress s; gl_attempts := gl_attempts s; gl_events := gl_events s;
  gl_criteria := gl_criteria s; gl_snoozed_until_ms := gl_snoozed_until_ms s; gl_wait := gl_wait s;
  gl_stop_reason := gl_stop_reason s; gl_transferred_from := gl_transferred_from s;
  gl_transferred_to := gl_transferred_to s; gl_sub_goals := v; last_seq := last_seq s |}.
Definition gl_set_last_seq (v : N) (s : GoalLedgerState) : GoalLedgerState := {|
  gl_version := gl_version s; gl_active := gl_active s; gl_status := gl_status s; gl_budget := gl_budget s;
  gl_progress := gl_progress s; gl_attempts := gl_attempts s; gl_events := gl_events s;
  gl_criteria := gl_criteria s; gl_snoozed_until_ms := gl_snoozed_until_ms s; gl_wait := gl_wait s;
  gl_stop_reason := gl_stop_reason s; gl_transferred_from := gl_transferred_from s;
  gl_transferred_to := gl_transferred_to s; gl_sub_goals := gl_sub_goals s; last_seq := v |}.

Definition new_GoalLedgerState (v : N) (a : bool) (b : GoalBudget) (cs : list GoalCriterion) : GoalLedgerState := {|
  gl_version := v; gl_active := a; gl_status := if a then Active else Paused; gl_budget := b;
  gl_progress := default_GoalProgress; gl_attempts := []; gl_events := []; gl_criteria := cs;
  gl_snoozed_until_ms := None; gl_wait := None; gl_stop_reason := None; gl_transferred_from := None;
  gl_transferred_to := None; gl_sub_goals := empty_graph; last_seq := 0 |}.

Definition or_else {A} (x y : option A) : option A := match x with Some _ => x | None => y end.
Definition apply_to_snapshot (s : GoalLedgerState) (g : GoalSnapshot) : GoalSnapshot := {|
  goal_owner := goal_owner g; revision := revision g; content := content g; version := version g;
  active := gl_active s; status := gl_status s; budget := budget g; progress := gl_progress s;
  attempts := gl_attempts s; events := events g; criteria := gl_criteria s;
  snoozed_until_ms := gl_snoozed_until_ms s; goal_wait_of := gl_wait s; stop_reason := gl_stop_reason s;
  transferred_from := or_else (gl_transferred_from s) (transferred_from g);
  transferred_to := or_else (gl_transferred_to s) (transferred_to g);
  sub_goals := gl_sub_goals s |}.

(** The stop reason a status leaves: set by [Stopped], cleared by a resumption. *)
Definition reason_after (to : GoalStatus) (reason : string) (old : option string) : option string :=
  match to with
  | Stopped => if bool_decide (reason = "") then None else Some reason
  | Active | Verifying => None
  | _ => old
  end.

Definition transition_after_accounting (now_ms : N) (s : GoalLedgerState) : GoalLedgerState :=
  gl_set_status (accounted_status (gl_budget s) (gl_progress s) now_ms (gl_status s)) s.

Definition apply_op (o : GoalLedgerOp) (now_ms : N) (s : GoalLedgerState) : GoalLedgerState :=
  match o with
  | Installed _ _ _ _ => s
  | StatusChanged _ to reason => gl_set_stop_reason (reason_after to reason (gl_stop_reason s)) (gl_set_status to s)
  | ProgressRecorded tokens made_progress cost_cents =>
      transition_after_accounting now_ms
        (gl_set_progress (progress_recorded now_ms tokens made_progress cost_cents (gl_progress s)) s)
  | VerifierAttemptRecorded tokens =>
      transition_after_accounting now_ms (gl_set_progress (count_turn tokens (start_clock now_ms (gl_progress s))) s)
  | NoProgressNoted =>
      transition_after_accounting now_ms (gl_set_progress (miss_progress (start_clock now_ms (gl_progress s))) s)
  | NudgeRecorded => gl_set_progress (set_nudge now_ms (gl_progress s)) s
  | ProgressReset _ =>
      let s := gl_set_wait None (gl_set_snooze None (gl_set_progress (set_no_progress 0 (gl_progress s)) s)) in
      gl_set_status (reset_status (gl_budget s) (gl_progress s) now_ms (gl_status s)) s
  | AttemptPushed a => gl_set_attempts (gl_attempts s ++ [a]) s
  | EventPushed e => gl_set_events (gl_events s ++ [e]) s
  | BudgetSet b => gl_set_budget b s
  | CriteriaSet cs => gl_set_criteria cs s
  | SnoozeSet until_ms => gl_set_snooze until_ms s
  | WaitSet w => gl_set_wait w s
  | TransferredOut target_chat_id =>
      gl_set_transferred_to (Some target_chat_id) (gl_set_status Transferred (gl_set_active false s))
  | TransferredIn source_chat_id p =>
      gl_set_transferred_to None (gl_set_transferred_from (Some source_chat_id)
        (gl_set_progress p (gl_set_status Active (gl_set_active true s))))
  | SubGoalsDeclared d => gl_set_sub_goals (apply_declaration d (gl_sub_goals s)) s
  | SubGoalDispatched node_id o => gl_set_sub_goals (mark_dispatched node_id o (gl_sub_goals s)) s
  | SubGoalReported node_id r => gl_set_sub_goals (record_report node_id r (gl_sub_goals s)) s
  | SubGoalSuperseded node_id reason => gl_set_sub_goals (supersede node_id reason (gl_sub_goals s)) s
  end.

Definition reduce_entry (st : option GoalLedgerState) (e : GoalLedgerEntry) : option GoalLedgerState :=
  gl_set_last_seq (seq e) <$>
    match op e with
    | Installed v a b cs => Some (new_GoalLedgerState v a b cs)
    | o => apply_op o (at_ms e) <$> st
    end.
Definition reduce_goal_ledger (entries : list GoalLedgerEntry) : option GoalLedgerState :=
  foldl reduce_entry None entries.

Definition seed_transferred_goal_ledger (g : GoalSnapshot) (source_chat_id : string) (now_ms : N)
  : list GoalLedgerEntry :=
  [{| seq := 1; at_ms := now_ms; op := Installed (version g) true (budget g) (criteria g) |};
   {| seq := 2; at_ms := now_ms; op := TransferredIn source_chat_id (progress g) |}]
  ++ (if bool_decide (status g ≠ Active)
      then [{| seq := 3; at_ms := now_ms; op := StatusChanged Active (status g) (default "" (stop_reason g)) |}]
      else []).

Definition status_changed_since (entries : list GoalLedgerEntry) (sq : N) : bool :=
  existsb (λ e, (sq <? seq e) && match op e with StatusChanged _ _ _ | TransferredOut _ | TransferredIn _ _ => true | _ => false end)
    entries.

(** ** The live snapshot's accounting: [GoalSnapshotBudgetExt]

    The methods read the clock where they need it: [started] for the start of the progress,
    [judged] for the budget. *)

Definition goal_budget_exhaustion_status_at (g : GoalSnapshot) (now_ms : N) : option GoalStatus :=
  goal_budget_exhaustion_status (budget g) (progress g) now_ms.
Definition goal_budget_exhausted_at (g : GoalSnapshot) (now_ms : N) : bool :=
  match goal_budget_exhaustion_status_at g now_ms with Some _ => true | None => false end.
Definition goal_can_pursue_at (g : GoalSnapshot) (now_ms : N) : bool :=
  active g && bool_decide (status g = Active) && negb (goal_budget_exhausted_at g now_ms).

Definition goal_nudge_ready_at (g : GoalSnapshot) (now_ms : N) : bool :=
  (last_nudge_at_ms (progress g) =? 0)
  || (sat_add u64_max (last_nudge_at_ms (progress g)) (cooldown_ms (budget g)) <=? now_ms).
Definition GOAL_NUDGE_BACKOFF_SHIFT_CAP : N := 8.
Definition GOAL_NUDGE_MAX_BACKOFF_MS : N := 300000.
Definition effective_cooldown_ms (g : GoalSnapshot) : N :=
  let shift := N.min (no_progress_turns (progress g)) GOAL_NUDGE_BACKOFF_SHIFT_CAP in
  N.min (sat_mul u64_max (cooldown_ms (budget g)) (N.shiftl 1 shift)) GOAL_NUDGE_MAX_BACKOFF_MS.
Definition goal_nudge_ready_at_with_backoff (g : GoalSnapshot) (now_ms : N) : bool :=
  (last_nudge_at_ms (progress g) =? 0)
  || (sat_add u64_max (last_nudge_at_ms (progress g)) (effective_cooldown_ms g) <=? now_ms).

Definition account (judged : N) (g : GoalSnapshot) : GoalSnapshot :=
  set_status (accounted_status (budget g) (progress g) judged (status g)) g.
Definition goal_record_progress_of (started judged tokens : N) (made_progress : bool) (cost_cents : N)
    (g : GoalSnapshot) : GoalSnapshot :=
  account judged (set_progress (progress_recorded started tokens made_progress cost_cents (progress g)) g).
Definition goal_record_verifier_attempt_of (started judged tokens : N) (g : GoalSnapshot) : GoalSnapshot :=
  account judged (set_progress (count_turn tokens (start_clock started (progress g))) g).
Definition goal_note_no_progress_turn_of (started judged : N) (g : GoalSnapshot) : GoalSnapshot :=
  account judged (set_progress (miss_progress (start_clock started (progress g))) g).
Definition goal_record_nudge_of (now_ms : N) (g : GoalSnapshot) : GoalSnapshot :=
  set_progress (set_nudge now_ms (progress g)) g.
Definition goal_reset_no_progress_of (judged : N) (g : GoalSnapshot) : GoalSnapshot :=
  let g := set_wait None (set_snooze None (set_progress (set_no_progress 0 (progress g)) g)) in
  set_status (reset_status (budget g) (progress g) judged (status g)) g.
Definition goal_push_attempt_of (a : GoalAttempt) (g : GoalSnapshot) : GoalSnapshot :=
  set_attempts (attempts g ++ [a]) g.
Definition goal_push_event_of (e : GoalEvent) (g : GoalSnapshot) : GoalSnapshot := set_events (events g ++ [e]) g.
