(* ===== verification/GoalSession.v ===== *)
(** * The goal of a chat session

    [engine/src/chat/session.rs]: the session keeps a live snapshot of its goal and the ledger of
    everything that happened to it.  Each operation changes the snapshot and appends to the ledger;
    it reads the clock up to three times, [started] and [judged] in the snapshot's own accounting
    and [logged] for the ledger entry.  Emitted events are not modelled beyond the mirror they are
    built from. *)

From stdpp Require Import gmap strings list.
From S2P Require Import Prelude SubGoal GoalLedger.
Open Scope N_scope.

(** ** What the messages say of the goal

    [GoalBase] is what the goal message of the highest version and the messages after it hold,
    already parsed; a field of its metadata that is absent or malformed is [None]. *)

Record GoalBase := {
  base_version : N;
  base_content : string;
  base_revision : N;
  derived_events : list GoalEvent;
  meta_active : option bool;
  meta_status : option GoalStatus;
  meta_budget : option GoalBudget;
  meta_progress : option GoalProgress;
  meta_events : option (list GoalEvent);
  meta_owner : option GoalOwner;
  meta_attempts : option (list GoalAttempt);
  meta_criteria : option (list GoalCriterion);
  meta_transferred_from : option string;
  meta_transferred_to : option string;
}.
(** The active context cannot be read, or it holds at most one current goal. *)
Inductive MessagesView := Unreadable | Readable (base : option GoalBase).

Definition MAX_GOAL_SNAPSHOT_EVENTS : nat := 100.
Definition merge_goal_events (derived : list GoalEvent) (extras : option (list GoalEvent)) : list GoalEvent :=
  let merged := foldl (λ l e, if bool_decide (e ∈ l) then l else l ++ [e]) derived (default [] extras) in
  drop (length merged - MAX_GOAL_SNAPSHOT_EVENTS)%nat merged.

Definition positive_limit (l : option N) : bool := match l with Some l => 0 <? l | None => false end.
Definition goal_budget_has_hard_limits (b : GoalBudget) : bool :=
  positive_limit (max_turns b) || positive_limit (max_minutes b) || positive_limit (max_tokens b)
  || positive_limit (max_cost_cents b) || positive_limit (budget_no_progress_turns b).

Definition is_task_owner (o : option GoalOwner) : bool := match o with Some (OwnerTask _) => true | _ => false end.
Definition initial_status (a : bool) : GoalStatus := if a then Active else Paused.

Definition snapshot_of_base (b : GoalBase) (existing : option GoalSnapshot) : GoalSnapshot :=
  let prior := match existing with
               | Some g => if bool_decide (version g = base_version b) then Some g else None
               | None => None
               end in
  let a := default true (or_else (active <$> prior) (meta_active b)) in
  let g := {|
    goal_owner := or_else (g ← prior; goal_owner g) (meta_owner b);
    revision := match prior with
                | Some g => if is_task_owner (goal_owner g) then revision g else base_revision b
                | None => base_revision b
                end;
    content := base_content b;
    version := base_version b;
    active := a;
    status := default (initial_status a) (or_else (status <$> prior) (meta_status b));
    budget := migrate_legacy_default_hard_limits
                (default default_GoalBudget (or_else (meta_budget b) (budget <$> prior)));
    progress := default default_GoalProgress (or_else (progress <$> prior) (meta_progress b));
    attempts := default [] (or_else (attempts <$> prior) (meta_attempts b));
    events := merge_goal_events (derived_events b) (or_else (events <$> prior) (meta_events b));
    criteria := default [] (or_else (criteria <$> prior) (meta_criteria b));
    snoozed_until_ms := g ← prior; snoozed_until_ms g;
    goal_wait_of := g ← prior; goal_wait_of g;
    stop_reason := g ← prior; stop_reason g;
    transferred_from := or_else (g ← prior; transferred_from g) (meta_transferred_from b);
    transferred_to := or_else (g ← prior; transferred_to g) (meta_transferred_to b);
    sub_goals := default empty_graph (sub_goals <$> prior) |} in
  if negb (bool_decide (is_Some prior)) && exhausted_status (status g) && negb (goal_budget_has_hard_limits (budget g))
  then set_status (initial_status (active g)) g
  else g.
Definition goal_snapshot_from_messages (view : MessagesView) (existing : option GoalSnapshot) : option GoalSnapshot :=
  match view with
  | Unreadable => existing
  | Readable base => (λ b, snapshot_of_base b existing) <$> base
  end.

(** ** The session *)

Record GoalMirror := {
  goal_active : bool;
  goal_status : option GoalStatus;
  goal_turns_used : N;
  goal_tokens_used : N;
  goal_no_progress_turns : N;
}.
Definition goal_runtime_projection (g : option GoalSnapshot) : GoalMirror :=
  match g with
  | Some g => {| goal_active := active g; goal_status := Some (status g); goal_turns_used := turns_used (progress g);
                 goal_tokens_used := tokens_used (progress g);
                 goal_no_progress_turns := no_progress_turns (progress g) |}
  | None => {| goal_active := false; goal_status := None; goal_turns_used := 0; goal_tokens_used := 0;
               goal_no_progress_turns := 0 |}
  end.

Record SubGoalGraphCacheEntry := { cached_seq : N; cached_len : nat; cached_graph : SubGoalGraph }.
Record GoalSession := {
  chat_id : string;
  goal : option GoalSnapshot;
  goal_ledger : list GoalLedgerEntry;
  sub_goal_graph_cache : option SubGoalGraphCacheEntry;
  goal_mirror : GoalMirror;
  goal_turn_evidence : bool;
  goal_stopped_by_abort : bool;
  goal_verification_generation : N;
  trajectory_version : N;
}.

(** Assignments to a field of the session. *)
Definition put_goal (v : option GoalSnapshot) (s : GoalSession) : GoalSession := {|
  chat_id := chat_id s; goal := v; goal_ledger := goal_ledger s;
  sub_goal_graph_cache := sub_goal_graph_cache s; goal_mirror := goal_mirror s;
  goal_turn_evidence := goal_turn_evidence s; goal_stopped_by_abort := goal_stopped_by_abort s;
  goal_verification_generation := goal_verification_generation s;
  trajectory_version := trajectory_version s |}.
Definition put_ledger (v : list GoalLedgerEntry) (s : GoalSession) : GoalSession := {|
  chat_id := chat_id s; goal := goal s; goal_ledger := v; sub_goal_graph_cache := sub_goal_graph_cache s;
  goal_mirror := goal_mirror s; goal_turn_evidence := goal_turn_evidence s;
  goal_stopped_by_abort := goal_stopped_by_abort s;
  goal_verification_generation := goal_verification_generation s;
  trajectory_version := trajectory_version s |}.
Definition put_cache (v : option SubGoalGraphCacheEntry) (s : GoalSession) : GoalSession := {|
  chat_id := chat_id s; goal := goal s; goal_ledger := goal_ledger s; sub_goal_graph_cache := v;
  goal_mirror := goal_mirror s; goal_turn_evidence := goal_turn_evidence s;
  goal_stopped_by_abort := goal_stopped_by_abort s;
  goal_verification_generation := goal_verification_generation s;
  trajectory_version := trajectory_version s |}.
Definition put_mirror (v : GoalMirror) (s : GoalSession) : GoalSession := {|
  chat_id := chat_id s; goal := goal s; goal_ledger := goal_ledger s;
  sub_goal_graph_cache := sub_goal_graph_cache s; goal_mirror := v; goal_turn_evidence := goal_turn_evidence s;
  goal_stopped_by_abort := goal_stopped_by_abort s;
  goal_verification_generation := goal_verification_generation s;
  trajectory_version := trajectory_version s |}.
Definition put_evidence (v : bool) (s : GoalSession) : GoalSession := {|
  chat_id := chat_id s; goal := goal s; goal_ledger := goal_ledger s;
  sub_goal_graph_cache := sub_goal_graph_cache s; goal_mirror := goal_mirror s; goal_turn_evidence := v;
  goal_stopped_by_abort := goal_stopped_by_abort s;
  goal_verification_generation := goal_verification_generation s;
  trajectory_version := trajectory_version s |}.
Definition put_stopped_by_abort (v : bool) (s : GoalSession) : GoalSession := {|
  chat_id := chat_id s; goal := goal s; goal_ledger := goal_ledger s;
  sub_goal_graph_cache := sub_goal_graph_cache s; goal_mirror := goal_mirror s;
  goal_turn_evidence := goal_turn_evidence s; goal_stopped_by_abort := v;
  goal_verification_generation := goal_verification_generation s;
  trajectory_version := trajectory_version s |}.
Definition put_generation (v : N) (s : GoalSession) : GoalSession := {|
  chat_id := chat_id s; goal := goal s; goal_ledger := goal_ledger s;
  sub_goal_graph_cache := sub_goal_graph_cache s; goal_mirror := goal_mirror s;
  goal_turn_evidence := goal_turn_evidence s; goal_stopped_by_abort := goal_stopped_by_abort s;
  goal_verification_generation := v; trajectory_version := trajectory_version s |}.
Definition put_trajectory_version (v : N) (s : GoalSession) : GoalSession := {|
  chat_id := chat_id s; goal := goal s; goal_ledger := goal_ledger s;
  sub_goal_graph_cache := sub_goal_graph_cache s; goal_mirror := goal_mirror s;
  goal_turn_evidence := goal_turn_evidence s; goal_stopped_by_abort := goal_stopped_by_abort s;
  goal_verification_generation := goal_verification_generation s; trajectory_version := v |}.

Definition mark_persisted_runtime_changed (s : GoalSession) : GoalSession :=
  put_trajectory_version (trajectory_version s +w 1) s.
Definition refresh_goal_runtime_mirror (s : GoalSession) : GoalSession :=
  put_mirror (goal_runtime_projection (goal s)) s.
Definition emit_goal_status (s : GoalSession) : GoalSession := refresh_goal_runtime_mirror s.

(** ** The ledger *)

Definition goal_ledger_last_seq (s : GoalSession) : N :=
  match last (goal_ledger s) with Some e => seq e | None => 0 end.
Definition invalidate_sub_goal_graph_cache (s : GoalSession) : GoalSession := put_cache None s.
Definition set_goal_ledger (l : list GoalLedgerEntry) (s : GoalSession) : GoalSession :=
  invalidate_sub_goal_graph_cache (put_ledger l s).
Definition goal_ledger_append_at (o : GoalLedgerOp) (now_ms : N) (s : GoalSession) : GoalSession * N :=
  let sq := match last (goal_ledger s) with Some e => seq e + 1 | None => 1 end in
  (invalidate_sub_goal_graph_cache
     (put_ledger (goal_ledger s ++ [{| seq := sq; at_ms := now_ms; op := o |}]) s), sq).
Definition append_op (o : GoalLedgerOp) (now_ms : N) (s : GoalSession) : GoalSession :=
  (goal_ledger_append_at o now_ms s).1.
Definition goal_status_changed_since (s : GoalSession) (sq : N) : bool := status_changed_since (goal_ledger s) sq.

(** What most operations end with. *)
Definition logged_change (o : GoalLedgerOp) (logged : N) (s : GoalSession) : GoalSession :=
  emit_goal_status (mark_persisted_runtime_changed (append_op o logged s)).
Definition with_goal (f : GoalSnapshot → GoalSession) (s : GoalSession) : GoalSession * bool :=
  match goal s with Some g => (f g, true) | None => (s, false) end.

Definition goal_record_progress_with_cost (started judged logged tokens : N) (made_progress : bool) (cost_cents : N)
    (s : GoalSession) : GoalSession * bool :=
  with_goal (λ g, logged_change (ProgressRecorded tokens made_progress cost_cents) logged
    (put_goal (Some (goal_record_progress_of started judged tokens made_progress cost_cents g)) s)) s.
(** [cost_cents] is the metered cost, already rounded. *)
Definition goal_record_progress_from_usage (started judged logged completion_tokens total_tokens cost_cents : N)
    (s : GoalSession) : GoalSession * bool :=
  match goal s with
  | None => (s, false)
  | Some g =>
      let made_progress := goal_turn_evidence s || (no_progress_token_threshold (budget g) <=? completion_tokens) in
      goal_record_progress_with_cost started judged logged total_tokens made_progress cost_cents (put_evidence false s)
  end.
Definition goal_record_verifier_attempt (started judged logged tokens : N) (s : GoalSession) : GoalSession * bool :=
  with_goal (λ g, logged_change (VerifierAttemptRecorded tokens) logged
    (put_goal (Some (goal_record_verifier_attempt_of started judged tokens g)) s)) s.
Definition goal_note_no_progress_turn (started judged logged : N) (s : GoalSession) : GoalSession * bool :=
  with_goal (λ g, logged_change NoProgressNoted logged
    (put_goal (Some (goal_note_no_progress_turn_of started judged g)) s)) s.

(** A nudge after a nudge moves the time of the last entry instead of appending one. *)
Definition is_nudge (o : GoalLedgerOp) : bool := match o with NudgeRecorded => true | _ => false end.
Definition restamp_last (now_ms : N) (l : list GoalLedgerEntry) : list GoalLedgerEntry :=
  match last l with
  | Some e => removelast l ++ [{| seq := seq e; at_ms := now_ms; op := op e |}]
  | None => l
  end.
Definition goal_record_nudge (now_ms : N) (s : GoalSession) : GoalSession * bool :=
  with_goal (λ g,
    let s := put_goal (Some (goal_record_nudge_of now_ms g)) s in
    let tail_is_nudge := match last (goal_ledger s) with Some e => is_nudge (op e) | None => false end in
    let s := if tail_is_nudge then put_ledger (restamp_last now_ms (goal_ledger s)) s
             else append_op NudgeRecorded now_ms s in
    emit_goal_status (mark_persisted_runtime_changed s)) s.

Definition goal_reset_no_progress (judged logged : N) (s : GoalSession) : GoalSession * bool :=
  match goal s with
  | None => (s, false)
  | Some g =>
      let g' := goal_reset_no_progress_of judged g in
      let s := put_goal (Some g') s in
      if bool_decide (no_progress_turns (progress g) = no_progress_turns (progress g'))
         && bool_decide (status g = status g') && bool_decide (snoozed_until_ms g = snoozed_until_ms g')
         && eqb (bool_decide (is_Some (goal_wait_of g))) (bool_decide (is_Some (goal_wait_of g')))
      then (s, false)
      else (logged_change (ProgressReset "user_message") logged s, true)
  end.

Definition goal_set_status_reason (st : GoalStatus) (reason : string) (logged : N) (s : GoalSession) : GoalSession * bool :=
  with_goal (λ g,
    if bool_decide (status g = st)
       && negb (bool_decide (st = Stopped) && bool_decide (reason ≠ "") && bool_decide (stop_reason g ≠ Some reason))
    then emit_goal_status s
    else
      logged_change (StatusChanged (status g) st reason) logged
        (put_goal (Some (set_stop_reason (reason_after st reason (stop_reason g)) (set_status st g))) s)) s.
Definition goal_set_snooze (until_ms : option N) (logged : N) (s : GoalSession) : GoalSession * bool :=
  with_goal (λ g, logged_change (SnoozeSet until_ms) logged (put_goal (Some (set_snooze until_ms g)) s)) s.

Definition goal_begin_wait (w : GoalWait) (now_ms : N) (s : GoalSession) : GoalSession * bool :=
  match goal s with
  | None => (s, false)
  | Some g =>
      match goal_wait_of g with
      | Some _ => (s, false)
      | None =>
          let w := {| subject := subject w; since_ms := now_ms; deadline_ms := deadline_ms w |} in
          (logged_change (WaitSet (Some w)) now_ms (put_goal (Some (set_wait (Some w) g)) s), true)
      end
  end.
Definition goal_settle_wait (subj : option GoalWaitSubject) (now_ms : N) (s : GoalSession) : GoalSession * option GoalWait :=
  match goal s with
  | None => (s, None)
  | Some g =>
      match goal_wait_of g with
      | None => (s, None)
      | Some waiting =>
          if match subj with Some x => negb (wait_matches waiting x) | None => false end then (s, None)
          else (logged_change (WaitSet None) now_ms (put_goal (Some (set_wait None g)) s), Some waiting)
      end
  end.

Definition supersede_goal_verification (s : GoalSession) : GoalSession :=
  put_generation (sat_add u64_max (goal_verification_generation s) 1) s.
Definition goal_push_attempt (a : GoalAttempt) (logged : N) (s : GoalSession) : GoalSession * bool :=
  with_goal (λ g, logged_change (AttemptPushed a) logged (put_goal (Some (goal_push_attempt_of a g)) s)) s.
Definition goal_push_event (e : GoalEvent) (logged : N) (s : GoalSession) : GoalSession * bool :=
  with_goal (λ g, logged_change (EventPushed e) logged (put_goal (Some (goal_push_event_of e g)) s)) s.

(** ** Rebuilding from the messages *)

Definition installs (v : N) (o : GoalLedgerOp) : bool :=
  match o with Installed installed _ _ _ => installed =? v | _ => false end.
Definition ensure_goal_ledger_installed (logged : N) (s : GoalSession) : GoalSession :=
  match goal s with
  | None => s
  | Some g =>
      if existsb (λ e, installs (version g) (op e)) (goal_ledger s) then s
      else
        let s := append_op (Installed (version g) (active g) (budget g) (criteria g)) logged s in
        if bool_decide (status g ≠ initial_status (active g))
        then append_op (StatusChanged (initial_status (active g)) (status g) (default "" (stop_reason g))) logged s
        else s
  end.
Definition own_goal (id : string) (existing : option GoalSnapshot) (g : GoalSnapshot) : GoalSnapshot :=
  let owner := or_else (goal_owner g) (Some (OwnerChat id)) in
  {| goal_owner := owner;
     revision := match existing with
                 | Some e => if is_task_owner owner then revision e else revision g
                 | None => revision g
                 end;
     content := content g; version := version g; active := active g; status := status g; budget := budget g;
     progress := progress g; attempts := attempts g; events := events g; criteria := criteria g;
     snoozed_until_ms := snoozed_until_ms g; goal_wait_of := goal_wait_of g; stop_reason := stop_reason g;
     transferred_from := transferred_from g; transferred_to := transferred_to g; sub_goals := sub_goals g |}.
Definition rebuild_goal_projection_from_messages (view : MessagesView) (logged : N) (s : GoalSession) : GoalSession :=
  let g := own_goal (chat_id s) (goal s) <$> goal_snapshot_from_messages view (goal s) in
  ensure_goal_ledger_installed logged (refresh_goal_runtime_mirror (put_goal g s)).

(** The end of [install_goal_with_criteria], once the goal's message is in place. *)
Definition install_goal_with_criteria (view : MessagesView) (cs : list GoalCriterion) (logged : N) (s : GoalSession)
  : GoalSession :=
  let s := rebuild_goal_projection_from_messages view logged s in
  let s := if bool_decide (cs = []) then s
           else append_op (CriteriaSet cs) logged (put_goal (set_criteria cs <$> goal s) s) in
  emit_goal_status (put_stopped_by_abort false s).

(** [handle_set_goal_budget_command]: the goal's message takes the budget, the projection is
    rebuilt, and the status follows the new budget. *)
Definition explicit_budget (b : GoalBudget) : GoalBudget := {|
  max_turns := max_turns b; max_minutes := max_minutes b; max_tokens := max_tokens b; max_cost_cents := max_cost_cents b;
  cooldown_ms := cooldown_ms b; no_progress_token_threshold := no_progress_token_threshold b;
  budget_no_progress_turns := budget_no_progress_turns b; explicit := true |}.
Definition with_meta_budget (b : GoalBudget) (base : GoalBase) : GoalBase := {|
  base_version := base_version base; base_content := base_content base; base_revision := base_revision base;
  derived_events := derived_events base; meta_active := meta_active base; meta_status := meta_status base;
  meta_budget := Some b; meta_progress := meta_progress base; meta_events := meta_events base;
  meta_owner := meta_owner base; meta_attempts := meta_attempts base; meta_criteria := meta_criteria base;
  meta_transferred_from := meta_transferred_from base; meta_transferred_to := meta_transferred_to base |}.
Definition budget_status_change (g : GoalSnapshot) (judged : N) : option GoalStatus :=
  match goal_budget_exhaustion_status_at g judged with
  | Some st => if active g && bool_decide (status g ≠ st) then Some st else None
  | None => if exhausted_status (status g) then Some (initial_status (active g)) else None
  end.
Definition handle_set_goal_budget_command (view : MessagesView) (b : GoalBudget) (judged logged : N) (s : GoalSession)
  : GoalSession * bool :=
  match goal s, view with
  | Some _, Readable (Some base) =>
      let b := explicit_budget b in
      let s := rebuild_goal_projection_from_messages (Readable (Some (with_meta_budget b base))) logged s in
      let s := append_op (BudgetSet b) logged s in
      let s := match g ← goal s; budget_status_change g judged with
               | Some st => (goal_set_status_reason st "budget_set" logged s).1
               | None => s
               end in
      (emit_goal_status (mark_persisted_runtime_changed s), true)
  | _, _ => (s, false)
  end.

(** ** Stopping and resuming

    Each adds a message of the pursuit, after which the projection is rebuilt from [view]; [None]
    is a message that had to be queued. *)

Definition add_pursuit_message (view : option MessagesView) (logged : N) (s : GoalSession) : GoalSession :=
  match view with Some view => rebuild_goal_projection_from_messages view logged s | None => s end.

Definition stop_goal_on_manual_abort (view : option MessagesView) (logged : N) (s : GoalSession) : GoalSession * bool :=
  let should_stop :=
    match goal s with
    | Some g => active g && match status g with Active | Verifying | BudgetExhausted | NoProgress => true | _ => false end
    | None => false
    end in
  if should_stop then
    let s := put_stopped_by_abort true (goal_set_status_reason Stopped "manual_abort" logged s).1 in
    (add_pursuit_message view logged s, true)
  else (s, false).
Definition reactivate_goal_stopped_by_manual_abort (view : option MessagesView) (logged : N) (s : GoalSession)
  : GoalSession * bool :=
  if negb (goal_stopped_by_abort s)
     && negb (match goal s with Some g => bool_decide (stop_reason g = Some "manual_abort") | None => false end)
  then (s, false)
  else
    let s := put_stopped_by_abort false s in
    if match goal s with Some g => active g && bool_decide (status g = Stopped) | None => false end then
      let s := (goal_set_status_reason Active "" logged s).1 in
      (add_pursuit_message view logged s, true)
    else (s, false).
Definition clear_goal_stopped_by_abort_marker (logged : N) (s : GoalSession) : GoalSession :=
  let s := put_stopped_by_abort false s in
  if match goal s with
     | Some g => bool_decide (status g = Stopped) && bool_decide (stop_reason g = Some "manual_abort")
     | None => false
     end
  then (goal_set_status_reason Stopped "goal_control" logged s).1 else s.

(** ** Sub-goals *)

Definition ledger_graph (l : list GoalLedgerEntry) : SubGoalGraph :=
  match reduce_goal_ledger l with Some st => gl_sub_goals st | None => empty_graph end.
(** The memo is keyed on the last sequence number and the length. *)
Definition sub_goal_graph (s : GoalSession) : SubGoalGraph * GoalSession :=
  let sq := goal_ledger_last_seq s in
  let len := length (goal_ledger s) in
  let reduced :=
    let g := ledger_graph (goal_ledger s) in
    (g, put_cache (Some {| cached_seq := sq; cached_len := len; cached_graph := g |}) s) in
  match sub_goal_graph_cache s with
  | Some c => if bool_decide (cached_seq c = sq) && bool_decide (cached_len c = len) then (cached_graph c, s) else reduced
  | None => reduced
  end.
Definition sub_goal_rollup (s : GoalSession) : SubGoalRollup * GoalSession :=
  let '(g, s) := sub_goal_graph s in (aggregate_sub_goals g ROOT_SUB_GOAL_ID, s).
#[global] Instance SubGoalOwner_eq_dec : EqDecision SubGoalOwner.
Proof. solve_decision. Defined.
Definition sub_goal_lane_for_owner (o : SubGoalOwner) (s : GoalSession) : option string * GoalSession :=
  let '(g, s) := sub_goal_graph s in
  (node_id_of <$> (snd <$> list_find (λ x, owner (node x) = Some o) (nodes g)), s).

(** [None] is fuel of the validation that ran out. *)
Definition declare_sub_goals (limits : SubGoalLimits) (d : SubGoalDeclaration) (logged : N) (s : GoalSession)
  : option (GoalSession * result N SubGoalDeclarationError) :=
  let '(g, s) := sub_goal_graph s in
  checked ← validate_declaration g d limits;
  Some (match checked with
        | Err e => (s, Err e)
        | Ok _ =>
            let '(s, sq) := goal_ledger_append_at (SubGoalsDeclared d) logged s in
            (mark_persisted_runtime_changed s, Ok sq)
        end).
(** The three operations on a declared lane. *)
Definition lane_op (node_id : string) (o : GoalLedgerOp) (logged : N) (s : GoalSession) : GoalSession * bool :=
  let '(g, s) := sub_goal_graph s in
  match find_node g node_id with
  | None => (s, false)
  | Some _ => (mark_persisted_runtime_changed (append_op o logged s), true)
  end.
Definition dispatch_sub_goal (node_id : string) (o : option SubGoalOwner) : N → GoalSession → GoalSession * bool :=
  lane_op node_id (SubGoalDispatched node_id o).
Definition record_sub_goal_report (node_id : string) (r : SubGoalReport) : N → GoalSession → GoalSession * bool :=
  lane_op node_id (SubGoalReported node_id r).
Definition supersede_sub_goal (node_id reason : string) : N → GoalSession → GoalSession * bool :=
  lane_op node_id (SubGoalSuperseded node_id reason).

Inductive AutoSubGoalLaneRefusal :=
  | NoGoal
  | CapReached (lanes cap : nat)
  | Rejected (e : SubGoalDeclarationError).
Definition AUTO_SUB_GOAL_LANE_PREFIX : string := "agent:".
Definition auto_lane (s : SubGoalNodeState) : bool := String.prefix AUTO_SUB_GOAL_LANE_PREFIX (node_id_of s).
Definition auto_lanes (g : SubGoalGraph) : nat := length (filter (λ s, auto_lane s = true) (nodes g)).
Definition auto_declaration (o : SubGoalOwner) (ttl : string) : SubGoalDeclaration :=
  let id := AUTO_SUB_GOAL_LANE_PREFIX +:+ so_id o in
  {| d_nodes := [{| sn_id := id; title := ttl; owner := Some o; criterion_ids := [] |}];
     d_edges := [{| parent_id := ROOT_SUB_GOAL_ID; child_id := id; edge_kind := Optional |}] |}.
Definition ensure_and_dispatch_sub_goal_lane (limits : SubGoalLimits) (cap : nat) (o : SubGoalOwner) (ttl : string)
    (logged : N) (s : GoalSession) : option (GoalSession * result string AutoSubGoalLaneRefusal) :=
  let '(lane, s) := sub_goal_lane_for_owner o s in
  match lane with
  | Some id => Some ((dispatch_sub_goal id (Some o) logged s).1, Ok id)
  | None =>
      match goal s with
      | None => Some (s, Err NoGoal)
      | Some _ =>
          let '(g, s) := sub_goal_graph s in
          if (cap <=? auto_lanes g)%nat then Some (s, Err (CapReached (auto_lanes g) cap))
          else
            r ← declare_sub_goals limits (auto_declaration o ttl) logged s;
            let '(s, declared) := r in
            Some (match declared with
                  | Err e => (s, Err (Rejected e))
                  | Ok _ =>
                      let id := AUTO_SUB_GOAL_LANE_PREFIX +:+ so_id o in
                      ((dispatch_sub_goal id (Some o) logged s).1, Ok id)
                  end)
      end
  end.
