(* ===== verification/GoalSessionProps.v ===== *)
(** * Properties of the session's goal

    The ledger replays the live goal, its entries are numbered without gaps, the memo of the
    sub-goal graph never lags behind the ledger, and the graph stays valid. *)

From stdpp Require Import gmap strings list relations.
From S2P Require Import Prelude SubGoal SubGoalProps SubGoalGraphProps GoalLedger GoalSession.
Open Scope N_scope.

(** ** The operations as one type *)

Inductive GoalOp :=
  | OpProgress (started judged logged tokens : N) (made_progress : bool) (cost_cents : N)
  | OpUsage (started judged logged completion_tokens total_tokens cost_cents : N)
  | OpVerifier (started judged logged tokens : N)
  | OpNoProgress (started judged logged : N)
  | OpNudge (now_ms : N)
  | OpReset (judged logged : N)
  | OpStatus (st : GoalStatus) (reason : string) (logged : N)
  | OpSnooze (until_ms : option N) (logged : N)
  | OpBeginWait (w : GoalWait) (now_ms : N)
  | OpSettleWait (subj : option GoalWaitSubject) (now_ms : N)
  | OpSupersedeVerification
  | OpAttempt (a : GoalAttempt) (logged : N)
  | OpEvent (e : GoalEvent) (logged : N)
  | OpRebuild (view : MessagesView) (logged : N)
  | OpInstall (view : MessagesView) (cs : list GoalCriterion) (logged : N)
  | OpBudget (view : MessagesView) (b : GoalBudget) (judged logged : N)
  | OpAbort (view : option MessagesView) (logged : N)
  | OpReactivate (view : option MessagesView) (logged : N)
  | OpClearMarker (logged : N)
  | OpReadGraph
  | OpDeclare (d : SubGoalDeclaration) (logged : N)
  | OpDispatch (node_id : string) (o : option SubGoalOwner) (logged : N)
  | OpReport (node_id : string) (r : SubGoalReport) (logged : N)
  | OpSupersede (node_id reason : string) (logged : N)
  | OpEnsureLane (o : SubGoalOwner) (ttl : string) (logged : N).

Section session.
Context (limits : SubGoalLimits) (cap : nat).

Definition apply_goal_op (o : GoalOp) (s : GoalSession) : GoalSession :=
  match o with
  | OpProgress st j l tokens made cost => (goal_record_progress_with_cost st j l tokens made cost s).1
  | OpUsage st j l completion total cost => (goal_record_progress_from_usage st j l completion total cost s).1
  | OpVerifier st j l tokens => (goal_record_verifier_attempt st j l tokens s).1
  | OpNoProgress st j l => (goal_note_no_progress_turn st j l s).1
  | OpNudge now => (goal_record_nudge now s).1
  | OpReset j l => (goal_reset_no_progress j l s).1
  | OpStatus st reason l => (goal_set_status_reason st reason l s).1
  | OpSnooze until l => (goal_set_snooze until l s).1
  | OpBeginWait w now => (goal_begin_wait w now s).1
  | OpSettleWait subj now => (goal_settle_wait subj now s).1
  | OpSupersedeVerification => supersede_goal_verification s
  | OpAttempt a l => (goal_push_attempt a l s).1
  | OpEvent e l => (goal_push_event e l s).1
  | OpRebuild view l => rebuild_goal_projection_from_messages view l s
  | OpInstall view cs l => install_goal_with_criteria view cs l s
  | OpBudget view b j l => (handle_set_goal_budget_command view b j l s).1
  | OpAbort view l => (stop_goal_on_manual_abort view l s).1
  | OpReactivate view l => (reactivate_goal_stopped_by_manual_abort view l s).1
  | OpClearMarker l => clear_goal_stopped_by_abort_marker l s
  | OpReadGraph => (sub_goal_graph s).2
  | OpDeclare d l => from_option fst s (declare_sub_goals limits d l s)
  | OpDispatch id o l => (dispatch_sub_goal id o l s).1
  | OpReport id r l => (record_sub_goal_report id r l s).1
  | OpSupersede id reason l => (supersede_sub_goal id reason l s).1
  | OpEnsureLane o ttl l => from_option fst s (ensure_and_dispatch_sub_goal_lane limits cap o ttl l s)
  end.
Definition run_goal_ops : GoalSession → list GoalOp → GoalSession := foldl (λ s o, apply_goal_op o s).

(** ** What an operation does to the ledger and its memo *)

Definition memo_of (s : GoalSession) : list GoalLedgerEntry * option SubGoalGraphCacheEntry :=
  (goal_ledger s, sub_goal_graph_cache s).
Definition entry_seq (l : list GoalLedgerEntry) : N := match last l with Some e => seq e + 1 | None => 1 end.
Definition declared_valid (g : SubGoalGraph) (o : GoalLedgerOp) : Prop :=
  match o with SubGoalsDeclared d => validate_declaration g d limits = Some (Ok ()) | _ => True end.

Inductive evolve (s s' : GoalSession) : Prop :=
  | evolve_same : memo_of s' = memo_of s → evolve s s'
  | evolve_read : memo_of s' = memo_of (sub_goal_graph s).2 → evolve s s'
  | evolve_append o now : memo_of s' = (goal_ledger s ++ [{| seq := entry_seq (goal_ledger s); at_ms := now; op := o |}], None) →
      declared_valid (sub_goal_graph s).1 o → evolve s s'
  | evolve_restamp e now : last (goal_ledger s) = Some e → is_nudge (op e) = true →
      memo_of s' = (restamp_last now (goal_ledger s), sub_goal_graph_cache s) → evolve s s'.

Lemma evolves_same s s' : memo_of s' = memo_of s → rtc evolve s s'.
Proof. intros H. by apply rtc_once, evolve_same. Qed.

(** A step that appends one harmless operation, whatever else it sets. *)
Lemma evolves_append s s' o now :
  memo_of s' = memo_of (append_op o now s) → match o with SubGoalsDeclared _ => False | _ => True end → rtc evolve s s'.
Proof. intros H Ho. apply rtc_once. eapply (evolve_append _ _ o now); [exact H|]. by destruct o. Qed.

Lemma append_evolves s o now : match o with SubGoalsDeclared _ => False | _ => True end → rtc evolve s (append_op o now s).
Proof. by apply (evolves_append _ _ o now). Qed.

Lemma logged_evolves s g o now :
  match o with SubGoalsDeclared _ => False | _ => True end →
  rtc evolve s (logged_change o now (put_goal g s)).
Proof. intros Ho. by apply (evolves_append _ _ o now). Qed.

Lemma set_status_evolves st reason l s : rtc evolve s (goal_set_status_reason st reason l s).1.
Proof.
  unfold goal_set_status_reason, with_goal. destruct (goal s) as [g|]; simpl; [|done].
  destruct (_ && _); [by apply evolves_same|]. by apply logged_evolves.
Qed.

Lemma ensure_installed_evolves l s : rtc evolve s (ensure_goal_ledger_installed l s).
Proof.
  unfold ensure_goal_ledger_installed. destruct (goal s) as [g|]; [|done]. destruct (existsb _ _); [done|].
  cbv zeta. case_bool_decide; [|by apply append_evolves]. etrans; by apply append_evolves.
Qed.

Lemma rebuild_evolves view l s : rtc evolve s (rebuild_goal_projection_from_messages view l s).
Proof. unfold rebuild_goal_projection_from_messages. etrans; [|apply ensure_installed_evolves]. by apply evolves_same. Qed.

Lemma read_evolves s : rtc evolve s (sub_goal_graph s).2.
Proof. by apply rtc_once, evolve_read. Qed.

(** A read answers from the memo or fills it. *)
Lemma read_cases s :
  sub_goal_graph s = ((sub_goal_graph s).1, s)
  ∨ sub_goal_graph s = (ledger_graph (goal_ledger s), put_cache (Some {| cached_seq := goal_ledger_last_seq s;
      cached_len := length (goal_ledger s); cached_graph := ledger_graph (goal_ledger s) |}) s).
Proof. unfold sub_goal_graph. destruct (sub_goal_graph_cache s) as [c|]; [destruct (_ && _)|]; auto. Qed.
Lemma read_ledger s : goal_ledger (sub_goal_graph s).2 = goal_ledger s.
Proof. by destruct (read_cases s) as [->| ->]. Qed.
Lemma read_goal s : goal (sub_goal_graph s).2 = goal s.
Proof. by destruct (read_cases s) as [->| ->]. Qed.

Lemma sub_goal_graph_again s : sub_goal_graph (sub_goal_graph s).2 = ((sub_goal_graph s).1, (sub_goal_graph s).2).
Proof.
  assert (∀ s g, sub_goal_graph (put_cache (Some {| cached_seq := goal_ledger_last_seq s; cached_len := length (goal_ledger s);
    cached_graph := g |}) s) = (g, put_cache (Some {| cached_seq := goal_ledger_last_seq s; cached_len := length (goal_ledger s);
    cached_graph := g |}) s)) as Hput.
  { intros t g. unfold sub_goal_graph. cbn [sub_goal_graph_cache put_cache cached_seq cached_len goal_ledger].
    change (goal_ledger_last_seq (put_cache _ t)) with (goal_ledger_last_seq t). by rewrite !bool_decide_eq_true_2. }
  destruct (read_cases s) as [H|H]; rewrite H; cbn [fst snd]; [done|apply Hput].
Qed.

Lemma lane_op_evolves id o l s : match o with SubGoalsDeclared _ => False | _ => True end → rtc evolve s (lane_op id o l s).1.
Proof.
  intros Ho. unfold lane_op. pose proof (read_evolves s) as Hr. destruct (sub_goal_graph s) as [g s1]. simpl in Hr.
  destruct (find_node g id); simpl; [|done]. etrans; [exact Hr|]. by apply (evolves_append _ _ o l).
Qed.

Lemma declare_evolves d l s : rtc evolve s (from_option fst s (declare_sub_goals limits d l s)).
Proof.
  unfold declare_sub_goals. pose proof (read_evolves s) as Hr. pose proof (sub_goal_graph_again s) as Ha.
  destruct (sub_goal_graph s) as [g s1]. simpl in Hr, Ha.
  destruct (validate_declaration g d limits) as [[[]|e]|] eqn:Hv; simpl; [|done|done].
  etrans; [exact Hr|]. apply rtc_once. eapply (evolve_append _ _ (SubGoalsDeclared d) l); [done|]. simpl. by rewrite Ha.
Qed.

Lemma ensure_lane_evolves o ttl l s : rtc evolve s (from_option fst s (ensure_and_dispatch_sub_goal_lane limits cap o ttl l s)).
Proof.
  unfold ensure_and_dispatch_sub_goal_lane, sub_goal_lane_for_owner. pose proof (read_evolves s) as Hr.
  destruct (sub_goal_graph s) as [g s1] eqn:Hg. simpl in Hr.
  destruct (node_id_of <$> _) as [id|]; [simpl; etrans; [exact Hr|by apply lane_op_evolves]|].
  destruct (goal s1) as [gl|]; [|done]. pose proof (read_evolves s1) as Hr2. destruct (sub_goal_graph s1) as [g2 s2]. simpl in Hr2.
  assert (rtc evolve s s2) as H2 by (by etrans). destruct (cap <=? auto_lanes g2)%nat; [done|].
  pose proof (declare_evolves (auto_declaration o ttl) l s2) as Hd.
  destruct (declare_sub_goals limits _ l s2) as [[s3 [sq|e]]|]; simpl in *; [|by etrans|done].
  etrans; [exact H2|]. etrans; [exact Hd|]. by apply lane_op_evolves.
Qed.

Lemma apply_evolves o s : rtc evolve s (apply_goal_op o s).
Proof.
  assert (Hwith : ∀ f, (∀ g, goal s = Some g → rtc evolve s (f g)) → rtc evolve s (with_goal f s).1).
  { intros f Hf. unfold with_goal. destruct (goal s) eqn:Hg; simpl; [by apply Hf|done]. }
  destruct o; cbn [apply_goal_op]; try (apply Hwith; intros g _; by apply logged_evolves); try by apply lane_op_evolves.
  - unfold goal_record_progress_from_usage, goal_record_progress_with_cost, with_goal. destruct (goal s) as [g|] eqn:Hg; [|done].
    cbn [goal put_evidence]. rewrite Hg. by eapply evolves_append.
  - apply Hwith. intros g Hg. cbv zeta. cbn [goal_ledger put_goal]. destruct (last (goal_ledger s)) as [e|] eqn:Hl.
    + destruct (is_nudge (op e)) eqn:Hn; [|by apply (evolves_append _ _ NudgeRecorded now_ms)].
      apply rtc_once. by eapply (evolve_restamp _ _ e now_ms).
    + by apply (evolves_append _ _ NudgeRecorded now_ms).
  - unfold goal_reset_no_progress. destruct (goal s) as [g|]; [|done]. cbv zeta.
    destruct (_ && _); [by apply evolves_same|by apply logged_evolves].
  - apply set_status_evolves.
  - unfold goal_begin_wait. destruct (goal s) as [g|]; [|done]. destruct (goal_wait_of g); [done|by apply logged_evolves].
  - unfold goal_settle_wait. destruct (goal s) as [g|]; [|done]. destruct (goal_wait_of g) as [w|]; [|done].
    destruct (match subj with Some _ => _ | None => _ end); [done|by apply logged_evolves].
  - by apply evolves_same.
  - apply rebuild_evolves.
  - unfold install_goal_with_criteria. etrans; [apply rebuild_evolves|]. cbv zeta. case_bool_decide; [by apply evolves_same|].
    by apply (evolves_append _ _ (CriteriaSet cs) logged).
  - unfold handle_set_goal_budget_command. destruct (goal s) as [g|]; [|done]. destruct view as [|[base|]]; [done| |done]. cbv zeta.
    etrans; [apply rebuild_evolves|]. cbn [fst]. etrans; [by apply (append_evolves _ (BudgetSet (explicit_budget b)) logged)|].
    destruct (g ← _; _); [|by apply evolves_same]. etrans; [apply set_status_evolves|by apply evolves_same].
  - unfold stop_goal_on_manual_abort. destruct (match goal s with Some _ => _ | None => _ end); [|done]. cbv zeta. cbn [fst].
    etrans; [apply (set_status_evolves Stopped "manual_abort" logged)|]. destruct view; cbn [add_pursuit_message]; [|by apply evolves_same].
    etrans; [|apply rebuild_evolves]. by apply evolves_same.
  - unfold reactivate_goal_stopped_by_manual_abort. destruct (_ && _); [done|]. cbv zeta.
    destruct (match goal _ with Some _ => _ | None => _ end); [|by apply evolves_same]. cbn [fst].
    etrans; [by eapply (evolves_same _ (put_stopped_by_abort false s))|]. etrans; [apply (set_status_evolves Active "" logged)|].
    destruct view; cbn [add_pursuit_message]; [apply rebuild_evolves|done].
  - unfold clear_goal_stopped_by_abort_marker. cbv zeta. etrans; [by eapply (evolves_same _ (put_stopped_by_abort false s))|].
    destruct (match goal _ with Some _ => _ | None => _ end); [apply set_status_evolves|done].
  - apply read_evolves.
  - apply declare_evolves.
  - apply ensure_lane_evolves.
Qed.

Lemma run_evolves os s : rtc evolve s (run_goal_ops s os).
Proof. revert s. induction os as [|o os IH]; intros s; [done|]. etrans; [apply apply_evolves|apply IH]. Qed.

(** ** The ledger is numbered and its memo is current *)

Lemma reduce_snoc l e : reduce_goal_ledger (l ++ [e]) = reduce_entry (reduce_goal_ledger l) e.
Proof. apply foldl_snoc. Qed.

Definition consecutive (l : list GoalLedgerEntry) : Prop := ∀ i e, l !! i = Some e → seq e = N.of_nat i + 1.
Definition memo_current (s : GoalSession) : Prop := (sub_goal_graph s).1 = ledger_graph (goal_ledger s).

(** What the graph becomes when an operation is recorded. *)
Definition graph_after (o : GoalLedgerOp) (g : SubGoalGraph) : SubGoalGraph :=
  match o with
  | Installed _ _ _ _ => empty_graph
  | SubGoalsDeclared d => apply_declaration d g
  | SubGoalDispatched id o => mark_dispatched id o g
  | SubGoalReported id r => record_report id r g
  | SubGoalSuperseded id reason => supersede id reason g
  | _ => g
  end.
Lemma ledger_graph_snoc l e :
  ledger_graph (l ++ [e]) =
  match reduce_goal_ledger l with
  | Some _ => graph_after (op e) (ledger_graph l)
  | None => empty_graph
  end.
Proof.
  unfold ledger_graph. rewrite reduce_snoc. unfold reduce_entry. destruct (reduce_goal_ledger l) as [st|], (op e); done.
Qed.

Lemma restamp_snoc now l e : restamp_last now (l ++ [e]) = l ++ [{| seq := seq e; at_ms := now; op := op e |}].
Proof. unfold restamp_last. by rewrite last_snoc, removelast_last. Qed.

Lemma restamp_graph now l e : last l = Some e → is_nudge (op e) = true → ledger_graph (restamp_last now l) = ledger_graph l.
Proof.
  intros (l' & ->)%last_Some Hn. rewrite restamp_snoc, !ledger_graph_snoc. simpl. done.
Qed.

Lemma memo_current_of s s' : memo_of s' = memo_of s → memo_current s → memo_current s'.
Proof.
  unfold memo_of, memo_current, sub_goal_graph, goal_ledger_last_seq. intros [= Hl Hc]. rewrite Hl, Hc.
  destruct (sub_goal_graph_cache s) as [c|]; [|done]. by destruct (_ && _).
Qed.

Lemma evolve_memo s s' : memo_current s → evolve s s' → memo_current s'.
Proof.
  intros Hm [H|H|o now H _|e now Hlast Hn H].
  - by eapply memo_current_of.
  - eapply memo_current_of; [exact H|]. unfold memo_current. rewrite sub_goal_graph_again. cbn [fst]. by rewrite Hm, read_ledger.
  - unfold memo_current, sub_goal_graph. injection H as Hl Hc. by rewrite Hc.
  - injection H as Hl Hc. pose proof (restamp_graph now _ _ Hlast Hn) as Hg. apply last_Some in Hlast as (l' & Hlast).
    assert (goal_ledger_last_seq s' = goal_ledger_last_seq s ∧ length (goal_ledger s') = length (goal_ledger s)) as [Hs Hlen].
    { unfold goal_ledger_last_seq. by rewrite Hl, Hlast, restamp_snoc, !last_snoc, !length_app. }
    revert Hm. unfold memo_current, sub_goal_graph. rewrite Hs, Hlen, Hc, Hl, Hg.
    destruct (sub_goal_graph_cache s) as [c|]; [destruct (_ && _)|]; done.
Qed.

Lemma evolve_consecutive s s' : consecutive (goal_ledger s) → evolve s s' → consecutive (goal_ledger s').
Proof.
  intros Hc [H|H|o now H _|e now Hlast Hn H].
  - by injection H as -> _.
  - injection H as -> _. by rewrite read_ledger.
  - injection H as -> _. intros i e [Hi|[Hi [Hi' <-]%list_lookup_singleton_Some]]%lookup_app_Some; [by apply Hc|]. simpl.
    unfold entry_seq. rewrite last_lookup. destruct (goal_ledger s !! _) as [x|] eqn:Hx.
    + pose proof (Hc _ _ Hx). apply lookup_lt_Some in Hx. lia.
    + apply lookup_ge_None in Hx. lia.
  - injection H as -> _. apply last_Some in Hlast as (l' & Hlast). rewrite Hlast, restamp_snoc in *. intros i x Hi.
    apply lookup_app_Some in Hi as [Hi|[Hi [Hi' <-]%list_lookup_singleton_Some]].
    + apply Hc. by apply lookup_app_l_Some.
    + apply (Hc i e). rewrite lookup_app_r, Hi' by done. done.
Qed.

Lemma evolve_graph s s' :
  memo_current s → graph_ok limits (ledger_graph (goal_ledger s)) → evolve s s' → graph_ok limits (ledger_graph (goal_ledger s')).
Proof.
  intros Hm Hg [H|H|o now H Ho|e now Hlast Hn H].
  - by injection H as -> _.
  - injection H as -> _. by rewrite read_ledger.
  - injection H as -> _. rewrite ledger_graph_snoc. destruct (reduce_goal_ledger _) as [st|]; [|apply empty_graph_ok]. rewrite Hm in Ho.
    destruct o; cbn [op graph_after]; try exact Hg; [apply empty_graph_ok|by apply declared_ok|by apply mark_dispatched_ok
      |by apply record_report_ok|by apply supersede_ok].
  - injection H as -> _. by rewrite (restamp_graph _ _ e).
Qed.

Lemma evolves_sound s s' :
  rtc evolve s s' → consecutive (goal_ledger s) → memo_current s → graph_ok limits (ledger_graph (goal_ledger s)) →
  consecutive (goal_ledger s') ∧ memo_current s' ∧ graph_ok limits (ledger_graph (goal_ledger s')).
Proof.
  induction 1 as [s|s1 s2 s3 Hstep _ IH]; intros Hc Hm Hg; [done|].
  apply IH; [by eapply evolve_consecutive|by eapply evolve_memo|by eapply evolve_graph].
Qed.

(** Whatever operations run, with whatever clock, the entries of the ledger stay numbered from 1
    without gaps, the memo answers the graph the ledger reduces to, and that graph stays an
    acyclic graph of distinct lanes within the limits. *)
Lemma session_ledger_is_sound os s :
  consecutive (goal_ledger s) → memo_current s → graph_ok limits (ledger_graph (goal_ledger s)) →
  let s' := run_goal_ops s os in
  consecutive (goal_ledger s') ∧ (sub_goal_graph s').1 = ledger_graph (goal_ledger s')
  ∧ graph_ok limits (ledger_graph (goal_ledger s')).
Proof.
  intros Hc Hm Hg. apply (evolves_sound s); [apply run_evolves|done..].
Qed.
End session.
