(* ===== verification/GoalProps.v ===== *)
(** * The ledger replays the goal

    Reducing the ledger of a session gives back what the live snapshot holds, so a restart
    loses nothing that the ledger tracks, along the runs that are faithful ([faithful_run]). *)

From stdpp Require Import gmap strings list relations.
From S2P Require Import Prelude SubGoal SubGoalProps SubGoalGraphProps GoalLedger GoalSession GoalSessionProps.

Open Scope N_scope.

(** ** What is tracked *)

Definition tracked (g : GoalSnapshot) :=
  (version g, active g, status g, budget g, progress g, attempts g, criteria g, snoozed_until_ms g, goal_wait_of g,
   stop_reason g).
Definition replayed (st : GoalLedgerState) :=
  (gl_version st, gl_active st, gl_status st, gl_budget st, gl_progress st, gl_attempts st, gl_criteria st,
   gl_snoozed_until_ms st, gl_wait st, gl_stop_reason st).
Definition agrees (s : GoalSession) : Prop :=
  ∀ g, goal s = Some g → replayed <$> reduce_goal_ledger (goal_ledger s) = Some (tracked g).

(** An operation that reads one time throughout. *)
Definition one_clock (o : GoalOp) : Prop :=
  match o with
  | OpProgress st j l _ _ _ | OpUsage st j l _ _ _ | OpVerifier st j l _ | OpNoProgress st j l => st = l ∧ j = l
  | OpReset j l => j = l
  | _ => True
  end.

Definition not_installed (v : N) (s : GoalSession) : Prop :=
  existsb (λ e, installs v (op e)) (goal_ledger s) = false.
(** The messages keep the goal and its budget, or install a goal that starts afresh. *)
Definition keeps_goal (view : MessagesView) (s : GoalSession) : Prop :=
  match view with
  | Readable (Some b) =>
      (∃ g, goal s = Some g ∧ version g = base_version b
            ∧ migrate_legacy_default_hard_limits (default (budget g) (meta_budget b)) = budget g)
      ∨ (not_installed (base_version b) s ∧ (∀ g, goal s = Some g → version g ≠ base_version b)
         ∧ meta_progress b = None ∧ meta_attempts b = None)
  | _ => True
  end.
Definition keeps_goal_after (view : option MessagesView) (s : GoalSession) : Prop :=
  match view with
  | Some (Readable (Some b)) =>
      ∃ g, goal s = Some g ∧ version g = base_version b
           ∧ migrate_legacy_default_hard_limits (default (budget g) (meta_budget b)) = budget g
  | _ => True
  end.
Definition faithful_op (o : GoalOp) (s : GoalSession) : Prop :=
  one_clock o ∧
  match o with
  | OpRebuild view _ | OpInstall view _ _ => keeps_goal view s
  | OpBudget (Readable (Some b)) _ _ _ => ∃ g, goal s = Some g ∧ version g = base_version b
  | OpAbort view _ | OpReactivate view _ => keeps_goal_after view s
  | _ => True
  end.

(** ** Appending *)

Lemma append_agrees o now s g' :
  match o with Installed _ _ _ _ => False | _ => True end → goal (append_op o now s) = Some g' →
  (∀ st, reduce_goal_ledger (goal_ledger s) = Some st → replayed (apply_op o now st) = tracked g') →
  is_Some (reduce_goal_ledger (goal_ledger s)) → agrees (append_op o now s).
Proof.
  intros Ho Hg Hst [st Hs] g Hg2. assert (g = g') as -> by congruence. simpl. rewrite reduce_snoc, Hs. unfold reduce_entry. simpl.
  rewrite <- (Hst st Hs). by destruct o.
Qed.

Lemma agrees_of s s' : goal s' = goal s → goal_ledger s' = goal_ledger s → agrees s → agrees s'.
Proof. unfold agrees. intros Hg Hl. by rewrite Hg, Hl. Qed.

Lemma agrees_reduce s g :
  agrees s → goal s = Some g → ∃ st, reduce_goal_ledger (goal_ledger s) = Some st ∧ replayed st = tracked g.
Proof.
  intros Ha Hg. specialize (Ha g Hg). destruct (reduce_goal_ledger _) as [st|]; [|done]. exists st. split; [done|].
  by apply (inj Some) in Ha.
Qed.

(** The snapshot and the replay take the same step. *)
Lemma logged_agrees o now s g g' :
  agrees s → goal s = Some g → match o with Installed _ _ _ _ => False | _ => True end →
  (∀ st, replayed st = tracked g → replayed (apply_op o now st) = tracked g') →
  agrees (logged_change o now (put_goal (Some g') s)).
Proof.
  intros Ha Hg Ho Hst. destruct (agrees_reduce s g Ha Hg) as (st & Hs & Hr).
  apply (agrees_of (append_op o now (put_goal (Some g') s))); [done|done|].
  apply (append_agrees o now _ g'); [done|done| |by exists st]. simpl. intros st' Hs'. apply Hst. congruence.
Qed.

Ltac replay_step :=
  let st := fresh "st" in let H := fresh in
  intros st H; destruct st; unfold replayed, tracked in *; cbn in *;
  injection H as -> -> -> -> -> -> -> -> -> ->; reflexivity.

Lemma set_status_agrees st reason l s : agrees s → agrees (goal_set_status_reason st reason l s).1.
Proof.
  intros Ha. unfold goal_set_status_reason, with_goal. destruct (goal s) as [g|] eqn:Hg; [|done]. simpl.
  destruct (_ && _); [by apply (agrees_of s)|]. eapply logged_agrees; [done|done|done|]. replay_step.
Qed.

Lemma put_marker_agrees b s : agrees s → agrees (put_stopped_by_abort b s).
Proof. by apply agrees_of. Qed.

(** ** Rebuilding *)

Lemma reduce_installed l st : reduce_goal_ledger l = Some st → existsb (λ e, installs (gl_version st) (op e)) l = true.
Proof.
  revert st. induction l as [|e l IH] using rev_ind; intros st; [done|]. rewrite reduce_snoc. unfold reduce_entry. intros H.
  rewrite existsb_app. apply orb_true_iff. simpl. rewrite orb_false_r.
  apply fmap_Some in H as (st' & H & ->). destruct (op e) as [v a b cs| | | | | | | | | | | | | | | | | |] eqn:Ho.
  1: { right. injection H as <-. simpl. apply N.eqb_refl. }
  all: left; apply fmap_Some in H as (st0 & H & ->); by apply IH in H; destruct st0.
Qed.

Lemma ensure_installed_noop l s g :
  agrees s → goal s = Some g → ensure_goal_ledger_installed l s = s.
Proof.
  intros Ha Hg. destruct (agrees_reduce s g Ha Hg) as (st & Hs & Hr). unfold ensure_goal_ledger_installed. rewrite Hg.
  apply reduce_installed in Hs. assert (gl_version st = version g) as Hv by (by injection Hr). by rewrite <- Hv, Hs.
Qed.

(** The current goal's message only gives it its budget. *)
Lemma rebuild_same view b l s g :
  agrees s → goal s = Some g → view = Readable (Some b) → version g = base_version b →
  let s' := rebuild_goal_projection_from_messages view l s in
  let bd := migrate_legacy_default_hard_limits (default (budget g) (meta_budget b)) in
  goal_ledger s' = goal_ledger s ∧ ∃ g', goal s' = Some g' ∧ budget g' = bd ∧
    ∀ st, replayed st = tracked g → replayed (gl_set_budget bd st) = tracked g'.
Proof.
  intros Ha Hg -> Hv. cbv zeta. destruct (agrees_reduce s g Ha Hg) as (st & Hs & Hr).
  unfold rebuild_goal_projection_from_messages. rewrite Hg. cbn [goal_snapshot_from_messages fmap option_fmap option_map].
  unfold snapshot_of_base. rewrite (bool_decide_eq_true_2 (version g = base_version b)) by done. cbn.
  unfold ensure_goal_ledger_installed. cbn. apply reduce_installed in Hs.
  assert (gl_version st = base_version b) as Hv' by (rewrite <- Hv; by injection Hr). rewrite Hv' in Hs. rewrite Hs. cbn.
  split; [done|]. eexists. split; [done|]. split; [by destruct (meta_budget b)|].
  clear -Hv. intros st H. destruct st. unfold replayed, tracked in *. cbn in *. injection H as -> -> -> -> -> -> -> -> -> ->.
  rewrite Hv. by destruct (meta_budget b).
Qed.

Lemma rebuild_new b l s :
  not_installed (base_version b) s → (∀ g, goal s = Some g → version g ≠ base_version b) →
  meta_progress b = None → meta_attempts b = None →
  agrees (rebuild_goal_projection_from_messages (Readable (Some b)) l s).
Proof.
  intros Hni Hv Hp Hat. unfold rebuild_goal_projection_from_messages. cbn [goal_snapshot_from_messages fmap option_fmap option_map].
  set (g := own_goal (chat_id s) (goal s) (snapshot_of_base b (goal s))).
  assert (version g = base_version b ∧ progress g = default_GoalProgress ∧ attempts g = [] ∧ snoozed_until_ms g = None
    ∧ goal_wait_of g = None ∧ stop_reason g = None) as (Hgv & Hgp & Hga & Hgs & Hgw & Hgr).
  { unfold g, snapshot_of_base. destruct (goal s) as [g0|] eqn:Hg0;
      [rewrite (bool_decide_eq_false_2 (version g0 = base_version b)) by (by apply Hv)|]; cbn; rewrite Hp, Hat; destruct (exhausted_status _ && _); by split_and!. }
  change (own_goal _ _ <$> Some (snapshot_of_base b (goal s))) with (Some g). clearbody g.
  unfold ensure_goal_ledger_installed. cbn [goal refresh_goal_runtime_mirror put_mirror put_goal goal_ledger]. rewrite Hgv, Hni, Hgr.
  intros g' Hg'. case_bool_decide as Hst; cbn in Hg'; injection Hg' as <-; cbn; rewrite ?reduce_snoc; unfold reduce_entry, tracked, replayed; cbn;
    rewrite ?Hgv, ?Hgp, ?Hga, ?Hgs, ?Hgw, ?Hgr; [by destruct (status g)|]. rewrite Hst. by destruct (active g).
Qed.

Lemma rebuild_agrees view l s : agrees s → keeps_goal view s → agrees (rebuild_goal_projection_from_messages view l s).
Proof.
  intros Ha Hk. destruct view as [|[b|]].
  - unfold rebuild_goal_projection_from_messages. cbn [goal_snapshot_from_messages]. destruct (goal s) as [g|] eqn:Hg.
    + assert (agrees (refresh_goal_runtime_mirror (put_goal (own_goal (chat_id s) (Some g) <$> Some g) s))) as Ha'.
      { intros g' Hg'. simpl in Hg'. injection Hg' as <-. exact (Ha g Hg). }
      erewrite ensure_installed_noop; [exact Ha'|exact Ha'|done].
    + by intros g Hg'.
  - destruct Hk as [(g & Hg & Hv & Hb)|(Hn & Hv & Hp & Hat)]; [|by apply rebuild_new].
    destruct (rebuild_same (Readable (Some b)) b l s g Ha Hg eq_refl Hv) as (Hl & g' & Hg' & _ & Hr).
    destruct (agrees_reduce s g Ha Hg) as (st & Hs & Hst). intros g2 Hg2. rewrite Hg' in Hg2. injection Hg2 as <-.
    rewrite Hl, Hs. simpl. f_equal. rewrite <- (Hr st Hst), Hb. clear -Hst. destruct st. unfold replayed, tracked in *. cbn in *.
    by injection Hst as -> -> -> -> -> -> -> -> -> ->.
  - by intros g Hg.
Qed.

Lemma set_status_goal st reason l s g :
  goal s = Some g →
  ∃ g', goal (goal_set_status_reason st reason l s).1 = Some g' ∧ version g' = version g ∧ budget g' = budget g.
Proof.
  intros Hg. unfold goal_set_status_reason, with_goal. rewrite Hg. simpl. destruct (_ && _); by eexists.
Qed.

(** The message of a stop or a resumption leads to a rebuild of the goal the status was set on. *)
Lemma pursuit_agrees view b st reason l s :
  agrees s → keeps_goal_after view s →
  agrees (add_pursuit_message view l (put_stopped_by_abort b (goal_set_status_reason st reason l s).1)).
Proof.
  intros Ha Hk. pose proof (set_status_agrees st reason l s Ha) as Ha'.
  destruct view as [view|]; cbn [add_pursuit_message]; [|by apply put_marker_agrees].
  apply rebuild_agrees; [by apply put_marker_agrees|]. destruct view as [|[base|]]; [done| |done]. left.
  destruct Hk as (g & Hg & Hv & Hb). destruct (set_status_goal st reason l s g Hg) as (g' & Hg' & Hv' & Hb'). exists g'.
  by rewrite Hv', Hb'.
Qed.

Lemma untracked_agrees o now s :
  match o with Installed _ _ _ _ => False | _ => True end →
  (∀ st, replayed (apply_op o now st) = replayed st) → agrees s → agrees (append_op o now s).
Proof.
  intros Ho Hst Ha g Hg. destruct (agrees_reduce s g Ha Hg) as (st & Hs & Hr).
  apply (append_agrees o now s g); [done|done| |by exists st|done]. intros st' Hs'. rewrite Hst. congruence.
Qed.

Lemma read_agrees s : agrees s → agrees (sub_goal_graph s).2.
Proof. apply agrees_of; [apply read_goal|apply read_ledger]. Qed.

Lemma lane_op_agrees id o l s :
  match o with Installed _ _ _ _ => False | _ => True end →
  (∀ st, replayed (apply_op o l st) = replayed st) → agrees s → agrees (lane_op id o l s).1.
Proof.
  intros Ho Hst Ha. unfold lane_op. pose proof (read_agrees s Ha) as Hr. destruct (sub_goal_graph s) as [g s1].
  destruct (find_node g id); [|done]. apply (agrees_of (append_op o l s1)); [done|done|]. by apply untracked_agrees.
Qed.

Lemma declare_agrees limits d l s : agrees s → agrees (from_option fst s (declare_sub_goals limits d l s)).
Proof.
  intros Ha. unfold declare_sub_goals. pose proof (read_agrees s Ha) as Hr. destruct (sub_goal_graph s) as [g s1].
  destruct (validate_declaration g d limits) as [[[]|e]|]; simpl; [|done|done].
  apply (agrees_of (append_op (SubGoalsDeclared d) l s1)); [done|done|]. by apply untracked_agrees.
Qed.

Lemma ensure_lane_agrees limits cap o ttl l s :
  agrees s → agrees (from_option fst s (ensure_and_dispatch_sub_goal_lane limits cap o ttl l s)).
Proof.
  intros Ha. unfold ensure_and_dispatch_sub_goal_lane, sub_goal_lane_for_owner. pose proof (read_agrees s Ha) as Hr.
  destruct (sub_goal_graph s) as [g s1]. destruct (node_id_of <$> _) as [id|]; [by apply lane_op_agrees|].
  destruct (goal s1) as [gl|]; [|done]. pose proof (read_agrees s1 Hr) as Hr2. destruct (sub_goal_graph s1) as [g2 s2].
  destruct (cap <=? auto_lanes g2)%nat; [done|]. pose proof (declare_agrees limits (auto_declaration o ttl) l s2 Hr2) as Hd.
  destruct (declare_sub_goals limits _ l s2) as [[s3 [sq|e]]|]; simpl in *; [|done|done]. by apply lane_op_agrees.
Qed.

Lemma explicit_budget_kept b : migrate_legacy_default_hard_limits (explicit_budget b) = explicit_budget b.
Proof. done. Qed.

Lemma budget_agrees view b j l s :
  agrees s → match view with Readable (Some base) => ∃ g, goal s = Some g ∧ version g = base_version base | _ => True end →
  agrees (handle_set_goal_budget_command view b j l s).1.
Proof.
  intros Ha Hk. unfold handle_set_goal_budget_command. destruct (goal s) as [g|] eqn:Hg; [|done].
  destruct view as [|[base|]]; [done| |done]. destruct Hk as (g0 & Hg0 & Hv). injection Hg0 as <-. cbv zeta. cbn [fst].
  destruct (rebuild_same _ (with_meta_budget (explicit_budget b) base) l s g Ha Hg eq_refl Hv) as (Hl & g' & Hg' & _ & Hr).
  change (default _ _) with (explicit_budget b) in Hr. rewrite explicit_budget_kept in Hr.
  destruct (agrees_reduce s g Ha Hg) as (st & Hs & Hst).
  set (s1 := rebuild_goal_projection_from_messages _ l s) in *.
  assert (agrees (append_op (BudgetSet (explicit_budget b)) l s1)) as Ha1.
  { apply (append_agrees _ _ _ g'); [done|done| |rewrite Hl; by exists st]. rewrite Hl. intros st' Hs'. apply Hr. congruence. }
  destruct (g ← _; _); [|by apply (agrees_of (append_op (BudgetSet (explicit_budget b)) l s1))].
  eapply agrees_of; [..|apply set_status_agrees, Ha1]; done.
Qed.

Lemma apply_agrees limits cap o s : agrees s → faithful_op o s → agrees (apply_goal_op limits cap o s).
Proof.
  intros Ha [Hc Hk].
  assert (Hwith : ∀ f, (∀ g, goal s = Some g → agrees (f g)) → agrees (with_goal f s).1).
  { intros f Hf. unfold with_goal. destruct (goal s) eqn:Hg; simpl; [by apply Hf|done]. }
  destruct o; cbn [apply_goal_op one_clock] in *.
  - destruct Hc as [-> ->]. apply Hwith. intros g Hg. eapply logged_agrees; [done|done|done|]. replay_step.
  - destruct Hc as [-> ->]. unfold goal_record_progress_from_usage, goal_record_progress_with_cost, with_goal.
    destruct (goal s) as [g|] eqn:Hg; [|done]. cbn [goal put_evidence]. rewrite Hg. cbn [fst].
    eapply (logged_agrees _ _ (put_evidence false s) g); [by apply (agrees_of s)|done|done|]. replay_step.
  - destruct Hc as [-> ->]. apply Hwith. intros g Hg. eapply logged_agrees; [done|done|done|]. replay_step.
  - destruct Hc as [-> ->]. apply Hwith. intros g Hg. eapply logged_agrees; [done|done|done|]. replay_step.
  - apply Hwith. intros g Hg. cbv zeta. cbn [goal_ledger put_goal].
    assert (Happ : agrees (logged_change NudgeRecorded now_ms (put_goal (Some (goal_record_nudge_of now_ms g)) s))).
    { eapply logged_agrees; [done|done|done|]. replay_step. }
    destruct (last (goal_ledger s)) as [e|] eqn:Hl; [|exact Happ]. destruct (is_nudge (op e)) eqn:Hn; [|exact Happ].
    destruct (agrees_reduce s g Ha Hg) as (st & Hs & Hst). intros g' Hg'. injection Hg' as <-. cbn.
    apply last_Some in Hl as (l & Hl). rewrite Hl in *. rewrite restamp_snoc, reduce_snoc. rewrite reduce_snoc in Hs.
    unfold reduce_entry in *. cbn [op at_ms seq]. destruct (op e); try done. destruct (reduce_goal_ledger l) as [st0|]; [|done].
    cbn in Hs. injection Hs as <-. unfold replayed, tracked in *. destruct st0. cbn in *. injection Hst as -> -> -> -> <- -> -> -> -> ->. done.
  - subst judged. unfold goal_reset_no_progress. destruct (goal s) as [g|] eqn:Hg; [|done]. cbv zeta.
    destruct (_ && _) eqn:Hsame.
    + apply andb_prop in Hsame as [[[Hn Hst]%andb_prop Hsn]%andb_prop Hw]. apply bool_decide_eq_true in Hn, Hst, Hsn. apply eqb_prop in Hw.
      intros g' Hg'. cbn [fst goal put_goal] in Hg'. injection Hg' as <-. cbn [fst goal_ledger put_goal]. rewrite (Ha g Hg). f_equal. unfold tracked.
      assert (goal_wait_of g = None) as Hw' by (by destruct (goal_wait_of g)).
      unfold goal_reset_no_progress_of in *. destruct g as [? ? ? ? ? ? ? p ? ? ? ? ? ? ? ? ?]. cbn in *. subst. rewrite <- Hst.
      destruct p. cbn in *. by subst.
    + eapply logged_agrees; [done|done|done|]. replay_step.
  - by apply set_status_agrees.
  - apply Hwith. intros g Hg. eapply logged_agrees; [done|done|done|]. replay_step.
  - unfold goal_begin_wait. destruct (goal s) as [g|] eqn:Hg; [|done]. destruct (goal_wait_of g); [done|]. cbn [fst].
    eapply logged_agrees; [done|done|done|]. replay_step.
  - unfold goal_settle_wait. destruct (goal s) as [g|] eqn:Hg; [|done]. destruct (goal_wait_of g) as [w|]; [|done].
    destruct (match subj with Some _ => _ | None => _ end); [done|]. cbn [fst]. eapply logged_agrees; [done|done|done|]. replay_step.
  - by apply (agrees_of s).
  - apply Hwith. intros g Hg. eapply logged_agrees; [done|done|done|]. replay_step.
  - apply Hwith. intros g Hg. eapply logged_agrees; [done|done|done|]. replay_step.
  - by apply rebuild_agrees.
  - unfold install_goal_with_criteria. pose proof (rebuild_agrees view logged s Ha Hk) as Ha1. cbv zeta.
    set (s1 := rebuild_goal_projection_from_messages view logged s) in *. case_bool_decide; [by apply (agrees_of s1)|].
    destruct (goal s1) as [g|] eqn:Hg; [|by intros g Hg'].
    assert (agrees (logged_change (CriteriaSet cs) logged (put_goal (Some (set_criteria cs g)) s1))) as H2; [|by eapply agrees_of, H2].
    eapply logged_agrees; [done|done|done|]. replay_step.
  - by apply budget_agrees.
  - unfold stop_goal_on_manual_abort. destruct (match goal s with Some _ => _ | None => _ end); [|done]. by apply pursuit_agrees.
  - unfold reactivate_goal_stopped_by_manual_abort. destruct (_ && _); [done|]. cbv zeta.
    destruct (match goal _ with Some _ => _ | None => _ end); [|by apply put_marker_agrees]. cbn [fst].
    eapply agrees_of; [..|apply (pursuit_agrees view (goal_stopped_by_abort (goal_set_status_reason Active "" logged (put_stopped_by_abort false s)).1)
      Active "" logged (put_stopped_by_abort false s)); [by apply put_marker_agrees|exact Hk]]; by destruct (goal_set_status_reason _ _ _ _).1.
  - unfold clear_goal_stopped_by_abort_marker. cbv zeta. destruct (match goal _ with Some _ => _ | None => _ end); [|by apply put_marker_agrees].
    by apply set_status_agrees, put_marker_agrees.
  - by apply read_agrees.
  - by apply declare_agrees.
  - by apply lane_op_agrees.
  - by apply lane_op_agrees.
  - by apply lane_op_agrees.
  - by apply ensure_lane_agrees.
Qed.

(** ** Runs *)

Inductive faithful_run (limits : SubGoalLimits) (cap : nat) : GoalSession → list GoalOp → Prop :=
  | faithful_nil s : faithful_run limits cap s []
  | faithful_cons s o os :
      faithful_op o s → faithful_run limits cap (apply_goal_op limits cap o s) os → faithful_run limits cap s (o :: os).

Lemma run_agrees limits cap s os : agrees s → faithful_run limits cap s os → agrees (run_goal_ops limits cap s os).
Proof. intros Ha Hr. induction Hr as [s|s o os Ho _ IH]; [done|]. apply IH. by apply apply_agrees. Qed.

(** ** What the goal promises

    The replay, the wait, the budget and the automatic lanes of a session's goal, with their
    witnesses and the two ways in which the replay can differ from the live goal. *)


(** ** Replay *)

(** C29. A session whose goal its ledger replays keeps that through any [faithful_run] of operations: reducing
    the ledger then gives back what the ledger tracks of the live goal, its version, activity, status,
    budget, progress, attempts, criteria, snooze, wait and stop reason.  A run is faithful when (1) the clock
    reads within one accounting step agree; (2) at each rebuild and each install of criteria the messages are
    unreadable, or hold no goal, or hold the live goal with the live budget, or a goal whose version the ledger
    has not installed, that is not the live one's and that brings no progress or attempts; (3) a
    budget is set for the live goal; (4) the messages read at an abort or a reactivation hold the live goal with
    the live budget, or none.  Outside of these the claim fails: [separate_reads_diverge] for (1) and
    [earlier_goal_is_not_replayed] for (2). *)
Theorem ledger_replays_the_goal limits cap s os g :
  agrees s → faithful_run limits cap s os → goal (run_goal_ops limits cap s os) = Some g →
  ∃ st, reduce_goal_ledger (goal_ledger (run_goal_ops limits cap s os)) = Some st ∧ replayed st = tracked g.
Proof.
  intros Ha Hr. apply agrees_reduce. by apply run_agrees.
Qed.

(** ** Waiting *)

Definition no_wait (s : GoalSession) : Prop := ∀ g, goal s = Some g → goal_wait_of g = None.

Lemma ensure_no_wait l s : no_wait s → no_wait (ensure_goal_ledger_installed l s).
Proof.
  intros Hw. unfold ensure_goal_ledger_installed. destruct (goal s) as [g|] eqn:Hg; [|done]. destruct (existsb _ _); [done|].
  cbv zeta. by case_bool_decide.
Qed.

Lemma rebuild_no_wait view l s : no_wait s → no_wait (rebuild_goal_projection_from_messages view l s).
Proof.
  intros Hw. unfold rebuild_goal_projection_from_messages.
  set (g := own_goal _ _ <$> _). assert (no_wait (refresh_goal_runtime_mirror (put_goal g s))) as H.
  { intros x Hx. unfold g in Hx. cbn in Hx. apply fmap_Some in Hx as (y & Hy & ->). simpl.
    destruct view as [|[b|]]; simpl in Hy; [by apply Hw| |done]. injection Hy as <-. unfold snapshot_of_base.
    assert (match goal s with Some g => goal_wait_of g = None | None => True end) as Hp by (destruct (goal s) eqn:E; [by apply Hw|done]).
    destruct (goal s) as [p|]; [destruct (bool_decide (version p = base_version b))|]; simpl; try destruct (exhausted_status _ && _); done. }
  by apply ensure_no_wait.
Qed.

Lemma set_status_no_wait st reason l s : no_wait s → no_wait (goal_set_status_reason st reason l s).1.
Proof.
  intros Hw. unfold goal_set_status_reason, with_goal. destruct (goal s) as [g|] eqn:Hg; [|done]. simpl.
  destruct (_ && _); [done|]. intros x [= <-]. simpl. by apply Hw.
Qed.

Lemma keeps_no_wait s s' : goal s' = goal s → no_wait s → no_wait s'.
Proof. intros H Hw g. rewrite H. apply Hw. Qed.

Lemma lane_op_goal id o l s : goal (lane_op id o l s).1 = goal s.
Proof.
  unfold lane_op. pose proof (read_goal s) as Hr. destruct (sub_goal_graph s) as [g s1]. by destruct (find_node g id).
Qed.
Lemma declare_goal limits d l s : goal (from_option fst s (declare_sub_goals limits d l s)) = goal s.
Proof.
  unfold declare_sub_goals. pose proof (read_goal s) as Hr. destruct (sub_goal_graph s) as [g s1].
  by destruct (validate_declaration g d limits) as [[[]|e]|].
Qed.
Lemma ensure_lane_goal limits cap o ttl l s :
  goal (from_option fst s (ensure_and_dispatch_sub_goal_lane limits cap o ttl l s)) = goal s.
Proof.
  unfold ensure_and_dispatch_sub_goal_lane, sub_goal_lane_for_owner. pose proof (read_goal s) as Hr.
  destruct (sub_goal_graph s) as [g s1]. simpl in Hr. destruct (node_id_of <$> _) as [id|]; [cbn; by rewrite <- Hr; apply lane_op_goal|].
  destruct (goal s1) as [gl|] eqn:Hg1; [|cbn; congruence]. pose proof (read_goal s1) as Hr2. destruct (sub_goal_graph s1) as [g2 s2]. simpl in Hr2.
  destruct (cap <=? auto_lanes g2)%nat; [cbn; congruence|]. pose proof (declare_goal limits (auto_declaration o ttl) l s2) as Hd.
  destruct (declare_sub_goals limits _ l s2) as [[s3 [sq|e]]|]; simpl in *; [|congruence|congruence].
  transitivity (goal s3); [apply (lane_op_goal _ (SubGoalDispatched _ (Some o)) l s3)|congruence].
Qed.

Lemma apply_no_wait limits cap o s :
  no_wait s → match o with OpBeginWait _ _ => False | _ => True end → no_wait (apply_goal_op limits cap o s).
Proof.
  intros Hw Ho.
  assert (Hwith : ∀ f, (∀ g, goal s = Some g → no_wait (f g)) → no_wait (with_goal f s).1).
  { intros f Hf. unfold with_goal. destruct (goal s) eqn:Hg; simpl; [by apply Hf|done]. }
  destruct o; cbn [apply_goal_op]; try done;
    try (apply Hwith; intros g Hg; intros x [= <-]; simpl; by apply Hw);
    try (eapply keeps_no_wait; [apply lane_op_goal|done]).
  - unfold goal_record_progress_from_usage, goal_record_progress_with_cost, with_goal.
    destruct (goal s) as [g|] eqn:Hg; [|done]. cbn [goal put_evidence]. rewrite Hg. intros x [= <-]. simpl. by apply Hw.
  - apply Hwith. intros g Hg. cbv zeta. destruct (match last _ with Some _ => _ | None => _ end); intros x [= <-]; simpl; by apply Hw.
  - unfold goal_reset_no_progress. destruct (goal s) as [g|]; [|done]. cbv zeta. destruct (_ && _); by intros x [= <-].
  - by apply set_status_no_wait.
  - unfold goal_settle_wait. destruct (goal s) as [g|] eqn:Hg; [|done]. destruct (goal_wait_of g) as [w|] eqn:Hgw; [|done].
    by rewrite (Hw g Hg) in Hgw.
  - by apply rebuild_no_wait.
  - unfold install_goal_with_criteria. pose proof (rebuild_no_wait view logged s Hw) as H. cbv zeta.
    case_bool_decide; [by eapply keeps_no_wait, H|]. intros x Hx.
    change (set_criteria cs <$> goal (rebuild_goal_projection_from_messages view logged s) = Some x) in Hx.
    apply fmap_Some in Hx as (y & Hy & ->). by apply (H y).
  - unfold handle_set_goal_budget_command. destruct (goal s) as [g|]; [|done]. destruct view as [|[base|]]; [done| |done]. cbv zeta.
    cbn [fst]. eapply keeps_no_wait; [done|].
    match goal with |- context [append_op ?o ?l ?t] => assert (no_wait (append_op o l t)) as H by (by eapply keeps_no_wait, rebuild_no_wait, Hw) end.
    destruct (g ← _; _); [by apply set_status_no_wait|done].
  - unfold stop_goal_on_manual_abort. destruct (match goal s with Some _ => _ | None => _ end); [|done]. cbv zeta. cbn [fst].
    pose proof (set_status_no_wait Stopped "manual_abort" logged s Hw) as H.
    destruct view; cbn [add_pursuit_message]; [apply rebuild_no_wait|]; by eapply keeps_no_wait, H.
  - unfold reactivate_goal_stopped_by_manual_abort. destruct (_ && _); [done|]. cbv zeta.
    destruct (match goal _ with Some _ => _ | None => _ end); [|by eapply keeps_no_wait, Hw]. cbn [fst].
    pose proof (set_status_no_wait Active "" logged (put_stopped_by_abort false s) Hw) as H.
    destruct view; cbn [add_pursuit_message]; [by apply rebuild_no_wait|done].
  - unfold clear_goal_stopped_by_abort_marker. cbv zeta. destruct (match goal _ with Some _ => _ | None => _ end); [|by eapply keeps_no_wait, Hw].
    by apply set_status_no_wait.
  - eapply keeps_no_wait; [apply read_goal|done].
  - eapply keeps_no_wait; [apply declare_goal|done].
  - eapply keeps_no_wait; [apply ensure_lane_goal|done].
Qed.

Lemma settle_no_wait subj now s : no_wait s → (goal_settle_wait subj now s).2 = None.
Proof. intros Hw. unfold goal_settle_wait. destruct (goal s) as [g|] eqn:Hg; [|done]. by rewrite (Hw g Hg). Qed.

(** A wait settles once: the first settlement that matches gets the wait back, and until a new
    wait begins no later one gets anything, whatever else runs in between. *)
Lemma a_wait_settles_once limits cap s subj now w os subj' now' :
  (goal_settle_wait subj now s).2 = Some w → Forall (λ o, match o with OpBeginWait _ _ => False | _ => True end) os →
  (∃ g, goal s = Some g ∧ goal_wait_of g = Some w ∧ ∀ x, subj = Some x → subject w = x)
  ∧ (goal_settle_wait subj' now' (run_goal_ops limits cap (goal_settle_wait subj now s).1 os)).2 = None.
Proof.
  intros Hs Hos. assert (no_wait (goal_settle_wait subj now s).1 ∧ ∃ g, goal s = Some g ∧ goal_wait_of g = Some w
    ∧ ∀ x, subj = Some x → subject w = x) as [Hw Hg].
  { unfold goal_settle_wait in *. destruct (goal s) as [g|]; [|done]. destruct (goal_wait_of g) as [wt|] eqn:Hwt; [|done].
    destruct (match subj with Some _ => _ | None => _ end) eqn:Hm; [done|]. simpl in Hs. injection Hs as ->.
    split; [by intros x [= <-]|]. exists g. split_and!; [done..|]. intros x ->. unfold wait_matches in Hm.
    by case_bool_decide. }
  split; [done|]. clear Hs Hg. apply settle_no_wait. revert Hw. generalize (goal_settle_wait subj now s).1 as t. clear -Hos.
  induction Hos as [|o os Ho _ IH]; intros t Hw; [done|]. by apply IH, apply_no_wait.
Qed.

(** ** The budget *)

(** The limits that bind, all of them respected. *)
Definition within_limit (l : option N) (used : N) : Prop := ∀ n, l = Some n → 0 < n → used < n.
Definition within_budget (b : GoalBudget) (p : GoalProgress) (now_ms : N) : Prop :=
  within_limit (budget_no_progress_turns b) (no_progress_turns p)
  ∧ within_limit (max_turns b) (turns_used p) ∧ within_limit (max_tokens b) (tokens_used p)
  ∧ within_limit (max_cost_cents b) (cost_used_cents p)
  ∧ ∀ n, max_minutes b = Some n → 0 < n → 0 < started_at_ms p →
         now_ms - started_at_ms p < N.min u64_max (n * 60000).

Lemma limit_reached_false l used : limit_reached l used = false ↔ within_limit l used.
Proof.
  unfold limit_reached, within_limit. destruct l as [n|]; [|by split]. rewrite andb_false_iff, N.ltb_ge, N.leb_gt. split.
  - intros H m [= <-]. lia.
  - intros H. specialize (H n eq_refl). lia.
Qed.

Lemma exhaustion_None b p now : goal_budget_exhaustion_status b p now = None ↔ within_budget b p now.
Proof.
  unfold goal_budget_exhaustion_status, within_budget.
  rewrite <- !limit_reached_false.
  assert (minutes_reached (max_minutes b) p now = false ↔
    ∀ n, max_minutes b = Some n → 0 < n → 0 < started_at_ms p → now - started_at_ms p < N.min u64_max (n * 60000)) as <-.
  { unfold minutes_reached, sat_mul. destruct (max_minutes b) as [n|]; [|by split].
    rewrite !andb_false_iff, !N.ltb_ge, N.leb_gt. split; [intros H m [= <-]; lia|]. intros H. specialize (H n eq_refl). lia. }
  destruct (limit_reached _ _), (limit_reached _ _), (limit_reached _ _), (limit_reached _ _), (minutes_reached _ _ _); naive_solver.
Qed.

Lemma exhaustion_Some b p now st : goal_budget_exhaustion_status b p now = Some st → exhausted_status st = true.
Proof.
  unfold goal_budget_exhaustion_status. repeat (destruct (limit_reached _ _); [by intros [= <-]|]).
  by destruct (minutes_reached _ _ _); [intros [= <-]|].
Qed.

(** C30. After a turn is accounted for, the goal can be pursued exactly when it is active, was
    active or held by its budget before, and its progress is within every limit that binds. *)
Theorem accounting_enforces_the_budget g started judged tokens made_progress cost :
  let g' := goal_record_progress_of started judged tokens made_progress cost g in
  goal_can_pursue_at g' judged = true ↔
  active g = true ∧ (status g = Active ∨ exhausted_status (status g) = true)
  ∧ within_budget (budget g) (progress_recorded started tokens made_progress cost (progress g)) judged.
Proof.
  cbv zeta. unfold goal_can_pursue_at, goal_record_progress_of, account, goal_budget_exhausted_at, goal_budget_exhaustion_status_at.
  cbn [active status set_status set_progress budget progress]. rewrite <- exhaustion_None. unfold accounted_status.
  destruct (goal_budget_exhaustion_status _ _ _) as [st|] eqn:Hst; rewrite !andb_true_iff.
  - split; [by intros [_ ?]|by intros (_ & _ & ?)].
  - rewrite bool_decide_eq_true. destruct (status g); simpl; naive_solver.
Qed.

(** ** Transfers *)

(** A transferred goal starts from a ledger that replays it as active, with the status and stop
    reason it is handed over with. *)
Lemma seeded_ledger_replays g src now :
  ∃ st, reduce_goal_ledger (seed_transferred_goal_ledger g src now) = Some st
    ∧ gl_version st = version g ∧ gl_active st = true ∧ gl_status st = status g ∧ gl_budget st = budget g
    ∧ gl_progress st = progress g ∧ gl_criteria st = criteria g ∧ gl_transferred_from st = Some src.
Proof.
  unfold seed_transferred_goal_ledger. case_bool_decide as Hs; (eexists; split; [reflexivity|]); cbn; split_and!; try done.
Qed.
