(* ===== verification/SubGoalLanes.v ===== *)
(** * Automatic lanes

    A lane opened for a spawned child is optional: it records the child and never gates the goal. *)

From stdpp Require Import gmap strings list relations.
From S2P Require Import Prelude SubGoal SubGoalProps SubGoalGraphProps GoalLedger GoalSession GoalSessionProps GoalProps.


(** ** Looking a node up after an update *)

Lemma list_find_alter f id ns n :
  (∀ s, node_id_of (f s) = node_id_of s) →
  snd <$> list_find (λ s, node_id_of s = n) (alter_node f id ns) =
  (λ s, if bool_decide (n = id) then f s else s) <$> (snd <$> list_find (λ s, node_id_of s = n) ns).
Proof.
  intros Hf. induction ns as [|s ns IH]; [done|]. cbn [alter_node list_find].
  destruct (bool_decide (node_id_of s = id)) eqn:Hid; cbn [list_find].
  - apply bool_decide_eq_true in Hid. rewrite Hf. destruct (decide (node_id_of s = n)) as [Hn|Hn].
    + simpl. by rewrite bool_decide_eq_true_2 by congruence.
    + rewrite (bool_decide_eq_false_2 (n = id)) by congruence. by destruct (list_find _ ns) as [[i x]|].
  - apply bool_decide_eq_false in Hid. destruct (decide (node_id_of s = n)) as [Hn|Hn].
    + simpl. by rewrite bool_decide_eq_false_2 by congruence.
    + revert IH. by destruct (list_find _ (alter_node f id ns)) as [[i x]|], (list_find _ ns) as [[j y]|].
Qed.

Definition dispatched_by (o : option SubGoalOwner) (s : SubGoalNodeState) : SubGoalNodeState := {|
  node := match o with
          | Some _ => {| sn_id := sn_id (node s); title := title (node s); owner := o; criterion_ids := criterion_ids (node s) |}
          | None => node s
          end;
  dispatched := true; superseded := superseded s; report := report s |}.

Lemma find_dispatched id o g n :
  find_node (mark_dispatched id o g) n = (λ s, if bool_decide (n = id) then dispatched_by o s else s) <$> find_node g n.
Proof. apply list_find_alter. intros s. unfold node_id_of. simpl. by destruct o. Qed.

Lemma dispatched_met o s : lane_met (dispatched_by o s) ↔ lane_met s.
Proof. unfold lane_met. by destruct o. Qed.

(** ** Opening a lane *)

Definition may_proceed (g : SubGoalGraph) : bool := parent_may_proceed (aggregate_sub_goals g ROOT_SUB_GOAL_ID).

Lemma may_proceed_iff g g' :
  ((∀ e s, required_edge g ROOT_SUB_GOAL_ID e s → lane_met s) ↔ (∀ e s, required_edge g' ROOT_SUB_GOAL_ID e s → lane_met s)) →
  may_proceed g = may_proceed g'.
Proof.
  intros H. apply eq_true_iff_eq. unfold may_proceed. destruct (rollup_is_exact g ROOT_SUB_GOAL_ID) as [-> _].
  by destruct (rollup_is_exact g' ROOT_SUB_GOAL_ID) as [-> _].
Qed.

Lemma dispatch_may_proceed id o g : may_proceed (mark_dispatched id o g) = may_proceed g.
Proof.
  apply may_proceed_iff. unfold required_edge. split; intros H e s (He & Hp & Hr & Hs).
  - assert (lane_met (if bool_decide (child_id e = id) then dispatched_by o s else s)) as Hl.
    { apply (H e). rewrite find_dispatched, Hs. by split_and!. }
    case_bool_decide; [by apply dispatched_met in Hl|done].
  - rewrite find_dispatched in Hs. apply fmap_Some in Hs as (t & Ht & ->).
    assert (lane_met t) as Hl by (apply (H e); by split_and!). case_bool_decide; [by apply dispatched_met|done].
Qed.

Definition opened (o : SubGoalOwner) (ttl : string) : SubGoalNodeState := {|
  node := {| sn_id := AUTO_SUB_GOAL_LANE_PREFIX +:+ so_id o; title := ttl; owner := Some o; criterion_ids := [] |};
  dispatched := false; superseded := None; report := None |}.

Lemma opened_nodes g o ttl limits :
  validate_declaration g (auto_declaration o ttl) limits = Some (Ok ()) →
  ((AUTO_SUB_GOAL_LANE_PREFIX +:+ so_id o) ∉ known_ids g)
  ∧ nodes (apply_declaration (auto_declaration o ttl) g) = nodes g ++ [opened o ttl].
Proof.
  intros [Hn _]%validated_extends. destruct (no_fresh _ _ Hn (AUTO_SUB_GOAL_LANE_PREFIX +:+ so_id o)) as (H1 & H2 & H3); [by left|].
  split; [done|]. cbn [apply_declaration nodes auto_declaration d_nodes foldl]. unfold apply_node. cbn [sn_id].
  rewrite !bool_decide_eq_false_2 by done. destruct (existsb _ _) eqn:Hex; [|done].
  apply existsb_elem in Hex as (s & Hs & Heq%bool_decide_eq_true). destruct H3. rewrite <- Heq.
  apply elem_of_union_r, elem_of_list_to_set, list_elem_of_fmap. by exists s.
Qed.

Lemma opened_edges g o ttl e :
  e ∈ edges (apply_declaration (auto_declaration o ttl) g) → is_required (edge_kind e) = true → e ∈ edges g.
Proof.
  cbn [apply_declaration edges auto_declaration d_edges foldl]. unfold apply_edge. destruct (existsb _ _); [done|].
  rewrite elem_of_app, list_elem_of_singleton. by intros [?| ->].
Qed.

Lemma opened_may_proceed limits g o ttl :
  graph_ok limits g → validate_declaration g (auto_declaration o ttl) limits = Some (Ok ()) →
  may_proceed (apply_declaration (auto_declaration o ttl) g) = may_proceed g.
Proof.
  intros Hg Hv. destruct (opened_nodes _ _ _ _ Hv) as [Hfresh Hnodes].
  assert (∀ e, e ∈ edges g → find_node (apply_declaration (auto_declaration o ttl) g) (child_id e) = find_node g (child_id e)) as Hfind.
  { intros e He. unfold find_node. rewrite Hnodes. destruct (list_find _ (nodes g)) as [[i x]|] eqn:Hf.
    { by erewrite list_find_app_l. }
    rewrite list_find_app_r by done. cbn [list_find]. destruct (decide _) as [Heq|]; [|done]. destruct Hfresh.
    change (node_id_of (opened o ttl) ∈ known_ids g). rewrite Heq. by destruct (lo_known _ _ _ (go_lanes _ _ Hg) e He) as (_ & _ & ?). }
  apply may_proceed_iff. unfold required_edge. split; intros H e s (He & Hp & Hr & Hs).
  - apply (H e). rewrite Hfind by done. split_and!; [|done..]. cbn [apply_declaration edges auto_declaration d_edges foldl].
    unfold apply_edge. destruct (existsb _ _); [done|]. apply elem_of_app. by left.
  - apply opened_edges in He; [|done]. apply (H e). by rewrite Hfind in Hs.
Qed.

Lemma auto_lanes_ids g :
  auto_lanes g = length (filter (λ id, String.prefix AUTO_SUB_GOAL_LANE_PREFIX id = true) (node_id_of <$> nodes g)).
Proof.
  unfold auto_lanes. induction (nodes g) as [|s ns IH]; [done|]. rewrite fmap_cons, !filter_cons.
  change (auto_lane s) with (String.prefix AUTO_SUB_GOAL_LANE_PREFIX (node_id_of s)).
  destruct (decide _); simpl; by rewrite IH.
Qed.

(** ** The session's operation *)

Definition session_graph (s : GoalSession) : SubGoalGraph := ledger_graph (goal_ledger s).

Lemma append_graph o now s :
  session_graph (append_op o now s) =
  match reduce_goal_ledger (goal_ledger s) with Some _ => graph_after o (session_graph s) | None => empty_graph end.
Proof. unfold session_graph. simpl. apply ledger_graph_snoc. Qed.

Lemma reduce_None_graph s : reduce_goal_ledger (goal_ledger s) = None → session_graph s = empty_graph.
Proof. unfold session_graph, ledger_graph. by intros ->. Qed.

(** What dispatching a known lane does to the graph. *)
Lemma dispatched_graph limits id o now s x :
  memo_current s → find_node (session_graph s) id = Some x →
  let s' := (dispatch_sub_goal id (Some o) now s).1 in
  may_proceed (session_graph s') = may_proceed (session_graph s)
  ∧ find_node (session_graph s') id = Some (dispatched_by (Some o) x)
  ∧ auto_lanes (session_graph s') = auto_lanes (session_graph s)
  ∧ (graph_ok limits (session_graph s) → graph_ok limits (session_graph s')).
Proof.
  intros Hm Hx. unfold dispatch_sub_goal, lane_op. unfold memo_current in Hm. pose proof (read_ledger s) as Hl.
  destruct (sub_goal_graph s) as [g s1]. cbn [fst snd] in Hm, Hl. fold (session_graph s) in Hm. rewrite Hm, Hx. cbv zeta. cbn [fst].
  assert (session_graph s1 = session_graph s) as Hs1 by (unfold session_graph; by rewrite Hl).
  change (session_graph (mark_persisted_runtime_changed ?t)) with (session_graph t).
  assert (session_graph (append_op (SubGoalDispatched id (Some o)) now s1) = mark_dispatched id (Some o) (session_graph s)) as ->.
  { rewrite append_graph, Hs1. destruct (reduce_goal_ledger (goal_ledger s1)) eqn:Hr; [done|]. apply reduce_None_graph in Hr.
    rewrite Hs1 in Hr. by rewrite Hr in Hx. }
  split_and!.
  - apply dispatch_may_proceed.
  - rewrite find_dispatched, Hx. simpl. by rewrite bool_decide_eq_true_2.
  - rewrite !auto_lanes_ids. f_equal. f_equal. apply alter_node_ids. by intros [].
  - apply mark_dispatched_ok.
Qed.

Lemma find_by_owner g o x : snd <$> list_find (λ x, owner (node x) = Some o) (nodes g) = Some x → x ∈ nodes g.
Proof.
  destruct (list_find _ _) as [[i y]|] eqn:H; [|done]. intros [= <-]. apply list_find_Some in H as (H & _). by apply list_elem_of_lookup_2 in H.
Qed.

Lemma find_node_elem g x : NoDup (node_id_of <$> nodes g) → x ∈ nodes g → find_node g (node_id_of x) = Some x.
Proof.
  intros Hnd Hx. unfold find_node. destruct (list_find _ (nodes g)) as [[i y]|] eqn:H.
  - apply list_find_Some in H as (H & Heq & _). simpl. f_equal. apply list_elem_of_lookup in Hx as [j Hj].
    assert (i = j) as ->; [|congruence]. eapply NoDup_lookup; [exact Hnd|by rewrite list_lookup_fmap, H|].
    rewrite list_lookup_fmap, Hj. simpl. by rewrite Heq.
  - apply list_find_None in H. rewrite Forall_forall in H. by destruct (H x Hx).
Qed.

(** Opening a lane for a spawned child always answers.  It never changes whether the goal may
    proceed, never takes the automatic lanes past their cap, and either the owner has a
    dispatched lane afterwards or the refusal says why and no lane was recorded. *)
Lemma auto_lanes_never_gate limits cap o ttl now s :
  memo_current s → graph_ok limits (session_graph s) → agrees s →
  ∃ s' r, ensure_and_dispatch_sub_goal_lane limits cap o ttl now s = Some (s', r)
    ∧ may_proceed (session_graph s') = may_proceed (session_graph s)
    ∧ (auto_lanes (session_graph s') ≤ cap `max` auto_lanes (session_graph s))%nat
    ∧ match r with
      | Ok id => ∃ x, find_node (session_graph s') id = Some x ∧ dispatched x = true ∧ owner (node x) = Some o
      | Err refusal => session_graph s' = session_graph s ∧
          match refusal with
          | NoGoal => goal s = None
          | CapReached lanes c => lanes = auto_lanes (session_graph s) ∧ c = cap ∧ (cap ≤ lanes)%nat
          | Rejected e => validate_declaration (session_graph s) (auto_declaration o ttl) limits = Some (Err e)
          end
      end.
Proof.
  intros Hm Hg Ha. unfold ensure_and_dispatch_sub_goal_lane, sub_goal_lane_for_owner.
  pose proof (evolve_memo limits s (sub_goal_graph s).2 Hm (evolve_read _ _ _ eq_refl)) as Hm1. unfold memo_current in Hm.
  pose proof (read_ledger s) as Hl. pose proof (read_goal s) as Hgoal. pose proof (sub_goal_graph_again s) as Hagain.
  destruct (sub_goal_graph s) as [g s1]. cbn [fst snd] in *. fold (session_graph s) in Hm. subst g.
  assert (session_graph s1 = session_graph s) as Hs1 by (unfold session_graph; by rewrite Hl).
  destruct (snd <$> list_find _ (nodes (session_graph s))) as [x|] eqn:Hx; simpl.
  { apply find_by_owner in Hx. pose proof (find_node_elem _ _ (go_ids _ _ Hg) Hx) as Hf. rewrite <- Hs1 in Hf.
    destruct (dispatched_graph limits _ o now s1 x Hm1 Hf) as (Hp & Hf' & Hauto & _). rewrite Hs1 in *. do 2 eexists. split; [done|].
    split_and!; [done|lia|]. by eexists. }
  rewrite Hgoal. destruct (goal s) as [gl|] eqn:Hgl.
  2: { do 2 eexists. split; [done|]. rewrite Hs1. split_and!; [done|lia|done|done]. }
  rewrite Hagain. destruct (Nat.leb_spec cap (auto_lanes (session_graph s))) as [Hcap|Hcap].
  { do 2 eexists. split; [done|]. rewrite Hs1. split_and!; [done|lia|done|done|done|done]. }
  unfold declare_sub_goals. rewrite Hagain.
  destruct (validate_declaration_spec (session_graph s) (auto_declaration o ttl) limits) as (r & Hr & _). rewrite Hr. cbn [mbind option_bind].
  destruct r as [[]|e].
  2: { do 2 eexists. split; [done|]. rewrite Hs1. split_and!; [done|lia|done|done]. }
  destruct (goal_ledger_append_at (SubGoalsDeclared _) now s1) as [s2 sq] eqn:Happ. cbn [fst].
  assert (s2 = append_op (SubGoalsDeclared (auto_declaration o ttl)) now s1) as -> by (unfold append_op; by rewrite Happ).
  set (s3 := mark_persisted_runtime_changed _). set (id := AUTO_SUB_GOAL_LANE_PREFIX +:+ so_id o).
  assert (session_graph s3 = apply_declaration (auto_declaration o ttl) (session_graph s)) as Hs3.
  { change (session_graph s3) with (session_graph (append_op (SubGoalsDeclared (auto_declaration o ttl)) now s1)).
    rewrite append_graph, Hs1. assert (goal s1 = Some gl) as Hgl1 by congruence.
    destruct (agrees_reduce s gl Ha Hgl) as (st & Hst & _). by rewrite Hl, Hst. }
  destruct (opened_nodes _ _ _ _ Hr) as [Hfresh Hnodes].
  assert (find_node (session_graph s3) id = Some (opened o ttl)) as Hf.
  { rewrite Hs3. apply (find_node_elem _ (opened o ttl)); [apply (go_ids _ _ (declared_ok _ _ _ Hg Hr))|].
    rewrite Hnodes. apply elem_of_app. right. by left. }
  destruct (dispatched_graph limits id o now s3 _ eq_refl Hf) as (Hp & Hf' & Hauto & _). do 2 eexists. split; [done|]. split_and!.
  - rewrite Hp, Hs3. by apply (opened_may_proceed limits).
  - rewrite Hauto, Hs3. unfold auto_lanes at 1. rewrite Hnodes, filter_app, length_app. fold (auto_lanes (session_graph s)).
    rewrite filter_cons. destruct (decide _); simpl; lia.
  - by eexists.
Qed.

(** ** Goals: witnesses and examples

    A session that installs a goal, works on it, opens a lane and waits; and two sessions whose
    ledger and live goal part. *)

Open Scope N_scope.

Definition ex_base (v : N) (bd : option GoalBudget) : GoalBase := {|
  base_version := v; base_content := "ship it"; base_revision := 1; derived_events := []; meta_active := None;
  meta_status := None; meta_budget := bd; meta_progress := None; meta_events := None; meta_owner := None;
  meta_attempts := None; meta_criteria := None; meta_transferred_from := None; meta_transferred_to := None |}.
Definition ex_budget : GoalBudget := {|
  max_turns := Some 3; max_minutes := Some 1; max_tokens := None; max_cost_cents := None; cooldown_ms := 1000;
  no_progress_token_threshold := 50; budget_no_progress_turns := Some 2; explicit := true |}.
Definition ex_start : GoalSession := {|
  chat_id := "chat-1"; goal := None; goal_ledger := []; sub_goal_graph_cache := None;
  goal_mirror := goal_runtime_projection None; goal_turn_evidence := false; goal_stopped_by_abort := false;
  goal_verification_generation := 0; trajectory_version := 0 |}.
Definition ex_view : MessagesView := Readable (Some (ex_base 1 (Some ex_budget))).
Definition ex_owner : SubGoalOwner := {| so_runtime := "task_agent"; so_id := "a1" |}.
Definition ex_declaration : SubGoalDeclaration := {|
  d_nodes := [{| sn_id := "build"; title := "Build"; owner := None; criterion_ids := ["c1"] |}];
  d_edges := [{| parent_id := ROOT_SUB_GOAL_ID; child_id := "build"; edge_kind := Required |}] |}.
Definition ex_wait : GoalWait := {| subject := WaitProcess "p1"; since_ms := 0; deadline_ms := None |}.
Definition ex_ops : list GoalOp := [
  OpRebuild ex_view 100; OpProgress 200 200 200 10 true 0; OpNudge 300; OpNudge 400; OpDeclare ex_declaration 500;
  OpEnsureLane ex_owner "spawned" 600; OpProgress 700 700 700 10 false 2; OpBeginWait ex_wait 800].
Definition ex_session : GoalSession := run_goal_ops default_limits 4 ex_start ex_ops.

Lemma start_agrees : agrees ex_start.
Proof. by intros g. Qed.
Lemma ex_faithful : faithful_run default_limits 4 ex_start ex_ops.
Proof.
  apply faithful_cons; [split; [done|]; right; by split_and!|].
  repeat (apply faithful_cons; [by repeat split|]). apply faithful_nil.
Qed.
Lemma start_sound :
  consecutive (goal_ledger ex_start) ∧ memo_current ex_start ∧ graph_ok default_limits (ledger_graph (goal_ledger ex_start)).
Proof. split_and!; [by intros i e|done|apply empty_graph_ok]. Qed.
Lemma ex_session_sound :
  memo_current ex_session ∧ graph_ok default_limits (session_graph ex_session) ∧ agrees ex_session.
Proof.
  destruct start_sound as (Hc & Hm & Hg).
  destruct (evolves_sound default_limits ex_start ex_session (run_evolves default_limits 4 ex_ops ex_start) Hc Hm Hg) as (_ & H1 & H2).
  split; [exact H1|]. split; [exact H2|]. exact (run_agrees _ _ _ _ start_agrees ex_faithful).
Qed.

Lemma ledger_replays_the_goal_witness :
  ∃ g st, goal ex_session = Some g ∧ turns_used (progress g) = 2 ∧ status g = Active
    ∧ reduce_goal_ledger (goal_ledger ex_session) = Some st ∧ replayed st = tracked g.
Proof.
  destruct (ledger_replays_the_goal default_limits 4 ex_start ex_ops (default (snapshot_of_base (ex_base 1 None) None) (goal ex_session)))
    as (st & Hst & Hr); [exact start_agrees|exact ex_faithful|vm_compute; reflexivity|].
  eexists _, st. split; [vm_compute; reflexivity|]. split; [vm_compute; reflexivity|]. split; [vm_compute; reflexivity|].
  split; [exact Hst|exact Hr].
Defined.

Lemma session_ledger_is_sound_witness :
  consecutive (goal_ledger ex_session) ∧ length (goal_ledger ex_session) = 8%nat
  ∧ (sub_goal_graph ex_session).1 = ledger_graph (goal_ledger ex_session)
  ∧ node_id_of <$> nodes (ledger_graph (goal_ledger ex_session)) = ["build"; "agent:a1"].
Proof.
  destruct start_sound as (Hc & Hm & Hg).
  destruct (session_ledger_is_sound default_limits 4 ex_ops ex_start Hc Hm Hg) as (H1 & H2 & _).
  split; [exact H1|]. split; [vm_compute; reflexivity|]. split; [exact H2|vm_compute; reflexivity].
Defined.

Lemma a_wait_settles_once_witness :
  (goal_settle_wait (Some (WaitProcess "p1")) 900 ex_session).2 ≠ None
  ∧ (goal_settle_wait None 1000 (run_goal_ops default_limits 4
       (goal_settle_wait (Some (WaitProcess "p1")) 900 ex_session).1 [OpProgress 950 950 950 5 true 0])).2 = None.
Proof.
  split; [vm_compute; discriminate|].
  refine (proj2 (a_wait_settles_once default_limits 4 ex_session (Some (WaitProcess "p1")) 900
    {| subject := WaitProcess "p1"; since_ms := 800; deadline_ms := None |} [OpProgress 950 950 950 5 true 0] None 1000 _ _)).
  - vm_compute. reflexivity.
  - repeat constructor.
Defined.

Lemma auto_lanes_never_gate_witness :
  may_proceed (session_graph ex_session) = false
  ∧ ∃ s' r, ensure_and_dispatch_sub_goal_lane default_limits 4 {| so_runtime := "task_agent"; so_id := "a2" |} "t" 950 ex_session
      = Some (s', r) ∧ may_proceed (session_graph s') = false.
Proof.
  split; [vm_compute; reflexivity|]. destruct ex_session_sound as (Hm & Hg & Ha).
  destruct (auto_lanes_never_gate default_limits 4 {| so_runtime := "task_agent"; so_id := "a2" |} "t" 950 ex_session Hm Hg Ha)
    as (s' & r & Hs & Hp & _). exists s', r. split; [exact Hs|]. rewrite Hp. vm_compute. reflexivity.
Defined.

(** ** Where the replay parts from the live goal *)

(** The snapshot and the ledger read the clock separately: with a tick between the two reads the
    live goal is active and its replay out of budget. *)
Lemma separate_reads_diverge :
  let s := run_goal_ops default_limits 4 ex_start
    [OpRebuild ex_view 1; OpProgress 1 1 1 10 true 0; OpProgress 60000 60000 60001 10 true 0] in
  (status <$> goal s) = Some Active ∧ (gl_status <$> reduce_goal_ledger (goal_ledger s)) = Some BudgetExhausted.
Proof. split; vm_compute; reflexivity. Qed.

(** Going back to an earlier goal does not install it again: the ledger still replays the later one. *)
Lemma earlier_goal_is_not_replayed :
  let s := run_goal_ops default_limits 4 ex_start
    [OpRebuild ex_view 1; OpRebuild (Readable (Some (ex_base 2 (Some ex_budget)))) 2; OpStatus Completed "" 3; OpRebuild ex_view 4] in
  (λ g, (version g, status g)) <$> goal s = Some (1, Active)
  ∧ (λ st, (gl_version st, gl_status st)) <$> reduce_goal_ledger (goal_ledger s) = Some (2, Completed).
Proof. split; vm_compute; reflexivity. Qed.
