(* ===== verification/Question.v ===== *)
(** * Questions

    [refact-chat-api/src/question.rs]: the registry behind every question a chat or an agent
    asks.  One mutex protects the entries, so every operation is an atomic step; most first settle
    what has expired at their [now].  A time is a count of nanoseconds.  Waiting on the
    [Notify] is left out; what a waiter observes when it wakes is [observe]. *)

From stdpp Require Import gmap strings list pretty.
From S2P Require Import Prelude RustStr.
Local Open Scope N_scope.

(** ** Data *)

Inductive QuestionKind := UserInput | AgentParent | BoardPlanner | PlanApproval | PermissionEscalation.
#[global] Instance QuestionKind_eq_dec : EqDecision QuestionKind.
Proof. solve_decision. Defined.
Inductive QuestionState := QPending | QAnswered | QDefaulted | QRejected | QCancelled | QWithdrawn | QExpired.
#[global] Instance QuestionState_eq_dec : EqDecision QuestionState.
Proof. solve_decision. Defined.

Record QuestionContract := {
  q_id : string;
  q_kind : QuestionKind;
  asker : string;
  answerer : string;
  correlation_id : string;
  q_text : string;
  options : option (list string);
  state : QuestionState;
  asked_at : N;
  expires_at : option N;
  irreversible : bool;
  default_answer : option string;
  answer : option string;
  answered_at : option N;
}.

(** [value.trim().is_empty()] *)
Definition blank (s : string) : bool := bool_decide (trim (chars s) = []).

Definition is_irreversible (q : QuestionContract) : bool :=
  irreversible q || match q_kind q with PlanApproval | PermissionEscalation => true | _ => false end.
Definition defaultable (q : QuestionContract) : option string :=
  if is_irreversible q then None else default_answer q.
Definition answered (q : QuestionContract) : option string :=
  match state q with QAnswered => answer q | _ => None end.
Definition defaulted (q : QuestionContract) : option string :=
  match state q with QDefaulted => answer q | _ => None end.

Definition expiry_ok (q : QuestionContract) : bool :=
  match expires_at q with Some e => asked_at q <? e | None => true end.
Definition answered_ok (q : QuestionContract) : bool :=
  match state q with
  | QAnswered => match answer q, answered_at q with Some a, Some _ => negb (bool_decide (a = "")) | _, _ => false end
  | _ => true
  end.
Definition defaulted_ok (q : QuestionContract) : bool :=
  match state q with
  | QDefaulted =>
      match default_answer q, answered_at q with
      | Some _, Some _ => bool_decide (answer q = default_answer q)
      | _, _ => false
      end
  | _ => true
  end.
Definition default_check (q : QuestionContract) : result unit string :=
  match default_answer q with
  | Some d =>
      if blank d then Err "a defaultable question needs nonempty default text"
      else if is_irreversible q
      then Err "approvals, permission escalations and irreversible questions cannot carry a default"
      else Ok ()
  | None => Ok ()
  end.
Definition validate_question (q : QuestionContract) : result unit string :=
  if existsb blank [q_id q; asker q; answerer q; correlation_id q; q_text q]
  then Err "question identity, principals, correlation and text must be nonempty"
  else if negb (expiry_ok q) then Err "question expiry must be after creation"
  else if negb (answered_ok q) then Err "answered questions require answer text and timestamp"
  else
    let? _ := default_check q in
    if negb (defaulted_ok q) then Err "defaulted questions require the stored default and its timestamp" else Ok ().

Definition pending_contract (id : string) (k : QuestionKind) (by_ to_ correlation txt : string)
    (opts : option (list string)) (at_ : N) (expiry : option N) : result QuestionContract string :=
  let q := {| q_id := id; q_kind := k; asker := by_; answerer := to_; correlation_id := correlation; q_text := txt;
              options := opts; state := QPending; asked_at := at_; expires_at := expiry; irreversible := false;
              default_answer := None; answer := None; answered_at := None |} in
  let? _ := validate_question q in Ok q.
Definition with_stakes (irrev : bool) (dflt : option string) (q : QuestionContract) : result QuestionContract string :=
  let q := {| q_id := q_id q; q_kind := q_kind q; asker := asker q; answerer := answerer q;
              correlation_id := correlation_id q; q_text := q_text q; options := options q; state := state q;
              asked_at := asked_at q; expires_at := expires_at q; irreversible := irrev; default_answer := dflt;
              answer := answer q; answered_at := answered_at q |} in
  let? _ := validate_question q in Ok q.

Definition QUESTION_MAX_EXPIRY_SECS : N := 31536000.
Record QuestionLimits := { max_pending : N; default_expiry_secs : N; max_expiry_secs : N }.
Definition default_QuestionLimits : QuestionLimits := {|
  max_pending := 256; default_expiry_secs := 1800; max_expiry_secs := 604800 |}.
Definition validate_limits (l : QuestionLimits) : result unit string :=
  if max_pending l =? 0 then Err "question max_pending must be at least 1"
  else if (default_expiry_secs l =? 0) || (max_expiry_secs l =? 0)
  then Err "question expiry bounds must be at least 1 second"
  else if QUESTION_MAX_EXPIRY_SECS <? max_expiry_secs l
  then Err ("question max expiry must not exceed " +:+ pretty QUESTION_MAX_EXPIRY_SECS +:+ " seconds")
  else if max_expiry_secs l <? default_expiry_secs l then Err "question default expiry must not exceed the maximum"
  else Ok ().

Inductive QuestionError :=
  | Invalid (reason : string)
  | QCapacity | QDuplicate | QNotFound | NotAsker | NotAnswerer | AlreadyAnswered
  | AlreadySettled (s : QuestionState).

Inductive QuestionSettlement :=
  | SAnswered (a : string) | SDefaulted (d : string) | SRejected | SCancelled | SWithdrawn | SExpired.
Definition settlement_state (s : QuestionSettlement) : QuestionState :=
  match s with
  | SAnswered _ => QAnswered | SDefaulted _ => QDefaulted | SRejected => QRejected | SCancelled => QCancelled
  | SWithdrawn => QWithdrawn | SExpired => QExpired
  end.
Definition settlement_answer (s : QuestionSettlement) : option string :=
  match s with SAnswered a => Some a | _ => None end.
Definition default_used (s : QuestionSettlement) : option string :=
  match s with SDefaulted d => Some d | _ => None end.
Definition settlement_of (q : QuestionContract) : option QuestionSettlement :=
  match state q with
  | QPending => None
  | QAnswered => Some (SAnswered (default "" (answer q)))
  | QDefaulted => Some (SDefaulted (default "" (answer q)))
  | QRejected => Some SRejected
  | QCancelled => Some SCancelled
  | QWithdrawn => Some SWithdrawn
  | QExpired => Some SExpired
  end.

Record AskQuestion := {
  aq_id : option string;
  aq_kind : QuestionKind;
  aq_asker : string;
  aq_answerer : string;
  aq_correlation_id : string;
  aq_text : string;
  aq_options : option (list string);
  expires_in_secs : option N;
  aq_irreversible : bool;
  aq_default_answer : option string;
}.

(** ** The registry *)

Abbreviation Entries := (gmap string QuestionContract).
Definition q_pending (q : QuestionContract) : bool := bool_decide (state q = QPending).
Definition pending_count (m : Entries) : N := count_if q_pending m.

(** The fields an operation may set: the state, and the answer with its time. *)
Definition settle_as (s : QuestionState) (a : option (string * N)) (q : QuestionContract) : QuestionContract := {|
  q_id := q_id q; q_kind := q_kind q; asker := asker q; answerer := answerer q; correlation_id := correlation_id q;
  q_text := q_text q; options := options q; state := s; asked_at := asked_at q; expires_at := expires_at q;
  irreversible := irreversible q; default_answer := default_answer q;
  answer := match a with Some (t, _) => Some t | None => answer q end;
  answered_at := match a with Some (_, at_) => Some at_ | None => answered_at q end |}.

Definition is_due (now : N) (q : QuestionContract) : bool :=
  q_pending q && match expires_at q with Some e => e <=? now | None => false end.
Definition expire_entry (now : N) (q : QuestionContract) : QuestionContract :=
  if is_due now q then
    match defaultable q with
    | Some d => settle_as QDefaulted (Some (d, now)) q
    | None => settle_as QExpired None q
    end
  else q.
Definition expire_locked (now : N) (m : Entries) : Entries := expire_entry now <$> m.

(** The settled entries by age; an entry is kept under its id. *)
Definition settled_keys (m : Entries) : list (N * string) := keyed_list (λ q, negb (q_pending q)) asked_at m.
Definition prune_locked (l : QuestionLimits) (m : Entries) : Entries :=
  let settled := settled_keys m in
  let excess := (length settled - N.to_nat (max_pending l))%nat in
  if bool_decide (excess = 0)%nat then m
  else foldl (λ m k, delete k.2 m) m (take excess (sort_by_key (λ k, k) settled)).

Definition register (l : QuestionLimits) (q : QuestionContract) (now : N) (m : Entries)
  : Entries * result unit QuestionError :=
  match validate_question q with
  | Err e => (m, Err (Invalid e))
  | Ok _ =>
      let m := expire_locked now m in
      if bool_decide (is_Some (m !! q_id q)) then (m, Err QDuplicate)
      else if q_pending q
              && bool_decide (Exists (λ p, q_pending p.2 = true ∧ correlation_id p.2 = correlation_id q) (map_to_list m))
      then (m, Err QDuplicate)
      else if q_pending q && (max_pending l <=? pending_count m) then (m, Err QCapacity)
      else (prune_locked l (<[q_id q := q]> m), Ok ())
  end.

Definition NANOS_PER_SEC : N := 1000000000.
(** [fresh] is the generated id of a question asked without one. *)
Definition ask (l : QuestionLimits) (r : AskQuestion) (fresh : string) (now : N) (m : Entries)
  : Entries * result QuestionContract QuestionError :=
  let seconds := default (default_expiry_secs l) (expires_in_secs r) in
  if (seconds =? 0) || (max_expiry_secs l <? seconds)
  then (m, Err (Invalid ("question expiry must be between 1 and " +:+ pretty (max_expiry_secs l)
                         +:+ " seconds, got " +:+ pretty seconds)))
  else
    match (let? q := pending_contract (default fresh (aq_id r)) (aq_kind r) (aq_asker r) (aq_answerer r)
                       (aq_correlation_id r) (aq_text r) (aq_options r) now (Some (now + seconds * NANOS_PER_SEC)) in
           with_stakes (aq_irreversible r) (aq_default_answer r) q) with
    | Err e => (m, Err (Invalid e))
    | Ok q =>
        let '(m, registered) := register l q now m in
        (m, let? _ := registered in Ok q)
    end.

Definition settle (id principal : string) (require_asker : bool) (target : QuestionState) (a : option string)
    (now : N) (m : Entries) : Entries * result QuestionContract QuestionError :=
  let m := expire_locked now m in
  match m !! id with
  | None => (m, Err QNotFound)
  | Some q =>
      if negb (bool_decide ((if require_asker then asker q else answerer q) = principal))
      then (m, Err (if require_asker then NotAsker else NotAnswerer))
      else
        match state q with
        | QPending =>
            let q := settle_as target
                       (match target, a with QAnswered, Some a => Some (a, now) | _, _ => None end) q in
            (<[id := q]> m, Ok q)
        | QAnswered => (m, Err AlreadyAnswered)
        | other => (m, Err (AlreadySettled other))
        end
  end.
Definition answer_question (id by_ a : string) (now : N) (m : Entries) : Entries * result QuestionContract QuestionError :=
  if blank a then (m, Err (Invalid "answer text must be nonempty"))
  else settle id by_ false QAnswered (Some a) now m.
Definition reject (id by_ : string) : N → Entries → Entries * result QuestionContract QuestionError :=
  settle id by_ false QRejected None.
Definition cancel_question (id by_ : string) : N → Entries → Entries * result QuestionContract QuestionError :=
  settle id by_ true QCancelled None.
Definition withdraw (id by_ : string) : N → Entries → Entries * result QuestionContract QuestionError :=
  settle id by_ true QWithdrawn None.

Definition expire (l : QuestionLimits) (now : N) (m : Entries) : Entries := prune_locked l (expire_locked now m).
Definition settlement (id : string) (now : N) (m : Entries) : Entries * option QuestionSettlement :=
  let m := expire_locked now m in (m, q ← m !! id; settlement_of q).
Definition observe (id : string) (snapshot : QuestionContract) (now : N) (m : Entries)
  : Entries * option QuestionSettlement :=
  let m := expire_locked now m in
  (m, match m !! id with
      | Some q =>
          if bool_decide (correlation_id q = correlation_id snapshot) && bool_decide (asked_at q = asked_at snapshot)
          then settlement_of q else Some SExpired
      | None => Some SExpired
      end).

Definition sorted_contracts (l : list QuestionContract) : list QuestionContract :=
  sort_by_key (λ q, (asked_at q, q_id q)) l.
Definition list_questions (k : option QuestionKind) (now : N) (m : Entries) : Entries * list QuestionContract :=
  let m := expire_locked now m in
  (m, sorted_contracts (filter (λ q, match k with Some k => bool_decide (q_kind q = k) | None => true end = true) (map_to_list m).*2)).
Definition pending_for_asker (by_ : string) (now : N) (m : Entries) : Entries * list QuestionContract :=
  let m := expire_locked now m in
  (m, sorted_contracts (filter (λ q, q_pending q = true ∧ asker q = by_) (map_to_list m).*2)).
Definition restore (l : QuestionLimits) (qs : list QuestionContract) (now : N) (m : Entries) : Entries * nat :=
  foldl (λ acc q, let '(m, n) := acc in
                  let '(m, r) := register l q now m in (m, if is_Ok r then S n else n)) (m, 0%nat) qs.
