(* ===== verification/QuestionProps.v ===== *)
(** * Properties of questions

    The registry stays bounded, its questions move only by their principals or their deadline, and
    what counts as an answer was given by a human. *)

From stdpp Require Import gmap strings list pretty.
From S2P Require Import Prelude RustStr Question.

Local Open Scope N_scope.

Section registry.
Context (l : QuestionLimits).

(** ** The operations as one type *)

Inductive QuestionOp :=
  | QAsk (r : AskQuestion) (fresh : string) (now : N)
  | QRegister (q : QuestionContract) (now : N)
  | QAnswer (id by_ a : string) (now : N)
  | QReject (id by_ : string) (now : N)
  | QCancel (id by_ : string) (now : N)
  | QWithdraw (id by_ : string) (now : N)
  | QExpire (now : N)
  | QSettlement (id : string) (now : N)
  | QObserve (id : string) (snapshot : QuestionContract) (now : N)
  | QList (k : option QuestionKind) (now : N)
  | QPendingFor (by_ : string) (now : N).
Definition op_now (o : QuestionOp) : N :=
  match o with
  | QAsk _ _ now | QRegister _ now | QAnswer _ _ _ now | QReject _ _ now | QCancel _ _ now | QWithdraw _ _ now
  | QExpire now | QSettlement _ now | QObserve _ _ now | QList _ now | QPendingFor _ now => now
  end.
Definition apply_question_op (o : QuestionOp) (m : Entries) : Entries :=
  match o with
  | QAsk r fresh now => (ask l r fresh now m).1
  | QRegister q now => (register l q now m).1
  | QAnswer id by_ a now => (answer_question id by_ a now m).1
  | QReject id by_ now => (reject id by_ now m).1
  | QCancel id by_ now => (cancel_question id by_ now m).1
  | QWithdraw id by_ now => (withdraw id by_ now m).1
  | QExpire now => expire l now m
  | QSettlement id now => (settlement id now m).1
  | QObserve id snapshot now => (observe id snapshot now m).1
  | QList k now => (list_questions k now m).1
  | QPendingFor by_ now => (pending_for_asker by_ now m).1
  end.
Definition run_question_ops : Entries → list QuestionOp → Entries := foldl (λ m o, apply_question_op o m).

(** ** Lookups *)

Lemma expire_lookup now m id : expire_locked now m !! id = expire_entry now <$> m !! id.
Proof. apply lookup_fmap. Qed.

Lemma lookup_foldl_delete (ks : list (N * string)) (m : Entries) id q :
  foldl (λ m k, delete k.2 m) m ks !! id = Some q ↔ m !! id = Some q ∧ id ∉ ks.*2.
Proof.
  revert m. induction ks as [|k ks IH]; intros m; cbn [foldl].
  { rewrite fmap_nil. split; [intros H; split; [done|apply not_elem_of_nil]|by intros []]. }
  rewrite IH, lookup_delete_Some, fmap_cons, not_elem_of_cons. naive_solver.
Qed.

Lemma prune_lookup m id q : prune_locked l m !! id = Some q → m !! id = Some q.
Proof. unfold prune_locked. case_bool_decide; [done|]. intros Hl. by apply lookup_foldl_delete in Hl as [? _]. Qed.

(** Pruning removes settled questions only. *)
Lemma prune_pending m id q : m !! id = Some q → q_pending q = true → prune_locked l m !! id = Some q.
Proof.
  intros Hq Hp. unfold prune_locked. case_bool_decide; [done|]. apply lookup_foldl_delete. split; [done|].
  intros ([n k] & -> & Hk)%list_elem_of_fmap. simpl in Hq. apply elem_of_take in Hk as (i & Hk & _).
  apply list_elem_of_lookup_2, elem_of_sort_by_key, elem_of_keyed_list in Hk as (v & Hv & Hf & _).
  rewrite Hq in Hv. injection Hv as <-. by rewrite Hp in Hf.
Qed.

(** ** Counting *)

Lemma count_foldl_delete f (ks : list (N * string)) (m : Entries) :
  NoDup ks.*2 → (∀ k, k ∈ ks.*2 → ∃ q, m !! k = Some q ∧ f q = true) →
  count_if f (foldl (λ m k, delete k.2 m) m ks) + Nlen ks = count_if f m.
Proof.
  revert m. induction ks as [|k ks IH]; intros m Hnd Hks; cbn [foldl]; [unfold Nlen; simpl; lia|].
  rewrite fmap_cons in Hnd. apply NoDup_cons in Hnd as [Hk Hnd].
  destruct (Hks k.2) as (q & Hq & Hf); [by left|]. specialize (IH (delete k.2 m) Hnd).
  rewrite (count_if_delete f m _ _ Hq), Hf. rewrite <- IH; [unfold Nlen; simpl; lia|].
  intros k' Hk'. destruct (Hks k') as (q' & Hq' & Hf'); [by right|]. exists q'. split; [|done].
  rewrite lookup_delete_ne; [done|]. by intros <-.
Qed.

Lemma count_foldl_keep f (ks : list (N * string)) (m : Entries) :
  (∀ k q, k ∈ ks.*2 → m !! k = Some q → f q = false) → count_if f (foldl (λ m k, delete k.2 m) m ks) = count_if f m.
Proof.
  revert m. induction ks as [|k ks IH]; intros m Hks; cbn [foldl]; [done|]. rewrite fmap_cons in Hks.
  rewrite IH; [|intros k' q Hk' [_ Hq]%lookup_delete_Some; apply (Hks k'); [by right|done]].
  destruct (m !! k.2) as [q|] eqn:Hq; [|by rewrite delete_id]. rewrite (count_if_delete f m _ _ Hq).
  rewrite (Hks k.2 q) by (by left || done). lia.
Qed.

Definition settled_count (m : Entries) : N := count_if (λ q, negb (q_pending q)) m.

Lemma prune_bounds m :
  settled_count (prune_locked l m) ≤ max_pending l ∧ pending_count (prune_locked l m) = pending_count m
  ∧ (settled_count m ≤ max_pending l → prune_locked l m = m).
Proof.
  unfold prune_locked, settled_count, pending_count, settled_keys. cbv zeta. rewrite (count_keyed_list (λ q, negb (q_pending q)) asked_at m).
  set (ks := keyed_list _ asked_at m). set (ex := (length ks - N.to_nat (max_pending l))%nat).
  case_bool_decide as Hex.
  { split_and!; [|done|done]. rewrite (count_keyed_list (λ q, negb (q_pending q)) asked_at m). fold ks. unfold ex, Nlen in *. lia. }
  set (sorted := take ex (sort_by_key (λ k, k) ks)).
  assert (NoDup (sort_by_key (λ k, k) ks).*2) as Hnd.
  { eapply NoDup_Permutation_proper; [apply fmap_Permutation, sort_by_key_perm|]. apply NoDup_keyed_list. }
  assert (NoDup sorted.*2) as Hnd'.
  { unfold sorted. rewrite fmap_take. eapply sublist_NoDup; [exact Hnd|apply sublist_take]. }
  assert (∀ k, k ∈ sorted.*2 → ∃ q, m !! k = Some q ∧ negb (q_pending q) = true) as Hin.
  { intros k ([n k'] & -> & Hk)%list_elem_of_fmap. apply elem_of_take in Hk as (i & Hk & _).
    apply list_elem_of_lookup_2, elem_of_sort_by_key, elem_of_keyed_list in Hk as (v & Hv & Hf & _). by exists v. }
  pose proof (count_foldl_delete _ sorted m Hnd' Hin) as Hc. rewrite (count_keyed_list (λ q, negb (q_pending q)) asked_at m) in Hc. fold ks in Hc.
  assert (Nlen sorted = N.of_nat ex) as Hlen.
  { unfold sorted, Nlen. rewrite length_take, length_sort_by_key. unfold ex. lia. }
  split_and!.
  - unfold ex, Nlen in *. lia.
  - apply count_foldl_keep. intros k q Hk Hq. destruct (Hin k Hk) as (q' & Hq' & Hf). rewrite Hq in Hq'. injection Hq' as <-.
    by apply negb_true_iff.
  - unfold ex, Nlen in *. lia.
Qed.

(** ** The registry stays well formed *)

Record registry_ok (m : Entries) : Prop := {
  ro_id id q : m !! id = Some q → q_id q = id;
  ro_valid id q : m !! id = Some q → validate_question q = Ok ();
  ro_correlated i j q r : m !! i = Some q → m !! j = Some r → q_pending q = true → q_pending r = true →
    correlation_id q = correlation_id r → i = j;
  ro_pending : pending_count m ≤ max_pending l;
  ro_size : N.of_nat (size m) ≤ 2 * max_pending l;
}.

Lemma validate_Ok q :
  validate_question q = Ok () ↔
  existsb blank [q_id q; asker q; answerer q; correlation_id q; q_text q] = false
  ∧ expiry_ok q = true ∧ answered_ok q = true ∧ default_check q = Ok () ∧ defaulted_ok q = true.
Proof.
  unfold validate_question. destruct (existsb _ _); [naive_solver|]. destruct (expiry_ok q); simpl; [|naive_solver].
  destruct (answered_ok q); simpl; [|naive_solver]. destruct (default_check q) as [[]|]; simpl; [|naive_solver].
  destruct (defaulted_ok q); naive_solver.
Qed.

(** A settlement keeps a valid question valid when it has what its state requires. *)
Lemma settle_valid s a q :
  validate_question q = Ok () → answered_ok (settle_as s a q) = true → defaulted_ok (settle_as s a q) = true →
  validate_question (settle_as s a q) = Ok ().
Proof. rewrite !validate_Ok. intros (H1 & H2 & _ & H4 & _) H3 H5. by split_and!. Qed.

Lemma question_expiry_cases now q :
  expire_entry now q = q
  ∨ q_pending q = true ∧ (∃ e, expires_at q = Some e ∧ e ≤ now)
    ∧ (expire_entry now q = settle_as QExpired None q ∧ defaultable q = None
       ∨ ∃ d, defaultable q = Some d ∧ expire_entry now q = settle_as QDefaulted (Some (d, now)) q).
Proof.
  unfold expire_entry, is_due. destruct (q_pending q); [|by left]. destruct (expires_at q) as [e|]; [|by left]. simpl.
  destruct (N.leb_spec e now); [|by left]. right. split; [done|]. split; [by exists e|].
  destruct (defaultable q) as [d|]; [right; by exists d|by left].
Qed.

Lemma expire_entry_valid now q : validate_question q = Ok () → validate_question (expire_entry now q) = Ok ().
Proof.
  intros Hv. destruct (question_expiry_cases now q) as [->|(_ & _ & [[-> _]|(d & Hd & ->)])]; [done|by apply settle_valid|].
  apply settle_valid; [done|done|]. unfold defaultable in Hd. destruct (is_irreversible q); [done|]. unfold defaulted_ok. simpl.
  rewrite Hd. by apply bool_decide_eq_true.
Qed.

Lemma expire_entry_terms now q :
  q_id (expire_entry now q) = q_id q ∧ correlation_id (expire_entry now q) = correlation_id q
  ∧ (q_pending (expire_entry now q) = true → expire_entry now q = q).
Proof.
  destruct (question_expiry_cases now q) as [->|(_ & _ & [[-> _]|(d & Hd & ->)])]; [done|..];
    (split_and!; [done|done|by intros H%bool_decide_eq_true]).
Qed.

Lemma expire_ok now m : registry_ok m → registry_ok (expire_locked now m).
Proof.
  intros [Hid Hv Hc Hp Hs].
  assert (∀ id q, expire_locked now m !! id = Some q → ∃ q0, m !! id = Some q0 ∧ q = expire_entry now q0) as Hl.
  { intros id q H. rewrite expire_lookup in H. by apply fmap_Some in H. }
  split.
  - intros id q (q0 & Hq & ->)%Hl. destruct (expire_entry_terms now q0) as (-> & _). by apply Hid.
  - intros id q (q0 & Hq & ->)%Hl. eapply expire_entry_valid, Hv, Hq.
  - intros i j q r (q0 & Hq & ->)%Hl (r0 & Hr & ->)%Hl Hpq Hpr Heq. destruct (expire_entry_terms now q0) as (_ & _ & Hq').
    destruct (expire_entry_terms now r0) as (_ & _ & Hr'). specialize (Hq' Hpq). specialize (Hr' Hpr).
    rewrite Hq' in Hpq, Heq. rewrite Hr' in Hpr, Heq. by eapply Hc.
  - etrans; [|exact Hp]. unfold pending_count, expire_locked. rewrite count_if_fmap. apply count_if_le. intros i q _ Hx.
    destruct (expire_entry_terms now q) as (_ & _ & Hq). by rewrite <- (Hq Hx).
  - unfold expire_locked. by rewrite map_size_fmap.
Qed.

Lemma prune_ok m :
  (∀ id q, m !! id = Some q → q_id q = id) → (∀ id q, m !! id = Some q → validate_question q = Ok ()) →
  (∀ i j q r, m !! i = Some q → m !! j = Some r → q_pending q = true → q_pending r = true →
    correlation_id q = correlation_id r → i = j) → pending_count m ≤ max_pending l → registry_ok (prune_locked l m).
Proof.
  intros Hid Hv Hc Hp. destruct (prune_bounds m) as (H1 & H2 & _). split.
  - intros id q Hq. eapply Hid, prune_lookup, Hq.
  - intros id q Hq. eapply Hv, prune_lookup, Hq.
  - intros i j q r Hq Hr. eapply Hc; eapply prune_lookup; [exact Hq|exact Hr].
  - by rewrite H2.
  - rewrite <- (count_if_split q_pending). unfold settled_count, pending_count in *. lia.
Qed.

Lemma register_ok q now m : registry_ok m → registry_ok (register l q now m).1.
Proof.
  intros Hok. unfold register. destruct (validate_question q) as [[]|e] eqn:Hv; [|done]. pose proof (expire_ok now m Hok) as He.
  set (m' := expire_locked now m) in *. case_bool_decide as Hin; [done|]. apply eq_None_not_Some in Hin.
  destruct (q_pending q && bool_decide _) eqn:Hdup; [done|]. destruct (q_pending q && (max_pending l <=? _)) eqn:Hcap; [done|].
  simpl. destruct He as [Hid Hval Hc Hp Hs].
  assert (∀ i r, m' !! i = Some r → q_pending q = true → q_pending r = true → correlation_id q ≠ correlation_id r) as Hnew.
  { intros i r Hr Hpq Hpr Heq. rewrite Hpq in Hdup. apply bool_decide_eq_false in Hdup. destruct Hdup. apply Exists_exists.
    exists (i, r). split; [by apply elem_of_map_to_list|done]. }
  apply prune_ok.
  - intros id r [[<- <-]|[_ Hr]]%lookup_insert_Some; [done|by apply Hid].
  - intros id r [[<- <-]|[_ Hr]]%lookup_insert_Some; [done|by eapply Hval].
  - intros i j r r' [[<- <-]|[Hi Hr]]%lookup_insert_Some [[<- <-]|[Hj Hr']]%lookup_insert_Some Hpr Hpr' Heq; [done| | |by eapply Hc].
    + by destruct (Hnew j r').
    + by destruct (Hnew i r).
  - unfold pending_count. rewrite count_if_insert_new by done. fold (pending_count m'). destruct (q_pending q); [|lia].
    simpl in Hcap. apply N.leb_gt in Hcap. lia.
Qed.

Lemma settle_ok id by_ req target a now m :
  (target = QAnswered → ∃ t, a = Some t ∧ blank t = false) → target ≠ QPending → target ≠ QDefaulted →
  registry_ok m → registry_ok (settle id by_ req target a now m).1.
Proof.
  intros Ha Hnp Hnd Hok. unfold settle. pose proof (expire_ok now m Hok) as He. set (m' := expire_locked now m) in *.
  destruct (m' !! id) as [q|] eqn:Hq; [|done]. destruct (negb _); [done|]. destruct (state q) eqn:Hst; try done. simpl.
  set (x := match target with QAnswered => _ | _ => _ end). destruct He as [Hid Hval Hc Hp Hs].
  assert (q_pending (settle_as target x q) = false) as Hns by (by apply bool_decide_eq_false).
  split.
  - intros i r [[<- <-]|[_ Hr]]%lookup_insert_Some; [by apply (Hid id q)|by apply Hid].
  - intros i r [[<- <-]|[_ Hr]]%lookup_insert_Some; [|by eapply Hval]. apply settle_valid; [by eapply Hval| |].
    + unfold answered_ok. cbn [state settle_as]. destruct target; try done. destruct (Ha eq_refl) as (t & -> & Ht). simpl.
      destruct (decide (t = "")) as [->|Hne]; [done|]. by rewrite bool_decide_eq_false_2.
    + unfold defaulted_ok. cbn [state settle_as]. by destruct target.
  - intros i j r r' [[<- <-]|[Hi Hr]]%lookup_insert_Some [[<- <-]|[Hj Hr']]%lookup_insert_Some Hpr Hpr' Heq; [done|congruence|congruence|].
    by eapply Hc.
  - etrans; [|exact Hp]. pose proof (count_if_update q_pending m' id q (settle_as target x q) Hq) as Hu. rewrite Hns in Hu.
    unfold pending_count. lia.
  - by rewrite map_size_insert_Some by (by exists q).
Qed.

Lemma ask_ok r fresh now m : registry_ok m → registry_ok (ask l r fresh now m).1.
Proof.
  intros Hok. unfold ask. destruct (_ || _); [done|]. destruct (let? q := _ in _) as [q|e]; [|done].
  pose proof (register_ok q now m Hok). by destruct (register l q now m) as [m' x].
Qed.

Lemma question_op_ok o m : registry_ok m → registry_ok (apply_question_op o m).
Proof.
  intros Hok. destruct o; cbn [apply_question_op]; try by apply expire_ok.
  - by apply ask_ok.
  - by apply register_ok.
  - unfold answer_question. destruct (blank a) eqn:Hb; [done|]. apply settle_ok; [by exists a|done|done|done].
  - by apply settle_ok.
  - by apply settle_ok.
  - by apply settle_ok.
  - pose proof (expire_ok now m Hok) as He. by apply prune_ok; apply He.
Qed.

(** ** How a question moves *)

Definition moved (o : QuestionOp) (id : string) (q q' : QuestionContract) : Prop :=
  state q = QPending ∧
  match state q' with
  | QPending => False
  | QAnswered => ∃ a now, o = QAnswer id (answerer q) a now ∧ is_due now q = false ∧ blank a = false
                          ∧ q' = settle_as QAnswered (Some (a, now)) q
  | QRejected => ∃ now, o = QReject id (answerer q) now ∧ is_due now q = false ∧ q' = settle_as QRejected None q
  | QCancelled => ∃ now, o = QCancel id (asker q) now ∧ is_due now q = false ∧ q' = settle_as QCancelled None q
  | QWithdrawn => ∃ now, o = QWithdraw id (asker q) now ∧ is_due now q = false ∧ q' = settle_as QWithdrawn None q
  | QDefaulted => is_due (op_now o) q = true ∧
      ∃ d, default_answer q = Some d ∧ is_irreversible q = false ∧ q' = settle_as QDefaulted (Some (d, op_now o)) q
  | QExpired => is_due (op_now o) q = true ∧ defaultable q = None ∧ q' = settle_as QExpired None q
  end.

Lemma q_pending_true q : q_pending q = true ↔ state q = QPending.
Proof. apply bool_decide_eq_true. Qed.

Lemma due_settles now q : is_due now q = true → state (expire_entry now q) ≠ QPending.
Proof. unfold expire_entry. intros ->. by destruct (defaultable q). Qed.

Lemma expire_moves o id q : expire_entry (op_now o) q = q ∨ moved o id q (expire_entry (op_now o) q).
Proof.
  unfold moved. unfold expire_entry. destruct (is_due (op_now o) q) eqn:Hd; [right|by left].
  assert (state q = QPending) as Hp by (apply q_pending_true; by apply andb_prop in Hd as [? _]). split; [done|].
  destruct (defaultable q) as [d|] eqn:Hdef; cbn [state settle_as]; [|by split_and!]. split; [done|]. exists d. unfold defaultable in Hdef.
  by destruct (is_irreversible q).
Qed.

Lemma settle_moves id0 by_ req target a now m id q q' :
  m !! id = Some q → (settle id0 by_ req target a now m).1 !! id = Some q' →
  q' = expire_entry now q
  ∨ id = id0 ∧ is_due now q = false ∧ state q = QPending ∧ by_ = (if req then asker q else answerer q)
    ∧ q' = settle_as target (match target, a with QAnswered, Some a => Some (a, now) | _, _ => None end) q.
Proof.
  intros Hq. unfold settle. pose proof (expire_lookup now m id) as Hl. rewrite Hq in Hl. simpl in Hl.
  destruct (expire_locked now m !! id0) as [x|] eqn:Hx; [|intros Hq'; left; cbn in Hq'; congruence].
  destruct (negb _) eqn:Hby; [intros Hq'; left; cbn in Hq'; congruence|]. apply negb_false_iff, bool_decide_eq_true in Hby.
  destruct (state x) eqn:Hst; try (intros Hq'; left; cbn in Hq'; congruence). cbn [fst].
  intros [[<- <-]|[Hne Hq']]%lookup_insert_Some; [|left; congruence]. right. rewrite Hl in Hx. injection Hx as <-.
  destruct (expire_entry_terms now q) as (_ & _ & Hsame). pose proof (Hsame (proj2 (q_pending_true _) Hst)) as Hsame'.
  rewrite Hsame' in Hst, Hby |- *.
  split_and!; [done| |done|done|done].
  destruct (is_due now q) eqn:Hd; [|done]. apply due_settles in Hd. by rewrite Hsame', Hst in Hd.
Qed.

Lemma register_moves q0 now m id q q' :
  m !! id = Some q → (register l q0 now m).1 !! id = Some q' → q' = q ∨ q' = expire_entry now q.
Proof.
  intros Hq. unfold register. destruct (validate_question q0); [|left; cbn in *; congruence].
  pose proof (expire_lookup now m id) as Hl. rewrite Hq in Hl. simpl in Hl.
  case_bool_decide as Hin; [right; cbn in *; congruence|]. destruct (q_pending q0 && bool_decide _); [right; cbn in *; congruence|].
  destruct (q_pending q0 && _); [right; cbn in *; congruence|]. cbn [fst].
  intros [[<- <-]|[_ Hq']]%prune_lookup%lookup_insert_Some; [|right; congruence]. destruct Hin. rewrite Hl. by eexists.
Qed.

Lemma register_appears q0 now m id q' : m !! id = None → (register l q0 now m).1 !! id = Some q' → q' = q0.
Proof.
  intros Hq. unfold register. destruct (validate_question q0); [|cbn in *; congruence].
  pose proof (expire_lookup now m id) as Hl. rewrite Hq in Hl. simpl in Hl.
  case_bool_decide as Hin; [cbn in *; congruence|]. destruct (q_pending q0 && bool_decide _); [cbn in *; congruence|].
  destruct (q_pending q0 && _); [cbn in *; congruence|]. cbn [fst].
  intros [[<- <-]|[_ Hq']]%prune_lookup%lookup_insert_Some; [done|congruence].
Qed.

Lemma asked_pending r fresh now q :
  (let? q := pending_contract (default fresh (aq_id r)) (aq_kind r) (aq_asker r) (aq_answerer r) (aq_correlation_id r)
     (aq_text r) (aq_options r) now (Some (now + default (default_expiry_secs l) (expires_in_secs r) * NANOS_PER_SEC)) in
   with_stakes (aq_irreversible r) (aq_default_answer r) q) = Ok q → state q = QPending.
Proof.
  unfold pending_contract, with_stakes. destruct (validate_question _) as [[]|]; simpl; [|done].
  destruct (validate_question _) as [[]|]; simpl; [|done]. by intros [= <-].
Qed.

Lemma moves o m id q q' :
  m !! id = Some q → apply_question_op o m !! id = Some q' → q' = q ∨ moved o id q q'.
Proof.
  intros Hq Hq'.
  assert (Hexp : q' = expire_entry (op_now o) q → q' = q ∨ moved o id q q') by (intros ->; apply expire_moves).
  assert (Hlk : expire_locked (op_now o) m !! id = Some (expire_entry (op_now o) q)) by (by rewrite expire_lookup, Hq).
  assert (Hplain : expire_locked (op_now o) m !! id = Some q' → q' = q ∨ moved o id q q') by (intros H; apply Hexp; congruence).
  destruct o; cbn [apply_question_op op_now] in *; try (apply Hplain; exact Hq').
  - unfold ask in Hq'. destruct (_ || _); [left; cbn in Hq'; congruence|]. destruct (let? q := _ in _) as [x|e]; [|left; cbn in Hq'; congruence].
    pose proof (register_moves x now m id q q' Hq) as H. destruct (register l x now m) as [m' r']. destruct (H Hq') as [->|H']; [by left|by apply Hexp].
  - destruct (register_moves _ _ _ _ _ _ Hq Hq') as [->|H]; [by left|by apply Hexp].
  - unfold answer_question in Hq'. destruct (blank a) eqn:Hb; [left; cbn in Hq'; congruence|].
    destruct (settle_moves _ _ _ _ _ _ _ _ _ _ Hq Hq') as [H|(-> & Hd & Hp & -> & ->)]; [by apply Hexp|]. right. split; [done|]. by exists a, now.
  - destruct (settle_moves _ _ _ _ _ _ _ _ _ _ Hq Hq') as [H|(-> & Hd & Hp & -> & ->)]; [by apply Hexp|]. right. split; [done|]. by exists now.
  - destruct (settle_moves _ _ _ _ _ _ _ _ _ _ Hq Hq') as [H|(-> & Hd & Hp & -> & ->)]; [by apply Hexp|]. right. split; [done|]. by exists now.
  - destruct (settle_moves _ _ _ _ _ _ _ _ _ _ Hq Hq') as [H|(-> & Hd & Hp & -> & ->)]; [by apply Hexp|]. right. split; [done|]. by exists now.
  - apply Hplain. by apply prune_lookup.
Qed.

Lemma appears o m id q :
  m !! id = None → apply_question_op o m !! id = Some q → state q = QPending ∨ ∃ now, o = QRegister q now.
Proof.
  intros Hm Hq.
  assert (Hlk : ∀ now, expire_locked now m !! id = None) by (intros now; by rewrite expire_lookup, Hm).
  assert (Hset : ∀ id0 by_ req target a now, (settle id0 by_ req target a now m).1 !! id = None).
  { intros id0 by_ req target a now. unfold settle. destruct (expire_locked now m !! id0) as [x|] eqn:Hx; [|apply Hlk].
    destruct (negb _); [apply Hlk|]. destruct (state x); try apply Hlk. cbn [fst]. apply lookup_insert_None. split; [apply Hlk|].
    intros ->. by rewrite Hlk in Hx. }
  destruct o; cbn [apply_question_op] in *;
    try (exfalso; match type of Hq with
         | (settlement _ ?n _).1 !! _ = _ => change (expire_locked n m !! id = Some q) in Hq; congruence
         | (observe _ _ ?n _).1 !! _ = _ => change (expire_locked n m !! id = Some q) in Hq; congruence
         | (list_questions _ ?n _).1 !! _ = _ => change (expire_locked n m !! id = Some q) in Hq; congruence
         | (pending_for_asker _ ?n _).1 !! _ = _ => change (expire_locked n m !! id = Some q) in Hq; congruence
         | (reject _ _ _ _).1 !! _ = _ => unfold reject in Hq; by rewrite Hset in Hq
         | (cancel_question _ _ _ _).1 !! _ = _ => unfold cancel_question in Hq; by rewrite Hset in Hq
         | (withdraw _ _ _ _).1 !! _ = _ => unfold withdraw in Hq; by rewrite Hset in Hq
         end).
  - left. unfold ask in Hq. destruct (_ || _); [cbn in Hq; congruence|]. destruct (let? q := _ in _) as [x|e] eqn:Hx; [|cbn in Hq; congruence].
    pose proof (register_appears x now m id q Hm) as H. destruct (register l x now m) as [m' r']. rewrite (H Hq). by eapply asked_pending.
  - right. exists now. by rewrite (register_appears _ _ _ _ _ Hm Hq).
  - unfold answer_question in Hq. destruct (blank a); [cbn in Hq; congruence|]. by rewrite Hset in Hq.
  - apply prune_lookup in Hq. by rewrite Hlk in Hq.
Qed.

(** C33. While a question is kept it stays as it is, or moves once: a pending question is answered or
    rejected by its answerer, cancelled or withdrawn by its asker, before it is due; once due it
    takes its default if it has one and is reversible, and expires otherwise.  Whoever and
    whatever else is tried, no settled question moves again. *)
Theorem question_moves_once o m id q q' :
  m !! id = Some q → apply_question_op o m !! id = Some q' → q' = q ∨ moved o id q q'.
Proof. apply moves. Qed.

(** An answered question was answered by its answerer: a call of [answer] with that text found it
    pending and not yet due; or it was restored as answered. *)
Lemma answers_are_human os id q :
  run_question_ops ∅ os !! id = Some q → state q = QAnswered →
  (∃ pre post a now q0, os = pre ++ QAnswer id (answerer q) a now :: post ∧ blank a = false
     ∧ run_question_ops ∅ pre !! id = Some q0 ∧ state q0 = QPending ∧ is_due now q0 = false
     ∧ answerer q0 = answerer q ∧ answer q = Some a)
  ∨ ∃ now, QRegister q now ∈ os.
Proof.
  revert q. induction os as [|o os IH] using rev_ind; intros q; [intros Hq; change ((∅ : Entries) !! id = Some q) in Hq; by apply lookup_empty_Some in Hq|].
  unfold run_question_ops. rewrite foldl_snoc. fold (run_question_ops ∅ os). intros Hq Hs.
  destruct (run_question_ops ∅ os !! id) as [q0|] eqn:Hq0.
  - destruct (moves _ _ _ _ _ Hq0 Hq) as [->|[Hp Hm]].
    + destruct (IH q0 eq_refl Hs) as [(pre & post & a & now & q1 & -> & H)|(now & H)]; [left|right].
      * exists pre, (post ++ [o]), a, now, q1. split; [by rewrite <- app_assoc|done].
      * exists now. apply elem_of_app. by left.
    + rewrite Hs in Hm. destruct Hm as (a & now & -> & Hd & Hb & ->). left. by exists os, [], a, now, q0.
  - destruct (appears _ _ _ _ Hq0 Hq) as [H|(now & ->)]; [congruence|]. right. exists now. apply elem_of_app. right. by left.
Qed.

(** Whatever is asked, the registry keeps at most twice [max_pending] questions, at most
    [max_pending] of them pending, each under its id, well formed, and no two pending ones of
    the same correlation. *)
Lemma registry_is_bounded os : registry_ok (run_question_ops ∅ os).
Proof.
  induction os as [|o os IH] using rev_ind.
  - change (registry_ok ∅). split.
    1-3: intros *; by rewrite lookup_empty.
    + unfold pending_count. rewrite count_if_empty. lia.
    + rewrite map_size_empty. lia.
  - unfold run_question_ops. rewrite foldl_snoc. by apply question_op_ok.
Qed.
End registry.

(** ** Questions: witnesses and examples *)


Definition ex_limits (n : N) : QuestionLimits := {| max_pending := n; default_expiry_secs := 1; max_expiry_secs := 60 |}.
Definition ex_ask (id correlation : string) (k : QuestionKind) (dflt : option string) : AskQuestion := {|
  aq_id := Some id; aq_kind := k; aq_asker := "agent"; aq_answerer := "user"; aq_correlation_id := correlation;
  aq_text := "Continue?"; aq_options := None; expires_in_secs := None; aq_irreversible := false;
  aq_default_answer := dflt |}.
Definition ex_run : list QuestionOp := [
  QAsk (ex_ask "q1" "c1" UserInput None) "" 10; QAnswer "q1" "mallory" "yes" 20; QAnswer "q1" "user" "yes" 30].

Lemma answers_are_human_witness :
  ∃ q, run_question_ops (ex_limits 4) ∅ ex_run !! "q1" = Some q ∧ state q = QAnswered ∧
    ((∃ pre post a now q0, ex_run = pre ++ QAnswer "q1" (answerer q) a now :: post ∧ blank a = false
       ∧ run_question_ops (ex_limits 4) ∅ pre !! "q1" = Some q0 ∧ state q0 = QPending ∧ is_due now q0 = false
       ∧ answerer q0 = answerer q ∧ answer q = Some a)
     ∨ ∃ now, QRegister q now ∈ ex_run).
Proof.
  eexists. split; [vm_compute; reflexivity|]. split; [reflexivity|].
  apply (answers_are_human (ex_limits 4) ex_run "q1"); [vm_compute; reflexivity|reflexivity].
Defined.

Lemma question_moves_once_witness :
  ∃ q q', run_question_ops (ex_limits 4) ∅ (take 2 ex_run) !! "q1" = Some q
    ∧ apply_question_op (ex_limits 4) (QReject "q1" "user" 30) (run_question_ops (ex_limits 4) ∅ (take 2 ex_run)) !! "q1" = Some q'
    ∧ state q' = QRejected ∧ (q' = q ∨ moved (QReject "q1" "user" 30) "q1" q q').
Proof.
  eexists _, _. split; [vm_compute; reflexivity|]. split; [vm_compute; reflexivity|]. split; [reflexivity|].
  apply (question_moves_once (ex_limits 4) _ (run_question_ops (ex_limits 4) ∅ (take 2 ex_run))); vm_compute; reflexivity.
Defined.

(** A low-stakes question takes its default at its deadline, an approval never has one. *)
Example defaults_apply :
  state <$> (run_question_ops (ex_limits 4) ∅
    [QAsk (ex_ask "q1" "c1" UserInput (Some "no")) "" 10; QExpire 2000000000] !! "q1") = Some QDefaulted
  ∧ (ask (ex_limits 4) (ex_ask "q2" "c2" PlanApproval (Some "yes")) "" 10 ∅).2 =
    Err (Invalid "approvals, permission escalations and irreversible questions cannot carry a default").
Proof. split; vm_compute; reflexivity. Qed.

(** Settled questions are pruned by age whether or not their waiter has looked: its answer then
    reads as expired. *)
Lemma pruned_answer_reads_as_expired :
  let m := run_question_ops (ex_limits 1) ∅ (ex_run ++
    [QAsk (ex_ask "q2" "c2" UserInput None) "" 40; QWithdraw "q2" "agent" 50; QExpire 60]) in
  ∃ snapshot, run_question_ops (ex_limits 1) ∅ (take 1 ex_run) !! "q1" = Some snapshot
    ∧ (answer <$> (run_question_ops (ex_limits 1) ∅ ex_run !! "q1")) = Some (Some "yes")
    ∧ (observe "q1" snapshot 70 m).2 = Some SExpired.
Proof. eexists. split; [vm_compute; reflexivity|]. split; vm_compute; reflexivity. Qed.
