(* ===== verification/Transcript.v ===== *)
(** * Transcripts of processes

    [refact-exec/src/transcript.rs]: what a process prints goes to a bounded ring of chunks with
    numbers that readers poll from, past a threshold also to a spill file, and for foreground
    processes to a raw capture.  A text is its scalar values; its length is that of its
    UTF-8 bytes.  The time stamps of chunks are arguments, the process id is left out, and so are
    the file and its writer: what is sent there is the result of [prepare_spill_append].

    The counters have the code's widths, [u64] or the target's [usize], and [+=] and [-=] on them
    panic or wrap as the build says: the definitions are those of a [Target]. *)

From stdpp Require Import list strings pretty.
From S2P Require Import Prelude RustStr.
Local Open Scope N_scope.

Definition DEFAULT_MAX_BYTES : N := 512 * 1024.
Definition DEFAULT_SPILL_THRESHOLD_BYTES : N := 256 * 1024.
Definition DEFAULT_SPILL_MAX_BYTES : N := 100 * 1024 * 1024.
Definition FOREGROUND_STDOUT_CAPTURE_MAX_BYTES : N := 16 * 1024 * 1024.
Definition FOREGROUND_STDERR_CAPTURE_MAX_BYTES : N := 4 * 1024 * 1024.

(** ** The target: width of [usize], and whether arithmetic that overflows panics

    The engine is built for 64-bit targets and for [i686-pc-windows-msvc]; the release profile leaves
    overflow checks off, the development profile has them. *)

Inductive PointerWidth := Bits32 | Bits64.
Record Target := { pointer_width : PointerWidth; overflow_checks : bool }.
Existing Class Target.
Definition usize_max `{tg : Target} : N := match pointer_width tg with Bits32 => 4294967295 | Bits64 => u64_max end.
(** [x += y] and [x -= y] on a width; [None] is the panic. *)
Definition plus_assign `{tg : Target} (max x y : N) : option N :=
  if x + y <=? max then Some (x + y) else if overflow_checks tg then None else Some ((x + y) mod (max + 1)).
Definition minus_assign `{tg : Target} (max x y : N) : option N :=
  if y <=? x then Some (x - y) else if overflow_checks tg then None else Some (max + 1 + x - y).

(** ** Boundaries: [is_char_boundary], slices *)

Fixpoint is_char_boundary (t : text) (i : N) : bool :=
  match t with
  | [] => i =? 0
  | c :: t => (i =? 0) || ((utf8_len c <=? i) && is_char_boundary t (i - utf8_len c))
  end.
(** [&s[..i]] and [&s[i..]]; [None] is the panic of an index that is no boundary. *)
Fixpoint slice_to (t : text) (i : N) : option text :=
  if i =? 0 then Some []
  else match t with
       | [] => None
       | c :: t => if utf8_len c <=? i then (λ r, c :: r) <$> slice_to t (i - utf8_len c) else None
       end.
Fixpoint slice_from (t : text) (i : N) : option text :=
  if i =? 0 then Some t
  else match t with
       | [] => None
       | c :: t => if utf8_len c <=? i then slice_from t (i - utf8_len c) else None
       end.

(** The loops that look for a boundary; a scalar has at most four bytes, so four turns are enough. *)
Definition BOUNDARY_FUEL : nat := 4.
Fixpoint boundary_down (fuel : nat) (t : text) (i : N) : option N :=
  if (0 <? i) && negb (is_char_boundary t i)
  then match fuel with S fuel => boundary_down fuel t (i - 1) | O => None end
  else Some i.
Fixpoint boundary_up (fuel : nat) (t : text) (i : N) : option N :=
  if (i <? text_len t) && negb (is_char_boundary t i)
  then match fuel with S fuel => boundary_up fuel t (i + 1) | O => None end
  else Some i.

Definition truncate_to_char_boundary (s : text) (max_bytes : N) : option text :=
  if text_len s <=? max_bytes then Some s
  else
    stop ← boundary_down BOUNDARY_FUEL s max_bytes;
    slice_to s stop.

(** ** The raw capture *)

Record ExecRawStreamCapture := {
  cap_text : text;
  cap_max_bytes : N;
  elided_bytes : N;
  hit_limit : bool;
}.
Definition new_capture (max_bytes : N) : ExecRawStreamCapture := {|
  cap_text := []; cap_max_bytes := N.max max_bytes 1; elided_bytes := 0; hit_limit := false |}.
Definition capture_append `{tg : Target} (t : text) (c : ExecRawStreamCapture) : option ExecRawStreamCapture :=
  if bool_decide (t = []) then Some c
  else if hit_limit c then
    Some {| cap_text := cap_text c; cap_max_bytes := cap_max_bytes c;
            elided_bytes := sat_add usize_max (elided_bytes c) (text_len t); hit_limit := true |}
  else
    let remaining := cap_max_bytes c - text_len (cap_text c) in
    if remaining =? 0 then
      Some {| cap_text := cap_text c; cap_max_bytes := cap_max_bytes c;
              elided_bytes := sat_add usize_max (elided_bytes c) (text_len t); hit_limit := true |}
    else
      captured ← truncate_to_char_boundary t remaining;
      Some {| cap_text := cap_text c ++ captured; cap_max_bytes := cap_max_bytes c;
              elided_bytes := sat_add usize_max (elided_bytes c) (text_len t - text_len captured);
              hit_limit := (text_len captured <? text_len t) || hit_limit c |}.
Definition text_with_marker (c : ExecRawStreamCapture) : text :=
  if 0 <? elided_bytes c then
    cap_text c ++ (if negb (bool_decide (cap_text c = [])) && negb (ends_with_char 10 (cap_text c)) then [10] else [])
    ++ lit ("[" +:+ pretty (elided_bytes c) +:+ " bytes elided]") ++ [10]
  else cap_text c.

Inductive ExecOutputStream := Stdout | Stderr | Combined.
Record ExecRawCapture := {
  rc_stdout : ExecRawStreamCapture;
  rc_stderr : ExecRawStreamCapture;
  rc_combined : option ExecRawStreamCapture;
}.
Definition foreground : ExecRawCapture := {|
  rc_stdout := new_capture FOREGROUND_STDOUT_CAPTURE_MAX_BYTES;
  rc_stderr := new_capture FOREGROUND_STDERR_CAPTURE_MAX_BYTES;
  rc_combined := None |}.
Definition with_combined_capture (c : ExecRawCapture) : ExecRawCapture := {|
  rc_stdout := rc_stdout c; rc_stderr := rc_stderr c;
  rc_combined := Some (new_capture FOREGROUND_STDOUT_CAPTURE_MAX_BYTES) |}.
Definition raw_append `{tg : Target} (s : ExecOutputStream) (t : text) (c : ExecRawCapture) : option ExecRawCapture :=
  match s with
  | Stdout | Combined =>
      x ← capture_append t (rc_stdout c);
      Some {| rc_stdout := x; rc_stderr := rc_stderr c; rc_combined := rc_combined c |}
  | Stderr =>
      x ← capture_append t (rc_stderr c);
      Some {| rc_stdout := rc_stdout c; rc_stderr := x; rc_combined := rc_combined c |}
  end.
Definition append_combined_raw `{tg : Target} (t : text) (c : ExecRawCapture) : option ExecRawCapture :=
  match rc_combined c with
  | Some combined =>
      x ← capture_append t combined;
      Some {| rc_stdout := rc_stdout c; rc_stderr := rc_stderr c; rc_combined := Some x |}
  | None => Some c
  end.

Record ExecRawRead := { start_offset : N; new_offset : N; rr_text : text }.
(** The outer [None] is a panic, the inner one a capture without a combined stream. *)
Definition read_combined_since (c : ExecRawCapture) (offset : N) (max_bytes : option N) : option (option ExecRawRead) :=
  match rc_combined c with
  | None => Some None
  | Some combined =>
      let t := cap_text combined in
      let len := text_len t in
      start ← boundary_down BOUNDARY_FUEL t (N.min offset len);
      start ← match max_bytes with
              | Some max_bytes =>
                  let cap_start := len - max_bytes in
                  if start <? cap_start then boundary_up BOUNDARY_FUEL t cap_start else Some start
              | None => Some start
              end;
      rest ← slice_from t start;
      Some (Some {| start_offset := start; new_offset := len; rr_text := rest |})
  end.

(** ** The ring *)

Record ExecOutputChunk := { chunk_seq : N; stream : ExecOutputStream; chunk_text : text; timestamp_ms : N }.
Record ExecTranscript := {
  chunks : list ExecOutputChunk;
  next_seq : N;
  total_bytes_appended : N;
  total_lines_appended : N;
  dropped_chunks : N;
  dropped_bytes : N;
  truncated_chunks : N;
  current_bytes : N;
  max_bytes : N;
  spill_threshold_bytes : N;
  has_spill : bool;
  pre_spill_buffer : text;
  spill_started : bool;
  spill_bytes : N;
  spill_max_bytes : N;
  spill_truncated : bool;
}.
Definition new_with_spill (max : N) (spill : bool) (threshold : N) : ExecTranscript := {|
  chunks := []; next_seq := 0; total_bytes_appended := 0; total_lines_appended := 0; dropped_chunks := 0;
  dropped_bytes := 0; truncated_chunks := 0; current_bytes := 0; max_bytes := N.max max 1;
  spill_threshold_bytes := threshold; has_spill := spill; pre_spill_buffer := []; spill_started := false;
  spill_bytes := 0; spill_max_bytes := DEFAULT_SPILL_MAX_BYTES; spill_truncated := false |}.
Definition new_transcript (max : N) : ExecTranscript := new_with_spill max false DEFAULT_SPILL_THRESHOLD_BYTES.
Definition with_default_max : ExecTranscript := new_transcript DEFAULT_MAX_BYTES.

Definition upd_ring (cs : list ExecOutputChunk) (cur dropped dropped_b : N) (s : ExecTranscript) : ExecTranscript := {|
  chunks := cs; next_seq := next_seq s; total_bytes_appended := total_bytes_appended s;
  total_lines_appended := total_lines_appended s; dropped_chunks := dropped; dropped_bytes := dropped_b;
  truncated_chunks := truncated_chunks s; current_bytes := cur; max_bytes := max_bytes s;
  spill_threshold_bytes := spill_threshold_bytes s; has_spill := has_spill s; pre_spill_buffer := pre_spill_buffer s;
  spill_started := spill_started s; spill_bytes := spill_bytes s; spill_max_bytes := spill_max_bytes s;
  spill_truncated := spill_truncated s |}.
Definition upd_counts (sq bytes lines truncated : N) (s : ExecTranscript) : ExecTranscript := {|
  chunks := chunks s; next_seq := sq; total_bytes_appended := bytes; total_lines_appended := lines;
  dropped_chunks := dropped_chunks s; dropped_bytes := dropped_bytes s; truncated_chunks := truncated;
  current_bytes := current_bytes s; max_bytes := max_bytes s; spill_threshold_bytes := spill_threshold_bytes s;
  has_spill := has_spill s; pre_spill_buffer := pre_spill_buffer s; spill_started := spill_started s;
  spill_bytes := spill_bytes s; spill_max_bytes := spill_max_bytes s; spill_truncated := spill_truncated s |}.
Definition upd_spill (buffer : text) (started : bool) (bytes : N) (truncated : bool) (s : ExecTranscript)
  : ExecTranscript := {|
  chunks := chunks s; next_seq := next_seq s; total_bytes_appended := total_bytes_appended s;
  total_lines_appended := total_lines_appended s; dropped_chunks := dropped_chunks s; dropped_bytes := dropped_bytes s;
  truncated_chunks := truncated_chunks s; current_bytes := current_bytes s; max_bytes := max_bytes s;
  spill_threshold_bytes := spill_threshold_bytes s; has_spill := has_spill s; pre_spill_buffer := buffer;
  spill_started := started; spill_bytes := bytes; spill_max_bytes := spill_max_bytes s; spill_truncated := truncated |}.

(** The eviction loop: each turn takes the oldest chunk. *)
Fixpoint evict `{tg : Target} (chunk_bytes max : N) (cs : list ExecOutputChunk) (cur dropped dropped_b : N)
  : option (list ExecOutputChunk * N * N * N) :=
  match cs with
  | [] => Some ([], cur, dropped, dropped_b)
  | c :: rest =>
      needed ← plus_assign usize_max cur chunk_bytes;
      if max <? needed then
        cur ← minus_assign usize_max cur (text_len (chunk_text c));
        dropped ← plus_assign u64_max dropped 1;
        dropped_b ← plus_assign usize_max dropped_b (text_len (chunk_text c));
        evict chunk_bytes max rest cur dropped dropped_b
      else Some (cs, cur, dropped, dropped_b)
  end.

Definition append_chunk_to_ring `{tg : Target} (st : ExecOutputStream) (t : text) (now_ms : N) (s : ExecTranscript)
  : option (ExecTranscript * ExecOutputChunk) :=
  let sq := next_seq s in
  if bool_decide (t = []) then Some (s, {| chunk_seq := sq; stream := st; chunk_text := []; timestamp_ms := now_ms |})
  else
    next ← plus_assign u64_max sq 1;
    let line_count := N.max (Nlen (lines t)) 1 in
    total ← plus_assign usize_max (total_bytes_appended s) (text_len t);
    total_lines ← plus_assign u64_max (total_lines_appended s) line_count;
    let was_truncated := max_bytes s <? text_len t in
    final_text ← (if was_truncated then truncate_to_char_boundary t (max_bytes s) else Some t);
    truncated ← (if was_truncated then plus_assign u64_max (truncated_chunks s) 1 else Some (truncated_chunks s));
    let s := upd_counts next total total_lines truncated s in
    let chunk_bytes := text_len final_text in
    evicted ← evict chunk_bytes (max_bytes s) (chunks s) (current_bytes s) (dropped_chunks s) (dropped_bytes s);
    let '(cs, cur, dropped, dropped_b) := evicted in
    cur ← plus_assign usize_max cur chunk_bytes;
    let chunk := {| chunk_seq := sq; stream := st; chunk_text := final_text; timestamp_ms := now_ms |} in
    Some (upd_ring (cs ++ [chunk]) cur dropped dropped_b s, chunk).

Definition prepare_spill_append `{tg : Target} (t : text) (s : ExecTranscript) : option (ExecTranscript * option text) :=
  if bool_decide (t = []) || spill_truncated s || negb (has_spill s) then Some (s, None)
  else if spill_started s then
    let remaining := spill_max_bytes s - spill_bytes s in
    if remaining =? 0 then Some (upd_spill (pre_spill_buffer s) true (spill_bytes s) true s, None)
    else
      kept ← truncate_to_char_boundary t remaining;
      Some (upd_spill (pre_spill_buffer s) true (sat_add usize_max (spill_bytes s) (text_len kept))
              (text_len kept <? text_len t) s, Some kept)
  else if sat_add usize_max (total_bytes_appended s) (text_len t) <=? spill_threshold_bytes s
  then Some (upd_spill (pre_spill_buffer s ++ t) false (spill_bytes s) false s, None)
  else
    let full_text := pre_spill_buffer s ++ t in
    kept ← truncate_to_char_boundary full_text (spill_max_bytes s);
    Some (upd_spill [] true (text_len kept) (text_len kept <? text_len full_text) s, Some kept).

Definition append_chunk `{tg : Target} (st : ExecOutputStream) (t : text) (now_ms : N) (s : ExecTranscript)
  : option (ExecTranscript * ExecOutputChunk * option text) :=
  r ← prepare_spill_append t s;
  let '(s, spill_append) := r in
  r ← append_chunk_to_ring st t now_ms s;
  let '(s, chunk) := r in
  Some (s, chunk, spill_append).

Definition read_since (since_seq : N) (s : ExecTranscript) : list ExecOutputChunk :=
  filter (λ c, since_seq <= chunk_seq c) (chunks s).
Record ExecReadResult := { rd_since_seq : N; rd_next_seq : N; latest_seq : N; rd_chunks : list ExecOutputChunk; is_truncated : bool }.
Definition transcript_is_truncated (s : ExecTranscript) : bool := (0 <? dropped_chunks s) || (0 <? truncated_chunks s).
Definition read `{tg : Target} (since_seq : N) (limit : option nat) (s : ExecTranscript) : option ExecReadResult :=
  let cs := match limit with Some n => take n (read_since since_seq s) | None => read_since since_seq s end in
  next ← match last cs with Some c => plus_assign u64_max (chunk_seq c) 1 | None => Some since_seq end;
  Some {| rd_since_seq := since_seq; rd_next_seq := next; latest_seq := next_seq s; rd_chunks := cs;
          is_truncated := transcript_is_truncated s |}.
