(* ===== verification/TranscriptProps.v ===== *)
(** * Properties of transcripts

    Cutting at a boundary keeps the longest prefix that fits; the ring holds the newest chunks within
    its bound; captures and spills are prefixes of what was printed. *)

From stdpp Require Import list strings.
From S2P Require Import Prelude RustStr Transcript.

Local Open Scope N_scope.

(** ** Boundaries *)

Lemma utf8_len_bounds c : 1 ≤ utf8_len c ≤ 4.
Proof. unfold utf8_len. repeat case_match; lia. Qed.

Lemma text_len_app t u : text_len (t ++ u) = text_len t + text_len u.
Proof. induction t as [|c t IH]; simpl; [lia|]. rewrite IH. lia. Qed.

Lemma text_len_0 t : text_len t = 0 ↔ t = [].
Proof. destruct t as [|c t]; simpl; [done|]. pose proof (utf8_len_bounds c). split; [lia|done]. Qed.

Lemma is_char_boundary_iff t i : is_char_boundary t i = true ↔ ∃ p r, t = p ++ r ∧ text_len p = i.
Proof.
  revert i. induction t as [|c t IH]; intros i; cbn [is_char_boundary].
  - rewrite N.eqb_eq. split; [intros ->; by exists [], []|]. intros (p & r & Heq & <-). symmetry in Heq. by apply app_eq_nil in Heq as [-> _].
  - rewrite orb_true_iff, N.eqb_eq, andb_true_iff, N.leb_le, IH. split.
    + intros [->|[Hle (p & r & -> & Hp)]]; [by exists [], (c :: t)|]. exists (c :: p), r. split; [done|]. simpl. lia.
    + intros (p & r & Heq & <-). destruct p as [|x p]; [by left|]. right. injection Heq as <- ->. simpl. split; [lia|].
      exists p, r. split; [done|lia].
Qed.

(** The boundary just below a place. *)
Lemma split_below t i :
  i ≤ text_len t → ∃ p r, t = p ++ r ∧ text_len p ≤ i ∧ match r with [] => text_len p = i | c :: _ => i < text_len p + utf8_len c end.
Proof.
  revert i. induction t as [|c t IH]; intros i Hi; simpl in Hi.
  { exists [], []. split; [done|]. simpl. lia. }
  destruct (N.lt_ge_cases i (utf8_len c)) as [Hlt|Hge].
  { exists [], (c :: t). split; [done|]. simpl. lia. }
  destruct (IH (i - utf8_len c)) as (p & r & -> & Hp & Hr); [lia|]. exists (c :: p), r. split; [done|]. simpl. split; [lia|].
  destruct r; lia.
Qed.

(** No boundary lies inside a scalar. *)
Lemma inside_scalar p c r i :
  text_len p < i → i < text_len p + utf8_len c → is_char_boundary (p ++ c :: r) i = false.
Proof.
  intros H1 H2. apply not_true_iff_false. rewrite is_char_boundary_iff. intros (p' & r' & Heq & <-).
  apply app_eq_app in Heq as (l & [[-> ->]|[-> Hl]]).
  - rewrite text_len_app in H1. lia.
  - rewrite text_len_app in H1, H2. destruct l as [|x l]; [simpl in H1; lia|]. injection Hl as <- ->. simpl in H2. lia.
Qed.

Lemma boundary_at p r : is_char_boundary (p ++ r) (text_len p) = true.
Proof. apply is_char_boundary_iff. by exists p, r. Qed.

Lemma boundary_down_ok fuel p r i :
  text_len p ≤ i → match r with [] => text_len p = i | c :: _ => i < text_len p + utf8_len c end →
  i - text_len p < N.of_nat fuel → boundary_down fuel (p ++ r) i = Some (text_len p).
Proof.
  revert i. induction fuel as [|fuel IH]; intros i Hp Hr Hf; [lia|]. cbn [boundary_down].
  destruct (decide (i = text_len p)) as [->|Hne]; [by rewrite boundary_at, andb_false_r|]. destruct r as [|c r]; [done|].
  rewrite inside_scalar by lia. rewrite (proj2 (N.ltb_lt 0 i)) by lia. simpl. apply IH; lia.
Qed.

Lemma slice_to_ok p r : slice_to (p ++ r) (text_len p) = Some p.
Proof.
  induction p as [|c p IH]; cbn [text_len]; [by destruct r|]. simpl. pose proof (utf8_len_bounds c).
  rewrite (proj2 (N.eqb_neq _ _)), (proj2 (N.leb_le _ _)) by lia.
  replace (utf8_len c + text_len p - utf8_len c) with (text_len p) by lia. by rewrite IH.
Qed.
Lemma slice_from_ok p r : slice_from (p ++ r) (text_len p) = Some r.
Proof.
  induction p as [|c p IH]; cbn [text_len]; [by destruct r|]. simpl. pose proof (utf8_len_bounds c).
  rewrite (proj2 (N.eqb_neq _ _)), (proj2 (N.leb_le _ _)) by lia.
  by replace (utf8_len c + text_len p - utf8_len c) with (text_len p) by lia.
Qed.

(** The prefix that is kept, and what is cut off it. *)
Definition cut (t : text) (max : N) (p r : text) : Prop :=
  t = p ++ r ∧ text_len p ≤ max ∧ match r with [] => True | c :: _ => max < text_len p + utf8_len c end.

(** Cutting never panics and keeps the longest prefix that fits. *)
Lemma truncate_ok t max : ∃ p r, truncate_to_char_boundary t max = Some p ∧ cut t max p r.
Proof.
  unfold truncate_to_char_boundary. destruct (N.leb_spec (text_len t) max) as [Hle|Hlt].
  { exists t, []. split; [done|]. unfold cut. by rewrite app_nil_r. }
  destruct (split_below t max) as (p & r & -> & Hp & Hr); [lia|].
  assert (boundary_down BOUNDARY_FUEL (p ++ r) max = Some (text_len p)) as ->.
  { apply boundary_down_ok; [done|done|]. destruct r as [|c r]; [unfold BOUNDARY_FUEL; lia|].
    pose proof (utf8_len_bounds c). unfold BOUNDARY_FUEL. lia. }
  simpl. rewrite slice_to_ok. exists p, r. split; [done|]. split; [done|]. split; [done|]. by destruct r.
Qed.

Lemma boundary_up_ok fuel p r i :
  i ≤ text_len p → (∀ j, i ≤ j → j < text_len p → is_char_boundary (p ++ r) j = false) → text_len p - i < N.of_nat fuel →
  boundary_up fuel (p ++ r) i = Some (text_len p).
Proof.
  revert i. induction fuel as [|fuel IH]; intros i Hp Hin Hf; [lia|]. cbn [boundary_up].
  destruct (decide (i = text_len p)) as [->|Hne]; [by rewrite boundary_at, andb_false_r|].
  rewrite Hin by lia. rewrite text_len_app, (proj2 (N.ltb_lt _ _)) by lia. simpl. apply IH; [lia| |lia].
  intros j Hj. apply Hin. lia.
Qed.

(** ** Maximal prefixes *)

Lemma cut_whole t max p : cut t max p [] → p = t.
Proof. intros (-> & _). by rewrite app_nil_r. Qed.

Lemma cut_nil t max r : cut t max [] r → t = r.
Proof. by intros (-> & _). Qed.

(** What is cut once stays cut, whatever comes next. *)
Lemma cut_more t max p r u : cut t max p r → r ≠ [] → cut (t ++ u) max p (r ++ u).
Proof. intros (-> & Hp & Hr) Hne. unfold cut. rewrite <- app_assoc. destruct r; [done|]. split; [done|]. by split. Qed.

(** A prefix that is complete so far is prolonged by what fits of the next text. *)
Lemma cut_app t max u p r : text_len t ≤ max → cut u (max - text_len t) p r → cut (t ++ u) max (t ++ p) r.
Proof.
  intros Ht (-> & Hp & Hr). unfold cut. rewrite app_assoc. split; [done|]. rewrite text_len_app. split; [lia|].
  destruct r; [done|]. lia.
Qed.

Lemma cut_full t max u : text_len t = max → u ≠ [] → cut (t ++ u) max t u.
Proof.
  intros Ht Hu. unfold cut. split; [done|]. split; [lia|]. destruct u as [|c u]; [done|]. pose proof (utf8_len_bounds c). lia.
Qed.

Lemma cut_lengths t max p r : cut t max p r → text_len t = text_len p + text_len r.
Proof. intros (-> & _). apply text_len_app. Qed.

(** The prefix is determined by the text and the bound. *)
Lemma cut_unique t max p r p' r' : cut t max p r → cut t max p' r' → p = p' ∧ r = r'.
Proof.
  intros (-> & Hp & Hr) (Heq & Hp' & Hr'). apply app_eq_app in Heq as (l & [[-> ->]|[-> ->]]).
  - destruct l as [|c l]; [by rewrite app_nil_r|]. simpl in Hr'. rewrite text_len_app in Hp. simpl in Hp. lia.
  - destruct l as [|c l]; [by rewrite app_nil_r|]. simpl in Hr. rewrite text_len_app in Hp'. simpl in Hp'. lia.
Qed.

Lemma sat_add_app m x y : sat_add m (N.min m x) y = N.min m (x + y).
Proof. unfold sat_add. lia. Qed.

Section target.
Context {tg : Target}.

Lemma plus_assign_fits max x y : x + y ≤ max → plus_assign max x y = Some (x + y).
Proof. intros H. unfold plus_assign. by rewrite (proj2 (N.leb_le _ _)). Qed.

Lemma minus_assign_fits max x y : y ≤ x → minus_assign max x y = Some (x - y).
Proof. intros H. unfold minus_assign. by rewrite (proj2 (N.leb_le _ _)). Qed.

Lemma usize_fits : 4294967295 ≤ usize_max ≤ u64_max.
Proof. unfold usize_max, u64_max. destruct (pointer_width tg); lia. Qed.

(** ** The raw capture *)

Record capture_inv (printed : text) (c : ExecRawStreamCapture) : Prop := {
  ci_cut : ∃ r, cut printed (cap_max_bytes c) (cap_text c) r ∧ elided_bytes c = N.min usize_max (text_len r)
                ∧ hit_limit c = negb (bool_decide (r = []));
}.

Lemma capture_append_ok printed c t :
  capture_inv printed c →
  ∃ c', capture_append t c = Some c' ∧ cap_max_bytes c' = cap_max_bytes c ∧ capture_inv (printed ++ t) c'.
Proof.
  intros [(r & Hcut & Hel & Hhit)]. unfold capture_append. destruct (decide (t = [])) as [Ht|Ht]; [rewrite bool_decide_eq_true_2 by done|rewrite bool_decide_eq_false_2 by done].
  { subst t. exists c. rewrite app_nil_r. split; [done|]. split; [done|]. split. by exists r. }
  rewrite Hel, Hhit. destruct (bool_decide_reflect (r = [])) as [Hr|Hr]; cbn [negb].
  - subst r. apply cut_whole in Hcut as Heq. subst printed. destruct Hcut as (_ & Hle & _).
    destruct (N.eqb_spec (cap_max_bytes c - text_len (cap_text c)) 0) as [H0|H0].
    + eexists. split; [done|]. split; [done|]. split. exists t. split; [apply cut_full; simpl; [lia|done]|].
      cbn [elided_bytes hit_limit text_len]. rewrite sat_add_app, bool_decide_eq_false_2 by done. done.
    + destruct (truncate_ok t (cap_max_bytes c - text_len (cap_text c))) as (p & r & -> & Hc). simpl.
      eexists. split; [done|]. split; [done|]. split. exists r. cbn [cap_max_bytes cap_text elided_bytes hit_limit].
      split; [by apply cut_app|]. pose proof (cut_lengths _ _ _ _ Hc) as Hl. rewrite Hl, sat_add_app. split; [f_equal; lia|].
      rewrite orb_false_r. destruct (bool_decide_reflect (r = [])) as [Hr|Hr]; simpl.
      * subst r. apply N.ltb_ge. simpl in *. lia.
      * apply N.ltb_lt. pose proof (text_len_0 r). destruct (decide (text_len r = 0)); [tauto|lia].
  - eexists. split; [done|]. split; [done|]. split. exists (r ++ t). split; [by apply cut_more|].
    cbn [elided_bytes hit_limit]. rewrite sat_add_app, text_len_app, bool_decide_eq_false_2; [done|].
    intros Hn. by apply app_eq_nil in Hn as [-> _].
Qed.

(** Everything a stream prints, in order. *)
Fixpoint capture_all (ts : list text) (c : ExecRawStreamCapture) : option ExecRawStreamCapture :=
  match ts with [] => Some c | t :: ts => c ← capture_append t c; capture_all ts c end.

Lemma capture_all_ok ts printed c :
  capture_inv printed c →
  ∃ c', capture_all ts c = Some c' ∧ cap_max_bytes c' = cap_max_bytes c ∧ capture_inv (printed ++ concat ts) c'.
Proof.
  revert printed c. induction ts as [|t ts IH]; intros printed c Hinv; simpl.
  { exists c. by rewrite app_nil_r. }
  destruct (capture_append_ok _ _ t Hinv) as (c1 & -> & Hm & Hinv1). simpl.
  destruct (IH _ _ Hinv1) as (c2 & -> & Hm2 & Hinv2). exists c2. rewrite Hm2, Hm, app_assoc. done.
Qed.

Lemma new_capture_inv max : capture_inv [] (new_capture max).
Proof. split. exists []. split; [|simpl; split; [lia|done]]. unfold cut. simpl. split; [done|]. split; [lia|done]. Qed.

(** A capture never panics and keeps the longest prefix, at a character boundary, of everything
    a stream prints that fits its bound; what it does not keep it counts. *)
Lemma capture_keeps_the_longest_prefix ts max :
  ∃ c rest, capture_all ts (new_capture max) = Some c
            ∧ cut (concat ts) (N.max max 1) (cap_text c) rest
            ∧ elided_bytes c = N.min usize_max (text_len rest)
            ∧ (hit_limit c = false ↔ cap_text c = concat ts).
Proof.
  destruct (capture_all_ok ts _ _ (new_capture_inv max)) as (c & Hc & Hm & [(r & Hcut & Hel & Hhit)]). simpl in Hm, Hcut.
  rewrite Hm in Hcut. exists c, r. split; [done|]. split; [done|]. split; [done|]. rewrite Hhit, negb_false_iff, bool_decide_eq_true.
  split; [intros ->; by apply cut_whole in Hcut|]. intros Heq. apply cut_lengths in Hcut. rewrite Heq in Hcut. apply text_len_0. lia.
Qed.

(** ** Reading the combined capture by offsets *)

Lemma down_to_boundary t i :
  i ≤ text_len t → ∃ p r, t = p ++ r ∧ boundary_down BOUNDARY_FUEL t i = Some (text_len p)
                          ∧ text_len p ≤ i ∧ (is_char_boundary t i = true → text_len p = i).
Proof.
  intros Hi. destruct (split_below t i Hi) as (p & r & -> & Hp & Hr). exists p, r. split; [done|]. split.
  - apply boundary_down_ok; [done|done|]. destruct r as [|c r]; [unfold BOUNDARY_FUEL; lia|].
    pose proof (utf8_len_bounds c). unfold BOUNDARY_FUEL. lia.
  - split; [done|]. intros Hb. destruct (decide (text_len p = i)) as [|Hne]; [done|]. destruct r as [|c r]; [done|].
    rewrite inside_scalar in Hb by lia. done.
Qed.

(** Going up ends at the first boundary: what is skipped is at most the scalar that was hit. *)
Lemma up_to_boundary t i :
  i ≤ text_len t → ∃ p r, t = p ++ r ∧ boundary_up BOUNDARY_FUEL t i = Some (text_len p)
                          ∧ i ≤ text_len p ∧ (text_len p < i + 4).
Proof.
  intros Hi. destruct (split_below t i Hi) as (p & r & -> & Hp & Hr). destruct (decide (text_len p = i)) as [<-|Hne].
  { exists p, r. split; [done|]. split; [|lia]. unfold BOUNDARY_FUEL. cbn [boundary_up]. by rewrite boundary_at, andb_false_r. }
  destruct r as [|c r]; [done|]. pose proof (utf8_len_bounds c) as Hc. exists (p ++ [c]), r. rewrite <- app_assoc. split; [done|].
  assert (text_len (p ++ [c]) = text_len p + utf8_len c) as Hl by (rewrite text_len_app; simpl; lia).
  split; [|lia]. rewrite (app_assoc p [c] r : p ++ c :: r = (p ++ [c]) ++ r).
  apply boundary_up_ok; [lia| |unfold BOUNDARY_FUEL; lia].
  intros j H1 H2. rewrite <- app_assoc. apply inside_scalar; lia.
Qed.

Definition combined_text (c : ExecRawCapture) : text := match rc_combined c with Some x => cap_text x | None => [] end.

(** Reading the combined capture never panics, whatever the offset and the bound; it answers the
    tail of what was captured, up to the end, and a bound is overrun by nothing and missed by
    less than one character. *)
Theorem raw_reads_never_panic c offset max :
  rc_combined c ≠ None →
  ∃ skipped rd, read_combined_since c offset max = Some (Some rd)
    ∧ combined_text c = skipped ++ rr_text rd
    ∧ start_offset rd = text_len skipped ∧ new_offset rd = text_len (combined_text c)
    ∧ match max with
      | Some m => text_len (rr_text rd) ≤ m
                  ∧ (m < text_len (combined_text c) - offset → m < text_len (rr_text rd) + 4)
      | None => start_offset rd ≤ offset
      end.
Proof.
  intros Hc. unfold read_combined_since, combined_text. destruct (rc_combined c) as [x|]; [|done]. set (t := cap_text x) in *.
  destruct (down_to_boundary t (N.min offset (text_len t))) as (p & r & Heq & Hd & Hle & _); [lia|].
  unfold mbind, option_bind. rewrite Hd.
  assert (slice_from t (text_len p) = Some r) as Hs by (rewrite Heq; apply slice_from_ok).
  assert (text_len t = text_len p + text_len r) as Hl by (rewrite Heq; apply text_len_app).
  destruct max as [m|].
  - destruct (N.ltb_spec (text_len p) (text_len t - m)) as [Hlt|Hge].
    + destruct (up_to_boundary t (text_len t - m)) as (p' & r' & Heq' & Hu & Hup & Hup4); [lia|]. rewrite Hu.
      assert (slice_from t (text_len p') = Some r') as -> by (rewrite Heq'; apply slice_from_ok).
      assert (text_len t = text_len p' + text_len r') as Hl' by (rewrite Heq'; apply text_len_app).
      eexists p', _. split; [done|]. cbn [start_offset new_offset rr_text]. split; [done|]. split; [done|]. split; [done|]. lia.
    + rewrite Hs. eexists p, _. split; [done|]. cbn [start_offset new_offset rr_text]. split; [done|]. split; [done|].
      split; [done|]. lia.
  - rewrite Hs. eexists p, _. split; [done|]. cbn [start_offset new_offset rr_text]. split; [done|]. split; [done|].
    split; [done|]. lia.
Qed.

(** A reader that comes back with the offset it was given gets what was captured in between. *)
Lemma raw_reads_resume c c' x y rd offset max :
  rc_combined c = Some x → rc_combined c' = Some y → read_combined_since c offset max = Some (Some rd) →
  ∀ more, cap_text y = cap_text x ++ more →
  read_combined_since c' (new_offset rd) None
  = Some (Some {| start_offset := new_offset rd; new_offset := text_len (cap_text y); rr_text := more |}).
Proof.
  intros Hx Hy Hrd more Hmore. unfold read_combined_since in Hrd |- *. rewrite Hx in Hrd. rewrite Hy, Hmore.
  assert (new_offset rd = text_len (cap_text x)) as ->.
  { unfold mbind, option_bind in Hrd. repeat (case_match; try done); by simplify_eq/=. }
  rewrite N.min_l by (rewrite text_len_app; lia).
  destruct (down_to_boundary (cap_text x ++ more) (text_len (cap_text x))) as (p & r & Heq & Hd & _ & Hb); [rewrite text_len_app; lia|].
  unfold mbind, option_bind. rewrite Hd, (Hb (boundary_at _ _)), slice_from_ok. done.
Qed.

(** ** The ring *)

Fixpoint chunks_bytes (cs : list ExecOutputChunk) : N :=
  match cs with [] => 0 | c :: cs => text_len (chunk_text c) + chunks_bytes cs end.

Lemma chunks_bytes_app a b : chunks_bytes (a ++ b) = chunks_bytes a + chunks_bytes b.
Proof. induction a as [|c a IH]; simpl; [done|]. rewrite IH. lia. Qed.

Lemma Nlen_app {A} (a b : list A) : Nlen (a ++ b) = Nlen a + Nlen b.
Proof. unfold Nlen. rewrite length_app. lia. Qed.

(** The chunks that were dropped, before those that are held. *)
Record ring_inv (all : list ExecOutputChunk) (s : ExecTranscript) (old : list ExecOutputChunk) : Prop := {
  ri_all : all = old ++ chunks s;
  ri_seq : ∀ i c, all !! i = Some c → chunk_seq c = N.of_nat i;
  ri_next : next_seq s = Nlen all;
  ri_bytes : current_bytes s = chunks_bytes (chunks s);
  ri_bound : current_bytes s ≤ max_bytes s;
  ri_dropped : dropped_chunks s = Nlen old;
  ri_dropped_bytes : dropped_bytes s = chunks_bytes old;
  ri_needed : ∀ c, last old = Some c → max_bytes s < text_len (chunk_text c) + current_bytes s;
}.

(** Eviction takes a prefix, no more than is needed, and nothing overflows while all the counters
    count fits their widths. *)
Lemma evict_ok b max cs cur d db :
  cur = chunks_bytes cs → b ≤ max → cur + b ≤ usize_max → d + Nlen cs ≤ u64_max → db + cur ≤ usize_max →
  ∃ gone kept, cs = gone ++ kept
    ∧ evict b max cs cur d db = Some (kept, chunks_bytes kept, d + Nlen gone, db + chunks_bytes gone)
    ∧ chunks_bytes kept + b ≤ max
    ∧ (∀ c, last gone = Some c → max < text_len (chunk_text c) + (chunks_bytes kept + b)).
Proof.
  revert cur d db. induction cs as [|c cs IH]; intros cur d db -> Hb Hc Hd Hdb; cbn [evict].
  { exists [], []. split; [done|]. unfold chunks_bytes, Nlen. simpl. rewrite !N.add_0_r. split; [done|]. by split. }
  cbn [chunks_bytes] in Hc, Hdb |- *. assert (Nlen (c :: cs) = 1 + Nlen cs) as Hl by (unfold Nlen; simpl; lia).
  rewrite (plus_assign_fits _ (text_len _ + _)) by lia. cbn [mbind option_bind].
  destruct (N.ltb_spec max (text_len (chunk_text c) + chunks_bytes cs + b)) as [Hlt|Hge].
  - rewrite minus_assign_fits, !plus_assign_fits by lia. cbn [mbind option_bind].
    destruct (IH (text_len (chunk_text c) + chunks_bytes cs - text_len (chunk_text c)) (d + 1)
                 (db + text_len (chunk_text c)))
      as (gone & kept & -> & -> & Hk & Hlast); [lia|done|lia|lia|lia|].
    exists (c :: gone), kept. split; [done|]. split.
    { f_equal. f_equal; [f_equal|]; [unfold Nlen; simpl; lia|]. cbn [chunks_bytes]. lia. }
    split; [done|]. intros x Hx. destruct gone as [|g gone]; [|by apply Hlast]. injection Hx as <-. simpl in *. lia.
  - exists [], (c :: cs). split; [done|]. unfold Nlen. simpl length. rewrite !N.add_0_r. split; [done|]. split; [done|]. done.
Qed.

(** What one chunk holds of what was printed. *)
Definition chunk_of (max : N) (i : ExecOutputStream * text * N) (c : ExecOutputChunk) : Prop :=
  stream c = i.1.1 ∧ timestamp_ms c = i.2 ∧ ∃ rest, cut i.1.2 max (chunk_text c) rest.

Definition nonempty_outputs (outputs : list (ExecOutputStream * text * N)) := filter (λ o, o.1.2 ≠ []) outputs.
Definition printed_text (outputs : list (ExecOutputStream * text * N)) : text := concat ((λ o, o.1.2) <$> outputs).

Definition line_total (outputs : list (ExecOutputStream * text * N)) : N :=
  foldr (λ o n, N.max (Nlen (lines o.1.2)) 1 + n) 0 (nonempty_outputs outputs).

Lemma lines_length t : Nlen (lines t) ≤ text_len t.
Proof.
  unfold lines, Nlen. induction t as [|x t IH]; [done|]. cbn [text_len split_on]. pose proof (utf8_len_bounds x).
  destruct (split_on_cons 10 t) as (p & rest & Hs). rewrite Hs in *. destruct (x =? 10).
  - rewrite lines_of_cons. cbn [length]. lia.
  - destruct rest as [|q rest]; [cbn; lia|]. rewrite lines_of_cons in *. cbn [length] in *. lia.
Qed.

Lemma text_len_pos t : t ≠ [] → 1 ≤ text_len t.
Proof. intros Ht. pose proof (text_len_0 t). destruct (decide (text_len t = 0)); [tauto|lia]. Qed.

(** The counters after some outputs: what they count, and that each counts no more than bytes. *)
Record counted (outputs : list (ExecOutputStream * text * N)) (all : list ExecOutputChunk) (s : ExecTranscript) : Prop := {
  cn_bytes : total_bytes_appended s = text_len (printed_text outputs);
  cn_lines : total_lines_appended s = line_total outputs;
  cn_truncated : truncated_chunks s = Nlen (filter (λ o, max_bytes s < text_len o.1.2) outputs);
  cn_room : Nlen all ≤ total_bytes_appended s ∧ chunks_bytes all ≤ total_bytes_appended s
            ∧ total_lines_appended s ≤ total_bytes_appended s ∧ truncated_chunks s ≤ total_bytes_appended s;
}.

Lemma printed_snoc outputs o : printed_text (outputs ++ [o]) = printed_text outputs ++ o.1.2.
Proof. unfold printed_text. rewrite fmap_app, concat_app. simpl. by rewrite app_nil_r. Qed.

Lemma line_total_snoc outputs o :
  o.1.2 ≠ [] → line_total (outputs ++ [o]) = line_total outputs + N.max (Nlen (lines o.1.2)) 1.
Proof.
  intros Ho. unfold line_total, nonempty_outputs. rewrite filter_app, filter_cons_True, filter_nil by done.
  induction (filter _ outputs) as [|x l IH]; cbn [foldr app]; [lia|]. rewrite IH. lia.
Qed.

Lemma ring_append_ok st t now outs all s old :
  ring_inv all s old → counted outs all s → t ≠ [] → text_len (printed_text (outs ++ [(st, t, now)])) ≤ usize_max →
  ∃ s' c old', append_chunk_to_ring st t now s = Some (s', c) ∧ ring_inv (all ++ [c]) s' old'
    ∧ counted (outs ++ [(st, t, now)]) (all ++ [c]) s'
    ∧ max_bytes s' = max_bytes s ∧ chunk_of (max_bytes s) (st, t, now) c.
Proof.
  intros Hinv Hcnt Ht Hfits. rewrite printed_snoc, text_len_app in Hfits. cbn [fst snd] in Hfits.
  pose proof usize_fits as Hus. pose proof (text_len_pos _ Ht) as Hpos. pose proof (lines_length t) as Hlines.
  destruct Hinv as [Hall Hseq Hnext Hb Hbound Hd Hdb Hneed]. destruct Hcnt as [Hbytes Hln Htr (Hr1 & Hr2 & Hr3 & Hr4)].
  assert (Nlen all = Nlen old + Nlen (chunks s)) as Hna by (by rewrite Hall, Nlen_app).
  assert (chunks_bytes all = chunks_bytes old + chunks_bytes (chunks s)) as Hca by (by rewrite Hall, chunks_bytes_app).
  unfold append_chunk_to_ring. rewrite bool_decide_eq_false_2 by done.
  rewrite !(plus_assign_fits _ (next_seq s)), (plus_assign_fits _ (total_bytes_appended s)),
    (plus_assign_fits _ (total_lines_appended s)) by lia. cbn [mbind option_bind].
  assert (∃ p r, (if max_bytes s <? text_len t then truncate_to_char_boundary t (max_bytes s) else Some t) = Some p
                 ∧ cut t (max_bytes s) p r) as (p & r & -> & Hcut).
  { destruct (N.ltb_spec (max_bytes s) (text_len t)) as [Hlt|Hge]; [apply truncate_ok|]. exists t, []. split; [done|].
    unfold cut. by rewrite app_nil_r. }
  pose proof (cut_lengths _ _ _ _ Hcut) as Hpr. cbn [mbind option_bind].
  assert ((if max_bytes s <? text_len t then plus_assign u64_max (truncated_chunks s) 1 else Some (truncated_chunks s))
          = Some (truncated_chunks s + if max_bytes s <? text_len t then 1 else 0)) as ->.
  { destruct (_ <? _); [by rewrite plus_assign_fits by lia|by rewrite N.add_0_r]. }
  cbn [mbind option_bind upd_counts max_bytes chunks current_bytes dropped_chunks dropped_bytes].
  destruct Hcut as (Heq & Hfit & Hmax).
  destruct (evict_ok (text_len p) (max_bytes s) (chunks s) (current_bytes s) (dropped_chunks s) (dropped_bytes s))
    as (gone & kept & Hcs & -> & Hk & Hl); [done|done|lia|lia|lia|]. cbn [mbind option_bind].
  assert (chunks_bytes (chunks s) = chunks_bytes gone + chunks_bytes kept) as Hck by (by rewrite Hcs, chunks_bytes_app).
  rewrite plus_assign_fits by lia. cbn [mbind option_bind].
  eexists _, _, (old ++ gone). split; [done|].
  split; [|split; [|split; [done|split; [done|split; [done|by exists r]]]]].
  - split; cbn [upd_ring upd_counts chunks next_seq current_bytes max_bytes dropped_chunks dropped_bytes].
    + rewrite Hall, Hcs, <- !app_assoc. done.
    + intros i c Hi. apply lookup_app_Some in Hi as [Hi|[Hge Hi]]; [by apply Hseq|].
      apply list_lookup_singleton_Some in Hi as [H0 <-]. simpl. rewrite Hnext. unfold Nlen. f_equal. lia.
    + by rewrite Hnext, Nlen_app.
    + rewrite chunks_bytes_app. simpl. lia.
    + lia.
    + by rewrite Hd, Nlen_app.
    + by rewrite Hdb, chunks_bytes_app.
    + intros c Hc. rewrite last_app in Hc. destruct (last gone) as [g|] eqn:Hg; [by injection Hc as <-; apply Hl|].
      apply last_None in Hg as ->. simpl in Hcs. subst kept. specialize (Hneed _ Hc). rewrite <- Hb. lia.
  - split; cbn [upd_ring upd_counts total_bytes_appended total_lines_appended truncated_chunks max_bytes].
    + by rewrite printed_snoc, text_len_app, Hbytes.
    + rewrite line_total_snoc by done. by rewrite Hln.
    + rewrite filter_app, Nlen_app, Htr. f_equal. destruct (N.ltb_spec (max_bytes s) (text_len t)).
      * by rewrite filter_cons_True.
      * rewrite filter_cons_False; [done|]. cbn. lia.
    + rewrite Nlen_app, chunks_bytes_app. unfold Nlen at 2. cbn [length chunks_bytes chunk_text].
      destruct (_ <? _); lia.
Qed.

(** ** The spill *)

(** What was sent to the file and what was not, of everything printed while spilling is on. *)
Record spill_inv (printed sent rest : text) (s : ExecTranscript) : Prop := {
  si_has : has_spill s = true;
  si_max : spill_max_bytes s < usize_max;
  si_total : total_bytes_appended s = text_len printed;
  si_started : spill_started s = (spill_threshold_bytes s <? text_len printed);
  si_before : spill_started s = false → pre_spill_buffer s = printed ∧ sent = [] ∧ spill_truncated s = false;
  si_after : spill_started s = true → cut printed (spill_max_bytes s) sent rest ∧ spill_bytes s = text_len sent
                                      ∧ spill_truncated s = negb (bool_decide (rest = []));
}.

Definition sent_of (o : option text) : text := default [] o.

Definition ring_view (s : ExecTranscript) :=
  (chunks s, next_seq s, current_bytes s, max_bytes s, dropped_chunks s, dropped_bytes s,
   total_bytes_appended s, total_lines_appended s, truncated_chunks s).
Definition spill_view (s : ExecTranscript) :=
  (has_spill s, spill_max_bytes s, spill_threshold_bytes s, pre_spill_buffer s, spill_started s, spill_bytes s, spill_truncated s).

Lemma ring_inv_view all s s' old : ring_view s' = ring_view s → ring_inv all s old → ring_inv all s' old.
Proof.
  unfold ring_view. intros [= H1 H2 H3 H4 H5 H6 _ _ _] [? ? ? ? ? ? ? ?].
  split; rewrite ?H1, ?H2, ?H3, ?H4, ?H5, ?H6; done.
Qed.

Lemma counted_view outs all s s' : ring_view s' = ring_view s → counted outs all s → counted outs all s'.
Proof.
  unfold ring_view. intros [= _ _ _ Hm _ _ H1 H2 H3] [? ? ? ?].
  split; rewrite ?H1, ?H2, ?H3, ?Hm; done.
Qed.

Lemma prepare_total t s : ∃ s' o, prepare_spill_append t s = Some (s', o) ∧ ring_view s' = ring_view s.
Proof.
  unfold prepare_spill_append. destruct (bool_decide (t = []) || _ || _); [by eexists _, _|].
  destruct (spill_started s).
  - destruct (_ =? 0); [by eexists _, _|]. destruct (truncate_ok t (spill_max_bytes s - spill_bytes s)) as (p & r & -> & _).
    by eexists _, _.
  - destruct (sat_add _ _ _ <=? _); [by eexists _, _|].
    destruct (truncate_ok (pre_spill_buffer s ++ t) (spill_max_bytes s)) as (p & r & -> & _). by eexists _, _.
Qed.

Lemma ring_keeps_spill st t now s s' c :
  append_chunk_to_ring st t now s = Some (s', c) → spill_view s' = spill_view s.
Proof.
  unfold append_chunk_to_ring. case_bool_decide as Ht; [by intros [= <- <-]|].
  unfold mbind, option_bind. repeat (case_match; try done); by intros [= <- <-].
Qed.

(** A prefix that stops before the end is not taken up again. *)
Lemma cut_rest_full t max p r : cut t max p r → r ≠ [] → ∀ u, cut (t ++ u) max (p ++ []) (r ++ u).
Proof. intros Hc Hr u. rewrite app_nil_r. by apply cut_more. Qed.

Lemma kept_flag max t p r : cut t max p r → (text_len p <? text_len t) = negb (bool_decide (r = [])).
Proof.
  intros Hc%cut_lengths. destruct (bool_decide_reflect (r = [])) as [->|Hr]; simpl in *.
  - apply N.ltb_ge. lia.
  - apply N.ltb_lt. pose proof (text_len_0 r). destruct (decide (text_len r = 0)); [tauto|lia].
Qed.

Lemma prepare_ok printed sent rest s t :
  spill_inv printed sent rest s → spill_threshold_bytes s < usize_max →
  ∃ s' o rest', prepare_spill_append t s = Some (s', o)
    ∧ spill_max_bytes s' = spill_max_bytes s ∧ spill_threshold_bytes s' = spill_threshold_bytes s
    ∧ ∀ s2, spill_view s2 = spill_view s' → total_bytes_appended s2 = text_len (printed ++ t) →
            spill_inv (printed ++ t) (sent ++ sent_of o) rest' s2.
Proof.
  intros Hinv Hthr. unfold prepare_spill_append. destruct (decide (t = [])) as [->|Ht].
  { exists s, None, rest. rewrite bool_decide_eq_true_2 by done. do 3 (split; [done|]). rewrite !app_nil_r.
    unfold spill_view. intros s2 [= H1 H2 H3 H4 H5 H6 H7] Ht2.
    destruct Hinv as [? ? ? ? ? ?]. split; rewrite ?H1, ?H2, ?H3, ?H4, ?H5, ?H6, ?H7; done. }
  destruct Hinv as [Hhas Hmax Htot Hst Hbef Haft]. rewrite bool_decide_eq_false_2, Hhas by done. cbn [orb negb].
  rewrite orb_false_r.
  assert (0 < text_len t) as Hpos. { pose proof (text_len_0 t). destruct (decide (text_len t = 0)); [tauto|lia]. }
  destruct (spill_started s) eqn:Hstarted.
  - symmetry in Hst. apply N.ltb_lt in Hst. destruct (Haft eq_refl) as (Hcut & Hb & Htr).
    assert (∀ b, b = true → b = (spill_threshold_bytes s <? text_len (printed ++ t))) as Hgo.
    { intros b ->. symmetry. apply N.ltb_lt. rewrite text_len_app. lia. }
    rewrite Htr. destruct (bool_decide_reflect (rest = [])) as [->|Hrest]; cbn [negb].
    + apply cut_whole in Hcut as Heq. subst sent. destruct Hcut as (_ & Hle & _). rewrite Hb.
      destruct (N.eqb_spec (spill_max_bytes s - text_len printed) 0) as [H0|H0].
      * eexists _, None, t. split; [done|]. split; [done|]. split; [done|]. unfold spill_view. cbn.
        intros s2 [= H1 H2 H3 H4 H5 H6 H7] Ht2. rewrite app_nil_r. split; rewrite ?H1, ?H2, ?H3, ?H5; auto; [done|].
        intros _. rewrite H6, H7. split; [apply cut_full; [lia|done]|]. split; [done|]. by rewrite bool_decide_eq_false_2.
      * destruct (truncate_ok t (spill_max_bytes s - text_len printed)) as (p & r & -> & Hc). simpl.
        eexists _, (Some p), r. split; [done|]. split; [done|]. split; [done|]. unfold spill_view. cbn.
        intros s2 [= H1 H2 H3 H4 H5 H6 H7] Ht2. split; rewrite ?H1, ?H2, ?H3, ?H5; auto; [done|].
        intros _. rewrite H6, H7. split; [by apply cut_app|]. split; [|by eapply kept_flag].
        destruct Hc as (_ & Hc & _). rewrite text_len_app. unfold sat_add. lia.
    + eexists s, None, (rest ++ t). split; [done|]. split; [done|]. split; [done|]. unfold spill_view.
      intros s2 [= H1 H2 H3 H4 H5 H6 H7] Ht2. split; rewrite ?H1, ?H2, ?H3, ?H5, ?Hstarted; auto; [done|].
      intros _. rewrite H6, H7. split; [by apply cut_rest_full|]. simpl. rewrite app_nil_r. split; [done|].
      rewrite Htr, bool_decide_eq_false_2; [done|]. intros Hn. by apply app_eq_nil in Hn as [-> _].
  - destruct (Hbef eq_refl) as (Hbuf & -> & ->). rewrite Htot, Hbuf.
    destruct (N.leb_spec (sat_add usize_max (text_len printed) (text_len t)) (spill_threshold_bytes s)) as [Hle|Hgt].
    + eexists _, None, []. split; [done|]. split; [done|]. split; [done|]. unfold spill_view. cbn.
      intros s2 [= H1 H2 H3 H4 H5 H6 H7] Ht2. split; rewrite ?H1, ?H2, ?H3, ?H5; auto; [|done].
      symmetry. apply N.ltb_ge. rewrite text_len_app. unfold sat_add in Hle. lia.
    + destruct (truncate_ok (printed ++ t) (spill_max_bytes s)) as (p & r & -> & Hc). simpl.
      eexists _, (Some p), r. split; [done|]. split; [done|]. split; [done|]. unfold spill_view. cbn.
      intros s2 [= H1 H2 H3 H4 H5 H6 H7] Ht2. split; rewrite ?H1, ?H2, ?H3, ?H5; auto; [|done|].
      * symmetry. apply N.ltb_lt. rewrite text_len_app. unfold sat_add in Hgt. lia.
      * intros _. rewrite H6, H7. split; [done|]. split; [done|]. by eapply kept_flag.
Qed.

(** ** Everything a process prints *)

(** The chunks that were made and the text that was sent to the spill file. *)
Fixpoint append_all (outputs : list (ExecOutputStream * text * N)) (s : ExecTranscript)
  : option (ExecTranscript * list ExecOutputChunk * text) :=
  match outputs with
  | [] => Some (s, [], [])
  | (st, t, now) :: outputs =>
      r ← append_chunk st t now s;
      let '(s, c, sp) := r in
      r ← append_all outputs s;
      let '(s, cs, sent) := r in
      Some (s, (if bool_decide (t = []) then cs else c :: cs), sent_of sp ++ sent)
  end.
(** One append, whatever the text: an empty one changes neither the ring nor its counters. *)
Lemma append_chunk_ok st t now outs all s old :
  ring_inv all s old → counted outs all s → text_len (printed_text (outs ++ [(st, t, now)])) ≤ usize_max →
  ∃ s' c o all' old', append_chunk st t now s = Some (s', c, o) ∧ ring_inv all' s' old'
    ∧ counted (outs ++ [(st, t, now)]) all' s' ∧ max_bytes s' = max_bytes s
    ∧ (if bool_decide (t = []) then all' = all else all' = all ++ [c] ∧ chunk_of (max_bytes s) (st, t, now) c).
Proof.
  intros Hinv Hcnt Hfits. unfold append_chunk. destruct (prepare_total t s) as (s1 & o & -> & Hv). cbn [mbind option_bind].
  pose proof (ring_inv_view _ _ _ _ Hv Hinv) as Hinv1. pose proof (counted_view _ _ _ _ Hv Hcnt) as Hcnt1.
  assert (max_bytes s1 = max_bytes s) as <- by (unfold ring_view in Hv; congruence).
  destruct (decide (t = [])) as [->|Ht].
  - unfold append_chunk_to_ring. rewrite bool_decide_eq_true_2 by done. cbn [mbind option_bind].
    eexists s1, _, o, all, old. split; [done|]. split; [done|]. split; [|done]. destruct Hcnt1 as [H1 H2 H3 H4].
    split; [| | |done].
    + by rewrite printed_snoc, app_nil_r.
    + rewrite H2. unfold line_total, nonempty_outputs. rewrite filter_app, filter_cons_False by (simpl; tauto).
      by rewrite filter_nil, app_nil_r.
    + rewrite H3, filter_app, filter_cons_False by (simpl; lia). by rewrite filter_nil, app_nil_r.
  - destruct (ring_append_ok st t now _ _ _ _ Hinv1 Hcnt1 Ht Hfits) as (s2 & c & old2 & -> & ? & ? & ? & ?).
    cbn [mbind option_bind]. rewrite bool_decide_eq_false_2 by done. by eexists s2, c, o, _, old2.
Qed.

Lemma printed_fits outs o rest max :
  text_len (printed_text (outs ++ o :: rest)) ≤ max → text_len (printed_text (outs ++ [o])) ≤ max.
Proof. rewrite (app_assoc outs [o] rest : outs ++ o :: rest = _). unfold printed_text. rewrite fmap_app, concat_app, text_len_app. lia. Qed.

Lemma append_all_ring outputs outs all s old :
  ring_inv all s old → counted outs all s → text_len (printed_text (outs ++ outputs)) ≤ usize_max →
  ∃ s' cs sent old', append_all outputs s = Some (s', cs, sent) ∧ ring_inv (all ++ cs) s' old'
    ∧ counted (outs ++ outputs) (all ++ cs) s' ∧ max_bytes s' = max_bytes s
    ∧ Forall2 (chunk_of (max_bytes s)) (nonempty_outputs outputs) cs.
Proof.
  revert outs all s old. induction outputs as [|[[st t] now] outputs IH]; intros outs all s old Hinv Hcnt Hfits; cbn [append_all].
  { exists s, [], [], old. rewrite !app_nil_r. split; [done|]. split; [done|]. split; [done|]. split; [done|]. constructor. }
  destruct (append_chunk_ok st t now _ _ _ _ Hinv Hcnt (printed_fits _ _ _ _ Hfits))
    as (s1 & c & o & all1 & old1 & -> & Hinv1 & Hcnt1 & Hm1 & Hall1). cbn [mbind option_bind].
  rewrite (app_assoc outs [_] outputs : outs ++ (st, t, now) :: outputs = _) in Hfits |- *.
  destruct (IH _ _ _ _ Hinv1 Hcnt1 Hfits) as (s' & cs & sent & old' & -> & Hi & Hc & Hm & Hf). cbn [mbind option_bind].
  eexists s', _, _, old'. split; [done|]. unfold nonempty_outputs. rewrite Hm1 in Hm, Hf. case_bool_decide as Ht.
  - subst all1. rewrite filter_cons_False by (simpl; tauto). split_and!; [exact Hi|exact Hc|exact Hm|exact Hf].
  - destruct Hall1 as [-> Hch]. rewrite filter_cons_True by done. rewrite <- (app_assoc all) in Hi, Hc.
    split; [done|]. split; [done|]. split; [done|]. by constructor.
Qed.

Lemma new_ring_inv max spill thr : ring_inv [] (new_with_spill max spill thr) [].
Proof. split; simpl; done || lia. Qed.

Lemma new_counted max spill thr : counted [] [] (new_with_spill max spill thr).
Proof. split; simpl; done || lia. Qed.

(** C34. As long as what a process prints is no longer than [usize::MAX] bytes, on every target and in
    every build: no append panics and no counter wraps; the ring holds the newest chunks, chunk after
    chunk, numbered in order, each the longest prefix of what was printed that fits the ring; the bytes
    held are within the bound, what was dropped is the oldest and is counted, and the last chunk
    dropped would not have fitted; and the bytes, the lines and the cut chunks are counted. *)
Theorem ring_keeps_the_newest outputs max spill thr :
  text_len (printed_text outputs) ≤ usize_max →
  ∃ s cs sent old, append_all outputs (new_with_spill max spill thr) = Some (s, cs, sent)
    ∧ max_bytes s = N.max max 1
    ∧ Forall2 (chunk_of (max_bytes s)) (nonempty_outputs outputs) cs
    ∧ ring_inv cs s old
    ∧ counted outputs cs s.
Proof.
  intros Hfits. destruct (append_all_ring outputs [] _ _ _ (new_ring_inv max spill thr) (new_counted max spill thr) Hfits)
    as (s & cs & sent & old & Hrun & Hinv & Hcnt & Hm & Hc).
  exists s, cs, sent, old. rewrite Hm. done.
Qed.

(** *** Readers *)

Lemma filter_numbers cs k n :
  (∀ i c, cs !! i = Some c → chunk_seq c = k + N.of_nat i) →
  filter (λ c, n <= chunk_seq c) cs = drop (N.to_nat (n - k)) cs.
Proof.
  revert k. induction cs as [|c cs IH]; intros k Hseq; [by rewrite drop_nil|].
  pose proof (Hseq 0%nat c eq_refl) as Hc. specialize (IH (k + 1)).
  assert (∀ i x, cs !! i = Some x → chunk_seq x = k + 1 + N.of_nat i) as Hs.
  { intros i x Hi. rewrite (Hseq (S i) x Hi). lia. }
  destruct (decide (n <= chunk_seq c)) as [Hle|Hgt].
  - rewrite filter_cons_True, (IH Hs) by done. replace (N.to_nat (n - k)) with 0%nat by lia.
    by replace (N.to_nat (n - (k + 1))) with 0%nat by lia.
  - rewrite filter_cons_False, (IH Hs) by done. replace (N.to_nat (n - k)) with (S (N.to_nat (n - (k + 1)))) by lia. done.
Qed.

Lemma read_since_drop all s old n :
  ring_inv all s old → read_since n s = drop (N.to_nat (N.max n (dropped_chunks s))) all.
Proof.
  intros [Hall Hseq _ _ _ Hd _ _]. unfold read_since. rewrite (filter_numbers _ (dropped_chunks s)).
  - rewrite Hall, drop_app_ge by (rewrite Hd; unfold Nlen; lia). f_equal. rewrite Hd. unfold Nlen. lia.
  - intros i c Hi. rewrite (Hseq (length old + i)%nat c); [rewrite Hd; unfold Nlen; lia|].
    rewrite Hall, lookup_app_r by lia. by replace (length old + i - length old)%nat with i by lia.
Qed.

Lemma ring_numbers all s old c : ring_inv all s old → c ∈ chunks s → chunk_seq c < next_seq s.
Proof.
  intros Hinv [i Hi]%list_elem_of_lookup. rewrite (ri_next _ _ _ Hinv).
  pose proof (ri_seq _ _ _ Hinv (length old + i)%nat c) as Hs. rewrite (ri_all _ _ _ Hinv) in Hs |- *.
  rewrite lookup_app_r in Hs by lia. replace (length old + i - length old)%nat with i in Hs by lia.
  specialize (Hs Hi). apply lookup_lt_Some in Hi. rewrite Hs, Nlen_app. unfold Nlen. lia.
Qed.

(** A page of what follows a cursor, and the cursor of what follows the page. *)
Lemma read_page all s old n limit :
  ring_inv all s old → next_seq s ≤ u64_max →
  ∃ rd, read n limit s = Some rd ∧ latest_seq rd = next_seq s
    ∧ read_since n s = rd_chunks rd ++ read_since (rd_next_seq rd) s
    ∧ (n ≤ next_seq s → n ≤ rd_next_seq rd ≤ next_seq s).
Proof.
  intros Hinv Hfits. unfold read.
  set (page := match limit with Some l => take l (read_since n s) | None => read_since n s end).
  assert (∃ l, page = take l (read_since n s)) as [l Hl].
  { unfold page. destruct limit as [l|]; [by exists l|]. exists (length (read_since n s)). by rewrite firstn_all. }
  destruct (last page) as [c|] eqn:Hlast.
  - assert (n <= chunk_seq c ∧ c ∈ chunks s) as [Hge Hin].
    { apply last_Some_elem_of in Hlast. assert (c ∈ read_since n s) as Hc.
      { rewrite <- (take_drop l). apply elem_of_app. left. by rewrite <- Hl. }
      by apply list_elem_of_filter in Hc. }
    pose proof (ring_numbers _ _ _ _ Hinv Hin) as Hlt. rewrite plus_assign_fits by lia. cbn [mbind option_bind].
    eexists. split; [done|]. cbn [rd_chunks rd_next_seq latest_seq]. split; [done|]. split; [|lia].
    rewrite (read_since_drop _ _ _ (chunk_seq c + 1) Hinv). rewrite Hl in *. rewrite (read_since_drop _ _ _ n Hinv) in *.
    set (d := N.to_nat (N.max n (dropped_chunks s))) in *.
    rewrite last_lookup in Hlast. rewrite length_take, length_drop in Hlast.
    apply lookup_take_Some in Hlast as [Hi Hlt']. rewrite lookup_drop in Hi.
    pose proof (lookup_lt_Some _ _ _ Hi) as Hb. pose proof (ri_seq _ _ _ Hinv _ _ Hi) as Hs.
    rewrite <- (take_drop l (drop d all)) at 1. f_equal. rewrite drop_drop.
    destruct (decide (l ≤ length all - d)%nat) as [Hle|Hgt].
    + f_equal. rewrite Hs. unfold d. lia.
    + rewrite !drop_ge; [done| |lia]. rewrite Hs. unfold d in *. lia.
  - apply last_None in Hlast. cbn [mbind option_bind]. eexists. split; [done|]. cbn [rd_chunks rd_next_seq latest_seq].
    rewrite Hlast. split_and!; [done|done|lia].
Qed.

(** A reader that polls with the number it was given reads every chunk that was not dropped
    before it came, once and in order: a read answers the chunks from its cursor on, or from the
    oldest one held, and the page and what follows its next cursor are all of them. *)
Lemma polls_read_every_chunk_once outputs max spill thr :
  text_len (printed_text outputs) ≤ usize_max →
  ∃ s cs sent, append_all outputs (new_with_spill max spill thr) = Some (s, cs, sent)
    ∧ next_seq s = Nlen cs
    ∧ ∀ n, read_since n s = drop (N.to_nat (N.max n (dropped_chunks s))) cs
           ∧ ∀ limit, ∃ rd, read n limit s = Some rd ∧ latest_seq rd = Nlen cs
               ∧ read_since n s = rd_chunks rd ++ read_since (rd_next_seq rd) s
               ∧ (n ≤ Nlen cs → n ≤ rd_next_seq rd ≤ Nlen cs).
Proof.
  intros Hfits. destruct (append_all_ring outputs [] _ _ _ (new_ring_inv max spill thr) (new_counted max spill thr) Hfits)
    as (s & cs & sent & old & Hrun & Hinv & Hcnt & _ & _).
  simpl in Hinv, Hcnt. exists s, cs, sent. pose proof (ri_next _ _ _ Hinv) as Hn. split; [done|]. split; [done|].
  intros n. split; [by eapply read_since_drop|]. intros limit. rewrite <- Hn. eapply read_page; [done|].
  destruct Hcnt as [Hb _ _ [Hr _]]. pose proof usize_fits. lia.
Qed.

(** ** What reaches the spill file *)

Lemma spill_inv_view printed sent rest s s' :
  spill_view s' = spill_view s → total_bytes_appended s' = total_bytes_appended s →
  spill_inv printed sent rest s → spill_inv printed sent rest s'.
Proof.
  unfold spill_view. intros [= H1 H2 H3 H4 H5 H6 H7] Ht [? ? ? ? ? ?].
  split; rewrite ?H1, ?H2, ?H3, ?H4, ?H5, ?H6, ?H7, ?Ht; done.
Qed.

Lemma append_all_spill outputs outs all s old sent rest :
  ring_inv all s old → counted outs all s → spill_inv (printed_text outs) sent rest s →
  spill_threshold_bytes s < usize_max → text_len (printed_text (outs ++ outputs)) ≤ usize_max →
  ∃ s' cs more rest', append_all outputs s = Some (s', cs, more)
    ∧ spill_inv (printed_text (outs ++ outputs)) (sent ++ more) rest' s'
    ∧ spill_max_bytes s' = spill_max_bytes s ∧ spill_threshold_bytes s' = spill_threshold_bytes s.
Proof.
  revert outs all s old sent rest.
  induction outputs as [|[[st t] now] outputs IH]; intros outs all s old sent rest Hring Hcnt Hinv Hthr Hfits; cbn [append_all].
  { eexists s, [], [], rest. by rewrite !app_nil_r. }
  destruct (prepare_ok _ _ _ _ t Hinv Hthr) as (s1 & o & rest1 & Hp & Hmax & Hth & Hnext).
  destruct (append_chunk_ok st t now _ _ _ _ Hring Hcnt (printed_fits _ _ _ _ Hfits))
    as (s2 & c & o2 & all2 & old2 & Ha & Hring2 & Hcnt2 & _).
  rewrite Ha. unfold append_chunk in Ha. rewrite Hp in Ha. cbn [mbind option_bind] in Ha |- *.
  destruct (append_chunk_to_ring st t now s1) as [[s3 c3]|] eqn:Hr; [|done]. injection Ha as -> -> ->.
  pose proof (ring_keeps_spill _ _ _ _ _ _ Hr) as Hsv.
  assert (spill_inv (printed_text (outs ++ [(st, t, now)])) (sent ++ sent_of o2) rest1 s2) as Hinv2.
  { rewrite printed_snoc. apply Hnext; [done|]. rewrite (cn_bytes _ _ _ Hcnt2). by rewrite printed_snoc. }
  unfold spill_view in Hsv. injection Hsv as _ Hm2 Ht2 _ _ _ _.
  rewrite (app_assoc outs [_] outputs : outs ++ (st, t, now) :: outputs = _) in Hfits |- *.
  destruct (IH _ _ _ _ _ _ Hring2 Hcnt2 Hinv2) as (s' & cs & more & rest' & Hrun & Hinv' & Hm' & Ht'); [by rewrite Ht2, Hth|done|].
  rewrite Hrun. cbn [mbind option_bind].
  eexists s', _, _, rest'. split; [done|]. rewrite <- (app_assoc sent) in Hinv'. split; [done|]. split; congruence.
Qed.

Lemma new_spill_inv max thr : spill_inv [] [] [] (new_with_spill max true thr).
Proof.
  split; try done; cbn [spill_max_bytes spill_started spill_threshold_bytes new_with_spill text_len printed_text].
  - pose proof usize_fits. unfold DEFAULT_SPILL_MAX_BYTES. lia.
  - symmetry. apply N.ltb_ge. lia.
Qed.

(** Nothing reaches the spill file as long as all that was printed fits the threshold; past it
    the file has got, from the first byte on, the longest prefix of everything printed that fits the
    file's bound. *)
Lemma spill_file_is_a_prefix outputs max thr :
  thr < usize_max → text_len (printed_text outputs) ≤ usize_max →
  ∃ s cs sent, append_all outputs (new_with_spill max true thr) = Some (s, cs, sent)
    ∧ if thr <? text_len (printed_text outputs)
      then ∃ rest, cut (printed_text outputs) DEFAULT_SPILL_MAX_BYTES sent rest
      else sent = [] ∧ pre_spill_buffer s = printed_text outputs.
Proof.
  intros Hthr Hfits.
  destruct (append_all_spill outputs [] _ _ _ _ _ (new_ring_inv max true thr) (new_counted max true thr) (new_spill_inv max thr) Hthr Hfits)
    as (s & cs & sent & rest & Hrun & Hinv & Hmax & Ht). simpl in *.
  exists s, cs, sent. split; [done|]. destruct Hinv as [_ _ _ Hst Hbef Haft]. rewrite Ht in Hst. rewrite <- Hst, <- Hmax.
  destruct (spill_started s); [exists rest; by apply Haft|]. by destruct (Hbef eq_refl) as (? & ? & _).
Qed.
End target.

(** ** Transcripts: witnesses and examples *)


Definition ex_outputs : list (ExecOutputStream * text * N) := [
  (Stdout, lit "abc", 1); (Stdout, [], 2); (Stderr, lit "de", 3); (Stdout, lit "fghij", 4)].

Definition windows32 : Target := {| pointer_width := Bits32; overflow_checks := false |}.
Definition linux64 : Target := {| pointer_width := Bits64; overflow_checks := false |}.

(** Past the width the code does what the build says: a counter starts again at zero, or the append
    panics.  The ring itself is not affected by a byte counter that wraps. *)
Definition worn : ExecTranscript := upd_counts 3 4294967295 9 0 (new_transcript 5).
Example byte_counter_wraps :
  (λ r, (total_bytes_appended r.1, next_seq r.1, chunk_text <$> chunks r.1))
    <$> append_chunk_to_ring (tg := windows32) Stdout (lit "ab") 1 worn = Some (1, 4, [lit "ab"]).
Proof. vm_compute. reflexivity. Qed.
Example byte_counter_panics :
  append_chunk_to_ring (tg := {| pointer_width := Bits32; overflow_checks := true |}) Stdout (lit "ab") 1 worn = None.
Proof. vm_compute. reflexivity. Qed.

(** A ring of five bytes holds the last chunk; the two before it are counted. *)
Example ring_of_five :
  (λ r, (chunk_text <$> chunks r.1.1, dropped_chunks r.1.1, dropped_bytes r.1.1, r.2))
    <$> append_all (tg := linux64) ex_outputs (new_with_spill 5 true 4) = Some ([lit "fghij"], 2, 5, lit "abcdefghij").
Proof. vm_compute. reflexivity. Qed.

(** A two-byte character is not cut in the middle. *)
Example no_half_character : truncate_to_char_boundary [97; 233; 98] 2 = Some [97].
Proof. reflexivity. Qed.

(** The marker names what the capture left out. *)
Example capture_marks_elision :
  text_with_marker <$> capture_all (tg := linux64) [lit "abc"; lit "de"] (new_capture 4) = Some (lit "abcd" ++ [10] ++ lit "[1 bytes elided]" ++ [10]).
Proof. vm_compute. reflexivity. Qed.

Lemma spill_file_is_a_prefix_witness :
  4 < usize_max (tg := linux64) ∧
  ∃ s cs sent, append_all (tg := linux64) ex_outputs (new_with_spill 5 true 4) = Some (s, cs, sent)
    ∧ if 4 <? text_len (printed_text ex_outputs)
      then ∃ rest, cut (printed_text ex_outputs) DEFAULT_SPILL_MAX_BYTES sent rest
      else sent = [] ∧ pre_spill_buffer s = printed_text ex_outputs.
Proof. split; [reflexivity|]. apply (spill_file_is_a_prefix (tg := linux64) ex_outputs 5 4); [reflexivity|]. vm_compute. discriminate. Defined.

(** Ten bytes on the 32-bit build. *)
Lemma ring_keeps_the_newest_witness :
  text_len (printed_text ex_outputs) ≤ usize_max (tg := windows32) ∧
  ∃ s cs sent old, append_all (tg := windows32) ex_outputs (new_with_spill 5 true 4) = Some (s, cs, sent)
    ∧ max_bytes s = N.max 5 1
    ∧ Forall2 (chunk_of (max_bytes s)) (nonempty_outputs ex_outputs) cs
    ∧ ring_inv cs s old
    ∧ counted ex_outputs cs s.
Proof. split; [vm_compute; discriminate|]. apply (ring_keeps_the_newest (tg := windows32)). vm_compute. discriminate. Defined.

Lemma raw_reads_never_panic_witness :
  ∃ skipped rd, read_combined_since (with_combined_capture foreground) 7 (Some 3) = Some (Some rd)
    ∧ combined_text (with_combined_capture foreground) = skipped ++ rr_text rd
    ∧ start_offset rd = text_len skipped ∧ new_offset rd = 0.
Proof.
  destruct (raw_reads_never_panic (with_combined_capture foreground) 7 (Some 3)) as (k & rd & H1 & H2 & H3 & H4 & _); [done|].
  by exists k, rd.
Defined.
