(* ===== verification/CronJob.v ===== *)
(** * Scheduled jobs

    [src/scheduler/types.rs], [src/scheduler/store.rs] and [refact-core/src/scheduler_config.rs]:
    a job has a trigger, an action and a place where its output goes; jobs are kept in a store,
    which may be backed by a file. *)

From stdpp Require Import gmap strings list pretty.
From S2P Require Import Prelude RustStr.
Local Open Scope N_scope.

(** ** Configuration *)

Definition DEFAULT_RETRY_MAX_ATTEMPTS : N := 3.
Definition DEFAULT_RETRY_BACKOFF_MS : list N := [60000; 120000; 300000].
Definition DEFAULT_SCHEDULER_MAX_JOBS : N := 50.
Definition DEFAULT_SCHEDULER_MAX_CONCURRENT_RUNS : N := 8.
Definition DEFAULT_MISSED_GRACE_MIN_MS : N := 120 * 1000.
Definition DEFAULT_MISSED_GRACE_MAX_MS : N := 2 * 60 * 60 * 1000.
Definition RECENT_RUNS_CAP : N := 20.

Record RetryConfig := { max_attempts : N; backoff_ms : list N }.
Definition default_RetryConfig : RetryConfig := {|
  max_attempts := DEFAULT_RETRY_MAX_ATTEMPTS; backoff_ms := DEFAULT_RETRY_BACKOFF_MS |}.

Record SchedulerConfig := {
  sc_enabled : bool;
  disable_durable : bool;
  max_jobs : N;
  max_concurrent_runs : N;
  recent_runs_cap : N;
  missed_grace_min_ms : N;
  missed_grace_max_ms : N;
  retry : RetryConfig;
}.
Definition default_SchedulerConfig : SchedulerConfig := {|
  sc_enabled := true; disable_durable := false; max_jobs := DEFAULT_SCHEDULER_MAX_JOBS;
  max_concurrent_runs := DEFAULT_SCHEDULER_MAX_CONCURRENT_RUNS; recent_runs_cap := RECENT_RUNS_CAP;
  missed_grace_min_ms := DEFAULT_MISSED_GRACE_MIN_MS; missed_grace_max_ms := DEFAULT_MISSED_GRACE_MAX_MS;
  retry := default_RetryConfig |}.

Definition DEFAULT_RECURRING_AUTO_EXPIRE_AFTER_MS : N := 30 * 24 * 60 * 60 * 1000.
Definition DURABLE_DISABLED_NOTE : string := "durable schedules disabled by config".
Definition SCHEDULER_DISABLED_ERROR : string := "scheduler is disabled".

Record CronCreatePolicy := { cp_durable : bool; cp_note : option string }.
Definition cron_create_policy (config : SchedulerConfig) (requested_durable : bool) : result CronCreatePolicy string :=
  if negb (sc_enabled config) then Err SCHEDULER_DISABLED_ERROR
  else if requested_durable && disable_durable config
  then Ok {| cp_durable := false; cp_note := Some DURABLE_DISABLED_NOTE |}
  else Ok {| cp_durable := requested_durable; cp_note := None |}.

(** ** Jobs *)

Inductive Trigger :=
  | Cron (expr : text) (tz : option text)
  | Interval (every_ms : N)
  | Once (at_ms : N)
  | Manual
  | Webhook (hook_id : text)
  | OnProcessExit (match_kind : text).
Inductive AgentTarget := ExistingChat (chat_id : string) | Isolated.
Inductive Action :=
  | AgentTurn (prompt : text) (target : AgentTarget) (mode model : option text) (tools : option (list text))
  | Command (argv : list text) (target : AgentTarget) (cwd : option text) (env : option (gmap string text)) (timeout_secs : option N).
Inductive Delivery :=
  | DeliverChat
  | DeliverWebhook (url : text) (token : option text)
  | DeliverNotifier (integration_id : text) (target : option text)
  | DeliverNone.
Inductive PushMode := Preempt | Append | WhenIdle.
Record CronRunRecord := { at_ms : N; run_status : string; run_error : option text }.

Record Job := {
  id : string;
  description : text;
  enabled : bool;
  durable : bool;
  created_at_ms : N;
  recurring : bool;
  trigger : Trigger;
  action : Action;
  delivery : Delivery;
  push : PushMode;
  last_fired_at_ms : option N;
  fire_count : N;
  last_status : option string;
  last_error : option text;
  last_delivery_error : option text;
  recent_runs : list CronRunRecord;
  paused_at_ms : option N;
  trigger_at_ms : option N;
  auto_expire_after_ms : N;
  retry_attempts : N;
}.

(** Field updates. *)
Definition upd_schedule (tr : Trigger) (expire : N) (j : Job) : Job := {|
  id := id j; description := description j; enabled := enabled j; durable := durable j; created_at_ms := created_at_ms j;
  recurring := recurring j; trigger := tr; action := action j; delivery := delivery j; push := push j;
  last_fired_at_ms := last_fired_at_ms j; fire_count := fire_count j; last_status := last_status j;
  last_error := last_error j; last_delivery_error := last_delivery_error j; recent_runs := recent_runs j;
  paused_at_ms := paused_at_ms j; trigger_at_ms := trigger_at_ms j; auto_expire_after_ms := expire;
  retry_attempts := retry_attempts j |}.
Definition upd_action (a : Action) (j : Job) : Job := {|
  id := id j; description := description j; enabled := enabled j; durable := durable j; created_at_ms := created_at_ms j;
  recurring := recurring j; trigger := trigger j; action := a; delivery := delivery j; push := push j;
  last_fired_at_ms := last_fired_at_ms j; fire_count := fire_count j; last_status := last_status j;
  last_error := last_error j; last_delivery_error := last_delivery_error j; recent_runs := recent_runs j;
  paused_at_ms := paused_at_ms j; trigger_at_ms := trigger_at_ms j; auto_expire_after_ms := auto_expire_after_ms j;
  retry_attempts := retry_attempts j |}.
Definition upd_fired (last : option N) (count : N) (j : Job) : Job := {|
  id := id j; description := description j; enabled := enabled j; durable := durable j; created_at_ms := created_at_ms j;
  recurring := recurring j; trigger := trigger j; action := action j; delivery := delivery j; push := push j;
  last_fired_at_ms := last; fire_count := count; last_status := last_status j;
  last_error := last_error j; last_delivery_error := last_delivery_error j; recent_runs := recent_runs j;
  paused_at_ms := paused_at_ms j; trigger_at_ms := trigger_at_ms j; auto_expire_after_ms := auto_expire_after_ms j;
  retry_attempts := retry_attempts j |}.
Definition upd_run (status : string) (err : option text) (runs : list CronRunRecord) (j : Job) : Job := {|
  id := id j; description := description j; enabled := enabled j; durable := durable j; created_at_ms := created_at_ms j;
  recurring := recurring j; trigger := trigger j; action := action j; delivery := delivery j; push := push j;
  last_fired_at_ms := last_fired_at_ms j; fire_count := fire_count j; last_status := Some status;
  last_error := err; last_delivery_error := last_delivery_error j; recent_runs := runs;
  paused_at_ms := paused_at_ms j; trigger_at_ms := trigger_at_ms j; auto_expire_after_ms := auto_expire_after_ms j;
  retry_attempts := retry_attempts j |}.
Definition upd_trigger_at (t : option N) (j : Job) : Job := {|
  id := id j; description := description j; enabled := enabled j; durable := durable j; created_at_ms := created_at_ms j;
  recurring := recurring j; trigger := trigger j; action := action j; delivery := delivery j; push := push j;
  last_fired_at_ms := last_fired_at_ms j; fire_count := fire_count j; last_status := last_status j;
  last_error := last_error j; last_delivery_error := last_delivery_error j; recent_runs := recent_runs j;
  paused_at_ms := paused_at_ms j; trigger_at_ms := t; auto_expire_after_ms := auto_expire_after_ms j;
  retry_attempts := retry_attempts j |}.
Definition upd_retries (n : N) (j : Job) : Job := {|
  id := id j; description := description j; enabled := enabled j; durable := durable j; created_at_ms := created_at_ms j;
  recurring := recurring j; trigger := trigger j; action := action j; delivery := delivery j; push := push j;
  last_fired_at_ms := last_fired_at_ms j; fire_count := fire_count j; last_status := last_status j;
  last_error := last_error j; last_delivery_error := last_delivery_error j; recent_runs := recent_runs j;
  paused_at_ms := paused_at_ms j; trigger_at_ms := trigger_at_ms j; auto_expire_after_ms := auto_expire_after_ms j;
  retry_attempts := n |}.
Definition upd_delivery_error (e : option text) (j : Job) : Job := {|
  id := id j; description := description j; enabled := enabled j; durable := durable j; created_at_ms := created_at_ms j;
  recurring := recurring j; trigger := trigger j; action := action j; delivery := delivery j; push := push j;
  last_fired_at_ms := last_fired_at_ms j; fire_count := fire_count j; last_status := last_status j;
  last_error := last_error j; last_delivery_error := e; recent_runs := recent_runs j;
  paused_at_ms := paused_at_ms j; trigger_at_ms := trigger_at_ms j; auto_expire_after_ms := auto_expire_after_ms j;
  retry_attempts := retry_attempts j |}.

Definition non_time_trigger (t : Trigger) : bool :=
  match t with Manual | Webhook _ | OnProcessExit _ => true | _ => false end.
Definition default_auto_expire_after_ms (rec : bool) : N := if rec then DEFAULT_RECURRING_AUTO_EXPIRE_AFTER_MS else 0.
Definition default_auto_expire_after_trigger (t : Trigger) (rec : bool) : N :=
  if non_time_trigger t then 0 else default_auto_expire_after_ms rec.
Definition default_recurring_for_trigger (t : Trigger) : bool := match t with Once _ => false | _ => true end.
Definition default_command_target : AgentTarget := ExistingChat "".

(** [uuid] is the fresh part of the id. *)
Definition new_cron_agent_chat (uuid : string) (cron prompt descr : text) (rec dur : bool) (created : N) : Job := {|
  id := "cron_" +:+ uuid; description := descr; enabled := true; durable := dur; created_at_ms := created;
  recurring := rec; trigger := Cron cron None; action := AgentTurn prompt (ExistingChat "") None None None;
  delivery := DeliverChat; push := Append; last_fired_at_ms := None; fire_count := 0; last_status := None;
  last_error := None; last_delivery_error := None; recent_runs := []; paused_at_ms := None; trigger_at_ms := None;
  auto_expire_after_ms := default_auto_expire_after_ms rec; retry_attempts := 0 |}.

Definition cron_expr (j : Job) : option text := match trigger j with Cron e _ => Some e | _ => None end.
Definition job_prompt (j : Job) : option text := match action j with AgentTurn p _ _ _ _ => Some p | _ => None end.
Record CommandSpec := {
  argv : list text;
  cmd_target : AgentTarget;
  cwd : option text;
  env : option (gmap string text);
  timeout_secs : option N;
}.
Definition command_spec (j : Job) : option CommandSpec :=
  match action j with
  | Command a t c e s => Some {| argv := a; cmd_target := t; cwd := c; env := e; timeout_secs := s |}
  | _ => None
  end.
Definition action_kind (j : Job) : string := match action j with AgentTurn _ _ _ _ _ => "agent_turn" | _ => "command" end.
Definition target_of (a : Action) : AgentTarget := match a with AgentTurn _ t _ _ _ | Command _ t _ _ _ => t end.
Definition job_chat_id (j : Job) : option string :=
  match target_of (action j) with
  | ExistingChat c => if bool_decide (c = "") then None else Some c
  | Isolated => None
  end.
Definition nonempty (t : text) : option text := if bool_decide (t = []) then None else Some t.
Definition job_mode (j : Job) : option text := match action j with AgentTurn _ _ m _ _ => m ≫= nonempty | _ => None end.
Definition is_paused (j : Job) : bool := negb (enabled j) || bool_decide (paused_at_ms j ≠ None).
Definition job_is_isolated (j : Job) : bool := match target_of (action j) with Isolated => true | _ => false end.
Definition set_trigger (t : Trigger) (j : Job) : Job := upd_schedule t (default_auto_expire_after_trigger t (recurring j)) j.
Definition with_target (t : AgentTarget) (a : Action) : Action :=
  match a with AgentTurn p _ m mo ts => AgentTurn p t m mo ts | Command a _ c e s => Command a t c e s end.
Definition set_existing_chat (chat_id : option string) (j : Job) : Job :=
  upd_action (with_target (ExistingChat (default "" chat_id)) (action j)) j.
Definition set_isolated (j : Job) : Job := upd_action (with_target Isolated (action j)) j.
Definition set_mode (mode : option text) (j : Job) : Job :=
  match action j with AgentTurn p t _ mo ts => upd_action (AgentTurn p t mode mo ts) j | _ => j end.

(** ** Reading jobs: [impl From<RawJob> for Job] *)

Record RawJob := {
  raw_id : option string; raw_description : option text; raw_enabled : option bool; raw_durable : option bool;
  raw_created_at_ms : option N; raw_recurring : option bool; raw_trigger : option Trigger; raw_action : option Action;
  raw_delivery : option Delivery; raw_push : option PushMode; raw_last_fired_at_ms : option N;
  raw_fire_count : option N; raw_last_status : option string; raw_last_error : option text;
  raw_last_delivery_error : option text; raw_recent_runs : option (list CronRunRecord); raw_paused_at_ms : option N;
  raw_trigger_at_ms : option N; raw_auto_expire_after_ms : option N; raw_retry_attempts : option N;
  raw_cron : option text; raw_prompt : option text; raw_chat_id : option string; raw_mode : option text;
}.
Definition legacy_trigger (cron : option text) : Trigger := match cron with Some e => Cron e None | None => Manual end.
Definition legacy_action (prompt : option text) (chat_id : option string) (mode : option text) : Action :=
  AgentTurn (default [] prompt) (ExistingChat (default "" chat_id)) mode None None.
Definition job_of_raw (uuid : string) (raw : RawJob) : Job :=
  let trigger := default (legacy_trigger (raw_cron raw)) (raw_trigger raw) in
  let recurring := default (default_recurring_for_trigger trigger) (raw_recurring raw) in
  {| id := default ("job_" +:+ uuid) (raw_id raw);
     description := default [] (raw_description raw);
     enabled := default true (raw_enabled raw);
     durable := default false (raw_durable raw);
     created_at_ms := default 0 (raw_created_at_ms raw);
     recurring := recurring;
     trigger := trigger;
     action := default (legacy_action (raw_prompt raw) (raw_chat_id raw) (raw_mode raw)) (raw_action raw);
     delivery := default DeliverChat (raw_delivery raw);
     push := default Append (raw_push raw);
     last_fired_at_ms := raw_last_fired_at_ms raw;
     fire_count := default 0 (raw_fire_count raw);
     last_status := raw_last_status raw;
     last_error := raw_last_error raw;
     last_delivery_error := raw_last_delivery_error raw;
     recent_runs := default [] (raw_recent_runs raw);
     paused_at_ms := raw_paused_at_ms raw;
     trigger_at_ms := raw_trigger_at_ms raw;
     auto_expire_after_ms := if non_time_trigger trigger then 0
                             else default (default_auto_expire_after_ms recurring) (raw_auto_expire_after_ms raw);
     retry_attempts := default 0 (raw_retry_attempts raw) |}.

(** [delivery_from_parts]: the kind is trimmed and compared without case, blank parts are absent. *)
Definition present (t : option text) : option text := t ≫= λ t, nonempty (trim t).
Definition delivery_from_parts (kind : text) (url token integration_id target : option text) : result Delivery text :=
  let k := to_ascii_lowercase (trim kind) in
  if bool_decide (k = lit "chat") then Ok DeliverChat
  else if bool_decide (k = lit "none") then Ok DeliverNone
  else if bool_decide (k = lit "webhook") then
    match present url with
    | Some url => Ok (DeliverWebhook url (present token))
    | None => Err (lit "delivery webhook requires `url`")
    end
  else if bool_decide (k = lit "notifier") then
    match present integration_id with
    | Some i => Ok (DeliverNotifier i (present target))
    | None => Err (lit "delivery notifier requires `integration_id`")
    end
  else Err (lit "unsupported delivery `" ++ k ++ lit "`").

(** ** The store: [InMemoryCronStore] and [JsonFileCronStore] *)

(** A store with a file writes all its jobs after each change; [writes] says how the writes to come
    end, [saved] what the file holds.  A store without one never fails. *)
Record Disk := { writes : list bool; saved : list Job }.
Record CronStore := { jobs : gmap string Job; disk : option Disk }.

Definition new_store : CronStore := {| jobs := ∅; disk := None |}.
Definition from_jobs (js : list Job) : gmap string Job := foldl (λ m j, <[id j := j]> m) ∅ js.
Definition open_store (js : list Job) (outcomes : list bool) : CronStore :=
  {| jobs := from_jobs js; disk := Some {| writes := outcomes; saved := js |} |}.

Definition store_get (i : string) (s : CronStore) : option Job := jobs s !! i.
Definition store_list (s : CronStore) : list Job := snd <$> btree_list (jobs s).
(** One message stands for those of the operating system. *)
Definition PERSIST_ERROR : text := lit "Failed to persist scheduled tasks".
Definition persist (s : CronStore) : CronStore * result () text :=
  match disk s with
  | None => (s, Ok ())
  | Some d =>
      match writes d with
      | false :: rest => ({| jobs := jobs s; disk := Some {| writes := rest; saved := saved d |} |}, Err PERSIST_ERROR)
      | _ => ({| jobs := jobs s; disk := Some {| writes := tail (writes d); saved := store_list s |} |}, Ok ())
      end
  end.
Definition set_jobs (m : gmap string Job) (s : CronStore) : CronStore := {| jobs := m; disk := disk s |}.
Definition store_add (j : Job) (s : CronStore) : CronStore * result () text := persist (set_jobs (<[id j := j]> (jobs s)) s).
Definition store_replace (j : Job) (s : CronStore) : CronStore * result bool text :=
  match jobs s !! id j with
  | None => (s, Ok false)
  | Some _ => let '(s, r) := persist (set_jobs (<[id j := j]> (jobs s)) s) in
              (s, match r with Ok _ => Ok true | Err e => Err e end)
  end.
Definition store_remove (i : string) (s : CronStore) : CronStore * result bool text :=
  match jobs s !! i with
  | None => (s, Ok false)
  | Some _ => let '(s, r) := persist (set_jobs (delete i (jobs s)) s) in
              (s, match r with Ok _ => Ok true | Err e => Err e end)
  end.
Definition not_found (i : string) : text := lit ("Scheduled task " +:+ i +:+ " not found").
Definition update_fired (i : string) (last_fired count : N) (s : CronStore) : CronStore * result () text :=
  match jobs s !! i with
  | None => (s, Err (not_found i))
  | Some j => persist (set_jobs (<[i := upd_fired (Some last_fired) count j]> (jobs s)) s)
  end.
Definition has_hook (hook : text) (j : Job) : bool :=
  match trigger j with Webhook h => bool_decide (h = hook) | _ => false end.
Definition jobs_by_hook_id (hook : text) (s : CronStore) : list Job :=
  let hook := trim hook in
  if bool_decide (hook = []) then [] else filter (λ j, has_hook hook j = true) (store_list s).
