(* ===== verification/CronSchedule.v ===== *)
(** * When a job runs next

    [src/scheduler/schedule.rs], [cron_expr.rs], [jitter.rs] and [retry.rs].  The crates [cron],
    [chrono], [chrono_tz] and [regex] and the hasher of the standard library are the parameters of
    [ScheduleLib]; times are milliseconds since the epoch, [u64]. *)

From Stdlib Require Import Floats.SpecFloat.
From stdpp Require Import gmap strings list pretty.
From S2P Require Import Prelude RustStr TextEdit CronJob.
Local Open Scope N_scope.

Definition i64_of (x : N) : Z := if x <=? 9223372036854775807 then Z.of_N x else (Z.of_N x - 18446744073709551616)%Z.
Definition u64_of_i64 (z : Z) : option N := if (0 <=? z)%Z then Some (Z.to_N z) else None.
Definition checked_add (x y : N) : option N := if x + y <=? u64_max then Some (x + y) else None.
Definition checked_mul (x y : N) : option N := if x * y <=? u64_max then Some (x * y) else None.

(** ** The crates *)

Class ScheduleLib := {
  Tz : Type;
  parse_tz : text → option Tz;
  scheduler_timezone : Tz;
  Schedule : Type;
  schedule_from_str : text → result Schedule text;
  (** [timestamp_millis_opt(ms).single()] is a time. *)
  in_chrono_range : Z → bool;
  (** [schedule.after(&from).next()], in milliseconds. *)
  schedule_after : Schedule → Z → Tz → option Z;
  local_minute_of : Z → Tz → N;
  parse_from_rfc3339 : text → result Z text;
  is_match : string → text → bool;
  default_hash : string → N;
}.
(** What the code relies on: the next event lies strictly after the time it is asked for. *)
Class ScheduleLibLaws `{ScheduleLib} := {
  schedule_after_later s from tz t : schedule_after s from tz = Some t → (from < t)%Z;
}.

(** ** Retries *)

Inductive RetryCategory := RateLimit | Overloaded | Network | Timeout | ServerError.
Definition quote : string := String (Ascii.ascii_of_nat 34) EmptyString.
Definition RATE_LIMIT_RE : string :=
  "(?i)(rate[_ ]limit|too many requests|429|resource has been exhausted|cloudflare|tokens per day)".
Definition OVERLOADED_RE : string :=
  "(?i)\b529\b|\boverloaded(?:_error)?\b|high demand|temporar(?:ily|y) overloaded|capacity exceeded".
Definition NETWORK_RE : string :=
  "(?i)(network|fetch failed|socket|econnreset|econnrefused|eai_again|enetdown|ehostunreach|ehostdown|enetreset|enetunreach|epipe)".
Definition TIMEOUT_RE : string := "(?i)(timeout|etimedout)".
Definition SERVER_CONTEXT_RE : string :=
  "(?i)\b(?:https?|status(?:[ _]code)?|response(?:[ _]code)?|http(?:[ _]status)?)\b[\s:=#" +:+ quote +:+ "']{0,4}5\d{2}\b".
Definition SERVER_5XX_PHRASE_RE : string :=
  "(?i)\b5\d{2}\b[\s:)\].,-]*(?:internal server error|server error|bad gateway|service unavailable|gateway time-?out)\b".
Definition SERVER_PHRASE_RE : string := "(?i)\b(internal server error|bad gateway|service unavailable|gateway time-?out)\b".
Definition SERVER_5XX_RE : string := "(?i)\b5xx\b".
Definition SERVER_TERSE_RE : string := "(?i)^\s*5\d{2}\s*$".

Definition retry_delay_ms (config : RetryConfig) (completed_retry_attempts : N) : option N :=
  if max_attempts config <=? completed_retry_attempts then None
  else
    delay ← match backoff_ms config !! N.to_nat completed_retry_attempts with
            | Some d => Some d
            | None => last (backoff_ms config)
            end;
    if 0 <? delay then Some delay else None.

(** ** Durations *)

Definition take_digits (t : text) : text := take_while (λ c, (48 <=? c) && (c <=? 57)) t.
Definition unit_ms (u : text) : option N :=
  if bool_decide (u = lit "s") then Some 1000
  else if bool_decide (u = lit "m") then Some 60000
  else if bool_decide (u = lit "h") then Some (60 * 60000)
  else if bool_decide (u = lit "d") then Some (24 * 60 * 60000)
  else None.
Definition parse_duration_ms (value : text) : result N text :=
  let value := trim value in
  let ds := take_digits value in
  let rest := drop (length ds) value in
  if bool_decide (ds = []) || bool_decide (rest = [])
  then Err (lit "duration must be a positive number followed by s, m, h, or d")
  else
    match parse_usize ds with
    | None => Err (lit "duration amount is invalid")
    | Some amount =>
        if amount =? 0 then Err (lit "duration must be greater than zero")
        else match unit_ms (trim rest) with
             | None => Err (lit "duration unit must be one of s, m, h, or d")
             | Some unit => match checked_mul amount unit with Some r => Ok r | None => Err (lit "duration overflowed") end
             end
    end.

Definition DAY : N := 24 * 60 * 60 * 1000.
Definition HOUR : N := 60 * 60 * 1000.
Definition MINUTE : N := 60 * 1000.
Definition SECOND : N := 1000.
Fixpoint label_by (units : list (N * string)) (ms : N) : text :=
  match units with
  | [] => lit (pretty ms +:+ "ms")
  | (u, suffix) :: units =>
      if (u <=? ms) && (ms mod u =? 0) then lit (pretty (ms / u) +:+ suffix) else label_by units ms
  end.
Definition duration_label (ms : N) : text := label_by [(DAY, "d"); (HOUR, "h"); (MINUTE, "m"); (SECOND, "s")] ms.

(** ** Floating point

    [f64] is binary64; [as u64] drops the fraction and saturates. *)

Definition f64_of_u64 (n : N) : spec_float := binary_normalize 53 1024 (Z.of_N n) 0 false.
Definition f64_mul : spec_float → spec_float → spec_float := SFmul 53 1024.
Definition f64_div : spec_float → spec_float → spec_float := SFdiv 53 1024.
Definition f64_min (x y : spec_float) : spec_float :=
  match x, y with
  | S754_nan, _ => y
  | _, S754_nan => x
  | _, _ => if SFltb x y then x else y
  end.
Definition trunc (m : positive) (e : Z) : Z := if (0 <=? e)%Z then (Z.pos m * 2 ^ e)%Z else (Z.pos m / 2 ^ (- e))%Z.
Definition as_u64 (x : spec_float) : N :=
  match x with
  | S754_finite false m e => N.min u64_max (Z.to_N (trunc m e))
  | S754_infinity false => u64_max
  | _ => 0
  end.

Record JitterConfig := {
  recurring_frac : spec_float;
  recurring_cap_ms : N;
  one_shot_max_ms : N;
  one_shot_floor_ms : N;
  one_shot_minute_mod : N;
}.
(** The literal [0.10]. *)
Definition F_0_10 : spec_float := S754_finite false 7205759403792794 (-56).
Definition default_JitterConfig : JitterConfig := {|
  recurring_frac := F_0_10; recurring_cap_ms := 15 * 60 * 1000; one_shot_max_ms := 90000; one_shot_floor_ms := 0;
  one_shot_minute_mod := 30 |}.

(** ** Cron expressions *)

(** [split_whitespace] *)
Fixpoint split_ws (t acc : text) : list text :=
  match t with
  | [] => if bool_decide (acc = []) then [] else [acc]
  | c :: t => if is_whitespace c then (if bool_decide (acc = []) then split_ws t [] else acc :: split_ws t [])
              else split_ws t (acc ++ [c])
  end.
Definition split_whitespace (t : text) : list text := split_ws t [].
Definition five_fields (expr : text) : option (list text) :=
  let fields := split_whitespace expr in if bool_decide (length fields = 5%nat) then Some fields else None.
Fixpoint join_with (sep : text) (l : list text) : text :=
  match l with [] => [] | [x] => x | x :: l => x ++ sep ++ join_with sep l end.
Definition normalize_five_field_cron (expr : text) : result text text :=
  match five_fields expr with
  | Some fields => Ok (lit "0 " ++ join_with (lit " ") fields)
  | None => Err (lit "Cron expression must have exactly 5 fields")
  end.
(** [str::parse::<u8>] *)
Definition parse_u8 (t : text) : option N := n ← parse_usize t; if n <=? 255 then Some n else None.
Definition daily_at (hour raw : text) : text :=
  match parse_u8 hour with
  | None => raw
  | Some h =>
      if 23 <? h then raw
      else if h =? 0 then lit "daily at midnight"
      else if h <=? 11 then lit ("daily at " +:+ pretty h +:+ "am")
      else if h =? 12 then lit "daily at noon"
      else lit ("daily at " +:+ pretty (h - 12) +:+ "pm")
  end.
Definition human_schedule (expr : text) : text :=
  match five_fields expr with
  | None => expr
  | Some fields =>
      if bool_decide (fields = lit <$> ["*/5"; "*"; "*"; "*"; "*"]%string) then lit "every 5 minutes"
      else if bool_decide (fields = lit <$> ["*/15"; "*"; "*"; "*"; "*"]%string) then lit "every 15 minutes"
      else if bool_decide (fields = lit <$> ["0"; "9"; "*"; "*"; "1-5"]%string) then lit "weekdays at 9am"
      else if bool_decide (fields = lit <$> ["0"; "9"; "*"; "*"; "MON-FRI"]%string) then lit "weekdays at 9am"
      else if bool_decide (fields = lit <$> ["0"; "0"; "*"; "*"; "*"]%string) then lit "daily at midnight"
      else match fields with
           | minute :: hour :: rest =>
               if bool_decide (hour :: rest = lit <$> ["*"; "*"; "*"; "*"]%string) && bool_decide (parse_u8 minute ≠ None)
               then lit "hourly at :" ++ minute
               else if bool_decide (minute = lit "0") && bool_decide (rest = lit <$> ["*"; "*"; "*"]%string)
               then daily_at hour expr else expr
           | _ => expr
           end
  end.
Definition human_schedule_for_trigger (t : Trigger) : text :=
  match t with
  | Cron expr _ => human_schedule expr
  | Interval every_ms => lit "every " ++ duration_label every_ms
  | Once at_ms => lit ("at " +:+ pretty at_ms)
  | Manual => lit "manual"
  | Webhook _ => lit "webhook"
  | OnProcessExit _ => lit "process exit"
  end.

Section lib.
Context `{ScheduleLib}.

Definition classify (error : text) : option RetryCategory :=
  let error := trim error in
  if bool_decide (error = []) then None
  else if is_match RATE_LIMIT_RE error then Some RateLimit
  else if is_match OVERLOADED_RE error then Some Overloaded
  else if is_match NETWORK_RE error then Some Network
  else if is_match TIMEOUT_RE error then Some Timeout
  else if is_match SERVER_CONTEXT_RE error || is_match SERVER_5XX_PHRASE_RE error || is_match SERVER_PHRASE_RE error
          || is_match SERVER_5XX_RE error || is_match SERVER_TERSE_RE error
  then Some ServerError
  else None.

Definition parse_cron (expr : text) : result Schedule text :=
  let? normalized := normalize_five_field_cron expr in
  match schedule_from_str normalized with Ok s => Ok s | Err e => Err (lit "Invalid cron expression: " ++ e) end.
Definition cron_next (expr : text) (from_ms : N) (tz : Tz) : option N :=
  match parse_cron expr with
  | Err _ => None
  | Ok schedule =>
      if in_chrono_range (i64_of from_ms) then schedule_after schedule (i64_of from_ms) tz ≫= u64_of_i64 else None
  end.

(** ** The next run of a job *)

Definition has_fired (j : Job) : bool := bool_decide (last_fired_at_ms j ≠ None) || (0 <? fire_count j).
Definition cron_next_run_ms (j : Job) (expr : text) (tz : option text) (from_ms : N) (default_tz : Tz) : option N :=
  if negb (recurring j) && has_fired j then None
  else cron_next expr from_ms (default default_tz (tz ≫= parse_tz)).
Definition interval_base (j : Job) : N := default (created_at_ms j) (last_fired_at_ms j).
Definition interval_next_run_ms (j : Job) (from_ms every_ms : N) : option N :=
  if every_ms =? 0 then None
  else
    let base_ms := interval_base j in
    first ← checked_add base_ms every_ms;
    if from_ms <? first then Some first
    else
      let ticks := (from_ms - base_ms) / every_ms + 1 in
      m ← checked_mul ticks every_ms;
      checked_add base_ms m.
Definition once_next_run_ms (j : Job) (at_ms : N) : option N := if has_fired j then None else Some at_ms.
Definition next_run_ms (j : Job) (from_ms : N) (default_tz : Tz) : option N :=
  match trigger j with
  | Cron expr tz => cron_next_run_ms j expr tz from_ms default_tz
  | Interval every_ms => interval_next_run_ms j from_ms every_ms
  | Once at_ms => once_next_run_ms j at_ms
  | Manual | Webhook _ | OnProcessExit _ => None
  end.

(** ** Jitter *)

Definition jitter_frac (task_id : string) : spec_float :=
  let mantissa := N.shiftr (default_hash task_id) 11 in
  f64_div (f64_of_u64 mantissa) (f64_of_u64 (N.shiftl 1 53)).
Definition recurring_jitter (task_id : string) (cfg : JitterConfig) (gap : N) : N :=
  as_u64 (f64_min (f64_mul (f64_mul (jitter_frac task_id) (recurring_frac cfg)) (f64_of_u64 gap))
            (f64_of_u64 (recurring_cap_ms cfg))).
Definition jittered_next_run_ms_for (j : Job) (from_ms : N) (task_id : string) (cfg : JitterConfig) (tz : Tz) : option N :=
  t1 ← next_run_ms j from_ms tz;
  match next_run_ms j t1 tz with
  | None => Some t1
  | Some t2 => Some (t1 + recurring_jitter task_id cfg (t2 - t1))
  end.
Definition local_minute (ms : N) (tz : Tz) : option N :=
  if ms <=? 9223372036854775807 then
    if in_chrono_range (Z.of_N ms) then Some (local_minute_of (Z.of_N ms) tz) else None
  else None.
Definition one_shot_jittered_next_run_ms_for (j : Job) (from_ms : N) (task_id : string) (cfg : JitterConfig) (tz : Tz)
  : option N :=
  t1 ← next_run_ms j from_ms tz;
  minute ← local_minute t1 tz;
  if negb (minute mod one_shot_minute_mod cfg =? 0) then Some t1
  else
    let range_ms := one_shot_max_ms cfg - one_shot_floor_ms cfg in
    let lead := one_shot_floor_ms cfg + as_u64 (f64_mul (jitter_frac task_id) (f64_of_u64 range_ms)) in
    Some (N.max (t1 - lead) from_ms).

(** ** Missed runs *)

Record MissedRunGraceConfig := { min_ms : N; max_ms : N }.
Definition grace_of_config (c : SchedulerConfig) : MissedRunGraceConfig := {|
  min_ms := missed_grace_min_ms c; max_ms := missed_grace_max_ms c |}.
Definition missed_run_grace_ms (period_ms : N) (config : MissedRunGraceConfig) : N :=
  let max_ms := N.max (max_ms config) (min_ms config) in
  N.min max_ms (N.max (min_ms config) (period_ms / 2)).

Record RecurringMissedGraceState := {
  due_ms : option N;
  next_future_ms : N;
  advance_last_fired_at_ms : option N;
  period_ms : N;
  grace_ms : N;
  should_fire : bool;
}.

(** The loop over the events up to now; [fuel] bounds its turns. *)
Fixpoint cron_anchor (fuel : nat) (j : Job) (anchor_ms next_ms now_ms : N) (tz : Tz) : option N :=
  if next_ms <=? now_ms then
    match fuel with
    | O => None
    | S fuel =>
        let anchor_ms := next_ms in
        next_ms ← next_run_ms j anchor_ms tz;
        if next_ms <=? anchor_ms then None else cron_anchor fuel j anchor_ms next_ms now_ms tz
    end
  else Some anchor_ms.

Definition missed_fast_forward_anchor_ms (j : Job) (due_ms after_due_ms now_ms : N) (tz : Tz) (should_fire : bool) : option N :=
  if now_ms <? after_due_ms then Some due_ms
  else match trigger j with
       | Interval every_ms =>
           if 0 <? every_ms then
             let base_ms := interval_base j in
             if now_ms <=? base_ms then Some base_ms
             else
               let ticks := (now_ms - base_ms) / every_ms in
               m ← checked_mul ticks every_ms;
               checked_add base_ms m
           else None
       | Cron _ _ => if should_fire then cron_anchor (S (N.to_nat (now_ms - after_due_ms))) j due_ms after_due_ms now_ms tz
                     else Some now_ms
       | _ => None
       end.

Definition recurring_missed_grace_state (j : Job) (from_ms now_ms : N) (tz : Tz) (grace_config : MissedRunGraceConfig)
  : option RecurringMissedGraceState :=
  if negb (recurring j) then None
  else
    due ← next_run_ms j from_ms tz;
    after_due ← next_run_ms j due tz;
    let period := after_due - due in
    let grace := missed_run_grace_ms period grace_config in
    if now_ms <? due then
      Some {| due_ms := None; next_future_ms := due; advance_last_fired_at_ms := None;
              period_ms := period; grace_ms := grace; should_fire := false |}
    else
      next_future ← (if now_ms <? after_due then Some after_due else next_run_ms j now_ms tz);
      let fire := now_ms - due <=? grace in
      Some {| due_ms := Some due; next_future_ms := next_future;
              advance_last_fired_at_ms := Some (default now_ms (missed_fast_forward_anchor_ms j due after_due now_ms tz fire));
              period_ms := period; grace_ms := grace; should_fire := fire |}.

(** ** Parsing a schedule *)

Definition parse_at_ms (value : text) (now_ms : N) : result N text :=
  let value := trim value in
  let relative := trim (default value (strip_prefix (lit "in ") value)) in
  match parse_duration_ms relative with
  | Ok duration_ms =>
      match checked_add now_ms duration_ms with Some t => Ok t | None => Err (lit "relative schedule time overflowed") end
  | Err _ =>
      match parse_from_rfc3339 value with
      | Err error => Err (lit "invalid absolute schedule time: " ++ error)
      | Ok parsed =>
          match u64_of_i64 parsed with
          | None => Err (lit "absolute schedule time is before the unix epoch")
          | Some at_ms => if at_ms <=? now_ms then Err (lit "absolute schedule time must be in the future") else Ok at_ms
          end
      end
  end.
Definition EXACTLY_ONE : text := lit "exactly one of cron, every, or at must be set".
Definition set_count (cron every at_ : option text) : nat := length (omap (λ o, o) [cron; every; at_]).
Definition parse_schedule (cron every at_ tz : option text) (now_ms : N) : result Trigger text :=
  if negb (bool_decide (set_count cron every at_ = 1%nat)) then Err EXACTLY_ONE
  else match cron with
       | Some expr =>
           let expr := trim expr in
           let? _ := parse_cron expr in
           match tz with
           | Some value =>
               let value := trim value in
               match parse_tz value with
               | Some _ => Ok (Cron expr (Some value))
               | None => Err (lit "invalid timezone: " ++ value)
               end
           | None => Ok (Cron expr None)
           end
       | None =>
           match every with
           | Some every => let? ms := parse_duration_ms every in Ok (Interval ms)
           | None =>
               match at_ with
               | Some at_ => let? t := parse_at_ms at_ now_ms in Ok (Once t)
               | None => Err EXACTLY_ONE
               end
           end
       end.
End lib.
