(* ===== verification/CronScheduleProps.v ===== *)
(** * Properties of schedules

    The next tick of an interval, missed runs and where fast-forwarding leads, durations that are
    printed and read back, and the bound of the jitter. *)

From Stdlib Require Import Floats.SpecFloat.
From stdpp Require Import gmap strings list pretty.
From S2P Require Import Prelude RustStr TextEdit CronJob CronSchedule.
Local Open Scope N_scope.

(** Times before the year 292 million, where the casts to [i64] are exact. *)
Definition TIME_BOUND : N := 9223372036854775807.

Lemma checked_add_Some x y z : checked_add x y = Some z ↔ z = x + y ∧ x + y ≤ u64_max.
Proof. unfold checked_add. destruct (N.leb_spec (x + y) u64_max); naive_solver lia. Qed.
Lemma checked_mul_Some x y z : checked_mul x y = Some z ↔ z = x * y ∧ x * y ≤ u64_max.
Proof. unfold checked_mul. destruct (N.leb_spec (x * y) u64_max); naive_solver lia. Qed.

(** ** Intervals *)

Lemma div_tick b every from :
  0 < every → b + every ≤ from → from < b + ((from - b) / every + 1) * every ∧ b + (from - b) / every * every ≤ from.
Proof.
  intros He Hb. pose proof (N.div_mod (from - b) every ltac:(lia)) as Hd. pose proof (N.mod_lt (from - b) every ltac:(lia)) as Hm.
  generalize dependent ((from - b) / every). generalize dependent ((from - b) mod every). intros r Hr q Hq.
  rewrite N.mul_add_distr_r, N.mul_1_l, (N.mul_comm q). lia.
Qed.

(** The least tick, and whether the clock can hold it. *)
Lemma interval_next_value j from every :
  every ≠ 0 →
  ∃ k, 1 ≤ k ∧ from < interval_base j + k * every ∧ (∀ k', 1 ≤ k' → from < interval_base j + k' * every → k ≤ k')
       ∧ interval_next_run_ms j from every
         = if interval_base j + k * every <=? u64_max then Some (interval_base j + k * every) else None.
Proof.
  intros He. unfold interval_next_run_ms. rewrite (proj2 (N.eqb_neq _ _) He). cbv zeta. set (b := interval_base j).
  destruct (N.lt_ge_cases from (b + every)) as [Hlt|Hge].
  - exists 1. split; [lia|]. split; [lia|]. split; [lia|]. rewrite N.mul_1_l. unfold checked_add.
    destruct (N.leb_spec (b + every) u64_max); cbn [mbind option_bind]; [|done]. by rewrite (proj2 (N.ltb_lt _ _)).
  - destruct (div_tick b every from ltac:(lia) Hge) as [H1 H2]. exists ((from - b) / every + 1).
    generalize dependent ((from - b) / every). intros q H1 H2. split; [lia|]. split; [lia|].
    split. { intros k' Hk' Hf. assert (q < k'); [|lia]. apply N.nle_gt. intros Hle. nia. }
    unfold checked_mul, checked_add. destruct (N.leb_spec (b + every) u64_max) as [Hf|Hf]; cbn [mbind option_bind].
    + rewrite (proj2 (N.ltb_ge _ _)) by lia.
      destruct (N.leb_spec ((q + 1) * every) u64_max) as [Hm|Hm]; cbn [mbind option_bind]; [done|]. rewrite (proj2 (N.leb_gt _ _)); [done|lia].
    + rewrite (proj2 (N.leb_gt _ _)); [done|nia].
Qed.

(** The next run of an interval is the least tick after the given time that the clock can hold,
    counted from the last fire or the creation of the job, and there is none exactly when the
    interval is zero or that tick lies beyond the clock. *)
Lemma interval_next_is_the_least_tick j from every :
  (∀ t, interval_next_run_ms j from every = Some t ↔
        t ≤ u64_max ∧ from < t
        ∧ ∃ k, 1 ≤ k ∧ 0 < every ∧ t = interval_base j + k * every
               ∧ ∀ k', 1 ≤ k' → from < interval_base j + k' * every → k ≤ k')
  ∧ (interval_next_run_ms j from every = None ↔
        every = 0 ∨ ∀ k, 1 ≤ k → from < interval_base j + k * every → u64_max < interval_base j + k * every).
Proof.
  destruct (decide (every = 0)) as [->|He].
  { split; [|naive_solver]. intros t. split; [done|]. intros (_ & _ & k & _ & Hk & _). lia. }
  destruct (interval_next_value j from every He) as (k & Hk1 & Hk & Hmin & ->). set (b := interval_base j) in *.
  destruct (N.leb_spec (b + k * every) u64_max) as [Hle|Hgt]; split.
  - intros t. split.
    + intros [= <-]. split; [done|]. split; [done|]. exists k. split; [done|]. split; [lia|]. done.
    + intros (Ht & Hf & k' & Hk' & _ & -> & Hmin'). f_equal. assert (k = k') as ->; [|done].
      pose proof (Hmin k' Hk' Hf). pose proof (Hmin' k Hk1 Hk). lia.
  - split; [done|]. intros [|Hno]; [done|]. pose proof (Hno k Hk1 Hk). lia.
  - intros t. split; [done|]. intros (Ht & Hf & k' & Hk' & _ & -> & _). pose proof (Hmin k' Hk' Hf). nia.
  - split; [|done]. intros _. right. intros k' Hk' Hf. pose proof (Hmin k' Hk' Hf). nia.
Qed.

(** ** The next run lies ahead *)

Section lib.
Context `{ScheduleLibLaws}.

Lemma cron_next_later expr from tz t : from ≤ TIME_BOUND → cron_next expr from tz = Some t → from < t.
Proof.
  intros Hf. unfold cron_next. destruct (parse_cron expr) as [s|]; [|done]. destruct (in_chrono_range _); [|done].
  unfold i64_of. unfold TIME_BOUND in Hf. rewrite (proj2 (N.leb_le _ _) Hf). destruct (schedule_after _ _ _) as [z|] eqn:Hs; simpl; [|done].
  apply schedule_after_later in Hs. unfold u64_of_i64. destruct (Z.leb_spec 0 z); [|done]. intros [= <-]. lia.
Qed.

Lemma interval_next_later j from every t : interval_next_run_ms j from every = Some t → from < t.
Proof.
  intros Ht. destruct (decide (every = 0)) as [->|He]; [done|]. destruct (interval_next_value j from every He) as (k & _ & Hk & _ & Hv).
  rewrite Hv in Ht. destruct (_ <=? _); [|done]. by injection Ht as <-.
Qed.

(** A job that repeats runs strictly later. *)
Lemma next_run_later j from tz t :
  from ≤ TIME_BOUND → match trigger j with Once _ => has_fired j = true | _ => True end →
  next_run_ms j from tz = Some t → from < t.
Proof.
  intros Hf Hj. unfold next_run_ms. destruct (trigger j); try done.
  - unfold cron_next_run_ms. destruct (negb _ && _); [done|]. by apply cron_next_later.
  - apply interval_next_later.
  - unfold once_next_run_ms. by rewrite Hj.
Qed.

(** ** Missed runs *)

(** The loop over cron events ends: more fuel changes nothing. *)
Lemma cron_anchor_fuel fuel j anchor next now tz :
  (N.to_nat (now + 1 - next) ≤ fuel)%nat →
  ∀ more, cron_anchor (fuel + more) j anchor next now tz = cron_anchor fuel j anchor next now tz.
Proof.
  revert anchor next. induction fuel as [|fuel IH]; intros anchor next Hf more.
  - assert (now < next) as Hlt by lia. destruct more; simpl; [done|]. by rewrite (proj2 (N.leb_gt _ _)).
  - simpl. destruct (N.leb_spec next now) as [Hle|Hgt]; [|done].
    destruct (next_run_ms j next tz) as [n|]; simpl; [|done]. destruct (N.leb_spec n next) as [|Hlt]; [done|].
    apply IH. lia.
Qed.
Lemma missed_anchor_fuel j due after now tz more :
  cron_anchor (S (N.to_nat (now - after)) + more) j due after now tz = cron_anchor (S (N.to_nat (now - after))) j due after now tz.
Proof. apply cron_anchor_fuel. lia. Qed.

Lemma has_fired_upd a n j : has_fired (upd_fired (Some a) n j) = true.
Proof. unfold has_fired. simpl. done. Qed.

(** A job that was fired at [a] runs one interval later. *)
Lemma interval_from_own_tick j a n every t :
  interval_next_run_ms (upd_fired (Some a) n j) a every = Some t → 0 < every ∧ t = a + every.
Proof.
  intros Ht. destruct (decide (every = 0)) as [->|He]; [done|].
  destruct (interval_next_value (upd_fired (Some a) n j) a every He) as (k & Hk & _ & Hmin & Hv). rewrite Hv in Ht.
  unfold interval_base in *. simpl in *. destruct (_ <=? _); [|done]. injection Ht as <-.
  assert (k ≤ 1) by (apply Hmin; lia). assert (k = 1) as -> by lia. lia.
Qed.

Lemma interval_run_from_base j from every t :
  interval_next_run_ms j from every = Some t → ∀ i, 1 ≤ i → from = interval_base j + (i - 1) * every →
  0 < every ∧ t = interval_base j + i * every.
Proof.
  intros Ht i Hi ->. destruct (decide (every = 0)) as [->|He]; [done|].
  destruct (interval_next_value j (interval_base j + (i - 1) * every) every He) as (k & Hk & Hlt & Hmin & Hv). rewrite Hv in Ht.
  destruct (_ <=? _); [|done]. injection Ht as <-. assert (k ≤ i) by (apply Hmin; [done|nia]). assert (i ≤ k) by nia.
  assert (k = i) as -> by lia. split; lia.
Qed.

(** The anchor of an interval is within one interval of the present. *)
Lemma interval_anchor_near j due after every now tz fire :
  trigger j = Interval every →
  interval_next_run_ms j (interval_base j) every = Some due → interval_next_run_ms j due every = Some after → due ≤ now →
  now < default now (missed_fast_forward_anchor_ms j due after now tz fire) + every.
Proof.
  intros Htr Hd Ha Hle. destruct (interval_run_from_base _ _ _ _ Hd 1) as [He Hdue]; [lia|lia|].
  destruct (interval_run_from_base _ _ _ _ Ha 2) as [_ Haft]; [lia|rewrite Hdue; lia|].
  unfold missed_fast_forward_anchor_ms. rewrite Htr. destruct (N.ltb_spec now after) as [Hl|Hl]; cbn; [lia|].
  rewrite (proj2 (N.ltb_lt _ _) He), (proj2 (N.leb_gt _ _)) by lia.
  destruct (div_tick (interval_base j) every now) as [Hq _]; [done|lia|]. generalize dependent ((now - interval_base j) / every). intros q Hq.
  destruct (checked_mul q every) as [m|] eqn:Hm; cbn; [|lia]. apply checked_mul_Some in Hm as [-> _].
  destruct (checked_add _ _) as [x|] eqn:Hx; cbn; [|lia]. apply checked_add_Some in Hx as [-> _]. lia.
Qed.

(** Where a recurring job goes on once its missed run is skipped. *)
Lemma fast_forward_later j now tz g s a n t :
  now ≤ TIME_BOUND → recurring_missed_grace_state j (interval_base j) now tz g = Some s →
  due_ms s ≠ None → should_fire s = false → advance_last_fired_at_ms s = Some a →
  next_run_ms (upd_fired (Some a) n j) a tz = Some t → now < t.
Proof.
  intros Hnow Hs Hdue Hfire Ha Ht. unfold recurring_missed_grace_state in Hs. destruct (recurring j) eqn:Hrec; [|done].
  cbn [negb] in Hs. destruct (next_run_ms j (interval_base j) tz) as [due|] eqn:Hd; [|done]. cbn [mbind option_bind] in Hs.
  destruct (next_run_ms j due tz) as [after|] eqn:Haf; [|done]. cbn [mbind option_bind] in Hs.
  destruct (N.ltb_spec now due) as [Hlt|Hge]; [by injection Hs as <-|].
  destruct (if now <? after then _ else _) as [nf|]; [|done]. injection Hs as <-. cbn in Hfire, Ha. injection Ha as <-.
  rewrite Hfire in Ht. unfold next_run_ms in Ht, Hd, Haf. cbn [upd_fired trigger] in Ht.
  destruct (trigger j) as [expr z|every|at_| | |] eqn:Htr; try done.
  - unfold missed_fast_forward_anchor_ms in Ht. rewrite Htr in Ht. unfold cron_next_run_ms in *. cbn [upd_fired recurring] in Ht.
    rewrite Hrec in *. cbn [negb andb] in *.
    destruct (N.ltb_spec now after) as [Hl|Hl]; cbn in Ht; [rewrite Haf in Ht; by injection Ht as <-|]. by apply cron_next_later in Ht.
  - pose proof (interval_anchor_near j due after every now tz false Htr Hd Haf Hge) as Hnear.
    apply interval_from_own_tick in Ht as [_ ->]. done.
Qed.
End lib.

(** ** Durations are read back *)

Definition is_digit (c : N) : bool := (48 <=? c) && (c <=? 57).

Lemma lit_String a s : Ascii.N_of_ascii a < 128 → lit (String a s) = Ascii.N_of_ascii a :: lit s.
Proof.
  intros Ha. unfold lit, chars, bytes_of. cbn [String.list_ascii_of_string fmap list_fmap].
  cbn [utf8_decode]. by rewrite (proj2 (N.ltb_lt _ _) Ha).
Qed.

Lemma pretty_char_code d : d < 10 → Ascii.N_of_ascii (pretty_N_char d) = 48 + d.
Proof. intros Hd. assert (∃ n, d = N.of_nat n ∧ (n < 10)%nat) as (n & -> & Hn) by (exists (N.to_nat d); lia). do 10 (destruct n; [done|]). lia. Qed.

(** What [pretty] prints before a suffix are digits that add up to the number. *)
Lemma pretty_go_digits x s :
  ∃ ds, lit (pretty_N_go x s) = ds ++ lit s ∧ Forall (λ c, is_digit c = true) ds ∧ (0 < x → ds ≠ [])
        ∧ ∀ acc rest, acc * 10 ^ Nlen ds + x ≤ u64_max → digits acc (ds ++ rest) = digits (acc * 10 ^ Nlen ds + x) rest.
Proof.
  revert s. induction (N.lt_wf_0 x) as [x _ IH]. intros s. destruct (N.eq_0_gt_0_cases x) as [->|Hx].
  { exists []. rewrite pretty_N_go_0. split; [done|]. split; [constructor|]. split; [done|]. intros acc rest _. simpl.
    by rewrite N.mul_1_r, N.add_0_r. }
  rewrite pretty_N_go_step by done.
  assert (x / 10 < x) as Hlt by (apply N.div_lt; lia).
  destruct (IH (x / 10) Hlt (String (pretty_N_char (x mod 10)) s)) as (ds & Hlit & Hdig & _ & Hsum).
  assert (x mod 10 < 10) as Hm by (apply N.mod_lt; lia). pose proof (N.div_mod x 10 ltac:(lia)) as Hdm.
  pose proof (pretty_char_code _ Hm) as Hc.
  rewrite lit_String in Hlit by (rewrite Hc; lia). rewrite Hc in Hlit.
  exists (ds ++ [48 + x mod 10]). rewrite <- app_assoc. split; [done|].
  generalize dependent (x mod 10). generalize dependent (x / 10). intros q Hlit Hsum r Hm Hdm Hc Hlit'. split.
  { apply Forall_app. split; [done|]. constructor; [|constructor]. unfold is_digit. apply andb_true_iff. rewrite !N.leb_le. lia. }
  split; [by destruct ds|]. intros acc rest Hle.
  assert (Nlen (ds ++ [48 + r]) = N.succ (Nlen ds)) as Hlen by (unfold Nlen; rewrite length_app; simpl; lia).
  rewrite Hlen, N.pow_succ_r' in *. rewrite <- app_assoc, Hsum by lia. cbn [app digits].
  rewrite (proj2 (N.leb_le 48 _)), (proj2 (N.leb_le _ 57)) by lia. cbn [andb]. replace (48 + r - 48) with r by lia.
  replace ((acc * 10 ^ Nlen ds + q) * 10 + r) with (acc * (10 * 10 ^ Nlen ds) + x) by lia. by rewrite (proj2 (N.leb_le _ _) Hle).
Qed.

Lemma pretty_go_app x s t : (pretty_N_go x s +:+ t = pretty_N_go x (s +:+ t))%string.
Proof.
  revert s. induction (N.lt_wf_0 x) as [x _ IH]. intros s. destruct (N.eq_0_gt_0_cases x) as [->|Hx]; [by rewrite !pretty_N_go_0|].
  assert (x / 10 < x) as Hlt by (apply N.div_lt; lia). by rewrite !(pretty_N_go_step x), IH.
Qed.
Lemma pretty_app n t : 0 < n → (pretty n +:+ t = pretty_N_go n t)%string.
Proof. intros Hn. unfold pretty, pretty_N. rewrite decide_False by lia. by rewrite pretty_go_app. Qed.

(** A unit that [parse_duration_ms] knows, by its letter. *)
Definition duration_unit (u : N) (suffix : string) (c : N) : Prop :=
  lit suffix = [c] ∧ unit_ms [c] = Some u ∧ is_digit c = false ∧ is_whitespace c = false.
Lemma duration_units : duration_unit DAY "d" 100 ∧ duration_unit HOUR "h" 104 ∧ duration_unit MINUTE "m" 109 ∧ duration_unit SECOND "s" 115.
Proof. by repeat split. Qed.

Lemma take_digits_app ds c : Forall (λ c, is_digit c = true) ds → is_digit c = false → take_digits (ds ++ [c]) = ds.
Proof.
  intros Hds Hc. unfold take_digits. induction Hds as [|d ds Hd Hds IH]; simpl; [unfold is_digit in Hc; by rewrite Hc|].
  unfold is_digit in Hd. rewrite Hd. by rewrite IH.
Qed.
Lemma digit_no_ws c : is_digit c = true → is_whitespace c = false.
Proof.
  unfold is_digit. intros [H1 H2]%andb_true_iff. apply N.leb_le in H1, H2.
  assert (∃ n, c = 48 + N.of_nat n ∧ (n < 10)%nat) as (n & -> & Hn) by (exists (N.to_nat (c - 48)); lia).
  do 10 (destruct n; [done|]). lia.
Qed.

Lemma parse_label n u suffix c :
  duration_unit u suffix c → 0 < n → n * u ≤ u64_max → n ≤ u64_max → parse_duration_ms (lit (pretty n +:+ suffix)) = Ok (n * u).
Proof.
  intros (Hsuf & Hunit & Hnd & Hnw) Hn Hmul Hle. rewrite pretty_app by done.
  destruct (pretty_go_digits n suffix) as (ds & Hlit & Hdig & Hne & Hsum). rewrite Hlit, Hsuf. specialize (Hne Hn).
  unfold parse_duration_ms. rewrite trim_id.
  2: { intros x Hx. destruct ds as [|d ds]; [done|]. injection Hx as <-. apply digit_no_ws. by inversion Hdig. }
  2: { intros x Hx. rewrite last_snoc in Hx. by injection Hx as <-. }
  rewrite take_digits_app, drop_app_length by done. rewrite (bool_decide_eq_false_2 _ Hne). cbn [orb bool_decide].
  rewrite bool_decide_eq_false_2 by done. unfold parse_usize.
  assert (strip_prefix (lit "+") ds = None) as ->.
  { destruct ds as [|d ds]; [done|]. inversion Hdig as [|?? Hd]. change (lit "+") with [43]. cbn [strip_prefix].
    destruct (N.eqb_spec 43 d) as [<-|]; [done|done]. }
  rewrite (bool_decide_eq_false_2 _ Hne). specialize (Hsum 0 []). rewrite app_nil_r, N.mul_0_l, N.add_0_l in Hsum.
  rewrite Hsum by done. cbn [digits]. rewrite (proj2 (N.eqb_neq _ _)) by lia.
  assert (trim [c] = [c]) as ->. { by apply trim_id; intros x [= <-]. }
  rewrite Hunit. unfold checked_mul. by rewrite (proj2 (N.leb_le _ _) Hmul).
Qed.

(** A duration of whole seconds that the clock can hold is read back from its label. *)
Lemma duration_label_is_read_back ms :
  0 < ms → ms mod SECOND = 0 → ms ≤ u64_max → parse_duration_ms (duration_label ms) = Ok ms.
Proof.
  intros Hpos Hsec Hmax. unfold duration_label.
  assert (∀ u suffix c rest, duration_unit u suffix c → 0 < u →
            ((u <=? ms) && (ms mod u =? 0) = false → parse_duration_ms (label_by rest ms) = Ok ms) →
            parse_duration_ms (label_by ((u, suffix) :: rest) ms) = Ok ms) as Hstep.
  { intros u suffix c rest Hu Hup Hrest. cbn [label_by]. destruct ((u <=? ms) && (ms mod u =? 0)) eqn:Hhit; [|by apply Hrest].
    apply andb_true_iff in Hhit as [Hle%N.leb_le Hmod%N.eqb_eq]. pose proof (N.div_mod ms u ltac:(lia)) as Hdm.
    assert (0 < ms / u) by (apply N.div_str_pos; lia). rewrite Hmod, N.add_0_r in Hdm.
    assert (ms / u * u = ms) as Heq by lia. rewrite <- Heq at 2. eapply parse_label; [done|done|lia|].
    transitivity ms; [|done]. apply N.Div0.div_le_upper_bound; nia. }
  destruct duration_units as (Hd & Hh & Hm & Hs).
  do 3 (eapply Hstep; [done|done|intros _]). eapply Hstep; [done|done|]. intros Hno. exfalso.
  rewrite Hsec in Hno. cbn in Hno. rewrite andb_true_r in Hno. apply N.leb_gt in Hno.
  rewrite N.mod_small in Hsec by done. lia.
Qed.

(** ** The jitter is bounded *)

Local Open Scope Z_scope.

Lemma digits2_pos_bound p : Z.pos p < 2 ^ Z.pos (digits2_pos p).
Proof.
  induction p as [p IH|p IH|]; cbn [digits2_pos]; [| |done].
  all: rewrite Pos2Z.inj_succ, Z.pow_succ_r by lia; lia.
Qed.

Lemma shr_1_half r : 0 ≤ shr_m r → shr_m (shr_1 r) = shr_m r / 2.
Proof.
  destruct r as [m b s]. cbn [shr_m shr_1]. intros Hm. rewrite <- Z.div2_div. destruct m as [|[p|p|]|]; try done.
Qed.

Lemma shr_iter p r : 0 ≤ shr_m r → shr_m (SpecFloat.iter_pos shr_1 p r) = shr_m r / 2 ^ Z.pos p.
Proof.
  revert r. induction p as [p IH|p IH|]; intros r Hr; cbn [SpecFloat.iter_pos].
  - assert (0 ≤ shr_m (shr_1 r)) by (rewrite shr_1_half by done; apply Z.div_pos; lia).
    assert (0 ≤ shr_m (SpecFloat.iter_pos shr_1 p (shr_1 r))) by (rewrite IH by done; apply Z.div_pos; lia).
    rewrite !IH, shr_1_half by done. rewrite !Z.div_div by lia. f_equal.
    rewrite (Pos2Z.inj_xI p), Z.pow_add_r, Z.pow_1_r by lia. replace (2 * Z.pos p) with (Z.pos p + Z.pos p) by lia.
    rewrite Z.pow_add_r by lia. lia.
  - assert (0 ≤ shr_m (SpecFloat.iter_pos shr_1 p r)) by (rewrite IH by done; apply Z.div_pos; lia).
    rewrite !IH by done. rewrite Z.div_div by lia. f_equal.
    rewrite (Pos2Z.inj_xO p). replace (2 * Z.pos p) with (Z.pos p + Z.pos p) by lia. rewrite Z.pow_add_r by lia. lia.
  - rewrite shr_1_half by done. by rewrite Z.pow_1_r.
Qed.

Lemma shr_m_of_loc m l : shr_m (shr_record_of_loc m l) = m.
Proof. by destruct l as [|[]]. Qed.

(** Aligning to the precision leaves at most 53 bits. *)
Lemma shr_fexp_53 m e l : 0 ≤ m → 0 ≤ shr_m (shr_fexp 53 1024 m e l).1 < 2 ^ 53.
Proof.
  intros Hm. unfold shr_fexp, fexp. set (n := Z.max (Zdigits2 m + e - 53) (SpecFloat.emin 53 1024) - e).
  assert (Zdigits2 m - 53 ≤ n) as Hn by lia.
  assert (m < 2 ^ Z.max 0 (Zdigits2 m)) as Hd.
  { destruct m as [|p|p]; [done| |done]. cbn [Zdigits2]. rewrite Z.max_r by lia. apply digits2_pos_bound. }
  unfold shr. destruct n as [|p|p]; cbn [fst].
  - rewrite shr_m_of_loc. split; [done|]. eapply Z.lt_le_trans; [done|]. apply Z.pow_le_mono_r; lia.
  - rewrite shr_iter by (by rewrite shr_m_of_loc). rewrite shr_m_of_loc. split; [apply Z.div_pos; lia|].
    apply Z.div_lt_upper_bound; [lia|]. rewrite <- Z.pow_add_r by lia. eapply Z.lt_le_trans; [done|]. apply Z.pow_le_mono_r; lia.
  - rewrite shr_m_of_loc. split; [done|]. eapply Z.lt_le_trans; [done|]. apply Z.pow_le_mono_r; lia.
Qed.

Lemma round_mantissa sx m e l s m' e' :
  0 ≤ m → binary_round_aux 53 1024 sx m e l = S754_finite s m' e' → Z.pos m' < 2 ^ 53.
Proof.
  intros Hm. unfold binary_round_aux. destruct (shr_fexp 53 1024 m e l) as [r1 e1] eqn:H1.
  pose proof (shr_fexp_53 m e l Hm) as [Hr1 _]. rewrite H1 in Hr1. cbn [fst] in Hr1.
  set (m2 := round_nearest_even _ _). assert (0 ≤ m2) as Hm2 by (unfold m2, round_nearest_even; repeat case_match; lia).
  destruct (shr_fexp 53 1024 m2 e1 loc_Exact) as [r2 e2] eqn:H2. pose proof (shr_fexp_53 m2 e1 loc_Exact Hm2) as [_ Hr2].
  rewrite H2 in Hr2. cbn [fst] in Hr2. destruct (shr_m r2); [done| |done]. destruct (_ <=? _); [|done]. by intros [= _ <- _].
Qed.

Lemma mul_mantissa x y s m e : f64_mul x y = S754_finite s m e → Z.pos m < 2 ^ 53.
Proof. unfold f64_mul, SFmul. destruct x, y; try done. by apply round_mantissa. Qed.

Definition CAP : spec_float := S754_finite false 7730941132800000 (-33).
Lemma cap_float : f64_of_u64 900000 = CAP.
Proof. vm_compute. reflexivity. Qed.

Lemma below_float m e c : Z.pos m < 2 ^ 53 → SFltb (S754_finite false m e) (S754_finite false c (-33)) = true →
  trunc m e ≤ Z.max (2 ^ 19) (Z.pos c / 2 ^ 33).
Proof.
  intros Hm. unfold SFltb. cbn [SFcompare]. destruct (Z.compare_spec e (-33)) as [->|Hlt|]; [| |done].
  - change (Pos.compare_cont Eq m c) with (Pos.compare m c). destruct (Pos.compare_spec m c) as [|Hp|]; try done. intros _.
    unfold trunc. cbn [Z.leb Z.compare Z.opp]. etransitivity; [|apply Z.le_max_r]. apply Z.div_le_mono; lia.
  - intros _. unfold trunc. rewrite (proj2 (Z.leb_gt _ _)) by lia. etransitivity; [|apply Z.le_max_l].
    assert (2 ^ 34 ≤ 2 ^ (- e)) by (apply Z.pow_le_mono_r; lia). apply Z.div_le_upper_bound; lia.
Qed.
Lemma below_cap m e : Z.pos m < 2 ^ 53 → SFltb (S754_finite false m e) CAP = true → trunc m e ≤ 900000.
Proof. intros Hm Hlt. pose proof (below_float m e _ Hm Hlt) as Hb. by vm_compute (Z.max _ _) in Hb. Qed.

(** The jitter of a recurring job is at most fifteen minutes, whatever the hash of its id and the
    time between its runs: binary64 arithmetic and the saturating cast included. *)
Lemma recurring_jitter_is_capped `{ScheduleLib} task_id gap :
  (recurring_jitter task_id default_JitterConfig gap ≤ 15 * 60 * 1000)%N.
Proof.
  unfold recurring_jitter. change (recurring_cap_ms default_JitterConfig) with 900000%N. rewrite cap_float.
  pose proof (mul_mantissa (f64_mul (jitter_frac task_id) (recurring_frac default_JitterConfig)) (f64_of_u64 gap)) as Hx.
  set (x := f64_mul _ _) in *. clearbody x.
  destruct x as [s|s| |s m e]; [destruct s; vm_compute; discriminate..|vm_compute; discriminate|].
  change (f64_min (S754_finite s m e) CAP) with (if SFltb (S754_finite s m e) CAP then S754_finite s m e else CAP).
  destruct (SFltb (S754_finite s m e) CAP) eqn:Hlt; [|vm_compute; discriminate]. destruct s; [vm_compute; discriminate|].
  apply below_cap in Hlt; [|by eapply Hx]. unfold as_u64. generalize dependent (trunc m e). intros z Hz. lia.
Qed.
