(* ===== verification/CronRunner.v ===== *)
(** * The runner of scheduled jobs

    [src/scheduler/runner.rs].  What the runner asks of the chats and of the machine is answered by a
    [World]; its tasks of one pass that run at the same time touch different jobs and are awaited
    before the pass ends, so they are run where they are started. *)

From stdpp Require Import gmap strings list pretty.
From S2P Require Import Prelude RustStr CronJob CronSchedule.
Local Open Scope N_scope.

Definition DEFAULT_SLEEP_MS : N := 60000.
Definition IDLE_DEFER_MS : N := 30000.
Definition INVALID_TARGET_DEFER_MS : N := 60000.

Inductive ChatFireStatus := Fireable | Busy | Missing | Closed.
#[global] Instance ChatFireStatus_eq_dec : EqDecision ChatFireStatus.
Proof. solve_decision. Defined.
Definition display_ChatFireStatus (s : ChatFireStatus) : string :=
  match s with Fireable => "Fireable" | Busy => "Busy" | Missing => "Missing" | Closed => "Closed" end.
(** What [chat_fire_status] reads of a session; [queued] is the priority of each queued command. *)
Record SessionView := { closed : bool; idle : bool; queued : list bool }.
Definition chat_fire_status (session : option SessionView) : ChatFireStatus :=
  match session with
  | None => Missing
  | Some s => if closed s then Closed
              else if idle s && negb (existsb negb (queued s)) then Fireable else Busy
  end.

Inductive DeliveryOutcome := Queued | Delivered | Duplicate | Expired | OutcomeSuperseded | Sealed.
Record CommandRunResult := { result_status : string; stdout : text; stderr : text; exit_code : option Z }.

(** The sessions before and after an attempt to restore one, and how firing a job ends. *)
Record World := {
  session_of : string → option SessionView;
  restore : string → bool;
  restored_session : string → option SessionView;
  deliver_scheduled_turn : Job → string → result DeliveryOutcome text;
  run_command : Job → CommandRunResult;
  deliver : Job → text → result () text;
}.

(** ** Which jobs can run *)

Definition runner_supported_trigger (t : Trigger) : bool := match t with OnProcessExit _ => false | _ => true end.
Definition runnable_chat_id (j : Job) : result string string :=
  if negb (runner_supported_trigger (trigger j)) then Err "trigger is not supported by the chat runner yet"
  else match action j, delivery j with
       | AgentTurn _ (ExistingChat chat_id) _ _ _, DeliverChat =>
           if bool_decide (chat_id = "") then Err "missing chat_id" else Ok chat_id
       | AgentTurn _ _ _ _ _, DeliverChat => Err "missing chat_id"
       | AgentTurn _ _ _ _ _, _ => Err "non-chat delivery is not supported yet"
       | Command _ _ _ _ _, _ => Err "command actions use the command runner"
       end.
Definition runnable_isolated_job (j : Job) : result () string :=
  if negb (runner_supported_trigger (trigger j)) then Err "trigger is not supported by the chat runner yet"
  else match action j, delivery j with
       | AgentTurn _ Isolated _ _ _, DeliverChat => Ok ()
       | AgentTurn _ _ _ _ _, DeliverChat => Err "target is not isolated"
       | AgentTurn _ _ _ _ _, _ => Err "non-chat delivery is not supported yet"
       | Command _ _ _ _ _, _ => Err "command actions use the command runner"
       end.
Definition runnable_command_job (j : Job) : result () string :=
  if negb (runner_supported_trigger (trigger j)) then Err "trigger is not supported by the command runner yet"
  else match action j, delivery j with
       | Command [] _ _ _ _, _ => Err "command argv is empty"
       | Command _ (ExistingChat chat_id) _ _ _, DeliverChat =>
           if bool_decide (chat_id = "") then Err "missing chat_id" else Ok ()
       | Command _ _ _ _ _, _ => Ok ()
       | AgentTurn _ _ _ _ _, _ => Err "action is not command"
       end.
Definition is_command (j : Job) : bool := match action j with Command _ _ _ _ _ => true | _ => false end.
Definition is_chat_delivery (j : Job) : bool := match delivery j with DeliverChat => true | _ => false end.
Definition command_job_has_non_chat_delivery (j : Job) : bool := is_command j && negb (is_chat_delivery j).
Definition task_can_use_cron_lane (j : Job) : bool := is_command j || job_is_isolated j.

(** ** Records of runs *)

Definition job_was_advanced_before_fire (j : Job) (fired_at_ms : N) : bool :=
  recurring j && bool_decide (last_status j = Some "advanced")
  && match last_fired_at_ms j with Some l => l <=? fired_at_ms | None => false end.
Definition cap_recent_runs (runs : list CronRunRecord) (cap : N) : list CronRunRecord :=
  if cap =? 0 then []
  else if cap <? Nlen runs then drop (length runs - N.to_nat cap) runs else runs.
Definition add_run (advanced : bool) (r : CronRunRecord) (cap : N) (runs : list CronRunRecord) : list CronRunRecord :=
  match last runs with
  | Some l => if advanced && (at_ms l =? at_ms r) then removelast runs ++ [r] else cap_recent_runs (runs ++ [r]) cap
  | None => cap_recent_runs (runs ++ [r]) cap
  end.
Definition with_record (status : string) (error : option text) (now_ms cap : N) (j : Job) : Job :=
  let already_advanced := job_was_advanced_before_fire j now_ms in
  let runs := add_run already_advanced {| at_ms := now_ms; run_status := status; run_error := error |} cap (recent_runs j) in
  let j := upd_run status error runs j in
  let j := if bool_decide (status = "deferred") && negb (is_command j)
           then upd_trigger_at (Some (default now_ms (trigger_at_ms j))) j else j in
  if bool_decide (status = "fired") || bool_decide (status = "error") then
    let j := if already_advanced then j
             else upd_fired (Some now_ms) (sat_add u32_max (fire_count j) 1) j in
    let j := if bool_decide (status = "fired") then upd_retries 0 j else j in
    if match trigger_at_ms j with Some t => t <=? now_ms | None => false end then upd_trigger_at None j else j
  else j.
Definition record_run (i status : string) (error : option text) (now_ms cap : N) (s : CronStore)
  : CronStore * result () text :=
  match store_get i s with
  | None => (s, Err (not_found i))
  | Some j =>
      let '(s, r) := store_replace (with_record status error now_ms cap j) s in
      (s, match r with Ok true => Ok () | Ok false => Err (not_found i) | Err e => Err e end)
  end.

Definition missed_one_shot_task `{ScheduleLib} (j : Job) (now : N) : bool :=
  negb (recurring j) && match trigger j with Cron _ _ => true | _ => false end
  && negb (bool_decide (last_fired_at_ms j ≠ None)) && (fire_count j =? 0)
  && match next_run_ms j (created_at_ms j) scheduler_timezone with Some next => next <? now | None => false end.
Definition task_final_after_fire (j : Job) (now : N) : bool :=
  recurring j && (0 <? auto_expire_after_ms j) && (auto_expire_after_ms j <? now - created_at_ms j).

Definition first_line (value : text) : text :=
  match filter (λ line, trim line ≠ []) (lines value) with line :: _ => line | [] => value end.
Definition command_error_summary (r : CommandRunResult) : text :=
  let err := trim (stderr r) in
  if bool_decide (err = []) then lit "Scheduled command failed" else lit "Scheduled command failed: " ++ first_line err.
Fixpoint contains (p t : text) : bool :=
  starts_with p t || match t with [] => false | _ :: t => contains p t end.
Definition command_retry_text (r : CommandRunResult) : text :=
  let t := (if contains (lit "timed out") (to_ascii_lowercase (stderr r)) then lit "timeout" ++ [10] else []) ++ stderr r in
  let t := if bool_decide (stdout r = []) then t
           else t ++ (if negb (bool_decide (t = [])) && negb (ends_with_char 10 t) then [10] else []) ++ stdout r in
  if bool_decide (trim t = []) then command_error_summary r else t.

(** ** The runner *)

Record Runner := { store : CronStore; deferred_until_ms : gmap string N }.
Definition upd_store (s : CronStore) (r : Runner) : Runner := {| store := s; deferred_until_ms := deferred_until_ms r |}.
Definition upd_deferred (d : gmap string N) (r : Runner) : Runner := {| store := store r; deferred_until_ms := d |}.

Definition forget (i : string) (r : Runner) : Runner := upd_deferred (delete i (deferred_until_ms r)) r.
Definition defer_task (j : Job) (now : N) (r : Runner) : Runner :=
  upd_deferred (<[id j := now + IDLE_DEFER_MS]> (deferred_until_ms r)) r.
Definition defer_invalid_target_task (j : Job) (now : N) (r : Runner) : Runner :=
  upd_deferred (<[id j := now + INVALID_TARGET_DEFER_MS]> (deferred_until_ms r)) r.

Inductive DueFireOutcome := Fired | Deferred.
Definition did_fire (o : DueFireOutcome) : bool := match o with Fired => true | Deferred => false end.

(** [REFACT_DISABLE_SCHEDULER], read from the environment. *)
Definition scheduler_enabled (var : option text) : bool :=
  match var with
  | None => true
  | Some v => let v := trim v in
              bool_decide (v = []) || bool_decide (v = lit "0") || eq_ignore_ascii_case v (lit "false")
  end.
Definition runner_enabled (cfg : SchedulerConfig) (var : option text) : bool := sc_enabled cfg && scheduler_enabled var.

Section runner.
Context `{ScheduleLib} (cfg : SchedulerConfig) (jitter_cfg : JitterConfig) (shutdown_flag : bool).

(** *** When a job is to fire *)

Definition missed_state (j : Job) (now : N) : option RecurringMissedGraceState :=
  recurring_missed_grace_state j (interval_base j) now scheduler_timezone (grace_of_config cfg).
Definition is_missed (s : RecurringMissedGraceState) : bool := bool_decide (due_ms s ≠ None) && negb (should_fire s).
Definition time_repeating (t : Trigger) : bool := match t with Cron _ _ | Interval _ => true | _ => false end.
Definition after_missed (j : Job) (now : N) : option N :=
  if recurring j && time_repeating (trigger j)
  then s ← missed_state j now; if is_missed s then Some (next_future_ms s) else None
  else None.
Definition planned_fire (j : Job) : option N :=
  let from_ms := interval_base j in
  let scheduled :=
    match trigger j with
    | Cron _ _ => if recurring j then jittered_next_run_ms_for j from_ms (id j) jitter_cfg scheduler_timezone
                  else one_shot_jittered_next_run_ms_for j from_ms (id j) jitter_cfg scheduler_timezone
    | Interval _ | Once _ => next_run_ms j from_ms scheduler_timezone
    | _ => None
    end in
  if recurring j || bool_decide (last_fired_at_ms j = None) then scheduled else None.
Definition min_option (a b : option N) : option N :=
  match a, b with Some x, Some y => Some (N.min x y) | Some x, None => Some x | None, b => b end.
Definition scheduled_fire_at_ms (j : Job) (now : N) : option N :=
  match (if is_paused j then trigger_at_ms j else None) with
  | Some t => Some t
  | None =>
      match after_missed j now with
      | Some t => Some t
      | None => min_option (planned_fire j) (trigger_at_ms j)
      end
  end.

Definition task_needs_missed_fast_forward (j : Job) (now : N) : bool :=
  if negb (recurring j) || bool_decide (trigger_at_ms j ≠ None) || (0 <? retry_attempts j) then false
  else match missed_state j now with Some s => is_missed s | None => false end.
Definition fresh_trigger (r : Runner) (j : Job) (now : N) : option N :=
  t ← trigger_at_ms j;
  if t <=? now then
    let new_trigger := match last (recent_runs j) with Some run => at_ms run <? t | None => true end in
    if new_trigger || bool_decide (deferred_until_ms r !! id j = None) then Some t else None
  else None.
Definition fire_at (r : Runner) (j : Job) (now : N) : option N :=
  if bool_decide (trigger_at_ms j = None) && is_paused j then None
  else match fresh_trigger r j now with
       | Some t => Some t
       | None =>
           match deferred_until_ms r !! id j with
           | Some d => Some d
           | None =>
               if (0 <? retry_attempts j) && bool_decide (trigger_at_ms j ≠ None) then trigger_at_ms j
               else if task_needs_missed_fast_forward j now then Some now
               else scheduled_fire_at_ms j now
           end
       end.
Definition task_is_due (r : Runner) (j : Job) (now : N) : bool :=
  match fire_at r j now with Some t => t <=? now | None => false end.

(** *** What follows a fire *)

Definition record (i status : string) (error : option text) (now : N) (r : Runner) : Runner :=
  upd_store (record_run i status error now (recent_runs_cap cfg) (store r)).1 r.
Definition remove_task (j : Job) (r : Runner) : Runner :=
  let '(s, res) := store_remove (id j) (store r) in
  let r := upd_store s r in
  match res with Ok _ => forget (id j) r | Err _ => r end.
Definition remove_final (j : Job) (r : Runner) : Runner := upd_store (store_remove (id j) (store r)).1 r.
Definition finish_task_after_fire (j : Job) (final_fire : bool) (r : Runner) : Runner :=
  let r := if final_fire then remove_final j r else if negb (recurring j) then remove_task j r else r in
  forget (id j) r.
Definition handle_unfireable_task (j : Job) (now : N) (reason : text) (r : Runner) : Runner :=
  if recurring j || durable j
  then defer_invalid_target_task j now (record (id j) "deferred" (Some reason) now r)
  else remove_task j (record (id j) "skipped" (Some reason) now r).
Definition schedule_retry (j : Job) (now : N) (error : text) (r : Runner) : Runner * result bool text :=
  match classify error with
  | None => (r, Ok false)
  | Some _ =>
      if shutdown_flag then (r, Ok false)
      else match store_get (id j) (store r) with
           | None => (r, Ok false)
           | Some stored =>
               match retry_delay_ms (retry cfg) (retry_attempts stored) with
               | None => (r, Ok false)
               | Some delay_ms =>
                   let stored := upd_retries (sat_add u32_max (retry_attempts stored) 1) stored in
                   let stored := upd_trigger_at (Some (sat_add u64_max now delay_ms)) stored in
                   let '(s, res) := store_replace stored (store r) in
                   (upd_store s r, res)
               end
           end
  end.
Definition handle_classifiable_fire_error (j : Job) (final_fire : bool) (now : N) (error : text) (r : Runner) : Runner * bool :=
  match classify error with
  | None => (r, false)
  | Some _ =>
      let r := record (id j) "error" (Some error) now r in
      let '(r, res) := schedule_retry j now error r in
      match res with
      | Ok true => (forget (id j) r, true)
      | _ => (if final_fire then remove_final j r
              else if negb (recurring j) then remove_task j r else forget (id j) r, true)
      end
  end.
Definition record_skipped_after_advance (j : Job) (now : N) (r : Runner) : Runner * bool :=
  if negb (job_was_advanced_before_fire j now) then (r, false)
  else (forget (id j) (record (id j) "skipped" (Some (lit "slot advanced before enqueue")) now r), true).

(** *** Firing *)

Definition not_runnable (what : string) (j : Job) (reason : string) : text :=
  lit ("Scheduled task " +:+ id j +:+ " is not a runnable " +:+ what +:+ " job: " +:+ reason).
Definition set_delivery_error (i : string) (e : option text) (r : Runner) : Runner :=
  match store_get i (store r) with
  | None => r
  | Some j => upd_store (store_replace (upd_delivery_error e j) (store r)).1 r
  end.
Definition delivery_job (j : Job) (res : CommandRunResult) (fired_at_ms : N) : Job :=
  let failed := bool_decide (result_status res = "error") in
  upd_fired (Some fired_at_ms) (if job_was_advanced_before_fire j fired_at_ms then fire_count j - 1 else fire_count j)
    (upd_run (result_status res) (if failed then Some (command_error_summary res) else None) (recent_runs j) j).
Definition fire_command_with_missed (w : World) (j : Job) (fired_at_ms : N) (r : Runner) : Runner * result CommandRunResult text :=
  match runnable_command_job j with
  | Err reason => (r, Err (not_runnable "command" j reason))
  | Ok _ =>
      let res := run_command w j in
      let output := if bool_decide (result_status res = "error") then command_error_summary res else stdout res in
      match deliver w (delivery_job j res fired_at_ms) output with
      | Err error => (set_delivery_error (id j) (Some error) r, Ok res)
      | Ok _ => (set_delivery_error (id j) None r, Ok res)
      end
  end.
Abbreviation Sessions := (string → option SessionView).
Definition accepted (o : DeliveryOutcome) : bool := match o with Delivered | Queued | Duplicate => true | _ => false end.
Definition fire_with_missed (w : World) (sessions : Sessions) (j : Job) (fired_at_ms : N) (r : Runner) : Runner * result bool text :=
  if is_command j then
    let '(r, res) := fire_command_with_missed w j fired_at_ms r in
    (r, match res with Ok _ => Ok true | Err e => Err e end)
  else if job_is_isolated j then
    (r, match runnable_isolated_job j with
        | Err reason => Err (not_runnable "isolated chat" j reason)
        | Ok _ => let chat_id := "cron_" +:+ id j +:+ "_" +:+ pretty (fire_count j) in
                  match deliver_scheduled_turn w j chat_id with Ok _ => Ok true | Err e => Err e end
        end)
  else
    (r, match runnable_chat_id j with
        | Err reason => Err (not_runnable "chat" j reason)
        | Ok chat_id =>
            match sessions chat_id with
            | None => Err (lit ("Chat session " +:+ chat_id +:+ " not found"))
            | Some _ => match deliver_scheduled_turn w j chat_id with Ok o => Ok (accepted o) | Err e => Err e end
            end
        end).
Definition fire_agent_task (w : World) (sessions : Sessions) (j : Job) (final_fire : bool) (now : N) (r : Runner)
  : Runner * DueFireOutcome :=
  let '(r, res) := fire_with_missed w sessions j now r in
  match res with
  | Ok true => (finish_task_after_fire j final_fire (record (id j) "fired" None now r), Fired)
  | Ok false =>
      let '(r, skipped) := record_skipped_after_advance j now r in
      if skipped then (r, Deferred) else (defer_task j now (record (id j) "deferred" None now r), Deferred)
  | Err error => (defer_task j now (record (id j) "deferred" (Some error) now r), Deferred)
  end.

Definition no_trajectory (j : Job) (now : N) (r : Runner) : Runner :=
  defer_invalid_target_task j now (record (id j) "deferred" (Some (lit "no trajectory found")) now r).
(** The sessions as they are when the job may fire, or [None]. *)
Definition ensure_chat_target_fireable (w : World) (j : Job) (chat_id : string) (now : N) (r : Runner)
  : Runner * option Sessions :=
  match chat_fire_status (session_of w chat_id) with
  | Fireable | Busy => (r, Some (session_of w))
  | Missing =>
      if durable j then
        if negb (restore w chat_id) then (no_trajectory j now r, None)
        else match chat_fire_status (restored_session w chat_id) with
             | Fireable | Busy => (r, Some (restored_session w))
             | status =>
                 (defer_invalid_target_task j now
                    (record (id j) "deferred" (Some (lit ("session restore status: " +:+ display_ChatFireStatus status))) now r), None)
             end
      else (handle_unfireable_task j now (lit "chat session not found") r, None)
  | Closed => (handle_unfireable_task j now (lit "chat session is closed") r, None)
  end.
Definition ensure_command_chat_target_fireable (w : World) (j : Job) (cmd : CommandSpec) (now : N) (r : Runner) : Runner * bool :=
  if negb (is_chat_delivery j) then (r, true)
  else match cmd_target cmd with
       | Isolated => (r, true)
       | ExistingChat chat_id =>
           if bool_decide (chat_id = "") then (handle_unfireable_task j now (lit "missing chat_id") r, false)
           else match chat_fire_status (session_of w chat_id) with
                | Fireable | Busy => (r, true)
                | Missing =>
                    if durable j then if restore w chat_id then (r, true) else (no_trajectory j now r, false)
                    else (handle_unfireable_task j now (lit "chat session not found") r, false)
                | Closed => (handle_unfireable_task j now (lit "chat session is closed") r, false)
                end
       end.
Definition run_due_command (w : World) (j : Job) (final_fire : bool) (now : N) (r : Runner) : Runner * option CommandRunResult :=
  let '(r, res) := fire_command_with_missed w j now r in
  match res with
  | Ok res => (r, Some res)
  | Err error =>
      let '(r, handled) := handle_classifiable_fire_error j final_fire now error r in
      (if handled then r else handle_unfireable_task j now error r, None)
  end.
Definition complete_command_fire (j : Job) (res : CommandRunResult) (final_fire : bool) (now : N) (r : Runner)
  : Runner * DueFireOutcome :=
  let failed := bool_decide (result_status res = "error") in
  let r := record (id j) (result_status res) (if failed then Some (command_error_summary res) else None) now r in
  let '(r, retried) :=
    if failed && bool_decide (classify (command_retry_text res) ≠ None)
    then schedule_retry j now (command_retry_text res) r else (r, Ok false) in
  match retried with
  | Ok true => (forget (id j) r, Deferred)
  | _ => (finish_task_after_fire j final_fire r, if bool_decide (result_status res = "fired") then Fired else Deferred)
  end.
Definition handle_due_command_task (w : World) (j : Job) (now : N) (r : Runner) : Runner * bool :=
  match command_spec j with
  | None => (handle_unfireable_task j now (lit "command action is missing") r, false)
  | Some cmd =>
      match runnable_command_job j with
      | Err reason => (handle_unfireable_task j now (lit reason) r, false)
      | Ok _ =>
          let '(r, ready) := ensure_command_chat_target_fireable w j cmd now r in
          if negb ready then (r, false)
          else
            let final_fire := task_final_after_fire j now in
            let '(r, res) := run_due_command w j final_fire now r in
            match res with
            | None => (r, false)
            | Some res => let '(r, o) := complete_command_fire j res final_fire now r in (r, did_fire o)
            end
      end
  end.
Definition handle_due_isolated_task (w : World) (j : Job) (now : N) (r : Runner) : Runner * bool :=
  match runnable_isolated_job j with
  | Err reason => (handle_unfireable_task j now (lit reason) r, false)
  | Ok _ => let '(r, o) := fire_agent_task w (session_of w) j (task_final_after_fire j now) now r in (r, did_fire o)
  end.
Definition handle_due_task (w : World) (j : Job) (now : N) (r : Runner) : Runner * bool :=
  if is_command j then handle_due_command_task w j now r
  else if job_is_isolated j then handle_due_isolated_task w j now r
  else match runnable_chat_id j with
       | Err reason => (handle_unfireable_task j now (lit reason) r, false)
       | Ok chat_id =>
           let '(r, sessions) := ensure_chat_target_fireable w j chat_id now r in
           match sessions with
           | None => (r, false)
           | Some sessions => let '(r, o) := fire_agent_task w sessions j (task_final_after_fire j now) now r in (r, did_fire o)
           end
       end.

(** *** A pass over the store *)

Definition fast_forward_recurring_if_missed (j : Job) (now : N) (r : Runner) : Runner * result bool text :=
  if negb (recurring j) || bool_decide (trigger_at_ms j ≠ None) || (0 <? retry_attempts j) then (r, Ok false)
  else match missed_state j now with
       | None => (r, Ok false)
       | Some s =>
           if is_missed s then
             match advance_last_fired_at_ms s with
             | None => (r, Ok false)
             | Some advance_to_ms =>
                 let '(s, res) := update_fired (id j) advance_to_ms (fire_count j) (store r) in
                 (upd_store s r, match res with Ok _ => Ok true | Err e => Err e end)
             end
           else (r, Ok false)
       end.
Definition defer_for_backpressure (j : Job) (now : N) (r : Runner) : Runner :=
  defer_task j now (record (id j) "deferred" (Some (lit "scheduler at capacity")) now r).

(** One due job; [running] counts the jobs started in this pass in the lane. *)
Definition fire_due_one (w : World) (now : N) (j : Job) (st : Runner * N) : Runner * N :=
  let '(r, running) := st in
  let '(r, ff) := fast_forward_recurring_if_missed j now r in
  match ff with
  | Ok true | Err _ => (r, running)
  | Ok false =>
      if task_can_use_cron_lane j && (N.max 1 (max_concurrent_runs cfg) <=? running)
      then (defer_for_backpressure j now r, running)
      else if negb (task_can_use_cron_lane j) then ((handle_due_task w j now r).1, running)
      else
        let r1 := (handle_due_task w j now {| store := store r; deferred_until_ms := ∅ |}).1 in
        let d := match deferred_until_ms r1 !! id j with
                 | Some _ => deferred_until_ms r1 ∪ deferred_until_ms r
                 | None => delete (id j) (deferred_until_ms r)
                 end in
        ({| store := store r1; deferred_until_ms := d |}, running + 1)
  end.
Definition due_tasks (now : N) (r : Runner) : list Job :=
  filter (λ j, task_is_due r j now || task_needs_missed_fast_forward j now = true) (store_list (store r)).
Definition fire_due_tasks (ws : string → World) (now : N) (r : Runner) : Runner :=
  if negb (sc_enabled cfg) || shutdown_flag then r
  else (foldl (λ st j, fire_due_one (ws (id j)) now j st) (r, 0) (due_tasks now r)).1.

(** When the loop of [run] wakes up next. *)
Definition next_wake (now : N) (r : Runner) : N :=
  default (now + DEFAULT_SLEEP_MS)
    (foldl (λ best j, min_option best (fire_at r j now)) None (store_list (store r))).

(** *** At the start, and on demand *)

Definition resume_recurring_task (j : Job) (now : N) (r : Runner) : Runner :=
  if negb (time_repeating (trigger j)) then r
  else if match trigger_at_ms j with Some t => t <=? now | None => false end then r
  else match missed_state j now with
       | None => r
       | Some s =>
           if is_missed s then
             match advance_last_fired_at_ms s with
             | None => r
             | Some a => upd_store (update_fired (id j) a (fire_count j) (store r)).1 r
             end
           else r
       end.
Definition catch_up_one (w : World) (now : N) (r : Runner) (j : Job) : Runner :=
  if negb (durable j) then r
  else if recurring j then resume_recurring_task j now r
  else if negb (missed_one_shot_task j now) then r
  else
    let go sessions :=
      let '(r, res) := fire_with_missed w sessions j now r in
      match res with
      | Ok true => remove_final j r
      | Ok false => defer_task j now (record (id j) "deferred" (Some (lit "delivery not accepted")) now r)
      | Err error => defer_task j now (record (id j) "deferred" (Some error) now r)
      end in
    match job_chat_id j with
    | Some chat_id => if restore w chat_id then go (restored_session w) else no_trajectory j now r
    | None => if negb (job_is_isolated j) && negb (command_job_has_non_chat_delivery j) then r else go (session_of w)
    end.
Definition catch_up (ws : string → World) (now : N) (r : Runner) : Runner :=
  if shutdown_flag then r else foldl (λ r j, catch_up_one (ws (id j)) now r j) r (store_list (store r)).

Definition new_runner (s : CronStore) : Runner := {| store := s; deferred_until_ms := ∅ |}.
Definition fire_store_job_now (w : World) (var : option text) (i : string) (now : N) (s : CronStore) : CronStore * result bool text :=
  if negb (runner_enabled cfg var) then (s, Ok false)
  else match store_get i s with
       | None => (s, Err (not_found i))
       | Some j =>
           let '(r, fired) := handle_due_task w (upd_trigger_at (Some now) j) now (new_runner s) in
           if fired then (store r, Ok true)
           else match store_get i (store r) with
                | Some stored =>
                    if bool_decide (last_status stored = Some "deferred") then
                      let '(s, res) := store_replace (upd_trigger_at (Some now) stored) (store r) in
                      (s, match res with Ok _ => Ok false | Err e => Err e end)
                    else (store r, Ok false)
                | None => (store r, Ok false)
                end
       end.
End runner.
