(* ===== verification/CronRunnerProps.v ===== *)
(** * Properties of the runner of scheduled jobs

    Each handler is a sequence of primitive changes to one job; after a handled job nothing is due
    at the same time; retries and records are bounded. *)

From stdpp Require Import gmap strings list pretty.
From S2P Require Import Prelude RustStr CronJob CronSchedule CronScheduleProps CronRunner.
Local Open Scope N_scope.

(** ** The store *)

Lemma persist_jobs s : jobs (persist s).1 = jobs s.
Proof. unfold persist. repeat case_match; done. Qed.
Lemma store_add_jobs j s : jobs (store_add j s).1 = <[id j := j]> (jobs s).
Proof. unfold store_add. by rewrite persist_jobs. Qed.
Lemma store_replace_jobs j s j0 : jobs s !! id j = Some j0 → jobs (store_replace j s).1 = <[id j := j]> (jobs s).
Proof.
  intros Hj. unfold store_replace. rewrite Hj. pose proof (persist_jobs (set_jobs (<[id j := j]> (jobs s)) s)) as Hp.
  by destruct (persist _).
Qed.
Lemma store_remove_jobs i s : jobs (store_remove i s).1 = delete i (jobs s).
Proof.
  unfold store_remove. destruct (jobs s !! i) as [j|] eqn:Hj; [|simpl; by rewrite delete_id].
  pose proof (persist_jobs (set_jobs (delete i (jobs s)) s)) as Hp. by destruct (persist _).
Qed.
Lemma update_fired_jobs i l c s j :
  jobs s !! i = Some j → jobs (update_fired i l c s).1 = <[i := upd_fired (Some l) c j]> (jobs s).
Proof. intros Hj. unfold update_fired. rewrite Hj. by rewrite persist_jobs. Qed.

Lemma with_record_id st e now cap j : id (with_record st e now cap j) = id j.
Proof. unfold with_record. repeat case_match; done. Qed.

Lemma record_run_jobs i st e now cap s j :
  jobs s !! i = Some j → id j = i → jobs (record_run i st e now cap s).1 = <[i := with_record st e now cap j]> (jobs s).
Proof.
  intros Hj Hid. unfold record_run, store_get. rewrite Hj.
  pose proof (store_replace_jobs (with_record st e now cap j) s j) as Hr. rewrite with_record_id, Hid in Hr. specialize (Hr Hj).
  by destruct (store_replace _ _).
Qed.
Lemma record_run_missing i st e now cap s : jobs s !! i = None → (record_run i st e now cap s).1 = s.
Proof. intros Hj. unfold record_run, store_get. by rewrite Hj. Qed.

(** Every job is kept under its id. *)
Definition store_wf (s : CronStore) : Prop := ∀ i j, jobs s !! i = Some j → id j = i.

(** The last record is the one just made. *)
Lemma last_add_run adv r cap runs : 0 < cap → ∃ l, last (add_run adv r cap runs) = Some l ∧ at_ms l = at_ms r.
Proof.
  intros Hcap. assert (last (cap_recent_runs (runs ++ [r]) cap) = Some r) as Hl.
  { unfold cap_recent_runs. rewrite (proj2 (N.eqb_neq _ _)) by lia. destruct (N.ltb_spec cap (Nlen (runs ++ [r]))) as [Hlt|]; [|apply last_snoc].
    rewrite length_app. cbn [length]. unfold Nlen in Hlt. rewrite length_app in Hlt. cbn [length] in Hlt.
    rewrite drop_app_le by lia. apply last_snoc. }
  unfold add_run. destruct (last runs) as [l|]; [|by exists r]. destruct (adv && _); [|by exists r].
  exists r. by rewrite last_snoc.
Qed.

(** The records never outgrow their cap. *)
Lemma add_run_bounded adv r cap runs : Nlen runs ≤ cap → Nlen (add_run adv r cap runs) ≤ cap.
Proof.
  intros Hle. assert (Nlen (cap_recent_runs (runs ++ [r]) cap) ≤ cap) as Hc.
  { unfold cap_recent_runs. destruct (N.eqb_spec cap 0) as [->|]; [unfold Nlen; simpl; lia|].
    destruct (N.ltb_spec cap (Nlen (runs ++ [r]))) as [Hlt|]; [|done]. unfold Nlen. rewrite length_drop. unfold Nlen in Hlt. lia. }
  unfold add_run. destruct (last runs) as [l|] eqn:Hl; [|done]. destruct (adv && _); [|done].
  apply last_Some in Hl as [l' ->]. rewrite removelast_last. unfold Nlen in *. rewrite length_app in *. simpl in *. lia.
Qed.

Create HintDb prims.

Section runner.
Context `{ScheduleLibLaws} (cfg : SchedulerConfig) (jitter_cfg : JitterConfig) (shutdown_flag : bool).

(** ** What waits *)

Abbreviation due := (task_is_due cfg jitter_cfg).
Abbreviation needs := (task_needs_missed_fast_forward cfg).

Definition quiet (r : Runner) (j : Job) (now : N) : Prop := due r j now = false ∧ needs j now = false.

Lemma not_due r j now : (∀ t, fire_at cfg jitter_cfg r j now = Some t → now < t) → due r j now = false.
Proof. intros Ht. unfold task_is_due. destruct (fire_at _ _ _ _ _) as [t|]; [|done]. apply N.leb_gt. by apply Ht. Qed.

(** A deferred job waits, unless it was asked for again after its last record. *)
Lemma deferred_waits r j now d :
  deferred_until_ms r !! id j = Some d → now < d →
  (∀ t, trigger_at_ms j = Some t → t ≤ now → ∃ l, last (recent_runs j) = Some l ∧ t ≤ at_ms l) →
  due r j now = false.
Proof.
  intros Hd Hlt Hrec. apply not_due. intros t. unfold fire_at. destruct (_ && is_paused j); [done|].
  assert (fresh_trigger r j now = None) as ->.
  { unfold fresh_trigger. destruct (trigger_at_ms j) as [t'|] eqn:Htr; [|done]. cbn [mbind option_bind].
    destruct (N.leb_spec t' now) as [Hle|]; [|done]. destruct (Hrec t' eq_refl Hle) as (l & -> & Hl).
    rewrite (proj2 (N.ltb_ge _ _) Hl), Hd. done. }
  rewrite Hd. by intros [= <-].
Qed.

(** A job with a later trigger and an open retry waits for it. *)
Lemma retry_waits r j now t0 :
  deferred_until_ms r !! id j = None → trigger_at_ms j = Some t0 → now < t0 → 0 < retry_attempts j → due r j now = false.
Proof.
  intros Hd Htr Hlt Hret. apply not_due. intros t. unfold fire_at, fresh_trigger. rewrite Hd, Htr. cbn [mbind option_bind].
  rewrite (bool_decide_eq_false_2 (Some t0 = None)) by done. cbn [andb]. rewrite (proj2 (N.leb_gt _ _) Hlt), (proj2 (N.ltb_lt _ _) Hret).
  rewrite bool_decide_eq_true_2 by done. by intros [= <-].
Qed.

Lemma missed_state_due j now s : missed_state cfg j now = Some s → is_missed s = true →
  ∃ due, next_run_ms j (interval_base j) scheduler_timezone = Some due ∧ due ≤ now.
Proof.
  unfold missed_state, recurring_missed_grace_state. destruct (negb (recurring j)); [done|].
  destruct (next_run_ms j (interval_base j) _) as [due|]; [|done]. cbn [mbind option_bind].
  destruct (next_run_ms j due _) as [after|]; [|done]. cbn [mbind option_bind].
  destruct (N.ltb_spec now due) as [|Hle]; [by intros [= <-]|]. by exists due.
Qed.

(** A job whose next run lies ahead is neither missed nor planned before. *)
Definition runs_ahead (j : Job) (now : N) : Prop :=
  ∀ t, next_run_ms j (interval_base j) scheduler_timezone = Some t → now < t.

Lemma ahead_not_missed j now s : runs_ahead j now → missed_state cfg j now = Some s → is_missed s = false.
Proof.
  intros Ha Hs. destruct (is_missed s) eqn:Hm; [|done]. destruct (missed_state_due _ _ _ Hs Hm) as (due & Hd & Hle).
  apply Ha in Hd. lia.
Qed.
Lemma ahead_needs_nothing j now : runs_ahead j now → needs j now = false.
Proof.
  intros Ha. unfold task_needs_missed_fast_forward. destruct (_ || _ || _); [done|].
  destruct (missed_state cfg j now) as [s|] eqn:Hs; [|done]. by eapply ahead_not_missed.
Qed.
Lemma planned_ahead j now t : recurring j = true → runs_ahead j now → planned_fire jitter_cfg j = Some t → now < t.
Proof.
  intros Hrec Ha. unfold planned_fire. rewrite Hrec. cbn [orb]. unfold jittered_next_run_ms_for. intros Ht.
  destruct (trigger j) eqn:Htr; try done; [|by apply Ha|by apply Ha].
  destruct (next_run_ms j (interval_base j) _) as [t1|] eqn:Hn; [|done]. cbn [mbind option_bind] in Ht. apply Ha in Hn.
  destruct (next_run_ms j t1 _); injection Ht as <-; lia.
Qed.

(** A recurring job with nothing pending waits for its next run. *)
Lemma ahead_waits r j now :
  deferred_until_ms r !! id j = None → recurring j = true → runs_ahead j now →
  (∀ t, trigger_at_ms j = Some t → now < t) → due r j now = false.
Proof.
  intros Hd Hrec Ha Htrig. apply not_due. intros t. unfold fire_at. destruct (_ && is_paused j); [done|].
  assert (fresh_trigger r j now = None) as ->.
  { unfold fresh_trigger. destruct (trigger_at_ms j) as [t'|] eqn:Htr; [|done]. cbn [mbind option_bind].
    by rewrite (proj2 (N.leb_gt _ _) (Htrig t' eq_refl)). }
  rewrite Hd. destruct (_ && _); [apply Htrig|]. rewrite (ahead_needs_nothing j now Ha). unfold scheduled_fire_at_ms.
  destruct (if is_paused j then trigger_at_ms j else None) as [p|] eqn:Hp.
  { destruct (is_paused j); [|done]. intros [= <-]. by apply Htrig. }
  assert (after_missed cfg j now = None) as ->.
  { unfold after_missed. destruct (_ && _); [|done]. destruct (missed_state cfg j now) as [s|] eqn:Hs; [|done]. cbn [mbind option_bind].
    by rewrite (ahead_not_missed _ _ _ Ha Hs). }
  destruct (planned_fire jitter_cfg j) as [p|] eqn:Hpl, (trigger_at_ms j) as [q|]; cbn [min_option]; intros [= <-].
  - pose proof (planned_ahead _ _ _ Hrec Ha Hpl). pose proof (Htrig q eq_refl). lia.
  - by eapply planned_ahead.
  - by apply Htrig.
Qed.

(** ** Jobs after a record *)

(** What the schedule of a job depends on. *)
Record same_schedule (j k : Job) : Prop := {
  ss_trigger : trigger j = trigger k;
  ss_recurring : recurring j = recurring k;
  ss_last : last_fired_at_ms j = last_fired_at_ms k;
  ss_count : fire_count j = fire_count k;
  ss_created : created_at_ms j = created_at_ms k;
}.
Lemma next_run_same j k from tz : same_schedule j k → next_run_ms j from tz = next_run_ms k from tz.
Proof.
  intros [Ht Hr Hl Hf Hc]. unfold next_run_ms, cron_next_run_ms, interval_next_run_ms, once_next_run_ms, interval_base, has_fired.
  by rewrite Ht, Hr, Hl, Hf, Hc.
Qed.
Lemma cron_anchor_same fuel j k a n now tz : same_schedule j k → cron_anchor fuel j a n now tz = cron_anchor fuel k a n now tz.
Proof.
  intros Hs. revert a n. induction fuel as [|fuel IH]; intros a n; simpl; [done|]. rewrite (next_run_same _ _ _ _ Hs).
  destruct (n <=? now); [|done]. destruct (next_run_ms k n tz); [|done]. simpl. by rewrite IH.
Qed.
Lemma missed_state_same j k now : same_schedule j k → missed_state cfg j now = missed_state cfg k now.
Proof.
  intros Hs. pose proof Hs as [Ht Hr Hl Hf Hc].
  assert (interval_base j = interval_base k) as Hb by (unfold interval_base; by rewrite Hl, Hc).
  unfold missed_state, recurring_missed_grace_state. rewrite Hr, Hb. destruct (negb _); [done|].
  rewrite (next_run_same _ _ (interval_base k) _ Hs). destruct (next_run_ms k (interval_base k) _) as [due|]; [|done]. cbn [mbind option_bind].
  rewrite (next_run_same _ _ due _ Hs). destruct (next_run_ms k due _) as [after|]; [|done]. cbn [mbind option_bind].
  rewrite (next_run_same _ _ now _ Hs). unfold missed_fast_forward_anchor_ms. by rewrite Ht, Hb, (cron_anchor_same _ _ _ _ _ _ _ Hs).
Qed.
Lemma needs_same j k now :
  same_schedule j k → trigger_at_ms j = trigger_at_ms k → retry_attempts j = retry_attempts k → needs j now = needs k now.
Proof.
  intros Hs Ht Hr. unfold task_needs_missed_fast_forward. by rewrite (ss_recurring _ _ Hs), Ht, Hr, (missed_state_same _ _ _ Hs).
Qed.
Lemma needs_upd_run st e runs j now : needs (upd_run st e runs j) now = needs j now.
Proof. by apply needs_same. Qed.
Lemma needs_upd_delivery_error e j now : needs (upd_delivery_error e j) now = needs j now.
Proof. by apply needs_same. Qed.

Abbreviation cap := (recent_runs_cap cfg).
Abbreviation rec := (record cfg).

Lemma rec_jobs i st e now r j :
  jobs (store r) !! i = Some j → id j = i → jobs (store (rec i st e now r)) = <[i := with_record st e now cap j]> (jobs (store r)).
Proof. apply record_run_jobs. Qed.
Lemma rec_lookup i st e now r j :
  jobs (store r) !! i = Some j → id j = i → jobs (store (rec i st e now r)) !! i = Some (with_record st e now cap j).
Proof. intros Hj Hid. erewrite rec_jobs by done. apply lookup_insert_eq. Qed.

Lemma deferred_record e now c j :
  with_record "deferred" e now c j
  = let runs := add_run (job_was_advanced_before_fire j now) {| at_ms := now; run_status := "deferred"; run_error := e |} c (recent_runs j) in
    let j' := upd_run "deferred" e runs j in
    if is_command j then j' else upd_trigger_at (Some (default now (trigger_at_ms j))) j'.
Proof.
  unfold with_record. rewrite (bool_decide_eq_true_2 ("deferred"%string = "deferred"%string)) by done.
  rewrite (bool_decide_eq_false_2 ("deferred"%string = "fired"%string)) by done.
  rewrite (bool_decide_eq_false_2 ("deferred"%string = "error"%string)) by done. cbv zeta. cbn [andb orb].
  change (is_command (upd_run _ _ _ j)) with (is_command j). by destruct (is_command j).
Qed.
Lemma deferred_record_needs e now j : needs j now = false → needs (with_record "deferred" e now cap j) now = false.
Proof.
  intros Hn. rewrite deferred_record. cbv zeta. destruct (is_command j); [by rewrite needs_upd_run|].
  unfold task_needs_missed_fast_forward. cbn [upd_trigger_at trigger_at_ms]. rewrite bool_decide_eq_true_2 by done. by rewrite orb_true_r.
Qed.
Lemma deferred_record_last e now j :
  0 < cap → ∃ l, last (recent_runs (with_record "deferred" e now cap j)) = Some l ∧ at_ms l = now.
Proof.
  intros Hcap. rewrite deferred_record. cbv zeta.
  destruct (last_add_run (job_was_advanced_before_fire j now) {| at_ms := now; run_status := "deferred"; run_error := e |} cap (recent_runs j) Hcap)
    as (l & Hl & Hat). exists l. by destruct (is_command j).
Qed.

(** Where a fire, good or bad, leaves a job that was not advanced before. *)
Lemma fired_record st e now j :
  st = "fired" ∨ st = "error" → job_was_advanced_before_fire j now = false →
  let j' := with_record st e now cap j in
  last_fired_at_ms j' = Some now ∧ recurring j' = recurring j ∧ trigger j' = trigger j
  ∧ ∀ t, trigger_at_ms j' = Some t → now < t.
Proof.
  intros Hst Hadv. unfold with_record. rewrite Hadv.
  assert (bool_decide (st = "deferred") = false) as -> by (apply bool_decide_eq_false_2; destruct Hst; by subst).
  assert (bool_decide (st = "fired") || bool_decide (st = "error") = true) as -> by (destruct Hst; by subst).
  cbn [andb]. assert (∀ k : Job, trigger_at_ms k = trigger_at_ms j →
    ∀ t, trigger_at_ms (if match trigger_at_ms k with Some t => t <=? now | None => false end then upd_trigger_at None k else k) = Some t → now < t) as Hk.
  { intros k Hk t. rewrite Hk. destruct (trigger_at_ms j) as [t0|] eqn:Ht0; [|rewrite Hk; done].
    destruct (N.leb_spec t0 now); [done|]. rewrite Hk. by intros [= <-]. }
  cbv zeta. split; [by repeat case_match|]. split; [by repeat case_match|]. split; [by repeat case_match|].
  apply Hk. by case_match.
Qed.
Lemma fired_runs_ahead now j : now ≤ TIME_BOUND → last_fired_at_ms j = Some now → runs_ahead j now.
Proof.
  intros Hnow Hl t Ht. unfold interval_base in Ht. rewrite Hl in Ht. cbn in Ht.
  eapply next_run_later; [exact Hnow| |exact Ht]. destruct (trigger j); try done. unfold has_fired. by rewrite Hl.
Qed.

(** ** What a handled job leaves behind *)

Definition settled (i : string) (now : N) (r : Runner) : Prop :=
  ∀ j, jobs (store r) !! i = Some j → id j = i ∧ quiet r j now.

Lemma settled_gone i now r : jobs (store r) !! i = None → settled i now r.
Proof. intros Hn j. by rewrite Hn. Qed.

Lemma settled_deferred i e now d r j :
  0 < cap → jobs (store r) !! i = Some j → id j = i → needs j now = false → now < d →
  settled i now (upd_deferred (<[i := d]> (deferred_until_ms r)) (rec i "deferred" e now r)).
Proof.
  intros Hcap Hj Hid Hn Hd j'. cbn [upd_deferred store]. rewrite (rec_lookup _ _ _ _ _ _ Hj Hid). intros [= <-]. rewrite with_record_id.
  split; [done|]. split; [|by apply deferred_record_needs]. eapply (deferred_waits _ _ now d); [|done|].
  - cbn. rewrite with_record_id, Hid. apply lookup_insert_eq.
  - intros t _ Ht. destruct (deferred_record_last e now j Hcap) as (l & Hl & Hat). exists l. split; [done|lia].
Qed.

Lemma settled_fired i st e now r j :
  now ≤ TIME_BOUND → jobs (store r) !! i = Some j → id j = i → recurring j = true →
  job_was_advanced_before_fire j now = false → st = "fired" ∨ st = "error" →
  settled i now (forget i (rec i st e now r)).
Proof.
  intros Hnow Hj Hid Hrec Hadv Hst j'. cbn [forget upd_deferred store]. rewrite (rec_lookup _ _ _ _ _ _ Hj Hid). intros [= <-].
  rewrite with_record_id. split; [done|]. destruct (fired_record st e now j Hst Hadv) as (Hl & Hr & _ & Htr).
  pose proof (fired_runs_ahead now _ Hnow Hl) as Ha. split; [|by apply ahead_needs_nothing].
  apply ahead_waits; [|by rewrite Hr|done|done]. cbn. rewrite with_record_id, Hid. apply lookup_delete_eq.
Qed.

Lemma remove_task_gone j r : jobs (store (remove_task j r)) !! id j = None.
Proof.
  unfold remove_task. pose proof (store_remove_jobs (id j) (store r)) as Hr. destruct (store_remove _ _) as [s res]. cbn in Hr.
  destruct res; cbn; rewrite Hr; apply lookup_delete_eq.
Qed.
Lemma remove_final_gone j r : jobs (store (remove_final j r)) !! id j = None.
Proof. unfold remove_final. cbn. rewrite store_remove_jobs. apply lookup_delete_eq. Qed.

(** A job asked to retry waits for its delay, even when the store could not be written. *)
Lemma schedule_retry_cases j now error r r' res j0 :
  schedule_retry cfg shutdown_flag j now error r = (r', res) → jobs (store r) !! id j = Some j0 → id j0 = id j → now < u64_max →
  (r' = r ∧ res = Ok false)
  ∨ ∃ j', jobs (store r') = <[id j := j']> (jobs (store r)) ∧ deferred_until_ms r' = deferred_until_ms r ∧ id j' = id j
          ∧ retry_attempts j0 < max_attempts (retry cfg) ∧ retry_attempts j' = sat_add u32_max (retry_attempts j0) 1
          ∧ recent_runs j' = recent_runs j0 ∧ last_status j' = last_status j0
          ∧ ∃ t, trigger_at_ms j' = Some t ∧ now < t.
Proof.
  unfold schedule_retry, store_get. intros Hs Hj Hid Hnow. destruct (classify error); [|left; by simplify_eq].
  destruct shutdown_flag; [left; by simplify_eq|]. rewrite Hj in Hs.
  destruct (retry_delay_ms (retry cfg) (retry_attempts j0)) as [delay|] eqn:Hd; [|left; by simplify_eq].
  set (k := upd_trigger_at _ _) in Hs. assert (id k = id j) as Hk by done.
  pose proof (store_replace_jobs k (store r) j0) as Hr. rewrite Hk in Hr. specialize (Hr Hj).
  destruct (store_replace k (store r)) as [s0 res0]. simplify_eq. right. exists k. split; [done|]. split; [done|]. split; [done|].
  unfold retry_delay_ms in Hd. destruct (N.leb_spec (max_attempts (retry cfg)) (retry_attempts j0)); [done|]. split; [done|].
  split; [done|]. split; [done|]. split; [done|]. eexists. split; [done|]. destruct (match backoff_ms _ !! _ with Some _ => _ | None => _ end) as [d|]; [|done].
  cbn [mbind option_bind] in Hd. destruct (N.ltb_spec 0 d); [|done]. injection Hd as <-. unfold sat_add. lia.
Qed.
Lemma settled_retry i now r j t :
  jobs (store r) !! i = Some j → id j = i → trigger_at_ms j = Some t → now < t → 0 < retry_attempts j →
  settled i now (forget i r).
Proof.
  intros Hj Hid Ht Hlt Hret j'. cbn [forget upd_deferred store]. rewrite Hj. intros [= <-]. split; [done|]. split.
  - eapply retry_waits; [|done|done|done]. cbn. rewrite Hid. apply lookup_delete_eq.
  - unfold task_needs_missed_fast_forward. rewrite Ht. cbn. by rewrite orb_true_r.
Qed.

(** What [exec_action.rs] answers for a command that ran. *)
Definition known_status (w : World) : Prop := ∀ j, result_status (run_command w j) = "fired" ∨ result_status (run_command w j) = "error".

(** ** Every handler is a sequence of primitive changes *)

Inductive prim (i : string) (now : N) : Runner → Runner → Prop :=
  | prim_record st e r : st ≠ "advanced"%string → prim i now r (rec i st e now r)
  | prim_remove r : prim i now r (upd_store (store_remove i (store r)).1 r)
  | prim_forget r : prim i now r (forget i r)
  | prim_defer d r : prim i now r (upd_deferred (<[i := d]> (deferred_until_ms r)) r)
  | prim_delivery e r : prim i now r (set_delivery_error i e r)
  | prim_retry j error r : id j = i → prim i now r (schedule_retry cfg shutdown_flag j now error r).1.
#[local] Hint Constructors prim : core.
Abbreviation prims i now := (rtc (prim i now)).

Lemma prims_one i now r r' : prim i now r r' → prims i now r r'.
Proof. apply rtc_once. Qed.
#[local] Hint Resolve prims_one : core.
Lemma prims_more i now r0 r r' : prims i now r0 r → prim i now r r' → prims i now r0 r'.
Proof. apply rtc_r. Qed.
#[local] Hint Resolve prims_more : core.

Lemma remove_task_prims j now r0 r : prims (id j) now r0 r → prims (id j) now r0 (remove_task j r).
Proof.
  intros Hr. unfold remove_task. pose proof (prim_remove (id j) now r) as Hp. destruct (store_remove _ _) as [s res]. cbn [fst] in Hp.
  destruct res; eauto.
Qed.
Lemma remove_final_prims j now r0 r : prims (id j) now r0 r → prims (id j) now r0 (remove_final j r).
Proof. intros Hr. eapply prims_more; [done|]. apply prim_remove. Qed.
Lemma record_prims i st e now r0 r : prims i now r0 r → st ≠ "advanced"%string → prims i now r0 (rec i st e now r).
Proof. eauto. Qed.
Lemma forget_prims i now r0 r : prims i now r0 r → prims i now r0 (forget i r).
Proof. eauto. Qed.
Lemma defer_prims i d now r0 r : prims i now r0 r → prims i now r0 (upd_deferred (<[i := d]> (deferred_until_ms r)) r).
Proof. eauto. Qed.
Lemma defer_task_prims j now now' r0 r : prims (id j) now r0 r → prims (id j) now r0 (defer_task j now' r).
Proof. intros Hr. unfold defer_task. by apply defer_prims. Qed.
Lemma defer_invalid_prims j now now' r0 r : prims (id j) now r0 r → prims (id j) now r0 (defer_invalid_target_task j now' r).
Proof. intros Hr. unfold defer_invalid_target_task. by apply defer_prims. Qed.
#[local] Hint Extern 1 (_ ≠ _) => done : prims.
#[local] Hint Resolve defer_task_prims defer_invalid_prims : prims.
#[local] Hint Resolve remove_task_prims remove_final_prims record_prims forget_prims defer_prims : prims.

Lemma finish_prims j final now r0 r : prims (id j) now r0 r → prims (id j) now r0 (finish_task_after_fire j final r).
Proof. intros Hr. unfold finish_task_after_fire. destruct final; [|destruct (negb _)]; auto with prims. Qed.
Lemma unfireable_prims j now reason r0 r : prims (id j) now r0 r → prims (id j) now r0 (handle_unfireable_task cfg j now reason r).
Proof. intros Hr. unfold handle_unfireable_task. destruct (_ || _); auto with prims. Qed.
Lemma no_trajectory_prims j now r0 r : prims (id j) now r0 r → prims (id j) now r0 (no_trajectory cfg j now r).
Proof. intros Hr. unfold no_trajectory. auto with prims. Qed.
#[local] Hint Resolve finish_prims unfireable_prims no_trajectory_prims : prims.

Lemma retry_prims j now error r0 r r' res :
  schedule_retry cfg shutdown_flag j now error r = (r', res) → prims (id j) now r0 r → prims (id j) now r0 r'.
Proof. intros Hs Hr. eapply prims_more; [done|]. pose proof (prim_retry (id j) now j error r eq_refl) as Hp. by rewrite Hs in Hp. Qed.
Lemma fire_error_prims j final now error r0 r r' b :
  handle_classifiable_fire_error cfg shutdown_flag j final now error r = (r', b) → prims (id j) now r0 r → prims (id j) now r0 r'.
Proof.
  unfold handle_classifiable_fire_error. destruct (classify error); [|intros [= <- <-]; done].
  destruct (schedule_retry _ _ _ _ _ _) as [k1 res] eqn:Hs. intros Heq Hr.
  assert (prims (id j) now r0 k1) as Hr1 by (eapply retry_prims; eauto with prims).
  destruct res as [[]|]; injection Heq as <- <-; [auto with prims|destruct final; [|destruct (negb _)]; auto with prims..].
Qed.
Lemma skipped_prims j now r0 r r' b :
  record_skipped_after_advance cfg j now r = (r', b) → prims (id j) now r0 r → prims (id j) now r0 r'.
Proof. unfold record_skipped_after_advance. destruct (negb _); intros [= <- <-]; auto with prims. Qed.
Lemma fire_command_prims w j now r0 r r' res :
  fire_command_with_missed w j now r = (r', res) → prims (id j) now r0 r → prims (id j) now r0 r'.
Proof. unfold fire_command_with_missed. repeat case_match; intros [= <- <-] Hr; eauto. Qed.
Lemma fire_prims w sessions j now r0 r r' res :
  fire_with_missed w sessions j now r = (r', res) → prims (id j) now r0 r → prims (id j) now r0 r'.
Proof.
  unfold fire_with_missed. destruct (is_command j).
  - destruct (fire_command_with_missed w j now r) as [r1 res1] eqn:Hf. intros [= <- <-]. by eapply fire_command_prims.
  - destruct (job_is_isolated j); by intros [= <- <-].
Qed.
Lemma fire_agent_prims w sessions j final now r0 r r' o :
  fire_agent_task cfg w sessions j final now r = (r', o) → prims (id j) now r0 r → prims (id j) now r0 r'.
Proof.
  unfold fire_agent_task. destruct (fire_with_missed _ _ _ _ _) as [r1 res] eqn:Hf. intros Heq Hr.
  pose proof (fire_prims _ _ _ _ _ _ _ _ Hf Hr) as Hr1. destruct res as [[]|].
  - injection Heq as <- <-. auto with prims.
  - destruct (record_skipped_after_advance _ _ _ _) as [r2 sk] eqn:Hsk. pose proof (skipped_prims _ _ _ _ _ _ Hsk Hr1).
    destruct sk; injection Heq as <- <-; auto with prims.
  - injection Heq as <- <-. auto with prims.
Qed.
Lemma ensure_chat_prims w j chat now r r' o :
  ensure_chat_target_fireable cfg w j chat now r = (r', o) → prims (id j) now r r'.
Proof.
  unfold ensure_chat_target_fireable.
  repeat case_match; intros [= <- <-]; first [apply rtc_refl|solve [auto 6 using rtc_refl with prims]].
Qed.
Lemma ensure_command_prims w j cmd now r r' b :
  ensure_command_chat_target_fireable cfg w j cmd now r = (r', b) → prims (id j) now r r'.
Proof.
  unfold ensure_command_chat_target_fireable.
  repeat case_match; intros [= <- <-]; first [apply rtc_refl|solve [auto using rtc_refl with prims]].
Qed.
Lemma run_due_prims w j final now r0 r r' o :
  run_due_command cfg shutdown_flag w j final now r = (r', o) → prims (id j) now r0 r → prims (id j) now r0 r'.
Proof.
  unfold run_due_command. destruct (fire_command_with_missed _ _ _ _) as [r1 res] eqn:Hf. intros Heq Hr.
  pose proof (fire_command_prims _ _ _ _ _ _ _ Hf Hr) as Hr1. destruct res as [res|error]; [by injection Heq as <- <-|].
  destruct (handle_classifiable_fire_error _ _ _ _ _ _ _) as [r2 b] eqn:He. pose proof (fire_error_prims _ _ _ _ _ _ _ _ He Hr1).
  injection Heq as <- <-. destruct b; auto with prims.
Qed.
Lemma complete_prims j res final now r0 r r' o :
  result_status res ≠ "advanced"%string → complete_command_fire cfg shutdown_flag j res final now r = (r', o) → prims (id j) now r0 r → prims (id j) now r0 r'.
Proof.
  unfold complete_command_fire. intros Hst Heq Hr. revert Heq. destruct (if bool_decide _ && _ then _ else _) as [r1 retried] eqn:Hs.
  assert (prims (id j) now r0 r1) as Hr1.
  { destruct (bool_decide _ && _); [eapply retry_prims; [done|auto with prims]|]. injection Hs as <- <-. auto with prims. }
  destruct retried as [[]|]; intros [= <- <-]; auto with prims.
Qed.
Lemma run_due_status w j final now r r' res : run_due_command cfg shutdown_flag w j final now r = (r', Some res) → res = run_command w j.
Proof.
  unfold run_due_command, fire_command_with_missed. destruct (runnable_command_job j) as [[]|].
  - by destruct (deliver w _ _); intros [= _ <-].
  - by destruct (handle_classifiable_fire_error _ _ _ _ _ _ _).
Qed.
Lemma handle_prims w j now r : known_status w → prims (id j) now r (handle_due_task cfg shutdown_flag w j now r).1.
Proof.
  intros Hw. unfold handle_due_task, handle_due_command_task, handle_due_isolated_task. destruct (is_command j); [|destruct (job_is_isolated j)].
  - destruct (command_spec j) as [cmd|]; [|simpl; auto using rtc_refl with prims].
    destruct (runnable_command_job j); [|simpl; auto using rtc_refl with prims].
    destruct (ensure_command_chat_target_fireable _ _ _ _ _ _) as [r1 ready] eqn:He. apply ensure_command_prims in He.
    destruct ready; [|done]. cbn [negb]. destruct (run_due_command _ _ _ _ _ _ _) as [r2 o] eqn:Hr. pose proof (run_due_prims _ _ _ _ _ _ _ _ Hr He) as Hr2.
    destruct o as [res|]; [|done]. apply run_due_status in Hr as ->.
    destruct (complete_command_fire _ _ _ _ _ _ _) as [r3 o] eqn:Hc. eapply complete_prims in Hc; [done| |done]. by destruct (Hw j) as [->| ->].
  - destruct (runnable_isolated_job j); [|simpl; auto using rtc_refl with prims].
    destruct (fire_agent_task _ _ _ _ _ _ _) as [r1 o] eqn:Hf. eapply fire_agent_prims in Hf; [done|apply rtc_refl].
  - destruct (runnable_chat_id j) as [chat|]; [|simpl; auto using rtc_refl with prims].
    destruct (ensure_chat_target_fireable _ _ _ _ _ _) as [r1 o] eqn:He. apply ensure_chat_prims in He.
    destruct o as [sessions|]; [|done]. destruct (fire_agent_task _ _ _ _ _ _ _) as [r2 o] eqn:Hf. by eapply fire_agent_prims in Hf.
Qed.

(** ** A handled job waits *)

(** The stored job is the one being handled, up to the record of its last delivery. *)
Record stored_as (j : Job) (now : N) (r : Runner) (k : Job) : Prop := {
  sa_lookup : jobs (store r) !! id j = Some k;
  sa_id : id k = id j;
  sa_needs : needs k now = false;
  sa_recurring : recurring k = recurring j;
  sa_advanced : job_was_advanced_before_fire k now = false;
}.
Hypothesis Hcap : 0 < cap.
Implicit Types r : Runner.

Lemma finish_settles j final st e now r k :
  now ≤ TIME_BOUND → stored_as j now r k → st = "fired" ∨ st = "error" →
  settled (id j) now (finish_task_after_fire j final (rec (id j) st e now r)).
Proof.
  intros Hnow [Hl Hid Hn Hr Ha] Hst. unfold finish_task_after_fire. destruct final; [apply settled_gone, remove_final_gone|].
  destruct (recurring j) eqn:Hrec; cbn [negb]; [|apply settled_gone, remove_task_gone]. by eapply settled_fired.
Qed.
Lemma defer_settles j e now d r k :
  stored_as j now r k → now < d →
  settled (id j) now (upd_deferred (<[id j := d]> (deferred_until_ms (rec (id j) "deferred" e now r))) (rec (id j) "deferred" e now r)).
Proof. intros [Hl Hid Hn Hr Ha] Hd. exact (settled_deferred (id j) e now d r k Hcap Hl Hid Hn Hd). Qed.
Lemma unfireable_settles j now reason r k : stored_as j now r k → settled (id j) now (handle_unfireable_task cfg j now reason r).
Proof.
  intros Hs. unfold handle_unfireable_task. destruct (_ || _); [|apply settled_gone, remove_task_gone].
  eapply defer_settles; [done|]. unfold INVALID_TARGET_DEFER_MS. lia.
Qed.
Lemma no_trajectory_settles j now r k : stored_as j now r k → settled (id j) now (no_trajectory cfg j now r).
Proof. intros Hs. eapply defer_settles; [done|]. unfold INVALID_TARGET_DEFER_MS. lia. Qed.

Lemma fire_agent_settles w sessions j final now r :
  is_command j = false → now ≤ TIME_BOUND → stored_as j now r j →
  settled (id j) now (fire_agent_task cfg w sessions j final now r).1.
Proof.
  intros Hc Hnow Hs. unfold fire_agent_task, fire_with_missed. rewrite Hc.
  assert (∀ x, settled (id j) now (defer_task j now (rec (id j) "deferred" x now r))) as Hdef.
  { intros x. eapply defer_settles; [done|]. unfold IDLE_DEFER_MS. lia. }
  assert (settled (id j) now (finish_task_after_fire j final (rec (id j) "fired" None now r))) as Hfin.
  { eapply finish_settles; [done|done|by left]. }
  unfold record_skipped_after_advance. rewrite (sa_advanced _ _ _ _ Hs). cbn [negb].
  set (res := if job_is_isolated j then _ else _). destruct (job_is_isolated j).
  - destruct (runnable_isolated_job j); [|apply Hdef]. destruct (deliver_scheduled_turn w j _); [apply Hfin|apply Hdef].
  - destruct (runnable_chat_id j) as [chat|]; [|apply Hdef]. destruct (sessions chat); [|apply Hdef].
    destruct (deliver_scheduled_turn w j chat) as [o|]; [|apply Hdef]. destruct (accepted o); [apply Hfin|apply Hdef].
Qed.

Lemma ensure_chat_settles w j chat now r r' o :
  stored_as j now r j → ensure_chat_target_fireable cfg w j chat now r = (r', o) →
  match o with Some _ => r' = r | None => settled (id j) now r' end.
Proof.
  intros Hs Heq. pose (Q := λ p : Runner * option (string → option SessionView),
    match p.2 with Some _ => p.1 = r | None => settled (id j) now p.1 end). change (Q (r', o)). rewrite <- Heq. clear Heq.
  unfold ensure_chat_target_fireable. assert (∀ e, settled (id j) now (defer_invalid_target_task j now (rec (id j) "deferred" e now r))) as Hinv.
  { intros e. eapply defer_settles; [done|]. unfold INVALID_TARGET_DEFER_MS. lia. }
  destruct (chat_fire_status (session_of w chat)); [done|done| |by eapply unfireable_settles].
  destruct (durable j); [|by eapply unfireable_settles]. destruct (restore w chat); cbn [negb]; [|by eapply no_trajectory_settles].
  destruct (chat_fire_status (restored_session w chat)); [done|done|apply Hinv|apply Hinv].
Qed.
Lemma ensure_command_settles w j cmd now r r' b :
  stored_as j now r j → ensure_command_chat_target_fireable cfg w j cmd now r = (r', b) →
  if b then r' = r else settled (id j) now r'.
Proof.
  intros Hs Heq. pose (Q := λ p : Runner * bool, if p.2 then p.1 = r else settled (id j) now p.1). change (Q (r', b)).
  rewrite <- Heq. clear Heq. unfold ensure_command_chat_target_fireable.
  destruct (negb (is_chat_delivery j)); [done|]. destruct (cmd_target cmd) as [chat|]; [|done].
  destruct (bool_decide (chat = ""%string)); [by eapply unfireable_settles|].
  destruct (chat_fire_status (session_of w chat)); [done|done| |by eapply unfireable_settles].
  destruct (durable j); [|by eapply unfireable_settles]. destruct (restore w chat); [done|by eapply no_trajectory_settles].
Qed.

Lemma stored_as_delivery j now r k e :
  stored_as j now r k → ∃ k', stored_as j now (set_delivery_error (id j) e r) k'.
Proof.
  intros [Hl Hid Hn Hr Ha]. exists (upd_delivery_error e k). unfold set_delivery_error, store_get. rewrite Hl.
  split; [|done| |done|exact Ha].
  - cbn [upd_store store]. rewrite (store_replace_jobs _ _ k) by (by cbn [upd_delivery_error id]; rewrite Hid). cbn [upd_delivery_error id].
    rewrite Hid. apply lookup_insert_eq.
  - by rewrite needs_upd_delivery_error.
Qed.
Lemma fire_command_stored w j now r r' res :
  runnable_command_job j = Ok () → fire_command_with_missed w j now r = (r', res) → stored_as j now r j →
  res = Ok (run_command w j) ∧ ∃ k, stored_as j now r' k.
Proof.
  intros Hrun. unfold fire_command_with_missed. rewrite Hrun.
  destruct (deliver w _ _); intros [= <- <-] Hs; (split; [done|]); by eapply stored_as_delivery.
Qed.

Lemma complete_settles j res final now r k :
  now ≤ TIME_BOUND → stored_as j now r k → result_status res = "fired" ∨ result_status res = "error" →
  settled (id j) now (complete_command_fire cfg shutdown_flag j res final now r).1.
Proof.
  intros Hnow Hs Hst. unfold complete_command_fire. set (e := if bool_decide _ then Some _ else None).
  pose proof (finish_settles j final (result_status res) e now r k Hnow Hs Hst) as Hfin.
  destruct (bool_decide (result_status res = "error") && _); [|exact Hfin].
  pose proof (rec_lookup (id j) (result_status res) e now r k (sa_lookup _ _ _ _ Hs) (sa_id _ _ _ _ Hs)) as Hl.
  destruct (schedule_retry _ _ _ _ _ _) as [r1 retried] eqn:Hret.
  eapply schedule_retry_cases in Hret; [|exact Hl|by rewrite with_record_id, (sa_id _ _ _ _ Hs)|unfold TIME_BOUND, u64_max in *; lia].
  destruct Hret as [[-> ->]|(k' & Hj & Hd & Hid & _ & Hret & _ & _ & t & Ht & Hlt)]; [exact Hfin|].
  assert (jobs (store r1) !! id j = Some k') as Hl1 by (rewrite Hj; apply lookup_insert_eq).
  assert (settled (id j) now (forget (id j) r1)) as Hq.
  { eapply settled_retry; [done|done|done|done|]. rewrite Hret. unfold sat_add, u32_max. lia. }
  assert (settled (id j) now (finish_task_after_fire j final r1)) as Hq'.
  { unfold finish_task_after_fire. destruct final; [apply settled_gone, remove_final_gone|].
    destruct (negb (recurring j)); [apply settled_gone, remove_task_gone|done]. }
  destruct retried as [[]|]; [exact Hq|exact Hq'|exact Hq'].
Qed.

Lemma handle_settles w j now r :
  known_status w → now ≤ TIME_BOUND → jobs (store r) !! id j = Some j → needs j now = false →
  last_status j ≠ Some "advanced" → settled (id j) now (handle_due_task cfg shutdown_flag w j now r).1.
Proof.
  intros Hw Hnow Hl Hn Hadv. assert (stored_as j now r j) as Hs.
  { split; try done. unfold job_was_advanced_before_fire. by rewrite bool_decide_eq_false_2, andb_false_r by done. }
  unfold handle_due_task, handle_due_command_task, handle_due_isolated_task. destruct (is_command j) eqn:Hc; [|destruct (job_is_isolated j)].
  - destruct (command_spec j) as [cmd|]; [|by eapply unfireable_settles].
    destruct (runnable_command_job j) as [[]|reason] eqn:Hrun; [|by eapply unfireable_settles].
    destruct (ensure_command_chat_target_fireable _ _ _ _ _ _) as [r1 ready] eqn:He. eapply ensure_command_settles in He; [|done].
    destruct ready; [subst r1|done]. cbn [negb]. unfold run_due_command.
    destruct (fire_command_with_missed w j now r) as [r1 res] eqn:Hf. destruct (fire_command_stored _ _ _ _ _ _ Hrun Hf Hs) as [-> [k Hk]].
    pose proof (complete_settles j (run_command w j) (task_final_after_fire j now) now r1 k Hnow Hk (Hw j)) as Hcomp.
    by destruct (complete_command_fire _ _ _ _ _ _ _).
  - destruct (runnable_isolated_job j); [|by eapply unfireable_settles].
    pose proof (fire_agent_settles w (session_of w) j (task_final_after_fire j now) now r Hc Hnow Hs) as Hf.
    by destruct (fire_agent_task _ _ _ _ _ _ _).
  - destruct (runnable_chat_id j) as [chat|]; [|by eapply unfireable_settles].
    destruct (ensure_chat_target_fireable _ _ _ _ _ _) as [r1 o] eqn:He. eapply ensure_chat_settles in He; [|done].
    destruct o as [sessions|]; [subst r1|done].
    pose proof (fire_agent_settles w sessions j (task_final_after_fire j now) now r Hc Hnow Hs) as Hf.
    by destruct (fire_agent_task _ _ _ _ _ _ _).
Qed.
End runner.
