(* ===== verification/CronPass.v ===== *)
(** * Passes of the runner

    What a pass over the store leaves behind: every due job is fired, skipped or put off, so that
    nothing stays due; retries and records stay bounded; what is planned is not missed. *)

From stdpp Require Import gmap strings list pretty.
From S2P Require Import Prelude RustStr CronJob CronSchedule CronScheduleProps CronRunner CronRunnerProps.
Local Open Scope N_scope.

Section pass.
Context `{ScheduleLibLaws} (cfg : SchedulerConfig) (jitter_cfg : JitterConfig) (shutdown_flag : bool).

Abbreviation due := (task_is_due cfg jitter_cfg).
Abbreviation needs := (task_needs_missed_fast_forward cfg).
Abbreviation cap := (recent_runs_cap cfg).
Abbreviation prims := (λ i now, rtc (prim cfg shutdown_flag i now)).
Abbreviation settled := (settled cfg jitter_cfg).
Implicit Types r : Runner.

(** ** What handlers do to the jobs *)

Inductive edit (now : N) : Job → Job → Prop :=
  | edit_same j : edit now j j
  | edit_record st e j : st ≠ "advanced"%string → edit now j (with_record st e now cap j)
  | edit_delivery e j : edit now j (upd_delivery_error e j)
  | edit_retry j k :
      id k = id j → last_status k = last_status j → recent_runs k = recent_runs j →
      retry_attempts j < max_attempts (retry cfg) → retry_attempts k = sat_add u32_max (retry_attempts j) 1 → edit now j k
  | edit_fired a j : edit now j (upd_fired (Some a) (fire_count j) j).

Lemma edit_id now j k : edit now j k → id k = id j.
Proof. destruct 1; try done. apply with_record_id. Qed.

(** Only job [i] is touched, and only edited or removed. *)
Record effect (i : string) (now : N) (r r' : Runner) : Prop := {
  ef_frame k : k ≠ i → jobs (store r') !! k = jobs (store r) !! k ∧ deferred_until_ms r' !! k = deferred_until_ms r !! k;
  ef_edit j' : jobs (store r') !! i = Some j' → ∃ j, jobs (store r) !! i = Some j ∧ rtc (edit now) j j';
}.

Lemma effect_wf i now r r' : effect i now r r' → store_wf (store r) → store_wf (store r').
Proof.
  intros [Hf He] Hwf k j Hj. destruct (decide (k = i)) as [->|Hne].
  - destruct (He j Hj) as (j0 & Hj0 & Hed). transitivity (id j0); [|by apply Hwf]. clear Hj Hj0.
    induction Hed as [|x y z Hxy _ IH]; [done|]. by rewrite IH, (edit_id _ _ _ Hxy).
  - apply Hwf. by rewrite <- (proj1 (Hf k Hne)).
Qed.

Lemma effect_update i now r r' j j' :
  jobs (store r) !! i = Some j → edit now j j' → jobs (store r') = <[i := j']> (jobs (store r)) →
  deferred_until_ms r' = deferred_until_ms r → effect i now r r'.
Proof.
  intros Hj He Hs Hd. split.
  - intros k Hk. by rewrite Hs, Hd, lookup_insert_ne.
  - intros j2. rewrite Hs, lookup_insert_eq. intros [= <-]. exists j. split; [done|by apply rtc_once].
Qed.
Lemma effect_none i now r r' :
  (∀ k, k ≠ i → jobs (store r') !! k = jobs (store r) !! k ∧ deferred_until_ms r' !! k = deferred_until_ms r !! k) →
  (∀ j, jobs (store r') !! i = Some j → jobs (store r) !! i = Some j) → effect i now r r'.
Proof. intros Hf Hj. split; [done|]. intros j Hj'. exists j. split; [by apply Hj|apply rtc_refl]. Qed.

Lemma prim_effect i now r r' : now < u64_max → store_wf (store r) → prim cfg shutdown_flag i now r r' → effect i now r r'.
Proof.
  intros Hnow Hwf Hp. destruct Hp as [st e r Hst|r|r|d r|e r|j error r Hid].
  - destruct (jobs (store r) !! i) as [j|] eqn:Hj.
    + eapply effect_update; [done|by eapply edit_record| |done]. apply rec_jobs; [done|by apply Hwf].
    + unfold record. rewrite record_run_missing by done. by apply effect_none.
  - apply effect_none; cbn [upd_store store deferred_until_ms].
    + intros k Hk. by rewrite store_remove_jobs, lookup_delete_ne.
    + intros j. by rewrite store_remove_jobs, lookup_delete_eq.
  - apply effect_none; [|done]. intros k Hk. cbn. by rewrite lookup_delete_ne.
  - apply effect_none; [|done]. intros k Hk. cbn. by rewrite lookup_insert_ne.
  - unfold set_delivery_error, store_get. destruct (jobs (store r) !! i) as [j|] eqn:Hj; [|by apply effect_none].
    pose proof (Hwf _ _ Hj) as Hid. eapply effect_update; [done|apply (edit_delivery now e j)| |done]. cbn [upd_store store].
    rewrite (store_replace_jobs _ _ j); cbn [upd_delivery_error id]; by rewrite Hid.
  - destruct (schedule_retry cfg shutdown_flag j now error r) as [r' res] eqn:Hs. cbn [fst].
    destruct (jobs (store r) !! i) as [j0|] eqn:Hj.
    + pose proof (Hwf _ _ Hj) as Hid0. rewrite <- Hid in Hj.
      destruct (schedule_retry_cases _ _ _ _ _ _ _ _ j0 Hs Hj) as [[-> _]|(k & Hk & Hd & Hik & Hlt & Hret & Hruns & Hst & _)];
        [congruence|done|by apply effect_none|].
      rewrite Hid in Hj, Hk, Hik. apply (effect_update i now r r' j0 k Hj); [|done|done]. apply edit_retry; congruence.
    + unfold schedule_retry, store_get in Hs. rewrite Hid, Hj in Hs. assert (r' = r) as -> by (destruct (classify error); [destruct shutdown_flag|]; by simplify_eq). by apply effect_none.
Qed.

Lemma effect_refl i now r : effect i now r r.
Proof. by apply effect_none. Qed.
Lemma effect_trans i now r1 r2 r3 : effect i now r1 r2 → effect i now r2 r3 → effect i now r1 r3.
Proof.
  intros [F1 E1] [F2 E2]. split.
  - intros k Hk. destruct (F1 k Hk), (F2 k Hk). split; congruence.
  - intros j3 Hj3. destruct (E2 _ Hj3) as (j2 & Hj2 & He2). destruct (E1 _ Hj2) as (j1 & Hj1 & He1). exists j1. split; [done|].
    by etransitivity.
Qed.
Lemma prims_effect i now r r' : now < u64_max → store_wf (store r) → prims i now r r' → effect i now r r'.
Proof.
  intros Hnow Hwf Hp. induction Hp as [r|r1 r2 r3 H1 _ IH]; [apply effect_refl|].
  pose proof (prim_effect _ _ _ _ Hnow Hwf H1) as He. eapply effect_trans; [done|]. apply IH. by eapply effect_wf.
Qed.

(** ** One due job *)

Lemma fire_at_ext r r' j now :
  deferred_until_ms r' !! id j = deferred_until_ms r !! id j → fire_at cfg jitter_cfg r' j now = fire_at cfg jitter_cfg r j now.
Proof. intros Hd. unfold fire_at, fresh_trigger. by rewrite Hd. Qed.
Lemma settled_ext i now r r' :
  jobs (store r') !! i = jobs (store r) !! i → deferred_until_ms r' !! i = deferred_until_ms r !! i → settled i now r → settled i now r'.
Proof.
  intros Hj Hd Hs j. rewrite Hj. intros Hl. destruct (Hs j Hl) as (Hid & Hq & Hn). split; [done|]. split; [|done].
  unfold task_is_due in *. by rewrite (fire_at_ext r r' j now) by (by rewrite Hid).
Qed.

(** The job is no longer missed; it also waits unless its missed run was skipped. *)
Definition passed (needed : bool) (i : string) (now : N) (r : Runner) : Prop :=
  if needed then ∀ j, jobs (store r) !! i = Some j → id j = i ∧ needs j now = false else settled i now r.

Lemma missed_advances j now s : missed_state cfg j now = Some s → is_missed s = true → ∃ a, advance_last_fired_at_ms s = Some a.
Proof.
  unfold missed_state, recurring_missed_grace_state. destruct (negb _); [done|].
  destruct (next_run_ms j (interval_base j) _) as [d|]; [|done]. cbn [mbind option_bind].
  destruct (next_run_ms j d _) as [after|]; [|done]. cbn [mbind option_bind].
  destruct (now <? d); [by intros [= <-]|]. destruct (if now <? after then _ else _); [|done]. intros [= <-] _. by eexists.
Qed.

Lemma fast_forward_passes j now r r' ff :
  now ≤ TIME_BOUND → jobs (store r) !! id j = Some j →
  fast_forward_recurring_if_missed cfg j now r = (r', ff) →
  if needs j now then ff ≠ Ok false ∧ effect (id j) now r r' ∧ passed true (id j) now r' else r' = r ∧ ff = Ok false.
Proof.
  intros Hnow Hj. unfold fast_forward_recurring_if_missed, task_needs_missed_fast_forward.
  destruct (negb (recurring j) || _ || _); [by intros [= <- <-]|]. destruct (missed_state cfg j now) as [s|] eqn:Hs; [|by intros [= <- <-]].
  destruct (is_missed s) eqn:Hm; [|by intros [= <- <-]]. destruct (missed_advances _ _ _ Hs Hm) as [a Ha]. rewrite Ha.
  pose proof (update_fired_jobs (id j) a (fire_count j) (store r) j Hj) as Hu. destruct (update_fired _ _ _ _) as [st res]. cbn [fst] in Hu.
  intros [= <- <-]. split; [by destruct res|]. split.
  - eapply effect_update; [done|apply (edit_fired now a j)|done|done].
  - intros j'. cbn [upd_store store]. rewrite Hu, lookup_insert_eq. intros [= <-]. split; [done|].
    apply ahead_needs_nothing. intros t Ht. unfold interval_base in Ht. cbn in Ht.
    unfold is_missed in Hm. apply andb_true_iff in Hm as [Hd%bool_decide_eq_true Hf%negb_true_iff].
    by eapply fast_forward_later.
Qed.

Hypothesis Hcap : 0 < cap.

Lemma passed_ext b i now r r' :
  jobs (store r') !! i = jobs (store r) !! i → deferred_until_ms r' !! i = deferred_until_ms r !! i → passed b i now r → passed b i now r'.
Proof. intros Hj Hd. destruct b; cbn [passed]; [by rewrite Hj|by apply settled_ext]. Qed.

Lemma handle_passes w j now r :
  known_status w → now ≤ TIME_BOUND → store_wf (store r) → jobs (store r) !! id j = Some j → needs j now = false →
  last_status j ≠ Some "advanced"%string →
  effect (id j) now r (handle_due_task cfg shutdown_flag w j now r).1 ∧ settled (id j) now (handle_due_task cfg shutdown_flag w j now r).1.
Proof.
  intros Hw Hnow Hwf Hj Hn Hadv. split; [|by apply handle_settles].
  apply prims_effect; [unfold TIME_BOUND, u64_max in *; lia|done|by apply handle_prims].
Qed.

(** The deferral of a job that ran in the lane is taken over. *)
Lemma merge_deferral j now r r1 :
  effect (id j) now {| store := store r; deferred_until_ms := ∅ |} r1 → settled (id j) now r1 →
  let r' := {| store := store r1;
               deferred_until_ms := match deferred_until_ms r1 !! id j with
                                    | Some _ => deferred_until_ms r1 ∪ deferred_until_ms r
                                    | None => delete (id j) (deferred_until_ms r)
                                    end |} in
  effect (id j) now r r' ∧ settled (id j) now r'.
Proof.
  intros [Hf He] Hs r'. split.
  - split; [|exact He]. intros k Hk. destruct (Hf k Hk) as [Hjk Hdk]. split; [exact Hjk|]. cbn in *.
    destruct (deferred_until_ms r1 !! id j).
    + rewrite lookup_union, Hdk, lookup_empty. by destruct (deferred_until_ms r !! k).
    + by rewrite lookup_delete_ne.
  - eapply settled_ext; [|symmetry|exact Hs]; [done|]. cbn. destruct (deferred_until_ms r1 !! id j) as [d|] eqn:Hd.
    + rewrite lookup_union, Hd. by destruct (deferred_until_ms r !! id j).
    + by rewrite lookup_delete_eq.
Qed.

Lemma fire_due_one_passes w now j r n r' n' :
  known_status w → now ≤ TIME_BOUND → store_wf (store r) → jobs (store r) !! id j = Some j → last_status j ≠ Some "advanced"%string →
  fire_due_one cfg shutdown_flag w now j (r, n) = (r', n') → effect (id j) now r r' ∧ passed (needs j now) (id j) now r'.
Proof.
  intros Hw Hnow Hwf Hj Hadv. unfold fire_due_one. destruct (fast_forward_recurring_if_missed cfg j now r) as [r0 ff] eqn:Hff.
  pose proof (fast_forward_passes _ _ _ _ _ Hnow Hj Hff) as Hp. destruct (needs j now) eqn:Hn.
  { destruct Hp as (Hne & He & Hp). destruct ff as [[]|]; [|done|]; by intros [= <- <-]. }
  destruct Hp as [-> ->]. cbn [passed]. destruct (task_can_use_cron_lane j && _); [|destruct (negb (task_can_use_cron_lane j))].
  - intros [= <- <-]. unfold defer_for_backpressure. split.
    + apply prims_effect; [unfold TIME_BOUND, u64_max in *; lia|done|]. 
      eapply rtc_l; [apply (prim_record _ _ _ _ "deferred" (Some (lit "scheduler at capacity"))); done|]. apply rtc_once.
      exact (prim_defer cfg shutdown_flag (id j) now (now + IDLE_DEFER_MS) (record cfg (id j) "deferred" (Some (lit "scheduler at capacity")) now r)).
    + apply (defer_settles cfg jitter_cfg Hcap j _ now _ r j).
      * split; try done. unfold job_was_advanced_before_fire. by rewrite bool_decide_eq_false_2, andb_false_r by done.
      * unfold IDLE_DEFER_MS. lia.
  - intros [= <- <-]. by apply handle_passes.
  - intros [= <- <-]. apply (merge_deferral j now); by apply handle_passes.
Qed.

Record pass_result (now : N) (l : list Job) (r r' : Runner) : Prop := {
  pr_frame k : k ∉ id <$> l → jobs (store r') !! k = jobs (store r) !! k ∧ deferred_until_ms r' !! k = deferred_until_ms r !! k;
  pr_passed j : j ∈ l → passed (needs j now) (id j) now r';
  pr_wf : store_wf (store r');
  pr_edit i j' : jobs (store r') !! i = Some j' → ∃ j, jobs (store r) !! i = Some j ∧ rtc (edit now) j j';
}.
Lemma pass_fold ws now l r n :
  (∀ i, known_status (ws i)) → now ≤ TIME_BOUND → store_wf (store r) → NoDup (id <$> l) →
  (∀ j, j ∈ l → jobs (store r) !! id j = Some j ∧ last_status j ≠ Some "advanced"%string) →
  pass_result now l r (foldl (λ st j, fire_due_one cfg shutdown_flag (ws (id j)) now j st) (r, n) l).1.
Proof.
  intros Hw Hnow. revert r n. induction l as [|j l IH]; intros r n Hwf Hnd Hl; cbn [foldl].
  { split; [done|by intros j Hj%elem_of_nil|done|]. intros i j' Hj. exists j'. split; [done|apply rtc_refl]. }
  rewrite fmap_cons in Hnd. apply NoDup_cons in Hnd as [Hni Hnd]. destruct (Hl j) as [Hj Hadv]; [by left|].
  destruct (fire_due_one cfg shutdown_flag (ws (id j)) now j (r, n)) as [r1 n1] eqn:H1.
  destruct (fire_due_one_passes _ _ _ _ _ _ _ (Hw _) Hnow Hwf Hj Hadv H1) as [He Hp].
  pose proof (effect_wf _ _ _ _ He Hwf) as Hwf1.
  assert (∀ k, k ∈ l → jobs (store r1) !! id k = Some k ∧ last_status k ≠ Some "advanced"%string) as Hl1.
  { intros k Hk. destruct (Hl k) as [Hk1 Hk2]; [by right|]. split; [|done].
    assert (id k ≠ id j) as Hne by (intros Heq; apply Hni; rewrite <- Heq; by apply list_elem_of_fmap_2).
    by rewrite (proj1 (ef_frame _ _ _ _ He (id k) Hne)). }
  destruct (IH r1 n1 Hwf1 Hnd Hl1) as [Hf Hpa Hwf2 Hed]. split; [| |done|].
  - intros k Hk. rewrite fmap_cons in Hk. apply not_elem_of_cons in Hk as [Hk1 Hk2]. destruct (Hf k Hk2) as [-> ->]. by apply (ef_frame _ _ _ _ He).
  - intros k Hk. apply elem_of_cons in Hk as [->|Hk]; [|by apply Hpa]. destruct (Hf (id j) Hni) as [Hfj Hfd]. by eapply passed_ext.
  - intros i j' Hj'. destruct (Hed i j' Hj') as (j1 & Hj1 & He1). destruct (decide (i = id j)) as [->|Hne].
    + destruct (ef_edit _ _ _ _ He j1 Hj1) as (j0 & Hj0 & He0). exists j0. split; [done|by etransitivity].
    + exists j1. split; [|done]. by rewrite <- (proj1 (ef_frame _ _ _ _ He i Hne)).
Qed.

(** ** A pass *)

Lemma elem_of_store_list s j : j ∈ store_list s ↔ ∃ i, jobs s !! i = Some j.
Proof.
  unfold store_list. rewrite list_elem_of_fmap. split.
  - intros ([i k] & -> & Hin%elem_of_btree_list). by exists i.
  - intros [i Hi]. exists (i, j). split; [done|by apply elem_of_btree_list].
Qed.
Lemma store_list_ids s : store_wf s → NoDup (id <$> store_list s).
Proof.
  intros Hwf. unfold store_list. rewrite <- list_fmap_compose.
  assert ((id ∘ snd) <$> btree_list (jobs s) = fst <$> btree_list (jobs s)) as ->.
  { apply list_fmap_ext. intros n [i j] Hn. cbn. apply Hwf. apply elem_of_btree_list. by apply list_elem_of_lookup_2 in Hn. }
  unfold btree_list. rewrite sort_by_key_perm. apply NoDup_fst_map_to_list.
Qed.

Lemma elem_of_due_tasks now r j :
  j ∈ due_tasks cfg jitter_cfg now r ↔ (due r j now = true ∨ needs j now = true) ∧ ∃ i, jobs (store r) !! i = Some j.
Proof.
  unfold due_tasks. rewrite list_elem_of_filter, elem_of_store_list. destruct (due r j now), (needs j now); naive_solver.
Qed.

(** No job was advanced by an earlier release that recorded so. *)
Definition not_advanced (s : CronStore) : Prop := ∀ i j, jobs s !! i = Some j → last_status j ≠ Some "advanced"%string.
Lemma edits_not_advanced now j j' : rtc (edit now) j j' → last_status j ≠ Some "advanced"%string → last_status j' ≠ Some "advanced"%string.
Proof.
  induction 1 as [|x y z Hxy _ IH]; [done|]. intros Hx. apply IH. destruct Hxy as [|st e x Hst| | |]; try congruence; try done.
  assert (last_status (with_record st e now cap x) = Some st) as -> by (unfold with_record; repeat case_match; done). congruence.
Qed.

Abbreviation pass := (fire_due_tasks cfg jitter_cfg shutdown_flag).
Lemma pass_passes ws now r :
  sc_enabled cfg = true → shutdown_flag = false → (∀ i, known_status (ws i)) → now ≤ TIME_BOUND → store_wf (store r) →
  not_advanced (store r) → pass_result now (due_tasks cfg jitter_cfg now r) r (pass ws now r).
Proof.
  intros Hen Hsd Hw Hnow Hwf Hadv. unfold fire_due_tasks. rewrite Hen, Hsd. cbn [negb orb].
  rewrite <- Hsd. apply pass_fold; [done|done|done| |].
  - unfold due_tasks. pose proof (store_list_ids _ Hwf) as Hnd. revert Hnd. generalize (store_list (store r)). intros l.
    induction l as [|j l IH]; [done|]. rewrite fmap_cons, NoDup_cons. intros [Hj Hnd]. rewrite filter_cons.
    destruct (decide _); [|by apply IH]. rewrite fmap_cons, NoDup_cons. split; [|by apply IH].
    intros Hin. apply Hj. apply list_elem_of_fmap in Hin as (k & -> & Hk). apply list_elem_of_fmap_2. by apply list_elem_of_filter in Hk as [_ Hk].
  - intros j [_ [i Hi]]%elem_of_due_tasks. pose proof (Hwf _ _ Hi) as Hid'. subst i. split; [done|]. by eapply Hadv.
Qed.

Hypothesis Hen : sc_enabled cfg = true.
Hypothesis Hsd : shutdown_flag = false.

Lemma quiet_ext now r r' i j :
  jobs (store r') !! i = jobs (store r) !! i → deferred_until_ms r' !! i = deferred_until_ms r !! i → id j = i → due r' j now = due r j now.
Proof. intros Hj Hd Hid. unfold task_is_due. by rewrite (fire_at_ext r r' j now) by (by rewrite Hid). Qed.

(** After one pass no job is missed any more; after the next one none is due. *)
Lemma pass_missed ws now r i j :
  (∀ i, known_status (ws i)) → now ≤ TIME_BOUND → store_wf (store r) → not_advanced (store r) →
  jobs (store (pass ws now r)) !! i = Some j → needs j now = false.
Proof.
  intros Hw Hnow Hwf Hadv Hj. destruct (pass_passes ws now r Hen Hsd Hw Hnow Hwf Hadv) as [Hf Hp _ _].
  destruct (decide (i ∈ id <$> due_tasks cfg jitter_cfg now r)) as [Hin|Hni].
  - apply list_elem_of_fmap in Hin as (k & -> & Hk). specialize (Hp k Hk). destruct (needs k now); cbn [passed] in Hp.
    + by apply Hp.
    + by destruct (Hp j Hj) as (_ & _ & ?).
  - rewrite (proj1 (Hf i Hni)) in Hj. destruct (needs j now) eqn:Hn; [|done]. exfalso. apply Hni.
    rewrite <- (Hwf _ _ Hj). apply list_elem_of_fmap_2, elem_of_due_tasks. split; [by right|by exists i].
Qed.
Lemma pass_due ws now r i j :
  (∀ i, known_status (ws i)) → now ≤ TIME_BOUND → store_wf (store r) → not_advanced (store r) →
  (∀ i j, jobs (store r) !! i = Some j → needs j now = false) →
  jobs (store (pass ws now r)) !! i = Some j → due (pass ws now r) j now = false.
Proof.
  intros Hw Hnow Hwf Hadv Hn Hj. destruct (pass_passes ws now r Hen Hsd Hw Hnow Hwf Hadv) as [Hf Hp Hwf' _].
  destruct (decide (i ∈ id <$> due_tasks cfg jitter_cfg now r)) as [Hin|Hni].
  - apply list_elem_of_fmap in Hin as (k & -> & Hk). pose proof (Hp k Hk) as Hs.
    apply elem_of_due_tasks in Hk as [_ [i Hk]]. rewrite (Hn i k Hk) in Hs. by destruct (Hs j Hj) as (_ & ? & _).
  - destruct (Hf i Hni) as [Hfj Hfd]. rewrite (quiet_ext now r _ i j Hfj Hfd (Hwf' _ _ Hj)).
    rewrite Hfj in Hj. destruct (due r j now) eqn:Hd; [|done]. exfalso. apply Hni.
    rewrite <- (Hwf _ _ Hj). apply list_elem_of_fmap_2, elem_of_due_tasks. split; [by left|by exists i].
Qed.

Lemma wake_later now r l best :
  (∀ t, best = Some t → now < t) → (∀ j t, j ∈ l → fire_at cfg jitter_cfg r j now = Some t → now < t) →
  now < default (now + DEFAULT_SLEEP_MS) (foldl (λ best j, min_option best (fire_at cfg jitter_cfg r j now)) best l).
Proof.
  revert best. induction l as [|j l IH]; intros best Hb Hl; cbn [foldl].
  - destruct best as [t|]; cbn; [by apply Hb|unfold DEFAULT_SLEEP_MS; lia].
  - apply IH; [|intros k t Hk; apply Hl; by right]. intros t Ht. pose proof (Hl j) as Hj.
    destruct best as [b|], (fire_at cfg jitter_cfg r j now) as [f|]; simplify_eq/=.
    + pose proof (Hb b eq_refl). pose proof (Hj f ltac:(by left) eq_refl). lia.
    + by apply Hb.
    + by apply Hj; [left|].
Qed.

Lemma pass_keeps ws now r :
  (∀ i, known_status (ws i)) → now ≤ TIME_BOUND → store_wf (store r) → not_advanced (store r) →
  store_wf (store (pass ws now r)) ∧ not_advanced (store (pass ws now r)).
Proof.
  intros Hw Hnow Hwf Hadv. destruct (pass_passes ws now r Hen Hsd Hw Hnow Hwf Hadv) as [_ _ Hwf' He]. split; [done|].
  intros i j Hj. destruct (He i j Hj) as (j0 & Hj0 & Hed). eapply edits_not_advanced; [done|by eapply Hadv].
Qed.

(** C35. With a scheduler that is enabled and not shutting down, that keeps at least one record of recent runs
    ([recent_runs_cap] above zero), and jobs none of whose last status reads "advanced", the runner does not spin:
    whatever happens to the jobs it fires, and whether or not the store can be written, two passes at one time
    leave no job due or missed at that time, so that it next wakes up later.  With [recent_runs_cap] zero it does
    spin: [no_records_spin]. *)
Theorem passes_leave_nothing_due ws ws' now r :
  (∀ i, known_status (ws i)) → (∀ i, known_status (ws' i)) → now ≤ TIME_BOUND → store_wf (store r) → not_advanced (store r) →
  let r2 := pass ws' now (pass ws now r) in
  due_tasks cfg jitter_cfg now r2 = [] ∧ now < next_wake cfg jitter_cfg now r2.
Proof.
  intros Hw Hw' Hnow Hwf Hadv r2. destruct (pass_keeps ws now r Hw Hnow Hwf Hadv) as [Hwf1 Hadv1].
  assert (∀ i j, jobs (store r2) !! i = Some j → due r2 j now = false ∧ needs j now = false) as Hq.
  { intros i j Hj. split; [|exact (pass_missed ws' now _ i j Hw' Hnow Hwf1 Hadv1 Hj)].
    apply (pass_due ws' now (pass ws now r) i j Hw' Hnow Hwf1 Hadv1); [|done].
    intros i' j' Hj'. exact (pass_missed ws now r i' j' Hw Hnow Hwf Hadv Hj'). }
  split.
  - destruct (due_tasks cfg jitter_cfg now r2) as [|j l] eqn:Hl; [done|]. assert (j ∈ due_tasks cfg jitter_cfg now r2) as Hin by (rewrite Hl; by left).
    apply elem_of_due_tasks in Hin as [Hd [i Hi]]. destruct (Hq i j Hi) as [H1 H2]. rewrite H1, H2 in Hd. by destruct Hd.
  - unfold next_wake. apply wake_later; [done|]. intros j t [i Hi]%elem_of_store_list Ht. destruct (Hq i j Hi) as [Hd _].
    unfold task_is_due in Hd. rewrite Ht in Hd. by apply N.leb_gt in Hd.
Qed.

(** ** Bounds *)

Definition bounded (j : Job) : Prop := Nlen (recent_runs j) ≤ cap ∧ retry_attempts j ≤ max_attempts (retry cfg).
Lemma with_record_bounded st e now j : bounded j → bounded (with_record st e now cap j).
Proof.
  intros [Hr Ha]. pose proof (add_run_bounded (job_was_advanced_before_fire j now)
    {| at_ms := now; run_status := st; run_error := e |} cap (recent_runs j) Hr) as Hb.
  unfold bounded. assert (recent_runs (with_record st e now cap j)
    = add_run (job_was_advanced_before_fire j now) {| at_ms := now; run_status := st; run_error := e |} cap (recent_runs j)) as ->
    by (unfold with_record; repeat case_match; done).
  split; [done|]. assert (retry_attempts (with_record st e now cap j) = 0 ∨ retry_attempts (with_record st e now cap j) = retry_attempts j) as [-> | ->]
    by (unfold with_record; repeat case_match; auto); lia.
Qed.
Lemma edits_bounded now j j' : rtc (edit now) j j' → bounded j → bounded j'.
Proof.
  induction 1 as [|x y z Hxy _ IH]; [done|]. intros Hx. apply IH. destruct Hxy as [| | |x k _ _ Hr Hlt Ha|]; try done.
  - by apply with_record_bounded.
  - destruct Hx as [Hx _]. split; [by rewrite Hr|]. rewrite Ha. unfold sat_add. lia.
Qed.

Fixpoint run_passes (ps : list ((string → World) * N)) (r : Runner) : Runner :=
  match ps with [] => r | (ws, now) :: ps => run_passes ps (pass ws now r) end.

(** Whatever happens in any number of passes, no job keeps more records than the cap, and none has
    been retried more often than configured since it last succeeded. *)
Lemma records_and_retries_stay_bounded ps r :
  Forall (λ p, (∀ i, known_status (p.1 i)) ∧ p.2 ≤ TIME_BOUND) ps → store_wf (store r) → not_advanced (store r) →
  (∀ i j, jobs (store r) !! i = Some j → bounded j) →
  ∀ i j, jobs (store (run_passes ps r)) !! i = Some j → bounded j.
Proof.
  intros Hps. revert r. induction Hps as [|[ws now] ps [Hw Hnow] _ IH]; intros r Hwf Hadv Hb; cbn [run_passes]; [done|].
  cbn [fst snd] in Hw, Hnow. destruct (pass_keeps ws now r Hw Hnow Hwf Hadv) as [Hwf1 Hadv1]. apply IH; [done|done|].
  intros i j Hj. destruct (pr_edit _ _ _ _ (pass_passes ws now r Hen Hsd Hw Hnow Hwf Hadv) i j Hj) as (j0 & Hj0 & He).
  eapply edits_bounded; [done|by eapply Hb].
Qed.
End pass.

(** ** What is planned is done *)

Section planned.
Context `{ScheduleLibLaws} (cfg : SchedulerConfig) (jitter_cfg : JitterConfig).
Abbreviation due := (task_is_due cfg jitter_cfg).
Abbreviation needs := (task_needs_missed_fast_forward cfg).
Implicit Types r : Runner.

(** What is missed stays missed. *)
Lemma missed_stays j now now' s s' :
  missed_state cfg j now = Some s → is_missed s = true → now ≤ now' → missed_state cfg j now' = Some s' → is_missed s' = true.
Proof.
  intros Hs Hm Hle. revert Hs Hm. unfold missed_state, recurring_missed_grace_state. destruct (negb _); [done|].
  destruct (next_run_ms j (interval_base j) _) as [d|]; [|done]. cbn [mbind option_bind].
  destruct (next_run_ms j d _) as [after|]; [|done]. cbn [mbind option_bind].
  destruct (N.ltb_spec now d) as [|Hd]; [by intros [= <-]|]. rewrite (proj2 (N.ltb_ge now' d)) by lia.
  destruct (if now <? after then _ else _); [|done]. destruct (if now' <? after then _ else _); [|done].
  intros [= <-] Hm [= <-]. unfold is_missed in *. cbn [due_ms should_fire] in *.
  rewrite bool_decide_eq_true_2 in * by done. cbn [andb] in *. apply negb_true_iff, N.leb_gt in Hm. apply negb_true_iff, N.leb_gt. lia.
Qed.
Lemma missed_future j now s :
  now ≤ TIME_BOUND → time_repeating (trigger j) = true → missed_state cfg j now = Some s → now < next_future_ms s.
Proof.
  intros Hnow Ht. unfold missed_state, recurring_missed_grace_state. destruct (negb _); [done|].
  destruct (next_run_ms j (interval_base j) _) as [d|]; [|done]. cbn [mbind option_bind].
  destruct (next_run_ms j d _) as [after|]; [|done]. cbn [mbind option_bind].
  destruct (N.ltb_spec now d); [by intros [= <-]|]. destruct (N.ltb_spec now after) as [Hlt|_]; cbn [mbind option_bind]; [by intros [= <-]|].
  destruct (next_run_ms j now _) as [n|] eqn:Hn; [|done]. intros [= <-]. cbn.
  apply next_run_later in Hn; [done|done|]. by destruct (trigger j).
Qed.

(** A recurring job with nothing special pending. *)
Record plain (r : Runner) (j : Job) : Prop := {
  pl_recurring : recurring j = true;
  pl_trigger : trigger_at_ms j = None;
  pl_paused : is_paused j = false;
  pl_deferred : deferred_until_ms r !! id j = None;
}.
Lemma plain_fire_at r j now :
  plain r j → fire_at cfg jitter_cfg r j now
  = if needs j now then Some now
    else match after_missed cfg j now with Some t => Some t | None => min_option (planned_fire jitter_cfg j) None end.
Proof.
  intros [Hr Ht Hp Hd]. unfold fire_at, fresh_trigger, scheduled_fire_at_ms. rewrite Ht, Hp, Hd. cbn [mbind option_bind].
  rewrite andb_false_r. rewrite (bool_decide_eq_false_2 (None ≠ None)) by (intros Hn; by apply Hn). by rewrite andb_false_r.
Qed.
Lemma needs_plain r j now : plain r j → retry_attempts j = 0 →
  needs j now = match missed_state cfg j now with Some s => is_missed s | None => false end.
Proof.
  intros [Hr Ht _ _] Ha. unfold task_needs_missed_fast_forward. rewrite Hr, Ht, Ha.
  by rewrite (bool_decide_eq_false_2 (None ≠ None)) by (intros Hn; by apply Hn).
Qed.

(** A planned run is not lost: once the time has come that the runner planned for a recurring job
    with no retry open, each later pass finds the job due, or skips the run as missed and goes on
    from there. *)
Lemma planned_runs_are_seen r j now now' t s :
  plain r j → retry_attempts j = 0 → fire_at cfg jitter_cfg r j now = Some t → t ≤ now' → now ≤ now' →
  missed_state cfg j now' = Some s → jobs (store r) !! id j = Some j → j ∈ due_tasks cfg jitter_cfg now' r.
Proof.
  intros Hpl Ha Hf Hle Hnow Hs Hj. apply elem_of_due_tasks. split; [|by exists (id j)].
  unfold task_is_due. rewrite (plain_fire_at _ _ now Hpl) in Hf. rewrite (plain_fire_at _ _ now' Hpl). destruct (needs j now') eqn:Hn'; [by right|]. left.
  rewrite (needs_plain _ _ _ Hpl Ha), Hs in Hn'.
  assert (is_missed s = false → ∀ s0, missed_state cfg j now = Some s0 → is_missed s0 = false) as Hmono.
  { intros Hm s0 Hs0. destruct (is_missed s0) eqn:Hm0; [|done]. by rewrite (missed_stays _ _ _ _ _ Hs0 Hm0 Hnow Hs) in Hm. }
  rewrite (needs_plain _ _ _ Hpl Ha) in Hf. unfold after_missed in *. rewrite Hs. cbn [mbind option_bind]. rewrite Hn'.
  destruct (missed_state cfg j now) as [s0|] eqn:Hs0; [rewrite (Hmono Hn' s0 eq_refl) in Hf|]; cbn [mbind option_bind] in Hf;
    [rewrite (Hmono Hn' s0 eq_refl) in Hf|].
  all: destruct (recurring j && time_repeating (trigger j)); cbn [min_option] in *; rewrite Hf; by apply N.leb_le.
Qed.

(** With a retry left open the same job is never due again: its run counts as missed, so that it is
    planned for the next one, but a job with an open retry is not taken past the missed run. *)
Lemma open_retry_starves r j now now' s s' :
  plain r j → 0 < retry_attempts j → time_repeating (trigger j) = true →
  missed_state cfg j now = Some s → is_missed s = true → now ≤ now' → now' ≤ TIME_BOUND →
  missed_state cfg j now' = Some s' → due r j now' = false ∧ needs j now' = false.
Proof.
  intros Hpl Ha Ht Hs Hm Hle Hb Hs'. assert (needs j now' = false) as Hn.
  { unfold task_needs_missed_fast_forward. by rewrite (proj2 (N.ltb_lt _ _) Ha), !orb_true_r. }
  split; [|done]. apply not_due. intros t. rewrite (plain_fire_at _ _ _ Hpl), Hn. unfold after_missed.
  rewrite (pl_recurring _ _ Hpl), Ht, Hs'. cbn [andb mbind option_bind]. rewrite (missed_stays _ _ _ _ _ Hs Hm Hle Hs').
  intros [= <-]. by eapply missed_future.
Qed.
End planned.
