(* ===== verification/CronExamples.v ===== *)
(** * Scheduled jobs: witnesses and examples *)

From stdpp Require Import gmap strings list pretty.
From S2P Require Import Prelude RustStr CronJob CronSchedule CronScheduleProps CronRunner CronRunnerProps CronPass.
Local Open Scope N_scope.

(** A library where every schedule has an event each minute and every error is a timeout. *)
#[global] Instance ex_lib : ScheduleLib := {|
  Tz := unit; parse_tz := λ _, Some tt; scheduler_timezone := tt; Schedule := unit;
  schedule_from_str := λ _, Ok tt; in_chrono_range := λ _, true;
  schedule_after := λ _ from _, Some (from + 60000)%Z; local_minute_of := λ _ _, 0;
  parse_from_rfc3339 := λ _, Err []; is_match := λ re _, bool_decide (re = TIMEOUT_RE); default_hash := λ _, 0 |}.
#[global] Instance ex_lib_laws : ScheduleLibLaws.
Proof. split. simpl. intros _ from _ t [= <-]. lia. Qed.

Definition ex_job (i : string) (tr : Trigger) (a : Action) : Job := {|
  id := i; description := lit "example"; enabled := true; durable := true; created_at_ms := 0; recurring := true;
  trigger := tr; action := a; delivery := DeliverChat; push := Append; last_fired_at_ms := None; fire_count := 0;
  last_status := None; last_error := None; last_delivery_error := None; recent_runs := []; paused_at_ms := None;
  trigger_at_ms := None; auto_expire_after_ms := 0; retry_attempts := 0 |}.
Definition agent : Action := AgentTurn (lit "Go on.") Isolated None None None.
Definition script : Action := Command [lit "make"] Isolated None None None.
(** Chats take no turns and commands time out. *)
Definition ex_world : World := {|
  session_of := λ _, None; restore := λ _, false; restored_session := λ _, None;
  deliver_scheduled_turn := λ _ _, Err (lit "sealed");
  run_command := λ _, {| result_status := "error"; stdout := []; stderr := lit "timeout"; exit_code := Some 1%Z |};
  deliver := λ _ _, Ok () |}.
Definition ex_jobs : list Job := [ex_job "agent" (Interval 60000) agent; ex_job "script" (Cron (lit "* * * * *") None) script].
Definition ex_runner : Runner := new_runner (open_store ex_jobs [true; false; true; true]).
Definition ex_cfg (cap : N) : SchedulerConfig := {|
  sc_enabled := true; disable_durable := false; max_jobs := 50; max_concurrent_runs := 8; recent_runs_cap := cap;
  missed_grace_min_ms := 120000; missed_grace_max_ms := 7200000; retry := default_RetryConfig |}.

Lemma ex_runner_wf : store_wf (store ex_runner).
Proof.
  intros i j. unfold ex_runner, open_store, from_jobs. cbn [new_runner store jobs ex_jobs foldl].
  rewrite !lookup_insert_Some, lookup_empty. naive_solver.
Qed.
Lemma ex_runner_stored i j : jobs (store ex_runner) !! i = Some j → j ∈ ex_jobs.
Proof.
  unfold ex_runner, open_store, from_jobs. cbn [new_runner store jobs ex_jobs foldl].
  rewrite !lookup_insert_Some, lookup_empty. unfold ex_jobs. rewrite !elem_of_cons. naive_solver.
Qed.
Lemma ex_runner_not_advanced : not_advanced (store ex_runner).
Proof. intros i j Hj%ex_runner_stored. unfold ex_jobs in Hj. rewrite !elem_of_cons, elem_of_nil in Hj. by destruct Hj as [->|[->|[]]]. Qed.

Lemma passes_leave_nothing_due_witness :
  let r2 := fire_due_tasks (ex_cfg 20) default_JitterConfig false (λ _, ex_world) 60000
              (fire_due_tasks (ex_cfg 20) default_JitterConfig false (λ _, ex_world) 60000 ex_runner) in
  due_tasks (ex_cfg 20) default_JitterConfig 60000 ex_runner ≠ []
  ∧ due_tasks (ex_cfg 20) default_JitterConfig 60000 r2 = [] ∧ 60000 < next_wake (ex_cfg 20) default_JitterConfig 60000 r2.
Proof.
  split; [vm_compute; discriminate|].
  apply (passes_leave_nothing_due (ex_cfg 20) default_JitterConfig false ltac:(reflexivity) ltac:(reflexivity) ltac:(reflexivity)
           (λ _, ex_world) (λ _, ex_world) 60000 ex_runner).
  - intros i j. right. reflexivity.
  - intros i j. right. reflexivity.
  - vm_compute. discriminate.
  - exact ex_runner_wf.
  - exact ex_runner_not_advanced.
Defined.

Lemma records_and_retries_stay_bounded_witness :
  from_option (bounded (ex_cfg 20)) False
    (jobs (store (run_passes (ex_cfg 20) default_JitterConfig false [((λ _, ex_world), 60000); ((λ _, ex_world), 180000)] ex_runner)) !! "agent"%string).
Proof.
  destruct (jobs _ !! _) as [j|] eqn:E; [|revert E; vm_compute; discriminate].
  cbn [from_option]. revert E.
  apply (records_and_retries_stay_bounded (ex_cfg 20) default_JitterConfig false ltac:(reflexivity) ltac:(reflexivity) ltac:(reflexivity)
           [((λ _, ex_world), 60000); ((λ _, ex_world), 180000)] ex_runner).
  - repeat constructor; try (intros i; right; reflexivity); vm_compute; discriminate.
  - exact ex_runner_wf.
  - exact ex_runner_not_advanced.
  - intros i k Hk%ex_runner_stored. unfold ex_jobs in Hk. rewrite !elem_of_cons, elem_of_nil in Hk.
    destruct Hk as [->|[->|[]]]; split; vm_compute; discriminate.
Defined.

Definition ex_agent : Job := ex_job "agent" (Interval 60000) agent.
Lemma planned_runs_are_seen_witness :
  ex_agent ∈ due_tasks (ex_cfg 20) default_JitterConfig 100000 ex_runner.
Proof.
  eapply (planned_runs_are_seen (ex_cfg 20) default_JitterConfig ex_runner ex_agent 10 100000 60000).
  - split; reflexivity.
  - reflexivity.
  - vm_compute. reflexivity.
  - vm_compute. discriminate.
  - vm_compute. discriminate.
  - vm_compute. reflexivity.
  - vm_compute. reflexivity.
Defined.

Lemma duration_label_is_read_back_witness : parse_duration_ms (duration_label 5400000) = Ok 5400000.
Proof. apply duration_label_is_read_back; vm_compute; congruence. Defined.
Example ninety_minutes : duration_label 5400000 = lit "90m".
Proof. vm_compute. reflexivity. Qed.

(** With no records kept, a rejected turn is due again at once: two passes, or any number of them, leave
    it due. *)
Example no_records_spin :
  let pass := fire_due_tasks (ex_cfg 0) default_JitterConfig false (λ _, ex_world) 60000 in
  id <$> due_tasks (ex_cfg 0) default_JitterConfig 60000 (pass (pass (pass ex_runner))) = ["agent"%string].
Proof. vm_compute. reflexivity. Qed.

(** A command that used up its retries and then misses a run is never due again: here an interval of
    one minute, three hours late, and at any time after it. *)
Definition ex_stuck : Job := upd_retries 3 (upd_fired (Some 0) 4 (ex_job "script" (Interval 60000) script)).
Example exhausted_retries_starve :
  let r := new_runner (open_store [ex_stuck] []) in
  (λ now, task_is_due (ex_cfg 20) default_JitterConfig r ex_stuck now) <$> [60000; 10800000; 10860000; 10920001; 86400000]
  = [true; false; false; false; false].
Proof. vm_compute. reflexivity. Qed.
