(* ===== verification/ActiveContext.v ===== *)
(** * The active part of a chat's history

    [refact-core/src/active_context.rs].  A compacted chat keeps its old messages and behind them a
    report whose payload stands for them; what is sent is the payload of the last report and the
    messages after it.  JSON values are modelled; what serde derives for messages and reports (to
    and from JSON) is the parameter of [MessageSerde], and an object is its entries with the keys
    in order, so that equal values are equal terms. *)

From stdpp Require Import gmap strings list countable.
From S2P Require Import Prelude.

(** ** JSON *)

Inductive JsonNumber := PosInt (n : N) | NegInt (z : Z) | JsonFloat (bits : N).
#[global] Instance JsonNumber_eq_dec : EqDecision JsonNumber.
Proof. solve_decision. Defined.

Inductive Json :=
  | JNull
  | JBool (b : bool)
  | JNumber (n : JsonNumber)
  | JString (s : string)
  | JArray (l : list Json)
  | JObject (fields : list (string * Json)).

Section json_eq.
Let leaf : Type := unit + bool + JsonNumber + string + (list string).
Local Fixpoint to_tree (v : Json) : gen_tree leaf :=
  match v with
  | JNull => GenLeaf (inl (inl (inl (inl ()))))
  | JBool b => GenLeaf (inl (inl (inl (inr b))))
  | JNumber n => GenLeaf (inl (inl (inr n)))
  | JString s => GenLeaf (inl (inr s))
  | JArray l => GenNode 0 (to_tree <$> l)
  | JObject fields => GenNode 1 (GenLeaf (inr (fst <$> fields)) :: map (λ p, to_tree p.2) fields)
  end.
Local Fixpoint of_tree (t : gen_tree leaf) : option Json :=
  match t with
  | GenLeaf (inl (inl (inl (inl _)))) => Some JNull
  | GenLeaf (inl (inl (inl (inr b)))) => Some (JBool b)
  | GenLeaf (inl (inl (inr n))) => Some (JNumber n)
  | GenLeaf (inl (inr s)) => Some (JString s)
  | GenNode 0 l => Some (JArray (omap of_tree l))
  | GenNode 1 (GenLeaf (inr ks) :: l) => Some (JObject (zip ks (omap of_tree l)))
  | _ => None
  end.
Local Fixpoint of_to_tree (v : Json) : of_tree (to_tree v) = Some v.
Proof.
  destruct v as [|b|n|s|l|fields]; try reflexivity; simpl; do 2 f_equal.
  - induction l as [|v l IH]; [done|]. simpl. rewrite (of_to_tree v). by f_equal.
  - induction fields as [|[k v] fields IH]; [done|]. simpl. rewrite (of_to_tree v). by f_equal.
Qed.
#[global] Instance Json_eq_dec : EqDecision Json.
Proof.
  intros v w. refine (cast_if (decide (to_tree v = to_tree w))).
  - abstract (match goal with H : _ = _ |- _ => apply (f_equal of_tree) in H; rewrite !of_to_tree in H; by injection H end).
  - abstract congruence.
Defined.
End json_eq.

(** The entries of a map, by key. *)
Definition field (k : string) (fields : list (string * Json)) : option Json :=
  (λ p, p.2.2) <$> list_find (λ p, p.1 = k) fields.
(** [Value::get] with a key, [as_str], [as_u64], [is_object]. *)
Definition json_get (k : string) (v : Json) : option Json :=
  match v with JObject fields => field k fields | _ => None end.
Definition as_str (v : Json) : option string := match v with JString s => Some s | _ => None end.
Definition as_u64 (v : Json) : option N := match v with JNumber (PosInt n) => Some n | _ => None end.
Definition is_object (v : Json) : bool := match v with JObject _ => true | _ => false end.
Definition is_string (v : Json) : bool := match v with JString _ => true | _ => false end.
Definition is_boolean (v : Json) : bool := match v with JBool _ => true | _ => false end.
Definition is_null (v : Json) : bool := match v with JNull => true | _ => false end.

(** [Map::insert]. *)
Fixpoint field_insert (k : string) (v : Json) (fields : list (string * Json)) : list (string * Json) :=
  match fields with
  | [] => [(k, v)]
  | (k', v') :: rest =>
      match rcmp k k' with
      | Eq => (k, v) :: rest
      | Lt => (k, v) :: fields
      | Gt => (k', v') :: field_insert k v rest
      end
  end.

Definition json_get_str (k : string) (v : option Json) : option string := w ← v; x ← json_get k w; as_str x.

(** [Option::is_some_and] and [Option::is_none_or]. *)
Definition some_and {A} (f : A → bool) (o : option A) : bool := match o with Some x => f x | None => false end.
Definition none_or {A} (f : A → bool) (o : option A) : bool := match o with Some x => f x | None => true end.

(** ** Messages *)

Record ToolCall := { call_id : string; call_name : string; call_arguments : string }.

(** The fields the chat engine looks at; [content] stands for the content and all fields left out. *)
Record Message (C : Type) := {
  message_id : string;
  role : string;
  content : C;
  tool_calls : option (list ToolCall);
  tool_call_id : string;
  summarized_range : option (N * N);
  summarization_tier : option string;
  summarized_token_estimate : option N;
  extra : gmap string Json;
}.
Arguments message_id {C} _.
Arguments role {C} _.
Arguments content {C} _.
Arguments tool_calls {C} _.
Arguments tool_call_id {C} _.
Arguments summarized_range {C} _.
Arguments summarization_tier {C} _.
Arguments summarized_token_estimate {C} _.
Arguments extra {C} _.

Definition COMPRESSION_REPORT_KEY : string := "compression_report".
Definition RECONSTRUCTED_HISTORY_KIND : string := "reconstructed_history".
Definition RECONSTRUCTION_SCHEMA_VERSION : N := 1.
Definition STATIC_COMPRESSION_REPORT_KIND : string := "chat_compression_report".
Definition MAX_RECONSTRUCTION_JSON_DEPTH : nat := 64.

Inductive ActiveContextError :=
  | NeedsExplicitRebuild
  | InvalidReport (s : string)
  | UnsupportedVersion (v : N)
  | InvalidPayload (s : string)
  | InvalidWriteback (s : string).

Inductive MessageOrigin := ReportPayload (report_index message_index : nat) | Stored (message_index : nat).
#[global] Instance MessageOrigin_eq_dec : EqDecision MessageOrigin.
Proof. solve_decision. Defined.
Definition from_payload (o : MessageOrigin) : bool := match o with ReportPayload _ _ => true | Stored _ => false end.

(** What serde does: [to_value] of a message, [from_value] of a report (its payload, the rest of a
    report is metadata), [to_value] of a report. *)
Class MessageSerde (C : Type) := {
  Metadata : Type;
  to_value : Message C → option Json;
  report_from_value : Json → option (list (Message C));
  report_to_value : list (Message C) → Metadata → option Json;
}.

Section active.
Context {C : Type} `{MessageSerde C}.
Implicit Types (m message : Message C) (messages stored transformed : list (Message C)).

Definition report_meta m : option Json := extra m !! COMPRESSION_REPORT_KEY.
Definition has_kind (kind : string) m : bool :=
  bool_decide (role m = COMPRESSION_REPORT_KEY) && bool_decide (json_get_str "kind" (report_meta m) = Some kind).
Definition is_reconstruction_report m : bool := has_kind RECONSTRUCTED_HISTORY_KIND m.
Definition is_static_compression_report m : bool := has_kind STATIC_COMPRESSION_REPORT_KIND m.

Definition is_legacy_summary m : bool :=
  if is_reconstruction_report m || is_static_compression_report m then false
  else bool_decide (is_Some (summarized_range m))
       || some_and (λ v, bool_decide (json_get_str "kind" (Some v) = Some "llm_segment_summary")
                         || bool_decide (is_Some (json_get "summarized_source_message_ids" v)))
            (extra m !! "compression")
       || bool_decide (is_Some (extra m !! "summarized_source_message_ids")).

Definition is_boundary_candidate m : bool :=
  bool_decide (is_Some (report_meta m))
  && negb (is_static_compression_report m)
  && (bool_decide (role m = COMPRESSION_REPORT_KEY) || negb (is_legacy_summary m)).

(** [iter().rposition]. *)
Fixpoint rposition {A} (f : A → bool) (l : list A) : option nat :=
  match l with
  | [] => None
  | x :: l =>
      match rposition f l with
      | Some i => Some (S i)
      | None => if f x then Some 0 else None
      end
  end.
Definition start_of (report_index : option nat) : nat := match report_index with Some i => S i | None => 0 end.

Definition requires_explicit_rebuild messages : bool :=
  existsb is_legacy_summary (drop (start_of (rposition is_boundary_candidate messages)) messages).

(** Every value at most [MAX_RECONSTRUCTION_JSON_DEPTH] levels down. *)
Fixpoint depth_within (depth : nat) (v : Json) : bool :=
  bool_decide (depth ≤ MAX_RECONSTRUCTION_JSON_DEPTH)
  && match v with
     | JArray l => forallb (depth_within (S depth)) l
     | JObject fields => forallb (λ p, depth_within (S depth) p.2) fields
     | _ => true
     end.
Definition validate_depth (v : Json) : result unit ActiveContextError :=
  if depth_within 0 v then Ok () else Err (InvalidPayload "JSON nesting exceeds limit").

Fixpoint ids_from (seen : list string) messages (require_ids : bool) : result unit ActiveContextError :=
  match messages with
  | [] => Ok ()
  | m :: rest =>
      if bool_decide (message_id m = "") then
        if require_ids then Err (InvalidPayload "payload message has no ID") else ids_from seen rest require_ids
      else if bool_decide (message_id m ∈ seen) then Err (InvalidPayload "duplicate active message ID")
      else ids_from (message_id m :: seen) rest require_ids
  end.
Definition validate_ids messages (require_ids : bool) : result unit ActiveContextError := ids_from [] messages require_ids.

Definition guard (c : bool) (e : ActiveContextError) : result unit ActiveContextError := if c then Err e else Ok ().

Definition payload_roles : list string :=
  ["system"; "user"; "assistant"; "tool"; "diff"; "context_file"; "plain_text"; "cd_instruction"; "goal"; "plan"; "event"].
Definition payload_events : list string :=
  ["mode_switch"; "tool_decision"; "ide_callback"; "process_completed"; "cron_fire"; "tick"; "summarization_marker";
   "verifier_report"; "cancellation_note"; "system_notice"; "plan_delta"; "goal_delta"; "goal_pursuit"].

Definition ui_only m (key : string) : bool := some_and (λ v, negb (bool_decide (v = JBool false))) (extra m !! key).
Definition misplaced_control m (key : string) : bool :=
  some_and (λ meta, negb (bool_decide (role m = key)) || negb (is_object meta)) (extra m !! key).
Definition goal_meta_ok (meta : Json) : bool :=
  some_and (λ v, (0 <? v)%N && (v <=? u32_max)%N) (json_get "version" meta ≫= as_u64)
  && some_and (λ v, negb (bool_decide (v = ""))) (json_get "mode" meta ≫= as_str)
  && none_or is_boolean (json_get "active" meta)
  && none_or is_object (json_get "budget" meta)
  && none_or (λ v, is_null v || is_string v) (json_get "supersedes" meta).
Definition event_meta_ok (meta : Json) : bool :=
  some_and (λ v, bool_decide (v ∈ payload_events)) (json_get "subkind" meta ≫= as_str)
  && some_and is_string (json_get "source" meta)
  && bool_decide (is_Some (json_get "payload" meta)).

Definition validate_payload_message m : result unit ActiveContextError :=
  let? _ := guard (is_boundary_candidate m || is_legacy_summary m) (InvalidPayload "recursive report or legacy summary") in
  let? _ := guard (negb (bool_decide (role m ∈ payload_roles)) && negb (is_static_compression_report m))
              (InvalidPayload "unsupported message role") in
  let? _ := guard (existsb (ui_only m) ["_ui_only"; "ui_only"]) (InvalidPayload "UI-only message in payload") in
  let? _ := guard (existsb (misplaced_control m) ["goal"; "plan"; "event"]) (InvalidPayload "incorrect control metadata") in
  let? _ := guard (bool_decide (role m ∈ ["goal"; "plan"]) && negb (some_and goal_meta_ok (extra m !! role m)))
              (InvalidPayload "malformed goal or plan metadata") in
  let? _ := guard (bool_decide (role m = "event") && negb (some_and event_meta_ok (extra m !! "event")))
              (InvalidPayload "malformed event metadata") in
  match to_value m with
  | None => Err (InvalidPayload "message serialization failed")
  | Some v =>
      let? _ := validate_depth v in
      guard (bool_decide (role m ∈ ["system"; "goal"; "plan"; "event"])
             && (negb (bool_decide (tool_call_id m = "")) || some_and (λ c, negb (bool_decide (length c = 0))) (tool_calls m)))
        (InvalidPayload "control message contains tool calls")
  end.
Fixpoint validate_payload_messages messages : result unit ActiveContextError :=
  match messages with
  | [] => Ok ()
  | m :: rest => let? _ := validate_payload_message m in validate_payload_messages rest
  end.
Definition validate_reconstruction_payload messages : result unit ActiveContextError :=
  match messages with
  | [] => Err (InvalidPayload "empty payload")
  | _ => let? _ := validate_ids messages true in validate_payload_messages messages
  end.

(** The payload of the report. *)
Definition parse_reconstruction_report m : result (list (Message C)) ActiveContextError :=
  match report_meta m with
  | None => Err (InvalidReport "missing metadata")
  | Some value =>
      let? _ := validate_depth value in
      let? _ := guard (negb (is_reconstruction_report m)) (InvalidReport "unknown kind or incorrect report role") in
      match json_get "schema_version" value ≫= as_u64 with
      | None => Err (InvalidReport "missing or invalid schema version")
      | Some version =>
          let? _ := guard (negb (version =? RECONSTRUCTION_SCHEMA_VERSION)%N)
                      (UnsupportedVersion (if (version <=? u32_max)%N then version else u32_max)) in
          match report_from_value value with
          | None => Err (InvalidReport "malformed metadata or payload")
          | Some payload => let? _ := validate_reconstruction_payload payload in Ok payload
          end
      end
  end.

Definition set_extra (e : gmap string Json) m : Message C := {|
  message_id := message_id m; role := role m; content := content m; tool_calls := tool_calls m;
  tool_call_id := tool_call_id m; summarized_range := summarized_range m; summarization_tier := summarization_tier m;
  summarized_token_estimate := summarized_token_estimate m; extra := e |}.

(** [fresh] is the generated id and [text] the content ["Conversation context reconstructed."]. *)
Definition make_reconstruction_report (fresh : string) (text : C) messages (metadata : Metadata)
  : result (Message C) ActiveContextError :=
  let? _ := validate_reconstruction_payload messages in
  match report_to_value messages metadata with
  | None => Err (InvalidReport "serialization failed")
  | Some value =>
      let? _ := validate_depth value in
      Ok {| message_id := fresh; role := COMPRESSION_REPORT_KEY; content := text; tool_calls := None; tool_call_id := "";
            summarized_range := None; summarization_tier := None; summarized_token_estimate := None;
            extra := {[ COMPRESSION_REPORT_KEY := value ]} |}
  end.

(** ** The projection *)

Record Active := { active_messages : list (Message C); report_index : option nat; origins : list MessageOrigin }.

Definition active_context stored : result Active ActiveContextError :=
  let index := rposition is_boundary_candidate stored in
  let? payload := match index ≫= (stored !!.) with
                  | Some report => parse_reconstruction_report report
                  | None => Ok []
                  end in
  let start := start_of index in
  if existsb is_legacy_summary (drop start stored) then Err NeedsExplicitRebuild
  else
    let messages := payload ++ drop start stored in
    let? _ := validate_ids messages false in
    Ok {| active_messages := messages; report_index := index;
          origins := imap (λ i _, ReportPayload (default 0 index) i) payload
                     ++ imap (λ i _, Stored (start + i)) (drop start stored) |}.

Definition legacy_rebuild_input (annotate : C → C) stored : result (list (Message C)) ActiveContextError :=
  let? input := match rposition is_boundary_candidate stored with
                | Some index =>
                    match stored !! index with
                    | Some report => let? payload := parse_reconstruction_report report in Ok (payload ++ drop (S index) stored)
                    | None => Ok stored
                    end
                | None => Ok stored
                end in
  let? _ := validate_ids input false in
  Ok ((λ m, if is_legacy_summary m then {|
              message_id := message_id m; role := role m; content := annotate (content m); tool_calls := tool_calls m;
              tool_call_id := tool_call_id m; summarized_range := None; summarization_tier := None;
              summarized_token_estimate := None;
              extra := <["legacy_summary_context" := JBool true]>
                         (delete "summarized_source_message_ids" (delete "compression" (extra m))) |}
            else m) <$> input).

(** ** Writing back *)

Definition serialized messages : option (list Json) := mapM to_value messages.
Definition same_messages (left right : list (Message C)) : bool := bool_decide (serialized left = serialized right).

(** The payload of the report is replaced in its JSON value. *)
Definition store_payload_messages (report : Message C) (payload : list (Message C)) : result (Message C) ActiveContextError :=
  let? _ := validate_reconstruction_payload payload in
  match serialized payload with
  | None => Err (InvalidWriteback "serialization failed")
  | Some values =>
      match report_meta report with
      | Some (JObject fields) =>
          match field "payload" fields with
          | Some (JObject inner) =>
              Ok (set_extra (<[COMPRESSION_REPORT_KEY :=
                                 JObject (field_insert "payload" (JObject (field_insert "messages" (JArray values) inner)) fields)]>
                               (extra report)) report)
          | _ => Err (InvalidWriteback "missing payload")
          end
      | _ => Err (InvalidWriteback "missing payload")
      end
  end.

Definition control_roles : list string := ["system"; "goal"; "plan"; "event"].
Definition controls messages : list (Message C) :=
  (λ m, if bool_decide (role m = "goal") then set_extra (delete "goal" (extra m)) m else m)
    <$> filter (λ m, role m ∈ control_roles) messages.

(** The place of a message of the new list in the old one; a message without id is a copy of an old one
    that was not used yet. *)
Definition find_idless (used : list nat) (original : Active) message : option nat :=
  fst <$> list_find (λ p, (p.1 ∉ used) ∧ message_id p.2 = "" ∧ same_messages [p.2] [message] = true)
            (imap pair (active_messages original)).
Definition origin_of (used : list nat) (original : Active) message : option (list nat * MessageOrigin) :=
  if bool_decide (message_id message = "") then
    i ← find_idless used original message; o ← origins original !! i; Some (i :: used, o)
  else
    i ← rposition (λ m, bool_decide (message_id m = message_id message)) (active_messages original);
    o ← origins original !! i; Some (used, o).

Record Split := { sp_payload : list (Message C); sp_suffix : list (Message C); sp_used : list nat; in_suffix : bool }.
Definition split_step (original : Active) (acc : Split) message : result Split ActiveContextError :=
  let? _ := guard (is_boundary_candidate message || is_legacy_summary message)
              (InvalidWriteback "transform introduced a boundary or legacy summary") in
  let found := origin_of (sp_used acc) original message in
  let used := match found with Some (used, _) => used | None => sp_used acc end in
  let? now_in_suffix := match snd <$> found with
                        | Some (ReportPayload _ _) =>
                            if in_suffix acc then Err (InvalidWriteback "payload moved after raw suffix") else Ok false
                        | Some (Stored _) => Ok true
                        | None => if is_static_compression_report message then Ok (in_suffix acc)
                                  else Err (InvalidWriteback "new or re-identified non-diagnostic message")
                        end in
  Ok (if now_in_suffix : bool
      then {| sp_payload := sp_payload acc; sp_suffix := sp_suffix acc ++ [message]; sp_used := used; in_suffix := true |}
      else {| sp_payload := sp_payload acc ++ [message]; sp_suffix := sp_suffix acc; sp_used := used; in_suffix := false |}).
Fixpoint split_messages (original : Active) (acc : Split) transformed : result Split ActiveContextError :=
  match transformed with
  | [] => Ok acc
  | m :: rest => let? acc := split_step original acc m in split_messages original acc rest
  end.

Definition writeback_active_context stored (original : Active) transformed : result (list (Message C)) ActiveContextError :=
  let? current := active_context stored in
  let? _ := guard (negb (bool_decide (report_index current = report_index original))
                   || negb (bool_decide (origins current = origins original))
                   || negb (same_messages (active_messages current) (active_messages original)))
              (InvalidWriteback "stale projection") in
  let? _ := validate_ids transformed false in
  let? _ := guard (negb (same_messages (controls (active_messages original)) (controls transformed)))
              (InvalidWriteback "transform changed control messages") in
  let? split := split_messages original
                  {| sp_payload := []; sp_suffix := []; sp_used := []; in_suffix := bool_decide (report_index original = None) |}
                  transformed in
  let? result := match report_index original with
                 | None => Ok (sp_suffix split)
                 | Some index =>
                     match stored !! index with
                     | None => Err (InvalidWriteback "stale projection")
                     | Some report =>
                         let? report := store_payload_messages report (sp_payload split) in
                         Ok (take index stored ++ report :: sp_suffix split)
                     end
                 end in
  let? projected := active_context result in
  let? _ := guard (negb (same_messages (active_messages projected) transformed))
              (InvalidWriteback "projection changed during writeback") in
  Ok result.

Definition set_message_id (id : string) m : Message C := {|
  message_id := id; role := role m; content := content m; tool_calls := tool_calls m;
  tool_call_id := tool_call_id m; summarized_range := summarized_range m; summarization_tier := summarization_tier m;
  summarized_token_estimate := summarized_token_estimate m; extra := extra m |}.
Definition insert_at {A} (i : nat) (x : A) (l : list A) : list A := take i l ++ x :: drop i l.

Definition insert_active_message (fresh : string) stored (active_index : nat) message
  : result (list (Message C) * MessageOrigin) ActiveContextError :=
  let? _ := guard (is_boundary_candidate message || is_legacy_summary message)
              (InvalidWriteback "insert introduced a boundary or legacy summary") in
  let? active := active_context stored in
  let? message := if bool_decide (message_id message = "") then Ok (set_message_id fresh message)
                  else if existsb (λ m, bool_decide (message_id m = message_id message)) (active_messages active)
                  then Err (InvalidWriteback "duplicate active message ID") else Ok message in
  let index := active_index `min` length (active_messages active) in
  let payload_len := length (filter (λ o, from_payload o = true) (origins active)) in
  let? inserted :=
    match report_index active with
    | Some report_idx =>
        if bool_decide (index < payload_len) then
          match stored !! report_idx with
          | None => Err (InvalidWriteback "missing payload")
          | Some report =>
              let? payload := parse_reconstruction_report report in
              let? report := store_payload_messages report (insert_at index message payload) in
              Ok (<[report_idx := report]> stored, ReportPayload report_idx index)
          end
        else
          let at_ := report_idx + 1 + (index - payload_len) in
          Ok (insert_at at_ message stored, Stored at_)
    | None => Ok (insert_at index message stored, Stored index)
    end in
  let '(result, origin) := inserted in
  let? projected := active_context result in
  let? _ := guard (negb (same_messages (active_messages projected) (insert_at index message (active_messages active))))
              (InvalidWriteback "projection changed during insert") in
  Ok (result, origin).
End active.
Arguments Active C : clear implicits.
Arguments Split C : clear implicits.
