(* ===== verification/ActiveContextProps.v ===== *)
(** * The active part of a chat's history: properties *)

From stdpp Require Import gmap strings list.
From S2P Require Import Prelude ActiveContext.

Section lists.
Context {A : Type} (f : A → bool).

Lemma rposition_Some l i : rposition f l = Some i → ∃ x, l !! i = Some x ∧ f x = true ∧ Forall (λ y, f y = false) (drop (S i) l).
Proof.
  revert i. induction l as [|x l IH]; intros i; cbn [rposition]; [done|]. destruct (rposition f l) as [j|] eqn:E.
  - intros [= <-]. cbn. by apply IH.
  - destruct (f x) eqn:Hx; [|done]. intros [= <-]. exists x. split_and!; [done|done|]. cbn. rewrite drop_0.
    clear IH. induction l as [|y l IH]; [constructor|]. cbn [rposition] in E. destruct (rposition f l); [done|].
    destruct (f y) eqn:Hy; [done|]. constructor; auto.
Qed.
Lemma rposition_None l : rposition f l = None ↔ Forall (λ y, f y = false) l.
Proof.
  induction l as [|x l IH]; cbn [rposition]; [split; [constructor|done]|]. rewrite Forall_cons, <- IH.
  destruct (rposition f l); [naive_solver|]. destruct (f x); naive_solver.
Qed.
Lemma rposition_app l x r : f x = true → Forall (λ y, f y = false) r → rposition f (l ++ x :: r) = Some (length l).
Proof.
  intros Hx Hr. induction l as [|y l IH]; cbn [app length rposition]; [|by rewrite IH]. by rewrite (proj2 (rposition_None r) Hr), Hx.
Qed.
End lists.

Lemma field_insert_ne k k' v fields : k ≠ k' → field k (field_insert k' v fields) = field k fields.
Proof.
  intros Hne. unfold field. induction fields as [|[k1 v1] fields IH]; cbn [field_insert].
  - cbn. by rewrite decide_False by (cbn; congruence).
  - destruct (rcmp k' k1) eqn:E; cbn.
    + apply rcmp_eq in E as <-. by rewrite !(decide_False (P := k' = k)) by congruence.
    + rewrite (decide_False (P := k' = k)) by congruence. cbn. destruct (decide (k1 = k)); cbn; [done|].
      by destruct (list_find _ fields) as [[]|].
    + destruct (decide (k1 = k)); cbn; [done|]. destruct (list_find _ (field_insert _ _ _)) as [[]|], (list_find _ fields) as [[]|]; cbn in *; congruence.
Qed.

Lemma guard_Ok c e : guard c e = Ok () ↔ c = false.
Proof. unfold guard. destruct c; split; congruence. Qed.

(** Splits the chain of checks that led to a value. *)
Ltac checks :=
  repeat match goal with
    | u : unit |- _ => destruct u
    | H : result_bind _ _ = Ok _ |- _ => apply result_bind_Ok in H as (? & ? & H); cbn beta in H
    | H : guard _ _ = Ok _ |- _ => apply guard_Ok in H
    | H : _ || _ = false |- _ => apply orb_false_iff in H as [? ?]
    | H : negb _ = false |- _ => apply negb_false_iff in H
    | H : bool_decide _ = true |- _ => apply bool_decide_eq_true in H
    | H : Ok _ = Ok _ |- _ => injection H as <-
    end.

Section active.
Context {C : Type} `{MessageSerde C}.
Implicit Types (m message : Message C) (messages stored transformed : list (Message C)).

Lemma ids_from_Ok seen messages req :
  ids_from seen messages req = Ok () →
  NoDup (filter (.≠ ""%string) (message_id <$> messages)) ∧ (∀ x, x ∈ filter (.≠ ""%string) (message_id <$> messages) → x ∉ seen).
Proof.
  revert seen. induction messages as [|m messages IH]; intros seen; cbn [ids_from]; [intros _; split; [constructor|intros x Hx; by apply elem_of_nil in Hx]|].
  rewrite fmap_cons. case_bool_decide as He.
  - destruct req; [done|]. rewrite filter_cons_False by (intros Hn; by apply Hn). apply IH.
  - case_bool_decide as Hs; [done|]. intros [Hnd Hx]%IH. rewrite filter_cons_True by done. split.
    + constructor; [|done]. intros Hin%Hx. apply Hin. by left.
    + intros x [->|Hin]%elem_of_cons; [done|]. apply Hx in Hin. intros ?. apply Hin. by right.
Qed.

(** What the projection is. *)
Record projects stored (a : Active C) (payload : list (Message C)) : Prop := {
  pj_index : report_index a = rposition is_boundary_candidate stored;
  pj_payload : match report_index a ≫= (stored !!.) with
               | Some report => parse_reconstruction_report report = Ok payload
               | None => payload = []
               end;
  pj_messages : active_messages a = payload ++ drop (start_of (report_index a)) stored;
  pj_origins : origins a = imap (λ i _, ReportPayload (default 0 (report_index a)) i) payload
                           ++ imap (λ i _, Stored (start_of (report_index a) + i)) (drop (start_of (report_index a)) stored);
  pj_tail : Forall (λ m, is_legacy_summary m = false) (drop (start_of (report_index a)) stored);
  pj_ids : NoDup (filter (.≠ ""%string) (message_id <$> active_messages a));
}.

Lemma active_context_Ok stored a : active_context stored = Ok a → ∃ payload, projects stored a payload.
Proof.
  unfold active_context. intros Ha. apply result_bind_Ok in Ha as (payload & Hp & Ha). exists payload.
  destruct (existsb _ _) eqn:Hl; [done|]. checks. match goal with Hv : validate_ids _ _ = Ok _ |- _ => apply ids_from_Ok in Hv as [Hnd _] end.
  split; cbn [report_index active_messages origins]; try done.
  - destruct (rposition _ _ ≫= _); [done|]. by injection Hp as <-.
  - apply Forall_forall. intros m Hm. destruct (is_legacy_summary m) eqn:E; [|done].
    rewrite <- not_true_iff_false, existsb_elem in Hl. exfalso. apply Hl. by exists m.
Qed.

(** A report found by the projection is there and is one. *)
Lemma report_there stored a payload i : projects stored a payload → report_index a = Some i →
  ∃ report, stored !! i = Some report ∧ parse_reconstruction_report report = Ok payload
            ∧ Forall (λ m, is_boundary_candidate m = false) (drop (S i) stored).
Proof.
  intros [Hi Hp _ _ _ _] E. rewrite Hi in E. destruct (rposition_Some _ _ _ E) as (r & Hr & _ & Hd).
  rewrite Hi, E in Hp. cbn in Hp. rewrite Hr in Hp. by exists r.
Qed.

Lemma parse_is_report m payload : parse_reconstruction_report m = Ok payload → is_reconstruction_report m = true.
Proof. unfold parse_reconstruction_report. destruct (report_meta m); [|done]. intros Hp. checks. done. Qed.

(** Storing another payload changes nothing else, and leaves a report. *)
Lemma store_payload_spec report payload report' :
  store_payload_messages report payload = Ok report' → is_reconstruction_report report = true →
  is_boundary_candidate report' = true ∧
  ∃ v, report' = set_extra (<[COMPRESSION_REPORT_KEY := v]> (extra report)) report.
Proof.
  unfold store_payload_messages. intros Hs Hr. checks. destruct (serialized payload) as [vs|]; [|done].
  destruct (report_meta report) as [[| | | | |fields]|] eqn:Hm; try done. destruct (field "payload" fields) as [[| | | | |inner]|]; try done. checks.
  split; [|by eexists]. unfold is_reconstruction_report, has_kind in Hr. apply andb_true_iff in Hr as [Hrole Hk]. checks.
  unfold is_boundary_candidate, is_static_compression_report, has_kind, report_meta in *. cbn [extra role set_extra].
  rewrite lookup_insert, decide_True by done. rewrite Hm in Hk. unfold json_get_str in *. cbn [mbind option_bind json_get] in *.
  rewrite field_insert_ne by done. rewrite Hk. apply andb_true_iff. split; [|apply orb_true_iff; left; by apply bool_decide_eq_true].
  apply andb_true_iff. split; [apply bool_decide_eq_true; by eexists|]. rewrite (bool_decide_eq_false_2 (Some _ = Some _)) by done. by rewrite andb_false_r.
Qed.

(** *** The split of a write-back *)

Definition accounted (original : Active C) m : Prop :=
  is_static_compression_report m = true
  ∨ ∃ old, old ∈ active_messages original ∧
      (message_id old = message_id m ∧ message_id m ≠ ""%string ∨ message_id m = ""%string ∧ same_messages [old] [m] = true).
Lemma origin_of_accounted used original m r : origin_of used original m = Some r → accounted original m.
Proof.
  unfold origin_of. intros Ho. right. case_bool_decide as He.
  - destruct (find_idless used original m) as [i|] eqn:E; [|done]. unfold find_idless in E.
    apply fmap_Some in E as ([j [k old]] & Hf & ->). apply list_find_Some in Hf as (Hl & (_ & _ & Hs) & _).
    rewrite list_lookup_imap in Hl. apply fmap_Some in Hl as (x & Hl & [= -> ->]). exists x. split; [by eapply list_elem_of_lookup_2|]. by right.
  - destruct (rposition _ _) as [i|] eqn:E; [|done]. destruct (rposition_Some _ _ _ E) as (old & Hold & Hid%bool_decide_eq_true & _).
    exists old. split; [by eapply list_elem_of_lookup_2|]. by left.
Qed.

Record split_inv (original : Active C) (done_ : list (Message C)) (s : Split C) : Prop := {
  si_all : sp_payload s ++ sp_suffix s = done_;
  si_payload : in_suffix s = false → sp_suffix s = [];
  si_clean : Forall (λ m, is_boundary_candidate m = false ∧ is_legacy_summary m = false ∧ accounted original m) done_;
}.
Lemma split_step_inv original done_ s m s' :
  split_inv original done_ s → split_step original s m = Ok s' →
  split_inv original (done_ ++ [m]) s' ∧ (in_suffix s = true → in_suffix s' = true ∧ sp_payload s' = sp_payload s).
Proof.
  intros [Ha Hp Hc] Hs. unfold split_step in Hs. cbv zeta in Hs. checks.
  match goal with Hb : match snd <$> _ with _ => _ end = Ok ?nb |- _ => rename nb into b; rename Hb into Hb0 end.
  assert (accounted original m) as Hacc.
  { destruct (origin_of (sp_used s) original m) as [r|] eqn:E; [by eapply origin_of_accounted|]. cbn in Hb0. left.
    by destruct (is_static_compression_report m). }
  assert (in_suffix s = true → b = true) as Hstay.
  { intros Hin. destruct (origin_of (sp_used s) original m) as [[? []]|]; cbn in Hb0; rewrite ?Hin in Hb0; try by checks.
    destruct (is_static_compression_report m); by checks. }
  split; [|intros Hin; rewrite (Hstay Hin); by split].
  split; [| |by apply Forall_app; split; [|constructor]].
  - destruct b; cbn; [by rewrite app_assoc, Ha|]. destruct (in_suffix s); [by discriminate Hstay|]. rewrite (Hp eq_refl), app_nil_r in Ha |- *. by rewrite Ha.
  - destruct b; cbn; [done|]. intros _. destruct (in_suffix s); [by discriminate Hstay|]. by apply Hp.
Qed.
Lemma split_messages_inv original transformed : ∀ done_ s s',
  split_inv original done_ s → split_messages original s transformed = Ok s' →
  split_inv original (done_ ++ transformed) s' ∧ (in_suffix s = true → sp_payload s' = sp_payload s).
Proof.
  induction transformed as [|m rest IH]; intros done_ s s' Hi Hs; cbn [split_messages] in Hs.
  - checks. by rewrite app_nil_r.
  - checks. match goal with Hst : split_step _ _ _ = Ok _ |- _ => destruct (split_step_inv _ _ _ _ _ Hi Hst) as [Hi' Hk] end.
    destruct (IH _ _ _ Hi' Hs) as [Hi'' Hk']. rewrite <- app_assoc in Hi''. split; [done|].
    intros Hin. destruct (Hk Hin) as [Hin' <-]. by apply Hk'.
Qed.

(** C40. A write-back is read back: the new history projects to what was written, behind the same
    report.  What the report stands for is kept, and of the report only its payload changes; no
    message is made up, and the control messages stay. *)
Theorem writeback_keeps_the_archive stored original transformed result :
  writeback_active_context stored original transformed = Ok result →
  ∃ active, active_context result = Ok active
    ∧ serialized (active_messages active) = serialized transformed
    ∧ report_index active = report_index original
    ∧ serialized (controls transformed) = serialized (controls (active_messages original))
    ∧ Forall (accounted original) transformed
    ∧ match report_index original with
      | None => result = transformed
      | Some index =>
          take index result = take index stored
          ∧ ∃ report v, stored !! index = Some report
              ∧ result !! index = Some (set_extra (<[COMPRESSION_REPORT_KEY := v]> (extra report)) report)
      end.
Proof.
  unfold writeback_active_context, same_messages. intros Hw. checks.
  match goal with Hc : active_context stored = Ok ?c |- _ => destruct (active_context_Ok _ _ Hc) as [payload Hpj] end.
  match goal with Hsp : split_messages _ _ _ = Ok ?s |- _ => rename Hsp into Hsplit; set (sp := s) in * end.
  apply (split_messages_inv _ _ []) in Hsplit as [[Hall _ Hclean] Hin]; [|by split]. cbn [app] in Hall, Hclean.
  cbn [in_suffix sp_payload] in Hin.
  assert (Forall (λ m, is_boundary_candidate m = false) (sp_suffix sp)) as Hsuf.
  { rewrite <- Hall in Hclean. apply Forall_app in Hclean as [_ Hclean]. eapply Forall_impl; [exact Hclean|]. by intros m (? & _). }
  match goal with Hp : active_context ?r = Ok ?p |- context [take _ ?r] => exists p; destruct (active_context_Ok _ _ Hp) as [payload' Hpj'] end.
  assert (Forall (accounted original) transformed) as Hacc by (eapply Forall_impl; [exact Hclean|]; by intros m (_ & _ & ?)).
  destruct (report_index original) as [index|] eqn:Hidx.
  - match goal with He : report_index _ = Some index |- _ => destruct (report_there _ _ _ _ Hpj He) as (report & Hrep & Hparse & _) end.
    rewrite Hrep in *. checks.
    match goal with Hst : store_payload_messages _ _ = Ok _ |- _ => apply store_payload_spec in Hst as [Hb [v ->]]; [|by eapply parse_is_report] end.
    assert (length (take index stored) = index) as Hlen by (apply length_take_le; apply lookup_lt_Some in Hrep; lia).
    split_and!; try done.
    + rewrite (pj_index _ _ _ Hpj'), rposition_app, Hlen; done.
    + by rewrite take_app_length' by done.
    + exists report, v. split; [done|]. by rewrite lookup_app_r, Hlen, Nat.sub_diag by lia.
  - checks. split_and!; try done.
    + rewrite (pj_index _ _ _ Hpj'). by apply rposition_None.
    + rewrite <- Hall. by rewrite Hin by done.
Qed.

(** An insertion shows up at its place, and the messages that the report stands for are kept. *)
Lemma insertion_keeps_the_archive fresh stored i message result origin :
  insert_active_message fresh stored i message = Ok (result, origin) →
  ∃ active active' message',
    active_context stored = Ok active ∧ active_context result = Ok active'
    ∧ (message' = message ∨ message' = set_message_id fresh message)
    ∧ serialized (active_messages active') = serialized (insert_at (i `min` length (active_messages active)) message' (active_messages active))
    ∧ match report_index active with Some index => take index result = take index stored | None => True end
    ∧ match origin with Stored k => result !! k = Some message' | ReportPayload k _ => report_index active = Some k end.
Proof.
  unfold insert_active_message, same_messages. intros Hw. checks. match goal with Hc : active_context stored = Ok ?c |- _ => rename c into active; rename Hc into Hc0 end.
  destruct (active_context_Ok _ _ Hc0) as [payload Hpj].
  match goal with Hm : (if bool_decide (message_id message = _) then _ else _) = Ok ?m' |- _ => rename Hm into Hm0, m' into message' end.
  match goal with Hi : match report_index active with _ => _ end = Ok ?r |- _ => destruct r as [result' origin']; rename Hi into Hins end.
  apply result_bind_Ok in Hw as (active' & Hact & Hw). checks. simplify_eq.
  exists active, active', message'. split_and!; try done.
  - clear -Hm0. case_bool_decide; [|destruct (existsb _ _); [done|]]; simplify_eq; auto.
  - destruct (report_index active) as [idx|] eqn:Hidx; [|done].
    destruct (report_there _ _ _ _ Hpj Hidx) as (report & Hrep & Hparse & _). apply lookup_lt_Some in Hrep as Hlt.
    case_bool_decide; [rewrite Hrep in Hins|]; checks.
    + by rewrite take_insert_ge by lia.
    + simplify_eq. unfold insert_at. rewrite take_app_le, take_take by (rewrite length_take; lia). f_equal. lia.
  - pose proof (pj_messages _ _ _ Hpj) as Hmsgs.
    destruct (report_index active) as [idx|] eqn:Hidx.
    + destruct (report_there _ _ _ _ Hpj Hidx) as (report & Hrep & Hparse & _). apply lookup_lt_Some in Hrep as Hlt.
      case_bool_decide as Hi; [rewrite Hrep in Hins|]; checks; simplify_eq; [done|].
      assert (length (filter (λ o, from_payload o = true) (origins active)) = length payload) as Hpl.
      { rewrite (pj_origins _ _ _ Hpj), filter_app, length_app.
        rewrite (filter_every _ (imap _ payload)), (filter_none _ (imap _ (drop _ _))), length_imap; [cbn; lia| |];
          intros o (j & y & -> & _)%elem_of_lookup_imap; done. }
      assert (length (active_messages active) = length payload + (length stored - S idx)) as Hal
        by (rewrite Hmsgs, length_app, length_drop; done).
      rewrite Hpl in *. unfold insert_at. apply list_lookup_middle. rewrite length_take. lia.
    + simplify_eq. assert (payload = []) as -> by (pose proof (pj_payload _ _ _ Hpj) as Hp; by rewrite Hidx in Hp).
      cbn in Hmsgs. rewrite drop_0 in Hmsgs. rewrite Hmsgs. unfold insert_at.
      apply list_lookup_middle. rewrite length_take. lia.
Qed.
End active.
