(* ===== verification/Delivery.v ===== *)
(** * Delivery of messages into a chat

    [chat/session.rs] (the pending deliveries of a session), [chat/delivery.rs] and the delivery
    types of [refact-core/src/chat_types.rs].  A batch of messages waits until the boundary it asks for
    is open; its id is kept with the messages it becomes, so that it lands once, also across restarts.

    Of a session, the fields are those that decide about deliveries; [compressing] is
    [compression_attempt_active], [queued_commands] the length of the command queue, and the parts of
    [add_message_at_boundary] that follow the goal are left out, as are the events sent to subscribers.
    Generated message ids are taken from a supply, [uuid]. *)

From stdpp Require Import gmap strings list.
From S2P Require Import Prelude RustStr Settings ActiveContext.

(** ** Data *)

Inductive PushMode := Preempt | Append | WhenIdle.
#[global] Instance PushMode_eq_dec : EqDecision PushMode.
Proof. solve_decision. Defined.
Definition push_str (p : PushMode) : string :=
  match p with Preempt => "preempt" | Append => "append" | WhenIdle => "when_idle" end.
Definition parse_push (value : string) : option PushMode :=
  let t := trim (chars value) in
  if bool_decide (t = lit "preempt") then Some Preempt
  else if bool_decide (t = lit "append") then Some Append
  else if bool_decide (t = lit "when_idle") then Some WhenIdle else None.
(** [PushMode::from_args] of the argument [push]. *)
Definition push_from_args (arg : option Json) : option PushMode :=
  match arg with
  | None | Some JNull => Some Append
  | Some (JString value) => parse_push value
  | Some _ => None
  end.

Inductive DeliveryOutcome := OQueued | ODelivered | ODuplicate | OExpired | OSuperseded | OSealed.
Inductive DeliveryStatus :=
  | SPending | SDelivered | SConsumed | SExpired | SSuperseded | SSealed | SFailed | SUnknown.
#[global] Instance DeliveryStatus_eq_dec : EqDecision DeliveryStatus.
Proof. solve_decision. Defined.
#[global] Instance DeliveryOutcome_eq_dec : EqDecision DeliveryOutcome.
Proof. solve_decision. Defined.

Record PeerMailStamp := { peer_project : string; sender_root : string; recipient_root : string }.
Record CausalStamp := { event_id : string; caused_by : list string }.
Record DeliveryStatusRecord := { ds_id : string; ds_status : DeliveryStatus }.

Record PendingDelivery (C : Type) := {
  after_tool_call_id : option string;
  thread_patch : option Json;
  pd_id : string;
  pd_messages : list (Message C);
  push : PushMode;
  source : string;
  wake : bool;
  enqueued_at_ms : N;
  expires_at_ms : option N;
  supersede_key : option string;
  peer_mail : option PeerMailStamp;
  causal : option CausalStamp;
}.
Arguments after_tool_call_id {C} _.
Arguments thread_patch {C} _.
Arguments pd_id {C} _.
Arguments pd_messages {C} _.
Arguments push {C} _.
Arguments source {C} _.
Arguments wake {C} _.
Arguments enqueued_at_ms {C} _.
Arguments expires_at_ms {C} _.
Arguments supersede_key {C} _.
Arguments peer_mail {C} _.
Arguments causal {C} _.

Definition DELIVERY_EXTRA_KEY : string := "delivery".
Definition MIN_PLAUSIBLE_DELIVERY_ENQUEUE_MS : N := 1700000000000.

Inductive SessionState :=
  | Idle | Generating | ExecutingTools | Paused | WaitingIde | WaitingUserInput | Completed | SsError.
#[global] Instance SessionState_eq_dec : EqDecision SessionState.
Proof. solve_decision. Defined.

Inductive DeliveryError := Refused (reason : string) | NoContext (e : ActiveContextError).

(** The modes and models a [thread_patch] may change; [other_params] are the rest of the parameters. *)
Record Thread (P : Type) := { mode : string; model : string; previous_response_id : option string; other_params : P }.
Arguments mode {P} _.
Arguments model {P} _.
Arguments previous_response_id {P} _.
Arguments other_params {P} _.

Record Session (C P : Type) := {
  messages : list (Message C);
  draft_message : option (Message C);
  pending_deliveries : list (PendingDelivery C);
  runner_pending_deliveries : list (PendingDelivery C);
  delivered_delivery_ids : gset string;
  dropped_deliveries : list DeliveryStatusRecord;
  post_tool_side_effects : list (Message C);
  delivery_wake_sources : gset string;
  thread : Thread P;
  state : SessionState;
  turn_depth : N;
  interruptible_waits : N;
  wait_tool_window_active : bool;
  wait_delivery_boundary : bool;
  wait_interrupt_flag : bool;
  abort_flag : bool;
  user_interrupt_flag : bool;
  queued_commands : N;
  planner_paused : bool;
  planner_pause_pending_tools : bool;
  compressing : bool;
  closed : bool;
  next_uuid : nat;
}.
Arguments messages {C P} _.
Arguments draft_message {C P} _.
Arguments pending_deliveries {C P} _.
Arguments runner_pending_deliveries {C P} _.
Arguments delivered_delivery_ids {C P} _.
Arguments dropped_deliveries {C P} _.
Arguments post_tool_side_effects {C P} _.
Arguments delivery_wake_sources {C P} _.
Arguments thread {C P} _.
Arguments state {C P} _.
Arguments turn_depth {C P} _.
Arguments interruptible_waits {C P} _.
Arguments wait_tool_window_active {C P} _.
Arguments wait_delivery_boundary {C P} _.
Arguments wait_interrupt_flag {C P} _.
Arguments abort_flag {C P} _.
Arguments user_interrupt_flag {C P} _.
Arguments queued_commands {C P} _.
Arguments planner_paused {C P} _.
Arguments planner_pause_pending_tools {C P} _.
Arguments compressing {C P} _.
Arguments closed {C P} _.
Arguments next_uuid {C P} _.

(** ** Deliveries *)

Section deliveries.
Context {C : Type}.
Implicit Types (d : PendingDelivery C).

Definition upd_times (enq : N) (expires : option N) d : PendingDelivery C := {|
  after_tool_call_id := after_tool_call_id d; thread_patch := thread_patch d; pd_id := pd_id d;
  pd_messages := pd_messages d; push := push d; source := source d; wake := wake d; enqueued_at_ms := enq;
  expires_at_ms := expires; supersede_key := supersede_key d; peer_mail := peer_mail d; causal := causal d |}.
Definition set_push (p : PushMode) d : PendingDelivery C := {|
  after_tool_call_id := after_tool_call_id d; thread_patch := thread_patch d; pd_id := pd_id d;
  pd_messages := pd_messages d; push := p; source := source d; wake := wake d; enqueued_at_ms := enqueued_at_ms d;
  expires_at_ms := expires_at_ms d; supersede_key := supersede_key d; peer_mail := peer_mail d; causal := causal d |}.
Definition set_wake (w : bool) d : PendingDelivery C := {|
  after_tool_call_id := after_tool_call_id d; thread_patch := thread_patch d; pd_id := pd_id d;
  pd_messages := pd_messages d; push := push d; source := source d; wake := w; enqueued_at_ms := enqueued_at_ms d;
  expires_at_ms := expires_at_ms d; supersede_key := supersede_key d; peer_mail := peer_mail d; causal := causal d |}.
Definition set_after (a : option string) d : PendingDelivery C := {|
  after_tool_call_id := a; thread_patch := thread_patch d; pd_id := pd_id d;
  pd_messages := pd_messages d; push := push d; source := source d; wake := wake d; enqueued_at_ms := enqueued_at_ms d;
  expires_at_ms := expires_at_ms d; supersede_key := supersede_key d; peer_mail := peer_mail d; causal := causal d |}.

(** [PendingDelivery::with_id] at time [now]. *)
Definition new_delivery (id : string) (ms : list (Message C)) (p : PushMode) (src : string) (w : bool) (now : N)
  : PendingDelivery C := {|
  after_tool_call_id := None; thread_patch := None; pd_id := id; pd_messages := ms; push := p; source := src; wake := w;
  enqueued_at_ms := now; expires_at_ms := None; supersede_key := None; peer_mail := None; causal := None |}.

Local Open Scope N_scope.
Definition deadline_ms (base_ms ttl_secs : N) : N := base_ms +sat (ttl_secs *sat 1000).
Definition set_ttl_secs (ttl_secs : N) d : PendingDelivery C :=
  upd_times (enqueued_at_ms d) (Some (deadline_ms (enqueued_at_ms d) ttl_secs)) d.
Definition ensure_ttl_secs (now_ms ttl_secs : N) d : PendingDelivery C :=
  let d := if enqueued_at_ms d =? 0 then upd_times now_ms (expires_at_ms d) d else d in
  match expires_at_ms d with None => set_ttl_secs ttl_secs d | Some _ => d end.
Definition has_plausible_enqueue_time d : bool := MIN_PLAUSIBLE_DELIVERY_ENQUEUE_MS <=? enqueued_at_ms d.
Definition ensure_restored_ttl_secs (now_ms ttl_secs : N) d : PendingDelivery C :=
  let d := if bool_decide (expires_at_ms d = None) && negb (has_plausible_enqueue_time d)
           then upd_times (enqueued_at_ms d) (Some (deadline_ms now_ms ttl_secs)) d else d in
  ensure_ttl_secs now_ms ttl_secs d.
Definition is_expired_at (now_ms : N) d : bool := some_and (λ deadline, deadline <=? now_ms) (expires_at_ms d).

Definition supersedes d (other : PendingDelivery C) : bool :=
  negb (bool_decide (pd_id d = pd_id other))
  && some_and (λ key, bool_decide (supersede_key other = Some key)) (supersede_key d).

(** The provenance written onto the messages, and read back. *)
Definition delivery_stamp d : Json :=
  JObject [("at_ms", JNumber (PosInt (enqueued_at_ms d))); ("id", JString (pd_id d));
           ("push", JString (push_str (push d))); ("source", JString (source d))]%string.
Definition stamp_messages d : list (Message C) :=
  (λ m, set_extra (<[DELIVERY_EXTRA_KEY := delivery_stamp d]> (extra m)) m) <$> pd_messages d.
Definition delivery_id_of_message (m : Message C) : option string := json_get_str "id" (extra m !! DELIVERY_EXTRA_KEY).

(** The check of a [thread_patch]: an object whose fields are a mode and a model. *)
Definition check_patch (patch : Json) : result unit DeliveryError :=
  match patch with
  | JObject fields =>
      if existsb (λ p, negb (bool_decide (p.1 ∈ ["mode"; "model"]%string)) || negb (is_string p.2)) fields
      then Err (Refused "delivery thread_patch supports only string mode and model fields") else Ok ()
  | _ => Err (Refused "delivery thread_patch must be an object")
  end.
End deliveries.

(** ** Modes *)

(** [str::to_uppercase] as far as its result can be one of the names below: the characters whose upper
    case is made of ASCII letters. *)
Definition upper_char (c : N) : text :=
  if ((97 <=? c) && (c <=? 122))%N then [(c - 32)%N]
  else match c with
       | 223 => lit "SS" | 305 => lit "I" | 383 => lit "S"
       | 64256 => lit "FF" | 64257 => lit "FI" | 64258 => lit "FL" | 64259 => lit "FFI" | 64260 => lit "FFL"
       | 64261 => lit "ST" | 64262 => lit "ST"
       | _ => [c]
       end%N.
Definition to_uppercase (t : text) : text := t ≫= upper_char.
Definition is_mode_char (c : N) : bool :=
  (((97 <=? c) && (c <=? 122)) || ((48 <=? c) && (c <=? 57)) || (c =? 95) || (c =? 45))%N.
Definition legacy_modes : list (string * string) :=
  [("NO_TOOLS", "explore"); ("EXPLORE", "explore"); ("AGENT", "agent"); ("CONFIGURE", "configurator");
   ("TASK_PLANNER", "task_planner"); ("TASK_AGENT", "task_agent"); ("BRAINSTORM", "brainstorming");
   ("BRAINSTORMING", "brainstorming")].
Definition map_legacy_mode_to_id (mode_str : string) : string :=
  match list_find (λ p, lit p.1 = to_uppercase (chars mode_str)) legacy_modes with
  | Some (_, (_, id)) => id
  | None => if forallb is_mode_char (chars mode_str) then mode_str else "agent"
  end.

(** ** Calls and results *)

Section windows.
Context {C : Type}.
Implicit Types (m : Message C) (ms : list (Message C)).

Definition ends_results : list string := ["assistant"; "user"; "event"; "plan"; "goal"].
Definition is_answer m : bool := bool_decide (role m ∈ ["tool"; "diff"]%string) && negb (bool_decide (tool_call_id m = ""%string)).
(** The results that follow, up to the next message of a turn. *)
Fixpoint results_of ms : list string :=
  match ms with
  | [] => []
  | m :: rest =>
      if is_answer m then tool_call_id m :: results_of rest
      else if bool_decide (role m ∈ ends_results) then [] else results_of rest
  end.
Definition result_ids_after_assistant ms (assistant_index : nat) : list string := results_of (drop (S assistant_index) ms).

(** For an interruption, control messages between the results are passed over, others end them. *)
Fixpoint answered_of ms : list string :=
  match ms with
  | [] => []
  | m :: rest =>
      if is_answer m then tool_call_id m :: answered_of rest
      else if bool_decide (role m ∈ ["event"; "plan"; "goal"]%string) then answered_of rest else []
  end.
Definition answered_tool_call_ids_for_interruption ms (assistant_index : nat) : list string :=
  answered_of (drop (S assistant_index) ms).

Definition all_tool_call_ids_have_results_after ms (assistant_index : nat) (ids : list string) : bool :=
  forallb (λ id, bool_decide (id ∈ result_ids_after_assistant ms assistant_index)) ids.

(** The ids of the calls of an assistant message, if it has any and [id] is one of them. *)
Definition window_of (id : option string) m : option (list string) :=
  if negb (bool_decide (role m = "assistant"%string)) then None
  else
    calls ← tool_calls m;
    if bool_decide (calls = []) then None
    else if none_or (λ id, existsb (λ tc, bool_decide (call_id tc = id)) calls) id then Some (call_id <$> calls)
    else None.
Fixpoint last_window (id : option string) (i : nat) ms : option (nat * list string) :=
  match ms with
  | [] => None
  | m :: rest =>
      match last_window id (S i) rest with
      | Some w => Some w
      | None => (λ ids, (i, ids)) <$> window_of id m
      end
  end.

Context `{MessageSerde C}.

Definition mutable_message_start ms : option nat :=
  match active_context ms with Ok active => Some (start_of (report_index active)) | Err _ => None end.
Definition latest_assistant_tool_call_window ms (id : option string) : option (nat * list string) :=
  start ← mutable_message_start ms; last_window id start (drop start ms).

Definition has_pending_tool_result_window ms : bool :=
  match latest_assistant_tool_call_window ms None with
  | Some (i, ids) => negb (all_tool_call_ids_have_results_after ms i ids)
  | None => false
  end.
Definition tool_result_window_closed_for_tool_call ms (id : string) : bool :=
  match latest_assistant_tool_call_window ms (Some id) with
  | Some (i, ids) => all_tool_call_ids_have_results_after ms i ids
  | None => negb (has_pending_tool_result_window ms)
  end.

Definition set_tool_calls (calls : option (list ToolCall)) m : Message C := {|
  message_id := message_id m; role := role m; content := content m; tool_calls := calls;
  tool_call_id := tool_call_id m; summarized_range := summarized_range m; summarization_tier := summarization_tier m;
  summarized_token_estimate := summarized_token_estimate m; extra := extra m |}.
(** [clear_pending_tool_calls_for_interruption]: of the last calls, those without a result go. *)
Definition retain_answered (answered : list string) m : Message C :=
  match tool_calls m with
  | None => m
  | Some calls =>
      let retained := filter (λ tc, call_id tc ∈ answered) calls in
      if bool_decide (length retained = length calls) then m
      else set_tool_calls (if bool_decide (retained = []) then None else Some retained) m
  end.
Definition clear_pending_tool_calls_for_interruption ms : list (Message C) :=
  match latest_assistant_tool_call_window ms None with
  | Some (i, _) => alter (retain_answered (answered_tool_call_ids_for_interruption ms i)) i ms
  | None => ms
  end.

(** [control_kind] *)
Definition event_subkind m : option string := json_get_str "subkind" (extra m !! "event"%string).
Inductive ControlKind := KPlan | KGoal.
Definition control_kind m : option ControlKind :=
  if bool_decide (role m = "plan"%string) then Some KPlan
  else if bool_decide (role m = "goal"%string) then Some KGoal
  else if bool_decide (role m = "event"%string) then
    if bool_decide (event_subkind m = Some "plan_delta"%string) then Some KPlan
    else if bool_decide (event_subkind m ∈ Some <$> ["goal_delta"; "goal_status"; "goal_verdict"; "goal_pursuit"]%string)
    then Some KGoal else None
  else None.
End windows.
#[global] Instance ControlKind_eq_dec : EqDecision ControlKind.
Proof. solve_decision. Defined.
