(* ===== verification/DeliveryQueue.v ===== *)
(** * The pending deliveries of a session

    [chat/session.rs]: enqueueing, landing at a boundary, expiry, replacement, the status of a delivery,
    edits of the history and restoring after a restart.  [now] is the clock of the call; [max_queue] is the
    limit [max_queue_size]; [text] makes plain content.  Restoring a trajectory is [restart]. *)

From stdpp Require Import gmap strings list.
From S2P Require Import Prelude RustStr Settings ActiveContext Delivery.

(** What the queue takes from its surroundings: plain content, generated ids, and the parameters of a
    thread besides mode and model. *)
Class ChatEnv (C P : Type) := {
  simple_text : string → C;
  uuid : nat → string;
  apply_other_params : Json → P → P;
  max_queue : N;
  settings : CoordinationSettings;
}.

Section queue.
Context {C P : Type} `{MessageSerde C} `{ChatEnv C P}.
Abbreviation Sess := (Session C P).
Implicit Types (s : Sess) (d : PendingDelivery C) (m : Message C).

(** ** Field updates *)

Definition upd_queue (pending runner : list (PendingDelivery C)) (delivered : gset string)
    (dropped : list DeliveryStatusRecord) s : Sess := {|
  messages := messages s; draft_message := draft_message s; pending_deliveries := pending;
  runner_pending_deliveries := runner; delivered_delivery_ids := delivered; dropped_deliveries := dropped;
  post_tool_side_effects := post_tool_side_effects s; delivery_wake_sources := delivery_wake_sources s;
  thread := thread s; state := state s; turn_depth := turn_depth s; interruptible_waits := interruptible_waits s;
  wait_tool_window_active := wait_tool_window_active s; wait_delivery_boundary := wait_delivery_boundary s;
  wait_interrupt_flag := wait_interrupt_flag s; abort_flag := abort_flag s; user_interrupt_flag := user_interrupt_flag s;
  queued_commands := queued_commands s; planner_paused := planner_paused s;
  planner_pause_pending_tools := planner_pause_pending_tools s; compressing := compressing s; closed := closed s;
  next_uuid := next_uuid s |}.
Definition upd_messages (ms : list (Message C)) (draft : option (Message C)) (side : list (Message C)) (n : nat) s : Sess := {|
  messages := ms; draft_message := draft; pending_deliveries := pending_deliveries s;
  runner_pending_deliveries := runner_pending_deliveries s; delivered_delivery_ids := delivered_delivery_ids s;
  dropped_deliveries := dropped_deliveries s;
  post_tool_side_effects := side; delivery_wake_sources := delivery_wake_sources s;
  thread := thread s; state := state s; turn_depth := turn_depth s; interruptible_waits := interruptible_waits s;
  wait_tool_window_active := wait_tool_window_active s; wait_delivery_boundary := wait_delivery_boundary s;
  wait_interrupt_flag := wait_interrupt_flag s; abort_flag := abort_flag s; user_interrupt_flag := user_interrupt_flag s;
  queued_commands := queued_commands s; planner_paused := planner_paused s;
  planner_pause_pending_tools := planner_pause_pending_tools s; compressing := compressing s; closed := closed s;
  next_uuid := n |}.
Definition upd_turn (st : SessionState) (abort interrupt : bool) s : Sess := {|
  messages := messages s; draft_message := draft_message s; pending_deliveries := pending_deliveries s;
  runner_pending_deliveries := runner_pending_deliveries s; delivered_delivery_ids := delivered_delivery_ids s;
  dropped_deliveries := dropped_deliveries s;
  post_tool_side_effects := post_tool_side_effects s; delivery_wake_sources := delivery_wake_sources s;
  thread := thread s; state := st; turn_depth := turn_depth s; interruptible_waits := interruptible_waits s;
  wait_tool_window_active := wait_tool_window_active s; wait_delivery_boundary := wait_delivery_boundary s;
  wait_interrupt_flag := wait_interrupt_flag s; abort_flag := abort; user_interrupt_flag := interrupt;
  queued_commands := queued_commands s; planner_paused := planner_paused s;
  planner_pause_pending_tools := planner_pause_pending_tools s; compressing := compressing s; closed := closed s;
  next_uuid := next_uuid s |}.
Definition upd_thread (t : Thread P) (wakes : gset string) s : Sess := {|
  messages := messages s; draft_message := draft_message s; pending_deliveries := pending_deliveries s;
  runner_pending_deliveries := runner_pending_deliveries s; delivered_delivery_ids := delivered_delivery_ids s;
  dropped_deliveries := dropped_deliveries s;
  post_tool_side_effects := post_tool_side_effects s; delivery_wake_sources := wakes;
  thread := t; state := state s; turn_depth := turn_depth s; interruptible_waits := interruptible_waits s;
  wait_tool_window_active := wait_tool_window_active s; wait_delivery_boundary := wait_delivery_boundary s;
  wait_interrupt_flag := wait_interrupt_flag s; abort_flag := abort_flag s; user_interrupt_flag := user_interrupt_flag s;
  queued_commands := queued_commands s; planner_paused := planner_paused s;
  planner_pause_pending_tools := planner_pause_pending_tools s; compressing := compressing s; closed := closed s;
  next_uuid := next_uuid s |}.
Definition upd_waits (waits : N) (window boundary interrupt : bool) s : Sess := {|
  messages := messages s; draft_message := draft_message s; pending_deliveries := pending_deliveries s;
  runner_pending_deliveries := runner_pending_deliveries s; delivered_delivery_ids := delivered_delivery_ids s;
  dropped_deliveries := dropped_deliveries s;
  post_tool_side_effects := post_tool_side_effects s; delivery_wake_sources := delivery_wake_sources s;
  thread := thread s; state := state s; turn_depth := turn_depth s; interruptible_waits := waits;
  wait_tool_window_active := window; wait_delivery_boundary := boundary; wait_interrupt_flag := interrupt;
  abort_flag := abort_flag s; user_interrupt_flag := user_interrupt_flag s;
  queued_commands := queued_commands s; planner_paused := planner_paused s;
  planner_pause_pending_tools := planner_pause_pending_tools s; compressing := compressing s; closed := closed s;
  next_uuid := next_uuid s |}.

Definition set_pending (pending : list (PendingDelivery C)) s : Sess :=
  upd_queue pending (runner_pending_deliveries s) (delivered_delivery_ids s) (dropped_deliveries s) s.
Definition set_dropped (dropped : list DeliveryStatusRecord) s : Sess :=
  upd_queue (pending_deliveries s) (runner_pending_deliveries s) (delivered_delivery_ids s) dropped s.

(** ** Boundaries *)

Definition turn_finished s : bool :=
  (turn_depth s =? 0)%N && bool_decide (state s ∈ [Idle; Completed; SsError; WaitingUserInput]).
Definition delivery_boundary_open (p : PushMode) s : bool :=
  if compressing s then false
  else
    let quiet := bool_decide (draft_message s = None) && negb (has_pending_tool_result_window (messages s)) in
    match p with
    | Preempt => true
    | Append => quiet
    | WhenIdle => quiet && (turn_finished s || wait_delivery_boundary s)
    end.

Definition has_kind_of (kinds : list ControlKind) m : bool := some_and (λ k, bool_decide (k ∈ kinds)) (control_kind m).
(** An earlier delivery, or an effect of a tool, updates the plan or the goal that [d] updates. *)
Definition control_in_front d s : bool :=
  let kinds := omap control_kind (pd_messages d) in
  negb (bool_decide (kinds = []))
  && existsb (has_kind_of kinds)
       ((filter (λ p, supersedes d p = false) (take_while (λ p, negb (bool_decide (pd_id p = pd_id d))) (pending_deliveries s))
           ≫= pd_messages)
        ++ post_tool_side_effects s).
Definition after_call_blocked d s : bool :=
  some_and (λ id,
      (bool_decide (id = ""%string) && bool_decide (state s ∈ [Generating; ExecutingTools]))
      || negb (delivery_boundary_open Append s)
      || negb (tool_result_window_closed_for_tool_call (messages s) id))
    (after_tool_call_id d).
Definition delivery_envelope_boundary_open d s : bool :=
  if planner_paused s || planner_pause_pending_tools s then false
  else if control_in_front d s then false
  else if after_call_blocked d s then false
  else delivery_boundary_open (push d) s.

Definition knows_delivery_id (id : string) s : bool :=
  bool_decide (id ∈ delivered_delivery_ids s)
  || existsb (λ r, bool_decide (ds_id r = id)) (dropped_deliveries s)
  || existsb (λ d, bool_decide (pd_id d = id)) (pending_deliveries s)
  || existsb (λ d, bool_decide (pd_id d = id)) (runner_pending_deliveries s).

(** ** Waits *)

Definition interrupt_wait_for_delivery s : Sess :=
  if (wait_tool_window_active s && negb (queued_commands s =? 0)%N)
     || ((0 <? interruptible_waits s)%N
         && existsb (λ d, negb (bool_decide (push d = Preempt)) && bool_decide (after_tool_call_id d = None))
              (pending_deliveries s ++ runner_pending_deliveries s))
  then upd_waits (interruptible_waits s) (wait_tool_window_active s) true true s
  else s.
Definition begin_interruptible_wait s : Sess :=
  let flag := if (interruptible_waits s =? 0)%N then false else wait_interrupt_flag s in
  interrupt_wait_for_delivery (upd_waits (interruptible_waits s + 1)%N true (wait_delivery_boundary s) flag s).
Definition end_interruptible_wait s : Sess :=
  upd_waits (interruptible_waits s - 1)%N (wait_tool_window_active s) (wait_delivery_boundary s) (wait_interrupt_flag s) s.

(** ** Messages *)

Definition add_message_at_boundary (m : Message C) s : Sess :=
  let '(m, n) := if bool_decide (message_id m = ""%string)
                 then (set_message_id (uuid (P := P) (next_uuid s)) m, S (next_uuid s)) else (m, next_uuid s) in
  upd_messages (messages s ++ [m]) (draft_message s) (post_tool_side_effects s) n s.
Definition add_message (m : Message C) (now : N) s : Sess :=
  if bool_decide (role m = "event"%string)
     && (negb (bool_decide (draft_message s = None)) || has_pending_tool_result_window (messages s) || compressing s)
  then
    let queued := new_delivery (uuid (P := P) (next_uuid s)) [m] Append "chat.session" false now in
    upd_messages (messages s) (draft_message s) (post_tool_side_effects s) (S (next_uuid s))
      (set_pending (pending_deliveries s ++ [queued]) s)
  else add_message_at_boundary m s.

(** [internal_roles::event], with a generated id. *)
Definition event_message (subkind src : string) (payload : Json) (body : string) s : Message C := {|
  message_id := uuid (P := P) (next_uuid s); role := "event"; content := simple_text (P := P) body; tool_calls := None; tool_call_id := "";
  summarized_range := None; summarization_tier := None; summarized_token_estimate := None;
  extra := {[ "event"%string := JObject [("payload", payload); ("source", JString src); ("subkind", JString subkind)]%string ]} |}.
Definition add_event (subkind src : string) (payload : Json) (body : string) (now : N) s : Sess :=
  add_message (event_message subkind src payload body s) now
    (upd_messages (messages s) (draft_message s) (post_tool_side_effects s) (S (next_uuid s)) s).

(** [apply_setparams_patch] *)
Definition apply_patch (patch : Json) (t : Thread P) : Thread P :=
  let t := match json_get_str "model" (Some patch) with
           | Some m => if bool_decide (model t = m) then t
                       else {| mode := mode t; model := m; previous_response_id := None; other_params := other_params t |}
           | None => t
           end in
  let t := match json_get_str "mode" (Some patch) with
           | Some m => {| mode := map_legacy_mode_to_id m; model := model t;
                          previous_response_id := previous_response_id t; other_params := other_params t |}
           | None => t
           end in
  {| mode := mode t; model := model t; previous_response_id := previous_response_id t;
     other_params := apply_other_params patch (other_params t) |}.

Definition wake_source (src : string) : string :=
  if bool_decide (src ∈ ["chat.goal_monitor"; "chat.goal_verifier"]%string) then "goal" else "external".
Definition append_delivery d (now : N) s : Sess :=
  let s := match thread_patch d with
           | None => s
           | Some patch =>
               let old_mode := mode (thread s) in
               let s := upd_thread (apply_patch patch (thread s)) (delivery_wake_sources s) s in
               if bool_decide (old_mode = mode (thread s)) then s
               else add_event "mode_switch" (source d)
                      (JObject [("from", JString old_mode); ("to", JString (mode (thread s)))]%string)
                      ("Mode changed to " +:+ mode (thread s) +:+ " by " +:+ source d +:+ ".") now s
           end in
  let s := foldl (λ s m, add_message_at_boundary m s) s (stamp_messages d) in
  let s := if wake d then upd_thread (thread s) ({[ wake_source (source d) ]} ∪ delivery_wake_sources s) s else s in
  upd_queue (pending_deliveries s) (runner_pending_deliveries s) ({[ pd_id d ]} ∪ delivered_delivery_ids s)
    (dropped_deliveries s) s.

(** [set_runtime_state(Idle)] sets [state]; its effects on an active compression do not arise, since
    nothing lands during one. *)
Definition preempt_for_delivery (src : string) (now : N) s : Sess :=
  if bool_decide (draft_message s = None) && negb (bool_decide (state s ∈ [Generating; ExecutingTools])) then s
  else
    let s := upd_turn (state s) true true s in
    let s := upd_messages (clear_pending_tool_calls_for_interruption (messages s)) None (post_tool_side_effects s) (next_uuid s) s in
    let s := add_event "cancellation_note" "chat.delivery"
               (JObject [("reason", JString "preempt"); ("source", JString src)]%string)
               ("Answer interrupted by an urgent message from " +:+ src +:+ ".") now s in
    upd_turn Idle (abort_flag s) (user_interrupt_flag s) s.

(** ** Dropped deliveries *)

Definition record_dropped_delivery (id : string) (status : DeliveryStatus) s : Sess :=
  let known := filter (λ r, ds_id r ≠ id) (dropped_deliveries s) ++ [{| ds_id := id; ds_status := status |}] in
  set_dropped (drop (length known - N.to_nat (delivery_status_retention (settings (P := P)))) known) s.
Definition drop_where (f : PendingDelivery C → bool) (status : DeliveryStatus) s : Sess :=
  let ids := pd_id <$> filter (λ d, f d = true) (pending_deliveries s) in
  foldl (λ s id, record_dropped_delivery id status s)
    (set_pending (filter (λ d, pd_id d ∉ ids) (pending_deliveries s)) s) ids.
Definition expire_pending_deliveries (now : N) s : Sess := drop_where (is_expired_at now) SExpired s.
Definition supersede_pending d s : Sess :=
  match supersede_key d with None => s | Some _ => drop_where (supersedes d) SSuperseded s end.
Definition drop_sealed_delivery (id : string) s : Sess * DeliveryOutcome :=
  if knows_delivery_id id s then (s, ODuplicate) else (record_dropped_delivery id SSealed s, OSealed).

(** ** Accepting a delivery *)

Definition max_pending : nat := N.to_nat (max_queue (P := P) `min` delivery_max_pending (settings (P := P))).

Definition check_control d s : result unit DeliveryError :=
  if existsb (λ m, bool_decide (is_Some (control_kind m))) (pd_messages d) then
    match active_context (messages s) with Ok _ => Ok () | Err e => Err (NoContext e) end
  else Ok ().
Definition check_delivery d s : result unit DeliveryError :=
  if closed s then Err (Refused "chat session is closed")
  else if bool_decide (pd_messages d = []) then Err (Refused "delivery must contain at least one message")
  else
    let? _ := check_control d s in
    match thread_patch d with Some patch => check_patch patch | None => Ok () end.

Definition enqueue_delivery d (now : N) s : Sess * result DeliveryOutcome DeliveryError :=
  match check_delivery d s with
  | Err e => (s, Err e)
  | Ok _ =>
      if knows_delivery_id (pd_id d) s then (s, Ok ODuplicate)
      else
        let d := ensure_ttl_secs now (delivery_default_ttl_secs (settings (P := P))) d in
        if is_expired_at now d then (record_dropped_delivery (pd_id d) SExpired s, Ok OExpired)
        else
          let pending_count := length (filter (λ p, supersedes d p = false) (pending_deliveries s)) in
          let preempt_now := bool_decide (push d = Preempt) && delivery_envelope_boundary_open d s in
          if bool_decide (max_pending ≤ pending_count) && negb preempt_now
          then (s, Err (Refused "chat delivery queue is full"))
          else
            let s := supersede_pending d s in
            if preempt_now then (append_delivery d now (preempt_for_delivery (source d) now s), Ok ODelivered)
            else if delivery_envelope_boundary_open d s
                    && negb (wait_delivery_boundary s && negb (bool_decide (pending_deliveries s = [])))
            then (append_delivery d now s, Ok ODelivered)
            else (interrupt_wait_for_delivery (set_pending (pending_deliveries s ++ [d]) s), Ok OQueued)
  end.

Definition queue_post_tool_delivery d (now : N) s : Sess * result DeliveryOutcome DeliveryError :=
  let id := match latest_assistant_tool_call_window (messages s) None with
            | Some (i, ids) => if all_tool_call_ids_have_results_after (messages s) i ids then None else last ids
            | None => None
            end in
  enqueue_delivery (set_after (Some (default ""%string id)) d) now s.

(** ** Landing *)

(** The first delivery whose boundary is open, without it the queue, and whether it landed: a delivery that
    was delivered before is only removed. *)
Definition land_next (now : N) s : option (PendingDelivery C * bool * Sess) :=
  match list_find (λ d, delivery_envelope_boundary_open d s = true) (pending_deliveries s) with
  | None => None
  | Some (i, d) =>
      let s := set_pending (delete i (pending_deliveries s)) s in
      if bool_decide (pd_id d ∈ delivered_delivery_ids s) then Some (d, false, s)
      else
        let s := if bool_decide (push d = Preempt) then preempt_for_delivery (source d) now s else s in
        Some (d, true, append_delivery d now s)
  end.
Fixpoint land_all (fuel : nat) (now : N) s (landed : list (PendingDelivery C)) : option (list (PendingDelivery C) * Sess) :=
  match land_next now s with
  | None => Some (landed, s)
  | Some (d, appended, s) =>
      match fuel with
      | O => None
      | S fuel => land_all fuel now s (if appended : bool then landed ++ [d] else landed)
      end
  end.
(** Every delivery may leave two control messages behind when it lands. *)
Definition land_fuel s : nat := 3 * length (pending_deliveries s).

(** The ids of what landed and whether a wake was asked for. *)
Definition drain_pending_deliveries (now : N) s : option (Sess * (list string * bool)) :=
  if bool_decide (pending_deliveries s = []) then Some (s, ([], false))
  else
    let s := expire_pending_deliveries now s in
    '(landed, s) ← land_all (land_fuel s) now s [];
    let s := if bool_decide (runner_pending_deliveries s = []) && negb (has_pending_tool_result_window (messages s))
                && (interruptible_waits s =? 0)%N && (queued_commands s =? 0)%N
             then upd_waits (interruptible_waits s) (wait_tool_window_active s) false (wait_interrupt_flag s) s else s in
    Some (s, (pd_id <$> landed, existsb wake landed)).

Definition drain_post_tool_side_effects (now : N) s : Sess :=
  if negb (bool_decide (draft_message s = None)) || has_pending_tool_result_window (messages s) || compressing s then s
  else foldl (λ s m, add_message m now s)
         (upd_messages (messages s) (draft_message s) [] (next_uuid s) s) (post_tool_side_effects s).

(** ** Status and edits *)

Definition delivery_status (id : string) s : DeliveryStatus :=
  if bool_decide (id ∈ delivered_delivery_ids s) then SDelivered
  else if existsb (λ d, bool_decide (pd_id d = id)) (pending_deliveries s) then SPending
  else match last (filter (λ r, ds_id r = id) (dropped_deliveries s)) with
       | Some r => ds_status r
       | None => SUnknown
       end.

(** [collect_boundary_deliveries] of [chat/delivery.rs], and the status of what was pending. *)
Definition collect_boundary_deliveries (now : N) s : option (Sess * (list string * bool) * list (string * DeliveryStatus)) :=
  let s := drain_post_tool_side_effects now s in
  let tracked := pd_id <$> pending_deliveries s in
  '(s, drained) ← drain_pending_deliveries now s;
  Some (s, drained, (λ id, (id, delivery_status id s)) <$> tracked).

Definition update_pending_delivery (id : string) (p : option PushMode) (cancel : bool) s : Sess * result bool string :=
  match list_find (λ d, pd_id d = id) (pending_deliveries s) with
  | None =>
      (s, Err (if bool_decide (id ∈ delivered_delivery_ids s) then "delivery '" +:+ id +:+ "' already delivered"
               else "unknown pending delivery '" +:+ id +:+ "'"))
  | Some (i, d) =>
      if cancel then
        if existsb (has_kind_of (omap control_kind (pd_messages d))) (drop (S i) (pending_deliveries s) ≫= pd_messages)
        then (s, Err "pending plan/goal control has dependent updates; cancel later updates first")
        else (record_dropped_delivery (pd_id d) SFailed (set_pending (delete i (pending_deliveries s)) s), Ok false)
      else
        match p with
        | None => (s, Ok (delivery_envelope_boundary_open d s))
        | Some p =>
            let d := set_push p d in
            let s := interrupt_wait_for_delivery (set_pending (<[i := d]> (pending_deliveries s)) s) in
            (s, Ok (delivery_envelope_boundary_open d s))
        end
  end.

Definition suppress_delivery_wakes s : Sess :=
  upd_queue (set_wake false <$> pending_deliveries s) (set_wake false <$> runner_pending_deliveries s)
    (delivered_delivery_ids s) (dropped_deliveries s) (upd_thread (thread s) ∅ s).
(** The deliveries the runner of an agent holds, shown with the session's own. *)
Definition set_runner_pending_deliveries (ds : list (PendingDelivery C)) s : Sess :=
  interrupt_wait_for_delivery
    (upd_queue (pending_deliveries s) ds (delivered_delivery_ids s) (dropped_deliveries s) s).

(** ** Edits of the history

    [update_message], [remove_message], [truncate_messages], [replace_messages] and [mirror_runner_messages]:
    what they do to the messages and to the fields of the record; none of them touches the deliveries.  The result of
    the first two is the place of the message. *)

Definition forget_response s : Sess :=
  upd_thread {| mode := mode (thread s); model := model (thread s); previous_response_id := None;
                other_params := other_params (thread s) |} (delivery_wake_sources s) s.
Definition put_messages (ms : list (Message C)) s : Sess :=
  upd_messages ms (draft_message s) (post_tool_side_effects s) (next_uuid s) s.
Definition is_report m : bool :=
  bool_decide (role m = COMPRESSION_REPORT_KEY) || bool_decide (is_Some (extra m !! COMPRESSION_REPORT_KEY))
  || is_legacy_summary m.

(** The message with this id, if it is not before the active context. *)
Definition mutable_index (id : string) s : option nat :=
  start ← mutable_message_start (messages s);
  '(i, _) ← list_find (λ m, message_id m = id) (messages s);
  if i <? start then None else Some i.
Definition update_message (id : string) m s : Sess * option nat :=
  if is_report m then (s, None)
  else match mutable_index id s with
       | Some i => (forget_response (put_messages (<[i := m]> (messages s)) s), Some i)
       | None => (s, None)
       end.
(** A message of an assistant goes with the tool results of its calls in the active context. *)
Definition without_results (ids : list string) (start : nat) (ms : list (Message C)) : list (Message C) :=
  take start ms ++ filter (λ m, ¬ (role m = "tool"%string ∧ tool_call_id m ∈ ids)) (drop start ms).
Definition remove_message (id : string) s : Sess * option nat :=
  match mutable_message_start (messages s), mutable_index id s with
  | Some start, Some i =>
      let ids := match messages s !! i with
                 | Some m => if bool_decide (role m = "assistant"%string) then call_id <$> default [] (tool_calls m) else []
                 | None => []
                 end in
      (forget_response (put_messages (without_results ids start (delete i (messages s))) s), Some i)
  | _, _ => (s, None)
  end.
Definition truncate_messages (from_index : nat) s : Sess :=
  if from_index <? length (messages s) then forget_response (put_messages (take from_index (messages s)) s) else s.
(** [reset_compaction_runtime_state] ends an attempt of compression. *)
Definition reset_compaction s : Sess := {|
  messages := messages s; draft_message := draft_message s; pending_deliveries := pending_deliveries s;
  runner_pending_deliveries := runner_pending_deliveries s; delivered_delivery_ids := delivered_delivery_ids s;
  dropped_deliveries := dropped_deliveries s; post_tool_side_effects := post_tool_side_effects s;
  delivery_wake_sources := delivery_wake_sources s; thread := thread (forget_response s); state := state s;
  turn_depth := turn_depth s; interruptible_waits := interruptible_waits s;
  wait_tool_window_active := wait_tool_window_active s; wait_delivery_boundary := wait_delivery_boundary s;
  wait_interrupt_flag := wait_interrupt_flag s; abort_flag := abort_flag s; user_interrupt_flag := user_interrupt_flag s;
  queued_commands := queued_commands s; planner_paused := planner_paused s;
  planner_pause_pending_tools := planner_pause_pending_tools s; compressing := false; closed := closed s;
  next_uuid := next_uuid s |}.
Definition replace_messages (ms : list (Message C)) s : Sess := reset_compaction (put_messages ms s).
Definition mirror_runner_messages (ms : list (Message C)) s : Sess := put_messages ms s.

(** ** Restarts *)

Fixpoint first_of_each (seen : list string) (ds : list (PendingDelivery C)) : list (PendingDelivery C) :=
  match ds with
  | [] => []
  | d :: rest =>
      if bool_decide (pd_id d ∈ seen) then first_of_each seen rest else d :: first_of_each (pd_id d :: seen) rest
  end.
Definition pending_deliveries_for_snapshot s : list (PendingDelivery C) :=
  first_of_each [] (pending_deliveries s ++ runner_pending_deliveries s).

Definition restore_one (now : N) (acc : list string * Sess) d : list string * Sess :=
  let '(seen, s) := acc in
  if bool_decide (pd_messages d = []) || bool_decide (pd_id d ∈ delivered_delivery_ids s) then (seen, s)
  else if bool_decide (pd_id d ∈ seen) then (seen, s)
  else
    let seen := pd_id d :: seen in
    let d := ensure_restored_ttl_secs now (delivery_default_ttl_secs (settings (P := P))) d in
    if is_expired_at now d then (seen, record_dropped_delivery (pd_id d) SExpired s)
    else
      let s := supersede_pending d s in
      (seen, set_pending (pending_deliveries s ++ [d]) s).
Definition restore_pending_deliveries (ds : list (PendingDelivery C)) (now : N) s : Sess :=
  let s := upd_queue (pending_deliveries s) (runner_pending_deliveries s)
             (delivered_delivery_ids s ∪ list_to_set (omap delivery_id_of_message (messages s))) (dropped_deliveries s) s in
  (foldl (restore_one now) (pd_id <$> (pending_deliveries s ++ runner_pending_deliveries s), s) ds).2.

Definition merge_dropped_deliveries (rs : list DeliveryStatusRecord) s : Sess :=
  foldl (λ s r, record_dropped_delivery (ds_id r) (ds_status r) s) s rs.
End queue.
Arguments Session C P : clear implicits.
