(* ===== verification/DeliveryProps.v ===== *)
(** * Delivery of messages into a chat: properties *)

From stdpp Require Import gmap strings list.
From S2P Require Import Prelude RustStr Settings ActiveContext Delivery DeliveryQueue.

Section props.
Context {C P : Type} `{MessageSerde C} `{ChatEnv C P}.
Abbreviation Sess := (Session C P).
Implicit Types (s : Sess) (d : PendingDelivery C) (m : Message C).

(** ** What the history says was delivered *)

(** The delivered messages of a history, each with the id of its delivery. *)
Definition stamp_of m : option (string * string * C) := (λ id, (id, role m, content m)) <$> delivery_id_of_message m.
Definition stamps (ms : list (Message C)) : list (string * string * C) := omap stamp_of ms.
Definition batch d : list (string * string * C) := (λ m, (pd_id d, role m, content m)) <$> pd_messages d.

Lemma stamps_app l k : stamps (l ++ k) = stamps l ++ stamps k.
Proof. apply omap_app. Qed.
Lemma stamps_stamped d : stamps (stamp_messages d) = batch d.
Proof.
  unfold stamp_messages, batch. induction (pd_messages d) as [|m ms IH]; [done|].
  rewrite !fmap_cons. cbn [stamps omap list_omap]. unfold stamp_of at 1, delivery_id_of_message. cbn [extra set_extra role content].
  rewrite lookup_insert, decide_True by done. cbn [json_get_str mbind option_bind json_get fmap option_fmap option_map]. by f_equal.
Qed.
Lemma stamp_of_set_id id m : stamp_of (set_message_id id m) = stamp_of m.
Proof. done. Qed.
Lemma stamp_of_retain answered m : stamp_of (retain_answered answered m) = stamp_of m.
Proof. unfold retain_answered. destruct (tool_calls m); [|done]. by case_bool_decide. Qed.
Lemma stamps_alter f i ms : (∀ m, stamp_of (f m) = stamp_of m) → stamps (alter f i ms) = stamps ms.
Proof.
  intros Hf. revert i. induction ms as [|m ms IH]; intros [|i]; try done; cbn [alter list_alter stamps omap list_omap].
  - by rewrite Hf.
  - fold (stamps (list_alter f i ms)) (stamps ms). by rewrite <- (IH i).
Qed.
Lemma stamps_clear ms : stamps (clear_pending_tool_calls_for_interruption ms) = stamps ms.
Proof.
  unfold clear_pending_tool_calls_for_interruption. destruct (latest_assistant_tool_call_window ms None) as [[i ?]|]; [|done].
  apply stamps_alter. intros m. apply stamp_of_retain.
Qed.

(** ** Steps that deliver nothing *)

(** A message about the session itself that waits for a boundary. *)
Definition note d : Prop := push d = Append ∧ ∃ m, pd_messages d = [m] ∧ role m = "event"%string.
(** At most [n] control messages are put at the end of the queue. *)
Record quiet_change (n : nat) s s' : Prop := {
  qc_stamps : stamps (messages s') = stamps (messages s);
  qc_delivered : delivered_delivery_ids s' = delivered_delivery_ids s;
  qc_dropped : dropped_deliveries s' = dropped_deliveries s;
  qc_runner : runner_pending_deliveries s' = runner_pending_deliveries s;
  qc_side : post_tool_side_effects s' = post_tool_side_effects s;
  qc_pending : ∃ notes, pending_deliveries s' = pending_deliveries s ++ notes ∧ Forall note notes ∧ length notes ≤ n;
}.
Lemma quiet_refl s : quiet_change 0 s s.
Proof. split; try done. exists []. by rewrite app_nil_r. Qed.
Lemma quiet_trans n k s1 s2 s3 : quiet_change n s1 s2 → quiet_change k s2 s3 → quiet_change (n + k) s1 s3.
Proof.
  intros [? ? ? ? ? (l & Hl & Hfl & ?)] [? ? ? ? ? (r & Hr & Hfr & ?)]. split; try congruence.
  exists (l ++ r). rewrite Hr, Hl, app_assoc, length_app. split_and!; [done| |lia]. by apply Forall_app.
Qed.
Lemma quiet_mono n k s s' : n ≤ k → quiet_change n s s' → quiet_change k s s'.
Proof. intros Hle [? ? ? ? ? (l & ? & ? & ?)]. split; try done. exists l. split_and!; [done|done|lia]. Qed.

Lemma at_boundary_spec m s :
  let s' := add_message_at_boundary m s in
  (∃ m', messages s' = messages s ++ [m'] ∧ stamp_of m' = stamp_of m)
  ∧ pending_deliveries s' = pending_deliveries s ∧ delivered_delivery_ids s' = delivered_delivery_ids s
  ∧ dropped_deliveries s' = dropped_deliveries s ∧ runner_pending_deliveries s' = runner_pending_deliveries s
  ∧ post_tool_side_effects s' = post_tool_side_effects s ∧ compressing s' = compressing s
  ∧ draft_message s' = draft_message s.
Proof. unfold add_message_at_boundary. case_bool_decide; cbn; split_and!; try done; by eexists. Qed.

Lemma add_message_quiet m now s : stamp_of m = None → quiet_change 1 s (add_message m now s).
Proof.
  intros Hm. unfold add_message. destruct (bool_decide (role m = _) && _) eqn:E; [apply andb_true_iff in E as [He%bool_decide_eq_true _]|].
  - split; cbn; try done. eexists. split; [done|]. split; [|cbn; lia]. constructor; [split; [done|by eexists]|constructor].
  - destruct (at_boundary_spec m s) as ((m' & Hms & Hst) & Hp & Hd & Hdr & Hr & Hs & _). split; try done.
    + rewrite Hms, stamps_app. cbn. rewrite Hst, Hm. by rewrite app_nil_r.
    + exists []. rewrite app_nil_r. split_and!; [done|constructor|cbn; lia].
Qed.
(** Between boundaries only. *)
Lemma add_message_settled m now s : stamp_of m = None →
  draft_message s = None → has_pending_tool_result_window (messages s) = false → compressing s = false →
  quiet_change 0 s (add_message m now s).
Proof.
  intros Hm Hd Hw Hc. unfold add_message. rewrite Hw, Hc, (bool_decide_eq_true_2 (draft_message s = None)) by done. cbn [negb orb]. rewrite andb_false_r.
  destruct (at_boundary_spec m s) as ((m' & Hms & Hst) & Hp & Hde & Hdr & Hr & Hs & _). split; try done.
  - rewrite Hms, stamps_app. cbn. rewrite Hst, Hm. by rewrite app_nil_r.
  - exists []. by rewrite app_nil_r.
Qed.

Lemma event_unstamped subkind src payload body s : stamp_of (event_message subkind src payload body s) = None.
Proof. unfold stamp_of, delivery_id_of_message. cbn [extra event_message]. by rewrite lookup_singleton_ne. Qed.
Lemma add_event_quiet subkind src payload body now s : quiet_change 1 s (add_event subkind src payload body now s).
Proof.
  unfold add_event. set (s1 := upd_messages _ _ _ _ s).
  apply (quiet_trans 0 1 s s1); [by split; [..|exists []; rewrite app_nil_r]|]. apply add_message_quiet, event_unstamped.
Qed.
Lemma add_event_settled subkind src payload body now s :
  draft_message s = None → has_pending_tool_result_window (messages s) = false → compressing s = false →
  quiet_change 0 s (add_event subkind src payload body now s).
Proof.
  intros Hd Hw Hc. unfold add_event. set (s1 := upd_messages _ _ _ _ s).
  apply (quiet_trans 0 0 s s1); [by split; [..|exists []; rewrite app_nil_r]|]. by apply add_message_settled; [apply event_unstamped|..].
Qed.

Lemma preempt_quiet src now s : quiet_change 1 s (preempt_for_delivery src now s).
Proof.
  unfold preempt_for_delivery. destruct (_ && _); [by eapply quiet_mono; [|apply quiet_refl]; lia|]. cbv zeta.
  set (s1 := upd_messages _ _ _ _ _). set (s2 := add_event _ _ _ _ _ s1).
  assert (quiet_change 0 s s1) as Hq1.
  { split; cbn; try done; [apply stamps_clear|]. exists []. by rewrite app_nil_r. }
  assert (quiet_change 1 s1 s2) as Hq2 by apply add_event_quiet.
  apply (quiet_trans 1 0 s s2); [by apply (quiet_trans 0 1 s s1)|]. by split; [..|exists []; rewrite app_nil_r].
Qed.

(** ** Landing a delivery *)

Lemma append_all_spec ms s :
  let s' := foldl (λ s m, add_message_at_boundary m s) s ms in
  stamps (messages s') = stamps (messages s) ++ stamps ms
  ∧ pending_deliveries s' = pending_deliveries s ∧ delivered_delivery_ids s' = delivered_delivery_ids s
  ∧ dropped_deliveries s' = dropped_deliveries s ∧ runner_pending_deliveries s' = runner_pending_deliveries s
  ∧ post_tool_side_effects s' = post_tool_side_effects s.
Proof.
  revert s. induction ms as [|m ms IH]; intros s; cbn [foldl]; [by rewrite app_nil_r|].
  destruct (IH (add_message_at_boundary m s)) as (Hst & Hp & Hd & Hdr & Hr & Hs).
  destruct (at_boundary_spec m s) as ((m' & Hms & Hm') & Hp' & Hd' & Hdr' & Hr' & Hs' & _). split_and!; try congruence.
  rewrite Hst, Hms, !stamps_app, <- app_assoc. f_equal. cbn. rewrite Hm'. unfold stamps. by destruct (stamp_of m).
Qed.

(** What an appended delivery changes, with at most [n] notes. *)
Record landed (n : nat) d s s' : Prop := {
  ld_stamps : stamps (messages s') = stamps (messages s) ++ batch d;
  ld_delivered : delivered_delivery_ids s' = {[ pd_id d ]} ∪ delivered_delivery_ids s;
  ld_dropped : dropped_deliveries s' = dropped_deliveries s;
  ld_runner : runner_pending_deliveries s' = runner_pending_deliveries s;
  ld_side : post_tool_side_effects s' = post_tool_side_effects s;
  ld_pending : ∃ notes, pending_deliveries s' = pending_deliveries s ++ notes ∧ Forall note notes ∧ length notes ≤ n;
}.
Lemma landed_after n k d s1 s2 s3 : quiet_change n s1 s2 → landed k d s2 s3 → landed (n + k) d s1 s3.
Proof.
  intros [? ? ? ? ? (l & Hl & Hfl & ?)] [? ? ? ? ? (r & Hr & Hfr & ?)]. split; try congruence.
  exists (l ++ r). rewrite Hr, Hl, app_assoc, length_app. split_and!; [done| |lia]. by apply Forall_app.
Qed.
Lemma append_from n d now s s1 :
  quiet_change n s s1 → (∃ t w, s1 = match thread_patch d with
    | None => s
    | Some patch =>
        let s' := upd_thread t w s in
        if bool_decide (mode (thread s) = mode (thread s')) then s'
        else add_event "mode_switch" (source d) (JObject [("from", JString (mode (thread s))); ("to", JString (mode (thread s')))]%string)
               ("Mode changed to " +:+ mode (thread s') +:+ " by " +:+ source d +:+ ".") now s' end
     ∧ t = match thread_patch d with Some patch => apply_patch patch (thread s) | None => t end ∧ w = delivery_wake_sources s) →
  landed n d s (append_delivery d now s).
Proof.
  intros [H1 H2 H3 H4 H5 H6] (t & w & Hs1 & Ht & ->). unfold append_delivery.
  set (s0 := match thread_patch d with None => s | Some _ => _ end).
  assert (s0 = s1) as -> by (subst s0 s1; destruct (thread_patch d); [by subst t|done]). cbv zeta. clear Hs1.
  destruct (append_all_spec (stamp_messages d) s1) as (Hst & Hp & Hd & Hdr & Hr & Hs).
  set (s2 := foldl _ s1 _) in *. clearbody s2.
  destruct (wake d); split; cbn [upd_queue upd_thread messages delivered_delivery_ids dropped_deliveries runner_pending_deliveries
    post_tool_side_effects pending_deliveries]; rewrite ?Hst, ?Hp, ?Hd, ?Hdr, ?Hr, ?Hs, ?H1, ?H2, ?stamps_stamped; done.
Qed.
Lemma append_landed d now s : landed 1 d s (append_delivery d now s).
Proof.
  set (t := match thread_patch d with Some patch => apply_patch patch (thread s) | None => thread s end).
  eapply append_from; [|exists t, (delivery_wake_sources s); split; [reflexivity|]; split; [unfold t; by destruct (thread_patch d)|done]].
  destruct (thread_patch d); [|by eapply quiet_mono; [|apply quiet_refl]; lia]. cbv zeta. set (s1 := upd_thread _ _ s).
  assert (quiet_change 0 s s1) as Hq by (by split; [..|exists []; rewrite app_nil_r]).
  case_bool_decide; [by eapply quiet_mono; [|exact Hq]; lia|]. apply (quiet_trans 0 1 s s1); [done|]. apply add_event_quiet.
Qed.
Lemma append_settled d now s :
  draft_message s = None → has_pending_tool_result_window (messages s) = false → compressing s = false →
  landed 0 d s (append_delivery d now s).
Proof.
  intros Hd Hw Hc.
  set (t := match thread_patch d with Some patch => apply_patch patch (thread s) | None => thread s end).
  eapply append_from; [|exists t, (delivery_wake_sources s); split; [reflexivity|]; split; [unfold t; by destruct (thread_patch d)|done]].
  destruct (thread_patch d); [|apply quiet_refl]. cbv zeta. set (s1 := upd_thread _ _ s).
  assert (quiet_change 0 s s1) as Hq by (by split; [..|exists []; rewrite app_nil_r]).
  case_bool_decide; [done|]. apply (quiet_trans 0 0 s s1); [done|]. by apply add_event_settled.
Qed.

(** ** Boundaries *)

(** What holds where a delivery that does not preempt lands. *)
Definition at_boundary s : Prop :=
  draft_message s = None ∧ has_pending_tool_result_window (messages s) = false ∧ compressing s = false.
Lemma envelope_open_boundary d s : delivery_envelope_boundary_open d s = true →
  planner_paused s = false ∧ planner_pause_pending_tools s = false ∧ control_in_front d s = false
  ∧ compressing s = false ∧ (push d ≠ Preempt → at_boundary s)
  ∧ (push d = WhenIdle → turn_finished s = true ∨ wait_delivery_boundary s = true).
Proof.
  unfold delivery_envelope_boundary_open. destruct (planner_paused s), (planner_pause_pending_tools s); try done. cbn [orb].
  destruct (control_in_front d s); [done|]. destruct (after_call_blocked d s); [done|]. unfold delivery_boundary_open, at_boundary.
  destruct (compressing s); [done|]. destruct (push d); [intros _; by split_and!|..]; rewrite ?andb_true_iff, ?orb_true_iff, ?negb_true_iff, ?bool_decide_eq_true; naive_solver.
Qed.

(** ** One landing *)

Lemma list_find_open s i d :
  list_find (λ d, delivery_envelope_boundary_open d s = true) (pending_deliveries s) = Some (i, d) →
  pending_deliveries s !! i = Some d ∧ delivery_envelope_boundary_open d s = true.
Proof. by intros (? & ? & _)%list_find_Some. Qed.

Lemma set_pending_quiet_fields l s :
  messages (set_pending l s) = messages s ∧ pending_deliveries (set_pending l s) = l.
Proof. done. Qed.

Inductive land_spec d s : bool → Sess → Prop :=
  | land_known i : pending_deliveries s !! i = Some d → pd_id d ∈ delivered_delivery_ids s →
      land_spec d s false (set_pending (delete i (pending_deliveries s)) s)
  | land_new i n s' : pending_deliveries s !! i = Some d → pd_id d ∉ delivered_delivery_ids s →
      delivery_envelope_boundary_open d s = true →
      n = (if bool_decide (push d = Preempt) then 2 else 0) →
      landed n d (set_pending (delete i (pending_deliveries s)) s) s' → land_spec d s true s'.
Lemma land_next_spec now s d b s' : land_next now s = Some (d, b, s') → land_spec d s b s'.
Proof.
  unfold land_next. destruct (list_find _ _) as [[i d']|] eqn:E; [|done]. destruct (list_find_open _ _ _ E) as [Hi Ho]. clear E.
  set (s1 := set_pending _ s). change (delivered_delivery_ids s1) with (delivered_delivery_ids s).
  case_bool_decide as Hin; [intros [= <- <- <-]; by econstructor|]. intros [= <- <- <-].
  destruct (envelope_open_boundary _ _ Ho) as (_ & _ & _ & Hc & Hb & _).
  case_bool_decide as Hp.
  - eapply (land_new d' s i 2); try done; [by rewrite bool_decide_eq_true_2|].
    apply (landed_after 1 1 d' s1 (preempt_for_delivery (source d') now s1)); [apply preempt_quiet|apply append_landed].
  - eapply (land_new d' s i 0); try done; [by rewrite bool_decide_eq_false_2|]. destruct (Hb Hp) as (? & ? & ?). by apply append_settled.
Qed.

(** *** The loop ends *)

Definition weight_of d : nat := if bool_decide (push d = Preempt) then 3 else 1.
Definition weight (ds : list (PendingDelivery C)) : nat := sum_list_with weight_of ds.
Lemma weight_cons d ds : weight (d :: ds) = weight_of d + weight ds.
Proof. done. Qed.
Lemma weight_delete ds i d : ds !! i = Some d → weight ds = weight_of d + weight (delete i ds).
Proof.
  revert i. induction ds as [|x ds IH]; intros [|i] Hi; try done; cbn in Hi; [by simplify_eq|].
  change (delete (S i) (x :: ds)) with (x :: delete i ds). rewrite !weight_cons, (IH _ Hi). lia.
Qed.
Lemma weight_app l k : weight (l ++ k) = weight l + weight k.
Proof. apply sum_list_with_app. Qed.
Lemma weight_notes l : Forall note l → weight l = length l.
Proof. induction 1 as [|d l [Hp _] _ IH]; [done|]. rewrite weight_cons, IH. unfold weight_of. by rewrite Hp. Qed.
Lemma weight_bound l : weight l ≤ 3 * length l.
Proof.
  induction l as [|d l IH]; [done|]. assert (weight_of d ≤ 3) by (unfold weight_of; case_bool_decide; lia).
  rewrite weight_cons. cbn [length]. lia.
Qed.

Lemma land_spec_weight d s b s' : land_spec d s b s' → weight (pending_deliveries s') < weight (pending_deliveries s).
Proof.
  destruct 1 as [i Hi _|i n s' Hi _ _ -> [_ _ _ _ _ (notes & Hp & Hn & Hl)]]; rewrite (weight_delete _ _ _ Hi).
  - cbn [set_pending upd_queue pending_deliveries]. unfold weight_of. case_bool_decide; lia.
  - rewrite Hp, weight_app, (weight_notes _ Hn). cbn [set_pending upd_queue pending_deliveries]. unfold weight_of. case_bool_decide; lia.
Qed.
Lemma land_all_total fuel now s acc : weight (pending_deliveries s) ≤ fuel →
  ∃ l s', land_all fuel now s acc = Some (l, s') ∧ land_next now s' = None.
Proof.
  revert s acc. induction fuel as [|fuel IH]; intros s acc Hw; cbn [land_all]; destruct (land_next now s) as [[[d b] s']|] eqn:E;
    try (by eexists _, _; split; [done|]).
  - apply land_next_spec, land_spec_weight in E. lia.
  - apply IH. apply land_next_spec, land_spec_weight in E. lia.
Qed.
End props.
