(* ===== verification/DeliverySteps.v ===== *)
(** * Delivery of messages into a chat: histories

    What any sequence of operations on a session, of other changes of the session, of edits of its
    history and of restarts does with the deliveries it was given. *)

From stdpp Require Import gmap strings list.
From S2P Require Import Prelude RustStr Settings ActiveContext Delivery DeliveryQueue DeliveryProps.

Section steps.
Context {C P : Type} `{MessageSerde C} `{ChatEnv C P}.
Abbreviation Sess := (Session C P).
Implicit Types (s : Sess) (d : PendingDelivery C) (m : Message C).

(** ** Steps *)

(** A change of the session that leaves the deliveries alone: of its state, its draft, its waits, or of
    its messages as long as those that were delivered stay. *)
Record other_change s s' : Prop := {
  oc_stamps : stamps (messages s') = stamps (messages s);
  oc_pending : pending_deliveries s' = pending_deliveries s;
  oc_runner : runner_pending_deliveries s' = runner_pending_deliveries s;
  oc_delivered : delivered_delivery_ids s' = delivered_delivery_ids s;
  oc_dropped : dropped_deliveries s' = dropped_deliveries s;
  oc_side : post_tool_side_effects s' = post_tool_side_effects s;
}.
(** A session without deliveries, and one made anew with the messages of [s]. *)
Definition no_deliveries s : Prop :=
  pending_deliveries s = [] ∧ runner_pending_deliveries s = [] ∧ delivered_delivery_ids s = ∅
  ∧ dropped_deliveries s = [] ∧ post_tool_side_effects s = [].
(** [new_with_trajectory], then the saved deliveries. *)
Definition restore_session (saved : Sess) (now : N) (s0 : Sess) : Sess :=
  merge_dropped_deliveries (dropped_deliveries saved)
    (restore_pending_deliveries (pending_deliveries_for_snapshot saved) now s0).

(** One step, with the deliveries it brings in. *)
Inductive step : Sess → list (PendingDelivery C) → Sess → Prop :=
  | step_enqueue d now s : step s [d] (enqueue_delivery d now s).1
  | step_post_tool d now s : step s [d] (queue_post_tool_delivery d now s).1
  | step_sealed id s : step s [] (drop_sealed_delivery id s).1
  | step_collect now s s' drained statuses :
      collect_boundary_deliveries now s = Some (s', drained, statuses) → step s [] s'
  | step_update id p cancel s : step s [] (update_pending_delivery id p cancel s).1
  | step_suppress s : step s [] (suppress_delivery_wakes s)
  | step_runner ds s : step s ds (set_runner_pending_deliveries ds s)
  | step_begin_wait s : step s [] (begin_interruptible_wait s)
  | step_end_wait s : step s [] (end_interruptible_wait s)
  | step_message m now s : stamp_of m = None → step s [] (add_message m now s)
  | step_side_effect m s : stamp_of m = None →
      step s [] (upd_messages (messages s) (draft_message s) (post_tool_side_effects s ++ [m]) (next_uuid s) s)
  | step_other s s' : other_change s s' → step s [] s'
  | step_restart now s s0 : no_deliveries s0 → stamps (messages s0) = stamps (messages s) →
      step s [] (restore_session s now s0).
Inductive steps : Sess → list (PendingDelivery C) → Sess → Prop :=
  | steps_refl s : steps s [] s
  | steps_then s1 given s2 new s3 : steps s1 given s2 → step s2 new s3 → steps s1 (given ++ new) s3.

(** An edit of the history: a message is removed or those from a place on are; the content of one is changed (the
    callers of [update_message] change a copy); or the messages are replaced, by ones that bring no
    deliveries of their own. *)
Definition keys (ms : list (Message C)) : list (string * string) := (stamps ms).*1.
Inductive edit : Sess → Sess → Prop :=
  | edit_truncate n s : edit s (truncate_messages n s)
  | edit_remove id s : edit s (remove_message id s).1
  | edit_update id m s :
      (∀ old, old ∈ messages s → message_id old = id → stamp_of m = None ∧ stamp_of old = None ∨ fst <$> stamp_of m = fst <$> stamp_of old) →
      edit s (update_message id m s).1
  | edit_replace ms s : keys ms `sublist_of` keys (messages s) → edit s (replace_messages ms s)
  | edit_mirror ms s : keys ms `sublist_of` keys (messages s) → edit s (mirror_runner_messages ms s).
(** The delivered ids that an edit leaves without a message. *)
Definition stamp_id (x : string * string * C) : string := x.1.1.
Definition stamped_ids (ms : list (Message C)) : list string := stamp_id <$> stamps ms.
Definition lost s s' : list string := filter (λ id, id ∉ stamped_ids (messages s')) (stamped_ids (messages s)).
(** Steps and edits, with the deliveries given and the ids that lost their messages. *)
Inductive life : Sess → list (PendingDelivery C) → list string → Sess → Prop :=
  | life_refl s : life s [] [] s
  | life_step s1 given gone s2 new s3 : life s1 given gone s2 → step s2 new s3 → life s1 (given ++ new) gone s3
  | life_edit s1 given gone s2 s3 : life s1 given gone s2 → edit s2 s3 → life s1 given (gone ++ lost s2 s3) s3.

(** ** The ledger of deliveries *)

Definition ids_of (l : list (PendingDelivery C)) : list string := pd_id <$> l.
(** [d] is, but for its times and how it is pushed, one of the given deliveries, or a control message. *)
Definition given_by (given : list (PendingDelivery C)) d : Prop :=
  (∃ d0, d0 ∈ given ∧ pd_id d = pd_id d0 ∧ pd_messages d = pd_messages d0)
  ∨ (∃ m, pd_messages d = [m] ∧ role m = "event"%string).
Definition acceptable (given : list (PendingDelivery C)) d : Prop := pd_messages d ≠ [] ∧ given_by given d.

(** What a history shows of the deliveries of a ledger: the laws the steps need. *)
Class Shows (shows : list (Message C) → list (PendingDelivery C) → Prop) : Prop := {
  shows_same ms ms' l : stamps ms' = stamps ms → shows ms l → shows ms' l;
  shows_landed ms ms' l d : stamps ms' = stamps ms ++ batch d → pd_messages d ≠ [] → shows ms l → shows ms' (l ++ [d]);
  shows_restart ms l : Forall (λ d, pd_messages d ≠ []) l → shows ms l →
    ∃ l', l' `sublist_of` l ∧ shows ms l' ∧ ∀ id, id ∈ stamped_ids ms ↔ id ∈ ids_of l';
}.

Section ledger.
Context (shows : list (Message C) → list (PendingDelivery C) → Prop) `{!Shows shows}.

Record ledger_of (given l : list (PendingDelivery C)) s : Prop := {
  lg_ids : NoDup (ids_of l);
  lg_given : Forall (acceptable given) l;
  lg_shows : shows (messages s) l;
  lg_delivered : ∀ id, id ∈ delivered_delivery_ids s ↔ id ∈ ids_of l;
  lg_pending : Forall (acceptable given) (pending_deliveries s);
  lg_runner : Forall (given_by given) (runner_pending_deliveries s);
  lg_side : Forall (λ m, stamp_of m = None) (post_tool_side_effects s);
}.

Abbreviation ledger := ledger_of.

Lemma given_by_mono given given' d : given ⊆ given' → given_by given d → given_by given' d.
Proof. intros Hs [(d0 & Hin & Hd)|Hm]; [left|by right]. exists d0. split; [by apply Hs|done]. Qed.
Lemma acceptable_mono given given' d : given ⊆ given' → acceptable given d → acceptable given' d.
Proof. intros Hs [? ?]. split; [done|by eapply given_by_mono]. Qed.
Lemma ledger_mono given given' l s : given ⊆ given' → ledger given l s → ledger given' l s.
Proof.
  intros Hs [? ? ? ? ? ? ?]. split; try done; (eapply Forall_impl; [eassumption|]); intros; first [by eapply acceptable_mono|by eapply given_by_mono].
Qed.
Lemma note_acceptable given d : note d → acceptable given d.
Proof. intros (_ & m & Hm & He). split; [by rewrite Hm|]. right. by exists m. Qed.
(** What counts of a delivery. *)
Lemma acceptable_same given d d' : pd_id d' = pd_id d → pd_messages d' = pd_messages d → acceptable given d → acceptable given d'.
Proof. unfold acceptable, given_by. by intros -> ->. Qed.

Lemma ledger_quiet given l n s s' : quiet_change n s s' → ledger given l s → ledger given l s'.
Proof.
  intros [H1 H2 H3 H4 H5 (notes & Hp & Hn & _)] [? ? ? ? ? ? ?]. split; rewrite ?H2, ?H4, ?H5; try done; [by eapply shows_same|].
  rewrite Hp. apply Forall_app. split; [done|]. eapply Forall_impl; [exact Hn|]. apply note_acceptable.
Qed.
Lemma ledger_landed given l n d s s' :
  landed n d s s' → pd_id d ∉ delivered_delivery_ids s → acceptable given d →
  ledger given l s → ledger given (l ++ [d]) s'.
Proof.
  intros [H1 H2 H3 H4 H5 (notes & Hp & Hn & _)] Hnew Hd [Hids Hg Hst Hde Hpe Hru Hsi].
  unfold ids_of in *. split; rewrite ?H4, ?H5; try done.
  - unfold ids_of. rewrite fmap_app. apply NoDup_app. split_and!; [done| |apply NoDup_singleton].
    intros x Hx ->%list_elem_of_singleton. by apply Hnew, Hde.
  - apply Forall_app. split; [done|by constructor].
  - by eapply shows_landed; [exact H1|apply Hd|].
  - intros id. rewrite H2. unfold ids_of. rewrite fmap_app, elem_of_union, elem_of_singleton, elem_of_app, Hde. cbn. rewrite list_elem_of_singleton. tauto.
  - rewrite Hp. apply Forall_app. split; [done|]. eapply Forall_impl; [exact Hn|]. apply note_acceptable.
Qed.
Lemma ledger_fields given l s s' :
  messages s' = messages s → delivered_delivery_ids s' = delivered_delivery_ids s →
  Forall (acceptable given) (pending_deliveries s') → runner_pending_deliveries s' = runner_pending_deliveries s →
  post_tool_side_effects s' = post_tool_side_effects s → ledger given l s → ledger given l s'.
Proof. intros H1 H2 H3 H4 H5 [? ? ? ? ? ? ?]. split; rewrite ?H1, ?H2, ?H4, ?H5; done. Qed.

(** *** Pieces of the operations *)

Lemma record_fields id st s :
  let s' := record_dropped_delivery id st s in
  messages s' = messages s ∧ delivered_delivery_ids s' = delivered_delivery_ids s
  ∧ pending_deliveries s' = pending_deliveries s ∧ runner_pending_deliveries s' = runner_pending_deliveries s
  ∧ post_tool_side_effects s' = post_tool_side_effects s.
Proof. done. Qed.
Lemma records_fields st ids s :
  let s' := foldl (λ s id, record_dropped_delivery id st s) s ids in
  messages s' = messages s ∧ delivered_delivery_ids s' = delivered_delivery_ids s
  ∧ pending_deliveries s' = pending_deliveries s ∧ runner_pending_deliveries s' = runner_pending_deliveries s
  ∧ post_tool_side_effects s' = post_tool_side_effects s.
Proof. revert s. induction ids as [|id ids IH]; intros s; cbn [foldl]; [done|]. destruct (IH (record_dropped_delivery id st s)) as (-> & -> & -> & -> & ->). done. Qed.
Lemma drop_where_fields f st s :
  let s' := drop_where f st s in
  messages s' = messages s ∧ delivered_delivery_ids s' = delivered_delivery_ids s
  ∧ pending_deliveries s' = filter (λ d, pd_id d ∉ ids_of (filter (λ d, f d = true) (pending_deliveries s))) (pending_deliveries s)
  ∧ runner_pending_deliveries s' = runner_pending_deliveries s
  ∧ post_tool_side_effects s' = post_tool_side_effects s.
Proof. unfold drop_where. cbv zeta. destruct (records_fields st (pd_id <$> filter (λ d, f d = true) (pending_deliveries s))
  (set_pending (filter (λ d, pd_id d ∉ (pd_id <$> filter (λ d, f d = true) (pending_deliveries s))) (pending_deliveries s)) s)) as (-> & -> & -> & -> & ->). done. Qed.

Lemma ledger_drop_where given l f st s : ledger given l s → ledger given l (drop_where f st s).
Proof.
  intros Hl. destruct (drop_where_fields f st s) as (H1 & H2 & H3 & H4 & H5). apply (ledger_fields _ l s); try done.
  rewrite H3. pose proof (lg_pending _ _ _ Hl) as Hpe. rewrite Forall_forall in Hpe |- *. intros x [_ Hx]%list_elem_of_filter. by apply Hpe.
Qed.
Lemma ledger_supersede given l d s : ledger given l s → ledger given l (supersede_pending d s).
Proof. intros Hl. unfold supersede_pending. destruct (supersede_key d); [by apply ledger_drop_where|done]. Qed.
Lemma interrupt_fields s :
  let s' := interrupt_wait_for_delivery s in
  messages s' = messages s ∧ delivered_delivery_ids s' = delivered_delivery_ids s
  ∧ pending_deliveries s' = pending_deliveries s ∧ runner_pending_deliveries s' = runner_pending_deliveries s
  ∧ post_tool_side_effects s' = post_tool_side_effects s ∧ dropped_deliveries s' = dropped_deliveries s.
Proof. unfold interrupt_wait_for_delivery. by destruct (_ || _). Qed.

Lemma ensure_ttl_same now ttl d : pd_id (ensure_ttl_secs now ttl d) = pd_id d ∧ pd_messages (ensure_ttl_secs now ttl d) = pd_messages d.
Proof. unfold ensure_ttl_secs, set_ttl_secs. destruct (_ =? _)%N; cbn; by destruct (expires_at_ms d). Qed.
Lemma ensure_restored_same now ttl d :
  pd_id (ensure_restored_ttl_secs now ttl d) = pd_id d ∧ pd_messages (ensure_restored_ttl_secs now ttl d) = pd_messages d.
Proof. unfold ensure_restored_ttl_secs. destruct (_ && _); [apply (ensure_ttl_same now ttl (upd_times _ _ d))|apply ensure_ttl_same]. Qed.

Lemma knows_not_delivered id s : knows_delivery_id id s = false → id ∉ delivered_delivery_ids s.
Proof. unfold knows_delivery_id. rewrite !orb_false_iff, bool_decide_eq_false. tauto. Qed.
Lemma check_delivery_nonempty d s : check_delivery d s = Ok () → pd_messages d ≠ [].
Proof. unfold check_delivery. destruct (closed s); [done|]. by case_bool_decide. Qed.

Lemma ledger_enqueue given l d now s :
  d ∈ given → ledger given l s → ∃ l', ledger given l' (enqueue_delivery d now s).1.
Proof.
  intros Hin Hl. unfold enqueue_delivery. destruct (check_delivery d s) as [[]|] eqn:Hck; [|by exists l].
  apply check_delivery_nonempty in Hck. destruct (knows_delivery_id (pd_id d) s) eqn:Hk; [by exists l|].
  destruct (ensure_ttl_same now (delivery_default_ttl_secs settings) d) as [Hid Hms]. set (d' := ensure_ttl_secs _ _ d) in *. clearbody d'.
  assert (acceptable given d') as Hd. { split; [by rewrite Hms|]. left. by exists d. }
  rewrite <- Hid in Hk. apply knows_not_delivered in Hk. cbv zeta.
  destruct (is_expired_at now d'); [exists l; by apply (ledger_fields given l s); try done; apply Hl|].
  destruct (_ && negb _); [by exists l|].
  assert (ledger given l (supersede_pending d' s)) as Hsu by by apply ledger_supersede.
  assert (pd_id d' ∉ delivered_delivery_ids (supersede_pending d' s)) as Hk'.
  { unfold supersede_pending. destruct (supersede_key d'); [|done]. by destruct (drop_where_fields (supersedes d') SSuperseded s) as (_ & -> & _). }
  destruct (_ && _) eqn:Hpre; cbn [fst].
  - exists (l ++ [d']). pose proof (preempt_quiet (source d') now (supersede_pending d' s)) as Hq.
    eapply ledger_landed; [apply append_landed| |done|by eapply ledger_quiet]. by rewrite (qc_delivered _ _ _ Hq).
  - destruct (_ && negb _); cbn [fst].
    + exists (l ++ [d']). eapply ledger_landed; [apply append_landed|done..].
    + exists l. destruct (interrupt_fields (set_pending (pending_deliveries (supersede_pending d' s) ++ [d']) (supersede_pending d' s))) as (H1 & H2 & H3 & H4 & H5 & _).
      apply (ledger_fields given l (supersede_pending d' s)); [exact H1|exact H2| |exact H4|exact H5|done]. rewrite H3. apply Forall_app. split; [apply Hsu|by constructor].
Qed.

Lemma ledger_land_all given fuel now l s acc landed_ s' :
  ledger given l s → land_all fuel now s acc = Some (landed_, s') → ∃ l', ledger given l' s'.
Proof.
  revert l s acc. induction fuel as [|fuel IH]; intros l s acc Hl; cbn [land_all]; destruct (land_next now s) as [[[d b] s1]|] eqn:E;
    try done; try (intros [= _ <-]; by exists l).
  intros Hr. apply land_next_spec in E. assert (∃ l', ledger given l' s1) as [l' Hl']; [|by eapply IH].
  assert (∀ i, ledger given l (set_pending (delete i (pending_deliveries s)) s)) as Hdel.
  { intros i. apply (ledger_fields _ l s); try done. apply Forall_delete. apply Hl. }
  destruct E as [i _ _|i n s1 Hi Hnew _ _ Hld]; [by exists l|]. exists (l ++ [d]). eapply ledger_landed; [exact Hld|done| |done].
  exact (Forall_lookup_1 _ _ _ _ (lg_pending _ _ _ Hl) Hi).
Qed.
Lemma drain_result now s s' out : drain_pending_deliveries now s = Some (s', out) →
  pending_deliveries s = [] ∧ s' = s
  ∨ ∃ landed_ s1 w b, land_all (land_fuel (expire_pending_deliveries now s)) now (expire_pending_deliveries now s) [] = Some (landed_, s1)
      ∧ s' = upd_waits (interruptible_waits s1) (wait_tool_window_active s1) w b s1
      ∧ (w = true → wait_delivery_boundary s1 = true) ∧ out = (pd_id <$> landed_, existsb wake landed_).
Proof.
  unfold drain_pending_deliveries. case_bool_decide; [intros [= <- <-]; by left|].
  intros Hd. right. destruct (land_all _ _ _ _) as [[landed_ s1]|]; [|done]. cbn [mbind option_bind] in Hd.
  exists landed_, s1. destruct (_ && _); injection Hd as <- <-.
  - by exists false, (wait_interrupt_flag s1).
  - exists (wait_delivery_boundary s1), (wait_interrupt_flag s1). split_and!; [done|by destruct s1|done|done].
Qed.
Lemma ledger_drain given l now s s' out :
  ledger given l s → drain_pending_deliveries now s = Some (s', out) → ∃ l', ledger given l' s'.
Proof.
  intros Hl [[_ ->]|(landed_ & s1 & w & b & Hla & -> & _ & _)]%drain_result; [by exists l|].
  destruct (ledger_land_all given _ _ _ _ _ _ _ (ledger_drop_where given l (is_expired_at now) SExpired s Hl) Hla) as [l' Hl'].
  exists l'. by apply (ledger_fields given l' s1); try done; apply Hl'.
Qed.
Lemma side_effects_quiet now ms s : Forall (λ m, stamp_of m = None) ms →
  quiet_change (length ms) s (foldl (λ s m, add_message m now s) s ms).
Proof.
  intros Hms. revert s. induction Hms as [|m ms Hm _ IH]; intros s; cbn [foldl length]; [apply quiet_refl|].
  apply (quiet_trans 1 (length ms) s (add_message m now s)); [by apply add_message_quiet|apply IH].
Qed.
Lemma ledger_side_effects given l now s : ledger given l s → ledger given l (drain_post_tool_side_effects now s).
Proof.
  intros Hl. unfold drain_post_tool_side_effects. destruct (_ || _); [done|].
  eapply ledger_quiet; [apply side_effects_quiet, Hl|]. destruct Hl. by split.
Qed.

Lemma elem_of_first_of_each seen ds d : d ∈ first_of_each seen ds → d ∈ ds.
Proof.
  revert seen. induction ds as [|x ds IH]; intros seen; cbn [first_of_each]; [done|]. rewrite elem_of_cons.
  case_bool_decide; [intros; right; by eapply IH|]. rewrite elem_of_cons. intros [->|?]; [by left|right; by eapply IH].
Qed.
Lemma ledger_restore_one given l now acc d : given_by given d → ledger given l acc.2 → ledger given l (restore_one now acc d).2.
Proof.
  destruct acc as [seen s]. intros Hd Hl. unfold restore_one. cbn [snd] in *. case_bool_decide as Hne; [done|]. cbn [orb].
  case_bool_decide; [done|]. case_bool_decide; [done|]. cbv zeta.
  destruct (ensure_restored_same now (delivery_default_ttl_secs settings) d) as [Hid Hms]. set (d' := ensure_restored_ttl_secs _ _ d) in *. clearbody d'.
  destruct (is_expired_at now d'); cbn [snd]; [by apply (ledger_fields given l s); try done; apply Hl|].
  assert (ledger given l (supersede_pending d' s)) as Hsu by by apply ledger_supersede.
  apply (ledger_fields _ l (supersede_pending d' s)); try done. cbn [set_pending upd_queue pending_deliveries].
  apply Forall_app. split; [apply Hsu|]. constructor; [|done]. by apply (acceptable_same given d); [..|split].
Qed.
Lemma ledger_merge given l rs s : ledger given l s → ledger given l (merge_dropped_deliveries rs s).
Proof.
  unfold merge_dropped_deliveries. revert s. induction rs as [|r rs IH]; intros s Hl; cbn [foldl]; [done|]. apply IH.
  by apply (ledger_fields given l s); try done; apply Hl.
Qed.
Lemma stamps_ids ms : omap delivery_id_of_message ms = stamped_ids ms.
Proof.
  unfold stamped_ids.   induction ms as [|m ms IH]; [done|]. cbn [omap list_omap stamps]. unfold stamp_of at 1. fold (stamps ms).
  destruct (delivery_id_of_message m); cbn; by rewrite IH.
Qed.
Lemma ledger_restart given l now s s0 :
  no_deliveries s0 → stamps (messages s0) = stamps (messages s) → ledger given l s →
  ∃ l', ledger given l' (restore_session s now s0).
Proof.
  intros (Hp & Hr & Hd & _ & Hs) Hst Hl.
  destruct (shows_restart (messages s) l) as (l' & Hsub & Hsh & Hids); [eapply Forall_impl; [apply Hl|]; by intros d [? _]|apply Hl|].
  exists l'. unfold restore_session. apply ledger_merge. unfold restore_pending_deliveries.
  set (s1 := upd_queue _ _ _ _ s0). assert (ledger given l' s1) as Hl1.
  { split; subst s1; cbn [upd_queue pending_deliveries runner_pending_deliveries messages post_tool_side_effects delivered_delivery_ids];
      rewrite ?Hp, ?Hr, ?Hs; try done.
    - eapply sublist_NoDup; [apply Hl|]. by apply fmap_sublist.
    - apply Forall_forall. intros d Hin. pose proof (lg_given _ _ _ Hl) as Hg. rewrite Forall_forall in Hg. apply Hg.
      by eapply sublist_subseteq.
    - by eapply shows_same.
    - intros id. rewrite Hd, elem_of_union, elem_of_list_to_set, stamps_ids. unfold stamped_ids. rewrite Hst. fold (stamped_ids (messages s)).
      rewrite Hids. set_solver. }
  assert (Forall (given_by given) (pending_deliveries_for_snapshot s)) as Hg.
  { apply Forall_forall. intros d [Hin|Hin]%elem_of_first_of_each%elem_of_app.
    - pose proof (lg_pending _ _ _ Hl) as Hpe. rewrite Forall_forall in Hpe. by apply Hpe.
    - pose proof (lg_runner _ _ _ Hl) as Hru. rewrite Forall_forall in Hru. by apply Hru. }
  generalize (pd_id <$> (pending_deliveries s1 ++ runner_pending_deliveries s1)). clearbody s1. intros seen.
  revert seen s1 Hl1. induction Hg as [|d ds Hd0 _ IH]; intros seen s1 Hl1; cbn [foldl]; [done|].
  pose proof (ledger_restore_one given l' now (seen, s1) d Hd0 Hl1) as Hl2. destruct (restore_one now (seen, s1) d) as [seen' s2]. by apply IH.
Qed.

Lemma ledger_step given l s new s' : ledger given l s → step s new s' → ∃ l', ledger (given ++ new) l' s'.
Proof.
  intros Hl Hs. assert (ledger (given ++ new) l s) as Hl0 by (eapply ledger_mono; [|exact Hl]; set_solver).
  clear Hl. destruct Hs.
  - apply (ledger_enqueue _ l); [set_solver|done].
  - unfold queue_post_tool_delivery. cbv zeta. match goal with |- context [set_after ?a d] => set (a0 := a) end.
    assert (ledger ((given ++ [d]) ++ [set_after a0 d]) l s) as Hl1 by (eapply ledger_mono; [|exact Hl0]; set_solver).
    destruct (ledger_enqueue ((given ++ [d]) ++ [set_after a0 d]) l (set_after a0 d) now s) as [l' Hl']; [set_solver|done|]. exists l'.
    assert (∀ x, given_by ((given ++ [d]) ++ [set_after a0 d]) x → given_by (given ++ [d]) x) as Hsame.
    { intros x [(d0 & Hin & Hx)|?]; [|by right]. left. rewrite elem_of_app, list_elem_of_singleton in Hin.
      destruct Hin as [Hin| ->]; [by exists d0|]. exists d. split; [set_solver|done]. }
    destruct Hl'. split; try done; (eapply Forall_impl; [eassumption|]); [intros x [? ?]; split; [done|by apply Hsame].. |exact Hsame].
  - exists l. unfold drop_sealed_delivery. destruct (knows_delivery_id _ _); [done|]. by apply (ledger_fields _ l s); try done; apply Hl0.
  - match goal with Hc : collect_boundary_deliveries _ _ = _ |- _ => unfold collect_boundary_deliveries in Hc; cbv zeta in Hc end.
    destruct (drain_pending_deliveries now _) as [[s1 out]|] eqn:E; [|done]. cbn in *. simplify_eq.
    eapply ledger_drain; [|exact E]. by apply ledger_side_effects.
  - exists l. unfold update_pending_delivery. destruct (list_find _ _) as [[i d]|] eqn:E; [|done].
    apply list_find_Some in E as (Hi & _ & _). pose proof (lg_pending _ _ _ Hl0) as Hpe.
    destruct cancel; [destruct (existsb _ _); cbn [fst]; [done|]|destruct p as [p|]; cbn [fst]; [|done]].
    + apply (ledger_fields _ l s); try done. cbn. by apply Forall_delete.
    + destruct (interrupt_fields (set_pending (<[i:=set_push p d]> (pending_deliveries s)) s)) as (H1 & H2 & H3 & H4 & H5 & _).
      apply (ledger_fields _ l s); [exact H1|exact H2| |exact H4|exact H5|done]. rewrite H3. apply Forall_insert; [done|].
      eapply acceptable_same; [..|by eapply Forall_lookup_1]; done.
  - exists l. destruct Hl0 as [? ? ? ? Hpe Hru ?]. split; try done; cbn; apply Forall_fmap; [eapply Forall_impl; [exact Hpe|]|eapply Forall_impl; [exact Hru|]]; done.
  - exists l. unfold set_runner_pending_deliveries. match goal with |- context [interrupt_wait_for_delivery ?x] => destruct (interrupt_fields x) as (H1 & H2 & H3 & H4 & H5 & _) end.
    destruct Hl0. split; rewrite ?H1, ?H2, ?H3, ?H4, ?H5; try done. apply Forall_forall. intros d Hd. left. exists d. split; [set_solver|done].
  - exists l. unfold begin_interruptible_wait. match goal with |- context [interrupt_wait_for_delivery ?x] => destruct (interrupt_fields x) as (H1 & H2 & H3 & H4 & H5 & _) end.
    destruct Hl0. by split; rewrite ?H1, ?H2, ?H3, ?H4, ?H5.
  - exists l. by destruct Hl0; split.
  - exists l. eapply ledger_quiet; [by apply add_message_quiet|done].
  - exists l. destruct Hl0 as [? ? ? ? ? ? Hsi]. split; try done. cbn. apply Forall_app. split; [done|by constructor].
  - exists l. match goal with Ho : other_change _ _ |- _ => destruct Ho as [H1 H2 H3 H4 H5 H6] end.
    destruct Hl0. split; rewrite ?H2, ?H3, ?H4, ?H6; try done. by eapply shows_same.
  - by eapply ledger_restart.
Qed.
End ledger.

(** *** The history of a session that is not edited *)

Lemma batches_ids l id : Forall (λ d, pd_messages d ≠ []) l → id ∈ (stamp_id <$> (l ≫= batch)) ↔ id ∈ ids_of l.
Proof.
  intros Hl. unfold ids_of. induction Hl as [|d l Hd _ IH]; [done|]. cbn [mbind list_bind]. fold (mbind (M := list) batch l).
  rewrite fmap_app, elem_of_app, IH, fmap_cons, elem_of_cons. unfold batch at 1. rewrite <- list_fmap_compose.
  split; [intros [(m & -> & _)%list_elem_of_fmap|?]; [by left|by right]|].
  intros [->|?]; [left|by right]. destruct (pd_messages d); [done|]. by left.
Qed.
Definition exactly (ms : list (Message C)) (l : list (PendingDelivery C)) : Prop := stamps ms = l ≫= batch.
#[export] Instance exactly_shows : Shows exactly.
Proof.
  unfold exactly. split.
  - intros ms ms' l -> ?. done.
  - intros ms ms' l d -> _ ->. rewrite bind_app. cbn. by rewrite app_nil_r.
  - intros ms l Hl Hms. exists l. split_and!; [done|done|]. intros id. unfold stamped_ids. rewrite Hms. by apply batches_ids.
Qed.
Abbreviation ledger := (ledger_of exactly).


Lemma new_ledger shows given s :
  no_deliveries s → shows (messages s) [] → ledger_of shows given [] s.
Proof.
  intros (Hp & Hr & Hd & _ & Hs) Hsh. split; rewrite ?Hp, ?Hr, ?Hd, ?Hs; try done; [constructor|]. unfold ids_of. set_solver.
Qed.

Lemma steps_ledger s given s' :
  no_deliveries s → stamps (messages s) = [] → steps s given s' → ∃ l, ledger given l s'.
Proof.
  intros Hno Hst Hrun. induction Hrun as [s|s given s2 new s3 _ IH Hstep].
  - exists []. by apply new_ledger.
  - destruct (IH Hno Hst) as [l Hl]. by eapply (ledger_step exactly).
Qed.

(** *** The history of a session that is edited *)

(** Of the deliveries, in order, what the edits left; [gone] holds of those whose messages were all removed. *)
Definition still (gone : string → Prop) (ms : list (Message C)) (l : list (PendingDelivery C)) : Prop :=
  keys ms `sublist_of` (l ≫= batch).*1 ∧ ∀ id, id ∈ ids_of l → id ∈ stamped_ids ms ∨ gone id.

Lemma stamped_keys ms : stamped_ids ms = (keys ms).*1.
Proof. unfold stamped_ids, keys. by rewrite <- list_fmap_compose. Qed.
Lemma filter_sublist_mono {A} (Q : A → Prop) `{!∀ x, Decision (Q x)} (k l : list A) :
  k `sublist_of` l → filter Q k `sublist_of` filter Q l.
Proof.
  induction 1 as [|x k l _ IH|x k l _ IH]; [done|..]; rewrite ?filter_cons; case_decide;
    by first [apply sublist_skip|apply sublist_cons|idtac].
Qed.
Lemma batch_keys_filter (X : list string) l :
  filter (λ k, k.1 ∈ X) (l ≫= batch).*1 = (filter (λ d, pd_id d ∈ X) l ≫= batch).*1.
Proof.
  induction l as [|d l IH]; [done|]. rewrite bind_cons, fmap_app, filter_app, IH, filter_cons.
  assert (∀ k, k ∈ (batch d).*1 → k.1 = pd_id d) as Hk.
  { intros k (x & -> & Hx)%list_elem_of_fmap. unfold batch in Hx. by apply list_elem_of_fmap in Hx as (m & -> & _). }
  case_decide as Hd; [rewrite bind_cons, fmap_app; f_equal; apply filter_every; intros k Hin; by rewrite (Hk k Hin)|].
  assert (filter (λ k, k.1 ∈ X) (batch d).*1 = []) as ->; [|done]. revert Hk. generalize ((batch d).*1). intros ks Hk.
  induction ks as [|k ks IHk]; [done|]. rewrite filter_cons, decide_False by (rewrite Hk; [done|by left]). apply IHk. intros x ?. apply Hk. by right.
Qed.

#[export] Instance still_shows gone : Shows (still gone).
Proof.
  split.
  - intros ms ms' l Hst. unfold still, keys, stamped_ids. by rewrite Hst.
  - intros ms ms' l d Hst Hne [Hk Hid]. unfold still, keys, stamped_ids in *. rewrite Hst, !fmap_app, bind_app, fmap_app.
    cbn [mbind list_bind]. rewrite app_nil_r. split; [by apply sublist_app|]. intros id Hin. unfold ids_of in Hin.
    rewrite fmap_app, elem_of_app in Hin. destruct Hin as [Hin|Hin%list_elem_of_singleton].
    + destruct (Hid id Hin); [left; apply elem_of_app; by left|by right].
    + subst id. left. apply elem_of_app. right. unfold batch. rewrite <- list_fmap_compose. destruct (pd_messages d); [done|by left].
  - intros ms l Hne [Hk Hid]. exists (filter (λ d, pd_id d ∈ stamped_ids ms) l).
    assert (∀ id, id ∈ stamped_ids ms ↔ id ∈ ids_of (filter (λ d, pd_id d ∈ stamped_ids ms) l)) as Hids.
    { intros id. split.
      - intros Hin. assert (id ∈ (l ≫= batch).*1.*1) as Hb.
        { eapply sublist_subseteq; [apply fmap_sublist; exact Hk|]. by rewrite <- stamped_keys. }
        rewrite <- list_fmap_compose in Hb. apply (batches_ids l id Hne) in Hb. unfold ids_of in *.
        apply list_elem_of_fmap in Hb as (d & -> & Hd). apply list_elem_of_fmap. exists d. split; [done|]. by apply list_elem_of_filter.
      - unfold ids_of. by intros (d & -> & [? _]%list_elem_of_filter)%list_elem_of_fmap. }
    split_and!; [apply sublist_filter| |exact Hids]. split; [|intros id Hin; left; by apply Hids].
    rewrite <- batch_keys_filter, <- (filter_every (λ k, k.1 ∈ stamped_ids ms) (keys ms)); [by apply filter_sublist_mono|].
    intros k Hin. rewrite stamped_keys. by apply list_elem_of_fmap_2.
Qed.

Lemma still_weaken (gone gone' : string → Prop) given l s :
  (∀ id, gone id → gone' id) → ledger_of (still gone) given l s → ledger_of (still gone') given l s.
Proof. intros Hg [? ? [? Hid] ? ? ? ?]. split; try done. split; [done|]. intros id Hin. destruct (Hid id Hin); auto. Qed.

(** Edits take stamps away and leave the queue alone. *)
Record edited s s' : Prop := {
  ed_keys : keys (messages s') `sublist_of` keys (messages s);
  ed_pending : pending_deliveries s' = pending_deliveries s;
  ed_runner : runner_pending_deliveries s' = runner_pending_deliveries s;
  ed_delivered : delivered_delivery_ids s' = delivered_delivery_ids s;
  ed_dropped : dropped_deliveries s' = dropped_deliveries s;
  ed_side : post_tool_side_effects s' = post_tool_side_effects s;
}.
Lemma keys_sublist (ms' ms : list (Message C)) : ms' `sublist_of` ms → keys ms' `sublist_of` keys ms.
Proof.
  intros Hs. unfold keys. apply fmap_sublist. induction Hs as [|m ms' ms _ IH|m ms' ms _ IH]; [done|..]; cbn [stamps omap list_omap];
    fold (stamps ms') (stamps ms); destruct (stamp_of m); by first [apply sublist_skip|apply sublist_cons|idtac].
Qed.
Lemma keys_insert (ms : list (Message C)) i m old :
  ms !! i = Some old → fst <$> stamp_of m = fst <$> stamp_of old → keys (<[i := m]> ms) = keys ms.
Proof.
  unfold keys. revert i. induction ms as [|x ms IH]; intros [|i] Hi Hst; try done; cbn in Hi; cbn [insert list_insert stamps omap list_omap].
  - injection Hi as ->. destruct (stamp_of m), (stamp_of old); cbn in *; simplify_eq; [|done]. by f_equal.
  - specialize (IH i Hi Hst). fold (stamps (<[i := m]> ms)) (stamps ms). destruct (stamp_of x); [rewrite !fmap_cons; f_equal|]; exact IH.
Qed.
Lemma edit_spec s s' : edit s s' → edited s s'.
Proof.
  intros He. destruct He as [n s|id s|id m s Hm|ms s Hk|ms s Hk]; [| | |by split..].
  - unfold truncate_messages. destruct (_ <? _); [|by split]. split; try done. cbn. apply keys_sublist, sublist_take.
  - unfold remove_message. destruct (mutable_message_start _) as [start|]; [|by split]. destruct (mutable_index id s) as [i|]; [|by split].
    split; try done. cbn. apply keys_sublist. unfold without_results. etrans; [|apply sublist_delete].
    rewrite <- (take_drop start (delete i (messages s))) at 3. apply sublist_app; [done|apply sublist_filter].
  - unfold update_message. destruct (is_report m); [by split|]. destruct (mutable_index id s) as [i|] eqn:Hi; [|by split]. split; try done.
    change (keys (<[i:=m]> (messages s)) `sublist_of` keys (messages s)).
    unfold mutable_index in Hi. apply bind_Some in Hi as (start & _ & ([j old] & Hf & Hj)%bind_Some). destruct (_ <? _); [done|].
    injection Hj as ->. apply list_find_Some in Hf as (Hl & Hid & _). erewrite keys_insert; [done|exact Hl|].
    destruct (Hm old) as [[-> ->]|?]; [by eapply list_elem_of_lookup_2|done..].
Qed.

Lemma ledger_edit gone given l s s' :
  ledger_of (still gone) given l s → edit s s' → ledger_of (still (λ id, gone id ∨ id ∈ lost s s')) given l s'.
Proof.
  intros [? ? [Hk Hid] ? ? ? ?] [Hks Hp Hr Hd _ Hs]%edit_spec. split; rewrite ?Hp, ?Hr, ?Hd, ?Hs; try done. split; [by etrans|].
  intros id [Hin|?]%Hid; [|by right; left]. destruct (decide (id ∈ stamped_ids (messages s'))); [by left|]. right; right. by apply list_elem_of_filter.
Qed.

(** From any ledger on: the ids that lose their messages are added to those that had. *)
Lemma life_ledger_from gone0 given0 l0 s given gone s' :
  ledger_of (still gone0) given0 l0 s → life s given gone s' →
  ∃ l, ledger_of (still (λ id, gone0 id ∨ id ∈ gone)) (given0 ++ given) l s'.
Proof.
  intros Hl0 Hrun. induction Hrun as [s|s given gone s2 new s3 _ IH Hstep|s given gone s2 s3 _ IH Hedit].
  - exists l0. rewrite app_nil_r. eapply still_weaken; [|exact Hl0]. by left.
  - destruct (IH Hl0) as [l Hl]. rewrite app_assoc. by eapply (ledger_step (still _)).
  - destruct (IH Hl0) as [l Hl]. exists l. eapply still_weaken; [|eapply ledger_edit; [exact Hl|exact Hedit]].
    intros id. cbn. rewrite elem_of_app. tauto.
Qed.
Lemma life_ledger s given gone s' :
  no_deliveries s → stamps (messages s) = [] → life s given gone s' → ∃ l, ledger_of (still (.∈ gone)) given l s'.
Proof.
  intros Hno Hst Hrun. destruct (life_ledger_from (λ _, False) [] [] s given gone s') as [l Hl]; [|done|].
  - apply new_ledger; [done|]. unfold still, keys. rewrite Hst. split; [done|]. intros id Hin. by apply elem_of_nil in Hin.
  - exists l. eapply still_weaken; [|exact Hl]. by intros id [[]|?].
Qed.

(** C36. Exactly once.  Whatever happens to a session short of edits of its history, restarts included, its history
    holds the messages of every delivery at most once, together and in order, and the deliveries that the session
    reports as delivered are those; each of them was given to the session, or is a note of the session itself.
    When the history is edited as well, by removing messages, changing contents, or replacing the messages by ones
    that bring no deliveries of their own, what is left of the delivered messages is still at most once and in
    order, and a delivery reported as delivered has a message left or is one of those that an edit took all
    messages from. *)
Theorem deliveries_land_once s given gone s' :
  no_deliveries s → stamps (messages s) = [] →
  (steps s given s' →
   ∃ l, NoDup (ids_of l) ∧ stamps (messages s') = l ≫= batch
     ∧ (∀ id, id ∈ delivered_delivery_ids s' ↔ id ∈ ids_of l)
     ∧ Forall (given_by given) l)
  ∧ (life s given gone s' →
     ∃ l, NoDup (ids_of l) ∧ keys (messages s') `sublist_of` (l ≫= batch).*1
       ∧ (∀ id, id ∈ delivered_delivery_ids s' ↔ id ∈ ids_of l)
       ∧ (∀ id, id ∈ delivered_delivery_ids s' → id ∈ stamped_ids (messages s') ∨ id ∈ gone)
       ∧ Forall (given_by given) l).
Proof.
  intros Hno Hst. split; intros Hrun.
  - destruct (steps_ledger s given s' Hno Hst Hrun) as [l [Hids Hg Hstm Hdel _ _ _]]. exists l. split_and!; try done.
    eapply Forall_impl; [exact Hg|]. by intros d [_ ?].
  - destruct (life_ledger s given gone s' Hno Hst Hrun) as [l [Hids Hg [Hk Hid] Hdel _ _ _]]. exists l. split_and!; try done.
    + intros id ?%Hdel. by apply Hid.
    + eapply Forall_impl; [exact Hg|]. by intros d [_ ?].
Qed.
End steps.
Abbreviation ledger := (ledger_of exactly).
