(* ===== verification/DeliveryFate.v ===== *)
(** * Delivery of messages into a chat: what becomes of a delivery

    An accepted delivery is delivered, waits or has a recorded fate, and what waits lands
    where its boundary is open. *)

From stdpp Require Import gmap strings list.
From S2P Require Import Prelude RustStr Settings ActiveContext Delivery DeliveryQueue DeliveryProps DeliverySteps.

Section fate.
Context {C P : Type} `{MessageSerde C} `{ChatEnv C P}.
Abbreviation Sess := (Session C P).
Implicit Types (s : Sess) (d : PendingDelivery C) (m : Message C).

Definition retention : nat := N.to_nat (delivery_status_retention (settings (P := P))).
Definition dropped_ids s : list string := ds_id <$> dropped_deliveries s.
(** Delivered, pending or dropped. *)
Definition known (id : string) s : Prop :=
  id ∈ delivered_delivery_ids s ∨ id ∈ ids_of (pending_deliveries s) ∨ id ∈ dropped_ids s.

(** A step after which everything is still known, as long as no record was evicted. *)
Record keeps s s' : Prop := {
  kp_nodup : NoDup (dropped_ids s) → NoDup (dropped_ids s');
  kp_known : NoDup (dropped_ids s) → length (dropped_deliveries s') < retention →
             length (dropped_deliveries s) ≤ length (dropped_deliveries s') ∧ ∀ id, known id s → known id s';
}.
Lemma keeps_trans s1 s2 s3 : keeps s1 s2 → keeps s2 s3 → keeps s1 s3.
Proof.
  intros [Hn1 Hk1] [Hn2 Hk2]. split; [by auto|]. intros Hnd Hlt. destruct (Hk2 (Hn1 Hnd) Hlt) as [Hl2 Hk].
  destruct (Hk1 Hnd ltac:(lia)) as [Hl1 Hk']. split; [lia|]. auto.
Qed.
(** The usual case: nothing is dropped. *)
Lemma keeps_same s s' : dropped_deliveries s' = dropped_deliveries s → (∀ id, known id s → known id s') → keeps s s'.
Proof. intros Hd Hk. split; unfold dropped_ids; rewrite Hd; auto. Qed.
Lemma keeps_refl s : keeps s s.
Proof. by apply keeps_same. Qed.
Lemma keeps_fields s s' :
  dropped_deliveries s' = dropped_deliveries s → delivered_delivery_ids s ⊆ delivered_delivery_ids s' →
  ids_of (pending_deliveries s) ⊆ ids_of (pending_deliveries s') → keeps s s'.
Proof. intros Hd Hde Hp. apply keeps_same; [done|]. unfold known, dropped_ids. rewrite Hd. set_solver. Qed.

Lemma keeps_quiet n s s' : quiet_change n s s' → keeps s s'.
Proof.
  intros [_ Hde Hd _ _ (notes & Hp & _)]. apply keeps_fields; [done|by rewrite Hde|]. unfold ids_of. rewrite Hp, fmap_app. set_solver.
Qed.
Lemma keeps_landed n d s s' : landed n d s s' → keeps s s'.
Proof.
  intros [_ Hde Hd _ _ (notes & Hp & _)]. apply keeps_fields; [done|rewrite Hde; set_solver|]. unfold ids_of. rewrite Hp, fmap_app. set_solver.
Qed.

(** ** Records *)

Lemma record_dropped_ids id st s :
  NoDup (dropped_ids s) →
  let known_ids := filter (.≠ id) (dropped_ids s) ++ [id] in
  dropped_ids (record_dropped_delivery id st s) = drop (length known_ids - retention) known_ids.
Proof.
  intros _. unfold record_dropped_delivery, dropped_ids. cbv zeta. cbn [set_dropped upd_queue dropped_deliveries].
  rewrite fmap_drop, fmap_app. cbn [fmap list_fmap ds_id]. rewrite !length_app. fold retention.
  assert (ds_id <$> filter (λ r, ds_id r ≠ id) (dropped_deliveries s) = filter (.≠ id) (ds_id <$> dropped_deliveries s)) as Hf.
  { induction (dropped_deliveries s) as [|r rs IH]; [done|]. rewrite fmap_cons, !filter_cons. case_decide; cbn; by rewrite IH. }
  cbn. by rewrite <- Hf, length_fmap.
Qed.
Lemma length_filter_ne (id : string) l : NoDup l → length l ≤ length (filter (.≠ id) l) + 1.
Proof.
  induction 1 as [|x l Hx Hnd IH]; [cbn; lia|]. rewrite filter_cons. case_decide as Hd; cbn; [lia|].
  assert (x = id) as -> by (destruct (decide (x = id)); [done|by destruct Hd]).
  rewrite (filter_every (.≠ id) l); [lia|]. intros y Hy ->. done.
Qed.
Lemma record_keeps id st s :
  (NoDup (dropped_ids s) → NoDup (dropped_ids (record_dropped_delivery id st s)))
  ∧ (NoDup (dropped_ids s) → length (dropped_deliveries (record_dropped_delivery id st s)) < retention →
     length (dropped_deliveries s) ≤ length (dropped_deliveries (record_dropped_delivery id st s))
     ∧ id ∈ dropped_ids (record_dropped_delivery id st s)
     ∧ ∀ x, x ∈ dropped_ids s → x ∈ dropped_ids (record_dropped_delivery id st s)).
Proof.
  split; intros Hnd.
  - rewrite record_dropped_ids by done. eapply sublist_NoDup; [|apply sublist_drop]. apply NoDup_app. split_and!.
    + by apply NoDup_filter.
    + intros x [Hx _]%list_elem_of_filter. by rewrite list_elem_of_singleton.
    + apply NoDup_singleton.
  - pose proof (record_dropped_ids id st s Hnd) as Hids. cbv zeta in Hids.
    rewrite <- !(length_fmap ds_id). fold (dropped_ids s) (dropped_ids (record_dropped_delivery id st s)). rewrite Hids.
    set (l := filter _ _ ++ [id]). intros Hlt. rewrite length_drop in Hlt. assert (length l - retention = 0) as -> by lia. rewrite drop_0.
    pose proof (length_filter_ne id _ Hnd) as Hlen. subst l. rewrite length_app. cbn [length]. split_and!; [lia|set_solver|].
    intros x Hx. rewrite elem_of_app, list_elem_of_singleton. destruct (decide (x = id)); [by right|left; by apply list_elem_of_filter].
Qed.
Lemma keeps_record id st s : keeps s (record_dropped_delivery id st s).
Proof.
  destruct (record_keeps id st s) as [Hn Hk]. split; [done|]. intros Hnd Hlt. destruct (Hk Hnd Hlt) as (? & _ & Hx). split; [done|].
  intros x [?|[?|?]]; [by left|by right; left|right; right; by apply Hx].
Qed.
(** Several records at once. *)
Lemma merge_keeps rs s :
  (NoDup (dropped_ids s) → NoDup (dropped_ids (merge_dropped_deliveries rs s)))
  ∧ (NoDup (dropped_ids s) → length (dropped_deliveries (merge_dropped_deliveries rs s)) < retention →
     length (dropped_deliveries s) ≤ length (dropped_deliveries (merge_dropped_deliveries rs s))
     ∧ ∀ x, x ∈ dropped_ids s ∨ x ∈ ds_id <$> rs → x ∈ dropped_ids (merge_dropped_deliveries rs s)).
Proof.
  unfold merge_dropped_deliveries. revert s. induction rs as [|r rs IH]; intros s; cbn [foldl].
  { split; [done|]. intros _ _. split; [done|]. intros x [?|Hx]; [done|by apply elem_of_nil in Hx]. }
  destruct (record_keeps (ds_id r) (ds_status r) s) as [Hn Hk]. destruct (IH (record_dropped_delivery (ds_id r) (ds_status r) s)) as [Hn' Hk']. split; [by auto|].
  intros Hnd Hlt. destruct (Hk' (Hn Hnd) Hlt) as [Hl Hx]. destruct (Hk Hnd ltac:(lia)) as (Hl' & Hid & Hx'). split; [lia|].
  rewrite fmap_cons. intros x [?|[->|?]%elem_of_cons]; apply Hx; auto.
Qed.
Lemma records_as_merge st ids s :
  foldl (λ s id, record_dropped_delivery id st s) s ids
  = merge_dropped_deliveries ((λ id, {| ds_id := id; ds_status := st |}) <$> ids) s.
Proof. unfold merge_dropped_deliveries. revert s. induction ids as [|id ids IH]; intros s; [done|]. apply IH. Qed.
Lemma records_ids (st : DeliveryStatus) (ids : list string) : ds_id <$> ((λ id, {| ds_id := id; ds_status := st |}) <$> ids) = ids.
Proof. induction ids as [|id ids IH]; [done|]. rewrite !fmap_cons. by f_equal. Qed.
Lemma keeps_drop_where f st s : keeps s (drop_where f st s).
Proof.
  unfold drop_where. cbv zeta. set (ids := pd_id <$> filter _ _). set (s1 := set_pending _ s).
  destruct (records_fields st ids s1) as (_ & Hde & Hp & _). rewrite records_as_merge in *. split; [apply (merge_keeps _ s1)|].
  destruct (merge_keeps ((λ id, {| ds_id := id; ds_status := st |}) <$> ids) s1) as [_ Hk]. rewrite records_ids in Hk.
  intros Hnd Hlt. destruct (Hk Hnd Hlt) as [Hl Hx]. split; [done|]. unfold known. rewrite Hde, Hp.
  intros id [?|[Hin|?]]; [by left| |right; right; by apply Hx; left].
  destruct (decide (id ∈ ids)) as [Hd|Hd]; [right; right; apply Hx; by right|]. right; left.
  unfold ids_of in *. apply list_elem_of_fmap in Hin as (d & -> & Hd'). apply list_elem_of_fmap. exists d. split; [done|].
  by apply list_elem_of_filter.
Qed.
Lemma keeps_supersede d s : keeps s (supersede_pending d s).
Proof. unfold supersede_pending. destruct (supersede_key d); [apply keeps_drop_where|apply keeps_refl]. Qed.
Lemma keeps_interrupt s : keeps s (interrupt_wait_for_delivery s).
Proof.
  destruct (interrupt_fields s) as (_ & H1 & H2 & _ & _ & H3). apply keeps_fields; [done|by rewrite H1|by rewrite H2].
Qed.

(** ** Operations *)

Lemma keeps_enqueue d now s :
  keeps s (enqueue_delivery d now s).1
  ∧ ∀ o, (enqueue_delivery d now s).2 = Ok o → o ≠ ODuplicate → NoDup (dropped_ids s) →
      length (dropped_deliveries (enqueue_delivery d now s).1) < retention → known (pd_id d) (enqueue_delivery d now s).1.
Proof.
  unfold enqueue_delivery. destruct (check_delivery d s) as [[]|]; [|split; [apply keeps_refl|done]].
  destruct (knows_delivery_id (pd_id d) s); [split; [apply keeps_refl|]; by intros o [= <-]|].
  destruct (ensure_ttl_same now (delivery_default_ttl_secs settings) d) as [Hid _]. set (d' := ensure_ttl_secs _ _ d) in *. clearbody d'. cbv zeta.
  destruct (is_expired_at now d'); cbn [fst snd].
  { split; [apply keeps_record|]. intros _ _ _ Hnd Hlt. destruct (record_keeps (pd_id d') SExpired s) as [_ Hk].
    destruct (Hk Hnd Hlt) as (_ & Hin & _). right; right. by rewrite <- Hid. }
  destruct (_ && negb _); cbn [fst snd]; [split; [apply keeps_refl|done]|].
  assert (∀ s1 s2 n, keeps s s1 → landed n d' s1 s2 → keeps s s2 ∧ known (pd_id d) s2) as Hland.
  { intros s1 s2 n Hk Hl. split; [eapply keeps_trans; [exact Hk|by eapply keeps_landed]|]. left. rewrite (ld_delivered _ _ _ _ Hl), Hid. set_solver. }
  pose proof (keeps_supersede d' s) as Hsu. destruct (_ && _); cbn [fst snd].
  - destruct (Hland (preempt_for_delivery (source d') now (supersede_pending d' s))
      (append_delivery d' now (preempt_for_delivery (source d') now (supersede_pending d' s))) 1) as [? ?]; [|apply append_landed|by split].
    eapply keeps_trans; [exact Hsu|]. eapply keeps_quiet, preempt_quiet.
  - destruct (_ && negb _); cbn [fst snd].
    + destruct (Hland (supersede_pending d' s) (append_delivery d' now (supersede_pending d' s)) 1) as [? ?]; [done|apply append_landed|by split].
    + match goal with |- context [interrupt_wait_for_delivery ?x] => set (s1 := x) end.
      assert (keeps (supersede_pending d' s) s1) as Hk1.
      { apply keeps_fields; [done..|]. subst s1. unfold ids_of. cbn. rewrite fmap_app. set_solver. }
      split; [eapply keeps_trans; [exact Hsu|]; eapply keeps_trans; [exact Hk1|apply keeps_interrupt]|].
      intros _ _ _ _ _. destruct (interrupt_fields s1) as (_ & _ & Hp & _). right; left. rewrite Hp. subst s1. unfold ids_of. cbn. rewrite fmap_app. set_solver.
Qed.

Lemma keeps_land_all fuel now s acc landed_ s' : land_all fuel now s acc = Some (landed_, s') → keeps s s'.
Proof.
  revert s acc. induction fuel as [|fuel IH]; intros s acc; cbn [land_all]; destruct (land_next now s) as [[[d b] s1]|] eqn:E;
    try done; try (intros [= _ <-]; apply keeps_refl).
  intros Hr. eapply keeps_trans; [|by eapply IH]. apply land_next_spec in E.
  assert (∀ i s2, pending_deliveries s !! i = Some d → pd_id d ∈ delivered_delivery_ids s2 →
    dropped_deliveries s2 = dropped_deliveries s → delivered_delivery_ids s ⊆ delivered_delivery_ids s2 →
    ids_of (delete i (pending_deliveries s)) ⊆ ids_of (pending_deliveries s2) → keeps s s2) as Hrm.
  { intros i s2 Hi Hd Hdr Hde Hp. apply keeps_same; [done|]. unfold known, dropped_ids. rewrite Hdr.
    intros id [Hin|[Hin|Hin]]; [left; by apply Hde| |by right; right]. unfold ids_of in *.
    apply list_elem_of_fmap in Hin as (x & -> & Hx). apply list_elem_of_lookup_1 in Hx as [k Hk].
    destruct (decide (k = i)) as [->|Hne]; [left; by simplify_eq|]. right; left. apply Hp.
    apply list_elem_of_fmap. exists x. split; [done|]. apply list_elem_of_lookup.
    destruct (decide (k < i)); [exists k; by rewrite list_lookup_delete_lt|exists (k - 1)].
    rewrite list_lookup_delete_ge by lia. by replace (S (k - 1)) with k by lia. }
  destruct E as [i Hi Hin|i n s1 Hi _ _ _ [_ Hde Hdr _ _ (notes & Hp & _)]].
  - by apply (Hrm i).
  - apply (Hrm i); try done; [rewrite Hde; set_solver..|]. unfold ids_of. rewrite Hp, fmap_app. set_solver.
Qed.
Lemma keeps_drain now s s' out : drain_pending_deliveries now s = Some (s', out) → keeps s s'.
Proof.
  intros [[_ ->]|(landed_ & s1 & w & b & Hla & -> & _ & _)]%drain_result; [apply keeps_refl|].
  eapply keeps_trans; [apply keeps_drop_where|]. eapply keeps_trans; [by eapply keeps_land_all|]. by apply keeps_fields.
Qed.

Lemma keeps_merge rs s : keeps s (merge_dropped_deliveries rs s).
Proof.
  destruct (merge_keeps rs s) as [Hn Hk]. split; [done|]. intros Hnd Hlt. destruct (Hk Hnd Hlt) as [? Hx]. split; [done|].
  assert (messages (merge_dropped_deliveries rs s) = messages s ∧ delivered_delivery_ids (merge_dropped_deliveries rs s) = delivered_delivery_ids s
    ∧ pending_deliveries (merge_dropped_deliveries rs s) = pending_deliveries s) as (_ & Hde & Hp).
  { clear. unfold merge_dropped_deliveries. revert s. induction rs as [|r rs IH]; intros s; cbn [foldl]; [done|]. by destruct (IH (record_dropped_delivery (ds_id r) (ds_status r) s)) as (-> & -> & ->). }
  unfold known. rewrite Hde, Hp. intros id [?|[?|?]]; [by left|by right; left|right; right; apply Hx; by left].
Qed.

(** *** Restarts *)

Lemma restore_one_known now seen s d :
  keeps s (restore_one now (seen, s) d).2
  ∧ (NoDup (dropped_ids s) → length (dropped_deliveries (restore_one now (seen, s) d).2) < retention →
     (∀ id, id ∈ seen → known id s) →
     (∀ id, id ∈ (restore_one now (seen, s) d).1 → known id (restore_one now (seen, s) d).2)
     ∧ (pd_messages d ≠ [] → known (pd_id d) (restore_one now (seen, s) d).2)).
Proof.
  unfold restore_one. destruct (bool_decide (pd_messages d = []) || _) eqn:E; cbn [fst snd].
  { split; [apply keeps_refl|]. intros _ _ Hs. split; [done|]. intros Hne. apply orb_true_iff in E as [E|E]; apply bool_decide_eq_true in E; [done|by left]. }
  clear E. case_bool_decide as Hin; cbn [fst snd]; [split; [apply keeps_refl|]; intros _ _ Hs; split; [done|]; intros _; by apply Hs|].
  destruct (ensure_restored_same now (delivery_default_ttl_secs settings) d) as [Hid _]. set (d' := ensure_restored_ttl_secs _ _ d) in *. clearbody d'. cbv zeta.
  destruct (is_expired_at now d'); cbn [fst snd].
  - pose proof (keeps_record (pd_id d') SExpired s) as Hk. split; [done|]. intros Hnd Hlt Hs.
    destruct (record_keeps (pd_id d') SExpired s) as [_ Hr]. destruct (Hr Hnd Hlt) as (_ & Hd & _). destruct (kp_known _ _ Hk Hnd Hlt) as [_ Hkn].
    assert (known (pd_id d) (record_dropped_delivery (pd_id d') SExpired s)) by (right; right; by rewrite <- Hid).
    split; [|done]. intros id [->|?]%elem_of_cons; [done|]. by apply Hkn, Hs.
  - set (s1 := set_pending _ _).
    assert (keeps s s1) as Hk.
    { eapply keeps_trans; [apply keeps_supersede|]. apply keeps_fields; [done..|]. subst s1. unfold ids_of. cbn. rewrite fmap_app. set_solver. }
    split; [done|]. intros Hnd Hlt Hs. destruct (kp_known _ _ Hk Hnd Hlt) as [_ Hkn].
    assert (known (pd_id d) s1) by (right; left; subst s1; unfold ids_of; cbn; rewrite fmap_app, <- Hid; set_solver).
    split; [|done]. intros id [->|?]%elem_of_cons; [done|]. by apply Hkn, Hs.
Qed.
Lemma restore_all_known now ds seen s :
  keeps s (foldl (restore_one now) (seen, s) ds).2
  ∧ (NoDup (dropped_ids s) → length (dropped_deliveries (foldl (restore_one now) (seen, s) ds).2) < retention →
     (∀ id, id ∈ seen → known id s) → ∀ d, d ∈ ds → pd_messages d ≠ [] → known (pd_id d) (foldl (restore_one now) (seen, s) ds).2).
Proof.
  revert seen s. induction ds as [|d ds IH]; intros seen s; cbn [foldl]; [split; [apply keeps_refl|]; by intros _ _ _ d Hd%elem_of_nil|].
  destruct (restore_one_known now seen s d) as [Hk1 Hs1]. destruct (restore_one now (seen, s) d) as [seen1 s1]. cbn [fst snd] in *.
  destruct (IH seen1 s1) as [Hk2 Hs2]. split; [by eapply keeps_trans|]. intros Hnd Hlt Hs x.
  destruct (kp_known _ _ Hk2 (kp_nodup _ _ Hk1 Hnd) Hlt) as [Hle Hkn]. destruct (Hs1 Hnd ltac:(lia) Hs) as [Hsn Hd].
  intros [->|Hx]%elem_of_cons Hne; [by apply Hkn, Hd|]. by apply Hs2; [apply Hk1|..].
Qed.
Lemma first_of_each_covers seen l k d :
  d ∈ l → pd_id d ∉ seen → ∃ d', d' ∈ l ∧ pd_id d' = pd_id d ∧ d' ∈ first_of_each seen (l ++ k).
Proof.
  revert seen. induction l as [|x l IH]; intros seen; [by intros ?%elem_of_nil|]. rewrite elem_of_cons. cbn [app first_of_each].
  intros Hd Hs. case_bool_decide as Hx.
  - destruct Hd as [->|Hd]; [done|]. destruct (IH seen Hd Hs) as (d' & ? & ? & ?). exists d'. split_and!; [by right|done|done].
  - destruct (decide (pd_id x = pd_id d)) as [He|Hne]; [exists x; split_and!; [by left|done|by left]|].
    destruct Hd as [->|Hd]; [done|]. destruct (IH (pd_id x :: seen) Hd) as (d' & ? & ? & ?); [by intros [?|?]%elem_of_cons|].
    exists d'. split_and!; [by right|done|by right].
Qed.
(** A step after which everything is still known but what [gone] holds of. *)
Record keeps_but (gone : string → Prop) s s' : Prop := {
  kb_nodup : NoDup (dropped_ids s) → NoDup (dropped_ids s');
  kb_known : NoDup (dropped_ids s) → length (dropped_deliveries s') < retention →
             length (dropped_deliveries s) ≤ length (dropped_deliveries s') ∧ ∀ id, known id s → known id s' ∨ gone id;
}.
Lemma keeps_keeps_but gone s s' : keeps s s' → keeps_but gone s s'.
Proof.
  intros [Hn Hk]. split; [done|]. intros Hnd Hlt. destruct (Hk Hnd Hlt) as [? Hkn]. split; [done|]. intros id ?. left. by apply Hkn.
Qed.
Lemma keeps_but_trans gone s1 s2 s3 : keeps_but gone s1 s2 → keeps_but gone s2 s3 → keeps_but gone s1 s3.
Proof.
  intros [Hn1 Hk1] [Hn2 Hk2]. split; [by auto|]. intros Hnd Hlt. destruct (Hk2 (Hn1 Hnd) Hlt) as [Hl2 Hk].
  destruct (Hk1 Hnd ltac:(lia)) as [Hl1 Hk']. split; [lia|]. intros id Hid. destruct (Hk' id Hid); [by apply Hk|by right].
Qed.

(** A restart takes for delivered what has a message in the history. *)
Lemma keeps_restart gone given l now s s0 :
  ledger_of (still gone) given l s → no_deliveries s0 → stamps (messages s0) = stamps (messages s) →
  keeps_but gone s (restore_session s now s0).
Proof.
  intros Hl (Hp & Hr & Hd & Hdr & _) Hst. unfold restore_session, restore_pending_deliveries.
  set (s1 := upd_queue _ _ _ _ s0). set (ds := pending_deliveries_for_snapshot s). set (seen := pd_id <$> (pending_deliveries s1 ++ runner_pending_deliveries s1)).
  assert (seen = []) as -> by (subst seen s1; cbn; by rewrite Hp, Hr).
  assert (dropped_ids s1 = []) as Hd1 by (subst s1; unfold dropped_ids; cbn; by rewrite Hdr).
  assert (∀ id, id ∈ delivered_delivery_ids s → id ∈ delivered_delivery_ids s1 ∨ gone id) as Hde.
  { intros id Hin. apply (lg_delivered _ _ _ _ Hl) in Hin. destruct (proj2 (lg_shows _ _ _ _ Hl) id Hin) as [Hs|?]; [left|by right].
    subst s1. cbn. rewrite elem_of_union, elem_of_list_to_set, stamps_ids. unfold stamped_ids. rewrite Hst. by right. }
  clearbody s1. destruct (restore_all_known now ds [] s1) as [Hk2 Hk3]. set (s2 := (foldl _ _ ds).2) in *.
  assert (NoDup (dropped_ids s1)) as Hnd1 by (rewrite Hd1; constructor).
  pose proof (keeps_merge (dropped_deliveries s) s2) as Hkm. split; [intros _; by apply Hkm, Hk2|].
  intros Hnd Hlt. destruct (kp_known _ _ Hkm (kp_nodup _ _ Hk2 Hnd1) Hlt) as [Hle Hkn].
  destruct (merge_keeps (dropped_deliveries s) s2) as [_ Hmk]. destruct (Hmk (kp_nodup _ _ Hk2 Hnd1) Hlt) as [_ Hx].
  assert (∀ x, x ∈ dropped_ids s → x ∈ dropped_ids (merge_dropped_deliveries (dropped_deliveries s) s2)) as Hin by (intros x ?; apply Hx; by right).
  split.
  - rewrite <- !(length_fmap ds_id). apply submseteq_length, NoDup_submseteq; [exact Hnd|exact Hin].
  - destruct (kp_known _ _ Hk2 Hnd1 ltac:(lia)) as [_ Hkn2].
    intros id [[Hi|?]%Hde|[Hi|Hi]]; [left; by apply Hkn, Hkn2; left|by right| |left; by right; right; apply Hin].
    left. apply Hkn. unfold ids_of in Hi. apply list_elem_of_fmap in Hi as (d & -> & Hdp).
    destruct (first_of_each_covers [] (pending_deliveries s) (runner_pending_deliveries s) d Hdp) as (d' & Hd' & <- & Hf); [by intros ?%elem_of_nil|].
    apply (Hk3 Hnd1 ltac:(lia)); [by intros ? ?%elem_of_nil|done|].
    pose proof (lg_pending _ _ _ _ Hl) as Hpe. rewrite Forall_forall in Hpe. by destruct (Hpe _ Hd').
Qed.

Lemma keeps_step gone given l s new s' : ledger_of (still gone) given l s → step s new s' → keeps_but gone s s'.
Proof.
  intros Hl Hs. destruct Hs; [apply keeps_keeps_but..|].
  - apply keeps_enqueue.
  - unfold queue_post_tool_delivery. apply keeps_enqueue.
  - unfold drop_sealed_delivery. destruct (knows_delivery_id _ _); [apply keeps_refl|apply keeps_record].
  - match goal with Hc : collect_boundary_deliveries _ _ = _ |- _ => unfold collect_boundary_deliveries in Hc; cbv zeta in Hc end.
    destruct (drain_pending_deliveries now _) as [[s1 out]|] eqn:E; [|done]. cbn in *. simplify_eq.
    eapply keeps_trans; [|by eapply keeps_drain]. unfold drain_post_tool_side_effects. destruct (_ || _); [apply keeps_refl|].
    eapply (keeps_trans _ (upd_messages (messages s) (draft_message s) [] (next_uuid s) s)); [by apply keeps_fields|].
    eapply keeps_quiet, side_effects_quiet, Hl.
  - unfold update_pending_delivery. destruct (list_find _ _) as [[i d]|] eqn:E; [|apply keeps_refl].
    apply list_find_Some in E as (Hi & Hid & _). destruct cancel; [destruct (existsb _ _); cbn [fst]; [apply keeps_refl|]|destruct p as [p|]; cbn [fst]; [|apply keeps_refl]].
    + set (s1 := set_pending _ s). destruct (record_keeps (pd_id d) SFailed s1) as [Hn Hk]. split; [done|]. intros Hnd Hlt.
      destruct (Hk Hnd Hlt) as (Hle & Hin & Hx). split; [done|]. intros x [?|[Hxp|?]]; [by left| |right; right; by apply Hx].
      destruct (decide (x = pd_id d)) as [->|Hne]; [by right; right|]. right; left. unfold ids_of in *.
      apply list_elem_of_fmap in Hxp as (d' & -> & Hd'). apply list_elem_of_fmap. exists d'. split; [done|]. subst s1. cbn.
      rewrite (delete_Permutation _ _ _ Hi) in Hd'. apply elem_of_cons in Hd' as [->|?]; done.
    + eapply keeps_trans; [|apply keeps_interrupt]. apply keeps_fields; [done..|]. unfold ids_of. cbn. rewrite list_fmap_insert.
      rewrite (list_insert_id (pd_id <$> pending_deliveries s)); [done|]. by rewrite list_lookup_fmap, Hi.
  - apply keeps_fields; [done..|]. unfold ids_of. cbn. rewrite <- list_fmap_compose. intros x Hx. exact Hx.
  - unfold set_runner_pending_deliveries. eapply keeps_trans; [|apply keeps_interrupt]. by apply keeps_fields.
  - unfold begin_interruptible_wait. eapply keeps_trans; [|apply keeps_interrupt]. by apply keeps_fields.
  - by apply keeps_fields.
  - by eapply keeps_quiet, add_message_quiet.
  - by apply keeps_fields.
  - match goal with Ho : other_change _ _ |- _ => destruct Ho as [? Hp ? Hd ? ?] end. apply keeps_fields; [done|by rewrite Hd|by rewrite Hp].
  - by eapply keeps_restart.
Qed.

(** An edit changes what the history holds, not what the session knows. *)
Lemma keeps_edit s s' : edit s s' → keeps s s'.
Proof. intros [_ Hp _ Hd Hdr _]%edit_spec. apply keeps_fields; [done|by rewrite Hd|by rewrite Hp]. Qed.

(** Through a life: from a ledger on, everything stays known but what had lost or loses its messages. *)
Lemma keeps_life gone0 given0 l0 s given gone s' :
  ledger_of (still gone0) given0 l0 s → life s given gone s' → keeps_but (λ id, gone0 id ∨ id ∈ gone) s s'.
Proof.
  intros Hl0 Hrun. induction Hrun as [s|s given gone s2 new s3 Hrun IH Hstep|s given gone s2 s3 _ IH Hedit].
  - apply keeps_keeps_but, keeps_refl.
  - destruct (life_ledger_from _ _ _ _ _ _ _ Hl0 Hrun) as [l Hl]. eapply keeps_but_trans; [by apply IH|by eapply keeps_step].
  - eapply keeps_but_trans; [|by apply keeps_keeps_but, keeps_edit]. destruct (IH Hl0) as [Hn Hk]. split; [done|].
    intros Hnd Hlt. destruct (Hk Hnd Hlt) as [? Hkn]. split; [done|]. intros id Hid. rewrite elem_of_app. destruct (Hkn id Hid); tauto.
Qed.
Lemma life_dropped_nodup s given gone s' :
  no_deliveries s → stamps (messages s) = [] → life s given gone s' → NoDup (dropped_ids s').
Proof.
  intros Hno Hst Hrun. apply (kb_nodup (λ id, False ∨ id ∈ gone) s).
  - eapply (keeps_life (λ _, False) [] []); [|exact Hrun]. apply new_ledger; [done|]. unfold still, keys. rewrite Hst.
    split; [done|]. intros id Hin. by apply elem_of_nil in Hin.
  - destruct Hno as (_ & _ & _ & Hdr & _). unfold dropped_ids. rewrite Hdr. constructor.
Qed.

(** C37. An accepted delivery is never lost track of: after whatever else happens to the session, restarts and edits of
    its history included, it is reported as delivered, still pending, or recorded as dropped, as long as fewer
    deliveries were dropped than records are kept; unless, after it was accepted, an edit took all its
    messages out of the history. *)
Theorem accepted_deliveries_are_accounted s0 given gone s d now o s' more removed :
  no_deliveries s0 → stamps (messages s0) = [] → life s0 given gone s →
  (enqueue_delivery d now s).2 = Ok o → o ≠ ODuplicate → life (enqueue_delivery d now s).1 more removed s' →
  length (dropped_deliveries s') < retention → known (pd_id d) s' ∨ pd_id d ∈ removed.
Proof.
  intros Hn0 Hst Hrun Ho Hdup Hmore Hlt. set (id := pd_id d) in *. set (gone0 := λ x, x ∈ gone ∧ x ≠ id).
  destruct (life_ledger _ _ _ _ Hn0 Hst Hrun) as [l Hl]. pose proof (life_dropped_nodup _ _ _ _ Hn0 Hst Hrun) as Hnd.
  assert (id ∉ delivered_delivery_ids s) as Hnew.
  { apply knows_not_delivered. unfold enqueue_delivery in Ho. destruct (check_delivery d s) as [[]|]; [|done]. unfold id.
    destruct (knows_delivery_id (pd_id d) s); [|done]. cbn in Ho. congruence. }
  assert (ledger_of (still gone0) given l s) as Hl0.
  { destruct Hl as [? ? [Hk Hid] Hde ? ? ?]. split; try done. split; [done|]. intros x Hx.
    destruct (Hid x Hx); [by left|right]. split; [done|]. intros ->. by apply Hnew, Hde. }
  destruct (ledger_step (still gone0) given l s [d] (enqueue_delivery d now s).1 Hl0 (step_enqueue d now s)) as [l1 Hl1].
  pose proof (keeps_life _ _ _ _ _ _ _ Hl1 Hmore) as Hk. destruct (keeps_enqueue d now s) as [Hke Hkn].
  destruct (kb_known _ _ _ Hk (kp_nodup _ _ Hke Hnd) Hlt) as [Hle Hfin].
  destruct (Hfin id) as [?|[[_ ?]|?]]; [|by left|done|by right]. eapply Hkn; try done. lia.
Qed.

(** ** Where deliveries land *)

(** What superseding leaves alone, of all that decides about a boundary. *)
Lemma supersede_fields d s :
  let s1 := supersede_pending d s in
  messages s1 = messages s ∧ draft_message s1 = draft_message s ∧ compressing s1 = compressing s
  ∧ planner_paused s1 = planner_paused s ∧ planner_pause_pending_tools s1 = planner_pause_pending_tools s
  ∧ turn_depth s1 = turn_depth s ∧ state s1 = state s ∧ wait_delivery_boundary s1 = wait_delivery_boundary s
  ∧ post_tool_side_effects s1 = post_tool_side_effects s.
Proof.
  unfold supersede_pending. destruct (supersede_key d) as [key|]; [|done]. unfold drop_where. cbv zeta.
  set (ids := pd_id <$> _). set (s1 := set_pending _ s).
  assert (∀ s0, let s2 := foldl (λ s id, record_dropped_delivery id SSuperseded s) s0 ids in
    messages s2 = messages s0 ∧ draft_message s2 = draft_message s0 ∧ compressing s2 = compressing s0
    ∧ planner_paused s2 = planner_paused s0 ∧ planner_pause_pending_tools s2 = planner_pause_pending_tools s0
    ∧ turn_depth s2 = turn_depth s0 ∧ state s2 = state s0 ∧ wait_delivery_boundary s2 = wait_delivery_boundary s0
    ∧ post_tool_side_effects s2 = post_tool_side_effects s0) as Hf; [|exact (Hf s1)].
  clear. induction ids as [|id ids IH]; intros z; cbn [foldl]; [done|]. exact (IH (record_dropped_delivery id SSuperseded z)).
Qed.

(** Waiting in front of [d], and not to be replaced by it. *)
Definition in_front d s (p : PendingDelivery C) : Prop :=
  p ∈ take_while (λ p, negb (bool_decide (pd_id p = pd_id d))) (pending_deliveries s)
  ∧ ∀ q, q ∈ pending_deliveries s → pd_id q = pd_id p → supersedes d q = false.
(** No update of a plan or a goal that [d] updates. *)
Definition no_control_for d m : Prop := ∀ m' k, m' ∈ pd_messages d → control_kind m = Some k → control_kind m' ≠ Some k.

Lemma take_while_filter {A} (f : A → bool) (Q : A → Prop) `{!∀ x, Decision (Q x)} l x :
  x ∈ take_while f l → Q x → x ∈ take_while f (filter Q l).
Proof.
  induction l as [|y l IH]; [done|]. cbn [take_while]. destruct (f y) eqn:Hf; [|by intros ?%elem_of_nil]. rewrite filter_cons.
  intros [->|Hx]%elem_of_cons Hq; [rewrite decide_True by done; cbn; rewrite Hf; by left|].
  case_decide; [cbn; rewrite Hf; right|]; by apply IH.
Qed.
Lemma elem_of_take_while {A} (f : A → bool) l x : x ∈ take_while f l → x ∈ l.
Proof.
  induction l as [|y l IH]; [done|]. cbn. destruct (f y); [|by intros ?%elem_of_nil].
  intros [->|Hx]%elem_of_cons; [by left|right; by apply IH].
Qed.

(** What was in front still is after superseding. *)
Lemma in_front_supersede d s p : in_front d s p → in_front d (supersede_pending d s) p.
Proof.
  intros [Hp Hq]. unfold supersede_pending. destruct (supersede_key d); [|done].
  destruct (drop_where_fields (supersedes d) SSuperseded s) as (_ & _ & Hpe & _). unfold in_front. rewrite Hpe. split.
  - apply take_while_filter; [done|]. unfold ids_of. intros (q & Hid & [Hs Hin]%list_elem_of_filter)%list_elem_of_fmap.
    by rewrite (Hq q Hin) in Hs.
  - intros q [_ Hin]%list_elem_of_filter. by apply Hq.
Qed.
Lemma control_front d s : control_in_front d s = false →
  (∀ p m, in_front d s p → m ∈ pd_messages p → no_control_for d m) ∧ (∀ m, m ∈ post_tool_side_effects s → no_control_for d m).
Proof.
  unfold control_in_front. cbv zeta. intros Hctl.
  assert (∀ m, m ∈ (filter (λ p, supersedes d p = false) (take_while (λ p, negb (bool_decide (pd_id p = pd_id d))) (pending_deliveries s))
           ≫= pd_messages) ++ post_tool_side_effects s → no_control_for d m) as Hall.
  { intros m Hm m' k Hm' Hk Hk'. apply andb_false_iff in Hctl as [Hctl|Hctl].
    - apply negb_false_iff, bool_decide_eq_true in Hctl. assert (k ∈ omap control_kind (pd_messages d)) as Hin; [|rewrite Hctl in Hin; by apply elem_of_nil in Hin].
      apply list_elem_of_omap. by exists m'.
    - rewrite <- not_true_iff_false, existsb_elem in Hctl. apply Hctl. exists m. split; [done|].
      unfold has_kind_of. rewrite Hk. cbn. apply bool_decide_eq_true, list_elem_of_omap. by exists m'. }
  split; [|intros m Hm; apply Hall, elem_of_app; by right]. intros p m [Hp Hq] Hm. apply Hall, elem_of_app. left.
  apply list_elem_of_bind. exists p. split; [done|]. apply list_elem_of_filter. split; [|done]. apply Hq; [|done]. by eapply elem_of_take_while.
Qed.

(** What an open boundary of [d] says of the session. *)
Record open_for d s : Prop := {
  of_unpaused : planner_paused s = false ∧ planner_pause_pending_tools s = false;
  of_settled : compressing s = false;
  of_quiet : push d ≠ Preempt → draft_message s = None ∧ has_pending_tool_result_window (messages s) = false;
  of_idle : push d = WhenIdle →
    (turn_depth s = 0%N ∧ state s ∈ [Idle; Completed; SsError; WaitingUserInput]) ∨ wait_delivery_boundary s = true;
  of_after_call id : after_tool_call_id d = Some id →
    draft_message s = None ∧ has_pending_tool_result_window (messages s) = false
    ∧ (id = ""%string → state s ∉ [Generating; ExecutingTools])
    ∧ ∀ i ids c, latest_assistant_tool_call_window (messages s) (Some id) = Some (i, ids) → c ∈ ids →
        c ∈ result_ids_after_assistant (messages s) i;
  of_front p m : in_front d s p → m ∈ pd_messages p → no_control_for d m;
  of_side m : m ∈ post_tool_side_effects s → no_control_for d m;
}.
Lemma after_call_open d s : after_call_blocked d s = false → ∀ id, after_tool_call_id d = Some id →
  draft_message s = None ∧ has_pending_tool_result_window (messages s) = false
  ∧ (id = ""%string → state s ∉ [Generating; ExecutingTools])
  ∧ ∀ i ids c, latest_assistant_tool_call_window (messages s) (Some id) = Some (i, ids) → c ∈ ids →
      c ∈ result_ids_after_assistant (messages s) i.
Proof.
  unfold after_call_blocked. intros Hb id Hid. rewrite Hid in Hb. cbn [some_and] in Hb. rewrite !orb_false_iff, !negb_false_iff in Hb. destruct Hb as [[Hst Ha] Hw].
  unfold delivery_boundary_open in Ha. destruct (compressing s); [done|]. apply andb_true_iff in Ha as [Hd%bool_decide_eq_true Hp%negb_true_iff].
  split_and!; [done|done| |].
  - intros ->. rewrite bool_decide_eq_true_2 in Hst by done. cbn in Hst. by apply bool_decide_eq_false in Hst.
  - intros i ids c Hwin Hc. unfold tool_result_window_closed_for_tool_call in Hw. rewrite Hwin in Hw.
    unfold all_tool_call_ids_have_results_after in Hw. rewrite forallb_elem in Hw. by apply Hw, bool_decide_eq_true in Hc.
Qed.
Lemma envelope_open_for d s : delivery_envelope_boundary_open d s = true → open_for d s.
Proof.
  intros Ho. destruct (envelope_open_boundary _ _ Ho) as (? & ? & Hctl & ? & Hb & Hw). destruct (control_front d s Hctl) as [Hf Hs].
  assert (after_call_blocked d s = false) as Ha.
  { unfold delivery_envelope_boundary_open in Ho. destruct (_ || _); [done|]. destruct (control_in_front d s); [done|]. by destruct (after_call_blocked d s). }
  split; try done.
  - intros Hp. by destruct (Hb Hp) as (? & ? & _).
  - intros Hp. destruct (Hw Hp) as [Ht|?]; [left|by right]. unfold turn_finished in Ht.
    apply andb_true_iff in Ht as [Hd%N.eqb_eq Hs'%bool_decide_eq_true]. done.
  - by apply after_call_open.
Qed.
Lemma open_for_supersede d s : open_for d (supersede_pending d s) → open_for d s.
Proof.
  destruct (supersede_fields d s) as (H1 & H2 & H3 & H4 & H5 & H6 & H7 & H8 & H9).
  intros [Hu Hc Hq Hi Ha Hf Hs]. rewrite ?H1, ?H2, ?H3, ?H4, ?H5, ?H6, ?H7, ?H8, ?H9 in *. split; try done.
  intros p m Hp. apply Hf. by apply in_front_supersede.
Qed.

Lemma land_next_open now s d s' : land_next now s = Some (d, true, s') → delivery_envelope_boundary_open d s = true.
Proof. intros Hn%land_next_spec. by inversion Hn. Qed.

(** C38. Where a delivery lands, from the queue or at once when it is enqueued: while the planner is not paused and
    nothing is compacted; unless it preempts, where no answer is being written and no tool call waits for its
    result; with [when_idle], only when the turn is over or a wait was interrupted; when it is to
    follow a tool call, whatever its push, only once no answer is written and the calls made with that call have
    their results (and, when the call is not known, while no turn runs); and never before an update of
    the same plan or goal that waits in front of it, without being replaced by it, or that a tool left to be added. *)
Theorem deliveries_land_at_boundaries now s d s' :
  land_next now s = Some (d, true, s')
  ∨ (∃ d0, enqueue_delivery d0 now s = (s', Ok ODelivered) ∧ d = ensure_ttl_secs now (delivery_default_ttl_secs (settings (P := P))) d0) →
  open_for d s.
Proof.
  intros [Hn|(d0 & He & Hd)]; [by eapply envelope_open_for, land_next_open|].
  unfold enqueue_delivery in He. destruct (check_delivery d0 s) as [[]|]; [|done]. destruct (knows_delivery_id _ _); [done|].
  rewrite <- Hd in He. cbv zeta in He. destruct (is_expired_at now d); [done|]. destruct (_ && negb _); [done|].
  destruct (bool_decide (push d = Preempt) && _) eqn:Hp; [apply andb_true_iff in Hp as [_ Hp]; by apply envelope_open_for|].
  destruct (_ && negb _) eqn:Hq; [|done]. apply andb_true_iff in Hq as [Hq _]. by apply open_for_supersede, envelope_open_for.
Qed.

(** Draining the queue ends, within three rounds per delivery that has not expired, and leaves no
    delivery behind whose boundary is open. *)
Lemma drain_lands_what_is_ready now s :
  ∃ s' out, drain_pending_deliveries now s = Some (s', out)
    ∧ ∀ d, d ∈ pending_deliveries s' → delivery_envelope_boundary_open d s' = false.
Proof.
  destruct (drain_pending_deliveries now s) as [[s' out]|] eqn:E.
  - exists s', out. split; [done|]. apply drain_result in E as [[He ->]|(landed_ & s1 & w & b & Hla & -> & Hw & _)].
    { rewrite He. by intros d ?%elem_of_nil. }
    destruct (land_all_total (land_fuel (expire_pending_deliveries now s)) now (expire_pending_deliveries now s) []) as (l & s2 & Hla' & Hnone).
    { unfold land_fuel. apply weight_bound. }
    rewrite Hla in Hla'. injection Hla' as <- <-. intros d Hd. cbn in Hd.
    assert (delivery_envelope_boundary_open d s1 = false) as Hno.
    { unfold land_next in Hnone. destruct (list_find _ _) as [[i x]|] eqn:E; [by case_bool_decide|]. apply list_find_None in E.
      rewrite Forall_forall in E. specialize (E d Hd). by destruct (delivery_envelope_boundary_open d s1). }
    apply not_true_iff_false. intros Hopen. rewrite <- not_true_iff_false in Hno. apply Hno. clear Hno Hla.
    unfold delivery_envelope_boundary_open, after_call_blocked, delivery_boundary_open, control_in_front, turn_finished in *. cbn in Hopen |- *.
    destruct (planner_paused s1 || _); [done|]. destruct (negb _ && _); [done|].
    destruct (some_and _ (after_tool_call_id d)); [done|]. destruct (compressing s1); [done|]. destruct (push d); [done..|].
    apply andb_true_iff in Hopen as [? [?|?]%orb_true_iff]; apply andb_true_iff; (split; [done|]); apply orb_true_iff; auto.
  - exfalso. unfold drain_pending_deliveries in E. case_bool_decide; [done|].
    destruct (land_all_total (land_fuel (expire_pending_deliveries now s)) now (expire_pending_deliveries now s) []) as (l & s2 & Hla & _); [apply weight_bound|].
    rewrite Hla in E. cbn in E. by destruct (_ && _).
Qed.
End fate.
