(* ===== verification/ChatExamples.v ===== *)
(** * Chats: examples *)

From stdpp Require Import gmap strings list pretty.
From S2P Require Import Prelude RustStr Settings ActiveContext ActiveContextProps Delivery DeliveryQueue DeliveryProps DeliverySteps DeliveryFate.

(** ** A codec that keeps the id, the role and the content *)

Definition ex_to_value (m : Message string) : option Json :=
  Some (JObject [("content", JString (content m)); ("message_id", JString (message_id m)); ("role", JString (role m))]%string).
Definition ex_message (id r body : string) : Message string := {|
  message_id := id; role := r; content := body; tool_calls := None; tool_call_id := ""; summarized_range := None;
  summarization_tier := None; summarized_token_estimate := None; extra := ∅ |}.
Definition ex_of_value (v : Json) : option (Message string) :=
  id ← json_get_str "message_id" (Some v); r ← json_get_str "role" (Some v); body ← json_get_str "content" (Some v);
  Some (ex_message id r body).
#[global] Instance ex_serde : MessageSerde string := {|
  Metadata := unit;
  to_value := ex_to_value;
  report_from_value := λ v, p ← json_get "payload" v; match json_get "messages" p with Some (JArray l) => mapM ex_of_value l | _ => None end;
  report_to_value := λ ms _,
    values ← mapM ex_to_value ms;
    Some (JObject [("kind", JString RECONSTRUCTED_HISTORY_KIND); ("payload", JObject [("messages", JArray values)]);
                   ("schema_version", JNumber (PosInt 1))]%string) |}.

(** ** A chat that was compacted once *)

Definition ex_report : Message string :=
  match make_reconstruction_report "r" "Conversation context reconstructed." [ex_message "p" "user" "the story so far"] () with
  | Ok m => m | Err _ => ex_message "" "" "" end.
Definition ex_stored : list (Message string) :=
  [ex_message "a" "user" "hello"; ex_message "b" "assistant" "hi"; ex_report; ex_message "c" "user" "go on"].
Definition ex_active : Active string :=
  match active_context ex_stored with Ok a => a | Err _ => {| active_messages := []; report_index := None; origins := [] |} end.
Example ex_active_ids : message_id <$> active_messages ex_active = ["p"; "c"]%string.
Proof. vm_compute. reflexivity. Qed.
Definition ex_new : list (Message string) := [ex_message "p" "user" "the short story"; ex_message "c" "user" "go on"].
Definition ex_written : list (Message string) :=
  match writeback_active_context ex_stored ex_active ex_new with Ok l => l | Err _ => [] end.
Lemma writeback_keeps_the_archive_witness : take 2 ex_written = take 2 ex_stored.
Proof.
  destruct (writeback_keeps_the_archive ex_stored ex_active ex_new ex_written) as (a & _ & _ & _ & _ & _ & Hk).
  - vm_compute. reflexivity.
  - exact (proj1 Hk).
Defined.
(** What was archived cannot be changed. *)
Example archive_is_refused :
  writeback_active_context ex_stored ex_active [ex_message "a" "user" "rewritten"] =
  Err (InvalidWriteback "new or re-identified non-diagnostic message").
Proof. vm_compute. reflexivity. Qed.

(** ** Sessions *)

#[global] Instance ex_env : ChatEnv string unit := {|
  simple_text := λ s, s; uuid := λ n, "uuid-" +:+ pretty n; apply_other_params := λ _ p, p; max_queue := 256;
  settings := default_settings |}.
Definition ex_session (ms : list (Message string)) (st : SessionState) : Session string unit := {|
  messages := ms; draft_message := None; pending_deliveries := []; runner_pending_deliveries := [];
  delivered_delivery_ids := ∅; dropped_deliveries := []; post_tool_side_effects := []; delivery_wake_sources := ∅;
  thread := {| mode := "agent"; model := "m"; previous_response_id := None; other_params := () |}; state := st; turn_depth := 0;
  interruptible_waits := 0; wait_tool_window_active := false; wait_delivery_boundary := false; wait_interrupt_flag := false;
  abort_flag := false; user_interrupt_flag := false; queued_commands := 0; planner_paused := false;
  planner_pause_pending_tools := false; compressing := false; closed := false; next_uuid := 0 |}.
Definition ex_call : Message string := {|
  message_id := "b"; role := "assistant"; content := "let me look";
  tool_calls := Some [{| call_id := "call_1"; call_name := "cat"; call_arguments := "{}" |}]; tool_call_id := "";
  summarized_range := None; summarization_tier := None; summarized_token_estimate := None; extra := ∅ |}.
Definition ex_result : Message string := {|
  message_id := "t"; role := "tool"; content := "contents"; tool_calls := None; tool_call_id := "call_1"; summarized_range := None;
  summarization_tier := None; summarized_token_estimate := None; extra := ∅ |}.
Definition ex_delivery (id : string) (p : PushMode) : PendingDelivery string :=
  new_delivery id [ex_message "" "user" "by the way"] p "planner" true 1700000000000.
Definition ex_now : N := 1700000000500.
Definition ex_start : Session string unit := ex_session [ex_message "a" "user" "hello"; ex_call] ExecutingTools.
Definition ex_waiting : Session string unit := (enqueue_delivery (ex_delivery "d1" Append) ex_now ex_start).1.
Definition ex_answered : Session string unit := add_message ex_result ex_now ex_waiting.
Definition ex_drained : Session string unit :=
  match collect_boundary_deliveries ex_now ex_answered with Some (s, _, _) => s | None => ex_answered end.

(** The delivery waits for the result of the call, and lands behind it. *)
Example ex_order :
  (enqueue_delivery (ex_delivery "d1" Append) ex_now ex_start).2 = Ok OQueued
  ∧ delivery_status "d1" ex_waiting = SPending ∧ delivery_status "d1" ex_drained = SDelivered
  ∧ role <$> messages ex_drained = ["user"; "assistant"; "tool"; "user"]%string.
Proof. vm_compute. done. Qed.

Lemma ex_enqueued : step ex_start [ex_delivery "d1" Append] ex_waiting.
Proof. exact (step_enqueue (ex_delivery "d1" Append) ex_now ex_start). Qed.
Lemma ex_called : step ex_waiting [] ex_answered.
Proof. exact (step_message ex_result ex_now ex_waiting eq_refl). Qed.
Lemma ex_collected : step ex_answered [] ex_drained.
Proof. apply (step_collect ex_now _ _ (["d1"%string], true) [("d1"%string, SDelivered)]). vm_compute. reflexivity. Qed.
Lemma ex_run : steps ex_start [ex_delivery "d1" Append] ex_drained.
Proof.
  exact (steps_then _ [ex_delivery "d1" Append] _ [] _
           (steps_then _ [ex_delivery "d1" Append] _ [] _ (steps_then _ [] _ _ _ (steps_refl _) ex_enqueued) ex_called) ex_collected).
Qed.

(** The user goes back to before the delivery, and the session is restored from its trajectory. *)
Definition ex_cut : Session string unit := truncate_messages 3 ex_drained.
Definition ex_restored : Session string unit := restore_session ex_cut ex_now (ex_session (messages ex_cut) Idle).
Lemma ex_rest : life ex_waiting [] (lost ex_drained ex_cut) ex_restored.
Proof.
  exact (life_step _ [] _ _ [] _
           (life_edit _ [] [] _ _
              (life_step _ [] [] _ [] _ (life_step _ [] [] _ [] _ (life_refl _) ex_called) ex_collected)
              (edit_truncate 3 ex_drained))
           (step_restart ex_now ex_cut (ex_session (messages ex_cut) Idle) ltac:(repeat split) eq_refl)).
Qed.
Lemma ex_life : life ex_start [ex_delivery "d1" Append] (lost ex_drained ex_cut) ex_restored.
Proof.
  exact (life_step _ [ex_delivery "d1" Append] _ _ [] _
           (life_edit _ [ex_delivery "d1" Append] [] _ _
              (life_step _ [ex_delivery "d1" Append] [] _ [] _
                 (life_step _ [ex_delivery "d1" Append] [] _ [] _
                    (life_step _ [] [] _ [ex_delivery "d1" Append] _ (life_refl _) ex_enqueued) ex_called) ex_collected)
              (edit_truncate 3 ex_drained))
           (step_restart ex_now ex_cut (ex_session (messages ex_cut) Idle) ltac:(repeat split) eq_refl)).
Qed.
Lemma deliveries_land_once_witness :
  (∃ l, NoDup (ids_of l) ∧ stamps (messages ex_drained) = l ≫= batch)
  ∧ ∃ l : list (PendingDelivery string), NoDup (ids_of l) ∧ keys (messages ex_restored) `sublist_of` fst <$> (l ≫= batch).
Proof.
  assert (no_deliveries ex_start) as Hno by (repeat split). split.
  - destruct (deliveries_land_once ex_start [ex_delivery "d1" Append] [] ex_drained Hno eq_refl) as [H1 _].
    destruct (H1 ex_run) as (l & Hnd & Hst & _). exists l. split; assumption.
  - destruct (deliveries_land_once ex_start [ex_delivery "d1" Append] (lost ex_drained ex_cut) ex_restored Hno eq_refl) as [_ H2].
    destruct (H2 ex_life) as (l & Hnd & Hst & _). exists l. split; assumption.
Defined.
Lemma accepted_deliveries_are_accounted_witness : known "d1" ex_restored ∨ "d1"%string ∈ lost ex_drained ex_cut.
Proof.
  apply (accepted_deliveries_are_accounted ex_start [] [] ex_start (ex_delivery "d1" Append) ex_now OQueued ex_restored []).
  - repeat split.
  - reflexivity.
  - apply life_refl.
  - vm_compute. reflexivity.
  - discriminate.
  - exact ex_rest.
  - apply Nat.ltb_lt. vm_compute. reflexivity.
Defined.

(** Cut off, the delivery is still reported as delivered; after a restart nothing is known of it. *)
Example truncation_forgets_after_restart :
  delivery_status "d1" ex_cut = SDelivered ∧ delivery_status "d1" ex_restored = SUnknown ∧ lost ex_drained ex_cut = ["d1"%string].
Proof. vm_compute. done. Qed.

(** A runner lands a delivery in its own messages and mirrors them; as long as it has not been taken from the
    registry (its trajectory could not be saved), it is delivered again when the runner is gone. *)
Definition ex_mirrored : Session string unit :=
  mirror_runner_messages ([ex_message "a" "user" "hello"] ++ stamp_messages (ex_delivery "d1" Append))
    (set_runner_pending_deliveries [ex_delivery "d1" Append] (ex_session [ex_message "a" "user" "hello"] Generating)).
Definition ex_recovered : Session string unit * result DeliveryOutcome DeliveryError :=
  enqueue_delivery (ex_delivery "d1" Append) ex_now (set_runner_pending_deliveries [] ex_mirrored).
Example mirrored_deliveries_land_again :
  ex_recovered.2 = Ok ODelivered ∧ keys (messages ex_recovered.1) = [("d1", "user"); ("d1", "user")]%string.
Proof. vm_compute. done. Qed.

Definition ex_landed : PendingDelivery string * bool * Session string unit :=
  match land_next ex_now ex_answered with Some r => r | None => (ex_delivery "" Append, false, ex_answered) end.
(** From the queue, and at once. *)
Lemma deliveries_land_at_boundaries_witness :
  open_for ex_landed.1.1 ex_answered
  ∧ open_for (ensure_ttl_secs ex_now (delivery_default_ttl_secs default_settings) (ex_delivery "d2" Append)) ex_drained.
Proof.
  split.
  - apply (deliveries_land_at_boundaries ex_now ex_answered ex_landed.1.1 ex_landed.2). left. vm_compute. reflexivity.
  - apply (deliveries_land_at_boundaries ex_now ex_drained _ (enqueue_delivery (ex_delivery "d2" Append) ex_now ex_drained).1).
    right. exists (ex_delivery "d2" Append). split; vm_compute; reflexivity.
Defined.

(** A preemption while the calls wait for their approval puts its message between the call and the result.
    The result that comes later does not count, the window stays open, and what is delivered after that
    waits, though the call was answered and the turn is over. *)
Definition ex_paused : Session string unit := ex_session [ex_message "a" "user" "hello"; ex_call] Paused.
Definition ex_interrupted : Session string unit := (enqueue_delivery (ex_delivery "d1" Preempt) ex_now ex_paused).1.
Definition ex_over : Session string unit :=
  add_message (ex_message "e" "assistant" "done") ex_now (add_message ex_result ex_now (upd_turn Idle false false ex_interrupted)).
Example preemption_splits_a_paused_call :
  (enqueue_delivery (ex_delivery "d1" Preempt) ex_now ex_paused).2 = Ok ODelivered
  ∧ role <$> messages ex_over = ["user"; "assistant"; "user"; "tool"; "assistant"]%string
  ∧ has_pending_tool_result_window (messages ex_over) = true
  ∧ (enqueue_delivery (ex_delivery "d2" Append) ex_now ex_over).2 = Ok OQueued
  ∧ (fst <$> drain_pending_deliveries ex_now (enqueue_delivery (ex_delivery "d2" Append) ex_now ex_over).1)
    = Some (enqueue_delivery (ex_delivery "d2" Append) ex_now ex_over).1.
Proof. vm_compute. done. Qed.
