(* ===== verification/PlannerQna.v ===== *)
(** * Questions of agents to their planner: records

    [tools/tool_agent_planner_qna.rs], what is read and written on a board: the markers among the
    status updates of a card, the receipts of replies kept with the board
    ([PlannerReply] of [refact-tasks/src/types.rs]) and their validation.  What serde, the digest, the
    uuid and chrono crates and the records of the privacy crate answer is the parameter
    [ReplySerde].  A string is its bytes; the markers are ASCII. *)

From Stdlib Require Import Ascii.
From stdpp Require Import gmap strings list pretty.
From S2P Require Import Prelude RustStr BoardTypes Outcome Settings ActiveContext Delivery Question Board.
Local Open Scope N_scope.

(** ** Strings *)

(** [str::strip_prefix], [split_once] and [split] at an ASCII character. *)
Fixpoint cut_prefix (p s : string) : option string :=
  match p, s with
  | EmptyString, _ => Some s
  | String a p, String b s => if bool_decide (a = b) then cut_prefix p s else None
  | String _ _, EmptyString => None
  end.
Fixpoint split_once (c : Ascii.ascii) (s : string) : option (string * string) :=
  match s with
  | EmptyString => None
  | String b s =>
      if bool_decide (b = c) then Some (EmptyString, s)
      else (λ p, (String b p.1, p.2)) <$> split_once c s
  end.
Fixpoint split_at_char (c : Ascii.ascii) (s : string) : list string :=
  match s with
  | EmptyString => [EmptyString]
  | String b s =>
      if bool_decide (b = c) then EmptyString :: split_at_char c s
      else match split_at_char c s with
           | piece :: rest => String b piece :: rest
           | [] => [String b EmptyString]
           end
  end.
Definition has_prefix (p s : string) : bool := bool_decide (is_Some (cut_prefix p s)).

(** ** Markers *)

Definition ASK_PREFIX : string := "[ASK:".
Definition REPLY_PREFIX : string := "[REPLY:".
Definition WITHDRAWN_PREFIX : string := "[WITHDRAWN:".
Definition WITHDRAWN_REPLY : string := "question was withdrawn when the agent finished; nothing was delivered".

Definition is_id_char (a : Ascii.ascii) : bool :=
  let c := Ascii.N_of_ascii a in ((48 <=? c) && (c <=? 57)) || ((97 <=? c) && (c <=? 102)).
Definition is_question_id (value : string) : bool :=
  bool_decide (String.length value = 8%nat) && forallb is_id_char (String.list_ascii_of_string value).

Definition parse_status_id (message prefix : string) : option (string * text) :=
  rest ← cut_prefix prefix message;
  '(id, rest) ← split_once "]"%char rest;
  if is_question_id id then Some (id, trim_start (chars rest)) else None.
Definition parse_ask (message : string) : option (string * text) := parse_status_id message ASK_PREFIX.
Definition parse_reply (message : string) : option (string * text) := parse_status_id message REPLY_PREFIX.
Definition names_ask (question_id message : string) : bool :=
  bool_decide (fst <$> parse_ask message = Some question_id).

(** The bytes of a text. *)
Definition utf8_bytes (c : N) : list N :=
  if c <? 128 then [c]
  else if c <? 2048 then [N.lor 192 (N.shiftr c 6); N.lor 128 (N.land c 63)]
  else if c <? 65536 then [N.lor 224 (N.shiftr c 12); N.lor 128 (N.land (N.shiftr c 6) 63); N.lor 128 (N.land c 63)]
  else [N.lor 240 (N.shiftr c 18); N.lor 128 (N.land (N.shiftr c 12) 63); N.lor 128 (N.land (N.shiftr c 6) 63);
        N.lor 128 (N.land c 63)].
Definition string_of (t : text) : string := String.string_of_list_ascii (Ascii.ascii_of_N <$> (t ≫= utf8_bytes)).

Definition strip_suffix (p t : text) : option text :=
  if bool_decide (length p ≤ length t)%nat && bool_decide (drop (length t - length p) t = p)
  then Some (take (length t - length p) t) else None.
Definition urgency_suffix (urgency : string) : text := lit (" (urgency=" +:+ urgency +:+ ")").
Definition split_question_and_urgency (t : text) : text * string :=
  let trimmed := trim t in
  match strip_suffix (urgency_suffix "block") trimmed with
  | Some question => (question, "block"%string)
  | None =>
      match strip_suffix (urgency_suffix "info") trimmed with
      | Some question => (question, "info"%string)
      | None => (trimmed, "info"%string)
      end
  end.

(** The ids of one [WITHDRAWN] marker. *)
Definition withdrawn_by (message : string) : list string :=
  match cut_prefix WITHDRAWN_PREFIX message ≫= split_once "]"%char with
  | Some (ids, _) => filter (λ id, id ≠ ""%string) (split_at_char ","%char ids)
  | None => []
  end.

Section cards.
Context {Value : Type}.
Implicit Types (card : BoardCard Value).
Definition set_status_updates (l : list StatusUpdate) card : BoardCard Value := {|
  card_id := card_id card; title := title card; column := column card; priority := priority card;
  depends_on := depends_on card; instructions := instructions card; assignee := assignee card;
  agent_chat_id := agent_chat_id card; status_updates := l; comments := comments card;
  final_report := final_report card; final_report_structured := final_report_structured card;
  verifier_report := verifier_report card; created_at := created_at card; started_at := started_at card;
  last_heartbeat_at := last_heartbeat_at card; paused_at := paused_at card; paused_by := paused_by card;
  completed_at := completed_at card; agent_branch := agent_branch card;
  agent_worktree := agent_worktree card; agent_worktree_name := agent_worktree_name card;
  base_branch := base_branch card; base_commit := base_commit card; ab_variants := ab_variants card;
  team_members := team_members card; target_files := target_files card;
  scope_guard_mode := scope_guard_mode card; attention := attention card; deliverable := deliverable card;
  verification := verification card |}.
Definition push_status (timestamp message : string) card : BoardCard Value :=
  set_status_updates (status_updates card ++ [{| su_timestamp := timestamp; su_message := message |}]) card.
Definition withdrawn_ids card : list string := status_updates card ≫= (λ u, withdrawn_by (su_message u)).
Definition asked_ids card : list string := omap (λ u, fst <$> parse_ask (su_message u)) (status_updates card).
Definition card_has_ask card (question_id : string) : bool :=
  existsb (λ u, names_ask question_id (su_message u)) (status_updates card).
End cards.

(** ** Receipts *)

Record PlannerReplyAttempt := {
  pa_assignee : option string; pa_chat_id : option string; pa_started_at : option string; generation : N }.
#[global] Instance PlannerReplyAttempt_eq_dec : EqDecision PlannerReplyAttempt.
Proof. solve_decision. Defined.
Inductive PlannerReplyState := RRecorded | RAccepted | RDelivered | RUnknown | RFailed.
#[global] Instance PlannerReplyState_eq_dec : EqDecision PlannerReplyState.
Proof. solve_decision. Defined.

(** [PlannerReply], whose envelope is a JSON value, and [ReplyReceipt], whose envelope is a delivery. *)
Record Reply (E : Type) := {
  version : N;
  pr_task_id : string;
  pr_card_id : string;
  question_id : string;
  planner_chat_id : string;
  action_id : string;
  pr_answered_at : string;
  pr_answer : string;
  answer_input_hash : string;
  attempt : PlannerReplyAttempt;
  envelope : E;
  envelope_hash_ : string;
  pr_push : string;
  ttl_secs : N;
  pr_state : PlannerReplyState;
  outcome : string;
  reservation : string;
}.
Arguments version {E} _.
Arguments pr_task_id {E} _.
Arguments pr_card_id {E} _.
Arguments question_id {E} _.
Arguments planner_chat_id {E} _.
Arguments action_id {E} _.
Arguments pr_answered_at {E} _.
Arguments pr_answer {E} _.
Arguments answer_input_hash {E} _.
Arguments attempt {E} _.
Arguments envelope {E} _.
Arguments envelope_hash_ {E} _.
Arguments pr_push {E} _.
Arguments ttl_secs {E} _.
Arguments pr_state {E} _.
Arguments outcome {E} _.
Arguments reservation {E} _.
Definition PlannerReply := Reply Json.
#[global] Instance Reply_eq_dec {E} `{EqDecision E} : EqDecision (Reply E).
Proof. solve_decision. Defined.

Definition with_envelope {E F} (f : F) (r : Reply E) : Reply F := {|
  version := version r; pr_task_id := pr_task_id r; pr_card_id := pr_card_id r; question_id := question_id r;
  planner_chat_id := planner_chat_id r; action_id := action_id r; pr_answered_at := pr_answered_at r;
  pr_answer := pr_answer r; answer_input_hash := answer_input_hash r; attempt := attempt r; envelope := f;
  envelope_hash_ := envelope_hash_ r; pr_push := pr_push r; ttl_secs := ttl_secs r; pr_state := pr_state r;
  outcome := outcome r; reservation := reservation r |}.
Definition with_state {E} (st : PlannerReplyState) (out : string) (r : Reply E) : Reply E := {|
  version := version r; pr_task_id := pr_task_id r; pr_card_id := pr_card_id r; question_id := question_id r;
  planner_chat_id := planner_chat_id r; action_id := action_id r; pr_answered_at := pr_answered_at r;
  pr_answer := pr_answer r; answer_input_hash := answer_input_hash r; attempt := attempt r; envelope := envelope r;
  envelope_hash_ := envelope_hash_ r; pr_push := pr_push r; ttl_secs := ttl_secs r; pr_state := st;
  outcome := out; reservation := reservation r |}.
Definition with_reservation {E} (res : string) (r : Reply E) : Reply E := {|
  version := version r; pr_task_id := pr_task_id r; pr_card_id := pr_card_id r; question_id := question_id r;
  planner_chat_id := planner_chat_id r; action_id := action_id r; pr_answered_at := pr_answered_at r;
  pr_answer := pr_answer r; answer_input_hash := answer_input_hash r; attempt := attempt r; envelope := envelope r;
  envelope_hash_ := envelope_hash_ r; pr_push := pr_push r; ttl_secs := ttl_secs r; pr_state := pr_state r;
  outcome := outcome r; reservation := res |}.

(** What other crates answer: serde to and from JSON (an error as its text), the digest of a text, the
    records of privacy that messages carry (how many, and the length of their JSON), the parsing of uuids
    and times, the length of a row and of the metadata of a board in JSON. *)
Class ReplySerde (C : Type) := {
  plain_text : string → C;
  envelope_value : PendingDelivery C → result Json string;
  envelope_from : Json → option (PendingDelivery C);
  envelope_string : PendingDelivery C → result string string;
  attempt_string : PlannerReplyAttempt → string;
  value_error : Message C → string;
  digest_of : string → string;
  privacy_records : list (Message C) → option (N * N);
  parse_uuid : string → bool;
  parse_from_rfc3339 : string → option N;
  row_size : PlannerReply → N;
  metadata_size : gmap string (gmap string PlannerReply) → gmap string N → N;
}.

Section receipts.
Context {Value C : Type} `{MessageSerde C} `{ReplySerde C}.
Abbreviation TaskBoard := (@TaskBoard Value PlannerReply).
Abbreviation Receipt := (Reply (PendingDelivery C)).
Implicit Types (board : TaskBoard) (card : BoardCard Value) (receipt : Receipt).

(** A new message: [ChatMessage::default] with a role and a content. *)
Definition planner_user_message (content : string) : Message C := {|
  message_id := ""; role := "user"; ActiveContext.content := plain_text content; tool_calls := None; tool_call_id := "";
  summarized_range := None; summarization_tier := None; summarized_token_estimate := None; extra := ∅ |}.

(** [PartialEq for PendingDelivery]: messages are compared in JSON. *)
Definition messages_value (ms : list (Message C)) : option (list Json) := mapM to_value ms.
Definition same_delivery (d e : PendingDelivery C) : bool :=
  bool_decide (after_tool_call_id d = after_tool_call_id e) && bool_decide (thread_patch d = thread_patch e)
  && bool_decide (expires_at_ms d = expires_at_ms e) && bool_decide (supersede_key d = supersede_key e)
  && bool_decide ((λ p, (peer_project p, sender_root p, recipient_root p)) <$> peer_mail d
                  = (λ p, (peer_project p, sender_root p, recipient_root p)) <$> peer_mail e)
  && bool_decide ((λ c, (event_id c, caused_by c)) <$> causal d = (λ c, (event_id c, caused_by c)) <$> causal e)
  && bool_decide (pd_id d = pd_id e) && bool_decide (push d = push e) && bool_decide (source d = source e)
  && bool_decide (wake d = wake e) && bool_decide (enqueued_at_ms d = enqueued_at_ms e)
  && bool_decide (length (pd_messages d) = length (pd_messages e))
  && bool_decide (messages_value (pd_messages d) = messages_value (pd_messages e)).

Definition reply_attempt board card : PlannerReplyAttempt := {|
  pa_assignee := assignee card; pa_chat_id := agent_chat_id card; pa_started_at := started_at card;
  generation := default 0 (card_attempt_generations board !! card_id card) |}.

Definition reply_delivery_id (task_id card_id question_id : string) (a : PlannerReplyAttempt) : string :=
  "planner-reply:" +:+ task_id +:+ ":" +:+ card_id +:+ ":" +:+ question_id +:+ ":" +:+ digest_of (attempt_string a).
Definition envelope_hash (e : PendingDelivery C) : result string string :=
  let? s := envelope_string e in Ok (digest_of s).
Definition message_value (m : Message C) : result Json string :=
  match to_value m with Some v => Ok v | None => Err (value_error m) end.
Definition reply_text (question_id answer : string) : string :=
  "[Planner REPLY to " +:+ question_id +:+ "] " +:+ answer.

Definition empty_str (o : option string) : bool := bool_decide (o = Some ""%string).
(** The disjunction over the receipt and the fields of its envelope, up to the comparison of messages. *)
Definition receipt_refused receipt (task_id card_id qid : string) : bool :=
  let e := envelope receipt in
  negb (version receipt =? 1)
  || negb (bool_decide (pr_task_id receipt = task_id))
  || negb (bool_decide (pr_card_id receipt = card_id))
  || negb (bool_decide (question_id receipt = qid))
  || negb (is_question_id qid)
  || bool_decide (planner_chat_id receipt = ""%string)
  || bool_decide (action_id receipt = ""%string)
  || negb (parse_uuid (C := C) (action_id receipt))
  || negb (parse_uuid (C := C) (reservation receipt))
  || bool_decide (parse_from_rfc3339 (C := C) (pr_answered_at receipt) = None)
  || bool_decide (pr_answer receipt = ""%string)
  || bool_decide (answer_input_hash receipt = ""%string)
  || empty_str (pa_chat_id (attempt receipt))
  || (bool_decide (is_Some (pa_chat_id (attempt receipt)))
      && bool_decide (default ""%string (pa_assignee (attempt receipt)) = ""%string))
  || negb (bool_decide (pd_id e = reply_delivery_id task_id card_id qid (attempt receipt)))
  || negb (bool_decide (source e = "planner_reply"%string))
  || negb (wake e)
  || negb (bool_decide (push_str (push e) = pr_push receipt))
  || (enqueued_at_ms e <? MIN_PLAUSIBLE_DELIVERY_ENQUEUE_MS)
  || negb (bool_decide (expires_at_ms e = Some (deadline_ms (enqueued_at_ms e) (ttl_secs receipt))))
  || bool_decide (is_Some (after_tool_call_id e))
  || bool_decide (is_Some (thread_patch e))
  || bool_decide (is_Some (supersede_key e))
  || bool_decide (is_Some (peer_mail e))
  || bool_decide (is_Some (causal e))
  || negb (bool_decide (length (pd_messages e) = 1%nat)).

Definition ENVELOPE_REFUSED : string :=
  "Reply envelope/provenance does not match its canonical receipt; inspect instead of replaying".
(** [settings] are those of the process. *)
Definition validate_reply_envelope (settings : CoordinationSettings) receipt (task_id card_id qid : string)
  : result unit string :=
  let e := envelope receipt in
  let expected := planner_user_message (reply_text qid (pr_answer receipt)) in
  match privacy_records (pd_messages e) with
  | None => Err "Reply privacy provenance invalid"
  | Some (records, bytes) =>
      match pd_messages e with
      | [] => Err "Reply envelope is empty"
      | first :: _ =>
          let actual := set_extra (delete "privacy"%string (extra first)) first in
          if receipt_refused receipt task_id card_id qid then Err ENVELOPE_REFUSED
          else
            let? v := message_value actual in
            let? w := message_value expected in
            if negb (bool_decide (v = w)) then Err ENVELOPE_REFUSED
            else
              let? hash := envelope_hash e in
              if negb (bool_decide (hash = envelope_hash_ receipt))
                 || (max_work_provenance_records settings <? records)
                 || (max_work_provenance_bytes settings <? bytes)
              then Err ENVELOPE_REFUSED else Ok ()
      end
  end.

(** [planner_replies.get(card).and_then(|rows| rows.get(question))] *)
Definition reply_row board (card_id qid : string) : option PlannerReply := planner_replies board !! card_id ≫= lookup qid.
Definition reply_receipt (settings : CoordinationSettings) board (card_id qid : string) : result (option Receipt) string :=
  match reply_row board card_id qid with
  | None => Ok None
  | Some row =>
      if max_work_history_bytes settings <? row_size row
      then Err "Reply receipt exceeds the metadata limit; inspect instead of replaying"
      else
        match envelope_from (envelope row) with
        | None => Err "Reply receipt is invalid; inspect instead of replaying"
        | Some e =>
            let receipt := with_envelope e row in
            let? _ := validate_reply_envelope settings receipt (pr_task_id receipt) card_id qid in
            Ok (Some receipt)
        end
  end.
Definition canonical_reply_ids (settings : CoordinationSettings) board (card_id : string) : list string :=
  filter (λ id, match reply_receipt settings board card_id id with Ok (Some _) => true | _ => false end = true)
    (map_to_list (default ∅ (planner_replies board !! card_id))).*1.

Definition upd_replies (x : gmap string (gmap string PlannerReply)) (y : gmap string N) (b : TaskBoard) : TaskBoard := {|
  schema_version := schema_version b; rev := rev b; columns := columns b; cards := cards b;
  owner_chat_id := owner_chat_id b; reviewer_chat_ids := reviewer_chat_ids b;
  review_policy := review_policy b; review_attestations := review_attestations b;
  card_claims := card_claims b; dependency_overrides := dependency_overrides b;
  card_outcomes := card_outcomes b; planner_replies := x; card_attempt_generations := y |}.
Definition store_reply_receipt (settings : CoordinationSettings) board (card_id qid : string) receipt
  : result TaskBoard string :=
  let? _ := validate_reply_envelope settings receipt (pr_task_id receipt) card_id qid in
  let? v := envelope_value (envelope receipt) in
  Ok (upd_replies (<[card_id := <[qid := with_envelope v receipt]> (default ∅ (planner_replies board !! card_id))]>
                     (planner_replies board)) (card_attempt_generations board) board).
End receipts.
