(* ===== verification/BoardTxn.v ===== *)
(** * The board's transactions

    [tasks/storage.rs]: every change of a board is a transaction under the lock of its task.  It reads the
    board, lets the writer's closure change it, refuses changes of what the coordinator owns, renews the
    generations of attempts, validates the board, withdraws the questions of agents whose work ended and
    writes.  A transaction is a function from the world of one task to the next; the privacy provenance
    stored with a board, the events and the killing of a stopped chat's processes are left out.  A transaction
    reads its clock once here. *)

From Stdlib Require Import Ascii.
From stdpp Require Import gmap strings list pretty.
From S2P Require Import Prelude RustStr Settings BoardTypes Outcome ActiveContext Delivery Question Board PlannerQna.
Local Open Scope N_scope.

(** [board_card_asker], [board_planner_answerer], [board_question_correlation] *)
Definition board_question_asker (task_id card_id : string) : string := "task:" +:+ task_id +:+ ":card:" +:+ card_id.
Definition board_question_answerer (task_id : string) : string := "task:" +:+ task_id +:+ ":planner".
Definition board_question_correlation (task_id card_id question_id : string) : string :=
  task_id +:+ ":" +:+ card_id +:+ ":" +:+ question_id.

Definition I64_MAX : N := 9223372036854775807.
(** [Vec::dedup] *)
Fixpoint dedup (l : list string) : list string :=
  match l with
  | x :: (y :: _) as rest => if bool_decide (x = y) then dedup rest else x :: dedup rest
  | _ => l
  end.

(** [TaskMeta] of a thread. *)
Record TaskMeta := {
  tm_task_id : string; tm_role : string; tm_card_id : option string; tm_agent_id : option string;
  tm_planner_chat_id : option string }.
(** A process of the registry: whether it has ended, the chat that owns it, and the task of that chat's
    session (none without an open session that is not locked). *)
Record RunningProcess := { rp_terminal : bool; rp_chat_id : option string; rp_meta : option TaskMeta }.

(** What [write_file_durably] did, and what the file holds after an error: the old content, the new one (the
    directory was not synced after the rename), or, where a file with several hard links is written in place,
    anything.  A file that does not parse any more makes the [opened] of later transactions an error. *)
Inductive FileLeft (B : Type) := OldContent | NewContent | TornContent (reads_as : B).
Arguments OldContent {B}.
Arguments NewContent {B}.
Arguments TornContent {B} _.
Inductive FileWrite (B : Type) := Durable | WriteFailed (e : string) (left : FileLeft B).
Arguments Durable {B}.
Arguments WriteFailed {B} _ _.

(** What a transaction runs in: who calls, what opening and reading the task's directory answered and what
    writing its file did, the processes that are registered, the settings of the project and of the process, the
    bounds of the questions, the time and its text. *)
Record TxnEnv (B : Type) := {
  current_actor : option string;
  opened : result unit string;
  written : FileWrite B;
  processes : list RunningProcess;
  project_settings : CoordinationSettings;
  process_settings : CoordinationSettings;
  question_limits : QuestionLimits;
  now : N;
  timestamp : string;
}.
Arguments current_actor {B} _.
Arguments opened {B} _.
Arguments written {B} _.
Arguments processes {B} _.
Arguments project_settings {B} _.
Arguments process_settings {B} _.
Arguments question_limits {B} _.
Arguments now {B} _.
Arguments timestamp {B} _.

Inductive BoardWriter := Internal | Planner (actor : string) | Reviewer (actor : string) | BoundPlanner (principal : string).
Definition is_bound (w : BoardWriter) : bool := match w with BoundPlanner _ => true | _ => false end.

Section transactions.
Context {Value C : Type} `{MessageSerde C} `{ReplySerde C}.
Abbreviation TaskBoard := (@TaskBoard Value PlannerReply).
Abbreviation TxnEnv := (TxnEnv TaskBoard).
Abbreviation Receipt := (Reply (PendingDelivery C)).
Implicit Types (b board existing : TaskBoard) (card : BoardCard Value) (env : TxnEnv).

(** ** Withdrawing questions *)

Definition still_open (m : Entries) (id : string) : bool :=
  match m !! id with None => true | Some q => q_pending q end.
Definition record_withdrawn_questions env (task_id : string) (replied : list string) card (m : Entries)
  : Entries * BoardCard Value * list string :=
  let withdrawn := withdrawn_ids card in
  let asked := filter (λ id, id ∉ withdrawn ∧ id ∉ replied ∧ still_open m id = true) (asked_ids card) in
  let '(m, pending) := pending_for_asker (board_question_asker task_id (card_id card)) (now env) m in
  let tracked := q_id <$> filter (λ q, q_kind q = BoardPlanner ∧ q_id q ∉ replied ∧ q_id q ∉ withdrawn) pending in
  let ids := dedup (sort_by_key (λ id, id) (asked ++ tracked)) in
  (m,
   if bool_decide (ids = []) then card
   else push_status (timestamp env)
          (WITHDRAWN_PREFIX +:+ join "," ids +:+ "] Questions withdrawn when the agent finished") card,
   ids).

Definition set_question (st : QuestionState) (a : option string) (at_ : option N) (q : QuestionContract) : QuestionContract := {|
  q_id := q_id q; q_kind := q_kind q; asker := asker q; answerer := answerer q; correlation_id := correlation_id q;
  q_text := q_text q; options := options q; Question.state := st; asked_at := asked_at q; expires_at := expires_at q;
  irreversible := irreversible q; default_answer := default_answer q; answer := a; answered_at := at_ |}.

(** The first status update that asks the question. *)
Definition find_ask card (qid : string) : option (StatusUpdate * text) :=
  '(_, u) ← list_find (λ u, names_ask qid (su_message u) = true) (status_updates card);
  '(_, t) ← parse_ask (su_message u);
  Some (u, t).
Definition reseed_board_question env (task_id : string) card (qid : string) (reply : option Receipt) (m : Entries) : Entries :=
  if bool_decide (is_Some (m !! qid)) then m
  else
    match find_ask card qid with
    | None => m
    | Some (update, t) =>
        let body := string_of (split_question_and_urgency t).1 in
        let asked_at := default (now env) (parse_from_rfc3339 (C := C) (su_timestamp update)) in
        let expires_at := now env + N.min (default_expiry_secs (question_limits env)) I64_MAX * NANOS_PER_SEC in
        match pending_contract qid BoardPlanner (board_question_asker task_id (card_id card))
                (board_question_answerer task_id) (board_question_correlation task_id (card_id card) qid)
                (if bool_decide (body = "") then "(question text unavailable)" else body) None
                (N.min asked_at (expires_at - NANOS_PER_SEC)) (Some expires_at) with
        | Err _ => m
        | Ok contract =>
            let contract :=
              if bool_decide (qid ∈ withdrawn_ids card) then set_question QWithdrawn (answer contract) (answered_at contract) contract
              else match reply with
                   | Some reply => set_question QAnswered (Some (pr_answer reply))
                                     (parse_from_rfc3339 (C := C) (pr_answered_at reply)) contract
                   | None => contract
                   end in
            (register (question_limits env) contract (now env) m).1
        end
    end.

Definition settle_one env (task_id : string) card (m : Entries) (id : string) : Entries :=
  (withdraw id (board_question_asker task_id (card_id card)) (now env)
     (reseed_board_question env task_id card id None m)).1.
Definition settle_withdrawn_questions env (task_id : string) (m : Entries) (w : BoardCard Value * list string) : Entries :=
  foldl (settle_one env task_id w.1) m w.2.

(** ** The checks of a transaction *)

Definition same_update (o : option StatusUpdate) (u : StatusUpdate) : bool :=
  match o with
  | Some old => bool_decide (su_timestamp old = su_timestamp u) && bool_decide (su_message old = su_message u)
  | None => false
  end.
Definition claims_reply (message : string) : bool :=
  has_prefix REPLY_PREFIX message || has_prefix "[REPLY-DELIVERY:" message.
Definition demote_update (old : option StatusUpdate) (u : StatusUpdate) : StatusUpdate :=
  if negb (same_update old u) && claims_reply (su_message u)
  then {| su_timestamp := su_timestamp u; su_message := "[UNTRUSTED STATUS] " +:+ su_message u |} else u.
Definition demote_card existing card : BoardCard Value :=
  set_status_updates
    (imap (λ i u, demote_update (old ← get_card (card_id card) existing; status_updates old !! i) u) (status_updates card)) card.
Definition demote_untrusted_reply_statuses existing board : TaskBoard :=
  upd_cards (demote_card existing <$> cards board) board.

Definition reply_generations board : list N :=
  (λ p, generation (attempt p)) <$> ((map_to_list (planner_replies board)).*2 ≫= λ rows, (map_to_list rows).*2).
Definition generations board : list N := (map_to_list (card_attempt_generations board)).*2 ++ reply_generations board.
(** [None]: exhausted. *)
Definition next_generation existing : option N :=
  let top := foldr N.max (rev existing) (generations existing) in
  if u64_max <=? top then None else Some (top + 1).
Definition same_attempt (old card : BoardCard Value) : bool :=
  bool_decide (assignee old = assignee card) && bool_decide (agent_chat_id old = agent_chat_id card)
  && bool_decide (started_at old = started_at card) && bool_decide (column old = column card).
Definition card_generation existing (next : N) card : N :=
  match get_card (card_id card) existing with
  | Some old => if same_attempt old card then default 0 (card_attempt_generations existing !! card_id card) else next
  | None => next
  end.
Definition set_generations (l : list (string * N)) : gmap string N := foldl (λ m p, <[p.1 := p.2]> m) ∅ l.
Definition advance_card_attempt_generations existing board : result TaskBoard string :=
  match next_generation existing with
  | None => Err "Task board generation exhausted"
  | Some next =>
      Ok (upd_replies (planner_replies board)
            (set_generations ((λ c, (card_id c, card_generation existing next c)) <$> cards board)) board)
  end.

Definition set_pause (at_ by_ : option string) (a : option CardAttention) card : BoardCard Value := {|
  card_id := card_id card; title := title card; column := column card; priority := priority card;
  depends_on := depends_on card; instructions := instructions card; assignee := assignee card;
  agent_chat_id := agent_chat_id card; status_updates := status_updates card; comments := comments card;
  final_report := final_report card; final_report_structured := final_report_structured card;
  verifier_report := verifier_report card; created_at := created_at card; started_at := started_at card;
  last_heartbeat_at := last_heartbeat_at card; paused_at := at_; paused_by := by_;
  completed_at := completed_at card; agent_branch := agent_branch card;
  agent_worktree := agent_worktree card; agent_worktree_name := agent_worktree_name card;
  base_branch := base_branch card; base_commit := base_commit card; ab_variants := ab_variants card;
  team_members := team_members card; target_files := target_files card;
  scope_guard_mode := scope_guard_mode card; attention := a; deliverable := deliverable card;
  verification := verification card |}.
Definition is_doing card : bool := bool_decide (column card = "doing").
Definition new_agent existing card : bool :=
  match get_card (card_id card) existing with
  | Some old => bool_decide (is_Some (agent_chat_id card)) && negb (bool_decide (agent_chat_id card = agent_chat_id old))
  | None => false
  end.
Definition clear_pause existing card : BoardCard Value :=
  let drop := negb (is_doing card) || new_agent existing card in
  set_pause (if drop then None else paused_at card) (if drop then None else paused_by card)
    (if is_doing card then attention card else None) card.
Definition clear_pauses existing board : TaskBoard := upd_cards (clear_pause existing <$> cards board) board.

Definition reply_rows board : N := foldr (λ p n, N.of_nat (size p.2) + n) 0 (map_to_list (planner_replies board)).
Definition validate_board (settings : CoordinationSettings) board : option (result unit string) :=
  if (max_work_history_bytes settings <? metadata_size (C := C) (planner_replies board) (card_attempt_generations board))
     || (max_work_history_rows settings <? reply_rows board)
  then Some (Err "Planner reply metadata exceeds the configured limit")
  else validate_for_write (board_max_reviewers settings) (board_claim_key_max_len settings) board.

(** ** Withdrawals and stopped chats *)

Definition work_ended (previous : BoardCard Value) board : bool :=
  match get_card (card_id previous) board with
  | None => is_doing previous
  | Some next =>
      (is_doing previous && negb (is_doing next)) || (negb (is_doing previous) && is_doing next)
      || (is_doing previous
          && match agent_chat_id previous, agent_chat_id next with
             | Some old, Some new => negb (bool_decide (old = new))
             | _, _ => false
             end)
  end.
Definition withdraw_card env (task_id : string) (acc : TaskBoard * Entries * list (BoardCard Value * list string))
    (previous : BoardCard Value) : TaskBoard * Entries * list (BoardCard Value * list string) :=
  let '(board, m, withdrawals) := acc in
  if work_ended previous board then
    let replied := canonical_reply_ids (process_settings env) board (card_id previous) in
    let card := default previous (get_card (card_id previous) board) in
    let '(m, card, ids) := record_withdrawn_questions env task_id replied card m in
    (upd_cards (alter_card (λ _, card) (card_id previous) (cards board)) board, m, withdrawals ++ [(card, ids)])
  else acc.
Definition record_board_withdrawals env (task_id : string) existing board (m : Entries)
  : TaskBoard * Entries * list (BoardCard Value * list string) :=
  foldl (withdraw_card env task_id) (board, m, []) (cards existing).

Definition left_agent card board : bool :=
  match get_card (card_id card) board with
  | None => true
  | Some next => negb (is_doing next) || negb (bool_decide (agent_chat_id next = agent_chat_id card))
  end.
Definition replaced_agent (chat_id id : string) board : bool :=
  match get_card id board with
  | None => true
  | Some next =>
      negb (is_doing next)
      || match agent_chat_id next with Some id => negb (bool_decide (id = chat_id)) | None => false end
  end.
(** The cards whose agent is stopped. *)
Definition left_cards existing board : list string :=
  card_id <$> filter (λ c, is_doing c && left_agent c board = true) (cards existing).
(** First the agents of the cards; a chat is stopped once, for a card. *)
Definition stop_agent board (changed : list string) (stopped : list (string * string)) card : list (string * string) :=
  match agent_chat_id card with
  | Some chat_id =>
      if bool_decide (card_id card ∈ changed) && replaced_agent chat_id (card_id card) board
         && negb (bool_decide (chat_id ∈ stopped.*1))
      then stopped ++ [(chat_id, card_id card)] else stopped
  | None => stopped
  end.
(** Then the chats that own a process and work as agents on one of the cards. *)
Definition stop_owner (task_id : string) board (changed : list string) (stopped : list (string * string)) (p : RunningProcess)
  : list (string * string) :=
  if rp_terminal p then stopped
  else
    match rp_chat_id p with
    | None => stopped
    | Some chat_id =>
        if bool_decide (chat_id ∈ stopped.*1) then stopped
        else
          match rp_meta p with
          | Some meta =>
              if bool_decide (tm_task_id meta = task_id) && bool_decide (tm_role meta = "agents") then
                match tm_card_id meta with
                | Some id =>
                    if bool_decide (id ∈ changed) && replaced_agent chat_id id board
                    then stopped ++ [(chat_id, id)] else stopped
                | None => stopped
                end
              else stopped
          | None => stopped
          end
    end.
Definition stopped_chats (task_id : string) (running : list RunningProcess) existing board : list (string * string) :=
  let changed := left_cards existing board in
  if bool_decide (changed = []) then []
  else foldl (stop_owner task_id board changed) (foldl (stop_agent board changed) [] (cards existing)) running.

(** ** Transactions *)

Record World := { w_board : TaskBoard; w_exists : bool; w_questions : Entries }.
Record Committed (T : Type) := { c_board : TaskBoard; c_value : T; c_failed : list text; c_stopped : list (string * string) }.

Definition is_failed card : bool := bool_decide (column card ∈ ["failed"; "regressed"]%string).
Definition reason_short card : text :=
  take 80 (chars (match final_report card with
                  | Some report => if blank report then
                                     match last (status_updates card) with Some u => su_message u | None => title card end
                                   else report
                  | None => match last (status_updates card) with Some u => su_message u | None => title card end
                  end)).
Definition new_failed existing board : list text :=
  let before := card_id <$> filter (λ c, is_failed c = true) (cards existing) in
  reason_short <$> filter (λ c, is_failed c = true ∧ card_id c ∉ before) (cards board).

(** [commit_board]: the file first; then the questions, and the chats that are stopped with their cards.
    After an error nothing follows the write. *)
Definition commit_board env (task_id : string) existing board (m : Entries)
    (withdrawals : list (BoardCard Value * list string)) (w : World) : World * result (list (string * string)) string :=
  match written env with
  | WriteFailed e OldContent => ({| w_board := w_board w; w_exists := w_exists w; w_questions := m |}, Err e)
  | WriteFailed e NewContent => ({| w_board := board; w_exists := true; w_questions := m |}, Err e)
  | WriteFailed e (TornContent b) => ({| w_board := b; w_exists := true; w_questions := m |}, Err e)
  | Durable =>
      ({| w_board := board; w_exists := true;
          w_questions := foldl (settle_withdrawn_questions env task_id) m withdrawals |},
       Ok (stopped_chats task_id (processes env) existing board))
  end.

Definition authorize env (writer : BoardWriter) existing : result TaskBoard string :=
  match writer with
  | Internal => Ok existing
  | Planner actor => let '(b, r) := authorize_owner actor existing in let? _ := r in Ok b
  | Reviewer actor =>
      let? _ := authorize_reviewer actor (board_allow_self_review (project_settings env)) existing in Ok existing
  | BoundPlanner principal =>
      match current_actor env with
      | Some actor => if bool_decide (actor = principal) then Ok existing else Err "Task principal changed"
      | None => Ok existing
      end
  end.

Definition metadata_touched (writer : BoardWriter) existing board : bool :=
  negb (bool_decide (card_attempt_generations board = card_attempt_generations existing))
  || (negb (is_bound writer) && negb (bool_decide (planner_replies board = planner_replies existing))).

(** From the closure's board to the one that is validated. *)
Definition prepare (writer : BoardWriter) existing board : result TaskBoard string :=
  if metadata_touched writer existing board then Err "Planner reply metadata is coordinator-owned"
  else
    let board := if is_bound writer then board else demote_untrusted_reply_statuses existing board in
    let? board := advance_card_attempt_generations existing board in
    Ok (clear_pauses existing board).

Definition bump_rev board : TaskBoard := {|
  schema_version := schema_version board; rev := rev board +w 1; columns := columns board; cards := cards board;
  owner_chat_id := owner_chat_id board; reviewer_chat_ids := reviewer_chat_ids board;
  review_policy := review_policy board; review_attestations := review_attestations board;
  card_claims := card_claims board; dependency_overrides := dependency_overrides board;
  card_outcomes := card_outcomes board; planner_replies := planner_replies board;
  card_attempt_generations := card_attempt_generations board |}.

Context {T : Type}.

(** [read_board_from_dir] *)
Definition read_board (w : World) : TaskBoard := if w_exists w then w_board w else default_board.
Definition set_questions (m : Entries) (w : World) : World :=
  {| w_board := w_board w; w_exists := w_exists w; w_questions := m |}.

(** [update_board_atomic_with_reviewer]; the outer option is a panic.  The closure may use the registry of
    questions. *)
Definition update_board env (task_id : string) (writer : BoardWriter)
    (pre_authorize : TaskBoard → CoordinationSettings → result unit string)
    (updater : TaskBoard → bool → Entries → Entries * result (TaskBoard * T) string) (w : World)
  : option (World * result (Committed T) string) :=
  let existing := read_board w in
  let settings := project_settings env in
  match (let? _ := opened env in
         let? _ := pre_authorize existing settings in
         authorize env writer existing) with
  | Err e => Some (w, Err e)
  | Ok board =>
      let '(m, changed) := updater board (board_allow_self_review settings) (w_questions w) in
      match (let? changed := changed in
             let? board := prepare writer existing changed.1 in
             Ok (board, changed.2)) with
      | Err e => Some (set_questions m w, Err e)
      | Ok (board, value) =>
          valid ← validate_board settings board;
          match valid with
          | Err e => Some (set_questions m w, Err e)
          | Ok _ =>
              let '(final, m, withdrawals) := record_board_withdrawals env task_id existing (bump_rev board) m in
              let '(w, committed) := commit_board env task_id existing final m withdrawals w in
              Some (w, let? stopped := committed in
                       Ok {| c_board := final; c_value := value; c_failed := new_failed existing board; c_stopped := stopped |})
          end
      end
  end.

Definition no_pre (_ : TaskBoard) (_ : CoordinationSettings) : result unit string := Ok ().
Definition pure (f : TaskBoard → bool → result (TaskBoard * T) string)
  : TaskBoard → bool → Entries → Entries * result (TaskBoard * T) string := λ b self m, (m, f b self).

(** [is_planner]: [chat_id_is_planner_for_task] *)
Definition update_board_atomic env (task_id : string) (is_planner : string → bool)
    (updater : TaskBoard → result (TaskBoard * T) string) : World → option (World * result (Committed T) string) :=
  let writer := match current_actor env with
                | Some actor => if is_planner actor then Planner actor else Internal
                | None => Internal
                end in
  update_board env task_id writer no_pre (pure (λ b _, updater b)).
Definition update_board_atomic_as_reviewer env (task_id reviewer : string) (is_planner : string → bool)
    (updater : TaskBoard → result (TaskBoard * T) string) (w : World) : option (World * result (Committed T) string) :=
  if is_planner reviewer then update_board env task_id (Reviewer reviewer) no_pre (pure (λ b _, updater b)) w
  else Some (w, Err "task review requires an authenticated planner chat").
(** [proof]: what the capture of the planner's proof and of the task's directory answered. *)
Definition update_board_atomic_as_bound_planner env (task_id principal : string) (proof : result unit string)
    (updater : TaskBoard → bool → Entries → Entries * result (TaskBoard * T) string) (w : World)
  : option (World * result (Committed T) string) :=
  match proof with
  | Err e => Some (w, Err e)
  | Ok _ => update_board env task_id (BoundPlanner principal) no_pre updater w
  end.
Definition update_board_atomic_with_owner_guard env (task_id expected_owner : string) (proof : result unit string)
    (owner_guard : TaskBoard → result unit string)
    (updater : TaskBoard → Entries → Entries * result (TaskBoard * T) string)
  : World → option (World * result (Committed T) string) :=
  update_board_atomic_as_bound_planner env task_id expected_owner proof
    (λ b _ m, match (let? _ := match owner_chat_id b with Some _ => require_owner expected_owner b | None => Ok () end in
                     owner_guard b) with
              | Err e => (m, Err e)
              | Ok _ => updater b m
              end).
End transactions.

Section saving.
Context {Value C : Type} `{MessageSerde C} `{ReplySerde C}.
Abbreviation TaskBoard := (@TaskBoard Value PlannerReply).
Abbreviation TxnEnv := (TxnEnv TaskBoard).
Abbreviation World := (World (Value := Value)).
Implicit Types (b board existing : TaskBoard) (env : TxnEnv).

Inductive BoardSaveError := Conflict (expected actual : N) | SaveError (e : string).
Definition save_err {A} (r : result A string) : result A BoardSaveError :=
  match r with Ok a => Ok a | Err e => Err (SaveError e) end.
Definition require_reply_metadata_unchanged existing board : result unit string :=
  if bool_decide (planner_replies existing = planner_replies board)
     && bool_decide (card_attempt_generations existing = card_attempt_generations board)
  then Ok () else Err "Planner reply metadata is coordinator-owned".

(** What [create_board] and [save_board_checked] share, after their check for a conflict. *)
Definition replace_board env (task_id : string) board (w : World) : option (World * result unit BoardSaveError) :=
  let existing := read_board w in
  match (let? _ := require_reply_metadata_unchanged existing board in
         advance_card_attempt_generations existing (demote_untrusted_reply_statuses existing board)) with
  | Err e => Some (w, Err (SaveError e))
  | Ok board =>
      valid ← validate_board (project_settings env) board;
      match valid with
      | Err e => Some (w, Err (SaveError e))
      | Ok _ =>
          let '(final, m, withdrawals) := record_board_withdrawals env task_id existing board (w_questions w) in
          let '(w, committed) := commit_board env task_id existing final m withdrawals w in
          Some (w, save_err (let? _ := committed in Ok ()))
      end
  end.
Definition validated_first env board (k : option (World * result unit BoardSaveError)) (w : World)
  : option (World * result unit BoardSaveError) :=
  match opened env with
  | Err e => Some (w, Err (SaveError e))
  | Ok _ =>
      valid ← validate_board (project_settings env) board;
      match valid with Err e => Some (w, Err (SaveError e)) | Ok _ => k end
  end.
Definition create_board env (task_id : string) board (w : World) : option (World * result unit BoardSaveError) :=
  validated_first env board
    (if w_exists w then Some (w, Err (Conflict 0 (rev (read_board w)))) else replace_board env task_id board w) w.
Definition save_board_checked env (task_id : string) (expected_rev : N) board (w : World)
  : option (World * result unit BoardSaveError) :=
  validated_first env board
    (if bool_decide (rev (read_board w) = expected_rev) then replace_board env task_id board w
     else Some (w, Err (Conflict expected_rev (rev (read_board w))))) w.
End saving.

(** ** Claims and reviews *)

(** [WorkError] of [coordination/error.rs]; its text is its JSON. *)
Inductive WorkFailureCause :=
  | SnapshotRowCapacity | SnapshotByteCapacity | ScopedSourceUnavailable | PolicyUnavailable | SettingsUnavailable
  | SnapshotEncodingUnavailable | ProjectionUnavailable.
Record WorkError := {
  we_code : string; we_message : string; we_retryable : bool; request_id : string; cause : option WorkFailureCause }.
Definition new_work_error (id code message : string) (retryable : bool) : WorkError :=
  {| we_code := code; we_message := message; we_retryable := retryable; request_id := id; cause := None |}.
Definition invalid (id message : string) : WorkError := new_work_error id "invalid_argument" message false.
Definition rule_error (error_text : WorkError → string) (id : string) (violation : BoardRuleViolation) : string :=
  error_text (new_work_error id (violation_code violation) (violation_message violation) (violation_retryable violation)).

Section claims.
Context {Value C : Type} `{MessageSerde C} `{ReplySerde C}.
Abbreviation TxnEnv := (TxnEnv (@TaskBoard Value PlannerReply)).
Abbreviation World := (World (Value := Value)).
(** The JSON of an error, a fresh request id, and which chats plan the task. *)
Variables (error_text : WorkError → string) (fresh_id : string) (is_planner : string → bool).
Implicit Types (env : TxnEnv).
Definition map_rule {A B} (p : A * result B BoardRuleViolation) : result (A * B) string :=
  match p with (b, Ok x) => Ok (b, x) | (_, Err v) => Err (rule_error error_text fresh_id v) end.
Definition claim_card_txn env (task_id card_id claimant key : string)
  : World → option (World * result (Committed ClaimOutcome) string) :=
  update_board_atomic env task_id is_planner (λ b, map_rule (Board.claim_card card_id claimant key (timestamp env) b)).
Definition release_card_claim env (task_id card_id claimant : string)
  : World → option (World * result (Committed unit) string) :=
  update_board_atomic env task_id is_planner (λ b, map_rule (Board.release_claim card_id claimant b)).
Definition override_card_dependencies env (task_id card_id overridden_by reason : string) (w : World)
  : option (World * result (Committed (list string)) string) :=
  if Board.blank reason then Some (w, Err (error_text (invalid fresh_id "dependency override requires a reason")))
  else
    update_board_atomic env task_id is_planner
      (λ b, let? _ := Board.require_owner overridden_by b in
            map_rule (Board.record_dependency_override card_id overridden_by reason (timestamp env) b)) w.
(** [self]: what [board_allows_self_review] answered before the transaction. *)
Definition attest_review_txn env (self : result bool string) (task_id card_id reviewer : string) (w : World)
  : option (World * result (Committed BoardReviewAttestation) string) :=
  match self with
  | Err e => Some (w, Err e)
  | Ok allow_self_review =>
      update_board_atomic_as_reviewer env task_id reviewer is_planner
        (λ b, let '(b, r) := Board.attest_card_review card_id reviewer (timestamp env) allow_self_review b in
              let? attestation := r in Ok (b, attestation)) w
  end.
End claims.
