(* ===== verification/BoardRuns.v ===== *)
(** * The board's transactions: what they keep

    What a transaction did to the cards, committed or with its write failed, that committed boards are valid, which
    chats are stopped, that the marks of replies are the coordinator's, and that a generation names one attempt. *)

From Stdlib Require Import Ascii.
From stdpp Require Import gmap strings list pretty.
From S2P Require Import Prelude RustStr Settings BoardTypes Outcome Board BoardDeps BoardProps BoardAuthority Question QuestionProps ActiveContext Delivery PlannerQna BoardTxn.

Local Open Scope N_scope.

Section cards.
Context {Value : Type}.
Implicit Types (c : BoardCard Value) (cs : list (BoardCard Value)).

(** ** Noting withdrawals *)

Definition is_note (u : StatusUpdate) : Prop := has_prefix WITHDRAWN_PREFIX (su_message u) = true.
(** The card with notes of withdrawn questions behind its status updates. *)
Definition noted c c' : Prop :=
  ∃ notes, Forall is_note notes ∧ c' = set_status_updates (status_updates c ++ notes) c.

Lemma set_status_updates_same c : set_status_updates (status_updates c) c = c.
Proof. by destruct c. Qed.
#[export] Instance noted_preorder : PreOrder noted.
Proof.
  split.
  - intros c. exists []. split; [done|]. by rewrite app_nil_r, set_status_updates_same.
  - intros c1 c2 c3 (n & Hn & ->) (k & Hk & ->). exists (n ++ k). split; [by apply Forall_app|].
    cbn. by rewrite app_assoc.
Qed.
Lemma noted_id c c' : noted c c' → card_id c' = card_id c.
Proof. by intros (? & ? & ->). Qed.

Lemma noted_alter id cs c c' :
  find_card id cs = Some c → noted c c' → Forall2 noted cs (alter_card (λ _, c') id cs).
Proof.
  revert c. induction cs as [|x cs IH]; intros c Hf Hn; [done|]. rewrite find_card_cons in Hf. cbn.
  destruct (decide (card_id x = id)) as [E|E].
  - rewrite (bool_decide_true _ E) in Hf |- *. injection Hf as ->. constructor; [done|reflexivity].
  - rewrite (bool_decide_false _ E) in Hf |- *. constructor; [done|]. by eapply IH.
Qed.
Lemma alter_card_none (g : BoardCard Value → BoardCard Value) id cs : find_card id cs = None → alter_card g id cs = cs.
Proof.
  induction cs as [|x cs IH]; [done|]. rewrite find_card_cons. cbn. case_bool_decide; [done|]. intros ?. by rewrite IH.
Qed.
Lemma Forall2_find (R : BoardCard Value → BoardCard Value → Prop) id cs cs' :
  (∀ c c', R c c' → card_id c' = card_id c) → Forall2 R cs cs' →
  option_Forall2 R (find_card id cs) (find_card id cs').
Proof.
  intros Hid. induction 1 as [|c c' cs cs' Hc _ IH]; [constructor|]. rewrite !find_card_cons, (Hid _ _ Hc).
  case_bool_decide; [by constructor|done].
Qed.
Lemma Forall2_in_r {A B} (R : A → B → Prop) l k y : Forall2 R l k → y ∈ k → ∃ x, x ∈ l ∧ R x y.
Proof.
  intros Hf [i Hi]%list_elem_of_lookup. destruct (Forall2_lookup_r _ _ _ _ _ Hf Hi) as (x & Hx & ?). exists x.
  split; [by eapply list_elem_of_lookup_2|done].
Qed.
Lemma Forall2_ids (R : BoardCard Value → BoardCard Value → Prop) cs cs' :
  (∀ c c', R c c' → card_id c' = card_id c) → Forall2 R cs cs' → card_id <$> cs' = card_id <$> cs.
Proof. intros Hid. induction 1 as [|c c' cs cs' Hc _ IH]; [done|]. rewrite !fmap_cons, IH. f_equal. by apply Hid. Qed.
End cards.

Section boards.
Context {Value C : Type} `{MessageSerde C} `{ReplySerde C}.
Abbreviation TaskBoard := (@TaskBoard Value PlannerReply).
Abbreviation TxnEnv := (TxnEnv TaskBoard).
Abbreviation World := (World (Value := Value)).
Implicit Types (b existing : TaskBoard) (c : BoardCard Value) (env : TxnEnv) (w : World) (id : string).

Definition noted_board b b' : Prop := Forall2 noted (cards b) (cards b') ∧ b' = upd_cards (cards b') b.
#[export] Instance noted_board_preorder : PreOrder noted_board.
Proof.
  split.
  - intros b. split; [reflexivity|by destruct b].
  - intros b1 b2 b3 [H1 E1] [H2 E2]. split; [by etrans|]. rewrite E2, E1. by destruct b1.
Qed.

Lemma record_withdrawn_noted env task replied c m : noted c (record_withdrawn_questions env task replied c m).1.2.
Proof.
  unfold record_withdrawn_questions. destruct (pending_for_asker _ _ _) as [m' pending]. cbv zeta. cbn.
  case_bool_decide; [done|]. unfold push_status. eexists. split; [|reflexivity]. constructor; [|constructor].
  unfold is_note, has_prefix. cbn. by apply bool_decide_eq_true.
Qed.

Lemma withdraw_card_noted env task b m ws previous : noted_board b (withdraw_card env task (b, m, ws) previous).1.1.
Proof.
  unfold withdraw_card. destruct (work_ended previous b); [|done].
  pose proof (record_withdrawn_noted env task (canonical_reply_ids (process_settings env) b (card_id previous))
    (default previous (get_card (card_id previous) b)) m) as Hn.
  destruct (record_withdrawn_questions _ _ _ _ _) as [[m' c'] ids]. cbn in Hn |- *. split; [|by destruct b]. cbn.
  unfold get_card in Hn. destruct (find_card (card_id previous) (cards b)) as [c0|] eqn:E.
  - by eapply noted_alter.
  - rewrite alter_card_none by done. reflexivity.
Qed.
Lemma withdrawals_noted env task existing b m : noted_board b (record_board_withdrawals env task existing b m).1.1.
Proof.
  unfold record_board_withdrawals. generalize (cards existing) (@nil (BoardCard Value * list string)). intros l.
  revert b m. induction l as [|p l IH]; intros b m ws; [done|]. cbn [foldl].
  pose proof (withdraw_card_noted env task b m ws p) as Hn. destruct (withdraw_card env task (b, m, ws) p) as [[b1 m1] ws1].
  etrans; [exact Hn|apply IH].
Qed.

(** ** What validation reads *)

(** The cards without their status updates. *)
Lemma noted_stripped (cs cs' : list (BoardCard Value)) :
  Forall2 noted cs cs' → set_status_updates [] <$> cs' = set_status_updates [] <$> cs.
Proof. induction 1 as [|c c' cs cs' (n & _ & ->) _ IH]; [done|]. by rewrite !fmap_cons, IH. Qed.
Lemma stripped_card (cs cs' : list (BoardCard Value)) c' :
  set_status_updates [] <$> cs' = set_status_updates [] <$> cs → c' ∈ cs' →
  ∃ c, c ∈ cs ∧ set_status_updates [] c = set_status_updates [] c'.
Proof.
  intros E Hin. assert (set_status_updates [] c' ∈ set_status_updates [] <$> cs) as (c & ? & ?)%list_elem_of_fmap.
  { rewrite <- E. apply list_elem_of_fmap. by exists c'. }
  by exists c.
Qed.
Lemma stripped_fields c c' :
  set_status_updates [] c = set_status_updates [] c' →
  card_id c = card_id c' ∧ depends_on c = depends_on c' ∧ verifier_report c = verifier_report c'.
Proof. intros E. by injection E. Qed.

Lemma valid_dependencies_stripped (cs cs' : list (BoardCard Value)) :
  set_status_updates [] <$> cs' = set_status_updates [] <$> cs → valid_dependencies cs → valid_dependencies cs'.
Proof.
  intros E [Hids Hc (ord & Hp & Ho)]. assert (card_id <$> cs' = card_id <$> cs) as Ei.
  { assert (∀ l : list (BoardCard Value), card_id <$> l = card_id <$> (set_status_updates [] <$> l)) as Hl
      by (intros l; by rewrite <- list_fmap_compose). by rewrite (Hl cs'), E, <- Hl. }
  split.
  - by rewrite Ei.
  - intros c' Hin. destruct (stripped_card _ _ _ E Hin) as (c & Hcin & (E1 & E2 & _)%stripped_fields).
    destruct (Hc c Hcin) as [? ? ?]. split; rewrite <- ?E1, <- ?E2, ?Ei; done.
  - exists ord. split; [by rewrite Ei|]. intros l1 id l2 c' d Hl Hin Hid Hd.
    destruct (stripped_card _ _ _ E Hin) as (c & Hcin & (E1 & E2 & _)%stripped_fields).
    eapply Ho; [done|done| |]; [by rewrite E1|by rewrite E2].
Qed.

Lemma validate_for_write_Ok (max_reviewers max_key : N) b :
  validate_for_write max_reviewers max_key b = Some (Ok ()) ↔
  valid_dependencies (cards b) ∧ valid_authority max_reviewers b ∧ validate_claims max_key b = Ok ().
Proof.
  unfold validate_for_write. destruct (validate_dependencies_spec b) as (r & -> & Hr). cbn. split.
  - intros Hs. injection Hs as Hs. apply result_bind_Ok in Hs as ([] & -> & Hrest). apply result_bind_Ok in Hrest as ([] & Ha & Hcl).
    split_and!; [by apply Hr|by apply validate_authority_Ok|done].
  - intros (Hd & Ha%validate_authority_Ok & Hcl). apply Hr in Hd as ->. cbn. rewrite Ha. cbn. by rewrite Hcl.
Qed.
Lemma validate_for_write_total (max_reviewers max_key : N) b : is_Some (validate_for_write max_reviewers max_key b).
Proof. unfold validate_for_write. destruct (validate_dependencies_spec b) as (r & -> & _). by eexists. Qed.

Lemma noted_get_card b b' id :
  noted_board b b' → set_status_updates [] <$> get_card id b' = set_status_updates [] <$> get_card id b.
Proof.
  intros [Hf _]. unfold get_card. pose proof (Forall2_find noted id _ _ noted_id Hf) as Ho.
  destruct Ho as [c c' (n & _ & ->)|]; done.
Qed.
Lemma noted_valid settings b b' :
  noted_board b b' → validate_board settings b = Some (Ok ()) → validate_board settings b' = Some (Ok ()).
Proof.
  intros Hn. pose proof Hn as [Hf E]. unfold validate_board.
  assert (planner_replies b' = planner_replies b ∧ card_attempt_generations b' = card_attempt_generations b) as [E1 E2] by (rewrite E; done).
  unfold reply_rows. rewrite E1, E2. destruct (_ || _); [done|]. rewrite !validate_for_write_Ok. intros (Hd & [H1 H2 H3 H4] & Hcl).
  split_and!.
  - eapply valid_dependencies_stripped; [|exact Hd]. by apply noted_stripped.
  - rewrite E. split; [done..|]. intros id a Ha. destruct (H4 id a Ha) as [Hr ? ?]. split; [|done..].
    rewrite <- E. pose proof (noted_get_card b b' id Hn) as Hg. destruct (get_card id b) as [c|], (get_card id b') as [c'|]; try done.
    apply (inj Some), stripped_fields in Hg as (_ & _ & Hv). cbn in Hr |- *. by rewrite Hv.
  - assert (∀ id, get_card_id b' id = get_card_id b id) as Hg.
    { intros id. pose proof (noted_get_card b b' id Hn) as Hg. unfold get_card_id.
      destruct (get_card id b) as [c|], (get_card id b') as [c'|]; try done.
      apply (inj Some), stripped_fields in Hg as (Hi & _). cbn. by rewrite Hi. }
    rewrite <- Hcl. unfold validate_claims.
    assert (card_claims b' = card_claims b ∧ dependency_overrides b' = dependency_overrides b) as [-> ->] by (rewrite E; done).
    assert (∀ A (f g : A → result unit string) l, (∀ x, f x = g x) → first_error f l = first_error g l) as Hext.
    { intros A f g l Hfg. induction l as [|x l IH]; [done|]. cbn. by rewrite Hfg, IH. }
    rewrite (Hext _ (check_claim b' (board_claim_key_max_len settings)) (check_claim b (board_claim_key_max_len settings))),
      (Hext _ (check_override b') (check_override b)); [done|..].
    + intros [id o]. unfold check_override. by rewrite Hg.
    + intros [id o]. unfold check_claim. by rewrite Hg.
Qed.
End boards.

(** ** What a transaction did *)

Section commits.
Context {Value C : Type} `{MessageSerde C} `{ReplySerde C}.
Abbreviation TaskBoard := (@TaskBoard Value PlannerReply).
Abbreviation TxnEnv := (TxnEnv TaskBoard).
Abbreviation World := (World (Value := Value)).
Implicit Types (b existing changed board : TaskBoard) (c : BoardCard Value) (env : TxnEnv) (w : World) (id : string).

(** The closure made [changed] of [existing], from which [board] was prepared, and [w] is what was left;
    [settled]: the questions it withdrew are settled in the registry too. *)
Record commit (settled : bool) env task (writer : BoardWriter) existing changed board (m : Entries) w : Prop := {
  cm_prepare : prepare writer existing changed = Ok board;
  cm_valid : validate_board (project_settings env) board = Some (Ok ());
  cm_final : ∃ m' withdrawals,
    record_board_withdrawals env task existing (bump_rev board) m = (w_board w, m', withdrawals)
    ∧ w_questions w = if settled then foldl (settle_withdrawn_questions env task) m' withdrawals else m';
  cm_exists : w_exists w = true;
}.
(** From the closure on, with its value. *)
Definition ran {T} env task writer (updater : _ → _ → _ → _ * result (_ * T) string) settled w w' (v : T) changed board m : Prop :=
  ∃ b0, authorize env writer (read_board w) = Ok b0
    ∧ updater b0 (board_allow_self_review (project_settings env)) (w_questions w) = (m, Ok (changed, v))
    ∧ commit settled env task writer (read_board w) changed board m w'.

Lemma update_board_cases {T} env task writer pre (updater : _ → _ → _ → _ * result (_ * T) string) w w' r :
  update_board env task writer pre updater w = Some (w', r) →
  match r with
  | Ok cm => written env = Durable ∧ ∃ changed board m, ran env task writer updater true w w' (c_value _ cm) changed board m
      ∧ c_board _ cm = w_board w' ∧ c_stopped _ cm = stopped_chats task (processes env) (read_board w) (w_board w')
      ∧ c_failed _ cm = new_failed (read_board w) board
  | Err _ => read_board w' = read_board w
      ∨ (∃ e v changed board m, written env = WriteFailed e NewContent ∧ ran env task writer updater false w w' v changed board m)
      ∨ (∃ e b, written env = WriteFailed e (TornContent b) ∧ read_board w' = b)
  end.
Proof.
  unfold update_board. destruct (opened env) as [[]|]; cbn; [|intros [= <- <-]; by left].
  destruct (pre _ _) as [[]|]; cbn; [|intros [= <- <-]; by left].
  destruct (authorize env writer (read_board w)) as [b0|] eqn:Ea; [|intros [= <- <-]; by left].
  destruct (updater b0 _ _) as [m [[changed v]|]] eqn:Eu; cbn; [|intros [= <- <-]; by left].
  destruct (prepare _ _ _) as [board|] eqn:Ep; cbn; [|intros [= <- <-]; by left].
  destruct (validate_board _ _) as [[[]|]|] eqn:Ev; cbn; [|intros [= <- <-]; by left|done].
  destruct (record_board_withdrawals _ _ _ _ _) as [[final m'] ws] eqn:Er. unfold commit_board.
  destruct (written env) as [|e left_] eqn:Ew; [|destruct left_ as [| |b]]; cbn; intros [= <- <-]; cbn.
  - split; [done|]. exists changed, board, m. split_and!; try done. exists b0. split_and!; try done. split; [done|done| |done]. by exists m', ws.
  - by left.
  - right. left. exists e, v, changed, board, m. split; [done|]. exists b0. split_and!; try done. split; [done|done| |done]. by exists m', ws.
  - right. right. by exists e, b.
Qed.
Lemma update_board_total {T} env task writer pre (updater : _ → _ → _ → _ * result (_ * T) string) w :
  is_Some (update_board env task writer pre updater w).
Proof.
  unfold update_board. destruct (_ : result TaskBoard string) as [b0|]; [|by eexists].
  destruct (updater b0 _ _) as [m changed]. destruct (_ : result (TaskBoard * T) string) as [[board v]|]; [|by eexists].
  assert (is_Some (validate_board (project_settings env) board)) as [[[]|] ->].
  { unfold validate_board. destruct (_ || _); [by eexists|apply validate_for_write_total]. }
  - cbn. destruct (record_board_withdrawals _ _ _ _ _) as [[final m'] ws]. by destruct (commit_board _ _ _ _ _ _ _).
  - by eexists.
Qed.

Definition demoted (bound : bool) existing c : BoardCard Value := if bound then c else demote_card existing c.
Lemma demoted_same bound existing c :
  card_id (demoted bound existing c) = card_id c ∧ same_attempt c (demoted bound existing c) = true
  ∧ ∀ next, card_generation existing next (demoted bound existing c) = card_generation existing next c.
Proof.
  unfold demoted. destruct bound; [split_and!; try done|split_and!; try done]; unfold same_attempt; by rewrite !bool_decide_true by done.
Qed.
Record prepared (writer : BoardWriter) existing changed board : Prop := {
  pd_replies : is_bound writer = false → planner_replies changed = planner_replies existing;
  pd_next : ∃ next, next_generation existing = Some next
    ∧ card_attempt_generations board = set_generations ((λ c, (card_id c, card_generation existing next c)) <$> cards changed);
  pd_cards : cards board = (λ c, clear_pause existing (demoted (is_bound writer) existing c)) <$> cards changed;
  pd_board : planner_replies board = planner_replies changed ∧ rev board = rev changed;
}.
Lemma prepare_prepared writer existing changed board :
  prepare writer existing changed = Ok board → prepared writer existing changed board.
Proof.
  unfold prepare, metadata_touched. destruct (_ || _) eqn:Ht; [done|]. apply orb_false_iff in Ht as [Hg Hr].
  intros (b & Ha & Hb)%result_bind_Ok. injection Hb as <-.
  unfold advance_card_attempt_generations in Ha. destruct (next_generation existing) as [next|] eqn:En; [|done]. injection Ha as <-.
  split.
  - intros Hw. rewrite Hw in Hr. cbn in Hr. by apply negb_false_iff, bool_decide_eq_true in Hr.
  - exists next. split; [done|]. cbn. f_equal. destruct (is_bound writer) eqn:Hw; [done|]. cbn. by rewrite <- list_fmap_compose.
  - cbn. unfold demoted. destruct (is_bound writer); [done|]. cbn. by rewrite <- list_fmap_compose.
  - cbn. by destruct (is_bound writer).
Qed.

(** A card as the writer left it, and as it was written: [paused] is false where pauses are cleared. *)
Definition treated (paused bound : bool) existing c c' : Prop :=
  noted (if paused then demoted bound existing c else clear_pause existing (demoted bound existing c)) c'.
Lemma treated_id paused bound existing c c' : treated paused bound existing c c' → card_id c' = card_id c.
Proof. intros ->%noted_id. destruct paused; apply demoted_same. Qed.

(** What is on file after a write that made [changed] of [existing]. *)
Record on_file (paused bound : bool) existing changed w : Prop := {
  of_replies : planner_replies (w_board w) = planner_replies changed;
  of_kept : bound = false → planner_replies changed = planner_replies existing;
  of_next : ∃ next, next_generation existing = Some next
    ∧ card_attempt_generations (w_board w) = set_generations ((λ c, (card_id c, card_generation existing next c)) <$> cards changed);
  of_cards : Forall2 (treated paused bound existing) (cards changed) (cards (w_board w));
  of_valid : ∃ settings, validate_board settings (w_board w) = Some (Ok ());
  of_read : read_board w = w_board w;
}.
Lemma commit_on_file settled env task writer existing changed board m w :
  commit settled env task writer existing changed board m w → on_file false (is_bound writer) existing changed w.
Proof.
  intros [Hp%prepare_prepared Hv (m' & ws & Hf & _) He]. pose proof (withdrawals_noted env task existing (bump_rev board) m) as Hn.
  rewrite Hf in Hn. cbn in Hn. pose proof Hn as [Hc E]. destruct (pd_board _ _ _ _ Hp) as [E1 E2].
  destruct (pd_next _ _ _ _ Hp) as (next & Hnext & Eg). split.
  - rewrite E. cbn. congruence.
  - apply (pd_replies _ _ _ _ Hp).
  - exists next. split; [done|]. rewrite E. cbn. congruence.
  - cbn in Hc. rewrite (pd_cards _ _ _ _ Hp) in Hc. exact (proj1 (Forall2_fmap_l _ _ _ _) Hc).
  - exists (project_settings env). eapply noted_valid; [exact Hn|exact Hv].
  - unfold read_board. by rewrite He.
Qed.
Lemma commit_fields settled env task writer existing changed board m w :
  commit settled env task writer existing changed board m w →
  rev (w_board w) = rev changed +w 1 ∧ validate_board (project_settings env) (w_board w) = Some (Ok ()) ∧ read_board w = w_board w.
Proof.
  intros [Hp%prepare_prepared Hv (m' & ws & Hf & _) He]. pose proof (withdrawals_noted env task existing (bump_rev board) m) as Hn.
  rewrite Hf in Hn. cbn in Hn. pose proof Hn as [_ E]. destruct (pd_board _ _ _ _ Hp) as [E1 E2]. split_and!.
  - rewrite E. cbn. by rewrite E2.
  - eapply noted_valid; [exact Hn|exact Hv].
  - unfold read_board. by rewrite He.
Qed.

(** *** Boards that are written whole *)

(** No file with several hard links was left half written. *)
Definition whole_write env : Prop := ∀ e b, written env ≠ WriteFailed e (TornContent b).
Lemma replace_board_cases env task board w w' r :
  whole_write env → replace_board (C := C) env task board w = Some (w', r) →
  read_board w' = read_board w ∨ on_file true false (read_board w) board w' ∧ rev (read_board w') = rev board.
Proof.
  intros Hw. unfold replace_board. destruct (require_reply_metadata_unchanged _ _) as [[]|] eqn:Em; cbn; [|intros [= <- _]; by left].
  unfold require_reply_metadata_unchanged in Em. destruct (_ && _) eqn:Em1; [|done]. apply andb_true_iff in Em1 as [Em1%bool_decide_eq_true _].
  unfold advance_card_attempt_generations. destruct (next_generation (read_board w)) as [next|] eqn:En; cbn; [|intros [= <- _]; by left].
  set (b1 := upd_replies _ _ _). destruct (validate_board _ _) as [[[]|]|] eqn:Ev; cbn; [|intros [= <- _]; by left|done].
  destruct (record_board_withdrawals _ _ _ _ _) as [[final m'] ws] eqn:Er.
  pose proof (withdrawals_noted env task (read_board w) b1 (w_questions w)) as Hn. rewrite Er in Hn. cbn in Hn. pose proof Hn as [Hc E].
  assert (∀ w1, w_board w1 = final → w_exists w1 = true → on_file true false (read_board w) board w1 ∧ rev (read_board w1) = rev board) as Hof.
  { intros w1 Eb He. assert (read_board w1 = final) as Erd by (unfold read_board; by rewrite He). split; [|by rewrite Erd, E].
    split; rewrite ?Eb; try (by rewrite E).
    - intros _. congruence.
    - exists next. split; [done|]. rewrite E. cbn. f_equal. by rewrite <- list_fmap_compose.
    - cbn in Hc. exact (proj1 (Forall2_fmap_l _ _ _ _) Hc).
    - exists (project_settings env). by eapply noted_valid.
    - by rewrite Erd. }
  unfold commit_board. destruct (written env) as [|e left_] eqn:Ew; [|destruct left_ as [| |b]]; cbn; intros [= <- <-].
  - right. by apply Hof.
  - by left.
  - right. by apply Hof.
  - by destruct (Hw e b).
Qed.
Lemma create_board_cases env task board w w' r :
  whole_write env → create_board (C := C) env task board w = Some (w', r) →
  read_board w' = read_board w ∨ w_exists w = false ∧ on_file true false (read_board w) board w' ∧ rev (read_board w') = rev board.
Proof.
  intros Hw. unfold create_board, validated_first. destruct (opened env) as [[]|]; cbn; [|intros [= <- _]; by left].
  destruct (validate_board _ _) as [[[]|]|]; cbn; [|intros [= <- _]; by left|done]. destruct (w_exists w); [intros [= <- _]; by left|].
  intros Hr. destruct (replace_board_cases _ _ _ _ _ _ Hw Hr) as [?|?]; [by left|by right].
Qed.
Lemma save_board_cases env task expected board w w' r :
  whole_write env → save_board_checked (C := C) env task expected board w = Some (w', r) →
  read_board w' = read_board w
  ∨ rev (read_board w) = expected ∧ on_file true false (read_board w) board w' ∧ rev (read_board w') = rev board.
Proof.
  intros Hw. unfold save_board_checked, validated_first. destruct (opened env) as [[]|]; cbn; [|intros [= <- _]; by left].
  destruct (validate_board _ _) as [[[]|]|]; cbn; [|intros [= <- _]; by left|done].
  case_bool_decide as Hr; [|intros [= <- _]; by left].
  intros Hrep. destruct (replace_board_cases _ _ _ _ _ _ Hw Hrep) as [?|?]; [by left|by right].
Qed.
Lemma update_board_on_file {T} env task writer pre (updater : _ → _ → _ → _ * result (_ * T) string) w w' r :
  whole_write env → update_board env task writer pre updater w = Some (w', r) →
  read_board w' = read_board w
  ∨ ∃ settled v changed board m, ran env task writer updater settled w w' v changed board m
      ∧ on_file false (is_bound writer) (read_board w) changed w'.
Proof.
  intros Hw Hu. apply update_board_cases in Hu. destruct r as [cm|e].
  - destruct Hu as (_ & changed & board & m & Hr & _). right. exists true, (c_value _ cm), changed, board, m.
    split; [done|]. destruct Hr as (b0 & _ & _ & Hc). by eapply commit_on_file.
  - destruct Hu as [?|[(e' & v & changed & board & m & _ & Hr)|(e' & b & Ht & _)]]; [by left| |by destruct (Hw e' b)].
    right. exists false, v, changed, board, m. split; [done|]. destruct Hr as (b0 & _ & _ & Hc). by eapply commit_on_file.
Qed.
End commits.

(** ** The board's transactions: runs

    What holds of every board that transactions produce, whatever their closures do: replies and
    generations stay the coordinator's, boards are valid, and the questions of work that ended are
    withdrawn. *)


Section runs.
Context {Value C : Type} `{MessageSerde C} `{ReplySerde C}.
Abbreviation TaskBoard := (@TaskBoard Value PlannerReply).
Abbreviation TxnEnv := (TxnEnv TaskBoard).
Abbreviation World := (World (Value := Value)).
Implicit Types (b existing changed board : TaskBoard) (c : BoardCard Value) (env : TxnEnv) (w : World) (id task : string).

(** One write of a board, a transaction of a writer whatever its closure, a new board or one that is saved as a
    whole, whether it commits or fails; or a change of the registry of questions. *)
Inductive txn task : BoardWriter → World → World → Prop :=
  | txn_update T env writer pre (updater : _ → _ → _ → _ * result (_ * T) string) w w' r :
      whole_write env → update_board env task writer pre updater w = Some (w', r) → txn task writer w w'
  | txn_create env writer board w w' r :
      whole_write env → create_board (C := C) env task board w = Some (w', r) → txn task writer w w'
  | txn_save env writer expected board w w' r :
      whole_write env → save_board_checked (C := C) env task expected board w = Some (w', r) → txn task writer w w'
  | txn_questions writer m w : txn task writer w (set_questions m w).

Lemma txn_cases task writer w w' :
  is_bound writer = false → txn task writer w w' →
  read_board w' = read_board w ∨ ∃ paused changed, on_file (C := C) paused false (read_board w) changed w'.
Proof.
  intros Hb Ht. destruct Ht as [T env writer pre upd w w' r Hw Hu|env writer board w w' r Hw Hu|env writer expected board w w' r Hw Hu|].
  - destruct (update_board_on_file _ _ _ _ _ _ _ _ Hw Hu) as [?|(settled & v & changed & board & m & _ & Hf)]; [by left|right].
    rewrite Hb in Hf. by exists false, changed.
  - destruct (create_board_cases _ _ _ _ _ _ Hw Hu) as [?|(_ & ? & _)]; [by left|right]. by exists true, board.
  - destruct (save_board_cases _ _ _ _ _ _ _ Hw Hu) as [?|(_ & ? & _)]; [by left|right]. by exists true, board.
  - by left.
Qed.

(** ** Every transaction *)

(** A loop that stops chats, each once: [P x] is what [x] calls for. *)
Lemma stop_fold {A} (f : list (string * string) → A → list (string * string)) (P : A → string → Prop) l acc :
  (∀ acc x, NoDup acc.*1 → NoDup (f acc x).*1 ∧ ∀ chat, chat ∈ (f acc x).*1 ↔ chat ∈ acc.*1 ∨ P x chat) →
  NoDup acc.*1 →
  NoDup (foldl f acc l).*1 ∧ ∀ chat, chat ∈ (foldl f acc l).*1 ↔ chat ∈ acc.*1 ∨ ∃ x, x ∈ l ∧ P x chat.
Proof.
  intros Hf. revert acc. induction l as [|x l IH]; intros acc Hnd; cbn [foldl].
  { split; [done|]. intros chat. split; [by left|]. by intros [?|(x & ?%elem_of_nil & _)]. }
  destruct (Hf acc x Hnd) as [Hn1 Hc1]. destruct (IH _ Hn1) as [Hn2 Hc2]. split; [done|]. intros chat. rewrite Hc2, Hc1.
  setoid_rewrite elem_of_cons. naive_solver.
Qed.
Lemma stop_snoc (acc : list (string * string)) chat id :
  NoDup acc.*1 → chat ∉ acc.*1 →
  NoDup (acc ++ [(chat, id)]).*1 ∧ ∀ x, x ∈ (acc ++ [(chat, id)]).*1 ↔ x ∈ acc.*1 ∨ x = chat.
Proof.
  intros Hnd Hin. rewrite fmap_app. change ([(chat, id)].*1) with [chat]. split.
  - apply NoDup_app. split_and!; [done| |apply NoDup_singleton]. by intros y Hy ->%list_elem_of_singleton.
  - intros x. by rewrite elem_of_app, list_elem_of_singleton.
Qed.

Lemma stop_none (acc : list (string * string)) (P : string → Prop) :
  NoDup acc.*1 → (∀ chat, ¬ P chat) → NoDup acc.*1 ∧ ∀ chat, chat ∈ acc.*1 ↔ chat ∈ acc.*1 ∨ P chat.
Proof. intros Hnd Hno. split; [done|]. intros chat. split; [by left|]. by intros [?|?%Hno]. Qed.

(** The agent of a card whose work was left is stopped if the new board has another agent at work on it. *)
Definition agent_stopped existing board (chat id : string) : Prop :=
  replaced_agent chat id board = true
  ∧ ∃ c, c ∈ cards existing ∧ card_id c = id ∧ is_doing c = true ∧ left_agent c board = true.
Lemma elem_of_left_cards existing board id :
  id ∈ left_cards existing board ↔ ∃ c, c ∈ cards existing ∧ card_id c = id ∧ is_doing c = true ∧ left_agent c board = true.
Proof.
  unfold left_cards. rewrite list_elem_of_fmap. split.
  - intros (c & -> & [[Hd Hl]%andb_true_iff Hin]%list_elem_of_filter). by exists c.
  - intros (c & Hin & <- & Hd & Hl). exists c. split; [done|]. apply list_elem_of_filter. by rewrite Hd, Hl.
Qed.
Lemma stopped_chats_spec task running existing board :
  NoDup (stopped_chats task running existing board).*1
  ∧ ∀ chat, chat ∈ (stopped_chats task running existing board).*1 ↔
      (∃ c, c ∈ cards existing ∧ agent_chat_id c = Some chat ∧ agent_stopped existing board chat (card_id c))
      ∨ ∃ p meta id, p ∈ running ∧ rp_terminal p = false ∧ rp_chat_id p = Some chat ∧ rp_meta p = Some meta
          ∧ tm_task_id meta = task ∧ tm_role meta = "agents"%string ∧ tm_card_id meta = Some id ∧ agent_stopped existing board chat id.
Proof.
  unfold stopped_chats, agent_stopped. cbv zeta. setoid_rewrite <- elem_of_left_cards. set (changed := left_cards existing board).
  destruct (bool_decide (changed = [])) eqn:Ec.
  { apply bool_decide_eq_true in Ec. rewrite Ec. split; [constructor|]. intros chat. split; [by intros ?%elem_of_nil|].
    by intros [(c & _ & _ & _ & ?%elem_of_nil)|(p & meta & id & _ & _ & _ & _ & _ & _ & _ & _ & ?%elem_of_nil)]. }
  clear Ec. clearbody changed.
  destruct (stop_fold (stop_agent board changed)
    (λ c chat, agent_chat_id c = Some chat ∧ replaced_agent chat (card_id c) board = true ∧ card_id c ∈ changed) (cards existing) []) as [Hn1 Hc1];
    [|constructor|].
  { intros acc c Hnd. unfold stop_agent. destruct (agent_chat_id c) as [x|]; [|apply stop_none; [done|by intros chat (? & _)]].
    case_bool_decide as E1; cbn [andb]; [|apply stop_none; [done|by intros chat (_ & _ & ?)]].
    destruct (replaced_agent x (card_id c) board) eqn:E2; cbn [andb]; [|apply stop_none; [done|intros chat ([= <-] & ? & _); congruence]].
    case_bool_decide as Hx; cbn [negb]; [split; [done|]; intros chat; split; [by left|by intros [?|([= <-] & _)]]|].
    destruct (stop_snoc acc x (card_id c) Hnd Hx) as [? Hs]. split; [done|]. intros chat. rewrite Hs.
    split; [intros [?| ->]; [by left|right; by split_and!]|]. intros [?|([= <-] & _)]; [by left|by right]. }
  destruct (stop_fold (stop_owner task board changed)
    (λ p chat, ∃ meta id, rp_terminal p = false ∧ rp_chat_id p = Some chat ∧ rp_meta p = Some meta
       ∧ tm_task_id meta = task ∧ tm_role meta = "agents"%string ∧ tm_card_id meta = Some id
       ∧ replaced_agent chat id board = true ∧ id ∈ changed) running (foldl (stop_agent board changed) [] (cards existing))) as [Hn2 Hc2]; [|done|].
  { intros acc p Hnd. unfold stop_owner. destruct (rp_terminal p) eqn:E0; [apply stop_none; [done|by intros chat (? & ? & ? & _)]|].
    destruct (rp_chat_id p) as [x|] eqn:Ex; [|apply stop_none; [done|by intros chat (? & ? & _ & ? & _)]].
    case_bool_decide as Hx; [split; [done|]; intros chat; split; [by left|by intros [?|(? & ? & _ & [= <-] & _)]]|].
    destruct (rp_meta p) as [meta|] eqn:Em; [|apply stop_none; [done|by intros chat (? & ? & _ & _ & ? & _)]].
    case_bool_decide as E1; cbn [andb]; [|apply stop_none; [done|intros chat (? & ? & _ & _ & [= <-] & ? & _); done]].
    case_bool_decide as E2; [|apply stop_none; [done|intros chat (? & ? & _ & _ & [= <-] & _ & ? & _); done]].
    destruct (tm_card_id meta) as [id|] eqn:E3; [|apply stop_none; [done|intros chat (? & ? & _ & _ & [= <-] & _ & _ & ? & _); congruence]].
    case_bool_decide as E4; cbn [andb]; [|apply stop_none; [done|intros chat (? & id' & _ & _ & [= <-] & _ & _ & E & _ & ?); congruence]].
    destruct (replaced_agent x id board) eqn:E5; [|apply stop_none; [done|intros chat (? & id' & _ & [= <-] & [= <-] & _ & _ & E & ? & _); congruence]].
    destruct (stop_snoc acc x id Hnd Hx) as [? Hs]. split; [done|]. intros chat. rewrite Hs.
    split; [intros [?| ->]; [by left|right; exists meta, id; by split_and!]|]. intros [?|(? & ? & _ & [= <-] & _)]; [by left|by right]. }
  split; [done|]. intros chat. rewrite Hc2, Hc1. split.
  - intros [[?%elem_of_nil|(c & ? & ? & ? & ?)]|(p & ? & meta & id & ? & ? & ? & ? & ? & ? & ? & ?)]; [done|left; by exists c|right; exists p, meta, id; by split_and!].
  - intros [(c & ? & ? & ? & ?)|(p & meta & id & ? & ? & ? & ? & ? & ? & ? & ? & ?)]; [left; right; by exists c|right; exists p; split; [done|]; exists meta, id; by split_and!].
Qed.

(** ** The marks of replies *)

Lemma cut_prefix_Some p s r : cut_prefix p s = Some r ↔ s = p +:+ r.
Proof.
  revert s. induction p as [|a p IH]; intros [|b s]; cbn.
  - split; [by intros [= <-]|by intros ->].
  - split; [by intros [= <-]|by intros ->].
  - done.
  - case_bool_decide as E; [subst; rewrite IH; split; [by intros ->|by intros [= ->]]|]. split; [done|by intros [= ]].
Qed.
Lemma claims_reply_untrusted m : claims_reply ("[UNTRUSTED STATUS] " +:+ m) = false.
Proof. reflexivity. Qed.

Lemma claims_reply_note u : is_note u → claims_reply (su_message u) = false.
Proof.
  unfold is_note, has_prefix. intros [r ->%cut_prefix_Some]%bool_decide_eq_true. reflexivity.
Qed.
(** What a transaction of another writer than the bound planner leaves as a mark was there before. *)
Lemma demote_update_claims old u :
  claims_reply (su_message (demote_update old u)) = true → old = Some (demote_update old u).
Proof.
  unfold demote_update, same_update. destruct (claims_reply (su_message u)) eqn:Ec.
  - destruct old as [[t m]|]; cbn.
    + case_bool_decide as Ht; case_bool_decide as Hm; cbn; try (by rewrite claims_reply_untrusted).
      intros _. destruct u. cbn in *. by subst.
    + by rewrite claims_reply_untrusted.
  - rewrite andb_false_r. by rewrite Ec.
Qed.

Definition marks_from existing board : Prop :=
  ∀ c' u, c' ∈ cards board → u ∈ status_updates c' → claims_reply (su_message u) = true →
  ∃ c, c ∈ cards existing ∧ card_id c = card_id c' ∧ u ∈ status_updates c.
Lemma on_file_marks paused existing changed w : on_file (C := C) paused false existing changed w → marks_from existing (w_board w).
Proof.
  intros Hf c' u Hin Hu Hcl. destruct (Forall2_in_r _ _ _ _ (of_cards _ _ _ _ _ Hf) Hin) as (c & Hcin & Ht).
  pose proof (treated_id _ _ _ _ _ Ht) as Hid. destruct Ht as (notes & Hn & ->).
  assert (u ∈ status_updates (demote_card existing c) ++ notes) as [Hu'|Hu']%elem_of_app by (by destruct paused).
  - apply list_elem_of_lookup_1 in Hu' as [i Hi]. cbn in Hi. rewrite list_lookup_imap in Hi. apply fmap_Some in Hi as (u0 & _ & ->).
    apply demote_update_claims in Hcl. destruct (get_card (card_id c) existing) as [old|] eqn:Eo; [|done]. cbn in Hcl.
    apply find_card_Some in Eo as [? ?]. exists old. split_and!; [done|by rewrite Hid|]. eapply list_elem_of_lookup_2. exact Hcl.
  - rewrite Forall_forall in Hn. apply Hn, claims_reply_note in Hu'. congruence.
Qed.

Lemma authorize_fields env writer existing b0 :
  authorize env writer existing = Ok b0 →
  planner_replies b0 = planner_replies existing ∧ rev b0 = rev existing ∧ cards b0 = cards existing
  ∧ card_attempt_generations b0 = card_attempt_generations existing.
Proof.
  unfold authorize, authorize_owner. destruct writer.
  - by intros [= <-].
  - destruct (owner_chat_id existing); [case_bool_decide; by intros [= <-]|by intros [= <-]].
  - destruct (authorize_reviewer _ _ _); by intros [= <-].
  - destruct (current_actor env); [case_bool_decide; by intros [= <-]|by intros [= <-]].
Qed.

(** C12. Whatever writers other than the bound planner write, with closures of transactions, a new board or a
    whole board that is saved, and whether the write commits or fails (files with several hard links, which
    are written in place, apart): the replies of a board are those the bound planner recorded, and what a card's
    status updates mark as a reply was marked before, on the same card, with the same time and text. *)
Theorem reply_marks_are_authentic task w w' :
  rtc (λ x y, ∃ writer, is_bound writer = false ∧ txn task writer x y) w w' →
  planner_replies (read_board w') = planner_replies (read_board w)
  ∧ ∀ c' u, c' ∈ cards (read_board w') → u ∈ status_updates c' → claims_reply (su_message u) = true →
      ∃ c, c ∈ cards (read_board w) ∧ card_id c = card_id c' ∧ u ∈ status_updates c.
Proof.
  induction 1 as [w|w1 w2 w3 (writer & Hw & Ht) _ [IHr IHm]]; [split; [done|]; intros c' u ? ? _; by exists c'|].
  apply txn_cases in Ht as [E|(paused & changed & Hf)]; [by rewrite <- E| |done].
  rewrite (of_read _ _ _ _ _ Hf) in IHr, IHm. split.
  - rewrite IHr, (of_replies _ _ _ _ _ Hf). by apply Hf.
  - intros c' u Hin Hu Hcl. destruct (IHm c' u Hin Hu Hcl) as (c2 & Hc2 & Hid2 & Hu2).
    destruct (on_file_marks _ _ _ _ Hf c2 u Hc2 Hu2 Hcl) as (c1 & ? & Hid1 & ?). exists c1. by rewrite <- Hid2, Hid1.
Qed.

(** ** Generations of attempts *)

Definition attempt_key c := (assignee c, agent_chat_id c, started_at c, column c).
Lemma same_attempt_key c c' : same_attempt c c' = true ↔ attempt_key c = attempt_key c'.
Proof.
  unfold same_attempt, attempt_key. rewrite !andb_true_iff, !bool_decide_eq_true. split; [intros [[[-> ->] ->] ->]; done|].
  intros [= -> -> -> ->]. done.
Qed.
Definition generation_of b id : N := default 0 (card_attempt_generations b !! id).

Lemma next_generation_above existing next :
  next_generation existing = Some next →
  rev existing < next ∧ rev existing < u64_max ∧ ∀ id g, card_attempt_generations existing !! id = Some g → g < next.
Proof.
  unfold next_generation. cbv zeta. destruct (N.leb_spec u64_max (foldr N.max (rev existing) (generations existing))) as [?|Hlt]; [done|].
  intros [= <-]. assert (∀ l r, r ≤ foldr N.max r l ∧ Forall (λ g, g ≤ foldr N.max r l) l) as Hmax.
  { intros l r. induction l as [|g l [IH1 IH2]]; cbn; [split; [lia|constructor]|]. split; [lia|]. constructor; [lia|].
    eapply Forall_impl; [exact IH2|]. cbn. intros. lia. }
  destruct (Hmax (generations existing) (rev existing)) as [H1 H2]. split_and!; [lia|lia|]. intros id g Hg.
  rewrite Forall_forall in H2. specialize (H2 g). enough (g ∈ generations existing) as Hin by (specialize (H2 Hin); lia).
  unfold generations. apply elem_of_app. left. apply list_elem_of_fmap. exists (id, g). split; [done|]. by apply elem_of_map_to_list.
Qed.

Lemma valid_ids settings b : validate_board (C := C) settings b = Some (Ok ()) → NoDup (card_id <$> cards b).
Proof.
  unfold validate_board. destruct (_ || _); [done|]. intros [[? _ _] _]%validate_for_write_Ok. done.
Qed.

(** A card on file has the attempt it had before with its generation, or a new generation. *)
Lemma on_file_generation paused bound existing changed w id c' :
  on_file (C := C) paused bound existing changed w → get_card id (w_board w) = Some c' →
  (∃ c, get_card id existing = Some c ∧ attempt_key c = attempt_key c' ∧ generation_of (w_board w) id = generation_of existing id)
  ∨ (rev existing < generation_of (w_board w) id).
Proof.
  intros Hof Hg. pose proof (of_cards _ _ _ _ _ Hof) as Hf. destruct (of_next _ _ _ _ _ Hof) as (next & Hnext & Egen).
  destruct (of_valid _ _ _ _ _ Hof) as [settings Hv].
  pose proof (Forall2_find _ id _ _ (treated_id paused bound existing) Hf) as Ho. unfold get_card in Hg. rewrite Hg in Ho.
  inversion Ho as [c c'' Ht Ec E|]; subst c''. symmetry in Ec. apply find_card_Some in Ec as [Hcin Hid].
  assert (generation_of (w_board w) id = card_generation existing next c) as ->.
  { unfold generation_of. rewrite Egen. unfold set_generations.
    rewrite (foldl_insert_lookup fst snd _ _ id (card_generation existing next c)).
    - rewrite bool_decide_true; [done|]. rewrite <- list_fmap_compose. apply list_elem_of_fmap. by exists c.
    - intros p (x & -> & Hx)%list_elem_of_fmap Hxid. cbn in Hxid |- *. f_equal.
      pose proof (valid_ids _ _ Hv) as Hnd. rewrite (Forall2_ids _ _ _ (treated_id paused bound existing) Hf) in Hnd.
      apply list_elem_of_lookup in Hx as [i Hi]. apply list_elem_of_lookup in Hcin as [j Hj].
      assert (i = j) as ->; [|congruence]. apply (NoDup_lookup (card_id <$> cards changed) _ _ id Hnd); rewrite list_lookup_fmap, ?Hi, ?Hj; cbn; congruence. }
  unfold card_generation. rewrite Hid.
  assert (attempt_key c' = attempt_key c) as Ek.
  { destruct Ht as (notes & _ & ->). pose proof (proj1 (proj2 (demoted_same bound existing c))) as Hs. apply same_attempt_key in Hs. rewrite Hs. by destruct paused. }
  destruct (get_card id existing) as [old|] eqn:Eo; [|right; by apply next_generation_above].
  destruct (same_attempt old c) eqn:Es; [|right; by apply next_generation_above].
  left. exists old. apply same_attempt_key in Es. split_and!; [done|congruence|done].
Qed.

(** A closure that leaves the revision to the coordinator. *)
Definition keeps_rev {T} (updater : TaskBoard → bool → Entries → Entries * result (TaskBoard * T) string) : Prop :=
  ∀ b self m m' b' v, updater b self m = (m', Ok (b', v)) → rev b' = rev b.
(** Writes by which the revision grows: transactions whose closures leave it alone, new boards, and whole boards
    saved with a higher revision than the one they replace. *)
Inductive steady_txn task : World → World → Prop :=
  | steady_update T env writer pre (updater : _ → _ → _ → _ * result (_ * T) string) w w' r :
      keeps_rev updater → whole_write env → update_board env task writer pre updater w = Some (w', r) → steady_txn task w w'
  | steady_create env board w w' r :
      whole_write env → create_board (C := C) env task board w = Some (w', r) → steady_txn task w w'
  | steady_save env expected board w w' r :
      expected < rev board → whole_write env → save_board_checked (C := C) env task expected board w = Some (w', r) → steady_txn task w w'
  | steady_questions m w : steady_txn task w (set_questions m w).

Lemma ran_rev {T} env task writer (updater : _ → _ → _ → _ * result (_ * T) string) settled w w' v changed board m :
  keeps_rev updater → ran (C := C) env task writer updater settled w w' v changed board m →
  rev (read_board w') = rev (read_board w) + 1 ∧ validate_board (project_settings env) (read_board w') = Some (Ok ()).
Proof.
  intros Hk (b0 & Ha & Hup & Hc). destruct (commit_fields _ _ _ _ _ _ _ _ _ Hc) as (E1 & Hv & ->). split; [|done].
  apply Hk in Hup. apply authorize_fields in Ha as (_ & Er & _). rewrite E1, Hup, Er. apply wadd64_small.
  pose proof (prepare_prepared _ _ _ _ (cm_prepare _ _ _ _ _ _ _ _ _ Hc)) as Hp. destruct (pd_next _ _ _ _ Hp) as (next & Hn & _).
  apply next_generation_above in Hn as (_ & ? & _). lia.
Qed.
Lemma steady_cases task w w' :
  steady_txn task w w' →
  read_board w' = read_board w
  ∨ ∃ paused bound changed, on_file (C := C) paused bound (read_board w) changed w' ∧ rev (read_board w) ≤ rev (read_board w').
Proof.
  intros Ht. destruct Ht as [T env writer pre upd w w' r Hk Hw Hu|env board w w' r Hw Hu|env expected board w w' r Hlt Hw Hu|].
  - destruct (update_board_on_file _ _ _ _ _ _ _ _ Hw Hu) as [?|(settled & v & changed & board & m & Hr & Hf)]; [by left|right].
    exists false, (is_bound writer), changed. split; [done|]. destruct (ran_rev _ _ _ _ _ _ _ _ _ _ _ Hk Hr) as [-> _]. lia.
  - destruct (create_board_cases _ _ _ _ _ _ Hw Hu) as [?|(Hx & ? & ->)]; [by left|right]. exists true, false, board. split; [done|].
    unfold read_board. rewrite Hx. cbn. lia.
  - destruct (save_board_cases _ _ _ _ _ _ _ Hw Hu) as [?|(-> & ? & ->)]; [by left|right]. exists true, false, board. split; [done|lia].
  - by left.
Qed.

(** C11. A transaction always answers.  A committed board passes validation again, has the next revision if the
    closure left the revision alone, shows pauses and calls for attention on cards in work only, and the chats
    it stops are, once each, the agents of cards whose work was left, or went to another agent, and the chats with
    a running process that work as agents on such a card.  A refused transaction leaves the board as it
    was, unless writing the file failed after the new content was in place (then the whole new board is on
    file, as valid as a committed one) or while a file with several hard links was written in place. *)
Theorem transactions_are_atomic {T} env task writer pre (updater : _ → _ → _ → _ * result (_ * T) string) w :
  ∃ w' r, update_board env task writer pre updater w = Some (w', r)
  ∧ let new_board :=
      validate_board (project_settings env) (read_board w') = Some (Ok ())
      ∧ (keeps_rev updater → rev (read_board w') = rev (read_board w) + 1)
      ∧ (∀ c, c ∈ cards (read_board w') → is_doing c = false → paused_at c = None ∧ paused_by c = None ∧ attention c = None) in
    match r with
    | Err _ =>
        read_board w' = read_board w
        ∨ (∃ e, written env = WriteFailed e NewContent) ∧ new_board
        ∨ (∃ e b, written env = WriteFailed e (TornContent b) ∧ read_board w' = b)
    | Ok cm =>
        written env = Durable ∧ c_board _ cm = read_board w' ∧ new_board
        ∧ NoDup (c_stopped _ cm).*1
        ∧ (∀ chat, chat ∈ (c_stopped _ cm).*1 ↔
             (∃ c, c ∈ cards (read_board w) ∧ agent_chat_id c = Some chat ∧ agent_stopped (read_board w) (read_board w') chat (card_id c))
             ∨ ∃ p meta id, p ∈ processes env ∧ rp_terminal p = false ∧ rp_chat_id p = Some chat ∧ rp_meta p = Some meta
                 ∧ tm_task_id meta = task ∧ tm_role meta = "agents"%string ∧ tm_card_id meta = Some id
                 ∧ agent_stopped (read_board w) (read_board w') chat id)
    end.
Proof.
  destruct (update_board_total env task writer pre updater w) as [[w' r] Hu]; exists w', r; split; [done|].
  apply update_board_cases in Hu.
  assert (∀ settled v changed board m, ran env task writer updater settled w w' v changed board m →
    validate_board (project_settings env) (read_board w') = Some (Ok ())
    ∧ (keeps_rev updater → rev (read_board w') = rev (read_board w) + 1)
    ∧ (∀ c, c ∈ cards (read_board w') → is_doing c = false → paused_at c = None ∧ paused_by c = None ∧ attention c = None)) as Hnew.
  { intros settled v changed board m Hr. pose proof Hr as (b0 & _ & _ & Hc). destruct (commit_fields _ _ _ _ _ _ _ _ _ Hc) as (_ & Hv & Eb).
    split_and!; [by rewrite Eb|intros Hk; by eapply ran_rev|]. rewrite Eb. intros c Hin Hd.
    destruct (Forall2_in_r _ _ _ _ (of_cards _ _ _ _ _ (commit_on_file _ _ _ _ _ _ _ _ _ Hc)) Hin) as (x & _ & n & _ & ->).
    unfold is_doing in Hd. cbn in Hd |- *. unfold is_doing. cbn. by rewrite Hd. }
  destruct r as [cm|e].
  - destruct Hu as (Hd & changed & board & m & Hr & Ec & -> & _). pose proof Hr as (b0 & _ & _ & Hc).
    destruct (commit_fields _ _ _ _ _ _ _ _ _ Hc) as (_ & _ & Eb).
    split; [done|]. split; [congruence|]. split; [by eapply Hnew|]. rewrite Eb. apply stopped_chats_spec.
  - destruct Hu as [?|[(e' & v & changed & board & m & Hw & Hr)|?]]; [by left| |by right; right].
    right. left. split; [by exists e'|]. by eapply Hnew.
Qed.

Lemma run_generations task w w' :
  rtc (steady_txn task) w w' →
  rev (read_board w) ≤ rev (read_board w')
  ∧ ∀ id c', get_card id (read_board w') = Some c' →
      (∃ c, get_card id (read_board w) = Some c ∧ attempt_key c = attempt_key c'
            ∧ generation_of (read_board w') id = generation_of (read_board w) id)
      ∨ rev (read_board w) < generation_of (read_board w') id.
Proof.
  revert w'. apply rtc_ind_r; [split; [done|]; intros id c' Hc; left; by exists c'|]. intros w2 w3 _ Hs [IHr IH].
  apply steady_cases in Hs as [E|(paused & bound & changed & Hf & Er)]; [by rewrite E|].
  rewrite (of_read _ _ _ _ _ Hf) in Er |- *. split; [lia|]. intros id c' Hg.
  destruct (on_file_generation _ _ _ _ _ _ _ Hf Hg) as [(c & Hg2 & Hk & ->)|Hlt]; [|right; lia].
  destruct (IH id c Hg2) as [(c0 & ? & ? & ?)|?]; [left; exists c0; split_and!; congruence|by right].
Qed.

(** C13. A generation names one attempt: along any writes by which the revision grows (transactions whose
    closures leave the revision alone, new boards, boards saved with a higher revision; no torn file), deletions
    and new cards of the same id included, a card that has the same generation as before has the same assignee, chat,
    start and column, if that generation was not above the board's revision. *)
Theorem generations_name_attempts task w w' id c c' :
  rtc (steady_txn task) w w' →
  get_card id (read_board w) = Some c → get_card id (read_board w') = Some c' →
  generation (reply_attempt (read_board w) c) = generation (reply_attempt (read_board w') c') →
  generation (reply_attempt (read_board w) c) ≤ rev (read_board w) →
  assignee c = assignee c' ∧ agent_chat_id c = agent_chat_id c' ∧ started_at c = started_at c' ∧ column c = column c'.
Proof.
  intros Hr Hc Hc' Hg Hb. destruct (run_generations _ _ _ Hr) as [_ Hrun].
  cbn in Hg, Hb. pose proof (find_card_Some _ _ _ Hc) as [_ Hid]. pose proof (find_card_Some _ _ _ Hc') as [_ Hid'].
  rewrite Hid in Hb. rewrite Hid, Hid' in Hg. destruct (Hrun id c' Hc') as [(c0 & Hc0 & Hk & _)|Hlt].
  - rewrite Hc in Hc0. injection Hc0 as <-. by injection Hk.
  - exfalso. unfold generation_of in Hlt. rewrite <- Hg in Hlt. lia.
Qed.
End runs.
