(* ===== verification/BoardWithdraw.v ===== *)
(** * The board's transactions: withdrawn questions

    When the work on a card ends (it leaves the column of cards in work or another agent takes it), the
    questions its agent asked are withdrawn, on the card and in the registry. *)

From Stdlib Require Import Ascii.
From stdpp Require Import gmap strings list pretty.
From S2P Require Import Prelude RustStr Settings BoardTypes Outcome ActiveContext Delivery Question QuestionProps Board BoardDeps BoardProps PlannerQna BoardTxn BoardRuns.
Local Open Scope N_scope.

(** ** A note is read back *)

Definition without (a : ascii) (s : string) : Prop := a ∉ String.list_ascii_of_string s.
Lemma without_cons a b s : without a (String b s) ↔ a ≠ b ∧ without a s.
Proof. unfold without. cbn. apply not_elem_of_cons. Qed.
Lemma question_id_without id : is_question_id id = true → id ≠ ""%string ∧ without ","%char id ∧ without "]"%char id.
Proof.
  unfold is_question_id. intros [Hl Hc]%andb_true_iff. apply bool_decide_eq_true in Hl. rewrite forallb_elem in Hc.
  split_and!; [by intros ->|by intros Hin%Hc|by intros Hin%Hc].
Qed.

Lemma split_once_app a s t : without a s → split_once a (s +:+ String a t) = Some (s, t).
Proof.
  induction s as [|b s IH].
  - intros _. change ((if bool_decide (a = a) then Some (EmptyString, t) else (λ p, (String a p.1, p.2)) <$> split_once a t) = Some (EmptyString, t)).
    by rewrite bool_decide_true.
  - intros [Hne Hs]%without_cons.
    change ((if bool_decide (b = a) then Some (EmptyString, s +:+ String a t)
             else (λ p, (String b p.1, p.2)) <$> split_once a (s +:+ String a t)) = Some (String b s, t)).
    rewrite bool_decide_false by congruence. by rewrite IH.
Qed.
Lemma split_at_cons a b s :
  split_at_char a (String b s) =
    if bool_decide (b = a) then EmptyString :: split_at_char a s
    else match split_at_char a s with piece :: rest => String b piece :: rest | [] => [String b EmptyString] end.
Proof. done. Qed.
Lemma split_at_none a s : without a s → split_at_char a s = [s].
Proof.
  induction s as [|b s IH]; [done|]. intros [Hne Hs]%without_cons. rewrite split_at_cons, bool_decide_false by congruence. by rewrite IH.
Qed.
Lemma split_at_app a s t : without a s → split_at_char a (s +:+ String a t) = s :: split_at_char a t.
Proof.
  induction s as [|b s IH].
  - intros _. change ("" +:+ String a t) with (String a t). by rewrite split_at_cons, bool_decide_true.
  - intros [Hne Hs]%without_cons. change (String b s +:+ String a t) with (String b (s +:+ String a t)).
    rewrite split_at_cons, bool_decide_false by congruence. by rewrite IH.
Qed.

Lemma string_app_assoc (a b c : string) : (a +:+ b) +:+ c = a +:+ (b +:+ c).
Proof. induction a as [|x a IH]; [done|]. change (String x ((a +:+ b) +:+ c) = String x (a +:+ (b +:+ c))). by rewrite IH. Qed.
Lemma foldl_join (sep s t : string) l :
  foldl (λ acc y, acc +:+ sep +:+ y) (s +:+ t) l = s +:+ foldl (λ acc y, acc +:+ sep +:+ y) t l.
Proof. revert t. induction l as [|z l IH]; intros t; [done|]. cbn [foldl]. by rewrite string_app_assoc, IH. Qed.
Lemma join_cons x y l : join "," (x :: y :: l) = x +:+ String ","%char (join "," (y :: l)).
Proof.
  unfold join. cbn [foldl]. rewrite foldl_join. f_equal. by rewrite (foldl_join "," "," y l).
Qed.
Lemma split_join ids : ids ≠ [] → Forall (without ","%char) ids → split_at_char ","%char (join "," ids) = ids.
Proof.
  intros Hne. induction 1 as [|x ids Hx Hids IH]; [done|]. destruct ids as [|y ids].
  - cbn. by apply split_at_none.
  - rewrite join_cons, split_at_app by done. by rewrite IH.
Qed.
Lemma without_app a s t : without a s → without a t → without a (s +:+ t).
Proof.
  induction s as [|b s IH]; [done|]. change (String b s +:+ t) with (String b (s +:+ t)). rewrite !without_cons. naive_solver.
Qed.
Lemma without_join a ids : a ≠ ","%char → Forall (without a) ids → without a (join "," ids).
Proof.
  intros Hne. induction 1 as [|x ids Hx Hids IH]; [by intros ?%elem_of_nil|]. destruct ids as [|y ids]; [done|].
  rewrite join_cons. apply without_app; [done|]. by apply without_cons.
Qed.
Lemma cut_prefix_app p s : cut_prefix p (p +:+ s) = Some s.
Proof. by apply cut_prefix_Some. Qed.

Definition note_of (ids : list string) : string :=
  WITHDRAWN_PREFIX +:+ join "," ids +:+ "] Questions withdrawn when the agent finished".
Lemma withdrawn_by_note ids : Forall (λ id, is_question_id id = true) ids → ids ≠ [] → withdrawn_by (note_of ids) = ids.
Proof.
  intros Hids Hne. rewrite Forall_forall in Hids.
  assert (Forall (without ","%char) ids ∧ Forall (without "]"%char) ids) as [Hc Hb].
  { split; apply Forall_forall; intros id Hin%Hids; by apply question_id_without. }
  unfold withdrawn_by, note_of. rewrite cut_prefix_app. cbn [mbind option_bind].
  change ("] Questions withdrawn when the agent finished") with (String "]"%char " Questions withdrawn when the agent finished").
  rewrite split_once_app by (by apply without_join). rewrite split_join by done.
  apply filter_every. intros id Hin%Hids. by apply question_id_without.
Qed.

Lemma elem_of_dedup x l : x ∈ dedup l ↔ x ∈ l.
Proof.
  induction l as [|y l IH]; [done|]. destruct l as [|z l]; [done|]. cbn [dedup]. case_bool_decide as E.
  - subst. rewrite IH, !elem_of_cons. tauto.
  - rewrite !elem_of_cons in *. tauto.
Qed.

Section withdraw.
Context {Value C : Type} `{MessageSerde C} `{ReplySerde C}.
Abbreviation TaskBoard := (@TaskBoard Value PlannerReply).
Abbreviation TxnEnv := (TxnEnv TaskBoard).
Abbreviation World := (World (Value := Value)).
Implicit Types (b existing changed board : TaskBoard) (c card previous : BoardCard Value) (env : TxnEnv) (w : World)
  (id task : string) (m : Entries).

(** ** Cards *)

Lemma withdrawn_ids_noted c c' id : noted c c' → id ∈ withdrawn_ids c → id ∈ withdrawn_ids c'.
Proof. intros (n & _ & ->). unfold withdrawn_ids. cbn. rewrite bind_app, elem_of_app. by left. Qed.
Lemma note_asks_nothing u : is_note u → parse_ask (su_message u) = None.
Proof. unfold is_note, has_prefix. by intros [r ->%cut_prefix_Some]%bool_decide_eq_true. Qed.
Lemma asked_ids_noted c c' : noted c c' → asked_ids c' = asked_ids c.
Proof.
  intros (n & Hn & ->). unfold asked_ids. cbn [status_updates set_status_updates]. rewrite omap_app. rewrite <- (app_nil_r (omap _ (status_updates c))) at 2. f_equal.
  induction Hn as [|u n Hu _ IH]; [done|]. cbn [omap list_omap]. by rewrite (note_asks_nothing u Hu).
Qed.
Lemma asked_id_ok c id : id ∈ asked_ids c → is_question_id id = true.
Proof.
  unfold asked_ids. intros (u & _ & Hu)%list_elem_of_omap. unfold parse_ask, parse_status_id in Hu.
  destruct (cut_prefix _ _) as [rest|]; [cbn in Hu|done]. destruct (split_once _ rest) as [[i t]|]; [cbn in Hu|done].
  destruct (is_question_id i) eqn:E; [|done]. by injection Hu as <-.
Qed.
Lemma canonical_same settings b b' id :
  planner_replies b' = planner_replies b → canonical_reply_ids settings b' id = canonical_reply_ids settings b id.
Proof. intros E. unfold canonical_reply_ids, reply_receipt, reply_row. by rewrite E. Qed.
Lemma work_ended_noted previous b b' : noted_board b b' → work_ended previous b' = work_ended previous b.
Proof.
  intros [Hf _]. unfold work_ended, get_card. pose proof (Forall2_find noted (card_id previous) _ _ noted_id Hf) as Ho.
  by destruct Ho as [x y (n & _ & ->)|].
Qed.

(** ** The registry *)

(** Entries are kept under their ids, and the questions of agents have ids as [make_question_id] makes them. *)
Definition well_keyed m : Prop := ∀ id q, m !! id = Some q → q_id q = id ∧ (q_kind q = BoardPlanner → is_question_id id = true).
(** A question that an agent asked and that is open. *)
Definition open_for (by_ : string) m id : Prop :=
  ∃ q, m !! id = Some q ∧ q_pending q = true ∧ q_kind q = BoardPlanner ∧ asker q = by_.

Lemma expire_twice at_ m : expire_locked at_ (expire_locked at_ m) = expire_locked at_ m.
Proof.
  apply map_eq. intros id. rewrite !expire_lookup. destruct (m !! id) as [q|]; [|done]. cbn. f_equal.
  destruct (question_expiry_cases at_ q) as [E|(_ & _ & [[-> _]|(d & _ & ->)])]; [by rewrite !E|done..].
Qed.
Lemma expire_kept at_ q : q_pending (expire_entry at_ q) = true → expire_entry at_ q = q.
Proof. apply expire_entry_terms. Qed.
Lemma expire_open at_ by_ m id : open_for by_ (expire_locked at_ m) id → open_for by_ m id.
Proof.
  intros (q & Hq & Hp & Hk & Ha). rewrite expire_lookup in Hq. apply fmap_Some in Hq as (q0 & Hq0 & ->).
  pose proof (expire_kept _ _ Hp) as E. rewrite E in *. by exists q0.
Qed.
Lemma expire_fields at_ q : q_id (expire_entry at_ q) = q_id q ∧ q_kind (expire_entry at_ q) = q_kind q.
Proof. destruct (question_expiry_cases at_ q) as [->|(_ & _ & [[-> _]|(d & _ & ->)])]; done. Qed.
Lemma expire_keyed at_ m : well_keyed m → well_keyed (expire_locked at_ m).
Proof.
  intros Hk id q Hq. rewrite expire_lookup in Hq. apply fmap_Some in Hq as (q0 & Hq0 & ->). destruct (expire_fields at_ q0) as [-> ->].
  by apply Hk.
Qed.

(** *** Recording *)

Definition closed_by (at_ : N) m id : Prop := ∃ q, m !! id = Some q ∧ q_pending (expire_entry at_ q) = false.
Lemma not_still_open at_ m m' id :
  m' = m ∨ m' = expire_locked at_ m → still_open m' id = false → closed_by at_ m id.
Proof.
  unfold still_open. intros Hm' Ho. destruct (m' !! id) as [q|] eqn:E; [|done].
  destruct Hm' as [-> | ->].
  - exists q. split; [done|]. destruct (q_pending (expire_entry at_ q)) eqn:Ep; [|done]. rewrite (expire_kept _ _ Ep) in Ep. congruence.
  - rewrite expire_lookup in E. apply fmap_Some in E as (q0 & Hq0 & ->). by exists q0.
Qed.

Record recorded env task (replied : list string) card m m' card' (ids : list string) : Prop := {
  rc_registry : m' = expire_locked (now env) m;
  rc_noted : noted card card';
  rc_asked id : id ∈ asked_ids card → id ∈ withdrawn_ids card ∨ id ∈ replied ∨ still_open m id = false ∨ id ∈ ids;
  rc_open id : well_keyed m → open_for (board_question_asker task (card_id card)) m' id →
    id ∈ replied ∨ id ∈ withdrawn_ids card ∨ id ∈ ids;
  rc_noted_ids id : well_keyed m → id ∈ withdrawn_ids card' ↔ id ∈ withdrawn_ids card ∨ id ∈ ids;
}.
Lemma record_withdrawn_recorded env task replied card m :
  recorded env task replied card m (record_withdrawn_questions env task replied card m).1.1
    (record_withdrawn_questions env task replied card m).1.2 (record_withdrawn_questions env task replied card m).2.
Proof.
  pose proof (record_withdrawn_noted env task replied card m) as Hn. unfold record_withdrawn_questions in *. cbv zeta in *.
  set (pending := pending_for_asker _ _ _) in *. assert (pending.1 = expire_locked (now env) m) as Ep by done.
  assert (∀ q, q ∈ pending.2 ↔ ∃ i, expire_locked (now env) m !! i = Some q ∧ q_pending q = true
            ∧ asker q = board_question_asker task (card_id card)) as Hp.
  { intros q. unfold pending, pending_for_asker, sorted_contracts. cbn [fst snd]. rewrite elem_of_sort_by_key, list_elem_of_filter, list_elem_of_fmap.
    split; [intros ([? ?] & [i x] & -> & ?%elem_of_map_to_list); by exists i|].
    intros (i & Hi & ? & ?). split; [done|]. exists (i, q). split; [done|]. by apply elem_of_map_to_list. }
  destruct pending as [m' pend]. cbn [fst snd] in *. set (asked := filter _ (asked_ids card)) in *. set (tracked := q_id <$> _) in *.
  assert (∀ id, id ∈ dedup (sort_by_key (λ id, id) (asked ++ tracked)) ↔ id ∈ asked ∨ id ∈ tracked) as Hids.
  { intros id. by rewrite elem_of_dedup, elem_of_sort_by_key, elem_of_app. }
  set (ids := dedup _) in *. clearbody ids. split; [done|done| | |].
  - intros id Hid. destruct (decide (id ∈ withdrawn_ids card)); [by left|]. destruct (decide (id ∈ replied)); [right; by left|].
    destruct (still_open m id) eqn:Eo; [|right; right; by left]. do 3 right. apply Hids. left. apply list_elem_of_filter. by split_and!.
  - intros id Hk (q & Hq & Hpq & Hkind & Hask). destruct (decide (id ∈ replied)); [by left|].
    destruct (decide (id ∈ withdrawn_ids card)); [right; by left|]. right. right. apply Hids. right.
    rewrite Ep in Hq. pose proof (expire_keyed (now env) m Hk id q Hq) as [Hqid _]. apply list_elem_of_fmap. exists q. split; [done|].
    apply list_elem_of_filter. rewrite Hqid. split; [done|]. apply Hp. by exists id.
  - intros id Hk. destruct (bool_decide (ids = [])) eqn:Hne; [apply bool_decide_eq_true in Hne|apply bool_decide_eq_false in Hne].
    { rewrite Hne. split; [by left|]. by intros [?|?%elem_of_nil]. }
    unfold withdrawn_ids, push_status. cbn. rewrite bind_app, elem_of_app. cbn. rewrite app_nil_r.
    change (withdrawn_by _) with (withdrawn_by (note_of ids)) at 2. rewrite withdrawn_by_note; [done| |done]. apply Forall_forall. intros i [Hi|Hi]%Hids.
    + apply list_elem_of_filter in Hi as [_ Hi]. by eapply asked_id_ok.
    + apply list_elem_of_fmap in Hi as (q & -> & [(Hkind & _) (j & Hj & _)%Hp]%list_elem_of_filter).
      destruct (expire_keyed (now env) m Hk j q Hj) as [-> Hj']. by apply Hj'.
Qed.

Lemma find_card_const id (c' : BoardCard Value) (cs : list (BoardCard Value)) :
  card_id c' = id → find_card id (alter_card (λ _, c') id cs) = (λ _, c') <$> find_card id cs.
Proof.
  intros Hid. induction cs as [|x cs IH]; [done|]. cbn [alter_card]. rewrite !find_card_cons. case_bool_decide as E.
  - rewrite find_card_cons. by rewrite (bool_decide_true _ Hid).
  - rewrite find_card_cons. by rewrite (bool_decide_false _ E).
Qed.
Lemma registered_under l q0 at_ m id q : m !! id = None → (register l q0 at_ m).1 !! id = Some q → q_id q = id.
Proof.
  intros Hm. unfold register. destruct (validate_question q0); [|cbn; congruence].
  assert (expire_locked at_ m !! id = None) as Hl by (by rewrite expire_lookup, Hm).
  repeat (case_match; cbn; [congruence|]). cbn. intros Hq%prune_lookup. destruct (decide (q_id q0 = id)) as [E|E].
  - rewrite E, lookup_insert_eq in Hq. by injection Hq as <-.
  - rewrite lookup_insert_ne in Hq by done. congruence.
Qed.

(** *** Over all cards *)

(** What was recorded for a card whose work ended, in the world left behind. *)
Record ended env task b (m : Entries) (b' : TaskBoard) (ws : list (BoardCard Value * list string)) previous : Prop := {
  en_all : ∃ card card' ids, (card', ids) ∈ ws ∧ card_id card' = card_id previous
    ∧ noted card (default previous (get_card (card_id previous) b'))
    ∧ (well_keyed m → ∀ id, id ∈ ids → ∀ c, get_card (card_id previous) b' = Some c → id ∈ withdrawn_ids c)
    ∧ (∀ id, id ∈ asked_ids card → id ∈ withdrawn_ids card ∨ id ∈ canonical_reply_ids (process_settings env) b (card_id previous)
          ∨ closed_by (now env) m id ∨ id ∈ ids);
}.

Definition settled_at (at_ : N) m m' : Prop := m' = m ∨ m' = expire_locked at_ m.
Lemma settled_then at_ m m' : settled_at at_ m m' → settled_at at_ m (expire_locked at_ m').
Proof. intros [-> | ->]; right; [done|apply expire_twice]. Qed.
Lemma settled_trans at_ m m1 m2 : settled_at at_ m m1 → settled_at at_ m1 m2 → settled_at at_ m m2.
Proof. intros H1 [-> | ->]; [done|by apply settled_then]. Qed.
Lemma settled_open at_ by_ m m' id : settled_at at_ m m' → open_for by_ m' id → open_for by_ m id.
Proof. intros [-> | ->]; [done|apply expire_open]. Qed.
Lemma settled_keyed at_ m m' : settled_at at_ m m' → well_keyed m → well_keyed m'.
Proof. intros [-> | ->]; [done|apply expire_keyed]. Qed.

Lemma get_card_noted b b' id c : noted_board b b' → get_card id b' = Some c → ∃ c0, get_card id b = Some c0 ∧ noted c0 c.
Proof.
  intros [Hf _] Hg. unfold get_card in *. pose proof (Forall2_find noted id _ _ noted_id Hf) as Ho. rewrite Hg in Ho.
  inversion Ho as [x y Hn E|]; subst. by exists x.
Qed.
Lemma get_card_noted_l b b' id c : noted_board b b' → get_card id b = Some c → ∃ c', get_card id b' = Some c' ∧ noted c c'.
Proof.
  intros [Hf _] Hg. unfold get_card in *. pose proof (Forall2_find noted id _ _ noted_id Hf) as Ho. rewrite Hg in Ho.
  inversion Ho as [x y Hn E|]; subst. by exists y.
Qed.

Lemma withdraw_card_step env task b m ws previous :
  let '(b1, m1, ws1) := withdraw_card env task (b, m, ws) previous in
  noted_board b b1 ∧ settled_at (now env) m m1 ∧ ws ⊆ ws1
  ∧ (work_ended previous b = true → ended env task b m b1 ws1 previous).
Proof.
  pose proof (withdraw_card_noted env task b m ws previous) as Hnb. unfold withdraw_card in *.
  destruct (work_ended previous b) eqn:Ew; [|split_and!; [done|by left|done|done]].
  set (replied := canonical_reply_ids _ _ _) in *. set (card := default previous _) in *.
  pose proof (record_withdrawn_recorded env task replied card m) as Hr.
  destruct (record_withdrawn_questions env task replied card m) as [[m1 card1] ids]. cbn [fst snd] in *.
  assert (card_id card = card_id previous) as Hid.
  { unfold card. destruct (get_card (card_id previous) b) as [c|] eqn:E; [|done]. by apply find_card_Some in E as [_ ?]. }
  split_and!; [done|right; apply Hr|intros x Hx; apply elem_of_app; by left|]. intros _. split. exists card, card1, ids.
  pose proof (rc_noted _ _ _ _ _ _ _ _ Hr) as Hn. split_and!.
  - apply elem_of_app. right. by left.
  - by rewrite (noted_id _ _ Hn).
  - destruct (get_card (card_id previous) b) as [c|] eqn:E.
    + destruct (get_card_noted_l _ _ _ _ Hnb E) as (c' & Hc' & Hcn). rewrite Hc'. subst card. done.
    + destruct (get_card (card_id previous) (upd_cards _ b)) as [c'|] eqn:E'; [|done].
      destruct (get_card_noted _ _ _ _ Hnb E') as (c0 & Hc0 & _). congruence.
  - intros Hk id Hin c Hc. unfold get_card in Hc. cbn [cards upd_cards] in Hc.
    destruct (get_card (card_id previous) b) as [c0|] eqn:E.
    + rewrite find_card_const in Hc; [|by rewrite (noted_id _ _ Hn)]. unfold get_card in E. rewrite E in Hc. injection Hc as <-.
      apply (rc_noted_ids _ _ _ _ _ _ _ _ Hr id Hk). by right.
    + unfold get_card in E. rewrite alter_card_none in Hc by done. congruence.
  - intros id Hin. destruct (rc_asked _ _ _ _ _ _ _ _ Hr id Hin) as [?|[?|[?|?]]]; [by left|right; by left| |by do 3 right].
    right. right. left. eapply not_still_open; [by left|done].
Qed.

Lemma ended_later env task b0 m0 b m b' (ws' : list (BoardCard Value * list string)) b'' ws'' previous :
  noted_board b0 b → settled_at (now env) m0 m →
  ended env task b m b' ws' previous → noted_board b' b'' → ws' ⊆ ws'' →
  ended env task b0 m0 b'' ws'' previous.
Proof.
  intros Hb0 Hm0 [(card & card' & ids & H1 & H2 & H3 & H4 & H5)] Hb Hws. split. exists card, card', ids.
  assert (planner_replies b = planner_replies b0) as Er by (destruct Hb0 as [_ ->]; done).
  rewrite (canonical_same _ b0 b _ Er) in H5.
  split_and!; [by apply Hws|done| | |].
  - etrans; [exact H3|]. destruct (get_card (card_id previous) b') as [c|] eqn:E.
    + destruct (get_card_noted_l _ _ _ _ Hb E) as (c' & -> & ?). done.
    + destruct (get_card (card_id previous) b'') as [c|] eqn:E'; [|done]. destruct (get_card_noted _ _ _ _ Hb E') as (? & ? & _). congruence.
  - intros Hk id Hid c Hc. destruct (get_card_noted _ _ _ _ Hb Hc) as (c0 & Hc0 & Hn). eapply withdrawn_ids_noted; [exact Hn|].
    eapply H4; [|done..]. by eapply settled_keyed.
  - intros id Hid. destruct (H5 id Hid) as [?|[?|[Hc|?]]]; [by left|right; by left| |by do 3 right]. right. right. left.
    destruct Hm0 as [-> | ->]; [done|]. destruct Hc as (q & Hq & Hp). rewrite expire_lookup in Hq. apply fmap_Some in Hq as (q0 & Hq0 & ->).
    exists q0. split; [done|]. destruct (q_pending (expire_entry (now env) q0)) eqn:Ep; [|done].
    pose proof (expire_kept _ _ Ep) as E. rewrite E, E in Hp. congruence.
Qed.

Lemma withdrawals_ended env task (l : list (BoardCard Value)) b m ws :
  let '(b', m', ws') := foldl (withdraw_card env task) (b, m, ws) l in
  noted_board b b' ∧ settled_at (now env) m m' ∧ ws ⊆ ws'
  ∧ ∀ previous, previous ∈ l → work_ended previous b = true → ended env task b m b' ws' previous.
Proof.
  revert b m ws. induction l as [|p l IH]; intros b m ws; cbn [foldl].
  { split_and!; [done|by left|done|by intros ? ?%elem_of_nil]. }
  pose proof (withdraw_card_step env task b m ws p) as Hs. destruct (withdraw_card env task (b, m, ws) p) as [[b1 m1] ws1].
  destruct Hs as (Hb & Hm & Hws & Hp). specialize (IH b1 m1 ws1). destruct (foldl _ _ l) as [[b' m'] ws']. destruct IH as (Hb' & Hm' & Hws' & Hl).
  split_and!; [by etrans|by eapply settled_trans|by etrans|]. intros previous [->|Hin]%elem_of_cons Hw.
  - eapply (ended_later env task b m b m b1 ws1); [done|by left|by apply Hp|done..].
  - eapply (ended_later env task b m b1 m1 b' ws'); [done..| |done|done]. apply Hl; [done|]. by rewrite (work_ended_noted _ _ _ Hb).
Qed.

(** *** What is left open *)

Definition card_or previous b : BoardCard Value := default previous (get_card (card_id previous) b).
Lemma card_or_id previous b : card_id (card_or previous b) = card_id previous.
Proof. unfold card_or. destruct (get_card _ b) as [c|] eqn:E; [|done]. by apply find_card_Some in E as [_ ?]. Qed.
Lemma find_card_other id id' (c' : BoardCard Value) (cs : list (BoardCard Value)) :
  id' ≠ id → card_id c' = id → find_card id' (alter_card (λ _, c') id cs) = find_card id' cs.
Proof.
  intros Hne Hid. induction cs as [|x cs IH]; [done|]. cbn [alter_card]. case_bool_decide as E; rewrite !find_card_cons.
  - rewrite !(bool_decide_false (_ = id')) by congruence. done.
  - by rewrite IH.
Qed.
(** The step marks no other card, and marks its card with what it withdraws. *)
Lemma withdraw_card_marks env task b m ws p previous id :
  let '(b1, m1, ws1) := withdraw_card env task (b, m, ws) p in
  well_keyed m → id ∈ withdrawn_ids (card_or previous b1) →
  id ∈ withdrawn_ids (card_or previous b) ∨ ∃ c ids, (c, ids) ∈ ws1 ∧ card_id c = card_id previous ∧ id ∈ ids.
Proof.
  unfold withdraw_card. destruct (work_ended p b); [|by left]. fold (card_or p b).
  set (replied := canonical_reply_ids _ _ _). pose proof (record_withdrawn_recorded env task replied (card_or p b) m) as Hr.
  destruct (record_withdrawn_questions env task replied (card_or p b) m) as [[m1 card1] ids]. cbn [fst snd] in Hr.
  intros Hk. unfold card_or at 1, get_card. cbn [cards upd_cards].
  assert (card_id card1 = card_id p) as Hid by (rewrite (noted_id _ _ (rc_noted _ _ _ _ _ _ _ _ Hr)); apply card_or_id).
  destruct (decide (card_id previous = card_id p)) as [E|E].
  - rewrite E, find_card_const by done. unfold card_or, get_card. rewrite E.
    destruct (find_card (card_id p) (cards b)) as [c|] eqn:Ec; cbn; [|by left].
    intros Hin. apply (rc_noted_ids _ _ _ _ _ _ _ _ Hr id Hk) in Hin as [Hin|Hin].
    + left. unfold card_or, get_card in Hin. by rewrite Ec in Hin.
    + right. exists card1, ids. split_and!; [apply elem_of_app; right; by left|congruence|done].
  - rewrite find_card_other by done. by left.
Qed.
Lemma withdrawals_open env task (l : list (BoardCard Value)) b m ws :
  let '(b', m', ws') := foldl (withdraw_card env task) (b, m, ws) l in
  ∀ previous id, well_keyed m → previous ∈ l → work_ended previous b = true →
    open_for (board_question_asker task (card_id previous)) m' id →
    id ∈ canonical_reply_ids (process_settings env) b (card_id previous) ∨ id ∈ withdrawn_ids (card_or previous b)
    ∨ ∃ c ids, (c, ids) ∈ ws' ∧ card_id c = card_id previous ∧ id ∈ ids.
Proof.
  revert b m ws. induction l as [|p l IH]; intros b m ws; cbn [foldl]; [by intros ? ? _ ?%elem_of_nil|].
  pose proof (withdraw_card_step env task b m ws p) as Hs. pose proof (withdraw_card_marks env task b m ws p) as Hmk.
  assert (let '(b1, m1, ws1) := withdraw_card env task (b, m, ws) p in
    work_ended p b = true → well_keyed m → ∀ id, open_for (board_question_asker task (card_id p)) m1 id →
      id ∈ canonical_reply_ids (process_settings env) b (card_id p) ∨ id ∈ withdrawn_ids (card_or p b)
      ∨ ∃ c ids, (c, ids) ∈ ws1 ∧ card_id c = card_id p ∧ id ∈ ids) as Hp.
  { unfold withdraw_card. destruct (work_ended p b); [|done]. fold (card_or p b). set (replied := canonical_reply_ids _ _ _).
    pose proof (record_withdrawn_recorded env task replied (card_or p b) m) as Hr.
    destruct (record_withdrawn_questions env task replied (card_or p b) m) as [[m1 card1] ids]. cbn [fst snd] in Hr. intros _ Hk id Ho.
    rewrite <- (card_or_id p b) in Ho. destruct (rc_open _ _ _ _ _ _ _ _ Hr id Hk Ho) as [?|[?|?]]; [by left|right; by left|right; right].
    exists card1, ids. split_and!; [apply elem_of_app; right; by left| |done].
    rewrite (noted_id _ _ (rc_noted _ _ _ _ _ _ _ _ Hr)). apply card_or_id. }
  pose proof (withdrawals_ended env task l) as Hall.
  destruct (withdraw_card env task (b, m, ws) p) as [[b1 m1] ws1]. destruct Hs as (Hb & Hm & _ & _).
  specialize (IH b1 m1 ws1). specialize (Hall b1 m1 ws1). destruct (foldl _ _ l) as [[b' m'] ws']. destruct Hall as (_ & Hm' & Hws' & _).
  assert (planner_replies b1 = planner_replies b) as Er by (destruct Hb as [_ ->]; done).
  intros previous id Hk [->|Hin]%elem_of_cons Hw Ho.
  - destruct (Hp Hw Hk id) as [?|[?|(c & ids & ? & ? & ?)]]; [by eapply settled_open|by left|right; by left|]. do 2 right.
    exists c, ids. split_and!; [by apply Hws'|done|done].
  - destruct (IH previous id) as [Hx|[Hx|Hx]]; try done; [by eapply settled_keyed|by rewrite (work_ended_noted _ _ _ Hb)| | |by do 2 right].
    + left. by rewrite <- (canonical_same _ _ _ _ Er).
    + destruct (Hmk previous id Hk Hx) as [?|(c & ids & ? & ? & ?)]; [right; by left|]. do 2 right.
      exists c, ids. split_and!; [by apply Hws'|done|done].
Qed.

(** *** Settling *)

Lemma settle_one_open env task card m id by_ id' :
  open_for by_ (settle_one (C := C) env task card m id) id' →
  open_for by_ m id' ∧ ¬ (id' = id ∧ by_ = board_question_asker task (card_id card)).
Proof.
  unfold settle_one. set (A := board_question_asker task (card_id card)). set (m1 := reseed_board_question _ _ _ _ _ _).
  assert (∀ i q, m1 !! i = Some q → q_pending q = true → m !! i = Some q ∨ (i = id ∧ m !! id = None ∧ asker q = A)) as Hm1.
  { intros i q Hq Hp. unfold m1, reseed_board_question in Hq. case_bool_decide as Hin; [by left|]. apply eq_None_not_Some in Hin.
    destruct (find_ask card id) as [[u t]|]; [|by left]. cbv zeta in Hq.
    destruct (pending_contract _ _ _ _ _ _ _ _ _) as [contract|] eqn:Ec; [|by left].
    assert (q_id contract = id ∧ asker contract = A) as [Hci Hca].
    { unfold pending_contract in Ec. apply result_bind_Ok in Ec as ([] & _ & [= <-]). done. }
    set (contract' := if bool_decide _ then _ else _) in Hq. assert (q_id contract' = id ∧ asker contract' = A) as [Hci' Hca'].
    { unfold contract'. destruct (bool_decide (id ∈ _)); split; done. }
    clearbody contract'. destruct (m !! i) as [q0|] eqn:Ei.
    - left. destruct (register_moves _ _ _ _ _ _ _ Ei Hq) as [-> | ->]; [done|]. by rewrite (expire_kept _ _ Hp).
    - pose proof (register_appears _ _ _ _ _ _ Ei Hq) as ->. right. split; [|done].
      apply (registered_under _ _ _ _ _ _ Ei) in Hq. congruence. }
  intros (q & Hq & Hp & Hk & Ha). unfold withdraw in Hq. destruct (m1 !! id') as [q1|] eqn:E1.
  - destruct (settle_moves _ _ _ _ _ _ _ _ _ _ E1 Hq) as [->|(-> & _ & _ & _ & ->)]; [|done].
    pose proof (expire_kept _ _ Hp) as Ee. rewrite Ee in *.
    assert (¬ (id' = id ∧ by_ = A)) as Hne.
    { intros [-> ->]. unfold settle in Hq. rewrite expire_lookup, E1 in Hq. cbn in Hq. rewrite Ee, Ha in Hq.
      rewrite bool_decide_true in Hq by done. cbn in Hq. apply q_pending_true in Hp as Hst. rewrite Hst in Hq. cbn in Hq.
      rewrite lookup_insert_eq in Hq. injection Hq as Hq. rewrite <- Hq in Hst. done. }
    split; [|done]. destruct (Hm1 _ _ E1 Hp) as [Hm|(-> & _ & ?)]; [by exists q1|]. exfalso. apply Hne. split; [done|congruence].
  - exfalso. unfold settle in Hq. destruct (expire_locked (now env) m1 !! id) as [q0|] eqn:E0; [|cbn in Hq; rewrite expire_lookup, E1 in Hq; done].
    assert (id' ≠ id) as Hne by (intros ->; rewrite expire_lookup, E1 in E0; done).
    repeat (case_match; cbn in Hq); rewrite ?lookup_insert_ne in Hq by done; rewrite expire_lookup, E1 in Hq; done.
Qed.

Lemma settle_all_open env task (ws : list (BoardCard Value * list string)) m by_ id' :
  open_for by_ (foldl (settle_withdrawn_questions (C := C) env task) m ws) id' →
  open_for by_ m id' ∧ ∀ c ids, (c, ids) ∈ ws → by_ = board_question_asker task (card_id c) → id' ∉ ids.
Proof.
  revert m. induction ws as [|[c ids] ws IH]; intros m Ho; cbn [foldl] in Ho.
  { split; [done|]. by intros ? ? ?%elem_of_nil. }
  destruct (IH _ Ho) as [Ho1 Hws]. unfold settle_withdrawn_questions in Ho1. cbn [fst snd] in Ho1.
  assert (open_for by_ m id' ∧ (by_ = board_question_asker task (card_id c) → id' ∉ ids)) as [Hm Hids].
  { clear -Ho1. revert m Ho1. induction ids as [|i ids IH]; intros m Ho; cbn [foldl] in Ho; [split; [done|]; by intros _ ?%elem_of_nil|].
    destruct (IH _ Ho) as [Ho1 Hn]. apply settle_one_open in Ho1 as [Hm Hne]. split; [done|]. intros Hb [->|Hin]%elem_of_cons; [by apply Hne|by apply Hn]. }
  split; [done|]. intros c' ids' [[= -> ->]|Hin]%elem_of_cons; [done|by eapply Hws].
Qed.

(** A card as the closure left it and as it is validated: the same questions are marked as withdrawn. *)
Lemma withdrawn_by_demoted old u : withdrawn_by (su_message (demote_update old u)) = withdrawn_by (su_message u).
Proof.
  unfold demote_update. destruct (negb _ && _) eqn:E; [|done]. apply andb_true_iff in E as [_ Hc]. cbn.
  assert (cut_prefix WITHDRAWN_PREFIX (su_message u) = None) as Hn.
  { destruct (cut_prefix WITHDRAWN_PREFIX (su_message u)) as [r|] eqn:Er; [|done]. apply cut_prefix_Some in Er. exfalso.
    unfold claims_reply in Hc. rewrite Er in Hc. done. }
  unfold withdrawn_by. rewrite Hn. done.
Qed.
Lemma withdrawn_imap (f : nat → option StatusUpdate) (l : list StatusUpdate) :
  (imap (λ i u, demote_update (f i) u) l ≫= λ u, withdrawn_by (su_message u)) = l ≫= λ u, withdrawn_by (su_message u).
Proof. revert f. induction l as [|u l IH]; intros f; [done|]. cbn. rewrite withdrawn_by_demoted. f_equal. exact (IH (f ∘ S)). Qed.
Lemma withdrawn_ids_demoted bound existing c : withdrawn_ids (clear_pause existing (demoted bound existing c)) = withdrawn_ids c.
Proof. unfold demoted. destruct bound; [done|]. unfold withdrawn_ids. cbn. apply withdrawn_imap. Qed.
Lemma find_card_fmap (f : BoardCard Value → BoardCard Value) id (cs : list (BoardCard Value)) :
  (∀ c, card_id (f c) = card_id c) → find_card id (f <$> cs) = f <$> find_card id cs.
Proof.
  intros Hf. induction cs as [|c cs IH]; [done|]. rewrite fmap_cons, !find_card_cons, Hf. case_bool_decide; [done|exact IH].
Qed.

(** C14. When a committed transaction ends the work on a card (the card leaves work, is removed, comes back to work or
    goes to another agent), no question of that card stays open, in a registry that keeps its entries under their ids:
    each is withdrawn, answered on record, or was settled before; and in the registry no question of its
    agent stays pending that was not answered on record or already marked as withdrawn on the card that the closure
    left, before the transaction's own mark. *)
Theorem ended_work_withdraws_questions {T} env task writer pre (f : _ → _ → result (_ * T) string) w w' cm previous b0 changed v :
  well_keyed (w_questions w) →
  update_board env task writer pre (pure f) w = Some (w', Ok cm) →
  authorize env writer (read_board w) = Ok b0 → f b0 (board_allow_self_review (project_settings env)) = Ok (changed, v) →
  previous ∈ cards (read_board w) → work_ended previous (read_board w') = true →
  (∀ c id, get_card (card_id previous) (read_board w') = Some c → id ∈ asked_ids c →
     id ∈ withdrawn_ids c
     ∨ id ∈ canonical_reply_ids (process_settings env) (read_board w') (card_id previous)
     ∨ ∃ q, w_questions w !! id = Some q ∧ q_pending (expire_entry (now env) q) = false)
  ∧ (∀ id q, w_questions w' !! id = Some q → q_pending q = true → q_kind q = BoardPlanner →
     asker q = board_question_asker task (card_id previous) →
     id ∈ canonical_reply_ids (process_settings env) (read_board w') (card_id previous)
     ∨ id ∈ withdrawn_ids (default previous (get_card (card_id previous) changed))).
Proof.
  intros Hk Hu Ha0 Hf0 Hin Hw. apply update_board_cases in Hu as (_ & changed' & board & m & (b1 & Ha1 & Hup & Hc) & _).
  rewrite Ha0 in Ha1. injection Ha1 as <-. unfold pure in Hup. rewrite Hf0 in Hup. injection Hup as <- <- _.
  destruct (commit_fields _ _ _ _ _ _ _ _ _ Hc) as (_ & _ & Eb). rewrite Eb in *.
  destruct (cm_final _ _ _ _ _ _ _ _ _ Hc) as (m' & ws & Hf & Hq). unfold record_board_withdrawals in Hf. cbn in Hq.
  pose proof (withdrawals_ended env task (cards (read_board w)) (bump_rev board) (w_questions w) []) as He.
  pose proof (withdrawals_open env task (cards (read_board w)) (bump_rev board) (w_questions w) []) as Hop.
  rewrite Hf in He, Hop. destruct He as (Hnb & Hs & _ & He). assert (planner_replies (w_board w') = planner_replies (bump_rev board)) as Er by (by destruct Hnb as [_ ->]).
  assert (work_ended previous (bump_rev board) = true) as Hw' by (by rewrite <- (work_ended_noted _ _ _ Hnb)).
  destruct (He previous Hin Hw') as [(card & card' & ids & H1 & H2 & H3 & H4 & H5)].
  rewrite !(canonical_same _ _ _ _ Er). split.
  - intros c id Hg Hid. rewrite Hg in H3. cbn in H3. rewrite (asked_ids_noted _ _ H3) in Hid.
    destruct (H5 id Hid) as [?|[?|[?|?]]]; [left; by eapply withdrawn_ids_noted|by right; left|by right; right|left; by apply (H4 Hk id)].
  - intros id q Hl Hp Hkind Ha. rewrite Hq in Hl.
    assert (open_for (board_question_asker task (card_id previous)) (foldl (settle_withdrawn_questions (C := C) env task) m' ws) id) as Ho by (by exists q).
    apply settle_all_open in Ho as [Ho Hn]. destruct (Hop previous id Hk Hin Hw' Ho) as [?|[Hx|(c & ids' & Hx1 & Hx2 & Hx3)]]; [by left| |].
    + right. pose proof (pd_cards _ _ _ _ (prepare_prepared _ _ _ _ (cm_prepare _ _ _ _ _ _ _ _ _ Hc))) as Ec.
      unfold card_or, get_card in Hx. change (cards (bump_rev board)) with (cards board) in Hx.
      rewrite Ec, find_card_fmap in Hx by (intros x; apply demoted_same).
      unfold get_card. destruct (find_card (card_id previous) (cards changed)) as [x|]; [|exact Hx]. cbn [default from_option] in Hx |- *.
      change (id ∈ withdrawn_ids x). rewrite <- (withdrawn_ids_demoted (is_bound writer) (read_board w) x). exact Hx.
    + exfalso. eapply Hn; [exact Hx1| |exact Hx3]. by rewrite Hx2.
Qed.
End withdraw.
