(* ===== verification/PlannerReply.v ===== *)
(** * Questions of agents to their planner: asking and replying

    [tools/tool_agent_planner_qna.rs], the tools [agent_ask_planner], [planner_reply] and the list of open
    questions, and [tools/planner_delivery.rs], what is checked around the delivery of a reply.  A reply is
    recorded with the board under a reservation, delivered to the chat of the attempt it answers, accepted
    there under the lock of the board, and its outcome stored.  Each transaction is one step; what the
    steps in between read is an argument.  The texts shown to the planner are left out. *)

From Stdlib Require Import Ascii.
From stdpp Require Import gmap strings list pretty.
From S2P Require Import Prelude RustStr Settings BoardTypes Outcome ActiveContext Delivery DeliveryQueue Question Board PlannerQna BoardTxn.
Local Open Scope N_scope.

Section reply.
Context {Value C : Type} `{MessageSerde C} `{ReplySerde C}.
Abbreviation TaskBoard := (@TaskBoard Value PlannerReply).
Abbreviation TxnEnv := (TxnEnv TaskBoard).
Abbreviation Receipt := (Reply (PendingDelivery C)).
Abbreviation World := (World (Value := Value)).
Implicit Types (b board : TaskBoard) (card : BoardCard Value) (env : TxnEnv) (receipt : Receipt) (w : World).

(** ** Open questions *)

Record UnansweredQuestion := {
  uq_card_id : string; uq_card_title : string; uq_question_id : string; uq_urgency : string; uq_question : text }.

Definition BLOCK_SUFFIX : string := ":block] agent flagged for planner attention".
Definition parse_block_marker (message : string) : option string :=
  rest ← cut_prefix ASK_PREFIX message;
  let n := (String.length rest - String.length BLOCK_SUFFIX)%nat in
  if bool_decide (String.length BLOCK_SUFFIX ≤ String.length rest)%nat
     && bool_decide (String.substring n (String.length BLOCK_SUFFIX) rest = BLOCK_SUFFIX)
     && is_question_id (String.substring 0 n rest)
  then Some (String.substring 0 n rest) else None.
Definition block_markers board : list (string * string) :=
  cards board ≫= λ c, omap (λ u, (λ id, (card_id c, id)) <$> parse_block_marker (su_message u)) (status_updates c).
Definition replied_keys (settings : CoordinationSettings) board : list (string * string) :=
  (map_to_list (planner_replies board)).*1 ≫= λ id, (λ q, (id, q)) <$> canonical_reply_ids settings board id.
(** The questions of one card, each once; [seen] are the ids already listed. *)
Fixpoint unanswered_of (settings : CoordinationSettings) board card (seen : list string) (l : list StatusUpdate)
  : list UnansweredQuestion :=
  match l with
  | [] => []
  | u :: rest =>
      match parse_ask (su_message u) with
      | None => unanswered_of settings board card seen rest
      | Some (id, t) =>
          if bool_decide ((card_id card, id) ∈ replied_keys settings board) || bool_decide (id ∈ withdrawn_ids card)
             || bool_decide (id ∈ seen)
          then unanswered_of settings board card seen rest
          else
            let '(question, urgency) := split_question_and_urgency t in
            {| uq_card_id := card_id card; uq_card_title := title card; uq_question_id := id;
               uq_urgency := if bool_decide ((card_id card, id) ∈ block_markers board) then "block" else urgency;
               uq_question := question |} :: unanswered_of settings board card (id :: seen) rest
      end
  end.
(** The cards of a board have different ids, so that [seen] starts anew with each card. *)
Definition collect_unanswered_questions (settings : CoordinationSettings) board : list UnansweredQuestion :=
  sort_by_key (λ q, (uq_card_id q, uq_question_id q))
    (filter (λ c, is_doing c = true) (cards board) ≫= λ c, unanswered_of settings board c [] (status_updates c)).

(** ** Asking *)

Inductive QuestionUrgency := UBlock | UInfo.
Definition urgency_str (u : QuestionUrgency) : string := match u with UBlock => "block" | UInfo => "info" end.
Definition ask_message (id question : string) (u : QuestionUrgency) : string :=
  ASK_PREFIX +:+ id +:+ "] " +:+ question +:+ " (urgency=" +:+ urgency_str u +:+ ")".
Definition block_marker (id : string) : string := ASK_PREFIX +:+ id +:+ BLOCK_SUFFIX.

(** The closure of [agent_ask_planner]. *)
Definition post_question env (card_id_ asking_chat id question : string) (u : QuestionUrgency) board
  : result (TaskBoard * unit) string :=
  match get_card card_id_ board with
  | None => Err ("Card " +:+ card_id_ +:+ " not found")
  | Some card =>
      if negb (is_doing card)
         || match agent_chat_id card with Some owner => negb (bool_decide (owner = asking_chat)) | None => false end
      then Err "agent question requires the current doing card agent"
      else
        let post card :=
          let card := push_status (timestamp env) (ask_message id question u) card in
          match u with UBlock => push_status (timestamp env) (block_marker id) card | UInfo => card end in
        Ok (upd_cards (alter_card post card_id_ (cards board)) board, ())
  end.
(** The question is registered, then written on the card; when that fails it is cancelled. *)
Definition agent_ask_planner env (task_id card_id_ asking_chat id question : string) (u : QuestionUrgency)
    (is_planner : string → bool) (error_text : QuestionError → string) w : option (World * result QuestionContract string) :=
  let request := {|
    aq_id := Some id; aq_kind := BoardPlanner; aq_asker := board_question_asker task_id card_id_;
    aq_answerer := board_question_answerer task_id; aq_correlation_id := board_question_correlation task_id card_id_ id;
    aq_text := question; aq_options := None; expires_in_secs := None; aq_irreversible := false; aq_default_answer := None |} in
  let '(m, asked) := ask (question_limits env) request id (now env) (w_questions w) in
  let w := set_questions m w in
  match asked with
  | Err e => Some (w, Err (error_text e))
  | Ok contract =>
      '(w, r) ← update_board_atomic env task_id is_planner (post_question env card_id_ asking_chat id question u) w;
      match r with
      | Ok _ => Some (w, Ok contract)
      | Err e => Some (set_questions (cancel_question id (asker contract) (now env) (w_questions w)).1 w, Err e)
      end
  end.

(** ** Recording a reply *)

(** The arguments of a call of [planner_reply], with what it makes of them: the answer (shortened), the hash of
    the answer as given, and a fresh reservation; [records] is the privacy record of what the planner read. *)
Record ReplyArgs := {
  ra_task : string;
  ra_card : string;
  ra_question : string;
  ra_answer : string;
  ra_input_hash : string;
  ra_push : PushMode;
  ra_planner : string;
  ra_reservation : string;
  ra_fresh_id : string;
  ra_records : option Json;
  ra_now_ms : N;
}.
Implicit Types (a : ReplyArgs).

Definition validate_reply_question env (task_id : string) card (qid answer_ : string) (m : Entries)
  : Entries * result unit string :=
  if negb (is_doing card) || bool_decide (qid ∈ withdrawn_ids card) then (m, Err WITHDRAWN_REPLY)
  else
    let m := expire (question_limits env) (now env) m in
    (m,
     match m !! qid with
     | None => Err "Tracked question unavailable; nothing was delivered"
     | Some q =>
         if negb (bool_decide (q_kind q = BoardPlanner))
            || negb (bool_decide (asker q = board_question_asker task_id (card_id card)))
            || negb (bool_decide (answerer q = board_question_answerer task_id))
            || negb (bool_decide (correlation_id q = board_question_correlation task_id (card_id card) qid))
         then Err "Question correlation or authority changed; nothing was delivered"
         else
           match Question.state q with
           | QPending => Ok ()
           | QAnswered => if bool_decide (answer q = Some answer_) then Ok ()
                          else Err "Question already settled differently; nothing was delivered"
           | QWithdrawn => Err WITHDRAWN_REPLY
           | _ => Err "Question already settled differently; nothing was delivered"
           end
     end).

(** What is checked and restored before the first transaction; [false]: the question was withdrawn. *)
Definition begin_reply env a w : World * result bool string :=
  let board := read_board w in
  match get_card (ra_card a) board with
  | None => (w, Ok true)
  | Some card =>
      if negb (is_doing card) || bool_decide (ra_question a ∈ withdrawn_ids card)
         || match w_questions w !! ra_question a with Some q => bool_decide (Question.state q = QWithdrawn) | None => false end
      then (w, Ok false)
      else
        match reply_receipt (process_settings env) board (ra_card a) (ra_question a) with
        | Err e => (w, Err e)
        | Ok prior =>
            match (match prior with
                   | Some p => validate_reply_envelope (process_settings env) p (ra_task a) (ra_card a) (ra_question a)
                   | None => Ok ()
                   end) with
            | Err e => (w, Err e)
            | Ok _ =>
                (set_questions (reseed_board_question env (ra_task a) card (ra_question a) prior (w_questions w)) w, Ok true)
            end
        end
  end.

(** [single_message_delivery], the privacy record, and a deadline. *)
Definition reply_message a : Message C :=
  let m := planner_user_message (reply_text (ra_question a) (ra_answer a)) in
  match ra_records a with Some v => set_extra (<["privacy"%string := v]> (extra m)) m | None => m end.
Definition set_id (id : string) (d : PendingDelivery C) : PendingDelivery C := {|
  after_tool_call_id := after_tool_call_id d; thread_patch := thread_patch d; pd_id := id; pd_messages := pd_messages d;
  push := push d; source := source d; wake := wake d; enqueued_at_ms := enqueued_at_ms d; expires_at_ms := expires_at_ms d;
  supersede_key := supersede_key d; peer_mail := peer_mail d; causal := causal d |}.
Definition reply_envelope env a : PendingDelivery C :=
  Delivery.ensure_ttl_secs (ra_now_ms a) (delivery_default_ttl_secs (process_settings env))
    (new_delivery (ra_fresh_id a) [reply_message a] (ra_push a) "planner_reply" true (ra_now_ms a)).

Definition envelope_within env a : result unit string :=
  match privacy_records (pd_messages (reply_envelope env a)) with
  | None => Err "Reply privacy provenance unavailable"
  | Some (records, bytes) =>
      if (max_work_provenance_records (process_settings env) <? records) || (max_work_provenance_bytes (process_settings env) <? bytes)
      then Err "Reply privacy provenance exceeds the metadata limit" else Ok ()
  end.

Definition owner_guard a board : result unit string :=
  match reply_row board (ra_card a) (ra_question a) with Some _ => require_owner (ra_planner a) board | None => Ok () end.
Definition is_legacy_reply (qid : string) (u : StatusUpdate) : bool :=
  bool_decide (fst <$> parse_reply (su_message u) = Some qid)
  || has_prefix ("[REPLY-DELIVERY:" +:+ qid +:+ "]") (su_message u).
Definition can_redeliver receipt : bool :=
  bool_decide (is_Some (pa_chat_id (attempt receipt))) && bool_decide (pr_state receipt = RFailed)
  && bool_decide (outcome receipt ∈ ["no_live_session"; "skipped"; "failed"]%string).
Definition reserve_again a receipt : Receipt :=
  with_reservation (ra_reservation a) (with_state RUnknown "dispatch_reserved" receipt).
Definition new_receipt env a (e : PendingDelivery C) (hash : string) (attempt_ : PlannerReplyAttempt) : Receipt := {|
  version := 1; pr_task_id := ra_task a; pr_card_id := ra_card a; question_id := ra_question a;
  planner_chat_id := ra_planner a; action_id := ra_reservation a; pr_answered_at := timestamp env;
  pr_answer := ra_answer a; answer_input_hash := ra_input_hash a; attempt := attempt_; envelope := e;
  envelope_hash_ := hash; pr_push := push_str (ra_push a);
  ttl_secs := delivery_default_ttl_secs (process_settings env);
  pr_state := if bool_decide (is_Some (pa_chat_id attempt_)) then RUnknown else RRecorded;
  outcome := if bool_decide (is_Some (pa_chat_id attempt_)) then "dispatch_reserved" else "no_recipient";
  reservation := ra_reservation a |}.

(** An answer recorded before: nothing but a known miss is reserved again. *)
Definition answer_again env a board card receipt (m : Entries)
  : Entries * result (TaskBoard * (bool * Receipt)) string :=
  if negb (bool_decide (planner_chat_id receipt = ra_planner a))
  then (m, Err "Reply owner changed; inspect the original question/run instead of replaying")
  else if negb (bool_decide (answer_input_hash receipt = ra_input_hash a))
  then (m, Err "Reply already recorded with a different answer; nothing was changed or delivered")
  else
    match validate_reply_envelope (process_settings env) receipt (ra_task a) (ra_card a) (ra_question a) with
    | Err e => (m, Err e)
    | Ok _ =>
        let '(m, asked) := validate_reply_question env (ra_task a) card (ra_question a) (pr_answer receipt) m in
        (m,
         let? _ := asked in
         if negb (bool_decide (attempt receipt = reply_attempt board card))
         then Err "Reply recipient attempt changed; nothing was delivered. Inspect the original question/run instead of replaying it to the new assignment"
         else if can_redeliver receipt then
           let receipt := reserve_again a receipt in
           let? board := store_reply_receipt (process_settings env) board (ra_card a) (ra_question a) receipt in
           Ok (board, (false, receipt))
         else Ok (board, (false, receipt)))
    end.
Definition first_answer env a board card (m : Entries) : Entries * result (TaskBoard * (bool * Receipt)) string :=
  if existsb (is_legacy_reply (ra_question a)) (status_updates card)
  then (m, Err "Legacy reply history has unknown origin/acceptance; inspect the original run, do not replay")
  else
    let '(m, asked) := validate_reply_question env (ra_task a) card (ra_question a) (ra_answer a) m in
    (m,
     let? _ := asked in
     let attempt_ := reply_attempt board card in
     let e := set_id (reply_delivery_id (C := C) (ra_task a) (ra_card a) (ra_question a) attempt_) (reply_envelope env a) in
     let? hash := envelope_hash e in
     let receipt := new_receipt env a e hash attempt_ in
     let said := REPLY_PREFIX +:+ ra_question a +:+ "] " +:+ ra_answer a in
     let board := upd_cards (alter_card (push_status (timestamp env) said) (ra_card a) (cards board)) board in
     let? board := store_reply_receipt (process_settings env) board (ra_card a) (ra_question a) receipt in
     Ok (board, (true, receipt))).
Definition record_reply env a board (m : Entries) : Entries * result (TaskBoard * (bool * Receipt)) string :=
  let '(board, owned) := authorize_owner (ra_planner a) board in
  match (let? _ := owned in
         match get_card (ra_card a) board with
         | None => Err ("Card " +:+ ra_card a +:+ " not found")
         | Some card =>
             if negb (card_has_ask card (ra_question a))
             then Err ("Question " +:+ ra_question a +:+ " not found on card " +:+ ra_card a)
             else let? prior := reply_receipt (process_settings env) board (ra_card a) (ra_question a) in Ok (card, prior)
         end) with
  | Err e => (m, Err e)
  | Ok (card, Some receipt) => answer_again env a board card receipt m
  | Ok (card, None) => first_answer env a board card m
  end.
Definition record_txn env a (proof : result unit string) : World → option (World * result (Committed (bool * Receipt)) string) :=
  update_board_atomic_with_owner_guard env (ra_task a) (ra_planner a) proof (owner_guard a) (record_reply env a).

(** The question is answered with the recorded answer. *)
Definition settle_reply env a receipt w : World :=
  set_questions (answer_question (ra_question a) (board_question_answerer (ra_task a)) (pr_answer receipt) (now env)
                   (w_questions w)).1 w.
(** This call holds the reservation. *)
Definition claimed a receipt : bool :=
  bool_decide (reservation receipt = ra_reservation a) && bool_decide (pr_state receipt = RUnknown).

(** ** Delivering *)

Definition current_receipt env a board : result (BoardCard Value * Receipt) string :=
  match get_card (ra_card a) board with
  | None => Err "Reply card no longer exists"
  | Some card =>
      let? current := reply_receipt (process_settings env) board (ra_card a) (ra_question a) in
      match current with None => Err "Reply receipt missing" | Some current => Ok (card, current) end
  end.
(** The transaction before the delivery. *)
Definition confirm_reply env a receipt board (m : Entries) : Entries * result (TaskBoard * unit) string :=
  match (let? _ := require_owner (ra_planner a) board in current_receipt env a board) with
  | Err e => (m, Err e)
  | Ok (card, current) =>
      if negb (bool_decide (reservation current = ra_reservation a))
         || negb (bool_decide (attempt current = reply_attempt board card))
         || negb (bool_decide (pr_state current = RUnknown))
      then (m, Err "Reply attempt was superseded; nothing was delivered")
      else
        let '(m, asked) := validate_reply_question env (ra_task a) card (ra_question a) (pr_answer receipt) m in
        (m, let? _ := asked in Ok (board, ()))
  end.
Definition confirm_txn env a receipt (proof : result unit string) : World → option (World * result (Committed unit) string) :=
  update_board_atomic_with_owner_guard env (ra_task a) (ra_planner a) proof (require_owner (ra_planner a)) (confirm_reply env a receipt).

(** A delivery that must be accepted this way. *)
Definition is_planner_reply_delivery (d : PendingDelivery C) : bool :=
  bool_decide (source d = "planner_reply"%string) || has_prefix "planner-reply:" (pd_id d).
(** [accept_reply_delivery] of a call's receipt, under the lock of the board, up to the session. *)
Definition accept_refused board card receipt current (chat_id : string) (delivery : PendingDelivery C) : bool :=
  negb (bool_decide (reservation current = reservation receipt))
  || negb (bool_decide (action_id current = action_id receipt))
  || negb (bool_decide (planner_chat_id current = planner_chat_id receipt))
  || negb (same_delivery (envelope current) delivery)
  || negb (same_delivery (envelope receipt) delivery)
  || negb (bool_decide (pr_state current = RUnknown))
  || negb (bool_decide (outcome current = "dispatch_reserved"%string))
  || negb (bool_decide (attempt current = attempt receipt))
  || negb (bool_decide (attempt current = reply_attempt board card))
  || negb (bool_decide (pa_chat_id (attempt current) = Some chat_id)).
Definition accept_reply_delivery env receipt (chat_id : string) (delivery : PendingDelivery C) w : World * result Receipt string :=
  let board := read_board w in
  match (let? _ := opened env in
         let? _ := require_owner (planner_chat_id receipt) board in
         match get_card (pr_card_id receipt) board with
         | None => Err "Reply card no longer exists"
         | Some card =>
             let? current := reply_receipt (process_settings env) board (pr_card_id receipt) (question_id receipt) in
             match current with
             | None => Err "Reply receipt missing"
             | Some current =>
                 let? _ := validate_reply_envelope (process_settings env) current (pr_task_id receipt) (pr_card_id receipt)
                             (question_id receipt) in
                 if accept_refused board card receipt current chat_id delivery
                 then Err "Reply recipient attempt/reservation changed; nothing was accepted"
                 else Ok (card, current)
             end
         end) with
  | Err e => (w, Err e)
  | Ok (card, current) =>
      let '(m, asked) := validate_reply_question env (pr_task_id receipt) card (question_id receipt) (pr_answer receipt)
                           (w_questions w) in
      (set_questions m w, let? _ := asked in Ok current)
  end.

(** ** The report of a delivery *)

Inductive DeliveryReport :=
  | ReportDelivered (out : DeliveryOutcome)
  | NoLiveSession
  | Skipped (reason : string)
  | ReportFailed (error : string)
  | ReportUnknown (error : string).

Definition stale_card_reason (card : option (BoardCard Value)) (card_id_ expected_chat : string) (require_doing : bool)
  : option string :=
  match card with
  | None => Some ("card " +:+ card_id_ +:+ " no longer exists")
  | Some card =>
      if require_doing && negb (is_doing card) then Some ("card " +:+ card_id_ +:+ " is now in column '" +:+ column card +:+ "'")
      else if negb (bool_decide (agent_chat_id card = Some expected_chat))
      then Some ("agent_chat_id changed from '" +:+ expected_chat +:+ "' to '" +:+ default "none" (agent_chat_id card) +:+ "'")
      else None
  end.
Definition stale_report (wrap : string) (require_doing : bool) (card_id_ chat : string) (read : result TaskBoard string)
  : option DeliveryReport :=
  match read with
  | Err e => Some (ReportFailed (wrap +:+ e))
  | Ok board => Skipped <$> stale_card_reason (get_card card_id_ board) card_id_ chat require_doing
  end.
(** [deliver_to_card_checked], from what its reads answer in turn: the board, the session, the board, the last
    checks, the board, the delivery, and the refusal noted by the acceptance.  It stops at the first miss. *)
Definition or_report (r : option DeliveryReport) (k : DeliveryReport) : DeliveryReport := default k r.
Definition deliver_to_card_checked (require_doing require_live_session : bool) (card_id_ chat : string)
    (read1 : result TaskBoard string) (session : result (option SessionState) string) (read2 : result TaskBoard string)
    (before_send : result unit string) (read3 : result TaskBoard string) (sent : result DeliveryOutcome string)
    (refusal : option string) : DeliveryReport :=
  or_report (stale_report "could not re-read the board: " require_doing card_id_ chat read1)
    (or_report
       (if require_live_session then
          match session with
          | Ok None => Some NoLiveSession
          | Err e => Some (ReportFailed ("could not read the agent session state: " +:+ e))
          | Ok (Some _) => stale_report "could not re-read the board: " require_doing card_id_ chat read2
          end
        else None)
       (match before_send with
        | Err reason => Skipped reason
        | Ok _ =>
            or_report (stale_report "could not re-read the board before enqueue: " require_doing card_id_ chat read3)
              (match sent with
               | Ok out => ReportDelivered out
               | Err error => match refusal with Some reason => Skipped reason | None => ReportUnknown error end
               end)
        end)).

Definition reached_agent (r : DeliveryReport) : bool :=
  match r with ReportDelivered (OQueued | ODelivered) => true | _ => false end.
Definition receipt_outcome (r : DeliveryReport) : string :=
  match r with
  | ReportDelivered OQueued => "queued" | ReportDelivered ODelivered => "delivered"
  | ReportDelivered ODuplicate => "duplicate" | ReportDelivered OExpired => "expired"
  | ReportDelivered OSuperseded => "superseded" | ReportDelivered OSealed => "sealed"
  | NoLiveSession => "no_live_session" | Skipped _ => "skipped" | ReportFailed _ => "failed" | ReportUnknown _ => "unknown"
  end.
Definition reported_state (r : DeliveryReport) : PlannerReplyState :=
  match r with
  | ReportDelivered (OQueued | ODuplicate) => RAccepted
  | ReportDelivered ODelivered => RDelivered
  | ReportDelivered _ => RFailed
  | ReportUnknown _ => RUnknown
  | NoLiveSession | Skipped _ | ReportFailed _ => RFailed
  end.
Definition with_report (r : DeliveryReport) receipt : Receipt := with_state (reported_state r) (receipt_outcome r) receipt.

(** The transaction that stores the outcome. *)
Definition store_outcome env a receipt board (m : Entries) : Entries * result (TaskBoard * unit) string :=
  (m,
   let? _ := require_owner (ra_planner a) board in
   let? found := current_receipt env a board in
   let '(card, current) := found in
   if negb (bool_decide (reservation current = ra_reservation a))
      || negb (bool_decide (attempt current = reply_attempt board card))
   then Err "Reply receipt changed; acceptance requires inspection"
   else
     let? board := store_reply_receipt (process_settings env) board (ra_card a) (ra_question a) receipt in
     Ok (board, ())).
Definition store_txn env a receipt (proof : result unit string) : World → option (World * result (Committed unit) string) :=
  update_board_atomic_with_owner_guard env (ra_task a) (ra_planner a) proof (require_owner (ra_planner a)) (store_outcome env a receipt).
End reply.

(** ** The recipient's session *)

Section acceptance.
Context {Value C P : Type} `{MessageSerde C} `{ReplySerde C} `{ChatEnv C P}.
Abbreviation Receipt := (Reply (PendingDelivery C)).
Abbreviation Sess := (Session C P).
(** The task of a thread, among its other parameters, and its chat; what the privacy policy answers. *)
Variables (task_meta : P → option TaskMeta) (chat_of : Sess → string) (privacy : Sess → PendingDelivery C → result unit string).
Abbreviation World := (World (Value := Value)).

Definition validate_reply_session (permit current : Receipt) (delivery : PendingDelivery C) (s : Sess) : result unit string :=
  let attempt_ := attempt current in
  if negb (bool_decide (chat_of s = default ""%string (pa_chat_id attempt_)))
     || match task_meta (other_params (thread s)) with
        | None => true
        | Some meta =>
            negb (bool_decide (tm_task_id meta = pr_task_id permit))
            || negb (bool_decide (tm_role meta = "agents"%string))
            || negb (bool_decide (tm_card_id meta = Some (pr_card_id permit)))
            || negb (bool_decide (tm_agent_id meta = pa_assignee attempt_))
            || negb (bool_decide (tm_planner_chat_id meta = Some (planner_chat_id current)))
        end
  then Err "Reply recipient session identity changed; nothing was accepted"
  else privacy s delivery.

(** The closure [enqueue] of [deliver_to_chat]. *)
Definition enqueue (sealed : bool) (delivery : PendingDelivery C) (at_ms : N) (s : Sess)
  : Sess * result DeliveryOutcome DeliveryError :=
  if closed s then (s, Err (Refused "chat is closed"))
  else if sealed then let '(s, out) := drop_sealed_delivery (pd_id delivery) s in (s, Ok out)
  else enqueue_delivery delivery at_ms s.

(** A reply arrives at a session.  One that is busy takes nothing, like one that is not there. *)
Definition accept_reply (env : TxnEnv (@TaskBoard Value PlannerReply)) (permit : Receipt) (sealed : bool) (chat_id : string)
    (delivery : PendingDelivery C) (at_ms : N) (w : World) (s : Sess) : World * Sess * option DeliveryOutcome :=
  let '(w, accepted) := accept_reply_delivery env permit chat_id delivery w in
  match accepted with
  | Err _ => (w, s, None)
  | Ok current =>
      match validate_reply_session permit current delivery s with
      | Err _ => (w, s, None)
      | Ok _ => let '(s, r) := enqueue sealed delivery at_ms s in (w, s, match r with Ok out => Some out | Err _ => None end)
      end
  end.
End acceptance.
