(* ===== verification/PlannerSystem.v ===== *)
(** * Questions of agents to their planner: what replies do

    One board, its registry of questions, the calls of [planner_reply] in flight and the sessions of chats,
    under any order of steps. *)

From Stdlib Require Import Ascii.
From stdpp Require Import functions gmap strings list pretty.
From S2P Require Import Prelude RustStr Settings BoardTypes Outcome Board BoardProps Question ActiveContext Delivery DeliveryQueue DeliveryProps DeliverySteps PlannerQna BoardTxn BoardRuns BoardWithdraw PlannerReply.

Local Open Scope N_scope.

Section props.
Context {Value C : Type} `{MessageSerde C} `{ReplySerde C}.
Abbreviation TaskBoard := (@TaskBoard Value PlannerReply).
Abbreviation TxnEnv := (TxnEnv TaskBoard).
Abbreviation Receipt := (Reply (PendingDelivery C)).
Abbreviation World := (World (Value := Value)).
Implicit Types (b board : TaskBoard) (card : BoardCard Value) (env : TxnEnv) (r : Receipt) (row : PlannerReply) (w : World)
  (a : ReplyArgs) (m : Entries).

(** ** Receipts *)

(** What of a receipt no step changes. *)
Definition core {E} (x : Reply E) : Reply E := with_reservation "" (with_state RRecorded "" x).
Definition envelope_for env a (att : PlannerReplyAttempt) : PendingDelivery C :=
  set_id (reply_delivery_id (C := C) (ra_task a) (ra_card a) (ra_question a) att) (reply_envelope env a).
(** The receipt was made by a first answer to this question. *)
Definition origin (task card_id_ q : string) r : Prop :=
  ∃ env a att hash, ra_task a = task ∧ ra_card a = card_id_ ∧ ra_question a = q
    ∧ core r = core (new_receipt env a (envelope_for env a att) hash att).
Definition row_of row r : Prop := ∃ v, envelope_value (envelope r) = Ok v ∧ core row = core (with_envelope v r).

Lemma core_with_state {E} st out (x : Reply E) : core (with_state st out x) = core x.
Proof. done. Qed.
Lemma core_reserve a r : core (reserve_again a r) = core r.
Proof. done. Qed.
Lemma core_envelope {E F} (x y : Reply E) (f : F) : core x = core y → core (with_envelope f x) = core (with_envelope f y).
Proof. intros Hc. change (with_envelope f (core x) = with_envelope f (core y)). by rewrite Hc. Qed.
Lemma core_fields {E} (x y : Reply E) :
  core x = core y → pr_task_id x = pr_task_id y ∧ pr_card_id x = pr_card_id y ∧ question_id x = question_id y
  ∧ attempt x = attempt y ∧ envelope x = envelope y ∧ pr_answer x = pr_answer y ∧ planner_chat_id x = planner_chat_id y.
Proof. intros E'. by injection E'. Qed.
Lemma origin_core task c q r r' : core r' = core r → origin task c q r → origin task c q r'.
Proof. intros E (env & a & att & hash & ? & ? & ? & Hc). exists env, a, att, hash. by rewrite E. Qed.
Lemma row_of_core row r r' : core r' = core r → row_of row r → row_of row r'.
Proof.
  intros E (v & Hv & Hc). pose proof (core_fields _ _ E) as (_ & _ & _ & _ & Ee & _). exists v. rewrite Ee. split; [done|].
  rewrite Hc. symmetry. by apply core_envelope.
Qed.

(** ** What is read back *)

(** The envelopes of replies survive being written and read. *)
Definition envelopes_round_trip : Prop :=
  ∀ env a att v, envelope_value (envelope_for env a att) = Ok v → envelope_from v = Some (envelope_for env a att).

Section serde.
Hypothesis Hserde : envelopes_round_trip.

Lemma read_receipt settings b task c q row r r' :
  reply_row b c q = Some row → origin task c q r → row_of row r → reply_receipt settings b c q = Ok (Some r') →
  core r' = core r.
Proof.
  intros Hrow (env & a & att & hash & <- & <- & <- & Ho) (v & Hv & Hc) Hr. unfold reply_receipt in Hr. rewrite Hrow in Hr.
  destruct (_ <? _); [done|]. pose proof (core_fields _ _ Ho) as (_ & _ & _ & _ & Ee & _). rewrite Ee in Hv. cbn in Hv.
  pose proof (core_fields _ _ Hc) as (_ & _ & _ & _ & Er & _). cbn in Er. rewrite Er, (Hserde _ _ _ _ Hv) in Hr.
  apply result_bind_Ok in Hr as ([] & _ & [= <-]).
  rewrite (core_envelope _ (with_envelope v r) _ Hc). destruct r. cbn in Ee |- *. by subst.
Qed.

Lemma store_row settings b c q r b' :
  store_reply_receipt settings b c q r = Ok b' →
  ∃ row, reply_row b' c q = Some row ∧ row_of row r
    ∧ ∀ c' q', (c', q') ≠ (c, q) → reply_row b' c' q' = reply_row b c' q'.
Proof.
  unfold store_reply_receipt. intros ([] & _ & (v & Hv & [= <-])%result_bind_Ok)%result_bind_Ok.
  exists (with_envelope v r). unfold reply_row. cbn. split_and!.
  - rewrite lookup_insert_eq. cbn. by rewrite lookup_insert_eq.
  - by exists v.
  - intros c' q' Hne. destruct (decide (c' = c)) as [->|Hc].
    + rewrite lookup_insert_eq. cbn. rewrite lookup_insert_ne by congruence. by destruct (planner_replies b !! c).
    + by rewrite lookup_insert_ne by done.
Qed.

(** *** The rows of a board *)

Definition rows_ok (task : string) b : Prop :=
  ∀ c q row, reply_row b c q = Some row → ∃ r, origin task c q r ∧ row_of row r.
(** Rows stay, but for how their delivery went. *)
Definition rows_kept b b' : Prop :=
  ∀ c q row, reply_row b c q = Some row → ∃ row', reply_row b' c q = Some row' ∧ core row' = core row.
#[local] Instance rows_kept_preorder : PreOrder rows_kept.
Proof.
  split; [intros b c q row ?; by exists row|]. intros b1 b2 b3 H1 H2 c q row Hrow.
  destruct (H1 c q row Hrow) as (row2 & Hrow2 & E2). destruct (H2 c q row2 Hrow2) as (row3 & ? & E3). exists row3. by rewrite E3.
Qed.
Lemma rows_same b b' : planner_replies b' = planner_replies b → ∀ c q, reply_row b' c q = reply_row b c q.
Proof. intros E c q. unfold reply_row. by rewrite E. Qed.

Lemma stored_kept settings task b c q r b' :
  rows_ok task b → origin task c q r → (∀ row, reply_row b c q = Some row → row_of row r) →
  store_reply_receipt settings b c q r = Ok b' →
  rows_ok task b' ∧ rows_kept b b' ∧ ∃ row, reply_row b' c q = Some row ∧ row_of row r.
Proof.
  intros Hok Ho Hprev Hs. apply store_row in Hs as (row & Hrow & Hof & Hrest). split_and!; [| |by exists row].
  - intros c' q' row' Hrow'. destruct (decide ((c', q') = (c, q))) as [[= -> ->]|Hne].
    + rewrite Hrow in Hrow'. injection Hrow' as <-. by exists r.
    + apply (Hok c' q'). by rewrite <- Hrest.
  - intros c' q' row' Hrow'. destruct (decide ((c', q') = (c, q))) as [[= -> ->]|Hne].
    + exists row. split; [done|]. destruct (Hprev row' Hrow') as (v & Hv & E). destruct Hof as (v' & Hv' & E'). rewrite E', E.
      rewrite Hv in Hv'. by injection Hv' as <-.
    + exists row'. by rewrite Hrest.
Qed.

(** ** The closures of a reply *)

Definition origin_of_call (task : string) a r : Prop := ra_task a = task ∧ origin task (ra_card a) (ra_question a) r.
(** The call's receipt is the one on the board. *)
Definition on_board b a r : Prop := ∃ row, reply_row b (ra_card a) (ra_question a) = Some row ∧ row_of row r.

Lemma with_state_core_origin task c q r st out : origin task c q r → origin task c q (with_state st out r).
Proof. by apply origin_core. Qed.

Lemma authorize_owner_rows chat b : planner_replies (authorize_owner chat b).1 = planner_replies b.
Proof. unfold authorize_owner. destruct (owner_chat_id b); [by case_bool_decide|done]. Qed.

Lemma record_reply_rows env task a b m m' b' v :
  ra_task a = task → rows_ok task b → record_reply env a b m = (m', Ok (b', v)) →
  rows_ok task b' ∧ rows_kept b b' ∧ origin_of_call task a v.2 ∧ on_board b' a v.2.
Proof.
  intros Ht Hok. unfold record_reply. pose proof (authorize_owner_rows (ra_planner a) b) as Eb.
  destruct (authorize_owner (ra_planner a) b) as [b1 owned]. cbn [fst] in Eb. pose proof (rows_same _ _ Eb) as Hsame.
  assert (rows_ok task b1) as Hok1 by (intros c q row Hrow; rewrite Hsame in Hrow; by eapply Hok).
  assert (rows_kept b b1) as Hk1 by (intros c q row Hrow; exists row; by rewrite Hsame).
  destruct owned as [[]|]; [cbn|done]. destruct (get_card (ra_card a) b1) as [card|]; [|done].
  destruct (card_has_ask card (ra_question a)); [cbn|done].
  destruct (reply_receipt (process_settings env) b1 (ra_card a) (ra_question a)) as [[prior|]|] eqn:Er; [cbn..|done].
  - unfold answer_again. destruct (negb (bool_decide (planner_chat_id prior = _))); [done|]. destruct (negb _); [done|].
    destruct (validate_reply_envelope _ _ _ _ _) as [[]|]; [|done].
    destruct (validate_reply_question _ _ _ _ _ _) as [m1 asked]. destruct asked as [[]|]; [cbn|done].
    destruct (negb (bool_decide (attempt prior = _))); [done|].
    assert (∃ row, reply_row b1 (ra_card a) (ra_question a) = Some row) as [row Hrow].
    { unfold reply_receipt in Er. destruct (reply_row b1 _ _) as [row|]; [by exists row|done]. }
    destruct (Hok1 _ _ _ Hrow) as (r0 & Ho & Hr0). pose proof (read_receipt _ _ _ _ _ _ _ _ Hrow Ho Hr0 Er) as Ec.
    pose proof (origin_core _ _ _ _ _ Ec Ho) as Hop. pose proof (row_of_core _ _ _ Ec Hr0) as Hrp.
    destruct (can_redeliver prior).
    + destruct (store_reply_receipt _ b1 _ _ _) as [b2|] eqn:Es; [cbn|done]. intros [= <- <- <-]. cbn.
      assert (origin task (ra_card a) (ra_question a) (reserve_again a prior)) as Ho2 by (eapply origin_core; [apply core_reserve|done]).
      assert (∀ row', reply_row b1 (ra_card a) (ra_question a) = Some row' → row_of row' (reserve_again a prior)) as Hprev.
      { intros row' Hrow'. rewrite Hrow in Hrow'. injection Hrow' as <-. eapply row_of_core; [apply core_reserve|done]. }
      destruct (stored_kept _ _ _ _ _ _ _ Hok1 Ho2 Hprev Es) as (H1 & H2 & H3).
      split_and!; [done|by etrans|done|done].
    + intros [= <- <- <-]. cbn. split_and!; [done|done|done|by exists row].
  - unfold first_answer. destruct (existsb _ _); [done|]. destruct (validate_reply_question _ _ _ _ _ _) as [m1 asked].
    destruct asked as [[]|]; [cbn|done]. set (att := reply_attempt b1 card). set (e := set_id _ _).
    destruct (envelope_hash e) as [hash|]; [cbn|done]. set (b2 := upd_cards _ b1). destruct (store_reply_receipt _ b2 _ _ _) as [b3|] eqn:Es; [cbn|done].
    intros [= <- <- <-]. cbn.
    assert (origin task (ra_card a) (ra_question a) (new_receipt env a e hash att)) as Ho by (by exists env, a, att, hash).
    assert (reply_row b1 (ra_card a) (ra_question a) = None) as Hnone.
    { unfold reply_receipt in Er. destruct (reply_row b1 _ _) as [row|]; [|done]. destruct (_ <? _); [done|].
      destruct (envelope_from _); [|done]. apply result_bind_Ok in Er as ([] & _ & ?). done. }
    assert (∀ row', reply_row b2 (ra_card a) (ra_question a) = Some row' → row_of row' (new_receipt env a e hash att)) as Hprev.
    { intros row' Hrow'. change (reply_row b2 (ra_card a) (ra_question a)) with (reply_row b1 (ra_card a) (ra_question a)) in Hrow'. congruence. }
    destruct (stored_kept _ task b2 _ _ _ _ Hok1 Ho Hprev Es) as (H1 & H2 & H3). split_and!; [done|by etrans|done|done].
Qed.

Lemma store_outcome_rows env task a r b m m' b' v :
  rows_ok task b → origin_of_call task a r → on_board b a r → store_outcome env a r b m = (m', Ok (b', v)) →
  rows_ok task b' ∧ rows_kept b b'.
Proof.
  intros Hok [Ht Ho] (row & Hrow & Hof) Hs. unfold store_outcome in Hs. injection Hs as _ Hs.
  apply result_bind_Ok in Hs as ([] & _ & Hs). apply result_bind_Ok in Hs as ([card current] & _ & Hs). destruct (_ || _); [done|].
  apply result_bind_Ok in Hs as (b2 & Hst & [= <- <-]).
  assert (∀ row', reply_row b (ra_card a) (ra_question a) = Some row' → row_of row' r) as Hprev.
  { intros row' Hrow'. rewrite Hrow in Hrow'. by injection Hrow' as <-. }
  by destruct (stored_kept _ _ _ _ _ _ _ Hok Ho Hprev Hst) as (? & ? & _).
Qed.
Lemma confirm_reply_rows env a r b m m' b' v :
  confirm_reply env a r b m = (m', Ok (b', v)) → b' = b.
Proof.
  unfold confirm_reply. destruct (_ : result (BoardCard Value * Receipt) string) as [[card current]|]; [|done]. destruct (_ || _); [done|].
  destruct (validate_reply_question _ _ _ _ _ _) as [m1 [[]|]]; cbn; [|done]. by intros [= _ <-].
Qed.

(** A transaction of the bound planner, from what its closure does; one that fails may have written. *)
Lemma owner_guard_txn {T} env task chat proof guard (updater : _ → _ → _ * result (_ * T) string) w w' res :
  whole_write env → update_board_atomic_with_owner_guard env task chat proof guard updater w = Some (w', res) →
  (∃ e, res = Err e ∧ read_board w' = read_board w)
  ∨ ∃ m m' b' v, updater (read_board w) m = (m', Ok (b', v)) ∧ planner_replies (read_board w') = planner_replies b'
      ∧ match res with Ok cm => c_value _ cm = v | Err _ => True end.
Proof.
  intros Hw. unfold update_board_atomic_with_owner_guard, update_board_atomic_as_bound_planner. destruct proof as [[]|]; [|intros [= <- <-]; left; by eexists].
  intros Hu. assert (∀ settled (v : T) changed board m, ran (C := C) env task (BoundPlanner chat)
    (λ b _ m, match (let? _ := match owner_chat_id b with Some _ => require_owner chat b | None => Ok () end in guard b) with
              | Err e => (m, Err e) | Ok _ => updater b m end) settled w w' v changed board m →
    ∃ m m' b', updater (read_board w) m = (m', Ok (b', v)) ∧ planner_replies (read_board w') = planner_replies b') as Hran.
  { intros settled v changed board m (b0 & Ha & Hup & Hc).
    assert (b0 = read_board w) as ->.
    { unfold authorize in Ha. destruct (current_actor env); [case_bool_decide; [|done]|]; by injection Ha as ->. }
    cbv beta in Hup. match type of Hup with match ?x with _ => _ end = _ => destruct x as [[]|]; [|done] end. exists (w_questions w), m, changed. split; [done|].
    pose proof (commit_on_file _ _ _ _ _ _ _ _ _ Hc) as Hf. by rewrite (of_read _ _ _ _ _ Hf), (of_replies _ _ _ _ _ Hf). }
  apply update_board_cases in Hu. destruct res as [cm|e].
  - destruct Hu as (_ & changed & board & m & Hr & _). right. destruct (Hran _ _ _ _ _ Hr) as (m1 & m2 & b' & ? & ?). by exists m1, m2, b', (c_value _ cm).
  - destruct Hu as [?|[(e' & v & changed & board & m & _ & Hr)|(e' & b & Ht & _)]]; [left; by exists e| |by destruct (Hw e' b)].
    right. destruct (Hran _ _ _ _ _ Hr) as (m1 & m2 & b' & ? & ?). by exists m1, m2, b', v.
Qed.
End serde.
End props.

(** ** Questions of agents to their planner: the whole protocol

    The board of one task, its registry, the calls of [planner_reply] in flight and the sessions of all
    chats, as a transition system whose steps may come in any order: transactions of other writers,
    the steps of calls, deliveries and whatever else happens in sessions, restarts included. *)


Section system.
Context {Value C P : Type} `{MessageSerde C} `{ReplySerde C} `{ChatEnv C P}.
Variables (task_meta : P → option TaskMeta) (chat_of : Session C P → string)
  (privacy : Session C P → PendingDelivery C → result unit string).
Abbreviation TaskBoard := (@TaskBoard Value PlannerReply).
Abbreviation TxnEnv := (TxnEnv TaskBoard).
Abbreviation Receipt := (Reply (PendingDelivery C)).
Abbreviation World := (World (Value := Value)).
Abbreviation Sess := (Session C P).
Implicit Types (b board : TaskBoard) (r : Receipt) (row : PlannerReply) (w : World) (a : ReplyArgs) (s : Sess) (d : PendingDelivery C).
Variable task : string.
Abbreviation origin := (origin (Value := Value)).
Abbreviation origin_of_call := (origin_of_call (Value := Value)).

Record Sys := {
  world : World;
  calls : list (ReplyArgs * Receipt);
  chats : string → Sess;
  arrived : string → list (PendingDelivery C);
}.
Definition set_world w σ : Sys := {| world := w; calls := calls σ; chats := chats σ; arrived := arrived σ |}.
Definition board_of (σ : Sys) : TaskBoard := read_board (world σ).

Inductive sys_step : Sys → Sys → Prop :=
  | ss_txn writer w σ : is_bound writer = false → txn (C := C) task writer (world σ) w → sys_step σ (set_world w σ)
  | ss_bound T env principal proof (updater : _ → _ → _ → _ * result (_ * T) string) w res σ :
      (∀ b self m m' b' v, updater b self m = (m', Ok (b', v)) → planner_replies b' = planner_replies b) →
      whole_write env → update_board_atomic_as_bound_planner env task principal proof updater (world σ) = Some (w, res) →
      sys_step σ (set_world w σ)
  | ss_ask env card chat id question u is_planner error_text w res σ :
      whole_write env → agent_ask_planner env task card chat id question u is_planner error_text (world σ) = Some (w, res) →
      sys_step σ (set_world w σ)
  | ss_begin env a w res σ : begin_reply env a (world σ) = (w, res) → sys_step σ (set_world w σ)
  | ss_record env a proof w cm σ :
      ra_task a = task → whole_write env → record_txn env a proof (world σ) = Some (w, Ok cm) →
      sys_step σ {| world := w; calls := (a, (c_value _ cm).2) :: calls σ; chats := chats σ; arrived := arrived σ |}
  | ss_refused env a proof w e σ :
      ra_task a = task → whole_write env → record_txn env a proof (world σ) = Some (w, Err e) → sys_step σ (set_world w σ)
  | ss_settle env a r σ : (a, r) ∈ calls σ → sys_step σ (set_world (settle_reply env a r (world σ)) σ)
  | ss_confirm env a r proof w res σ :
      (a, r) ∈ calls σ → whole_write env → confirm_txn env a r proof (world σ) = Some (w, res) → sys_step σ (set_world w σ)
  | ss_accept env a r sealed chat at_ms w s out σ :
      (a, r) ∈ calls σ →
      accept_reply task_meta chat_of privacy env r sealed chat (envelope r) at_ms (world σ) (chats σ chat) = (w, s, out) →
      sys_step σ {| world := w; calls := calls σ; chats := <[chat := s]> (chats σ);
                    arrived := <[chat := arrived σ chat ++ match out with Some _ => [envelope r] | None => [] end]> (arrived σ) |}
  | ss_store env a r report proof w res σ :
      (a, r) ∈ calls σ → whole_write env → store_txn env a (with_report report r) proof (world σ) = Some (w, res) → sys_step σ (set_world w σ)
  | ss_session chat new s σ :
      step (chats σ chat) new s → Forall (λ d, is_planner_reply_delivery d = false) new →
      sys_step σ {| world := world σ; calls := calls σ; chats := <[chat := s]> (chats σ);
                    arrived := <[chat := arrived σ chat ++ new]> (arrived σ) |}.

(** No reply is on record, none is under way, and no session was given or has received any delivery. *)
Definition fresh (σ : Sys) : Prop :=
  planner_replies (board_of σ) = ∅ ∧ calls σ = []
  ∧ ∀ chat, no_deliveries (chats σ chat) ∧ stamps (messages (chats σ chat)) = [] ∧ arrived σ chat = [].

(** ** The invariant *)

(** [d] is the envelope of the reply on record for a question, whose attempt has this chat. *)
Definition recorded_reply b (chat : string) d : Prop :=
  ∃ card q r row, origin task card q r ∧ d = envelope r ∧ pa_chat_id (attempt r) = Some chat
  ∧ is_question_id q = true ∧ reply_row b card q = Some row ∧ row_of row r.
Record sys_inv (σ : Sys) : Prop := {
  si_rows : rows_ok task (board_of σ);
  si_calls a r : (a, r) ∈ calls σ → origin_of_call task a r ∧ on_board (board_of σ) a r;
  si_arrived chat d : d ∈ arrived σ chat → is_planner_reply_delivery d = false ∨ recorded_reply (board_of σ) chat d;
  si_ledger chat : ∃ l, ledger (arrived σ chat) l (chats σ chat);
}.

Lemma on_board_kept b b' a r : rows_kept b b' → on_board b a r → on_board b' a r.
Proof.
  intros Hk (row & Hrow & v & Hv & Hc). destruct (Hk _ _ _ Hrow) as (row' & ? & E). exists row'. split; [done|]. exists v. by rewrite E.
Qed.
Lemma recorded_kept b b' chat d : rows_kept b b' → recorded_reply b chat d → recorded_reply b' chat d.
Proof.
  intros Hk (card & q & r & row & Ho & Hd & Hc & Hq & Hrow & v & Hv & E). destruct (Hk _ _ _ Hrow) as (row' & Hrow' & E').
  exists card, q, r, row'. split_and!; try done. exists v. by rewrite E'.
Qed.
(** A step that leaves the sessions and the calls alone. *)
Lemma inv_world σ w : rows_ok task (read_board w) → rows_kept (board_of σ) (read_board w) → sys_inv σ → sys_inv (set_world w σ).
Proof.
  intros Hok Hk [_ Hc Ha Hl]. split; cbn; [done| | |done].
  - intros a r Hin. destruct (Hc a r Hin). split; [done|]. by eapply on_board_kept.
  - intros chat d Hd. destruct (Ha chat d Hd) as [?|?]; [by left|right]. by eapply recorded_kept.
Qed.
Lemma inv_same σ w : planner_replies (read_board w) = planner_replies (board_of σ) → sys_inv σ → sys_inv (set_world w σ).
Proof.
  intros E Hi. pose proof (rows_same _ _ E) as Hs. apply inv_world; [| |done].
  - intros c q row Hrow. rewrite Hs in Hrow. by apply (si_rows _ Hi c q).
  - intros c q row Hrow. exists row. by rewrite Hs.
Qed.

Lemma txn_replies writer w w' : is_bound writer = false → txn (C := C) task writer w w' → planner_replies (read_board w') = planner_replies (read_board w).
Proof.
  intros Hw Ht. apply txn_cases in Ht as [->|(paused & changed & Hf)]; [done| |done].
  rewrite (of_read _ _ _ _ _ Hf), (of_replies _ _ _ _ _ Hf). by apply Hf.
Qed.
Lemma ask_replies env card chat id question u is_planner error_text w w' res :
  whole_write env → agent_ask_planner env task card chat id question u is_planner error_text w = Some (w', res) →
  planner_replies (read_board w') = planner_replies (read_board w).
Proof.
  intros Hw. unfold agent_ask_planner. destruct (ask _ _ _ _ _) as [m [contract|]]; [|by intros [= <- _]].
  destruct (update_board_atomic _ _ _ _ _) as [[w1 r]|] eqn:Eu; [cbn|done].
  assert (planner_replies (read_board w1) = planner_replies (read_board w)) as E.
  { unfold update_board_atomic in Eu. change (read_board w) with (read_board (set_questions m w)).
    eapply (txn_replies (match current_actor env with Some actor => if is_planner actor then Planner actor else Internal | None => Internal end));
      [|eapply txn_update; [exact Hw|exact Eu]]. by destruct (current_actor env) as [x|]; [destruct (is_planner x)|]. }
  destruct r; by intros [= <- _].
Qed.
Lemma begin_replies env a w w' res : begin_reply env a w = (w', res) → read_board w' = read_board w.
Proof.
  unfold begin_reply. repeat (case_match; [..|]); try (by intros [= <- _]); repeat case_match; by intros [= <- _].
Qed.
Lemma bound_replies {T} env principal proof (updater : _ → _ → _ → _ * result (_ * T) string) w w' res :
  (∀ b self m m' b' v, updater b self m = (m', Ok (b', v)) → planner_replies b' = planner_replies b) →
  whole_write env → update_board_atomic_as_bound_planner env task principal proof updater w = Some (w', res) →
  planner_replies (read_board w') = planner_replies (read_board w).
Proof.
  intros Hk Hw. unfold update_board_atomic_as_bound_planner. destruct proof as [[]|]; [|by intros [= <- _]].
  intros Hu. destruct (update_board_on_file _ _ _ _ _ _ _ _ Hw Hu) as [->|(settled & v & changed & board & m & (b0 & Ha & Hup & _) & Hf)]; [done|].
  rewrite (of_read _ _ _ _ _ Hf), (of_replies _ _ _ _ _ Hf), (Hk _ _ _ _ _ _ Hup).
  by apply authorize_fields in Ha as (? & _).
Qed.

(** ** A reply arrives *)

Lemma valid_receipt_id settings b card q r : reply_receipt settings b card q = Ok (Some r) → is_question_id q = true.
Proof.
  unfold reply_receipt. destruct (reply_row b card q) as [row|]; [|done]. destruct (_ <? _); [done|].
  destruct (envelope_from _) as [e|]; [|done]. intros ([] & Hv & _)%result_bind_Ok. unfold validate_reply_envelope in Hv.
  destruct (privacy_records _) as [[records bytes]|]; [|done]. destruct (pd_messages _) as [|first rest]; [done|]. cbv zeta in Hv.
  destruct (receipt_refused _ _ _ _) eqn:E; [done|]. unfold receipt_refused in E. destruct (is_question_id q); [done|].
  repeat (rewrite ?orb_true_r, ?orb_true_l in E; cbn [negb] in E). done.
Qed.
Lemma enqueue_err d at_ms s s' e : enqueue_delivery d at_ms s = (s', Err e) → s' = s.
Proof.
  unfold enqueue_delivery. destruct (check_delivery d s); [|by intros [= <- _]]. destruct (knows_delivery_id _ _); [done|]. cbv zeta.
  repeat case_match; by intros [= <- _] || by intros [= ].
Qed.

Lemma accept_reply_cases env r sealed chat at_ms w s w' s' out :
  accept_reply task_meta chat_of privacy env r sealed chat (envelope r) at_ms w s = (w', s', out) →
  read_board w' = read_board w
  ∧ (s' = s ∧ out = None
     ∨ (∃ current, reply_receipt (process_settings env) (read_board w) (pr_card_id r) (question_id r) = Ok (Some current)
          ∧ pa_chat_id (attempt current) = Some chat)
       ∧ ((s' = s ∧ out = None) ∨ (out ≠ None ∧ step s [] s') ∨ (out ≠ None ∧ step s [envelope r] s'))).
Proof.
  unfold accept_reply, accept_reply_delivery. destruct (opened env) as [[]|]; [cbn|by intros [= <- <- <-]; split; [|left]].
  destruct (require_owner _ _) as [[]|]; [cbn|by intros [= <- <- <-]; split; [|left]].
  destruct (get_card _ _) as [card|]; [cbn|by intros [= <- <- <-]; split; [|left]].
  destruct (reply_receipt _ _ _ _) as [[current|]|] eqn:Er; [cbn|by intros [= <- <- <-]; split; [|left]..].
  destruct (validate_reply_envelope _ _ _ _ _) as [[]|]; [cbn|by intros [= <- <- <-]; split; [|left]].
  destruct (accept_refused _ _ _ _ _ _) eqn:Ea; [by intros [= <- <- <-]; split; [|left]|].
  destruct (validate_reply_question _ _ _ _ _ _) as [m [[]|]]; cbn; [|by intros [= <- <- <-]; split; [|left]].
  destruct (validate_reply_session _ _ _ _ _ _ _) as [[]|]; [|by intros [= <- <- <-]; split; [|left]].
  assert (pa_chat_id (attempt current) = Some chat) as Hcur.
  { unfold accept_refused in Ea. apply orb_false_iff in Ea as [_ Ea]. by apply negb_false_iff, bool_decide_eq_true in Ea. }
  assert (∃ c, Ok (Some current) = Ok (E := string) (Some c) ∧ pa_chat_id (attempt c) = Some chat) as Hex by (by exists current).
  unfold enqueue. destruct (closed s); [intros [= <- <- <-]; split; [done|]; right; split; [done|by left]|].
  destruct sealed.
  - pose proof (step_sealed (pd_id (envelope r)) s) as Hs. destruct (drop_sealed_delivery _ _) as [s1 o]. intros [= <- <- <-].
    split; [done|]. right. split; [done|]. right. by left.
  - pose proof (step_enqueue (envelope r) at_ms s) as Hs. destruct (enqueue_delivery _ _ _) as [s1 [o|e]] eqn:Ee; intros [= <- <- <-];
      (split; [done|]); right; (split; [done|]).
    + right. by right.
    + left. split; [|done]. by eapply enqueue_err.
Qed.

Lemma rows_kept_refl b : rows_kept b b.
Proof. intros c q row ?. by exists row. Qed.

Hypothesis Hserde : envelopes_round_trip (Value := Value) (C := C).

Lemma inv_accept env a r sealed chat at_ms w s out σ :
  sys_inv σ → (a, r) ∈ calls σ →
  accept_reply task_meta chat_of privacy env r sealed chat (envelope r) at_ms (world σ) (chats σ chat) = (w, s, out) →
  sys_inv {| world := w; calls := calls σ; chats := <[chat := s]> (chats σ);
             arrived := <[chat := arrived σ chat ++ match out with Some _ => [envelope r] | None => [] end]> (arrived σ) |}.
Proof.
  intros [Hr Hc Ha Hl] Hin Hacc. apply accept_reply_cases in Hacc as [Eb Hcase].
  destruct (Hc a r Hin) as [[Ht Ho] (row & Hrow & Hof)].
  assert (pr_card_id r = ra_card a ∧ question_id r = ra_question a) as [Ecard Eq].
  { destruct Ho as (env0 & a0 & att & hash & _ & <- & <- & Hcore). by apply core_fields in Hcore as (_ & ? & ? & _). }
  assert (out ≠ None → recorded_reply (board_of σ) chat (envelope r)) as Hrec.
  { intros Hout. destruct Hcase as [[_ ?]|[(current & Hcur & Hchat) _]]; [done|]. rewrite Ecard, Eq in Hcur.
    exists (ra_card a), (ra_question a), r, row. split_and!; try done; [|by eapply valid_receipt_id].
    pose proof (read_receipt Hserde _ _ _ _ _ _ _ _ Hrow Ho Hof Hcur) as Ec. apply core_fields in Ec as (_ & _ & _ & <- & _). done. }
  split; cbn; unfold board_of in *; cbn; rewrite ?Eb; [done|done| |].
  - intros chat' d Hd. destruct (decide (chat' = chat)) as [->|Hne].
    + rewrite fn_lookup_insert in Hd. apply elem_of_app in Hd as [Hd|Hd]; [by apply Ha|]. right.
      destruct out; [apply list_elem_of_singleton in Hd as ->; by apply Hrec|by apply elem_of_nil in Hd].
    + rewrite fn_lookup_insert_ne in Hd by done. by apply Ha.
  - intros chat'. destruct (decide (chat' = chat)) as [->|Hne].
    + rewrite !fn_lookup_insert. destruct (Hl chat) as [l Hl0]. set (new := match out with Some _ => _ | None => _ end).
      assert (s = chats σ chat ∨ step (chats σ chat) [] s ∨ (new = [envelope r] ∧ step (chats σ chat) [envelope r] s)) as Hs.
      { unfold new. destruct Hcase as [[-> _]|[_ [[-> _]|[[_ ?]|[Hout ?]]]]]; [by left|by left|right; by left|right; right]. destruct out; [by split|done]. }
      clearbody new. destruct Hs as [->|[Hs|[-> Hs]]].
      * exists l. eapply ledger_mono; [|exact Hl0]. set_solver.
      * destruct (ledger_step exactly _ _ _ _ _ Hl0 Hs) as [l' Hl']. exists l'. eapply ledger_mono; [|exact Hl']. set_solver.
      * by eapply (ledger_step exactly).
    + rewrite !fn_lookup_insert_ne by done. apply Hl.
Qed.

Lemma inv_session chat new s σ :
  sys_inv σ → step (chats σ chat) new s → Forall (λ d, is_planner_reply_delivery d = false) new →
  sys_inv {| world := world σ; calls := calls σ; chats := <[chat := s]> (chats σ); arrived := <[chat := arrived σ chat ++ new]> (arrived σ) |}.
Proof.
  intros [Hr Hc Ha Hl] Hs Hnew. split; cbn; [done|done| |].
  - intros chat' d Hd. destruct (decide (chat' = chat)) as [->|Hne].
    + rewrite fn_lookup_insert in Hd. apply elem_of_app in Hd as [Hd|Hd]; [by apply Ha|]. left. rewrite Forall_forall in Hnew. exact (Hnew d Hd).
    + rewrite fn_lookup_insert_ne in Hd by done. by apply Ha.
  - intros chat'. destruct (decide (chat' = chat)) as [->|Hne].
    + rewrite !fn_lookup_insert. destruct (Hl chat) as [l Hl0]. by eapply (ledger_step exactly).
    + rewrite !fn_lookup_insert_ne by done. apply Hl.
Qed.

(** Every step keeps the invariant and what is on record. *)
Lemma step_inv σ σ' : sys_inv σ → sys_step σ σ' → sys_inv σ' ∧ rows_kept (board_of σ) (board_of σ').
Proof.
  intros Hi Hs. assert (∀ w, planner_replies (read_board w) = planner_replies (board_of σ) →
    sys_inv (set_world w σ) ∧ rows_kept (board_of σ) (board_of (set_world w σ))) as Hsame.
  { intros w E. split; [by apply inv_same|]. intros c q row Hrow. exists row. split; [|done]. unfold board_of. cbn. by rewrite (rows_same _ _ E). }
  assert (∀ w, rows_ok task (read_board w) → rows_kept (board_of σ) (read_board w) →
    sys_inv (set_world w σ) ∧ rows_kept (board_of σ) (board_of (set_world w σ))) as Hrows.
  { intros w Hok Hk. split; [by apply inv_world|done]. }
  assert (∀ w b', planner_replies (read_board w) = planner_replies b' → rows_ok task b' → rows_kept (board_of σ) b' →
    rows_ok task (read_board w) ∧ rows_kept (board_of σ) (read_board w)) as Hlike.
  { intros w b' E Hok Hk. pose proof (rows_same _ _ E) as Es. split; intros c q row Hrow.
    - rewrite Es in Hrow. by apply (Hok c q).
    - rewrite Es. by apply Hk. }
  destruct Hs as [writer w σ Hw Ht|T env pr proof upd w res σ Hk Hww Hu|env card chat id q u isp et w res σ Hww Hu|env a w res σ Hb|env a proof w cm σ Ht Hww Hu
    |env a proof w e σ Ht Hww Hu|env a r σ Hin|env a r proof w res σ Hin Hww Hu|env a r sealed chat at_ms w s out σ Hin Hacc|env a r report proof w res σ Hin Hww Hu
    |chat new s σ Hs Hnew].
  - apply Hsame. by eapply txn_replies.
  - apply Hsame. by eapply bound_replies.
  - apply Hsame. by eapply ask_replies.
  - apply Hsame. by rewrite (begin_replies _ _ _ _ _ Hb).
  - apply owner_guard_txn in Hu as [(e & ? & _)|(m & m' & b' & v & Hup & E & Ev)]; [done| |done]. subst v. pose proof (rows_same _ _ E) as Es.
    destruct (record_reply_rows Hserde _ _ _ _ _ _ _ _ Ht (si_rows _ Hi) Hup) as (Hok & Hk & Ho & Hon).
    destruct (Hlike w b' E Hok Hk) as [Hok' Hk']. split; [|exact Hk']. destruct Hi as [_ Hc Ha Hl]. split; unfold board_of; cbn; [done| | |done].
    + intros a' r' [[= -> ->]|Hin]%elem_of_cons.
      * split; [done|]. destruct Hon as (row & ? & ?). exists row. by rewrite Es.
      * destruct (Hc a' r' Hin). split; [done|]. by eapply on_board_kept.
    + intros chat d Hd. destruct (Ha chat d Hd) as [?|?]; [by left|right]. by eapply recorded_kept.
  - apply owner_guard_txn in Hu as [(e' & _ & E)|(m & m' & b' & v & Hup & E & _)]; [apply Hsame; unfold board_of; by rewrite E| |done].
    destruct v as [known receipt]. destruct (record_reply_rows Hserde _ _ _ _ _ _ _ _ Ht (si_rows _ Hi) Hup) as (Hok & Hk & _ & _).
    destruct (Hlike w b' E Hok Hk) as [? ?]. by apply Hrows.
  - by apply Hsame.
  - apply owner_guard_txn in Hu as [(e' & _ & E)|(m & m' & b' & v & Hup & E & _)]; [apply Hsame; unfold board_of; by rewrite E| |done].
    apply Hsame. apply confirm_reply_rows in Hup as ->. done.
  - split; [by eapply inv_accept|]. apply accept_reply_cases in Hacc as [E _]. unfold board_of. cbn. rewrite E. apply rows_kept_refl.
  - destruct (si_calls _ Hi _ _ Hin) as [[Ht Ho] Hon].
    assert (origin_of_call task a (with_report report r)) as Hor by (split; [done|]; by eapply origin_core; [apply core_with_state|]).
    assert (on_board (board_of σ) a (with_report report r)) as Hon'.
    { destruct Hon as (row & ? & ?). exists row. split; [done|]. by eapply row_of_core; [apply core_with_state|]. }
    apply owner_guard_txn in Hu as [(e' & _ & E)|(m & m' & b' & v & Hup & E & _)]; [apply Hsame; unfold board_of; by rewrite E| |done].
    destruct (store_outcome_rows _ _ _ _ _ _ _ _ _ (si_rows _ Hi) Hor Hon' Hup) as [Hok Hk].
    destruct (Hlike w b' E Hok Hk) as [? ?]. by apply Hrows.
  - split; [by apply inv_session|]. apply rows_kept_refl.
Qed.

Lemma fresh_inv σ : fresh σ → sys_inv σ.
Proof.
  intros (Hr & Hc & Hs). split.
  - intros c q row Hrow. unfold reply_row in Hrow. by rewrite Hr in Hrow.
  - rewrite Hc. by intros a r ?%elem_of_nil.
  - intros chat d Hd. destruct (Hs chat) as (_ & _ & E). rewrite E in Hd. by apply elem_of_nil in Hd.
  - intros chat. destruct (Hs chat) as ((E1 & E2 & E3 & _ & E5) & Hst & E). exists []. rewrite E.
    split; rewrite ?E1, ?E2, ?E3, ?E5, ?Hst; try done; [constructor|set_solver].
Qed.
Lemma run_inv σ σ' : sys_inv σ → rtc sys_step σ σ' → sys_inv σ' ∧ rows_kept (board_of σ) (board_of σ').
Proof.
  intros Hi Hr. revert Hi. induction Hr as [σ|σ1 σ2 σ3 Hs _ IH]; intros Hi; [split; [done|apply rows_kept_refl]|].
  destruct (step_inv _ _ Hi Hs) as [Hi2 Hk]. destruct (IH Hi2) as [? Hk2]. split; [done|].
  intros c q row Hrow. destruct (Hk _ _ _ Hrow) as (row2 & Hrow2 & E). destruct (Hk2 _ _ _ Hrow2) as (row3 & ? & E3). exists row3. by rewrite E3.
Qed.

(** C15. A recorded answer never changes: whatever agents, planners, other writers, deliveries and restarts do
    afterwards, the question has the same answer, given by the same planner to the same attempt, and the
    same envelope; only how its delivery went is updated. *)
Theorem answers_never_change σ0 σ1 σ2 card q row :
  fresh σ0 → rtc sys_step σ0 σ1 → rtc sys_step σ1 σ2 →
  reply_row (board_of σ1) card q = Some row →
  ∃ row', reply_row (board_of σ2) card q = Some row'
    ∧ pr_answer row' = pr_answer row ∧ planner_chat_id row' = planner_chat_id row ∧ attempt row' = attempt row
    ∧ envelope row' = envelope row ∧ pr_answered_at row' = pr_answered_at row ∧ action_id row' = action_id row.
Proof.
  intros Hf Hr1 Hr2 Hrow. destruct (run_inv _ _ (fresh_inv _ Hf) Hr1) as [Hi _]. destruct (run_inv _ _ Hi Hr2) as [_ Hk].
  destruct (Hk _ _ _ Hrow) as (row' & ? & E). exists row'. split; [done|]. injection E. intros. by split_and!.
Qed.

(** ** Exactly one chat, once *)

Lemma batch_ids d i x : (i, x) ∈ ((λ p, (p.1.1, p)) <$> batch d) → i = pd_id d.
Proof. intros (p & [= -> ->] & Hp)%list_elem_of_fmap. apply list_elem_of_fmap in Hp as (m & -> & _). done. Qed.


(** The digest is of a fixed length, as of SHA-256 in hexadecimal digits. *)
Hypothesis Hdigest : ∀ x, String.length (digest_of (C := C) x) = 64%nat.



End system.
