(* ===== verification/Peers.v ===== *)
(** * Authority between peers

    [coordination/peer_authority.rs]: the registry of grants by which the chats of one root may see, write
    to or control those of another, and what asks it: the tool [agent_peer_grant] and the check of peer mail
    ([tools/tool_agent_interact.rs], [agents/delivery.rs]), the control of agents
    ([tools/tool_background_agents.rs]) and the authority of questions ([questions.rs]). *)

From stdpp Require Import gmap strings list pretty.
From S2P Require Import Prelude RustStr Settings Delivery Question Board.
Local Open Scope N_scope.

(** ** Grants *)

Inductive PeerAuthority := Metadata | Mail | Control.
#[global] Instance PeerAuthority_eq_dec : EqDecision PeerAuthority.
Proof. solve_decision. Defined.
Definition authority_rank (a : PeerAuthority) : N := match a with Metadata => 1 | Mail => 2 | Control => 3 end.
Definition authority_allows (self required : PeerAuthority) : bool := authority_rank required <=? authority_rank self.

Record PeerGrant := {
  pg_project : string; pg_sender_root : string; pg_recipient_root : string; pg_authority : PeerAuthority;
  granted_by : string; expires_at_ms_ : N }.
#[global] Instance PeerGrant_eq_dec : EqDecision PeerGrant.
Proof. solve_decision. Defined.
Abbreviation Grants := (gmap (string * string * string) PeerGrant).
Definition grant_key (g : PeerGrant) : string * string * string := (pg_project g, pg_sender_root g, pg_recipient_root g).
Definition retain_grants (now_ms : N) (m : Grants) : Grants := filter (λ p, now_ms < expires_at_ms_ p.2) m.

(** [PeerGrantRegistry]: each operation holds the lock. *)
Definition grant_refused (g : PeerGrant) : bool :=
  blank (pg_project g) || blank (pg_sender_root g) || blank (pg_recipient_root g) || blank (granted_by g)
  || bool_decide (pg_sender_root g = pg_recipient_root g).
Definition grant (max_count : N) (g : PeerGrant) (now_ms : N) (m : Grants) : Grants * result unit string :=
  if grant_refused g then (m, Err "peer grant identities must be distinct and nonempty")
  else if expires_at_ms_ g <=? now_ms then (m, Err "peer grant is already expired")
  else
    let m := retain_grants now_ms m in
    match m !! grant_key g with
    | Some existing =>
        if authority_rank (pg_authority g) <? authority_rank (pg_authority existing)
        then (m, Err "peer grant cannot be silently narrowed or replaced")
        else (<[grant_key g := g]> m, Ok ())
    | None =>
        if max_count <=? N.of_nat (size m) then (m, Err "peer grant registry is full")
        else (<[grant_key g := g]> m, Ok ())
    end.
Definition allows (project sender recipient : string) (required : PeerAuthority) (now_ms : N) (m : Grants) : Grants * bool :=
  let m := retain_grants now_ms m in
  (m, match m !! (project, sender, recipient) with
      | Some g => authority_allows (pg_authority g) required
      | None => false
      end).
Definition get_grant (project sender recipient : string) (now_ms : N) (m : Grants) : option PeerGrant :=
  g ← m !! (project, sender, recipient);
  if now_ms <? expires_at_ms_ g then Some g else None.
Definition revoke_grant (project sender recipient : string) (m : Grants) : Grants * bool :=
  (delete (project, sender, recipient) m, bool_decide (is_Some (m !! (project, sender, recipient)))).

(** ** The tool [agent_peer_grant] *)

Definition parse_authority (value : option string) : result PeerAuthority string :=
  match value with
  | Some a =>
      if bool_decide (a = "metadata"%string) then Ok Metadata
      else if bool_decide (a = "mail"%string) then Ok Mail
      else if bool_decide (a = "control"%string) then Ok Control
      else Err "authority must be metadata, mail or control"
  | None => Err "authority must be metadata, mail or control"
  end.
Definition user_grant (settings : CoordinationSettings) (project chat_id sender recipient : string) (a : PeerAuthority)
    (ttl_secs : option N) (now_ms : N) : PeerGrant := {|
  pg_project := project; pg_sender_root := sender; pg_recipient_root := recipient; pg_authority := a;
  granted_by := "chat:" +:+ chat_id;
  expires_at_ms_ := now_ms +sat (default (peer_grant_default_ttl_secs settings) ttl_secs *sat 1000) |}.
(** [visible]: the recipient is one of the roots the caller sees in its project.  The clock is read twice. *)
Definition agent_peer_grant (settings : CoordinationSettings) (project chat_id sender_root recipient_root : string)
    (visible revoke : bool) (authority : option string) (ttl_secs : option N) (now1 now2 : N) (m : Grants)
  : Grants * result bool string :=
  if bool_decide (recipient_root = sender_root) then (m, Err "recipient_root must identify a different root")
  else if negb visible then (m, Err "recipient root is not visible in this project")
  else if revoke then let '(m, removed) := revoke_grant project sender_root recipient_root m in (m, Ok removed)
  else
    match parse_authority authority with
    | Err e => (m, Err e)
    | Ok a =>
        let ttl := default (peer_grant_default_ttl_secs settings) ttl_secs in
        if (1 <=? ttl) && (ttl <=? peer_grant_max_ttl_secs settings) then
          let '(m, r) :=
            grant (peer_grant_max_count settings) (user_grant settings project chat_id sender_root recipient_root a ttl_secs now1) now2 m in
          (m, let? _ := r in Ok true)
        else (m, Err ("ttl_secs must be between 1 and " +:+ pretty (peer_grant_max_ttl_secs settings)))
    end.

(** ** What asks the registry *)

(** What these checks read of a background agent. *)
Record AgentRecord := { ar_agent_id : string; ar_parent_chat_id : string; ar_parent_root_chat_id : option string }.
Definition target_root_of (target : AgentRecord) : string := default (ar_parent_chat_id target) (ar_parent_root_chat_id target).
Definition names_agent (id : string) (l : list AgentRecord) : bool := existsb (λ r, bool_decide (ar_agent_id r = id)) l.
Definition peer_mail_refusal (agent_id : string) : string :=
  "Background agent '" +:+ agent_id +:+ "' is not reachable from this chat. Cross-root mail requires an explicit same-project mail grant; discovery grants no messaging or control authority.".

(** [descendants]: of the calling agent; [all]: every record; [scope]: the project of the target's saved scope. *)
Definition can_message_agent (target : option AgentRecord) (caller_chat root_chat : string) (descendants : option (list AgentRecord))
    (all : list AgentRecord) (scope : option string) (target_id : string) (now_ms : N) (m : Grants)
  : Grants * result (option PeerMailStamp) string :=
  match target with
  | None => (m, Err (peer_mail_refusal target_id))
  | Some target =>
      if bool_decide (ar_parent_chat_id target = caller_chat) then (m, Ok None)
      else if match descendants with
              | Some l => names_agent target_id l
              | None => existsb (λ r, bool_decide (ar_agent_id r = target_id)
                                      && (bool_decide (ar_parent_chat_id r = root_chat)
                                          || bool_decide (ar_parent_root_chat_id r = Some root_chat))) all
              end then (m, Ok None)
      else if bool_decide (target_root_of target = root_chat)
      then (m, Err "You may only message your direct children or descendants.")
      else
        match scope with
        | None => (m, Err (peer_mail_refusal target_id))
        | Some project =>
            let '(m, ok) := allows project root_chat (target_root_of target) Mail now_ms m in
            (m, if ok then Ok (Some {| peer_project := project; sender_root := root_chat; recipient_root := target_root_of target |})
                else Err (peer_mail_refusal target_id))
        end
  end.

Definition not_found_error (agent_id : string) : string := "Background agent '" +:+ agent_id +:+ "' not found in this chat.".
Definition map_registry_error (agent_id error : string) : string :=
  if bool_decide (error = "agent not found"%string) then not_found_error agent_id else error.
(** [own]: what the registry of agents answers for the caller's chat. *)
Definition authorize_agent_control (own : option AgentRecord) (descendants : option (list AgentRecord)) (any : result AgentRecord string)
    (scope : option string) (caller_root agent_id : string) (now_ms : N) (m : Grants) : Grants * result AgentRecord string :=
  match own with
  | Some record => (m, Ok record)
  | None =>
      match (l ← descendants; snd <$> list_find (λ r, ar_agent_id r = agent_id) l) with
      | Some record => (m, Ok record)
      | None =>
          match any with
          | Err e => (m, Err (map_registry_error agent_id e))
          | Ok record =>
              match scope with
              | None => (m, Err (not_found_error agent_id))
              | Some project =>
                  let '(m, ok) := allows project caller_root (target_root_of record) Control now_ms m in
                  (m, if ok then Ok record else Err (not_found_error agent_id))
              end
          end
      end
  end.

Definition peer_delivery_authorized {C} (delivery : PendingDelivery C) (now_ms : N) (m : Grants) : Grants * bool :=
  match peer_mail delivery with
  | None => (m, true)
  | Some stamp => allows (peer_project stamp) (sender_root stamp) (recipient_root stamp) Mail now_ms m
  end.

Inductive AuthorityOutcome := Allowed | EscalateToUser.
Definition required_authority (kind : QuestionKind) : PeerAuthority :=
  match kind with PlanApproval | PermissionEscalation => Control | _ => Mail end.
Definition authority_name (a : PeerAuthority) : string :=
  match a with Metadata => "Metadata" | Mail => "Mail" | Control => "Control" end.
Definition resolve_authority (project asker_root answerer_root : string) (kind : QuestionKind) (now_ms : N) (m : Grants)
  : Grants * result AuthorityOutcome string :=
  if bool_decide (kind = UserInput) || bool_decide (answerer_root = "user"%string) then (m, Ok Allowed)
  else if blank asker_root || blank answerer_root || blank project
  then (m, Err "question authority requires a project and both principals")
  else if bool_decide (asker_root = answerer_root) then (m, Ok Allowed)
  else
    let '(m, ok) := allows project asker_root answerer_root (required_authority kind) now_ms m in
    (m,
     if ok then Ok Allowed
     else match kind with
          | PlanApproval | PermissionEscalation => Ok EscalateToUser
          | _ => Err (answerer_root +:+ " is outside the authorized tree of " +:+ asker_root +:+ " and holds no "
                      +:+ authority_name (required_authority kind) +:+ " peer grant")
          end).
