(* ===== verification/Teams.v ===== *)
(** * Teams

    [coordination/teams.rs]: named teams and their roles, the seats of a team in a project with the log of what
    happened in it, and roles that hand on peer authority; the tools [team_seat] and [team_role_grant]
    ([tools/tool_team.rs]). *)

From stdpp Require Import gmap strings list pretty.
From S2P Require Import Prelude RustStr Identity Settings BoardTypes Delivery Board Peers.
Local Open Scope N_scope.

(** ** Teams and roles *)

Record RoleSpec := {
  role_name : string; default_profile : option string; authority_ceiling : option PeerAuthority; peer_mail_ttl_secs : N }.
#[global] Instance RoleSpec_eq_dec : EqDecision RoleSpec.
Proof. solve_decision. Defined.
Record TeamSpec := { team_name : string; roles : list RoleSpec }.
#[global] Instance TeamSpec_eq_dec : EqDecision TeamSpec.
Proof. solve_decision. Defined.

Inductive TeamRefusal :=
  | UnnamedTeam | UnnamedRole | DuplicateRole (role : string) | TooManyRoles (limit : N) | TooManyTeams (limit : N)
  | UnknownTeam (team : string).
Definition team_refusal_text (r : TeamRefusal) : string :=
  match r with
  | UnnamedTeam => "a team needs a name"
  | UnnamedRole => "a role needs a name"
  | DuplicateRole role => "role `" +:+ role +:+ "` is defined twice"
  | TooManyRoles limit => "a team may define at most " +:+ pretty limit +:+ " roles"
  | TooManyTeams limit => "at most " +:+ pretty limit +:+ " teams may be registered"
  | UnknownTeam team => "team `" +:+ team +:+ "` is not registered"
  end.

Definition new_role (settings : CoordinationSettings) (name : string) : RoleSpec := {|
  role_name := name; default_profile := None; authority_ceiling := None;
  peer_mail_ttl_secs := peer_grant_default_ttl_secs settings |}.
(** The loop of [TeamSpec::new] over its roles. *)
Fixpoint check_roles (seen : gset string) (l : list RoleSpec) : result unit TeamRefusal :=
  match l with
  | [] => Ok ()
  | role :: l =>
      if blank (role_name role) then Err UnnamedRole
      else if bool_decide (role_name role ∈ seen) then Err (DuplicateRole (role_name role))
      else check_roles ({[role_name role]} ∪ seen) l
  end.
Definition new_team (settings : CoordinationSettings) (name : string) (l : list RoleSpec) : result TeamSpec TeamRefusal :=
  if blank name then Err UnnamedTeam
  else if team_role_max_count settings <? Nlen l then Err (TooManyRoles (team_role_max_count settings))
  else let? _ := check_roles ∅ l in Ok {| team_name := name; roles := l |}.
Definition find_role (team : TeamSpec) (name : string) : option RoleSpec :=
  snd <$> list_find (λ r, role_name r = name) (roles team).

(** [TeamCatalog]: its teams by name. *)
Record TeamCatalog := { teams : gmap string TeamSpec }.
Definition catalog_register (settings : CoordinationSettings) (team : TeamSpec) (c : TeamCatalog) : TeamCatalog * result unit TeamRefusal :=
  if negb (bool_decide (is_Some (teams c !! team_name team))) && (team_max_count settings <=? N.of_nat (size (teams c)))
  then (c, Err (TooManyTeams (team_max_count settings)))
  else ({| teams := <[team_name team := team]> (teams c) |}, Ok ()).
Definition catalog_get (c : TeamCatalog) (name : string) : option TeamSpec := teams c !! name.
Definition catalog_names (c : TeamCatalog) : list string := (btree_list (teams c)).*1.

(** [load_team], from the configuration that was read. *)
Record RoleConfig := {
  rc_name : string; rc_default_profile : option string; rc_authority_ceiling : option string; rc_peer_mail_ttl_secs : option N }.
Definition parse_ceiling (team : string) (c : option string) : result (option PeerAuthority) string :=
  match c with
  | None => Ok None
  | Some c =>
      if bool_decide (c = "metadata"%string) then Ok (Some Metadata)
      else if bool_decide (c = "mail"%string) then Ok (Some Mail)
      else if bool_decide (c = "control"%string) then Ok (Some Control)
      else Err ("team `" +:+ team +:+ "` has unknown authority ceiling `" +:+ c +:+ "`")
  end.
Definition role_of_config (settings : CoordinationSettings) (team : string) (c : RoleConfig) : result RoleSpec string :=
  let? ceiling := parse_ceiling team (rc_authority_ceiling c) in
  let role ttl := {| role_name := rc_name c; default_profile := rc_default_profile c; authority_ceiling := ceiling;
                     peer_mail_ttl_secs := ttl |} in
  match rc_peer_mail_ttl_secs c with
  | None => Ok (role (peer_mail_ttl_secs (new_role settings (rc_name c))))
  | Some ttl =>
      if (1 <=? ttl) && (ttl <=? peer_grant_max_ttl_secs settings) then Ok (role ttl)
      else Err ("team `" +:+ team +:+ "` role `" +:+ rc_name c +:+ "` has peer_mail_ttl_secs " +:+ pretty ttl
                +:+ " outside 1..=" +:+ pretty (peer_grant_max_ttl_secs settings))
  end.
Fixpoint roles_of_config (settings : CoordinationSettings) (team : string) (l : list RoleConfig) : result (list RoleSpec) string :=
  match l with
  | [] => Ok []
  | c :: l => let? role := role_of_config settings team c in let? rest := roles_of_config settings team l in Ok (role :: rest)
  end.
Definition load_team (settings : CoordinationSettings) (name : string) (config : result (list RoleConfig) string)
  : result TeamSpec string :=
  let? config := config in
  let? l := roles_of_config settings name config in
  match new_team settings name l with Ok team => Ok team | Err refusal => Err (team_refusal_text refusal) end.

(** ** Roles that confer authority *)

Record RoleAssignment := {
  as_team : string; as_project : string; assigner_root : string; member_root : string; as_recipient_root : string }.
Record RoleGrantProposal := { proposed : PeerGrant }.
Inductive RoleRefusal :=
  | RoleConfersNoAuthority (role : string)
  | AboveRoleCeiling (role : string) (ceiling requested : PeerAuthority)
  | AssignerLacksAuthority (assigner_root recipient_root : string) (requested : PeerAuthority)
  | MemberIsAssigner
  | IndistinctIdentities.
Definition role_refusal_text (r : RoleRefusal) : string :=
  match r with
  | RoleConfersNoAuthority role => "role `" +:+ role +:+ "` confers no peer authority"
  | AboveRoleCeiling role ceiling requested =>
      "role `" +:+ role +:+ "` ceilings at " +:+ authority_name ceiling +:+ " and cannot confer " +:+ authority_name requested
  | AssignerLacksAuthority assigner recipient requested =>
      "`" +:+ assigner +:+ "` does not hold " +:+ authority_name requested +:+ " toward `" +:+ recipient +:+ "` and cannot confer it"
  | MemberIsAssigner => "a role grant cannot target the assigner's own root"
  | IndistinctIdentities => "role grant identities must be distinct and nonempty"
  end.

Definition propose_role_grant (settings : CoordinationSettings) (registry : Grants) (role : RoleSpec) (a : RoleAssignment)
    (requested : PeerAuthority) (now_ms : N) : result RoleGrantProposal RoleRefusal :=
  if bool_decide (member_root a = assigner_root a) then Err MemberIsAssigner
  else if blank (as_project a) || blank (assigner_root a) || blank (member_root a) || blank (as_recipient_root a)
          || bool_decide (member_root a = as_recipient_root a) then Err IndistinctIdentities
  else
    match authority_ceiling role with
    | None => Err (RoleConfersNoAuthority (role_name role))
    | Some ceiling =>
        if negb (authority_allows ceiling requested) then Err (AboveRoleCeiling (role_name role) ceiling requested)
        else
          match get_grant (as_project a) (assigner_root a) (as_recipient_root a) now_ms registry with
          | Some assigner_grant =>
              if authority_allows (pg_authority assigner_grant) requested then
                let max_expiry := now_ms +sat (peer_grant_max_ttl_secs settings *sat 1000) in
                Ok {| proposed := {|
                  pg_project := as_project a; pg_sender_root := member_root a; pg_recipient_root := as_recipient_root a;
                  pg_authority := requested;
                  granted_by := "role:" +:+ as_team a +:+ "/" +:+ role_name role +:+ " assigned by " +:+ assigner_root a;
                  expires_at_ms_ :=
                    (now_ms +sat (peer_mail_ttl_secs role *sat 1000)) `min` expires_at_ms_ assigner_grant `min` max_expiry |} |}
              else Err (AssignerLacksAuthority (assigner_root a) (as_recipient_root a) requested)
          | None => Err (AssignerLacksAuthority (assigner_root a) (as_recipient_root a) requested)
          end
    end.
Definition apply_role_grant (settings : CoordinationSettings) (registry : Grants) (p : RoleGrantProposal) (now_ms : N)
  : Grants * result unit string :=
  grant (peer_grant_max_count settings) (proposed p) now_ms registry.

(** ** The log of a team *)

Inductive MissionEvent :=
  | MemberJoined (role member : string)
  | MemberLeft (role member : string)
  | MemberReclaimed (role from to : string)
  | AssignmentMade (role member subject : string)
  | OutcomeRecorded (role member outcome : string).
Record MissionEntry := { me_seq : N; me_at_ms : N; me_event : MissionEvent }.
Record MissionLog := { ml_entries : list MissionEntry; ml_capacity : N; ml_next_seq : N; ml_dropped : N }.
Definition with_capacity (capacity : N) : MissionLog :=
  {| ml_entries := []; ml_capacity := N.max capacity 1; ml_next_seq := 1; ml_dropped := 0 |}.
(** The loop drops as many of the oldest as there are too many. *)
Definition append_event (at_ms : N) (event : MissionEvent) (l : MissionLog) : MissionLog * N :=
  let entries := ml_entries l ++ [{| me_seq := ml_next_seq l; me_at_ms := at_ms; me_event := event |}] in
  let excess := Nlen entries - ml_capacity l in
  ({| ml_entries := drop (N.to_nat excess) entries; ml_capacity := ml_capacity l; ml_next_seq := ml_next_seq l +w 1;
      ml_dropped := wrap64 (ml_dropped l + excess) |}, ml_next_seq l).

(** ** Seats *)

Record Seat := {
  seat_role : string; member_chat_id : string; seat_key : string; branch : option string; status : option string;
  claimed_at_ms : N; last_heartbeat_ms : N }.
#[global] Instance Seat_eq_dec : EqDecision Seat.
Proof. solve_decision. Defined.
Definition silent_for_ms (s : Seat) (now_ms : N) : N := now_ms - last_heartbeat_ms s.
Definition to_team_member (s : Seat) : TeamMember := {|
  tm_role := seat_role s; tm_agent_chat_id := Some (member_chat_id s); tm_agent_branch := branch s; tm_status := status s |}.
Definition new_seat (role member key : string) (branch_ : option string) (now_ms : N) : Seat := {|
  seat_role := role; member_chat_id := member; seat_key := key; branch := branch_; status := None;
  claimed_at_ms := now_ms; last_heartbeat_ms := now_ms |}.

Inductive RosterRefusal :=
  | UnknownRole (role : string)
  | RosterFull (limit : N)
  | SeatClaimed (role holder : string)
  | NotClaimed (role : string)
  | NotTheHolder (role holder : string)
  | StillAlive (role holder : string) (silent_for : N).
Definition roster_refusal_text (r : RosterRefusal) : string :=
  match r with
  | UnknownRole role => "this team defines no role `" +:+ role +:+ "`"
  | RosterFull limit => "a roster holds at most " +:+ pretty limit +:+ " members"
  | SeatClaimed role holder => "role `" +:+ role +:+ "` is held by `" +:+ holder +:+ "`"
  | NotClaimed role => "role `" +:+ role +:+ "` is unclaimed"
  | NotTheHolder role holder => "role `" +:+ role +:+ "` is held by `" +:+ holder +:+ "`, not by the caller"
  | StillAlive role holder silent =>
      "`" +:+ holder +:+ "` still holds `" +:+ role +:+ "` and last heartbeat was " +:+ pretty silent +:+ "ms ago"
  end.

Record TeamRoster := {
  tr_team : string; tr_roles : gset string; seats : gmap string Seat; log : MissionLog; max_members : N; heartbeat_ttl_ms : N }.
Definition with_bounds (team : TeamSpec) (max_members_ log_capacity ttl_ms : N) : TeamRoster := {|
  tr_team := team_name team; tr_roles := list_to_set (role_name <$> roles team); seats := ∅; log := with_capacity log_capacity;
  max_members := N.max max_members_ 1; heartbeat_ttl_ms := ttl_ms |}.
Definition for_team (settings : CoordinationSettings) (team : TeamSpec) : TeamRoster :=
  with_bounds team (team_member_max_count settings) (team_mission_log_max_entries settings) (team_heartbeat_ttl_ms settings).
Definition set_seats (m : gmap string Seat) (r : TeamRoster) : TeamRoster := {|
  tr_team := tr_team r; tr_roles := tr_roles r; seats := m; log := log r; max_members := max_members r;
  heartbeat_ttl_ms := heartbeat_ttl_ms r |}.
Definition set_log (l : MissionLog) (r : TeamRoster) : TeamRoster := {|
  tr_team := tr_team r; tr_roles := tr_roles r; seats := seats r; log := l; max_members := max_members r;
  heartbeat_ttl_ms := heartbeat_ttl_ms r |}.
Definition log_event (at_ms : N) (e : MissionEvent) (r : TeamRoster) : TeamRoster := set_log (append_event at_ms e (log r)).1 r.

Section roster.
Implicit Types (r : TeamRoster) (role member key : string).
Definition known_role role r : result unit RosterRefusal :=
  if bool_decide (role ∈ tr_roles r) then Ok () else Err (UnknownRole role).
Definition held_seat role member r : result Seat RosterRefusal :=
  match seats r !! role with
  | None => Err (NotClaimed role)
  | Some s => if bool_decide (member_chat_id s = member) then Ok s else Err (NotTheHolder role (member_chat_id s))
  end.
Definition same_holder member key (s : Seat) : bool := bool_decide (member_chat_id s = member) && bool_decide (seat_key s = key).

Definition claim_seat role member key (branch_ : option string) (now_ms : N) r : TeamRoster * result ClaimOutcome RosterRefusal :=
  match known_role role r with
  | Err e => (r, Err e)
  | Ok _ =>
      match seats r !! role with
      | Some existing =>
          if same_holder member key existing then (r, Ok AlreadyHeld) else (r, Err (SeatClaimed role (member_chat_id existing)))
      | None =>
          if max_members r <=? N.of_nat (size (seats r)) then (r, Err (RosterFull (max_members r)))
          else
            (log_event now_ms (MemberJoined role member) (set_seats (<[role := new_seat role member key branch_ now_ms]> (seats r)) r),
             Ok Claimed)
      end
  end.
Definition beat (now_ms : N) (s : Seat) : Seat := {|
  seat_role := seat_role s; member_chat_id := member_chat_id s; seat_key := seat_key s; branch := branch s; status := status s;
  claimed_at_ms := claimed_at_ms s; last_heartbeat_ms := now_ms |}.
Definition heartbeat role member (now_ms : N) r : TeamRoster * result unit RosterRefusal :=
  match held_seat role member r with
  | Err e => (r, Err e)
  | Ok s => (set_seats (<[role := beat now_ms s]> (seats r)) r, Ok ())
  end.
Definition release_seat role member (now_ms : N) r : TeamRoster * result unit RosterRefusal :=
  match held_seat role member r with
  | Err e => (r, Err e)
  | Ok _ => (log_event now_ms (MemberLeft role member) (set_seats (delete role (seats r)) r), Ok ())
  end.
Definition reclaim role member key (branch_ : option string) (now_ms : N) r : TeamRoster * result ClaimOutcome RosterRefusal :=
  match known_role role r with
  | Err e => (r, Err e)
  | Ok _ =>
      match seats r !! role with
      | None => (r, Err (NotClaimed role))
      | Some existing =>
          if same_holder member key existing then (r, Ok AlreadyHeld)
          else if silent_for_ms existing now_ms <=? heartbeat_ttl_ms r
          then (r, Err (StillAlive role (member_chat_id existing) (silent_for_ms existing now_ms)))
          else
            (log_event now_ms (MemberReclaimed role (member_chat_id existing) member)
               (set_seats (<[role := new_seat role member key branch_ now_ms]> (seats r)) r), Ok Claimed)
      end
  end.
Definition record_assignment role member (subject : string) (now_ms : N) r : TeamRoster * result N RosterRefusal :=
  match held_seat role member r with
  | Err e => (r, Err e)
  | Ok _ => (log_event now_ms (AssignmentMade role member subject) r, Ok (ml_next_seq (log r)))
  end.
Definition set_seat_status (o : string) (s : Seat) : Seat := {|
  seat_role := seat_role s; member_chat_id := member_chat_id s; seat_key := seat_key s; branch := branch s; status := Some o;
  claimed_at_ms := claimed_at_ms s; last_heartbeat_ms := last_heartbeat_ms s |}.
Definition record_outcome role member (outcome : string) (now_ms : N) r : TeamRoster * result N RosterRefusal :=
  match held_seat role member r with
  | Err e => (r, Err e)
  | Ok s =>
      (log_event now_ms (OutcomeRecorded role member outcome) (set_seats (<[role := set_seat_status outcome s]> (seats r)) r),
       Ok (ml_next_seq (log r)))
  end.

Definition live_seats (live : gset string) r : list Seat := filter (λ s, member_chat_id s ∈ live) (btree_list (seats r)).*2.
Definition team_members r : list TeamMember := to_team_member <$> (btree_list (seats r)).*2.
Definition live_team_members (live : gset string) r : list TeamMember := to_team_member <$> live_seats live r.
Definition has_live_seat role member (live : gset string) (now_ms : N) r : bool :=
  match seats r !! role with
  | Some s => bool_decide (member_chat_id s = member) && bool_decide (member ∈ live) && (silent_for_ms s now_ms <=? heartbeat_ttl_ms r)
  | None => false
  end.
End roster.

(** What these functions read of a row of the catalog of work. *)
Inductive Freshness := Live | Recent | Stale | FreshnessUnknown.
#[global] Instance Freshness_eq_dec : EqDecision Freshness.
Proof. solve_decision. Defined.
Record WorkRow := {
  wr_key : WorkKey; wr_freshness : Freshness; wr_parent_chat_id : option string; wr_root_chat_id : option string;
  wr_chat_id : option string }.
Definition live_chat_ids (rows : list WorkRow) : gset string :=
  list_to_set (omap wr_chat_id (filter (λ row, wr_freshness row = Live) rows)).

(** ** The registry of teams *)

Record TeamRegistry := { catalog : TeamCatalog; rosters : gmap (string * string) TeamRoster }.
Definition empty_registry : TeamRegistry := {| catalog := {| teams := ∅ |}; rosters := ∅ |}.
Definition register_team (settings : CoordinationSettings) (team : TeamSpec) (t : TeamRegistry) : TeamRegistry * result unit TeamRefusal :=
  let changed := match catalog_get (catalog t) (team_name team) with Some existing => negb (bool_decide (existing = team)) | None => false end in
  let '(c, r) := catalog_register settings team (catalog t) in
  match r with
  | Err e => ({| catalog := c; rosters := rosters t |}, Err e)
  | Ok _ =>
      ({| catalog := c;
          rosters := if changed then filter (λ p, p.1.2 ≠ team_name team) (rosters t) else rosters t |}, Ok ())
  end.
Definition with_roster {T} (settings : CoordinationSettings) (project team : string) (f : TeamSpec → TeamRoster → TeamRoster * T)
    (t : TeamRegistry) : TeamRegistry * result T TeamRefusal :=
  match catalog_get (catalog t) team with
  | None => (t, Err (UnknownTeam team))
  | Some spec =>
      let '(roster, x) := f spec (default (for_team settings spec) (rosters t !! (project, team))) in
      ({| catalog := catalog t; rosters := <[(project, team) := roster]> (rosters t) |}, Ok x)
  end.
Definition team_names (t : TeamRegistry) : list string := catalog_names (catalog t).

(** ** The tools *)

Inductive SeatAction := SClaim | SHeartbeat | SRelease | SReclaim | SRecordOutcome.
Definition claim_outcome_text (o : ClaimOutcome) : string := match o with Claimed => "claimed" | AlreadyHeld => "already held" end.
(** The closure of [team_seat]. *)
Definition seat_action (action : SeatAction) (role chat_id key outcome : string) (live : gset string) (now_ms : N) (r : TeamRoster)
  : TeamRoster * result (string * list TeamMember) RosterRefusal :=
  let '(r, done_) :=
    match action with
    | SClaim => let '(r, o) := claim_seat role chat_id key None now_ms r in (r, let? o := o in Ok (claim_outcome_text o))
    | SHeartbeat => let '(r, o) := heartbeat role chat_id now_ms r in (r, let? _ := o in Ok "heartbeat recorded"%string)
    | SRelease => let '(r, o) := release_seat role chat_id now_ms r in (r, let? _ := o in Ok "released"%string)
    | SReclaim => let '(r, o) := reclaim role chat_id key None now_ms r in (r, let? o := o in Ok (claim_outcome_text o))
    | SRecordOutcome => let '(r, o) := record_outcome role chat_id outcome now_ms r in (r, let? _ := o in Ok "outcome recorded"%string)
    end in
  (r, let? text := done_ in Ok (text, live_team_members live r)).
(** [load_team] and the rows of the catalog of work are arguments. *)
Definition team_seat (settings : CoordinationSettings) (project : string) (spec : TeamSpec) (action : SeatAction)
    (role chat_id : string) (key : option string) (outcome : string) (rows : list WorkRow) (now_ms : N) (t : TeamRegistry)
  : TeamRegistry * result (string * list TeamMember) string :=
  let '(t, registered) := register_team settings spec t in
  match registered with
  | Err refusal => (t, Err (team_refusal_text refusal))
  | Ok _ =>
      let '(t, r) := with_roster settings project (team_name spec)
                       (λ _, seat_action action role chat_id (default chat_id key) outcome (live_chat_ids rows) now_ms) t in
      (t, match r with
          | Err refusal => Err (team_refusal_text refusal)
          | Ok (Err refusal) => Err (roster_refusal_text refusal)
          | Ok (Ok x) => Ok x
          end)
  end.

Definition root_for_address (rows : list WorkRow) (agent_id chat_id : option string) (label : string)
  : result (string * option string) string :=
  let unseen := (label +:+ " is not visible in this project")%string in
  let row :=
    match agent_id, chat_id with
    | Some id, None => snd <$> list_find (λ row, runtime (wr_key row) = BackgroundAgent ∧ work_id (wr_key row) = id) rows
    | None, Some id => snd <$> list_find (λ row, wr_chat_id row = Some id) rows
    | _, _ => None
    end in
  match row with
  | None => Err unseen
  | Some row =>
      let fallback := match runtime (wr_key row) with BackgroundAgent => wr_parent_chat_id row | Trajectory => wr_chat_id row end in
      match (match wr_root_chat_id row with Some root => Some root | None => fallback end) with
      | None => Err unseen
      | Some root => Ok (root, match chat_id with Some id => Some id | None => wr_chat_id row end)
      end
  end.
Definition require_live_seat (roster : TeamRoster) (role member_chat : string) (live : gset string) (now_ms : N) : result unit string :=
  if has_live_seat role member_chat live now_ms roster then Ok ()
  else Err ("member does not hold " +:+ role +:+ " in " +:+ tr_team roster).

Definition UNREACHABLE : string := "member or recipient is not reachable for this grant".
Definition or_unreachable {A} (r : result A string) : result A string := match r with Ok a => Ok a | Err _ => Err UNREACHABLE end.
(** The address of a member or recipient: by agent or by chat. *)
Definition team_role_grant (settings : CoordinationSettings) (project assigner : string) (spec : TeamSpec) (role : string)
    (authority : PeerAuthority) (member recipient : option string * option string) (rows : list WorkRow) (now_ms : N)
    (t : TeamRegistry) (m : Grants) : TeamRegistry * Grants * result unit string :=
  let '(t, registered) := register_team settings spec t in
  match (let? _ := match registered with Ok _ => Ok () | Err refusal => Err (team_refusal_text refusal) end in
         let? found := or_unreachable (root_for_address rows member.1 member.2 "member") in
         let? chat := match found.2 with Some chat => Ok chat | None => Err UNREACHABLE end in
         let? to := or_unreachable (root_for_address rows recipient.1 recipient.2 "recipient") in
         Ok (found.1, chat, to.1)) with
  | Err e => (t, m, Err e)
  | Ok (member_root_, member_chat, recipient_root_) =>
      let '(t, seated) :=
        with_roster settings project (team_name spec)
          (λ spec roster,
             (roster,
              match find_role spec role with
              | None => Err ("team `" +:+ team_name spec +:+ "` does not define role `" +:+ role +:+ "`")
              | Some role_spec => let? _ := require_live_seat roster role member_chat (live_chat_ids rows) now_ms in Ok role_spec
              end)) t in
      match seated with
      | Err refusal => (t, m, Err (team_refusal_text refusal))
      | Ok (Err e) => (t, m, Err e)
      | Ok (Ok role_spec) =>
          match propose_role_grant settings m role_spec
                  {| as_team := team_name spec; as_project := project; assigner_root := assigner; member_root := member_root_;
                     as_recipient_root := recipient_root_ |} authority now_ms with
          | Err (AssignerLacksAuthority _ _ _) => (t, m, Err UNREACHABLE)
          | Err refusal => (t, m, Err (role_refusal_text refusal))
          | Ok proposal => let '(m, r) := apply_role_grant settings m proposal now_ms in (t, m, r)
          end
      end
  end.
