(* ===== verification/PeersProps.v ===== *)
(** * Authority between peers: theorems

    Authority is only ever confirmed by a user or handed on by a role: the registry is a transition system
    whose steps are the user's grants, proposals and applications of role grants, revocations and questions,
    at any times and in any order. *)

From stdpp Require Import gmap strings list pretty.
From S2P Require Import Prelude RustStr Identity Settings Delivery Question Board Peers Teams.
Local Open Scope N_scope.

Lemma authority_allows_trans a b c : authority_allows a b = true → authority_allows b c = true → authority_allows a c = true.
Proof. unfold authority_allows. rewrite !N.leb_le. lia. Qed.
Lemma authority_allows_refl a : authority_allows a a = true.
Proof. unfold authority_allows. by rewrite N.leb_le. Qed.

Lemma retain_lookup now m k g : retain_grants now m !! k = Some g ↔ m !! k = Some g ∧ now < expires_at_ms_ g.
Proof. unfold retain_grants. by rewrite map_lookup_filter_Some. Qed.
(** What a grant leaves in the registry. *)
Lemma grant_cases max g now m m' r :
  grant max g now m = (m', r) →
  (∀ k g', m' !! k = Some g' → m !! k = Some g' ∨ (r = Ok () ∧ k = grant_key g ∧ g' = g))
  ∧ (r = Ok () → m' !! grant_key g = Some g ∧ now < expires_at_ms_ g).
Proof.
  unfold grant. destruct (grant_refused g); [intros [= <- <-]; split; [by left|done]|].
  destruct (N.leb_spec (expires_at_ms_ g) now); [intros [= <- <-]; split; [by left|done]|].
  assert (∀ k g', <[grant_key g:=g]> (retain_grants now m) !! k = Some g' →
            m !! k = Some g' ∨ (@Ok unit string () = Ok () ∧ k = grant_key g ∧ g' = g)) as Hin.
  { intros k g' [[<- <-]|[_ [? _]%retain_lookup]]%lookup_insert_Some; [by right|by left]. }
  destruct (retain_grants now m !! grant_key g) eqn:Hg.
  - destruct (_ <? _); intros [= <- <-]; split; try done; [|intros _; by rewrite lookup_insert_eq].
    intros k g' [? _]%retain_lookup. by left.
  - destruct (_ <=? _); intros [= <- <-]; split; try done; [|intros _; by rewrite lookup_insert_eq].
    intros k g' [? _]%retain_lookup. by left.
Qed.

(** ** The history of grants *)

Record Peers := { registry : Grants; confirmed : list PeerGrant; given : list (RoleSpec * RoleAssignment * PeerGrant) }.
Definition no_peers : Peers := {| registry := ∅; confirmed := []; given := [] |}.
Definition set_registry m p := {| registry := m; confirmed := confirmed p; given := given p |}.

Inductive peer_step : Peers → Peers → Prop :=
  | ps_user settings project chat sender recipient visible a ttl now1 now2 m p :
      agent_peer_grant settings project chat sender recipient visible false (Some a) ttl now1 now2 (registry p) = (m, Ok true) →
      ∀ authority, parse_authority (Some a) = Ok authority →
      peer_step p {| registry := m; confirmed := user_grant settings project chat sender recipient authority ttl now1 :: confirmed p;
                     given := given p |}
  | ps_refused settings project chat sender recipient visible revoke a ttl now1 now2 m e p :
      agent_peer_grant settings project chat sender recipient visible revoke a ttl now1 now2 (registry p) = (m, Err e) →
      peer_step p (set_registry m p)
  | ps_revoke settings project chat sender recipient visible a ttl now1 now2 m r p :
      agent_peer_grant settings project chat sender recipient visible true a ttl now1 now2 (registry p) = (m, Ok r) →
      peer_step p (set_registry m p)
  | ps_propose settings role a requested now proposal p :
      propose_role_grant settings (registry p) role a requested now = Ok proposal →
      peer_step p {| registry := registry p; confirmed := confirmed p; given := (role, a, proposed proposal) :: given p |}
  | ps_apply settings role a proposal now m r p :
      (role, a, proposed proposal) ∈ given p → apply_role_grant settings (registry p) proposal now = (m, r) →
      peer_step p (set_registry m p)
  | ps_ask project sender recipient required now m r p :
      allows project sender recipient required now (registry p) = (m, r) → peer_step p (set_registry m p).

(** Confirmed by the user, or handed on under the ceiling of a role by one who held as much, for no longer. *)
Inductive entitled (p : Peers) : PeerGrant → Prop :=
  | entitled_user g : g ∈ confirmed p → entitled p g
  | entitled_role role a ceiling g held :
      (role, a, g) ∈ given p → entitled p held →
      pg_sender_root held = assigner_root a → pg_sender_root g = member_root a →
      pg_project g = pg_project held → pg_recipient_root g = pg_recipient_root held →
      authority_ceiling role = Some ceiling → authority_allows ceiling (pg_authority g) = true →
      authority_allows (pg_authority held) (pg_authority g) = true → expires_at_ms_ g ≤ expires_at_ms_ held →
      entitled p g.

(** Who may do something to a recipient now: by its own grant, and in the end by one of a user. *)
Definition backed (p : Peers) (project sender recipient : string) (required : PeerAuthority) (now : N) : Prop :=
  (∃ g, entitled p g ∧ grant_key g = (project, sender, recipient) ∧ authority_allows (pg_authority g) required = true
        ∧ now < expires_at_ms_ g)
  ∧ ∃ u, u ∈ confirmed p ∧ pg_project u = project ∧ pg_recipient_root u = recipient
         ∧ authority_allows (pg_authority u) required = true ∧ now < expires_at_ms_ u.

Lemma entitled_mono p p' g : confirmed p ⊆ confirmed p' → given p ⊆ given p' → entitled p g → entitled p' g.
Proof.
  intros Hc Hg. induction 1 as [g H|role a ceiling g held Hin _ IH]; [apply entitled_user; by apply Hc|].
  eapply entitled_role; [by apply Hg|exact IH|done..].
Qed.
Lemma entitled_root p g :
  entitled p g →
  ∃ u, u ∈ confirmed p ∧ pg_project u = pg_project g ∧ pg_recipient_root u = pg_recipient_root g
       ∧ authority_allows (pg_authority u) (pg_authority g) = true ∧ expires_at_ms_ g ≤ expires_at_ms_ u.
Proof.
  induction 1 as [g H|role a ceiling g held _ _ (u & Hu & Hp & Hr & Ha & He) _ _ Ep Er _ _ Hh Hl].
  - exists g. split_and!; [done..|apply authority_allows_refl|lia].
  - exists u. split_and!; [done|congruence|congruence|by eapply authority_allows_trans|lia].
Qed.

Record peers_inv (p : Peers) : Prop := {
  pi_registry k g : registry p !! k = Some g → entitled p g ∧ k = grant_key g;
  pi_given role a g : (role, a, g) ∈ given p → entitled p g }.

Lemma propose_entitled settings p role a requested now proposal :
  peers_inv p → propose_role_grant settings (registry p) role a requested now = Ok proposal →
  entitled {| registry := registry p; confirmed := confirmed p; given := (role, a, proposed proposal) :: given p |} (proposed proposal).
Proof.
  intros Hi. unfold propose_role_grant. case_bool_decide; [done|]. destruct (_ || _); [done|].
  destruct (authority_ceiling role) as [ceiling|] eqn:Hc; [|done]. destruct (authority_allows ceiling requested) eqn:Ha; [|done]. cbn [negb].
  unfold get_grant. destruct (registry p !! _) as [held|] eqn:Hg; [|done]. cbn. destruct (N.ltb_spec now (expires_at_ms_ held)); [|done].
  destruct (authority_allows (pg_authority held) requested) eqn:Hh; [|done]. intros [= <-].
  destruct (pi_registry _ Hi _ _ Hg) as [He Hk]. unfold grant_key in Hk. injection Hk as E1 E2 E3.
  eapply entitled_role; [by left|eapply entitled_mono; [| |exact He]; cbn; set_solver|by cbn..|cbn; lia].
Qed.

Lemma peer_step_inv p p' : peers_inv p → peer_step p p' → peers_inv p'.
Proof.
  intros Hi Hs. pose proof (pi_registry _ Hi) as Hr. pose proof (pi_given _ Hi) as Hg.
  assert (∀ m, (∀ k g, m !! k = Some g → registry p !! k = Some g) → peers_inv (set_registry m p)) as Hsub.
  { intros m Hm. split; cbn; [|intros ? ? ? Hin]; [intros k g Hk; destruct (Hr k g) as [? ?]; [by apply Hm|]; split; [|done]|specialize (Hg _ _ _ Hin)];
      (eapply entitled_mono; [| |eassumption]; done). }
  destruct Hs as [settings project chat sender recipient visible a ttl now1 now2 m p E authority Ea
    |settings project chat sender recipient visible rv a ttl now1 now2 m e p E
    |settings project chat sender recipient visible a ttl now1 now2 m r p E
    |settings role a requested now proposal p E|settings role a proposal now m r p Hin E|project sender recipient required now m r p E].
  - unfold agent_peer_grant in E. case_bool_decide; [done|]. destruct visible; [|done]. cbn [negb] in E. rewrite Ea in E.
    destruct (_ && _); [|done]. destruct (grant _ _ _ _) as [m2 r2] eqn:Hgr. destruct r2 as [[]|]; [|done]. injection E as <-.
    apply grant_cases in Hgr as [Hc _]. split; cbn.
    + intros k g Hk. destruct (Hc k g Hk) as [Ho|(_ & -> & ->)]; [|split; [apply entitled_user; by left|done]].
      destruct (Hr k g Ho) as [He ->]. split; [|done]. eapply entitled_mono; [| |exact He]; cbn; set_solver.
    + intros role a' g Hin. eapply entitled_mono; [| |by eapply Hg]; cbn; set_solver.
  - apply Hsub. unfold agent_peer_grant in E. case_bool_decide; [by injection E as <- _|]. destruct visible; [|by injection E as <- _].
    cbn [negb] in E. destruct rv; [done|]. destruct (parse_authority a); [|by injection E as <- _].
    destruct (_ && _); [|by injection E as <- _]. destruct (grant _ _ _ _) as [m2 r2] eqn:Hgr. destruct r2 as [[]|]; [done|]. injection E as <- _.
    apply grant_cases in Hgr as [Hc _]. intros k g Hk. destruct (Hc k g Hk) as [?|(? & _)]; done.
  - apply Hsub. unfold agent_peer_grant in E. case_bool_decide; [done|]. destruct visible; [|done]. cbn in E. injection E as <- _.
    intros k g [_ ?]%lookup_delete_Some. done.
  - pose proof (propose_entitled _ _ _ _ _ _ _ Hi E) as He. split; cbn.
    + intros k g Hk. destruct (Hr k g Hk) as [? ->]. split; [|done]. eapply entitled_mono; [| |eassumption]; cbn; set_solver.
    + intros role' a' g [[= -> -> ->]|Hin]%elem_of_cons; [done|]. eapply entitled_mono; [| |by eapply Hg]; cbn; set_solver.
  - unfold apply_role_grant in E. apply grant_cases in E as [Hc _]. split; cbn.
    + intros k g Hk. destruct (Hc k g Hk) as [Ho|(_ & -> & ->)].
      * destruct (Hr k g Ho) as [? ->]. split; [|done]. eapply entitled_mono; [| |eassumption]; done.
      * split; [|done]. eapply entitled_mono; [| |by eapply Hg]; done.
    + intros role' a' g Hin'. eapply entitled_mono; [| |by eapply Hg]; done.
  - apply Hsub. unfold allows in E. injection E as <- _. intros k g [? _]%retain_lookup. done.
Qed.

Lemma allows_backed p project sender recipient required now m :
  peers_inv p → allows project sender recipient required now (registry p) = (m, true) → backed p project sender recipient required now.
Proof.
  intros Hi. unfold allows. destruct (retain_grants now (registry p) !! _) as [g|] eqn:Hg; intros [= _ Ha].
  apply retain_lookup in Hg as [Hg Hl]. destruct (pi_registry _ Hi _ _ Hg) as [He Hk].
  destruct (entitled_root _ _ He) as (u & Hu & Hp & Hr & Hua & Hul). unfold grant_key in Hk. injection Hk as E1 E2 E3.
  split; [exists g; split_and!; [done|unfold grant_key; congruence|done|done]|].
  exists u. split_and!; [done|congruence|congruence|by eapply authority_allows_trans|lia].
Qed.

(** C17. Delegation creates no authority.  Whatever users confirm and revoke and roles hand on, in any order, whoever is let
    do something to the chats of another root (its mail lands, its agents are controlled, its question is put
    to it) has a grant that was confirmed by a user or handed on under a role's ceiling by one who held as
    much, and in the end a user confirmed at least that authority over that root, for at least that long. *)
Theorem delegation_creates_no_authority p now :
  rtc peer_step no_peers p →
  (∀ C (delivery : PendingDelivery C) stamp m,
     peer_mail delivery = Some stamp → peer_delivery_authorized delivery now (registry p) = (m, true) →
     backed p (peer_project stamp) (sender_root stamp) (recipient_root stamp) Mail now)
  ∧ (∀ descendants any scope caller_root id record m,
       authorize_agent_control None descendants any scope caller_root id now (registry p) = (m, Ok record) →
       record ∈ default [] descendants ∨ ∃ project, scope = Some project ∧ backed p project caller_root (target_root_of record) Control now)
  ∧ (∀ project asker answerer kind m,
       resolve_authority project asker answerer kind now (registry p) = (m, Ok Allowed) →
       kind = UserInput ∨ answerer = "user"%string ∨ asker = answerer
       ∨ backed p project asker answerer (required_authority kind) now).
Proof.
  intros Hr. assert (peers_inv p) as Hi.
  { revert Hr. apply (rtc_ind_r (λ p, peers_inv p) no_peers); [split; cbn; [intros ? ?; by rewrite lookup_empty|intros ? ? ? ?%elem_of_nil; done]|].
    intros p1 p2 _ Hs IH. by eapply peer_step_inv. }
  split_and!.
  - intros C delivery stamp m Hm Ha. unfold peer_delivery_authorized in Ha. rewrite Hm in Ha. by eapply allows_backed.
  - intros descendants any scope caller id record m Ha. unfold authorize_agent_control in Ha.
    destruct (l ← descendants; snd <$> list_find _ l) as [r|] eqn:Hf.
    + injection Ha as _ <-. left. destruct descendants as [l|]; [|done]. cbn in Hf |- *.
      destruct (list_find _ l) as [[i r']|] eqn:Hl; [|done]. injection Hf as ->. apply list_find_Some in Hl as [Hl _].
      by eapply list_elem_of_lookup_2.
    + right. destruct any as [r|]; [|done]. destruct scope as [project|]; [|done]. destruct (allows _ _ _ _ _ _) as [m2 ok] eqn:Hal.
      destruct ok; [|done]. injection Ha as _ <-. exists project. split; [done|]. by eapply allows_backed.
  - intros project asker answerer kind m Ha. unfold resolve_authority in Ha.
    destruct (bool_decide (kind = UserInput)) eqn:E1; [left; by apply bool_decide_eq_true in E1|].
    destruct (bool_decide (answerer = "user"%string)) eqn:E2; [right; left; by apply bool_decide_eq_true in E2|]. cbn [orb] in Ha.
    destruct (_ || _ || _); [done|]. case_bool_decide; [by right; right; left|]. right; right; right.
    destruct (allows _ _ _ _ _ _) as [m2 ok] eqn:Hal. destruct ok; [by eapply allows_backed|]. by destruct kind.
Qed.

(** The tool [team_role_grant] changes the registry by these steps. *)
Lemma team_role_grant_steps settings project assigner spec role a member recipient rows now t p :
  ∃ p', rtc peer_step p p' ∧ confirmed p' = confirmed p
    ∧ registry p' = (team_role_grant settings project assigner spec role a member recipient rows now t (registry p)).1.2.
Proof.
  unfold team_role_grant. destruct (register_team settings spec t) as [t1 registered].
  match goal with |- context [match ?x with Ok _ => _ | Err _ => _ end] => destruct x as [[[root chat] to]|] end; [|by exists p].
  destruct (with_roster _ _ _ _ _) as [t2 r]. destruct r as [[role_spec|]|]; [|by exists p..].
  destruct (propose_role_grant _ _ _ _ _ _) as [proposal|[]] eqn:Hp; [|by exists p..].
  destruct (apply_role_grant settings (registry p) proposal now) as [m r] eqn:Ha.
  eexists. split; [eapply rtc_l; [by eapply ps_propose|]; eapply rtc_once, ps_apply; [by left|exact Ha]|done].
Qed.
