(* ===== verification/TeamsProps.v ===== *)
(** * Teams: theorems

    What the operations of a roster do to the holders of its seats and to its log, and what the registry of
    teams keeps true: who holds a seat keeps it, and the log tells who holds it. *)

From stdpp Require Import gmap strings list pretty.
From S2P Require Import Prelude RustStr Identity Settings BoardTypes Delivery Board Peers Teams.
Local Open Scope N_scope.

(** ** Operations of a roster, as a list *)

Inductive RosterOp :=
  | RClaim (role member key : string) (branch_ : option string) (now : N)
  | RHeartbeat (role member : string) (now : N)
  | RRelease (role member : string) (now : N)
  | RReclaim (role member key : string) (branch_ : option string) (now : N)
  | RAssign (role member subject : string) (now : N)
  | ROutcome (role member outcome : string) (now : N).
Definition op_time (o : RosterOp) : N :=
  match o with RClaim _ _ _ _ t | RHeartbeat _ _ t | RRelease _ _ t | RReclaim _ _ _ _ t | RAssign _ _ _ t | ROutcome _ _ _ t => t end.
Definition roster_op (r : TeamRoster) (o : RosterOp) : TeamRoster :=
  match o with
  | RClaim role member key b t => (claim_seat role member key b t r).1
  | RHeartbeat role member t => (heartbeat role member t r).1
  | RRelease role member t => (release_seat role member t r).1
  | RReclaim role member key b t => (reclaim role member key b t r).1
  | RAssign role member subject t => (record_assignment role member subject t r).1
  | ROutcome role member outcome t => (record_outcome role member outcome t r).1
  end.
(** The tool's actions are among them. *)
Definition action_op (action : SeatAction) (role chat key outcome : string) (now : N) : RosterOp :=
  match action with
  | SClaim => RClaim role chat key None now
  | SHeartbeat => RHeartbeat role chat now
  | SRelease => RRelease role chat now
  | SReclaim => RReclaim role chat key None now
  | SRecordOutcome => ROutcome role chat outcome now
  end.
Lemma seat_action_op action role chat key outcome live now r :
  (seat_action action role chat key outcome live now r).1 = roster_op r (action_op action role chat key outcome now).
Proof.
  unfold seat_action. destruct action; cbn [roster_op action_op];
    [destruct (claim_seat _ _ _ _ _ _)|destruct (heartbeat _ _ _ _)|destruct (release_seat _ _ _ _)|destruct (reclaim _ _ _ _ _ _)
    |destruct (record_outcome _ _ _ _ _)]; done.
Qed.

(** ** The log and the holders *)

Definition holders (r : TeamRoster) : gmap string string := member_chat_id <$> seats r.
Definition replay (h : gmap string string) (e : MissionEvent) : gmap string string :=
  match e with
  | MemberJoined role member => <[role := member]> h
  | MemberLeft role _ => delete role h
  | MemberReclaimed role _ to => <[role := to]> h
  | AssignmentMade _ _ _ | OutcomeRecorded _ _ _ => h
  end.
Definition append_all (l : MissionLog) (evs : list (N * MissionEvent)) : MissionLog :=
  foldl (λ l e, (append_event e.1 e.2 l).1) l evs.

(** What one operation does: nothing but what it logs, as far as holders go. *)
Record told (r r' : TeamRoster) (evs : list (N * MissionEvent)) : Prop := {
  td_log : log r' = append_all (log r) evs;
  td_holders : holders r' = foldl replay (holders r) evs.*2;
  td_same : tr_team r' = tr_team r ∧ tr_roles r' = tr_roles r ∧ max_members r' = max_members r
            ∧ heartbeat_ttl_ms r' = heartbeat_ttl_ms r }.
Lemma told_refl r : told r r [].
Proof. by split. Qed.
Lemma told_trans r1 r2 r3 e1 e2 : told r1 r2 e1 → told r2 r3 e2 → told r1 r3 (e1 ++ e2).
Proof.
  intros [L1 H1 (A1 & B1 & C1 & D1)] [L2 H2 (A2 & B2 & C2 & D2)]. split; [|by rewrite fmap_app, foldl_app, <- H1|split_and!; congruence].
  unfold append_all in *. by rewrite foldl_app, <- L1.
Qed.
Lemma held_seat_ok role member r s : held_seat role member r = Ok s → seats r !! role = Some s ∧ member_chat_id s = member.
Proof. unfold held_seat. destruct (seats r !! role); [|done]. by case_bool_decide; intros [= <-]. Qed.
(** A seat rewritten for the same member. *)
Lemma holders_same role s s' r :
  seats r !! role = Some s → member_chat_id s' = member_chat_id s → holders (set_seats (<[role := s']> (seats r)) r) = holders r.
Proof.
  intros Hs Hm. unfold holders. cbn. rewrite fmap_insert, Hm. apply insert_id. by rewrite lookup_fmap, Hs.
Qed.
Lemma roster_op_told r o : ∃ evs, told r (roster_op r o) evs ∧ (length evs ≤ 1)%nat.
Proof.
  assert (∃ evs, told r r evs ∧ (length evs ≤ 1)%nat) as Hsame by (exists []; split; [apply told_refl|cbn; lia]).
  destruct o as [role member key b t|role member t|role member t|role member key b t|role member subject t|role member outcome t]; cbn.
  - unfold claim_seat. destruct (known_role role r); [|done]. destruct (seats r !! role) as [s|] eqn:Hs.
    { by destruct (same_holder _ _ _). }
    destruct (_ <=? _); [done|]. cbn. exists [(t, MemberJoined role member)]. split; [|cbn; lia]. split; [done| |done].
    unfold holders. cbn. by rewrite fmap_insert.
  - unfold heartbeat. destruct (held_seat role member r) as [s|] eqn:Hh; [|done]. apply held_seat_ok in Hh as [Hs _].
    exists []. split; [|cbn; lia]. split; [done| |done]. cbn [fst]. by eapply holders_same.
  - unfold release_seat. destruct (held_seat role member r) as [s|]; [|done]. exists [(t, MemberLeft role member)]. split; [|cbn; lia].
    split; [done| |done]. unfold holders. cbn. by rewrite fmap_delete.
  - unfold reclaim. destruct (known_role role r); [|done]. destruct (seats r !! role) as [s|] eqn:Hs; [|done].
    destruct (same_holder _ _ _); [done|]. destruct (_ <=? _); [done|]. cbn.
    exists [(t, MemberReclaimed role (member_chat_id s) member)]. split; [|cbn; lia]. split; [done| |done].
    unfold holders. cbn. by rewrite fmap_insert.
  - unfold record_assignment. destruct (held_seat role member r) as [s|]; [|done]. exists [(t, AssignmentMade role member subject)].
    split; [|cbn; lia]. by split.
  - unfold record_outcome. destruct (held_seat role member r) as [s|] eqn:Hh; [|done]. apply held_seat_ok in Hh as [Hs _].
    exists [(t, OutcomeRecorded role member outcome)]. split; [|cbn; lia]. split; [done| |done].
    cbn [foldl fmap list_fmap snd replay fst]. by apply (holders_same role s (set_seat_status outcome s) r).
Qed.
(** Operations log at most one event each: every number of events was logged at some point. *)
Lemma roster_ops_told ops r :
  ∃ evs, told r (foldl roster_op r ops) evs ∧ (length evs ≤ length ops)%nat
    ∧ ∀ n, (n ≤ length evs)%nat → ∃ k, told r (foldl roster_op r (take k ops)) (take n evs).
Proof.
  revert r. induction ops as [|o ops IH]; intros r.
  { exists []. split; [apply told_refl|]. split; [done|]. intros n Hn. exists 0%nat. destruct n; [apply told_refl|cbn in Hn; lia]. }
  destruct (roster_op_told r o) as (e1 & H1 & L1). destruct (IH (roster_op r o)) as (e2 & H2 & L2 & Hk).
  exists (e1 ++ e2). split; [by eapply told_trans|]. split; [rewrite length_app; cbn; lia|]. intros n Hn. rewrite length_app in Hn.
  destruct (decide (n < length e1)%nat) as [Hlt|Hge].
  { assert (n = 0%nat) as -> by lia. exists 0%nat. apply told_refl. }
  destruct (Hk (n - length e1)%nat) as [k Htold]; [lia|]. exists (S k). rewrite take_app_ge by lia. by eapply told_trans.
Qed.

(** The log after these events, numbered from one. *)
Fixpoint numbered (n : N) (evs : list (N * MissionEvent)) : list MissionEntry :=
  match evs with
  | [] => []
  | e :: evs => {| me_seq := n; me_at_ms := e.1; me_event := e.2 |} :: numbered (n + 1) evs
  end.
Lemma numbered_app n a b : numbered n (a ++ b) = numbered n a ++ numbered (n + Nlen a) b.
Proof.
  revert n. induction a as [|e a IH]; intros n; [by rewrite N.add_0_r|]. cbn. rewrite IH. do 3 f_equal. unfold Nlen. cbn. lia.
Qed.
Lemma length_numbered n a : length (numbered n a) = length a.
Proof. revert n. induction a as [|e a IH]; intros n; [done|]. cbn. by rewrite IH. Qed.

Lemma append_all_numbered capacity evs :
  Nlen evs < u64_max →
  let l := append_all (with_capacity capacity) evs in
  let excess := (Nlen evs - N.max capacity 1) in
  ml_entries l = drop (N.to_nat excess) (numbered 1 evs) ∧ ml_dropped l = excess
  ∧ ml_next_seq l = 1 + Nlen evs ∧ ml_capacity l = N.max capacity 1.
Proof.
  induction evs as [|e evs IH] using rev_ind; [done|]. intros Hn. cbn zeta.
  assert (Nlen (evs ++ [e]) = Nlen evs + 1) as El by (unfold Nlen; rewrite length_app; cbn; lia).
  rewrite El in Hn |- *. destruct IH as (He & Hd & Hs & Hc); [lia|]. unfold append_all in *. rewrite foldl_app. cbn [foldl].
  set (l := foldl _ _ evs) in *. unfold append_event. cbn [fst ml_entries ml_dropped ml_next_seq ml_capacity].
  rewrite Hc, Hs, He, Hd. set (cap := N.max capacity 1) in *.
  assert (Nlen (drop (N.to_nat (Nlen evs - cap)) (numbered 1 evs) ++ [{| me_seq := 1 + Nlen evs; me_at_ms := e.1; me_event := e.2 |}])
          = N.min (Nlen evs) cap + 1) as E1.
  { unfold Nlen. rewrite length_app, length_drop, length_numbered. cbn [length]. unfold Nlen. lia. }
  rewrite E1. split_and!; [|unfold wrap64; rewrite N.mod_small; lia|rewrite wadd64_small; lia|done].
  rewrite numbered_app. cbn [numbered].
  replace (numbered 1 evs ++ [_]) with (numbered 1 (evs ++ [e])) by (by rewrite numbered_app).
  rewrite <- (drop_app_le (numbered 1 evs)) by (rewrite length_numbered; unfold Nlen in *; lia).
  rewrite drop_drop, numbered_app. cbn [numbered]. f_equal. unfold Nlen in *. lia.
Qed.

Lemma numbered_events n evs : me_event <$> numbered n evs = evs.*2.
Proof. revert n. induction evs as [|e evs IH]; intros n; [done|]. cbn. by rewrite IH. Qed.

Lemma drop_numbered k n evs : drop k (numbered n evs) = numbered (n + N.of_nat k) (drop k evs).
Proof.
  revert n evs. induction k as [|k IH]; intros n [|e evs]; [by rewrite !drop_0, N.add_0_r..|done|]. cbn [numbered drop].
  rewrite IH. f_equal. lia.
Qed.

(** C19. The log of a team tells who holds its seats.  Whatever is done to a fresh roster, the log holds the newest
    events up to its capacity, numbered without gaps after those it dropped, which it counts; and replaying the
    events held, from the holders the roster had when it had logged just the dropped ones, gives the present
    holders: from nobody, when nothing was dropped. *)
Theorem mission_log_replays_the_roster team members capacity ttl ops :
  Nlen ops < u64_max →
  let fresh := with_bounds team members capacity ttl in
  let r := foldl roster_op fresh ops in
  (∃ evs : list (N * MissionEvent),
     holders r = foldl replay ∅ evs.*2
     ∧ ml_entries (log r) = drop (N.to_nat (ml_dropped (log r))) (numbered 1 evs)
     ∧ ml_dropped (log r) = Nlen evs - N.max capacity 1 ∧ ml_next_seq (log r) = 1 + Nlen evs)
  ∧ Nlen (ml_entries (log r)) ≤ N.max capacity 1
  ∧ (∃ k, let r0 := foldl roster_op fresh (take k ops) in
          ml_next_seq (log r0) = 1 + ml_dropped (log r)
          ∧ holders r = foldl replay (holders r0) (me_event <$> ml_entries (log r)))
  ∧ (ml_dropped (log r) = 0 → holders r = foldl replay ∅ (me_event <$> ml_entries (log r))).
Proof.
  intros Hn fresh r. destruct (roster_ops_told ops fresh) as (evs & [Hl Hh _] & Hlen & Hk). fold r in Hl, Hh.
  assert (Nlen evs < u64_max) as Hn' by (unfold Nlen in *; lia).
  destruct (append_all_numbered capacity evs Hn') as (He & Hd & Hs & _). cbn in Hl. rewrite <- Hl in He, Hd, Hs.
  assert (holders r = foldl replay ∅ evs.*2) as Hh' by exact Hh. rewrite <- Hd in He.
  assert (me_event <$> ml_entries (log r) = drop (N.to_nat (ml_dropped (log r))) evs.*2) as Hheld.
  { by rewrite He, drop_numbered, numbered_events, fmap_drop. }
  split_and!.
  - by exists evs.
  - rewrite He, Hd. unfold Nlen. rewrite length_drop, length_numbered. unfold Nlen. lia.
  - destruct (Hk (N.to_nat (ml_dropped (log r)))) as [k [Hl0 Hh0 _]]; [rewrite Hd; unfold Nlen; lia|]. exists k.
    set (n := N.to_nat (ml_dropped (log r))) in *.
    destruct (append_all_numbered capacity (take n evs)) as (_ & _ & Hs0 & _); [unfold Nlen in *; rewrite length_take; lia|].
    cbn zeta. rewrite Hl0. split.
    + etransitivity; [exact Hs0|]. unfold Nlen. rewrite length_take. unfold n, Nlen in *. lia.
    + rewrite Hh0, Hh', Hheld. change (holders fresh) with (∅ : gmap string string).
      rewrite <- foldl_app, fmap_take, take_drop. done.
  - intros H0. rewrite Hh', Hheld, H0. done.
Qed.

(** ** The registry

    Sequences of registrations and of operations on rosters: what stays true of every roster, and that a seat
    changes hands only when its holder leaves or falls silent, or its team is redefined. *)

Inductive TeamOp := TRegister (team : TeamSpec) | TRoster (project team : string) (ops : list RosterOp).
Definition team_op (settings : CoordinationSettings) (t : TeamRegistry) (o : TeamOp) : TeamRegistry :=
  match o with
  | TRegister team => (register_team settings team t).1
  | TRoster project team ops => (with_roster settings project team (λ _ r, (foldl roster_op r ops, ())) t).1
  end.

(** The tools are made of these operations. *)
Lemma with_roster_fst {A B} settings project team (f : _ → _ → _ * A) (g : _ → _ → _ * B) t :
  (∀ spec r, (f spec r).1 = (g spec r).1) → (with_roster settings project team f t).1 = (with_roster settings project team g t).1.
Proof.
  intros Hfg. unfold with_roster, catalog_get. destruct (teams (catalog t) !! team) as [spec|]; [|done]. specialize (Hfg spec (default (for_team settings spec) (rosters t !! (project, team)))).
  destruct (f _ _), (g _ _). cbn in *. by rewrite Hfg.
Qed.
Lemma team_seat_ops settings project spec action role chat key outcome rows now t :
  ∃ ops, (team_seat settings project spec action role chat key outcome rows now t).1 = foldl (team_op settings) t ops
    ∧ (ops = [TRegister spec]
       ∨ ops = [TRegister spec; TRoster project (team_name spec) [action_op action role chat (default chat key) outcome now]]).
Proof.
  unfold team_seat. destruct (register_team settings spec t) as [t1 registered] eqn:Hr. destruct registered.
  - eexists [_; _]. split; [|by right]. cbn. rewrite Hr. cbn.
    destruct (with_roster settings project (team_name spec) _ t1) as [t2 r] eqn:Hw. cbn. change t2 with (t2, r).1. rewrite <- Hw.
    apply with_roster_fst. intros spec' r'. cbn. apply seat_action_op.
  - eexists [_]. split; [|by left]. cbn. by rewrite Hr.
Qed.
Lemma team_role_grant_ops settings project assigner spec role a member recipient rows now t m :
  ∃ ops, (team_role_grant settings project assigner spec role a member recipient rows now t m).1.1 = foldl (team_op settings) t ops
    ∧ (ops = [TRegister spec] ∨ ops = [TRegister spec; TRoster project (team_name spec) []]).
Proof.
  unfold team_role_grant. destruct (register_team settings spec t) as [t1 registered] eqn:Hr.
  match goal with |- context [match ?x with Ok _ => _ | Err _ => _ end] => destruct x as [[[root chat] to]|] end.
  2: { eexists [_]. split; [|by left]. cbn. by rewrite Hr. }
  eexists [_; _]. split; [|by right]. cbn. rewrite Hr. cbn.
  destruct (with_roster settings project (team_name spec) _ t1) as [t2 r] eqn:Hw.
  assert (t2 = (with_roster settings project (team_name spec) (λ _ r, (r, ())) t1).1) as <-.
  { change t2 with (t2, r).1. rewrite <- Hw. by apply with_roster_fst. }
  destruct r as [[role_spec|]|]; [|done..]. destruct (propose_role_grant _ _ _ _ _ _) as [p|[]]; [|done..].
  by destruct (apply_role_grant _ _ _ _).
Qed.

(** ** What is true of every roster *)

Record roster_ok (settings : CoordinationSettings) (spec : TeamSpec) (r : TeamRoster) : Prop := {
  ro_team : tr_team r = team_name spec;
  ro_roles : tr_roles r = list_to_set (role_name <$> roles spec);
  ro_seats role s : seats r !! role = Some s → role ∈ tr_roles r ∧ seat_role s = role;
  ro_members : N.of_nat (size (seats r)) ≤ max_members r;
  ro_max : max_members r = N.max (team_member_max_count settings) 1;
  ro_log : Nlen (ml_entries (log r)) ≤ ml_capacity (log r) ∧ ml_capacity (log r) = N.max (team_mission_log_max_entries settings) 1 }.

Lemma fresh_roster_ok settings spec : roster_ok settings spec (for_team settings spec).
Proof. split; try done; cbn; [rewrite map_size_empty; lia|]. unfold Nlen. cbn. lia. Qed.
Lemma append_event_bounded at_ms e l : ml_capacity (append_event at_ms e l).1 = ml_capacity l ∧
  Nlen (ml_entries (append_event at_ms e l).1) ≤ ml_capacity l.
Proof. split; [done|]. unfold append_event, Nlen. cbn. rewrite length_drop, length_app. cbn [length]. lia. Qed.
Lemma log_event_ok settings spec at_ms e r : roster_ok settings spec r → roster_ok settings spec (log_event at_ms e r).
Proof.
  intros [? ? Hs ? ? [? Hc]]. destruct (append_event_bounded at_ms e (log r)) as [E1 E2]. by split.
Qed.
Lemma set_seats_ok settings spec m r :
  roster_ok settings spec r →
  (∀ role s, m !! role = Some s → seats r !! role = Some s ∨ (role ∈ tr_roles r ∧ seat_role s = role)) →
  N.of_nat (size m) ≤ max_members r → roster_ok settings spec (set_seats m r).
Proof. intros [? ? Hs ? ? ?] Hm Hsz. split; try done. intros role s Hl. destruct (Hm _ _ Hl) as [?|?]; [by apply Hs|done]. Qed.
(** A seat that is written where one was. *)
Lemma rewrite_seat_ok settings spec role s s' r :
  roster_ok settings spec r → seats r !! role = Some s → seat_role s' = role → roster_ok settings spec (set_seats (<[role := s']> (seats r)) r).
Proof.
  intros Hr Hs Hs'. apply set_seats_ok; [done| |rewrite map_size_insert_Some by done; apply Hr].
  intros role2 s2 [[<- <-]|[_ ?]]%lookup_insert_Some; [right|by left]. split; [|done]. by apply (ro_seats _ _ _ Hr role s).
Qed.
Lemma roster_op_ok settings spec r o : roster_ok settings spec r → roster_ok settings spec (roster_op r o).
Proof.
  intros Hr. destruct o as [role member key b t|role member t|role member t|role member key b t|role member subject t|role member outcome t]; cbn.
  - unfold claim_seat, known_role. case_bool_decide as Hk; [|done]. destruct (seats r !! role) as [s|] eqn:Hs; [by destruct (same_holder _ _ _)|].
    destruct (N.leb_spec (max_members r) (N.of_nat (size (seats r)))); [done|]. apply log_event_ok, set_seats_ok; [done| |].
    + intros role2 s2 [[<- <-]|[_ ?]]%lookup_insert_Some; [by right|by left].
    + rewrite map_size_insert_None by done. lia.
  - unfold heartbeat. destruct (held_seat role member r) as [s|] eqn:Hh; [|done]. apply held_seat_ok in Hh as [Hs _].
    eapply rewrite_seat_ok; [done..|]. cbn. by apply (ro_seats _ _ _ Hr).
  - unfold release_seat. destruct (held_seat role member r) as [s|]; [|done]. apply log_event_ok, set_seats_ok; [done| |].
    + intros role2 s2 [_ ?]%lookup_delete_Some. by left.
    + pose proof (ro_members _ _ _ Hr). rewrite map_size_delete. unfold id. case_match; lia.
  - unfold reclaim. destruct (known_role role r); [|done]. destruct (seats r !! role) as [s|] eqn:Hs; [|done].
    destruct (same_holder _ _ _); [done|]. destruct (_ <=? _); [done|]. by apply log_event_ok; eapply rewrite_seat_ok.
  - unfold record_assignment. destruct (held_seat role member r); [|done]. by apply log_event_ok.
  - unfold record_outcome. destruct (held_seat role member r) as [s|] eqn:Hh; [|done]. apply held_seat_ok in Hh as [Hs _].
    apply log_event_ok. eapply rewrite_seat_ok; [done..|]. cbn. by apply (ro_seats _ _ _ Hr).
Qed.
Lemma roster_ops_ok settings spec ops r : roster_ok settings spec r → roster_ok settings spec (foldl roster_op r ops).
Proof. revert r. induction ops as [|o ops IH]; intros r Hr; [done|]. apply IH. by apply roster_op_ok. Qed.

(** A team as [TeamSpec::new] makes it. *)
Definition team_ok (settings : CoordinationSettings) (spec : TeamSpec) : Prop := ∃ name l, new_team settings name l = Ok spec.
Lemma check_roles_ok seen l :
  check_roles seen l = Ok () →
  NoDup (role_name <$> l) ∧ (∀ role, role ∈ l → blank (role_name role) = false ∧ role_name role ∉ seen).
Proof.
  revert seen. induction l as [|role l IH]; intros seen; cbn; [intros _; split; [constructor|by intros ? ?%elem_of_nil]|].
  destruct (blank (role_name role)) eqn:Hb; [done|]. case_bool_decide as Hin; [done|]. intros [Hnd Hl]%IH. split.
  - constructor; [|done]. intros (role' & E & Hr)%list_elem_of_fmap. destruct (Hl _ Hr) as [_ Hn]. set_solver.
  - intros role' [->|Hr]%elem_of_cons; [done|]. destruct (Hl _ Hr). set_solver.
Qed.

Record registry_ok (settings : CoordinationSettings) (t : TeamRegistry) : Prop := {
  ry_catalog name spec : teams (catalog t) !! name = Some spec → team_name spec = name ∧ team_ok settings spec;
  ry_teams : N.of_nat (size (teams (catalog t))) ≤ team_max_count settings;
  ry_rosters project team r : rosters t !! (project, team) = Some r →
    ∃ spec, teams (catalog t) !! team = Some spec ∧ roster_ok settings spec r }.

Lemma register_team_ok settings team t :
  team_ok settings team → registry_ok settings t → registry_ok settings (register_team settings team t).1.
Proof.
  intros Hteam [Hc Hn Hr]. unfold register_team, catalog_get, catalog_register.
  assert (∀ c, N.of_nat (size (<[team_name team := team]> (teams (catalog t)))) ≤ team_max_count settings →
    (∀ p tm r, c !! (p, tm) = Some r → rosters t !! (p, tm) = Some r ∧ (tm = team_name team → teams (catalog t) !! tm = Some team)) →
    registry_ok settings {| catalog := {| teams := <[team_name team := team]> (teams (catalog t)) |}; rosters := c |}) as Hins.
  { intros c Hsz Hsub. split; cbn; [|done|].
    - intros name spec [[<- <-]|[_ Hl]]%lookup_insert_Some; [done|by apply Hc].
    - intros p tm r Hl. destruct (Hsub _ _ _ Hl) as [Hl' Hsame]. destruct (Hr _ _ _ Hl') as (spec & Hs & Ho).
      destruct (decide (team_name team = tm)) as [<-|Hne].
      + rewrite (Hsame eq_refl) in Hs. injection Hs as <-. exists team. by rewrite lookup_insert_eq.
      + exists spec. by rewrite lookup_insert_ne. }
  destruct (teams (catalog t) !! team_name team) as [old|] eqn:Hold; cbn [negb andb].
  - rewrite bool_decide_true by done. cbn. apply Hins; [by rewrite map_size_insert_Some|].
    case_bool_decide as Hsame; cbn [negb]; [subst old; intros p tm r Hl; split; [done|by intros ->]|].
    intros p tm r [Hl Hne]%map_lookup_filter_Some. split; [done|]. cbn in Hne. congruence.
  - rewrite bool_decide_false by (by intros []). cbn.
    destruct (N.leb_spec (team_max_count settings) (N.of_nat (size (teams (catalog t))))); [by split|].
    apply Hins; [rewrite map_size_insert_None by done; lia|]. intros p tm r Hl. split; [done|]. intros ->.
    destruct (Hr _ _ _ Hl) as (? & ? & _). congruence.
Qed.
Lemma with_roster_ok settings project team ops t :
  registry_ok settings t → registry_ok settings (team_op settings t (TRoster project team ops)).
Proof.
  intros [Hc Hn Hr]. cbn. unfold with_roster, catalog_get. destruct (teams (catalog t) !! team) as [spec|] eqn:Hs; [|by split]. split; cbn; [done..|].
  intros p tm r [[[= -> ->] <-]|[_ Hl]]%lookup_insert_Some; [|by eapply Hr]. exists spec. split; [done|]. apply roster_ops_ok.
  destruct (rosters t !! (p, tm)) as [r|] eqn:Ho; [|apply fresh_roster_ok]. destruct (Hr _ _ _ Ho) as (spec' & Hs' & ?). cbn. congruence.
Qed.

(** Rosters follow their teams.  Along any registrations of well-formed teams and operations on rosters, every team in
    the catalog has distinct roles with names, the catalog is bounded, and every roster belongs to a
    registered team: its seats are for roles of the present definition of the team, one each, no more than
    the limit, and its log is bounded. *)
Lemma rosters_follow_their_teams settings ops :
  (∀ team, TRegister team ∈ ops → team_ok settings team) →
  let t := foldl (team_op settings) empty_registry ops in
  N.of_nat (size (teams (catalog t))) ≤ team_max_count settings
  ∧ (∀ name spec, teams (catalog t) !! name = Some spec →
       team_name spec = name ∧ blank name = false ∧ NoDup (role_name <$> roles spec) ∧ Nlen (roles spec) ≤ team_role_max_count settings
       ∧ ∀ role, role ∈ roles spec → blank (role_name role) = false)
  ∧ (∀ project team r, rosters t !! (project, team) = Some r →
       ∃ spec, teams (catalog t) !! team = Some spec
         ∧ (∀ role s, seats r !! role = Some s → seat_role s = role ∧ is_Some (find_role spec role))
         ∧ N.of_nat (size (seats r)) ≤ N.max (team_member_max_count settings) 1
         ∧ Nlen (ml_entries (log r)) ≤ N.max (team_mission_log_max_entries settings) 1).
Proof.
  intros Hops t. assert (registry_ok settings t) as [Hc Hn Hr].
  { unfold t. assert (registry_ok settings empty_registry) as Hi.
    { split; cbn; [intros ? ?; by rewrite lookup_empty|rewrite map_size_empty; lia|intros ? ? ?; by rewrite lookup_empty]. }
    revert Hi Hops. generalize empty_registry. clear t. induction ops as [|o ops IH]; intros t Hi Hops; [done|]. cbn. apply IH; [|set_solver].
    destruct o as [team|project team rops]; [|by apply with_roster_ok]. apply register_team_ok; [|done]. apply Hops. set_solver. }
  split_and!; [done| |].
  - intros name spec Hl. destruct (Hc _ _ Hl) as [Hname (name' & l & Ht)]. unfold new_team in Ht.
    destruct (blank name') eqn:Hb; [done|]. destruct (N.ltb_spec (team_role_max_count settings) (Nlen l)); [done|].
    destruct (check_roles ∅ l) as [[]|] eqn:Hk; [|done]. injection Ht as <-. cbn in Hname |- *. subst name'.
    apply check_roles_ok in Hk as [Hnd Hbl]. split_and!; [done..|]. intros role Hin. by apply Hbl.
  - intros project team r Hl. destruct (Hr _ _ _ Hl) as (spec & Hs & [Ht Hro Hse Hme Hmx [Hlo Hca]]). exists spec. split_and!; [done| |by rewrite <- Hmx|by rewrite <- Hca].
    intros role s Hlk. destruct (Hse _ _ Hlk) as [Hin Hrole]. split; [done|]. rewrite Hro in Hin.
    apply elem_of_list_to_set, list_elem_of_fmap in Hin as (rs & -> & Hrs). unfold find_role.
    destruct (list_find_elem_of (λ r, role_name r = role_name rs) (roles spec) rs Hrs eq_refl) as [? E]. by rewrite E.
Qed.

(** ** Holding a seat *)

(** What the operations on the seat's own roster may be: at times within its heartbeat window, and not its own release. *)
Definition within (s : Seat) (ttl : N) (role : string) (o : RosterOp) : Prop :=
  last_heartbeat_ms s ≤ op_time o ≤ last_heartbeat_ms s + ttl ∧ ∀ t, o ≠ RRelease role (member_chat_id s) t.
Definition leaves_alone (project team role : string) (s : Seat) (ttl : N) (spec : TeamSpec) (o : TeamOp) : Prop :=
  match o with
  | TRegister spec' => team_name spec' = team → spec' = spec
  | TRoster project' team' ops => project' = project → team' = team → Forall (within s ttl role) ops
  end.
Definition still_held (s s' : Seat) : Prop :=
  member_chat_id s' = member_chat_id s ∧ seat_key s' = seat_key s ∧ claimed_at_ms s' = claimed_at_ms s
  ∧ last_heartbeat_ms s ≤ last_heartbeat_ms s'.

Lemma roster_op_keeps r o role s s1 :
  seats r !! role = Some s1 → still_held s s1 → within s (heartbeat_ttl_ms r) role o →
  ∃ s', seats (roster_op r o) !! role = Some s' ∧ still_held s s'.
Proof.
  intros Hs Hheld [Ht Hrel]. pose proof Hheld as (Hm1 & Hk1 & Hc1 & Hb1).
  assert (∃ s', seats r !! role = Some s' ∧ still_held s s') as Hsame by (by exists s1).
  assert (∀ role2 s2, role2 ≠ role → ∃ s', <[role2 := s2]> (seats r) !! role = Some s' ∧ still_held s s') as Hother
    by (intros; rewrite lookup_insert_ne by done; by exists s1).
  destruct o as [role2 member key b t|role2 member t|role2 member t|role2 member key b t|role2 member subject t|role2 member outcome t];
    cbn [op_time roster_op] in *.
  - unfold claim_seat. destruct (known_role role2 r); [|done]. destruct (seats r !! role2) as [s2|] eqn:Hs2; [by destruct (same_holder _ _ _)|].
    destruct (_ <=? _); [done|]. cbn. apply Hother. congruence.
  - unfold heartbeat. destruct (held_seat role2 member r) as [s2|] eqn:Hh; [|done]. apply held_seat_ok in Hh as [Hs2 _]. cbn.
    destruct (decide (role2 = role)) as [->|]; [|by apply Hother]. rewrite lookup_insert_eq. exists (beat t s2).
    assert (s2 = s1) as -> by congruence. split; [done|]. split_and!; cbn; [done..|lia].
  - unfold release_seat. destruct (held_seat role2 member r) as [s2|] eqn:Hh; [|done]. apply held_seat_ok in Hh as [Hs2 Hm]. cbn.
    destruct (decide (role2 = role)) as [->|]; [|rewrite lookup_delete_ne by done; by exists s1]. exfalso. apply (Hrel t). congruence.
  - unfold reclaim. destruct (known_role role2 r); [|done]. destruct (seats r !! role2) as [s2|] eqn:Hs2; [|done].
    destruct (same_holder _ _ _); [done|]. destruct (N.leb_spec (silent_for_ms s2 t) (heartbeat_ttl_ms r)) as [|Hlt]; [done|]. cbn.
    destruct (decide (role2 = role)) as [->|]; [|by apply Hother]. exfalso. assert (s2 = s1) as -> by congruence. unfold silent_for_ms in Hlt. lia.
  - unfold record_assignment. by destruct (held_seat role2 member r).
  - unfold record_outcome. destruct (held_seat role2 member r) as [s2|] eqn:Hh; [|done]. apply held_seat_ok in Hh as [Hs2 _]. cbn.
    destruct (decide (role2 = role)) as [->|]; [|by apply Hother]. rewrite lookup_insert_eq. exists (set_seat_status outcome s2).
    assert (s2 = s1) as -> by congruence. split; [done|]. by split_and!.
Qed.
Lemma roster_ops_keep role s ops r s1 :
  seats r !! role = Some s1 → still_held s s1 → Forall (within s (heartbeat_ttl_ms r) role) ops →
  ∃ s', seats (foldl roster_op r ops) !! role = Some s' ∧ still_held s s'.
Proof.
  revert r s1. induction ops as [|o ops IH]; intros r s1 Hs Hh Hops; [by exists s1|]. apply Forall_cons in Hops as [Ho Hops]. cbn.
  destruct (roster_op_keeps _ _ _ _ _ Hs Hh Ho) as (s2 & Hs2 & Hh2). eapply IH; [exact Hs2|exact Hh2|].
  destruct (roster_op_told r o) as (evs & [_ _ (_ & _ & _ & E)] & _). by rewrite E.
Qed.

(** C18. Who holds a seat keeps it.  As long as its holder does not leave and its team is not redefined, whatever others do to
    the teams until its heartbeat window ends leaves the seat with it, under the same claim; and there nobody
    else can claim, reclaim, release or speak for the seat within its window. *)
Theorem seats_are_kept settings ops t spec project team role r s :
  teams (catalog t) !! team = Some spec → rosters t !! (project, team) = Some r → seats r !! role = Some s → role ∈ tr_roles r →
  Forall (leaves_alone project team role s (heartbeat_ttl_ms r) spec) ops →
  ∃ r' s', rosters (foldl (team_op settings) t ops) !! (project, team) = Some r' ∧ seats r' !! role = Some s' ∧ still_held s s'
    ∧ ∀ member key b now, member ≠ member_chat_id s → now ≤ last_heartbeat_ms s' + heartbeat_ttl_ms r →
        claim_seat role member key b now r' = (r', Err (SeatClaimed role (member_chat_id s)))
        ∧ reclaim role member key b now r' = (r', Err (StillAlive role (member_chat_id s) (silent_for_ms s' now)))
        ∧ release_seat role member now r' = (r', Err (NotTheHolder role (member_chat_id s)))
        ∧ heartbeat role member now r' = (r', Err (NotTheHolder role (member_chat_id s))).
Proof.
  intros Hc Hr Hs Hro Hops.
  assert (∃ r' s', rosters (foldl (team_op settings) t ops) !! (project, team) = Some r' ∧ seats r' !! role = Some s' ∧ still_held s s'
            ∧ tr_roles r' = tr_roles r ∧ heartbeat_ttl_ms r' = heartbeat_ttl_ms r) as (r' & s' & Hr' & Hs' & Hh & Er & Et).
  { assert (∃ s1, seats r !! role = Some s1 ∧ still_held s s1) as (s1 & Hs1 & Hh1) by (exists s; split; [done|by split_and!]). clear Hs.
    revert t r s1 Hc Hr Hs1 Hh1 Hro Hops.
    induction ops as [|o ops IH]; intros t r s1 Hc Hr Hs1 Hh1 Hro Hops; [by exists r, s1|]. apply Forall_cons in Hops as [Ho Hops]. cbn [foldl].
    destruct o as [spec'|project' team' rops]; cbn in Ho |- *.
    - apply (IH _ r s1); try done; unfold register_team, catalog_get, catalog_register.
      + destruct (negb _ && _); [done|]. cbn. destruct (decide (team_name spec' = team)) as [Hn|Hn]; [|by rewrite lookup_insert_ne].
        pose proof (Ho Hn) as ->. by rewrite Hn, lookup_insert_eq.
      + destruct (negb _ && _); [done|]. cbn. destruct (teams (catalog t) !! team_name spec') as [old|] eqn:Hold; [|done].
        case_bool_decide as Hsame; [done|]. cbn. apply map_lookup_filter_Some. split; [done|]. cbn. intros ->.
        rewrite (Ho eq_refl) in Hsame. congruence.
    - unfold with_roster, catalog_get. destruct (teams (catalog t) !! team') as [sp|] eqn:Hsp; [|by apply (IH _ r s1)].
      destruct (decide ((project', team') = (project, team))) as [[= -> ->]|Hne].
      + rewrite Hr. cbn [from_option default]. destruct (roster_ops_keep role s rops r s1) as (s2 & Hs2 & Hh2); [done|done|by apply Ho|].
        destruct (roster_ops_told rops r) as (evs & [_ _ (_ & E2 & _ & E4)] & _).
        destruct (IH {| catalog := catalog t; rosters := <[(project, team) := foldl roster_op r rops]> (rosters t) |} (foldl roster_op r rops) s2)
          as (r' & s' & ? & ? & ? & ? & ?); cbn; try done.
        * by rewrite lookup_insert_eq.
        * by rewrite E2.
        * by rewrite E4.
        * exists r', s'. split_and!; try done; congruence.
      + apply (IH {| catalog := catalog t; rosters := _ |} r s1); cbn; try done. by rewrite lookup_insert_ne. }
  exists r', s'. split_and!; [done..|]. intros member key b now Hm Hn. destruct Hh as (Em & _ & _ & _).
  assert (member_chat_id s' ≠ member) as Hm' by congruence.
  unfold claim_seat, reclaim, release_seat, heartbeat, held_seat, known_role, same_holder. rewrite Er, Et, Hs', !(bool_decide_true _ Hro), !(bool_decide_false _ Hm'), Em.
  cbn [andb]. split_and!; [done| |done|done]. assert (silent_for_ms s' now <=? heartbeat_ttl_ms r = true) as -> by (unfold silent_for_ms; apply N.leb_le; lia). done.
Qed.
