(* ===== verification/TeamsExamples.v ===== *)
(** * Teams and peers: a concrete team

    A team with two roles in which one agent works, falls silent and is replaced, and a user whose chat may write to
    another root and hands that on through a role. *)

From stdpp Require Import gmap strings list pretty.
From S2P Require Import Prelude RustStr Identity Settings BoardTypes Delivery Question Board Peers Teams PeersProps TeamsProps.
Local Open Scope N_scope.

(** ** Handing on authority *)

Definition ex_writer : RoleSpec :=
  {| role_name := "writer"; default_profile := None; authority_ceiling := Some Mail; peer_mail_ttl_secs := 60 |}.
Definition ex_reader : RoleSpec := new_role default_settings "reader".
Definition ex_team : TeamSpec := {| team_name := "docs"; roles := [ex_writer; ex_reader] |}.
Definition ex_assignment : RoleAssignment :=
  {| as_team := "docs"; as_project := "proj"; assigner_root := "root-a"; member_root := "root-b"; as_recipient_root := "root-c" |}.

Definition ex_user : Grants * result bool string :=
  agent_peer_grant default_settings "proj" "chat-a" "root-a" "root-c" true false (Some "mail"%string) (Some 30) 1000 1000 ∅.
Definition ex_user_grant : PeerGrant := user_grant default_settings "proj" "chat-a" "root-a" "root-c" Mail (Some 30) 1000.
Definition ex_proposal : RoleGrantProposal :=
  match propose_role_grant default_settings ex_user.1 ex_writer ex_assignment Mail 2000 with
  | Ok p => p
  | Err _ => {| proposed := ex_user_grant |}
  end.
Definition ex_applied : Grants * result unit string := apply_role_grant default_settings ex_user.1 ex_proposal 3000.
Definition ex_peers : Peers :=
  {| registry := ex_applied.1; confirmed := [ex_user_grant]; given := [(ex_writer, ex_assignment, proposed ex_proposal)] |}.

(** The role's grant ends with the assigner's, and its ceiling holds. *)
Example ex_role_grant :
  ex_applied.2 = Ok () ∧ expires_at_ms_ (proposed ex_proposal) = 31000 ∧ expires_at_ms_ ex_user_grant = 31000
  ∧ propose_role_grant default_settings ex_user.1 ex_writer ex_assignment Control 2000
    = Err (AboveRoleCeiling "writer" Mail Control)
  ∧ propose_role_grant default_settings ex_user.1 ex_reader ex_assignment Metadata 2000 = Err (RoleConfersNoAuthority "reader").
Proof. vm_compute. done. Qed.

Definition ex_confirmed : Peers := {| registry := ex_user.1; confirmed := [ex_user_grant]; given := [] |}.
Definition ex_proposed : Peers := {| registry := ex_user.1; confirmed := [ex_user_grant]; given := given ex_peers |}.
Lemma ex_peers_reached : rtc peer_step no_peers ex_peers.
Proof.
  assert (agent_peer_grant default_settings "proj" "chat-a" "root-a" "root-c" true false (Some "mail"%string) (Some 30) 1000 1000 ∅
          = (ex_user.1, Ok true)) as E1.
  { assert (ex_user.2 = Ok true) as <- by (vm_compute; reflexivity). apply surjective_pairing. }
  assert (propose_role_grant default_settings ex_user.1 ex_writer ex_assignment Mail 2000 = Ok ex_proposal) as E2 by (vm_compute; reflexivity).
  assert (apply_role_grant default_settings ex_user.1 ex_proposal 3000 = (ex_applied.1, Ok ())) as E3.
  { assert (ex_applied.2 = Ok ()) as <- by (vm_compute; reflexivity). apply surjective_pairing. }
  apply (rtc_l _ _ ex_confirmed); [exact (ps_user _ _ _ _ _ _ _ _ _ _ _ no_peers E1 Mail eq_refl)|].
  apply (rtc_l _ _ ex_proposed); [exact (ps_propose _ _ _ _ _ _ ex_confirmed E2)|].
  apply rtc_once. refine (ps_apply _ _ _ _ _ _ _ ex_proposed _ E3). by left.
Qed.
Lemma delegation_creates_no_authority_witness :
  rtc peer_step no_peers ex_peers ∧ backed ex_peers "proj" "root-b" "root-c" Mail 5000
  ∧ (resolve_authority "proj" "root-b" "root-c" AgentParent 31000 (registry ex_peers)).2 ≠ Ok Allowed.
Proof.
  split; [exact ex_peers_reached|]. split; [|vm_compute; congruence].
  destruct (delegation_creates_no_authority ex_peers 5000 ex_peers_reached) as (_ & _ & H).
  destruct (H "proj" "root-b" "root-c" AgentParent _ eq_refl)%string as [?|[?|[?|Hb]]]; [done..|exact Hb].
Defined.

(** A grant of the same authority replaces a longer one, although a replaced grant is meant to be an error. *)
Example equal_grants_are_shortened :
  let longer := user_grant default_settings "proj" "chat-a" "root-a" "root-c" Mail (Some 3600) 1000 in
  let m := (grant 10 longer 1000 ∅).1 in
  (grant 10 ex_user_grant 1000 m).2 = Ok ()
  ∧ expires_at_ms_ <$> (grant 10 ex_user_grant 1000 m).1 !! grant_key longer = Some 31000
  ∧ expires_at_ms_ longer = 3601000.
Proof. vm_compute. done. Qed.

(** ** Seats *)

Definition ex_ops : list RosterOp := [
  RClaim "writer" "chat-1" "k1" None 1000; RAssign "writer" "chat-1" "intro" 2000; RClaim "writer" "chat-2" "k2" None 3000;
  RHeartbeat "writer" "chat-1" 60000; RReclaim "writer" "chat-2" "k2" None 180000; RReclaim "writer" "chat-2" "k2" None 180001;
  RClaim "reader" "chat-1" "k1" None 180002; RRelease "reader" "chat-1" 180003].
(** A log of two entries that dropped three: it is replayed from the holders of that moment. *)
Lemma mission_log_replays_the_roster_witness :
  Nlen ex_ops < u64_max
  ∧ let r := foldl roster_op (with_bounds ex_team 4 2 120000) ex_ops in
    ml_dropped (log r) = 3 ∧ holders r = {["writer"%string := "chat-2"%string]}
    ∧ ∃ k, let r0 := foldl roster_op (with_bounds ex_team 4 2 120000) (take k ex_ops) in
           ml_next_seq (log r0) = 1 + 3 ∧ holders r = foldl replay (holders r0) (me_event <$> ml_entries (log r)).
Proof.
  split; [vm_compute; done|]. cbn zeta.
  assert (Nlen ex_ops < u64_max) as Hn by (vm_compute; done).
  destruct (mission_log_replays_the_roster ex_team 4 2 120000 ex_ops Hn) as (_ & _ & H & _).
  split; [vm_compute; done|]. split; [vm_compute; done|exact H].
Defined.

Definition ex_team_ops : list TeamOp := [
  TRegister ex_team; TRoster "proj" "docs" [RClaim "writer" "chat-1" "k1" None 1000]; TRegister ex_team;
  TRoster "proj" "docs" [RClaim "reader" "chat-2" "k2" None 2000]].
Lemma rosters_follow_their_teams_witness :
  (∀ team, TRegister team ∈ ex_team_ops → team_ok default_settings team)
  ∧ N.of_nat (size (teams (catalog (foldl (team_op default_settings) empty_registry ex_team_ops)))) ≤ team_max_count default_settings.
Proof.
  assert (∀ team, TRegister team ∈ ex_team_ops → team_ok default_settings team) as Hops.
  { intros team Hin. unfold ex_team_ops in Hin. exists "docs"%string, [ex_writer; ex_reader].
    repeat (apply elem_of_cons in Hin as [Hin|Hin]; [try discriminate Hin; injection Hin as ->; vm_compute; reflexivity|]).
    by apply elem_of_nil in Hin. }
  split; [exact Hops|]. destruct (rosters_follow_their_teams default_settings ex_team_ops Hops) as (H & _ & _). exact H.
Defined.

Definition ex_registry : TeamRegistry := foldl (team_op default_settings) empty_registry ex_team_ops.
Definition ex_roster : TeamRoster := default (for_team default_settings ex_team) (rosters ex_registry !! ("proj", "docs")%string).
Definition ex_seat : Seat := new_seat "writer" "chat-1" "k1" None 1000.
Definition ex_later : list TeamOp := [
  TRoster "proj" "docs" [RReclaim "writer" "chat-2" "k2" None 121000; RHeartbeat "writer" "chat-1" 100000]; TRegister ex_team;
  TRoster "other" "docs" [RClaim "writer" "chat-2" "k2" None 500000]].
Lemma seats_are_kept_witness :
  Forall (leaves_alone "proj" "docs" "writer" ex_seat (heartbeat_ttl_ms ex_roster) ex_team) ex_later
  ∧ ∃ r' s', rosters (foldl (team_op default_settings) ex_registry ex_later) !! ("proj", "docs")%string = Some r'
      ∧ seats r' !! "writer"%string = Some s' ∧ still_held ex_seat s'.
Proof.
  assert (Forall (leaves_alone "proj" "docs" "writer" ex_seat (heartbeat_ttl_ms ex_roster) ex_team) ex_later) as Hops.
  { repeat (apply Forall_cons; split); [|done|by intros ?|by apply Forall_nil]. intros _ _.
    repeat (apply Forall_cons; split); [| |by apply Forall_nil]; (split; [vm_compute; split; discriminate|discriminate]). }
  split; [exact Hops|].
  destruct (seats_are_kept default_settings ex_later ex_registry ex_team "proj" "docs" "writer" ex_roster ex_seat) as (r' & s' & H1 & H2 & H3 & _);
    [vm_compute; reflexivity|vm_compute; reflexivity|vm_compute; reflexivity|apply (bool_decide_unpack _); vm_compute; exact I|exact Hops|].
  exists r', s'. split; [exact H1|split; [exact H2|exact H3]].
Defined.
