(* ===== verification/Causal.v ===== *)
(** * Causes of events

    [coordination/causal.rs] with the records of [refact-work-core/src/store/records.rs]: the ring of causal
    events, the events that deliveries, spawned agents, completions and questions record, and the trace of an
    event back through its causes.  The ledger in the coordination store and the privacy policy of a model
    are left out; the processes' one ring is a state. *)

From stdpp Require Import gmap strings list sorting pretty.
From S2P Require Import Prelude RustStr Identity Delivery Board.
Local Open Scope N_scope.

(** ** Events *)

Inductive CausalKind := CkDelivery | CkSpawn | CkCompletion | CkQuestion | CkEvidence | CkDecision.
#[global] Instance CausalKind_eq_dec : EqDecision CausalKind.
Proof. solve_decision. Defined.
#[global] Instance CausalKind_names : StrEnum CausalKind := {|
  ALL := [CkDelivery; CkSpawn; CkCompletion; CkQuestion; CkEvidence; CkDecision];
  as_str k := match k with
    | CkDelivery => "delivery" | CkSpawn => "spawn" | CkCompletion => "completion"
    | CkQuestion => "question" | CkEvidence => "evidence" | CkDecision => "decision"
    end;
|}.
#[global] Instance CausalKind_names_laws : StrEnumLaws CausalKind.
Proof. solve_enum_laws. Qed.

Inductive CausalCause := ByEvent (id : string) | Unknown.
#[global] Instance CausalCause_eq_dec : EqDecision CausalCause.
Proof. solve_decision. Defined.

(** [CausalEvent], and [CausalEventRecord] when it is recorded under a number and a time. *)
Record CausalEvent := {
  ce_event_id : string; ce_kind : CausalKind; ce_scope : string; ce_work : WorkKey; ce_causes : list CausalCause;
  ce_paths : list string }.
Record CausalEventRecord := {
  cr_project : ProjectKey; cr_seq : N; cr_recorded_at_ms : N; cr_event : CausalEvent }.
#[global] Instance CausalEvent_eq_dec : EqDecision CausalEvent.
Proof. solve_decision. Defined.
#[global] Instance CausalEventRecord_eq_dec : EqDecision CausalEventRecord.
Proof. solve_decision. Defined.
Definition cr_id (r : CausalEventRecord) : string := ce_event_id (cr_event r).
Definition causes_or_unknown (r : CausalEventRecord) : list CausalCause :=
  match ce_causes (cr_event r) with [] => [Unknown] | l => l end.

Definition MAX_CAUSES : nat := 32.
Definition MAX_PATHS : nat := 64.
Definition new_event (id : string) (kind : CausalKind) (scope : string) : CausalEvent := {|
  ce_event_id := id; ce_kind := kind; ce_scope := scope; ce_work := {| runtime := Trajectory; work_id := scope |};
  ce_causes := [Unknown]; ce_paths := [] |}.
Definition set_causes (l : list CausalCause) (e : CausalEvent) : CausalEvent := {|
  ce_event_id := ce_event_id e; ce_kind := ce_kind e; ce_scope := ce_scope e; ce_work := ce_work e;
  ce_causes := match l with [] => [Unknown] | _ => take MAX_CAUSES l end; ce_paths := ce_paths e |}.
Definition with_work (w : WorkKey) (e : CausalEvent) : CausalEvent := {|
  ce_event_id := ce_event_id e; ce_kind := ce_kind e; ce_scope := ce_scope e; ce_work := w;
  ce_causes := ce_causes e; ce_paths := ce_paths e |}.
Definition with_paths (l : list string) (e : CausalEvent) : CausalEvent := {|
  ce_event_id := ce_event_id e; ce_kind := ce_kind e; ce_scope := ce_scope e; ce_work := ce_work e;
  ce_causes := ce_causes e; ce_paths := take MAX_PATHS l |}.
Definition into_record (project : ProjectKey) (seq at_ms : N) (e : CausalEvent) : CausalEventRecord :=
  {| cr_project := project; cr_seq := seq; cr_recorded_at_ms := at_ms; cr_event := e |}.

(** ** The ring *)

Record CausalRecorder := { cr_events : list CausalEventRecord; cr_dropped : N; cr_next : N }.
Definition new_recorder : CausalRecorder := {| cr_events := []; cr_dropped := 0; cr_next := 1 |}.
Fixpoint remove_first (id : string) (l : list CausalEventRecord) : list CausalEventRecord :=
  match l with
  | [] => []
  | r :: l => if bool_decide (cr_id r = id) then l else r :: remove_first id l
  end.
Definition push_record (record : CausalEventRecord) (capacity : N) (r : CausalRecorder) : CausalRecorder :=
  let events := remove_first (cr_id record) (cr_events r) ++ [record] in
  let excess := Nlen events - N.max capacity 1 in
  {| cr_events := drop (N.to_nat excess) events; cr_dropped := wrap64 (cr_dropped r + excess); cr_next := cr_next r |}.
Definition find_event (events : list CausalEventRecord) (id : string) : option CausalEventRecord :=
  snd <$> list_find (λ r, cr_id r = id) events.
Definition events_in_scope (scope : string) (r : CausalRecorder) : list CausalEventRecord :=
  filter (λ e, ce_scope (cr_event e) = scope) (cr_events r).
Definition active_cause (scope : string) (r : CausalRecorder) : option string := cr_id <$> last (events_in_scope scope r).
Definition causes_from (scope : string) (r : CausalRecorder) : list CausalCause :=
  match active_cause scope r with Some id => [ByEvent id] | None => [Unknown] end.
(** [record], as far as the ring goes: the number is taken first. *)
Definition record_event (project : ProjectKey) (capacity at_ms : N) (e : CausalEvent) (r : CausalRecorder) : CausalRecorder :=
  push_record (into_record project (cr_next r) at_ms e) capacity
    {| cr_events := cr_events r; cr_dropped := cr_dropped r; cr_next := cr_next r +w 1 |}.

Definition delivery_event {C} (chat_id : string) (d : PendingDelivery C) : CausalEvent :=
  let unstamped := (("delivery:" +:+ pd_id d)%string, []) in
  let '(id, causes) :=
    match causal d with
    | Some stamp =>
        if blank (event_id stamp) then unstamped
        else (event_id stamp, ByEvent <$> filter (λ id, blank id = false) (caused_by stamp))
    | None => unstamped
    end in
  set_causes causes (new_event id CkDelivery chat_id).
Definition spawn_event (parent_chat child_chat : string) (r : CausalRecorder) : CausalEvent :=
  set_causes (causes_from parent_chat r) (new_event ("spawn:" +:+ child_chat) CkSpawn child_chat).
Definition completion_event (agent_id : string) (child_chat : option string) (r : CausalRecorder) : CausalEvent :=
  let scope := default agent_id child_chat in
  set_causes (causes_from scope r)
    (with_work {| runtime := BackgroundAgent; work_id := agent_id |} (new_event ("completion:" +:+ agent_id) CkCompletion scope)).
Definition question_event (asker_chat question_id : string) (r : CausalRecorder) : CausalEvent :=
  set_causes (causes_from asker_chat r) (new_event ("question:" +:+ question_id) CkQuestion asker_chat).

(** ** Traces *)

Record CausalTrace := { tr_root : string; tr_events : list CausalEventRecord; tr_complete : bool; tr_gaps : list string }.
(** The walk: what it has found so far, the ids it has seen, and the stack of events still to be looked at. *)
Record Walk := {
  wk_events : list CausalEventRecord; wk_gaps : list string; wk_seen : gset string; wk_frontier : list CausalEventRecord }.
Definition add_gap (g : string) (w : Walk) : Walk :=
  {| wk_events := wk_events w; wk_gaps := wk_gaps w ++ [g]; wk_seen := wk_seen w; wk_frontier := wk_frontier w |}.
Definition visit_cause (events : list CausalEventRecord) (e : CausalEventRecord) (w : Walk) (cause : CausalCause) : Walk :=
  match cause with
  | Unknown => add_gap (cr_id e +:+ ":unknown") w
  | ByEvent id =>
      if bool_decide (id ∈ wk_seen w) then w
      else
        match find_event events id with
        | Some parent =>
            {| wk_events := wk_events w; wk_gaps := wk_gaps w; wk_seen := {[cr_id parent]} ∪ wk_seen w;
               wk_frontier := parent :: wk_frontier w |}
        | None => add_gap id w
        end
  end.
Definition visit_event (events : list CausalEventRecord) (e : CausalEventRecord) (w : Walk) : Walk :=
  let w := foldl (visit_cause events e) w (causes_or_unknown e) in
  {| wk_events := wk_events w ++ [e]; wk_gaps := wk_gaps w; wk_seen := wk_seen w; wk_frontier := wk_frontier w |}.
(** [None]: out of fuel. *)
Fixpoint walk_causes (fuel : nat) (events : list CausalEventRecord) (w : Walk) : option Walk :=
  match wk_frontier w with
  | [] => Some w
  | e :: rest =>
      match fuel with
      | O => None
      | S fuel =>
          walk_causes fuel events
            (visit_event events e
               {| wk_events := wk_events w; wk_gaps := wk_gaps w; wk_seen := wk_seen w; wk_frontier := rest |})
      end
  end.
(** The order of the trace: the newest first. *)
Definition newest_first (r : CausalEventRecord) (s : CausalEventRecord) : comparison :=
  then_cmp (rcmp (cr_seq s) (cr_seq r)) (rcmp (cr_id s) (cr_id r)).
Fixpoint insert_newest (r : CausalEventRecord) (l : list CausalEventRecord) : list CausalEventRecord :=
  match l with
  | [] => [r]
  | s :: l => match newest_first r s with Gt => s :: insert_newest r l | _ => r :: s :: l end
  end.
(** [complete] is set to false exactly where a gap is noted; the recorder's [trace] sets it once more, for the same gaps. *)
Definition reconstruct (events : list CausalEventRecord) (root : string) : option CausalTrace :=
  match find_event events root with
  | None => Some {| tr_root := root; tr_events := []; tr_complete := false; tr_gaps := [root] |}
  | Some start =>
      w ← walk_causes (S (length events)) events
            {| wk_events := []; wk_gaps := []; wk_seen := {[cr_id start]}; wk_frontier := [start] |};
      Some {| tr_root := root; tr_events := foldr insert_newest [] (wk_events w);
              tr_complete := bool_decide (wk_gaps w = []); tr_gaps := wk_gaps w |}
  end.
Definition trace (root : string) (r : CausalRecorder) : option CausalTrace :=
  t ← reconstruct (cr_events r) root;
  Some (if (0 <? cr_dropped r) && negb (bool_decide (tr_gaps t = []))
        then {| tr_root := tr_root t; tr_events := tr_events t; tr_complete := false; tr_gaps := tr_gaps t |} else t).

(** ** The trace is the ancestry *)

(** What an event goes back to, among the events that are held. *)
Inductive ancestor (events : list CausalEventRecord) (root : string) : CausalEventRecord → Prop :=
  | ancestor_root e : find_event events root = Some e → ancestor events root e
  | ancestor_cause e id p :
      ancestor events root e → ByEvent id ∈ causes_or_unknown e → find_event events id = Some p → ancestor events root p.
(** What is not known of it: an unknown cause, or one that is not held. *)
Inductive gap_in (events : list CausalEventRecord) (root : string) : string → Prop :=
  | gap_root : find_event events root = None → gap_in events root root
  | gap_unknown e : ancestor events root e → Unknown ∈ causes_or_unknown e → gap_in events root (cr_id e +:+ ":unknown")
  | gap_missing e id :
      ancestor events root e → ByEvent id ∈ causes_or_unknown e → find_event events id = None → gap_in events root id.

Lemma find_event_id events id e : find_event events id = Some e → cr_id e = id ∧ e ∈ events.
Proof.
  unfold find_event. intros H. apply fmap_Some in H as ([i e'] & H & ->). apply list_find_Some in H as (Hl & Hid & _).
  split; [done|]. by eapply list_elem_of_lookup_2.
Qed.

Section walk.
Variables (events : list CausalEventRecord) (root : string).
Implicit Types (w : Walk) (e : CausalEventRecord) (c : CausalCause).

Definition settled w e c : Prop :=
  match c with
  | Unknown => (cr_id e +:+ ":unknown")%string ∈ wk_gaps w
  | ByEvent id => id ∈ wk_seen w ∨ (find_event events id = None ∧ id ∈ wk_gaps w)
  end.
(** [now]: the event being looked at, of which the causes [cs] are left. *)
Definition found (now : list CausalEventRecord) w : list CausalEventRecord := wk_events w ++ now ++ wk_frontier w.
Record walk_inv (now : list CausalEventRecord) (cs : list CausalCause) w : Prop := {
  wi_seen id : id ∈ wk_seen w ↔ ∃ e, cr_id e = id ∧ e ∈ found now w;
  wi_nodup : NoDup (cr_id <$> found now w);
  wi_found e : e ∈ found now w → ancestor events root e ∧ find_event events (cr_id e) = Some e;
  wi_gaps g : g ∈ wk_gaps w → gap_in events root g;
  wi_done e c : e ∈ wk_events w ++ now → c ∈ causes_or_unknown e → (e ∈ now ∧ c ∈ cs) ∨ settled w e c }.

Definition ids : gset string := list_to_set (cr_id <$> events).
Definition left w : nat := length (wk_frontier w) + size (ids ∖ wk_seen w).

Lemma add_gap_inv now cs c g w :
  walk_inv now (c :: cs) w → gap_in events root g →
  (∀ e, e ∈ now → c ∈ causes_or_unknown e → settled (add_gap g w) e c) → walk_inv now cs (add_gap g w).
Proof.
  intros [Hs Hn Hf Hg Hd] Hgap Hc. split; [exact Hs|exact Hn|exact Hf| |].
  - intros g' [?| ->%list_elem_of_singleton]%elem_of_app; [by apply Hg|done].
  - assert (∀ e c', settled w e c' → settled (add_gap g w) e c') as Hmono.
    { intros e [id|]; cbn; [intros [?|[? ?]]; [by left|right; split; [done|apply elem_of_app; by left]]|intros; apply elem_of_app; by left]. }
    intros e c' He Hc'. destruct (Hd e c' He Hc') as [[? [->|?]%elem_of_cons]|?]; [right; by apply Hc|by left|right; by apply Hmono].
Qed.

Lemma visit_cause_inv e cs c w :
  walk_inv [e] (c :: cs) w → c ∈ causes_or_unknown e →
  walk_inv [e] cs (visit_cause events e w c) ∧ (left (visit_cause events e w c) ≤ left w)%nat.
Proof.
  intros Hi Hc. assert (e ∈ found [e] w) as Hin by (unfold found; set_solver). destruct (wi_found _ _ _ Hi e Hin) as [Ha _].
  destruct c as [id|]; cbn [visit_cause].
  - case_bool_decide as Hseen.
    { split; [|done]. destruct Hi as [Hs Hn Hf Hg Hd]. split; [exact Hs|exact Hn|exact Hf|exact Hg|]. intros e' c' He' Hc'.
      destruct (Hd e' c' He' Hc') as [[? [->|?]%elem_of_cons]|?]; [right; by left|by left|by right]. }
    destruct (find_event events id) as [p|] eqn:Hp.
    2: { split; [|done]. eapply add_gap_inv; [exact Hi|by eapply gap_missing|]. intros e' _ _. cbn. right. split; [done|set_solver]. }
    destruct (find_event_id _ _ _ Hp) as [<- Hpin]. destruct Hi as [Hs Hn Hf Hg Hd].
    assert (∀ x, x ∈ wk_events w ++ [e] ++ p :: wk_frontier w ↔ x = p ∨ x ∈ found [e] w) as Hfound by (unfold found; set_solver).
    split.
    + split; unfold found; cbn [wk_events wk_frontier wk_seen wk_gaps].
      * intros id. rewrite elem_of_union, elem_of_singleton, (Hs id). setoid_rewrite Hfound. naive_solver.
      * assert (wk_events w ++ [e] ++ p :: wk_frontier w ≡ₚ p :: found [e] w) as -> by (unfold found; solve_Permutation).
        cbn. constructor; [|done]. intros (x & Hx & Hxin)%list_elem_of_fmap. apply Hseen, Hs. by exists x.
      * intros x [->|Hx]%Hfound; [|by apply Hf]. split; [by eapply ancestor_cause|done].
      * exact Hg.
      * intros x c' Hx Hc'. destruct (Hd x c' Hx Hc') as [[? [->|?]%elem_of_cons]|Hset]; [right; left; set_solver|by left|].
        right. destruct c' as [id'|]; [|done]. destruct Hset as [?|?]; [left; set_solver|by right].
    + unfold left. cbn [wk_frontier wk_seen length].
      assert (ids ∖ ({[cr_id p]} ∪ wk_seen w) ⊂ ids ∖ wk_seen w) as Hlt%subset_size; [|lia].
      assert (cr_id p ∈ ids) by (apply elem_of_list_to_set, list_elem_of_fmap; by exists p). set_solver.
  - split; [|done]. eapply add_gap_inv; [exact Hi|by eapply gap_unknown|]. intros e' ->%list_elem_of_singleton _. cbn. set_solver.
Qed.
Lemma visit_causes_inv e cs w :
  walk_inv [e] cs w → (∀ c, c ∈ cs → c ∈ causes_or_unknown e) →
  walk_inv [e] [] (foldl (visit_cause events e) w cs) ∧ (left (foldl (visit_cause events e) w cs) ≤ left w)%nat.
Proof.
  revert w. induction cs as [|c cs IH]; intros w Hi Hcs; [done|]. cbn.
  destruct (visit_cause_inv _ _ _ _ Hi) as [Hi' Hl]; [apply Hcs; by left|].
  destruct (IH _ Hi') as [? ?]; [intros c' ?; apply Hcs; by right|]. split; [done|lia].
Qed.
Lemma visit_event_inv e rest w :
  walk_inv [] [] w → wk_frontier w = e :: rest →
  let w' := visit_event events e {| wk_events := wk_events w; wk_gaps := wk_gaps w; wk_seen := wk_seen w; wk_frontier := rest |} in
  walk_inv [] [] w' ∧ (left w' < left w)%nat.
Proof.
  intros [Hs Hn Hf Hg Hd] Hfr. cbn zeta. unfold visit_event. 
  set (w0 := {| wk_events := wk_events w; wk_gaps := wk_gaps w; wk_seen := wk_seen w; wk_frontier := rest |}).
  assert (found [e] w0 = found [] w) as Ef by (unfold found, w0; cbn; by rewrite Hfr).
  assert (walk_inv [e] (causes_or_unknown e) w0) as H0.
  { split; rewrite ?Ef; [exact Hs|exact Hn|exact Hf|exact Hg|]. intros x c [Hx| ->%list_elem_of_singleton]%elem_of_app Hc.
    - destruct (Hd x c) as [[? _]|?]; [by rewrite app_nil_r|done|set_solver|by right].
    - left. split; [set_solver|done]. }
  destruct (visit_causes_inv _ _ _ H0) as [[Hs' Hn' Hf' Hg' Hd'] Hl]; [done|].
  set (w1 := foldl _ w0 _) in *. split.
  - assert (∀ l : list CausalEventRecord, found [] {| wk_events := wk_events w1 ++ [e]; wk_gaps := wk_gaps w1; wk_seen := wk_seen w1;
              wk_frontier := wk_frontier w1 |} = found [e] w1) as Ef' by (intros _; unfold found; cbn; by rewrite <- app_assoc).
    specialize (Ef' []). split; rewrite ?Ef'; [exact Hs'|exact Hn'|exact Hf'|exact Hg'|].
    intros x c Hx Hc. rewrite app_nil_r in Hx. destruct (Hd' x c Hx Hc) as [[_ ?%elem_of_nil]|?]; [done|by right].
  - unfold left in *. cbn [wk_frontier wk_seen] in *. rewrite Hfr. cbn [length]. unfold w0 in Hl. cbn in Hl. lia.
Qed.
Lemma walk_causes_total fuel w :
  walk_inv [] [] w → (left w ≤ fuel)%nat → ∃ w', walk_causes fuel events w = Some w' ∧ walk_inv [] [] w' ∧ wk_frontier w' = []
    ∧ wk_seen w ⊆ wk_seen w'.
Proof.
  assert (∀ e c v, wk_seen v ⊆ wk_seen (visit_cause events e v c)) as Hsub.
  { intros e [id|] v; cbn; [|done]. case_bool_decide; [done|]. destruct (find_event events id); set_solver. }
  assert (∀ e cs v, wk_seen v ⊆ wk_seen (foldl (visit_cause events e) v cs)) as Hsubs.
  { intros e cs. induction cs as [|c cs IH]; intros v; [done|]. cbn. specialize (Hsub e c v). specialize (IH (visit_cause events e v c)). set_solver. }
  revert w. induction fuel as [|fuel IH]; intros w Hi Hl; cbn [walk_causes]; destruct (wk_frontier w) as [|e rest] eqn:Hfr; [by exists w| |by exists w|].
  - unfold left in Hl. rewrite Hfr in Hl. cbn in Hl. lia.
  - destruct (visit_event_inv e rest w Hi Hfr) as [Hi' Hl']. destruct (IH _ Hi') as (w' & ? & ? & ? & Hw'); [lia|].
    exists w'. split_and!; [done..|]. etransitivity; [|exact Hw']. cbn. apply (Hsubs e _ {| wk_events := wk_events w; wk_gaps := wk_gaps w; wk_seen := wk_seen w; wk_frontier := rest |}).
Qed.
End walk.

Lemma size_ids_le (l : list string) : (size (list_to_set l : gset string) ≤ length l)%nat.
Proof.
  induction l as [|x l IH]; [exact (le_n 0)|]. cbn [list_to_set]. rewrite size_union_alt, size_singleton. cbn [length].
  assert (size ((list_to_set l : gset string) ∖ {[x]}) ≤ size (list_to_set l : gset string))%nat by (apply subseteq_size; set_solver). lia.
Qed.
Lemma insert_newest_perm r l : insert_newest r l ≡ₚ r :: l.
Proof. induction l as [|s l IH]; [done|]. cbn. destruct (newest_first r s); [done|done|]. rewrite IH. apply Permutation_swap. Qed.
Lemma sort_newest_perm l : foldr insert_newest [] l ≡ₚ l.
Proof. induction l as [|r l IH]; [done|]. cbn. by rewrite insert_newest_perm, IH. Qed.
Definition no_older (r s : CausalEventRecord) : Prop := newest_first r s ≠ Gt.
Lemma no_older_trans r s x : no_older r s → no_older s x → no_older r x.
Proof. intros Hr Hs. change (rle (cr_seq x, cr_id x) (cr_seq r, cr_id r)). by transitivity (cr_seq s, cr_id s). Qed.
Lemma sort_newest_sorted l : StronglySorted no_older (foldr insert_newest [] l).
Proof.
  assert (∀ r l, StronglySorted no_older l → StronglySorted no_older (insert_newest r l)) as Hins.
  { intros r l'. induction 1 as [|s l' Hs IH Hall]; cbn; [by repeat constructor|].
    destruct (newest_first r s) eqn:E.
    1,2: constructor; [by constructor|]; constructor; [unfold no_older; congruence|];
      eapply Forall_impl; [exact Hall|]; intros x Hx; eapply no_older_trans; [|exact Hx]; unfold no_older; congruence.
    constructor; [done|]. rewrite insert_newest_perm. constructor; [|done].
    change (rle (cr_seq r, cr_id r) (cr_seq s, cr_id s)).
    destruct (total rle (cr_seq r, cr_id r) (cr_seq s, cr_id s)) as [?|Hr]; [done|]. by destruct Hr. }
  induction l as [|r l IH]; [constructor|]. by apply Hins.
Qed.

(** C39. A trace is the ancestry of its event.  It always ends; its events are, each once and newest first, exactly those
    reached from the root along recorded causes; its gaps are exactly the unknown causes and the causes that
    are not held, and it is complete exactly when there is none. *)
Theorem trace_is_the_ancestry r root :
  ∃ t, trace root r = Some t
  ∧ (∀ e, e ∈ tr_events t ↔ ancestor (cr_events r) root e)
  ∧ NoDup (cr_id <$> tr_events t) ∧ StronglySorted no_older (tr_events t)
  ∧ (∀ g, g ∈ tr_gaps t ↔ gap_in (cr_events r) root g)
  ∧ (tr_complete t = true ↔ ∀ g, ¬ gap_in (cr_events r) root g).
Proof.
  set (events := cr_events r).
  assert (∃ t, reconstruct events root = Some t
    ∧ (∀ e, e ∈ tr_events t ↔ ancestor events root e)
    ∧ NoDup (cr_id <$> tr_events t) ∧ StronglySorted no_older (tr_events t)
    ∧ (∀ g, g ∈ tr_gaps t ↔ gap_in events root g)
    ∧ tr_complete t = bool_decide (tr_gaps t = [])) as (t & Ht & He & Hn & Hs & Hg & Hc).
  { unfold reconstruct. destruct (find_event events root) as [start|] eqn:Hstart.
    - destruct (find_event_id _ _ _ Hstart) as [Hid Hin].
      assert (walk_inv events root [] [] {| wk_events := []; wk_gaps := []; wk_seen := {[cr_id start]}; wk_frontier := [start] |}) as H0.
      { split; unfold found; cbn.
        - intros id. rewrite elem_of_singleton. setoid_rewrite list_elem_of_singleton. naive_solver.
        - repeat constructor. by intros ?%elem_of_nil.
        - intros e ->%list_elem_of_singleton. split; [by apply ancestor_root|by rewrite Hid].
        - by intros g ?%elem_of_nil.
        - by intros e c ?%elem_of_nil. }
      destruct (walk_causes_total events root (S (length events)) _ H0) as (w & Hw & [Hs Hn Hf Hg Hd] & Hfr & Hsub).
      { unfold left. cbn [wk_frontier wk_seen length]. assert (size (ids events ∖ {[cr_id start]}) ≤ size (ids events))%nat by (apply subseteq_size; set_solver).
        assert (size (ids events) ≤ length events)%nat; [|lia]. unfold ids. rewrite <- (length_fmap cr_id events). apply size_ids_le. }
      rewrite Hw. cbn. eexists. split; [done|]. unfold found in *. rewrite Hfr, !app_nil_r in *. cbn [tr_events tr_gaps tr_complete].
      assert (∀ e, ancestor events root e → e ∈ wk_events w) as Hanc.
      { intros e. assert (∀ id p, id ∈ wk_seen w → find_event events id = Some p → p ∈ wk_events w) as Hheld.
        { intros id p (x & <- & Hx)%Hs Hp. destruct (Hf x Hx) as [_ Hx']. congruence. }
        induction 1 as [e He|e id p _ IH Hc Hp]; [apply (Hheld root); [apply Hsub; cbn; set_solver|done]|].
        destruct (Hd e (ByEvent id) IH Hc) as [[?%elem_of_nil _]|[?|[? _]]]; [done|by eapply Hheld|congruence]. }
      split_and!; [|by rewrite sort_newest_perm|apply sort_newest_sorted| |done].
      + intros e. rewrite sort_newest_perm. split; [intros Hx; by apply Hf|apply Hanc].
      + intros g. split; [apply Hg|]. intros [Hr|e He Hc|e id He Hc Hm]; [congruence| |].
        * by destruct (Hd e Unknown (Hanc _ He) Hc) as [[?%elem_of_nil _]|?].
        * destruct (Hd e (ByEvent id) (Hanc _ He) Hc) as [[?%elem_of_nil _]|[(x & <- & Hx)%Hs|[_ ?]]]; [done| |done].
          destruct (Hf x Hx) as [_ ?]. congruence.
    - eexists. split; [done|]. cbn.
      assert (∀ e, ¬ ancestor events root e) as Hno by (induction 1; congruence).
      split_and!; [|constructor|constructor| |done].
      + intros e. split; [by intros ?%elem_of_nil|by intros ?%Hno].
      + intros g. rewrite list_elem_of_singleton. split; [intros ->; by apply gap_root|]. by intros [?|? ?%Hno|? ? ?%Hno]. }
  unfold trace. fold events. rewrite Ht. cbn.
  assert (tr_complete t = true ↔ ∀ g, ¬ gap_in events root g) as Hiff.
  { rewrite Hc, bool_decide_eq_true. split.
    - intros E g Hgap. apply Hg in Hgap. rewrite E in Hgap. by apply elem_of_nil in Hgap.
    - intros Hno. destruct (tr_gaps t) as [|g l]; [done|]. exfalso. apply (Hno g), Hg. by left. }
  destruct (bool_decide (tr_gaps t = [])) eqn:Hgaps.
  - rewrite andb_false_r. by exists t.
  - destruct (0 <? cr_dropped r); cbn; [|by exists t]. eexists. split; [done|]. cbn. split_and!; [done..|].
    rewrite Hc in Hiff. exact Hiff.
Qed.

(** ** The ring *)

Lemma remove_first_sub id l r : r ∈ remove_first id l → r ∈ l.
Proof. induction l as [|s l IH]; [done|]. cbn. case_bool_decide; set_solver. Qed.
Lemma remove_first_ids id l : NoDup (cr_id <$> l) → NoDup (cr_id <$> remove_first id l) ∧ id ∉ cr_id <$> remove_first id l.
Proof.
  induction l as [|s l IH]; cbn; [intros _; split; [constructor|by intros ?%elem_of_nil]|]. intros [Hs Hn]%NoDup_cons.
  case_bool_decide as E; [by subst id|]. destruct (IH Hn) as [Hn' Hid]. cbn. split.
  - constructor; [|done]. intros (r & Er & Hr)%list_elem_of_fmap. apply Hs, list_elem_of_fmap. exists r. split; [done|].
    by eapply remove_first_sub.
  - intros [?|?]%elem_of_cons; [congruence|done].
Qed.
(** Each event is held once, under its last record, and the ring is bounded. *)
Lemma recorded_events_are_distinct project capacity at_ms e r :
  NoDup (cr_id <$> cr_events r) →
  let r' := record_event project capacity at_ms e r in
  NoDup (cr_id <$> cr_events r') ∧ Nlen (cr_events r') ≤ N.max capacity 1
  ∧ find_event (cr_events r') (ce_event_id e) = Some (into_record project (cr_next r) at_ms e).
Proof.
  intros Hn. cbn zeta. unfold record_event, push_record. cbn [cr_events]. set (rec := into_record _ _ _ _).
  destruct (remove_first_ids (cr_id rec) (cr_events r) Hn) as [Hn' Hid]. set (l := remove_first (cr_id rec) (cr_events r)) in *.
  set (k := N.to_nat (Nlen (l ++ [rec]) - N.max capacity 1)).
  assert (k ≤ length l)%nat as Hk by (unfold k, Nlen; rewrite length_app; cbn; lia). rewrite drop_app_le by done.
  assert (cr_id rec ∉ cr_id <$> drop k l) as Hid'.
  { intros (x & Ex & Hx)%list_elem_of_fmap. apply Hid, list_elem_of_fmap. exists x. split; [done|]. by eapply subseteq_drop. }
  split_and!.
  - rewrite fmap_app. apply NoDup_app. split_and!; [|cbn; intros x Hx Hx2; apply list_elem_of_singleton in Hx2 as ->; done|cbn; repeat constructor; by intros ?%elem_of_nil].
    revert Hn'. rewrite <- (take_drop k l) at 1. rewrite fmap_app. by intros (_ & _ & ?)%NoDup_app.
  - unfold k, Nlen in *. rewrite length_app, length_drop. rewrite length_app in *. cbn in *. lia.
  - unfold find_event. rewrite list_find_app_r; [cbn; by rewrite decide_True by done|].
    apply list_find_None, Forall_forall. intros x Hx Ex. apply Hid', list_elem_of_fmap. by exists x.
Qed.

(** ** A repeated completion

    An agent is woken by a delivery and completes; when its completion is noted again (it was resumed without a
    recorded delivery, or its end is reported twice), the new record names itself as its cause and takes the
    place of the old one: the trace shows one event, and calls itself complete. *)

Definition ex_ring (again : bool) : CausalRecorder :=
  let note e r := record_event {| project_name := "proj" |} 100 1000 e r in
  let d := set_causes [Unknown] (new_event "mail" CkDelivery "chat") in
  let r := note d new_recorder in
  let r := note (completion_event "agent" (Some "chat"%string) r) r in
  if again then note (completion_event "agent" (Some "chat"%string) r) r else r.
Example repeated_completion_causes_itself :
  ((λ t, (cr_id <$> tr_events t, tr_gaps t, tr_complete t)) <$> trace "completion:agent" (ex_ring false))
    = Some (["completion:agent"; "mail"]%string, ["mail:unknown"%string], false)
  ∧ ((λ t, (cr_id <$> tr_events t, tr_gaps t, tr_complete t)) <$> trace "completion:agent" (ex_ring true))
    = Some (["completion:agent"]%string, [], true)
  ∧ (ce_causes ∘ cr_event <$> last (cr_events (ex_ring true))) = Some [ByEvent "completion:agent"].
Proof. vm_compute. done. Qed.
